(* ===== verification/_CoqProject ===== *)
-Q . S2P
Prelude.v
Bytes.v
Origin.v
Redirect.v
Lifecycle.v
AuQueue.v
Vocabulary.v
Estimate.v
Window.v
Ladder.v
Plant.v
Catalog.v
Viability.v
Mode.v
Original.v
Bootstrap.v
Controller.v
Transactions.v
HlsClock.v
ClockTraces.v
Transport.v
HlsUri.v
HlsPlaylist.v
HlsTracker.v
Digest.v
StorageState.v
StorageHistory.v
Landing.v
LandingTraces.v
NativeGate.v
Devcaps.v
CapsClaims.v
Recovery.v
RecoveryTraces.v
Hashing.v
Pins.v
ViewLedger.v
ViewState.v
ViewReconcile.v
ViewEnds.v
ViewTraces.v
ViewProgress.v
LandGate.v
LandGateTraces.v
RouteControl.v
RouteStart.v
RouteTrial.v
RouteTraces.v
RouteFlight.v
RouteFlights.v
BackendPolicy.v
BackendEpisodes.v
ShelfWindow.v
ShelfReading.v
ShelfAsk.v
ShelfLedger.v
ShelfKeys.v
ShelfLedgers.v
ShelfRow.v
ShelfPlace.v
ShelfRows.v
ShelfHubs.v
Witnesses.v
FeedWitnesses.v
StorageWitnesses.v
MachineWitnesses.v
PlayerWitnesses.v
KeyWitnesses.v
ViewWitnesses.v
GateWitnesses.v
RouteWitnesses.v
ShelfWitnesses.v
