(* ===== verification/Prelude.v ===== *)
(** * PlxNative: a verification development of the playback core

    PlxNative is a Plex client for LG webOS televisions, written in Rust ([src/rust-modules/*])
    over a small C shim.  This library models the parts of it that decide how a film is played:
    which stream is chosen and when it is changed, how an HLS playlist is read and followed, who may
    start and stop the native clock, how demuxed media is queued, how playback comes back after the
    television suspended the app, what the set can play and what is tried when it refuses, where a
    request for media may be sent and which server key is trusted, what the stored document of
    account, preferences and consents may become, how watched marks reach the servers, how a shelf is
    paged while its listing changes, and who may change the route of a playback that is under way.  Definitions are shallow translations
    of the Rust code and are executable; theorems are about those definitions.

    ** The program's parts and the files that model them

    _Access-unit queue_ ([play-feed/src/aq.rs]), file [AuQueue]: the bounded FIFO between the
    demuxer thread and the feed loop.  Its critical sections are functions on the record
    [AuQueue]; a push that parks is split where the source releases the mutex; [sys_step] and
    [run] replay an explicit interleaving of producer, consumer, abort and headroom changes.

    _Foreground lifecycle_ ([media/src/player/lifecycle.rs], [foreground.rs]), file [Lifecycle]:
    the state machine that restores playback after a suspend ([step] is the Rust [step]), and the
    four drivers that run it against the app.  What the app does is the class
    [ForegroundActuator], as the trait is in the source; the drivers are proved for every
    instance.  Load attempts are an abstract type with decidable equality.

    _Adaptive bitrate_ ([media/src/abr/*.rs]), one file each:
    - [Vocabulary] (mod.rs): the policy constants ([policy_measured]), media time, snapshots;
    - [Estimate] (estimate.rs): capacity estimates, observations, HLS samples;
    - [Window] (window.rs): the acquisitions of one episode, as an associative summary, and the
      diagnostics ring;
    - [Ladder], [Catalog] (ladder.rs): the rungs, observed pictures, and the operating points
      feasible on this panel for this source;
    - [Plant] (plant.rs): production speed, reserve and its slope, starvation horizon, refill;
    - [Viability] (viability.rs): risk scores and the time budgets of candidate transactions;
    - [Mode] (mode.rs): the comparison of the original file with HLS;
    - [Original] (original.rs): probing the original source, and leaving it;
    - [Bootstrap] (bootstrap.rs): cold start and re-entry;
    - [Controller] (controller.rs): the controller; [observe_inner] is the Rust function of that
      name, cut into the stages its body has ([begin_sample], [take_delivery], [take_reserve],
      [take_acquisition], then [decide_abandoned], [decide_pinned], [decide_downshift],
      [decide_upshift]); [reject], [commit_candidate] and the rest follow the source;
    - [Transactions]: histories of a controller ([step]: anything but a commit; [any_step]) and
      the theorems about whole transactions.

    _Network_ ([net/src]): file [Bytes] holds what Rust strings do ([split_once], [trim_matches],
    integer parsing and printing, slices at character boundaries) on lists of bytes; [Origin]
    (net/origin.rs) the scheme, host and port of a server, read from a URL and written into one;
    [Redirect] (stream_redirect.rs, and [next_hop] of curlio.rs) what a redirect resolves to and
    whether it is followed.  [open_following] is the loop of the Rust function of that name; what
    the socket client answers is the class [Transport], and the worlds in which each request is
    dialled are recorded with it, so that the credential gate is asked in the right one.

    _HLS native clock and transport_ ([play-feed/src/shared.rs]): [HlsClock] has the record behind
    the mutex [hls_clock] with the atomics its operations publish, and one function per operation
    (a critical section each: pause, resume, prime, candidate publication, trial, automatic
    transition, stop, reset).  An operation that waits on the condition variable answers [None]
    until it need not; [clock_step] is one operation as an event, [clock_steps] and [clock_history]
    their interleavings.  [ClockTraces] has the theorems about those.  [Transport] has the pause
    clock with its cursors, the rate mapping, paused seeks and the preroll mute.

    _HLS playlists_ ([play-feed/src/hls.rs]): [HlsUri] resolves what a playlist writes against the
    resource it came from and moves the credential in and out of request paths; [HlsPlaylist] has
    both readers, line by line; [HlsTracker] the segment timelines, the start segment and the
    accumulated playlist.  Fallible code of these files is in the monad [Outcome] below.

    _Stored document_ ([platform/src/storage/state.rs]): [Digest] has SHA-256, digests and key names;
    [StorageState] the document, its validation and every transition with the receipts it leaves;
    [StorageHistory] the theorems about series of transitions.  The JSON text codec, its
    numbers and the build's install identities are the classes [StateCodec], [JsonNumber] and
    [Identities].

    _Machine landing_ ([machine/src/landing.rs]): [Landing] is the mailbox between the workers and the
    main thread (admission, progress, completion, cancellation, the drain), one function per
    operation; [LandingTraces] has series of operations and refines them to one queue.

    _Native gate_ ([play-feed/src/native_gate.rs]): [NativeGate] is the state that says which native
    callback may touch which session: phases, epochs, seeks and presentation probes.

    _Device capabilities_ ([platform/src/devcaps.rs]): [Devcaps] reads the set's capability table,
    narrows it (exclusions, decoder ranks, learned refusals, the facets one attempt does without,
    a codec the app decodes itself) and answers what the planner asks; the JSON reading of the table
    is the class [TableCodec].  [CapsClaims] has the theorems.

    _Failed-open recovery_ ([media/src/player/recovery.rs]): [Recovery] is the ladder a refused play
    walks; [step] is the Rust function, from an event to a state and effects.  It plans each attempt
    with the functions of [Devcaps].  [RecoveryTraces] has the theorems about series of events ([run]).

    _Hashing and keys_ ([base/src/sha256.rs], [b64.rs], [spki.rs]): [Hashing] is the streaming SHA-256
    with HMAC and PBKDF2 on it; [Pins] the Base64 codec, the DER reader, and the pin of the first
    certificate of a PEM text.

    _Watch state_ ([data/src/viewledger.rs], [viewstate.rs], [stores/viewstate.rs],
    [stores/viewreconcile.rs], the methods of [Stores] that join them): [ViewLedger] has the edits, the
    rows they reach and the table a read overtaken by a press is patched from; [ViewState] the queue
    that sends one write at a time, the worker with its fan-out (the registry and the servers are the
    class [Servers]) and the landing pass; [ViewReconcile] the read-back of what was written, and
    [reconcile_pump], which joins the two.  The stores that are told are a list of [Call]s.
    [ViewEnds] says where an end of a stream that is fanned out comes from; [ViewTraces] has histories
    of events ([history]: presses, pumps, answers of the runner, stops) and what they keep;
    [ViewProgress] that bursts end and owed reads are kept.

    _Landing gate_ ([machine/src/landgate.rs], [land_schedule] of [ui/src/rec.rs], [Fetch] of
    [data/src/stores/mod.rs]): [LandGate] has the gate that grades each answer a worker hands to the
    main thread (recorded against a script, or paced), the waits of its settling calls over a world
    whose mailboxes change while the thread sleeps, and the tokens by which a store claims a fetch.
    [LandGateTraces] has series of landings and what a script makes of them.

    _Route control_ ([media/src/route/decision.rs], [plan.rs], [backend_policy.rs], [flight.rs]): the
    mutex [PLAYER_CONTROL] says which route is live and which asynchronous party may still change it.
    [RouteControl] has its record [PlayerControl] with resolves, the viewer's contract, seeks and
    claims; [RouteStart] the start transactions, the Load attempts, the end of an Engine and the flight
    markers; [RouteTrial] the encoders, the trial of an Original with its two ways out, and timeline
    samples.  A definition is one critical section: a function that releases the mutex and takes it
    again is cut there.  What the session holds is an argument of each section, the types it only
    copies are the class [RouteData].  [RouteTraces] has the sections as events ([RouteEvent],
    [route_step]) in any order.  [RouteFlight] has the mailbox between the workers of the flights and
    the frame thread, and the ledger of encoders the server has yet to release; [RouteFlights] their
    series.  [BackendPolicy] has the finite recipes of a request and the session's methods that plan
    and admit one; [BackendEpisodes] whole recoveries.

    _Shelves_ ([data/src/stores/paging.rs]): a shelf shows at most twenty-four cards of a listing and
    moves over it in halves.  Reads are functions on the server's world ([Reading]), which may change
    with every request.  [ShelfWindow] has [fetch_window], from one page to the whole ask;
    [ShelfReading] the pieces of a listing that holds still, and [ShelfAsk] that an ask shows one.
    [ShelfLedger] has the keys a row has shown, with their index, and the window that moves over them
    when the listing cannot be addressed; [ShelfKeys] and [ShelfLedgers] what both keep, with the
    triples ([yields]) for reads of any server.  [ShelfRow] has [read_row], which chooses between the
    two, and the windowed list of hubs; [ShelfPlace] says what a window that says it is in its place has
    found there; [ShelfRows] and [ShelfHubs] have the theorems about rows and hub lists.

    The parts interact as in the source: the controller reads a [SegmentSample], folds it into
    its estimate and window, asks the catalog for feasible points and viability for budgets, and
    returns a decision which the worker later rejects or commits; [Original] and [Mode] compare
    the running HLS stream with the source; [Bootstrap] builds the first controller.

    [Witnesses] applies every theorem with hypotheses to one concrete playback; [FeedWitnesses]
    does so for the clock, the transport and the playlists, [StorageWitnesses] for the document,
    [MachineWitnesses] for the landing and the gate, [PlayerWitnesses] for capabilities and recovery,
    [KeyWitnesses] for hashes and pins, [ViewWitnesses] for watch state, [GateWitnesses] for the
    landing gate, [RouteWitnesses] for route control, [ShelfWitnesses] for shelves.

    ** What the theorems show

    - Controller: no reachable controller panics, a decision never moves the picture, a failure
      is never retried on the budget that failed, an upshift follows an episode the reserve survives
      and is funded by reserve nothing else needs, an unsustainable episode is left at once, a commit
      is exact.
    - Windows: the constant-size summary refines the replay of the acquisitions it stands for,
      in the order they happened and in the worst order, and refuses where a total does not fit;
      folding is associative.
    - Queue: FIFO and exact byte accounting under every interleaving, no lost wakeup, abort is
      final, the soft cap yields only to a starved neighbour, released headroom drains away.
    - Lifecycle: answers are consumed by the claim they were made for only, a park retires what
      came before, restores round-trip, an exit is final, every driver terminates.
    - Redirects: whatever the network answers, the credentials of a request go to its own origin only,
      every later request is where the answer before it sent it, off that origin exactly as the
      Location spells it, and https is never left for plaintext, a chain ends after at most six requests, and a
      resolved target holds nothing a request line may not; origins are read back as written.
    - Clock: a pause the viewer was granted, on a running clock or on one that is held already, stands
      against every automatic party, a resume the sink is owed is
      never lost, tokens settle at most once, a transition commits only on the boundary it was
      planned on, a publication excludes Plays and leases and its waiter is woken, a prime plays on
      exactly what it measured, starvation ends exactly when a replay of the fetches would survive;
      pauses are discounted once each.
    - Playlists: no reference leaves the playlist's origin, the credential is added once and taken
      out again, accepted playlists are well formed and unknown tags refused, the tracker refines an
      append-only list, segments are delivered once, times depend on announced durations alone.
    - Stored document: every transition gives a document that validates, a repeated operation is
      answered from its receipt, nothing prepared before a sign-out lands after it, consent and
      session are independent, a prepared refresh is the transition it stands for.
    - Landing: any series of operations is one queue in arrival order; an operation ends once, a
      cancelled one is silent, storage is bounded and every loss counted.
    - Native gate: a callback writes its own session only, a seek fences the presentations before
      it, a released object is kept until its release is done.
    - Capabilities: the table is never exceeded whatever the order of its rows (the
      formats the app decodes itself, by the ceiling of the PCM it feeds), every narrowing only
      takes away, and a learned refusal holds from the next start.
    - Recovery: every failure is answered, conversions are bounded, a forced play is never converted,
      an attempt never claims more than its start, what is recorded as proved is the rescue of a
      refusal of the native feed by one conversion.
    - Hashing and keys: the streaming hash is the one-shot hash, HMAC and PBKDF2 are the standards'
      constructions, Base64 round-trips, the DER reader accepts exactly what its grammar of the front of
      a certificate does (looser than the standard: signature and tail are not read), a pin of a PEM
      text names the key of its first certificate block.
    - Watch state: a read is patched as if every press and every landing it was overtaken by were made
      again in their order, a press outlives every read it overtook, writes leave in order and only as
      they were pressed or as a stop and its read-back warrant, a read-back never undoes a press, bursts
      end with the one refresh they owe, owed reads are kept, a mark reaches each copy once.
    - Landing gate: a replay grades every landing against its script, and is clean exactly when the
      answers land as recorded; a paced answer lands on the frame its request asked for; a batch is
      handed out whole; a stale answer frees no claim made after its own.
    - Route control: whatever the order of sections, a Load is minted once and its result accepted at
      most once, only for the newest; a route opens on the success of the Load in flight, or when a
      preparation that was refused gives back what was open (a recovery flight included); a failed trial is undone whatever happened during it; a suspend gives a claimed pick back;
      a refusal leaves the route as it was; a worker of an Engine that ended changes nothing.
    - Flights, cleanup, recipes: each landing ends once and installs only for its own flight; an encoder
      is owed until its resource is reconciled; the best recipe left is opened, each once, with one
      crossing of backends and one rollback, and only recipes of the backend in use are revisited; a
      start that is allowed is admitted.
    - Shelves: an ask of a listing that moved since it was read shows a piece of it as it is now, without
      a gap or a repeated card, and reads on; against any server an ask ends without a panic and leaves a
      row the next ask can be made against; a row stays with the listing only while its edge is found
      and it does not contradict the ledger, else the ledger answers; the ledger keeps the order of
      what was shown, new keys beside the ones they were shown with, and its index is the list's; a hub
      list that holds still, and whose windows are full where it has no total, is taken once.
    - Estimates, plant, ladder, modes, probes, budgets: bounds, exact characterisations of each
      admission test, optimality of the planners, stability of the mode choice.

    ** Integers, fuel, failure

    Machine integers are [Z], with saturation, wrapping and checked operations written out
    ([u64_sat], [u64_wrap], [i64_checked], ...).  The shipped profile has overflow checks off,
    so plain arithmetic wraps; the target is 32-bit ARM, so [usize] and [c_long] are 32 bits
    wide.  A panic is [None]: [observe_inner] returns an option because of an [expect] in the
    source, and [controller_never_panics] shows it is never hit.  Fuel is given
    to the drivers' loop ([LOOP_FUEL], 3 turns), to the redirect follower ([FOLLOW_FUEL], 6) and
    to splitting a header block on line ends (its length): [drivers_settle] and [following_ends]
    show the first two are never exhausted.  Splitting a message into blocks or groups is given the
    length of the message, padding 64 turns (a block), and the schedule of SHA-256 its 48 words.
    The streaming hash takes blocks off its input at most as often as the input is long, and pads at
    most 64 times; a settling call of the landing gate polls at most [WAIT_POLLS] (400) times, as the
    source bounds it; the reads of a shelf's window are given ten and the end they must reach, those of a
    ledger nine (the loop makes eight requests), and a hub list its length and two, which the theorems
    show to be enough; trimming and taking out white space take a step per byte.  A string slice inside a
    character is [None] too.  The
    reserve is bounded by [RESERVE_BOUND_MS] where a theorem needs it: the playback positions
    it is the difference of are themselves bounded media times.

    ** What is not modelled

    Telemetry, logging and display strings; null-pointer guards, allocation and freeing in the
    queue; condition variables beyond "asleep, possibly signalled" (a sleeper may wake at any
    time, as POSIX allows).  In the network files, the
    socket client and libcurl (an interface), the DNS pin, the store of key pins and log forms.
    In the playlist files, the [Debug] and [Display] texts; in the stored document, the random device
    behind a fresh generation and the log-safe texts, and the service thread around it.
    In the landing, the canonical hash of its drop counters; in the native gate, the operations only
    tests use; in the capabilities, the evidence prose of the exclusions, log texts, and the Dolby
    Vision profiles of devcaps/dv.rs; in the recovery ladder, display texts; around watch state, the
    watch list and the notification stores, and the decoding of answers (what the landing gate lets
    through is an input of each pump there).  In the landing gate, the fixture gate of the tests, the
    order in which a drained map is listed, and the assertion that a thread may block.  In route control,
    what happens between the sections: the plans, the calls to the server, the installation of what
    came back on the session, and the replay of the commands a trial deferred; the requests of the
    timeline reporter; the injected faults of the tests.  In the shelves, what makes a card of an item
    ([shelf_card] is data of the listing), the log line of a hub that is not paged, and the stored form.
    Of the program: TLS, HTTP and the JSON text, the native player and
    OpenGL, screens and widgets, the rest of the feed loop, the storage service, the
    planning of routes and most data stores. *)

From Stdlib Require Export ZArith Lia Bool.
From stdpp Require Export base option list numbers decidable sets sorting.

#[global] Open Scope Z_scope.

(** ** Machine integers

    Integers are [Z]; what makes an operation of the source saturate, wrap or fail is written
    out at the operation.  The constants are those of the shipped target
    ([armv7-unknown-linux-gnueabi]): [usize] and [c_long] are 32 bits wide there. *)

Definition u8_max : Z := 255.
Definition u16_max : Z := 65535.
Definition u32_max : Z := 4294967295.
Definition u64_max : Z := 18446744073709551615.
Definition u128_max : Z := 340282366920938463463374607431768211455.
Definition i32_max : Z := 2147483647.
Definition i32_min : Z := -2147483648.
Definition i64_max : Z := 9223372036854775807.
Definition i64_min : Z := -9223372036854775808.
Definition usize_max : Z := u32_max.

(** A [Duration] is its nanoseconds; [Duration::MAX], and the saturating operations. *)
Definition duration_max : Z := u64_max * 1000000000 + 999999999.
Definition duration_sat (z : Z) : Z := Z.max 0 (Z.min duration_max z).

Definition is_u8 (z : Z) : Prop := 0 <= z <= u8_max.
Definition is_u16 (z : Z) : Prop := 0 <= z <= u16_max.
Definition is_u32 (z : Z) : Prop := 0 <= z <= u32_max.
Definition is_u64 (z : Z) : Prop := 0 <= z <= u64_max.
Definition is_usize (z : Z) : Prop := 0 <= z <= usize_max.
Definition is_i64 (z : Z) : Prop := i64_min <= z <= i64_max.

(** [saturating_add], [saturating_sub], [saturating_mul]: the exact result, clamped. *)
Definition u8_sat (z : Z) : Z := Z.max 0 (Z.min u8_max z).
Definition u32_sat (z : Z) : Z := Z.max 0 (Z.min u32_max z).
Definition u64_sat (z : Z) : Z := Z.max 0 (Z.min u64_max z).
Definition u128_sat (z : Z) : Z := Z.max 0 (Z.min u128_max z).
Definition usize_sat (z : Z) : Z := Z.max 0 (Z.min usize_max z).
Definition i64_sat (z : Z) : Z := Z.max i64_min (Z.min i64_max z).

(** Plain [+], [-], [*] in the shipped profile ([overflow-checks] off): two's complement. *)
Definition u32_wrap (z : Z) : Z := z mod 4294967296.
Definition u64_wrap (z : Z) : Z := z mod 18446744073709551616.
Definition i32_wrap (z : Z) : Z := (z + 2147483648) mod 4294967296 - 2147483648.
Definition i64_wrap (z : Z) : Z :=
  (z + 9223372036854775808) mod 18446744073709551616 - 9223372036854775808.

(** [checked_add], [checked_sub], [checked_mul], [try_from]: [None] out of range. *)
Definition checked (lo hi z : Z) : option Z :=
  if (lo <=? z) && (z <=? hi) then Some z else None.
Definition u16_checked : Z -> option Z := checked 0 u16_max.
Definition u32_checked : Z -> option Z := checked 0 u32_max.
Definition u64_checked : Z -> option Z := checked 0 u64_max.
Definition i64_checked : Z -> option Z := checked i64_min i64_max.
Definition usize_checked : Z -> option Z := checked 0 usize_max.

Ltac unfold_ints :=
  unfold is_u8, is_u16, is_u32, is_u64, is_usize, is_i64,
    u8_sat, u32_sat, u64_sat, u128_sat, usize_sat, i64_sat,
    usize_max, u8_max, u16_max, u32_max, u64_max, u128_max,
    i32_max, i32_min, i64_max, i64_min in *.

(** [ints]: linear arithmetic after the machine constants are unfolded. *)
Ltac ints := unfold_ints; lia.

Lemma u32_wrap_small z : is_u32 z -> u32_wrap z = z.
Proof. intros. unfold u32_wrap. apply Z.mod_small. ints. Qed.

Lemma u64_wrap_small z : is_u64 z -> u64_wrap z = z.
Proof. intros. unfold u64_wrap. apply Z.mod_small. ints. Qed.

Lemma i64_wrap_small z : is_i64 z -> i64_wrap z = z.
Proof. intros. unfold i64_wrap. rewrite Z.mod_small; ints. Qed.

(** [unwrap]: drop, innermost first, the wraps whose argument is in range. *)
Ltac unwrap :=
  repeat match goal with
  | |- context [u64_wrap ?x] =>
      lazymatch x with context [u64_wrap _] => fail | _ => rewrite (u64_wrap_small x) by ints end
  | |- context [u32_wrap ?x] =>
      lazymatch x with context [u32_wrap _] => fail | _ => rewrite (u32_wrap_small x) by ints end
  | |- context [i64_wrap ?x] =>
      lazymatch x with context [i64_wrap _] => fail | _ => rewrite (i64_wrap_small x) by ints end
  end.

Lemma u64_wrap_range z : is_u64 (u64_wrap z).
Proof.
  unfold u64_wrap. pose proof (Z.mod_pos_bound z 18446744073709551616 eq_refl). ints.
Qed.

Lemma i64_wrap_range z : is_i64 (i64_wrap z).
Proof.
  unfold i64_wrap.
  pose proof (Z.mod_pos_bound (z + 9223372036854775808) 18446744073709551616 eq_refl). ints.
Qed.

Lemma i64_sat_range z : is_i64 (i64_sat z).
Proof. ints. Qed.

Lemma i64_sat_small z : is_i64 z -> i64_sat z = z.
Proof. ints. Qed.

Lemma u32_sat_range z : is_u32 (u32_sat z).
Proof. ints. Qed.

Lemma u64_sat_range z : is_u64 (u64_sat z).
Proof. ints. Qed.

Lemma checked_Some lo hi z r : checked lo hi z = Some r <-> r = z /\ lo <= z <= hi.
Proof.
  unfold checked.
  destruct (Z.leb_spec lo z), (Z.leb_spec z hi); simpl; split; intros; simplify_eq; try lia;
    intuition (subst; done).
Qed.

Lemma checked_None lo hi z : checked lo hi z = None <-> ~ (lo <= z <= hi).
Proof.
  unfold checked.
  destruct (Z.leb_spec lo z), (Z.leb_spec z hi); simpl; split; intros; simplify_eq; try lia; done.
Qed.

Lemma i64_checked_Some z r : i64_checked z = Some r <-> r = z /\ is_i64 z.
Proof. apply checked_Some. Qed.

Lemma i64_checked_None z : i64_checked z = None <-> ~ is_i64 z.
Proof. apply checked_None. Qed.

Lemma usize_checked_Some z r : usize_checked z = Some r <-> r = z /\ is_usize z.
Proof. apply checked_Some. Qed.

(** A product of bounded factors is bounded: the step every overflow argument takes. *)
Lemma mul_bound a b A B : 0 <= a <= A -> 0 <= b <= B -> 0 <= a * b <= A * B.
Proof. nia. Qed.

(** Rounding down: a quotient reaches [a] exactly when the dividend covers it. *)
Lemma le_div_iff a b c : 0 < c -> a <= b / c <-> a * c <= b.
Proof.
  intros Hc. split; intros H.
  - pose proof (Z.mul_div_le b c Hc). nia.
  - apply Z.div_le_lower_bound; lia.
Qed.

Lemma div_lt_iff a b c : 0 < c -> b / c < a <-> b < a * c.
Proof. intros Hc. pose proof (le_div_iff a b c Hc). lia. Qed.

Lemma div_range a b M : 0 <= a <= M -> 0 < b -> 0 <= a / b <= M.
Proof.
  intros Ha Hb. split; [apply Z.div_pos; lia|apply Z.div_le_upper_bound; [lia|nia]].
Qed.

Create HintDb plx discriminated.
#[export] Hint Resolve i64_sat_range u32_sat_range u64_sat_range u64_wrap_range
  i64_wrap_range : plx.

(** ** Booleans: one tactic turns the source's tests into propositions. *)

Ltac bools :=
  repeat match goal with
  | H : context [(?a <=? ?b)%Z] |- _ => destruct (Z.leb_spec a b); simpl in H
  | H : context [(?a <? ?b)%Z] |- _ => destruct (Z.ltb_spec a b); simpl in H
  | H : context [(?a =? ?b)%Z] |- _ => destruct (Z.eqb_spec a b); simpl in H
  | |- context [(?a <=? ?b)%Z] => destruct (Z.leb_spec a b); simpl
  | |- context [(?a <? ?b)%Z] => destruct (Z.ltb_spec a b); simpl
  | |- context [(?a =? ?b)%Z] => destruct (Z.eqb_spec a b); simpl
  end.

(** [split_match]: case analysis on whatever the goal is stuck on. *)
Ltac split_match :=
  repeat match goal with
  | |- context [match ?x with _ => _ end] => destruct x eqn:?; simplify_eq/=
  end.

(** ** Record update

    [r <| field := v |>] rebuilds [r] with one field replaced.  A record opts in by giving its
    eta expansion as an [Eta] instance; the updater of a field is computed from it. *)

Class Eta (R : Type) := eta : R -> R.

Class Updater {R T : Type} (proj : R -> T) := update : (T -> T) -> R -> R.
Arguments update {R T} proj {_} f r.

Ltac build_updater proj :=
  lazymatch type of proj with
  | ?R -> ?T =>
      let e := constr:(_ : Eta R) in
      exact (fun (f : T -> T) (r : R) =>
        ltac:(let b := eval hnf in (@eta R e r) in
              lazymatch eval pattern (proj r) in b with
              | ?g _ => let t := eval cbv beta in (g (f (proj r))) in exact t
              end))
  end.

#[export] Hint Extern 1 (Updater ?proj) => build_updater proj : typeclass_instances.

Declare Scope record_scope.
Delimit Scope record_scope with rec.
Notation "x <| proj := v |>" := (update proj (fun _ => v) x)
  (at level 1, left associativity, proj at level 99, v at level 200,
   format "x  <| proj  :=  v |>") : record_scope.
#[global] Open Scope record_scope.

(** ** Results that may also be panics *)

(** A [Result], or the panic of an [expect]. *)
Inductive Outcome (E A : Type) :=
  | Ok (a : A)
  | Err (e : E)
  | Panics.
Arguments Ok {E A} a.
Arguments Err {E A} e.
Arguments Panics {E A}.

#[export] Instance outcome_bind {E} : MBind (Outcome E) := fun A B f x =>
  match x with Ok a => f a | Err e => Err e | Panics => Panics end.

#[export] Instance outcome_fmap {E} : FMap (Outcome E) := fun A B f x =>
  match x with Ok a => Ok (f a) | Err e => Err e | Panics => Panics end.

Definition ok_or {E A} (e : E) (o : option A) : Outcome E A :=
  match o with Some a => Ok a | None => Err e end.

(** [if test { return Err(e) }]. *)
Definition refuse {E} (e : E) (test : bool) : Outcome E unit := if test then Err e else Ok tt.

Definition expect {E A} (o : option A) : Outcome E A :=
  match o with Some a => Ok a | None => Panics end.

Lemma bind_Ok {E A B} (f : A -> Outcome E B) x b :
  mbind f x = Ok b <-> exists a, x = Ok a /\ f a = Ok b.
Proof. destruct x; cbn; split; try done; eauto; intros (? & ? & ?); by simplify_eq. Qed.

Lemma ok_or_Ok {E A} (e : E) (o : option A) a : ok_or e o = Ok a <-> o = Some a.
Proof. destruct o; cbn; split; intros; by simplify_eq. Qed.

Lemma refuse_Ok {E} (e : E) b u : refuse e b = Ok u <-> b = false.
Proof. destruct b, u; cbn; split; intros; by simplify_eq. Qed.

Lemma expect_Ok {E A} (o : option A) a : expect (E := E) o = Ok a <-> o = Some a.
Proof. destruct o; cbn; split; intros; by simplify_eq. Qed.

Lemma bind_Panics {E A B} (f : A -> Outcome E B) x :
  x <> Panics -> (forall a, x = Ok a -> f a <> Panics) -> mbind f x <> Panics.
Proof. destruct x; cbn; auto. Qed.

Lemma ok_or_not_Panics {E A} (e : E) (o : option A) : ok_or e o <> Panics.
Proof. by destruct o. Qed.
Lemma refuse_not_Panics {E} (e : E) b : refuse e b <> Panics.
Proof. by destruct b. Qed.

(** [outcomes]: take the [Ok]s of a computation apart. *)
Ltac outcomes :=
  repeat match goal with
  | H : mbind _ _ = Ok _ |- _ => apply bind_Ok in H as (? & ? & ?)
  | H : ok_or _ _ = Ok _ |- _ => apply ok_or_Ok in H
  | H : refuse _ _ = Ok _ |- _ => apply refuse_Ok in H
  | H : expect _ = Ok _ |- _ => apply expect_Ok in H
  end.

Create HintDb panics discriminated.
#[export] Hint Resolve ok_or_not_Panics refuse_not_Panics : panics.

(** [no_panic]: a computation made of checks does not panic. *)
Ltac no_panic :=
  repeat first
    [ done
    | solve [auto with panics nocore]
    | apply bind_Panics; [|intros ? ?] ].

(** ** Iterator helpers of the source *)

(** [Iterator::max_by_key]: the LAST of the maximal elements. *)
Definition max_by_key {A} (f : A -> Z) (l : list A) : option A :=
  fold_left
    (fun acc x =>
       match acc with
       | None => Some x
       | Some m => if f m <=? f x then Some x else Some m
       end) l None.

(** [Iterator::min_by_key]: the FIRST of the minimal elements. *)
Definition min_by_key {A} (f : A -> Z) (l : list A) : option A :=
  fold_left
    (fun acc x =>
       match acc with
       | None => Some x
       | Some m => if f m <=? f x then Some m else Some x
       end) l None.

(** [sort_by_key]: the stable sort. *)
Fixpoint insert_by_key {A} (f : A -> Z) (x : A) (l : list A) : list A :=
  match l with
  | [] => [x]
  | y :: l => if f x <=? f y then x :: y :: l else y :: insert_by_key f x l
  end.
Definition sort_by_key {A} (f : A -> Z) (l : list A) : list A := foldr (insert_by_key f) [] l.

Lemma insert_by_key_perm {A} (f : A -> Z) x l : insert_by_key f x l ≡ₚ x :: l.
Proof.
  induction l as [|y l IH]; simpl; [done|]. destruct (f x <=? f y); [done|]. rewrite IH. constructor.
Qed.

Lemma sort_by_key_perm {A} (f : A -> Z) l : sort_by_key f l ≡ₚ l.
Proof. induction l as [|x l IH]; simpl; [done|]. by rewrite insert_by_key_perm, IH. Qed.

Lemma insert_by_key_sorted {A} (f : A -> Z) x l :
  StronglySorted (fun a b => f a <= f b) l -> StronglySorted (fun a b => f a <= f b) (insert_by_key f x l).
Proof.
  induction 1 as [|y l Hl IH Hy]; simpl; [by repeat constructor|].
  destruct (Z.leb_spec (f x) (f y)).
  - constructor; [by constructor|]. constructor; [done|]. eapply Forall_impl; [exact Hy|]. simpl. lia.
  - constructor; [done|]. rewrite insert_by_key_perm. constructor; [lia|done].
Qed.

Lemma sort_by_key_sorted {A} (f : A -> Z) l : StronglySorted (fun a b => f a <= f b) (sort_by_key f l).
Proof. induction l; simpl; [constructor|]. by apply insert_by_key_sorted. Qed.

(** Distinct keys: the sorted list is the only one. *)
Lemma sort_by_key_unique {A} (f : A -> Z) l l' :
  l ≡ₚ l' -> StronglySorted (fun a b => f a < f b) l' -> sort_by_key f l = l'.
Proof.
  intros Hp Hs. apply (StronglySorted_unique_strong (fun a b => f a <= f b)).
  - intros x y Hx Hy Hxy Hyx. rewrite sort_by_key_perm, Hp in Hx. clear Hp.
    induction Hs as [|z l' Hl IH Hz]; [by apply elem_of_nil in Hx|].
    rewrite Forall_forall in Hz.
    apply elem_of_cons in Hx as [->|Hx], Hy as [->|Hy]; [done| | |by apply IH].
    + specialize (Hz _ Hy). simpl in Hz. lia.
    + specialize (Hz _ Hx). simpl in Hz. lia.
  - apply sort_by_key_sorted.
  - eapply StronglySorted_ind with (P := fun l => StronglySorted (fun a b => f a <= f b) l);
      [constructor| |exact Hs].
    intros a k _ Hk Ha. constructor; [done|]. eapply Forall_impl; [exact Ha|]. simpl. lia.
  - by rewrite sort_by_key_perm.
Qed.

(** [filter] by a boolean test. *)

Lemma filter_Forall {A} (P : A -> Prop) keep l : Forall P l -> Forall P (List.filter keep l).
Proof. induction 1; simpl; [done|]. destruct (keep x); by try constructor. Qed.

Lemma filter_sorted {A} (R : A -> A -> Prop) keep l :
  StronglySorted R l -> StronglySorted R (List.filter keep l).
Proof.
  induction 1; simpl; [constructor|]. destruct (keep a); [|done].
  constructor; [done|by apply filter_Forall].
Qed.

Lemma filter_length_incl {A} (p keep : A -> bool) (l : list A) :
  (List.length (List.filter p (List.filter keep l)) <= List.length (List.filter p l))%nat.
Proof.
  induction l as [|x l IH]; simpl; [lia|]. destruct (keep x), (p x) eqn:E; simpl; rewrite ?E; simpl; lia.
Qed.

Lemma filter_split_perm {A} (p : A -> bool) (q : list A) :
  List.filter p q ++ List.filter (negb ∘ p) q ≡ₚ q.
Proof.
  unfold compose. induction q as [|x q IH]; simpl; [done|]. destruct (p x); simpl; [by rewrite IH|].
  by rewrite <-Permutation_middle, IH.
Qed.

Lemma filter_comm {A} (p p' : A -> bool) l :
  List.filter p (List.filter p' l) = List.filter p' (List.filter p l).
Proof.
  induction l as [|x l IH]; simpl; [done|].
  destruct (p x) eqn:E, (p' x) eqn:E'; simpl; rewrite ?E, ?E'; by rewrite IH.
Qed.

Lemma filter_snd {A B} (keep : B -> bool) (q : list (A * B)) :
  (List.filter (keep ∘ snd) q).*2 = List.filter keep q.*2.
Proof. unfold compose. induction q as [|[x r] q IH]; csimpl; [done|]. destruct (keep r); csimpl; by rewrite IH. Qed.

Definition is_some {A} (o : option A) : bool := match o with Some _ => true | None => false end.

(** Folds from the left. *)

Lemma fold_left_perm {A B} (f : A -> B -> A) l l' :
  (forall a x y, f (f a x) y = f (f a y) x) -> l ≡ₚ l' -> forall a, fold_left f l a = fold_left f l' a.
Proof.
  intros Hf. induction 1; intros a; simpl; [done|done|by rewrite Hf|].
  by rewrite IHPermutation1.
Qed.

Lemma fold_left_ind {A B} (f : A -> B -> A) (P : A -> Prop) l a :
  P a -> (forall a x, x ∈ l -> P a -> P (f a x)) -> P (fold_left f l a).
Proof.
  revert a. induction l as [|x l IH]; intros a Ha Hf; simpl; [done|].
  apply IH; [apply Hf; [by left|done]|]. intros. apply Hf; [by right|done].
Qed.

(** [Vec::swap_remove]. *)
Definition swap_remove {A} (i : nat) (l : list A) : list A :=
  match last l with
  | Some x => take (List.length l - 1) (<[i := x]> l)
  | None => l
  end.

(** [Option::or_else] on values. *)
Definition or_else {A} (o p : option A) : option A :=
  match o with Some _ => o | None => p end.

Lemma max_by_key_acc {A} (f : A -> Z) l : forall m,
  exists r,
    fold_left
      (fun acc x =>
         match acc with
         | None => Some x
         | Some m => if f m <=? f x then Some x else Some m
         end) l (Some m) = Some r
    /\ (r = m \/ r ∈ l) /\ f m <= f r /\ (forall x, x ∈ l -> f x <= f r).
Proof.
  induction l as [|y l IH]; intros m; simpl.
  - exists m. split; [done|]. split; [by left|]. split; [lia|]. intros x Hx. by apply elem_of_nil in Hx.
  - destruct (Z.leb_spec (f m) (f y)) as [Hle|Hlt].
    + destruct (IH y) as (r & -> & Hin & Hm & Hall). exists r. split; [done|].
      split; [right; destruct Hin as [->|]; set_solver|]. split; [lia|].
      intros x [->|Hx]%elem_of_cons; [done|by apply Hall].
    + destruct (IH m) as (r & -> & Hin & Hm & Hall). exists r. split; [done|].
      split; [destruct Hin as [->|]; [by left|right; set_solver]|]. split; [done|].
      intros x [->|Hx]%elem_of_cons; [lia|by apply Hall].
Qed.

Lemma max_by_key_Some {A} (f : A -> Z) l r :
  max_by_key f l = Some r -> r ∈ l /\ forall x, x ∈ l -> f x <= f r.
Proof.
  unfold max_by_key. destruct l as [|y l]; simpl; [done|].
  destruct (max_by_key_acc f l y) as (r' & -> & Hin & Hm & Hall).
  intros [= <-]. split; [destruct Hin as [->|]; set_solver|].
  intros x [->|Hx]%elem_of_cons; [done|by apply Hall].
Qed.

Lemma max_by_key_None {A} (f : A -> Z) l : max_by_key f l = None <-> l = [].
Proof.
  unfold max_by_key. destruct l as [|y l]; simpl; [done|].
  destruct (max_by_key_acc f l y) as (r' & -> & _). done.
Qed.


Lemma min_by_key_acc {A} (f : A -> Z) l : forall m,
  exists r,
    fold_left
      (fun acc x =>
         match acc with
         | None => Some x
         | Some m => if f m <=? f x then Some m else Some x
         end) l (Some m) = Some r
    /\ (r = m \/ r ∈ l) /\ f r <= f m /\ (forall x, x ∈ l -> f r <= f x).
Proof.
  induction l as [|y l IH]; intros m; simpl.
  - exists m. split; [done|]. split; [by left|]. split; [lia|]. intros x Hx. by apply elem_of_nil in Hx.
  - destruct (Z.leb_spec (f m) (f y)) as [Hle|Hlt].
    + destruct (IH m) as (r & -> & Hin & Hm & Hall). exists r. split; [done|].
      split; [destruct Hin as [->|]; [by left|right; set_solver]|]. split; [done|].
      intros x [->|Hx]%elem_of_cons; [lia|by apply Hall].
    + destruct (IH y) as (r & -> & Hin & Hm & Hall). exists r. split; [done|].
      split; [right; destruct Hin as [->|]; set_solver|]. split; [lia|].
      intros x [->|Hx]%elem_of_cons; [done|by apply Hall].
Qed.

Lemma min_by_key_Some {A} (f : A -> Z) l r :
  min_by_key f l = Some r -> r ∈ l /\ forall x, x ∈ l -> f r <= f x.
Proof.
  unfold min_by_key. destruct l as [|y l]; simpl; [done|].
  destruct (min_by_key_acc f l y) as (r' & -> & Hin & Hm & Hall).
  intros [= <-]. split; [destruct Hin as [->|]; set_solver|].
  intros x [->|Hx]%elem_of_cons; [done|by apply Hall].
Qed.

Lemma min_by_key_None {A} (f : A -> Z) l : min_by_key f l = None <-> l = [].
Proof.
  unfold min_by_key. destruct l as [|y l]; simpl; [done|].
  destruct (min_by_key_acc f l y) as (r' & -> & _). done.
Qed.
