(* ===== verification/Bytes.v ===== *)
(** * Byte strings

    The part of Rust's [str] and integer formatting the network files use.  A [str] is its UTF-8
    bytes; a slice at a byte index panics (here: is [None]) inside a character. *)

From Stdlib Require Import Ascii String.
From S2P Require Import Prelude.

#[local] Open Scope Z_scope.

Abbreviation bytes := (list Z).

Definition lit (s : string) : bytes :=
  (fun a => Z.of_N (N_of_ascii a)) <$> list_ascii_of_string s.

(** ** Searching and cutting *)

(** [find]: the index of the first byte satisfying [p]. *)
Fixpoint find_byte (p : Z -> bool) (s : bytes) : option nat :=
  match s with
  | [] => None
  | b :: s => if p b then Some 0%nat else S <$> find_byte p s
  end.

(** [find(..).unwrap_or(len)]. *)
Definition find_or_end (p : Z -> bool) (s : bytes) : nat :=
  default (List.length s) (find_byte p s).

(** [rfind] of one byte. *)
Fixpoint rfind_byte (c : Z) (s : bytes) : option nat :=
  match s with
  | [] => None
  | b :: s =>
      match rfind_byte c s with
      | Some i => Some (S i)
      | None => if b =? c then Some 0%nat else None
      end
  end.

Definition contains (c : Z) (s : bytes) : bool := existsb (Z.eqb c) s.

Fixpoint split_once (c : Z) (s : bytes) : option (bytes * bytes) :=
  match s with
  | [] => None
  | b :: s =>
      if b =? c then Some ([], s)
      else match split_once c s with Some (l, r) => Some (b :: l, r) | None => None end
  end.

Fixpoint strip_prefix (p s : bytes) : option bytes :=
  match p, s with
  | [], _ => Some s
  | a :: p, b :: s => if a =? b then strip_prefix p s else None
  | _ :: _, [] => None
  end.

Definition starts_with (p s : bytes) : bool :=
  match strip_prefix p s with Some _ => true | None => false end.

(** [split_once] on a longer separator. *)
Fixpoint split_once_str (p s : bytes) : option (bytes * bytes) :=
  match strip_prefix p s with
  | Some r => Some ([], r)
  | None =>
      match s with
      | [] => None
      | b :: s =>
          match split_once_str p s with Some (l, r) => Some (b :: l, r) | None => None end
      end
  end.

(** [split] on one byte: always at least one part. *)
Fixpoint split (c : Z) (s : bytes) : list bytes :=
  match s with
  | [] => [[]]
  | b :: s =>
      if b =? c then [] :: split c s
      else match split c s with
           | h :: t => (b :: h) :: t
           | [] => [[b]]
           end
  end.

Fixpoint join (c : Z) (l : list bytes) : bytes :=
  match l with
  | [] => []
  | [h] => h
  | h :: t => h ++ c :: join c t
  end.

(** [split] on a longer separator, as the list of the parts. *)
Fixpoint split_str (fuel : nat) (p s : bytes) : list bytes :=
  match fuel with
  | O => [s]
  | S fuel =>
      match split_once_str p s with
      | Some (l, r) => l :: split_str fuel p r
      | None => [s]
      end
  end.

(** [trim_matches]. *)
Fixpoint trim_start (p : Z -> bool) (s : bytes) : bytes :=
  match s with
  | [] => []
  | b :: s' => if p b then trim_start p s' else s
  end.
Definition trim_matches (p : Z -> bool) (s : bytes) : bytes :=
  rev (trim_start p (rev (trim_start p s))).

(** [get(..n)]: [None] past the end and inside a character. *)
Definition is_char_boundary (s : bytes) (n : nat) : bool :=
  match s !! n with
  | Some b => negb ((128 <=? b) && (b <? 192))
  | None => (n =? List.length s)%nat
  end.
Definition get_to (n : nat) (s : bytes) : option bytes :=
  if is_char_boundary s n then Some (take n s) else None.

(** ** Lines and white space *)

Definition CR : Z := 13.
Definition LF : Z := 10.
Definition COMMA : Z := 44.
Definition QUOTE : Z := 34.

Definition ends_with (p s : bytes) : bool := starts_with (rev p) (rev s).

Definition strip_suffix (p s : bytes) : option bytes := @rev Z <$> strip_prefix (rev p) (rev s).

(** The characters of the Unicode property [White_Space], in UTF-8. *)
Definition white_space : list bytes :=
  ((fun b => [b]) <$> [9; 10; 11; 12; 13; 32])
  ++ [[194; 133]; [194; 160]; [225; 154; 128]]
  ++ ((fun b => [226; 128; b])
      <$> [128; 129; 130; 131; 132; 133; 134; 135; 136; 137; 138; 168; 169; 175])
  ++ [[226; 129; 159]; [227; 128; 128]].

(** [str::trim]: characters of [White_Space] off both ends, one at a time; a string of [n] bytes
    has at most [n] of them. *)
Fixpoint trim_front (fuel : nat) (strip : bytes -> bytes -> option bytes) (s : bytes) : bytes :=
  match fuel with
  | O => s
  | S fuel =>
      match list_find (fun w => strip w s <> None) white_space with
      | Some (_, w) => trim_front fuel strip (default s (strip w s))
      | None => s
      end
  end.
Definition trim (s : bytes) : bytes :=
  let s := trim_front (List.length s) strip_prefix s in
  trim_front (List.length s) strip_suffix s.

(** [str::lines]: the parts between line feeds, without a carriage return before the feed; no
    empty part after the last feed. *)
Definition text_lines (s : bytes) : list bytes :=
  match reverse (split LF s) with
  | last :: before =>
      reverse ((fun raw => default raw (strip_suffix [CR] raw)) <$> before)
      ++ match last with [] => [] | _ => [last] end
  | [] => []
  end.

(** ** ASCII case *)

Definition to_lower (b : Z) : Z := if (65 <=? b) && (b <=? 90) then b + 32 else b.
Definition to_ascii_lowercase (s : bytes) : bytes := to_lower <$> s.
Definition eq_ignore_ascii_case (a b : bytes) : bool :=
  bool_decide (to_ascii_lowercase a = to_ascii_lowercase b).

(** ** Decimal integers *)

Definition is_digit (b : Z) : bool := (48 <=? b) && (b <=? 57).

Definition digits_value (s : bytes) : Z := fold_left (fun acc b => acc * 10 + (b - 48)) s 0.

Definition parse_digits (max : Z) (s : bytes) : option Z :=
  match s with
  | [] => None
  | _ =>
      if forallb is_digit s
      then if digits_value s <=? max then Some (digits_value s) else None
      else None
  end.

(** [parse::<u16>]: an optional [+], digits, no overflow. *)
Definition parse_u16 (s : bytes) : option Z :=
  parse_digits u16_max (default s (strip_prefix [43] s)).

(** [parse::<i64>]. *)
Definition parse_i64 (s : bytes) : option Z :=
  match strip_prefix [45] s with
  | Some digits => Z.opp <$> parse_digits (i64_max + 1) digits
  | None => parse_digits i64_max (default s (strip_prefix [43] s))
  end.

(** [Display] of an integer; twenty digits carry any 64-bit value. *)
Fixpoint show_digits (fuel : nat) (n : Z) : bytes :=
  match fuel with
  | O => []
  | S fuel =>
      if n <? 10 then [48 + n] else show_digits fuel (n / 10) ++ [48 + n mod 10]
  end.
Definition show (z : Z) : bytes :=
  if z <? 0 then 45 :: show_digits 20 (- z) else show_digits 20 z.

(** ** Lemmas *)

Lemma contains_false c s : contains c s = false <-> Forall (fun b => b <> c) s.
Proof.
  unfold contains. induction s as [|b s IH]; simpl.
  - split; [constructor|done].
  - rewrite Forall_cons, orb_false_iff, Z.eqb_neq, IH. intuition congruence.
Qed.

Lemma strip_prefix_app p s : strip_prefix p (p ++ s) = Some s.
Proof. induction p; simpl; [done|]. by rewrite Z.eqb_refl. Qed.

Lemma strip_prefix_Some p s r : strip_prefix p s = Some r -> s = p ++ r.
Proof.
  revert s. induction p as [|a p IH]; intros [|b s]; simpl; intros; simplify_eq; try done.
  destruct (Z.eqb_spec a b); [|done]. subst. f_equal. auto.
Qed.

Lemma split_once_Some c s l r :
  split_once c s = Some (l, r) -> s = l ++ c :: r /\ Forall (fun b => b <> c) l.
Proof.
  revert l. induction s as [|b s IH]; intros l; simpl; [done|].
  destruct (Z.eqb_spec b c) as [->|Hb].
  - intros [= <- <-]. auto.
  - destruct (split_once c s) as [[l' r']|]; [|done]. intros [= <- <-].
    destruct (IH l' eq_refl) as [-> Hl]. auto.
Qed.

Lemma split_once_None c s : split_once c s = None <-> Forall (fun b => b <> c) s.
Proof.
  induction s as [|b s IH]; simpl; [split; [constructor|done]|].
  rewrite Forall_cons. destruct (Z.eqb_spec b c) as [->|Hb]; [intuition done|].
  destruct (split_once c s) as [[l r]|]; [|intuition done].
  split; [done|]. intros [_ H]. by apply IH in H.
Qed.

Lemma split_once_app c l r :
  Forall (fun b => b <> c) l -> split_once c (l ++ c :: r) = Some (l, r).
Proof.
  induction 1 as [|b l Hb Hl IH]; simpl; [by rewrite Z.eqb_refl|].
  apply Z.eqb_neq in Hb. by rewrite Hb, IH.
Qed.

Lemma split_nonempty c s : split c s <> [].
Proof. destruct s as [|b s]; simpl; [done|]. destruct (b =? c); [done|]. by destruct (split c s). Qed.

(** No part contains the separator, and the parts are made of the string's bytes. *)
Lemma split_parts c s (P : Z -> Prop) :
  Forall P s -> Forall (fun t => Forall (fun b => b <> c) t /\ Forall P t) (split c s).
Proof.
  induction 1 as [|b s Hb Hs IH]; simpl; [repeat constructor|].
  destruct (Z.eqb_spec b c) as [->|Hne]; [by repeat constructor|].
  destruct (split c s) as [|h t]; [by repeat constructor|].
  inversion IH as [|? ? [Hh1 Hh2] Ht]; subst. repeat constructor; done.
Qed.

Lemma split_no_sep c s : Forall (fun b => b <> c) s -> split c s = [s].
Proof.
  induction 1 as [|b s Hb Hs IH]; simpl; [done|]. apply Z.eqb_neq in Hb. by rewrite Hb, IH.
Qed.

Lemma split_app_sep c l r :
  Forall (fun b => b <> c) l -> split c (l ++ c :: r) = l :: split c r.
Proof.
  induction 1 as [|b l Hb Hl IH]; simpl; [by rewrite Z.eqb_refl|].
  apply Z.eqb_neq in Hb. by rewrite Hb, IH.
Qed.

Lemma split_join c l :
  l <> [] -> Forall (Forall (fun b => b <> c)) l -> split c (join c l) = l.
Proof.
  intros Hne Hl. induction Hl as [|h t Hh Ht IH]; [done|]. destruct t as [|h' t].
  - simpl. by apply split_no_sep.
  - change (join c (h :: h' :: t)) with (h ++ c :: join c (h' :: t)).
    rewrite split_app_sep by done. f_equal. by apply IH.
Qed.

Lemma split_app c l r : split c (l ++ c :: r) = split c l ++ split c r.
Proof.
  induction l as [|b l IH]; simpl; [by rewrite Z.eqb_refl|].
  destruct (b =? c); rewrite IH; [done|].
  destruct (split c l) as [|h t] eqn:E; [by apply split_nonempty in E|]. done.
Qed.

Lemma join_split c s : join c (split c s) = s.
Proof.
  induction s as [|b s IH]; simpl; [done|].
  destruct (Z.eqb_spec b c) as [->|Hb].
  - destruct (split c s) as [|h t] eqn:E; [by apply split_nonempty in E|].
    change (join c ([] :: h :: t)) with (c :: join c (h :: t)). by rewrite IH.
  - destruct (split c s) as [|h t] eqn:E; [by apply split_nonempty in E|].
    destruct t as [|h' t]; simpl in *; by rewrite IH.
Qed.

Lemma join_Forall c l (P : Z -> Prop) : P c -> Forall (Forall P) l -> Forall P (join c l).
Proof.
  intros Hc Hl. induction Hl as [|h t Hh Ht IH]; [constructor|]. destruct t as [|h' t]; [done|].
  change (join c (h :: h' :: t)) with (h ++ c :: join c (h' :: t)).
  apply Forall_app. split; [done|]. by constructor.
Qed.

Lemma trim_start_Forall p s (P : Z -> Prop) : Forall P s -> Forall P (trim_start p s).
Proof. induction 1; simpl; [constructor|]. destruct (p _); auto. Qed.

Lemma trim_matches_Forall p s (P : Z -> Prop) : Forall P s -> Forall P (trim_matches p s).
Proof.
  intros. unfold trim_matches. apply Forall_rev, trim_start_Forall, Forall_rev.
  by apply trim_start_Forall.
Qed.

(** A printed number is made of digits, and is read back. *)
Lemma digits_value_snoc s b : digits_value (s ++ [b]) = digits_value s * 10 + (b - 48).
Proof. unfold digits_value. by rewrite fold_left_app. Qed.

Lemma show_digits_spec fuel n :
  (0 < fuel)%nat -> 0 <= n < 10 ^ Z.of_nat fuel ->
  digits_value (show_digits fuel n) = n
  /\ Forall (fun b => 48 <= b <= 57) (show_digits fuel n)
  /\ show_digits fuel n <> [].
Proof.
  revert n. induction fuel as [|fuel IH]; intros n Hf Hn; [lia|]. simpl.
  destruct (Z.ltb_spec n 10) as [Hlt|Hge].
  - split; [unfold digits_value; simpl; lia|]. split; [|done]. repeat constructor; lia.
  - assert (H10 : 10 ^ Z.of_nat (S fuel) = 10 * 10 ^ Z.of_nat fuel)
      by (rewrite Nat2Z.inj_succ, Z.pow_succ_r; lia).
    assert (Hdiv : 0 <= n / 10 < 10 ^ Z.of_nat fuel).
    { split; [apply Z.div_pos; lia|]. apply Z.div_lt_upper_bound; lia. }
    assert (0 < fuel)%nat.
    { destruct fuel; [|lia]. simpl in Hdiv.
      pose proof (Z.div_le_lower_bound n 10 1 ltac:(lia) ltac:(lia)). lia. }
    destruct (IH (n / 10)) as (Hv & Hd & _); [done|done|].
    pose proof (Z.mod_pos_bound n 10 eq_refl). pose proof (Z.div_mod n 10 ltac:(lia)).
    split; [rewrite digits_value_snoc, Hv; lia|]. split.
    + apply Forall_app. split; [done|]. repeat constructor; lia.
    + by destruct (show_digits fuel (n / 10)).
Qed.

Lemma digits_are_digits s : Forall (fun b => 48 <= b <= 57) s -> forallb is_digit s = true.
Proof.
  intros Hs. apply forallb_forall. intros b Hb. rewrite Forall_forall in Hs.
  specialize (Hs b). unfold is_digit. rewrite andb_true_iff, !Z.leb_le. apply Hs.
  by apply list_elem_of_In.
Qed.

Lemma parse_digits_show max n :
  0 <= n <= max -> n < 10 ^ 20 -> parse_digits max (show n) = Some n.
Proof.
  intros Hn Hb. unfold show. destruct (Z.ltb_spec n 0); [lia|].
  destruct (show_digits_spec 20 n) as (Hv & Hd & Hne); [lia|simpl; lia|].
  unfold parse_digits. rewrite digits_are_digits by done. rewrite Hv.
  destruct (show_digits 20 n); [done|]. destruct (Z.leb_spec n max); [done|lia].
Qed.

Lemma show_digits_bytes n : 0 <= n < 10 ^ 20 -> Forall (fun b => 48 <= b <= 57) (show n).
Proof.
  intros Hn. unfold show. destruct (Z.ltb_spec n 0); [lia|].
  by apply (show_digits_spec 20 n); [lia|simpl; lia].
Qed.

Lemma strip_sign_digits c s :
  c < 48 -> Forall (fun b => 48 <= b <= 57) s -> strip_prefix [c] s = None \/ s = [].
Proof.
  intros Hc Hs. destruct Hs as [|b s Hb Hs]; [by right|]. left. simpl.
  destruct (Z.eqb_spec c b); [lia|done].
Qed.

Lemma parse_i64_show n : 0 <= n <= i64_max -> parse_i64 (show n) = Some n.
Proof.
  intros Hn. assert (n < 10 ^ 20) by ints. unfold parse_i64.
  assert (Hne : show n <> []).
  { unfold show. destruct (Z.ltb_spec n 0); [lia|]. by apply (show_digits_spec 20 n); [lia|simpl; lia]. }
  pose proof (show_digits_bytes n ltac:(lia)) as Hd.
  destruct (strip_sign_digits 45 (show n)) as [->|]; [lia|done| |done].
  destruct (strip_sign_digits 43 (show n)) as [->|]; [lia|done| |done].
  by apply parse_digits_show.
Qed.

(** ** Character boundaries

    What a [str] guarantees and the cutting functions rely on: a continuation byte never starts a
    string and never follows an ASCII byte. *)

Definition continuation (b : Z) : bool := (128 <=? b) && (b <? 192).

Fixpoint ok_after (ascii : bool) (s : bytes) : Prop :=
  match s with
  | [] => True
  | b :: s => (ascii = true -> continuation b = false) /\ ok_after (b <? 128) s
  end.

Definition str_ok (s : bytes) : Prop := ok_after true s.

Lemma ok_after_weaken x s : str_ok s -> ok_after x s.
Proof. destruct s; [done|]. intros [H ?]. split; auto. Qed.

Lemma ok_after_app x a b : ok_after x a -> str_ok b -> ok_after x (a ++ b).
Proof.
  revert x. induction a as [|c a IH]; intros x Ha Hb; simpl; [by apply ok_after_weaken|].
  destruct Ha. split; auto.
Qed.

Lemma ok_after_prefix x a b : ok_after x (a ++ b) -> ok_after x a.
Proof. revert x. induction a as [|c a IH]; intros x; simpl; [done|]. intros []. split; eauto. Qed.

Lemma ok_after_suffix x a c b : ok_after x (a ++ c :: b) -> c < 128 -> str_ok b.
Proof.
  intros Hs Hc. revert x Hs. induction a as [|d a IH]; intros x; simpl.
  - intros [_ H]. destruct (Z.ltb_spec c 128); [done|lia].
  - intros [_ H]. eauto.
Qed.

Lemma str_ok_app a b : str_ok a -> str_ok b -> str_ok (a ++ b).
Proof. apply ok_after_app. Qed.

Lemma str_ok_cons c b : c < 128 -> str_ok b -> str_ok (c :: b).
Proof.
  intros Hc Hb. split; [|by apply ok_after_weaken]. intros _. unfold continuation.
  destruct (Z.leb_spec 128 c); [lia|done].
Qed.

Lemma str_ok_ascii s : Forall (fun b => b < 128) s -> str_ok s.
Proof. induction 1; [done|]. by apply str_ok_cons. Qed.

Lemma str_ok_drop s n c : str_ok s -> s !! n = Some c -> c < 128 -> str_ok (drop (S n) s).
Proof.
  intros Hs Hn Hc. rewrite <- (take_drop_middle s n c Hn) in Hs. by eapply ok_after_suffix.
Qed.

Lemma str_ok_take s n : str_ok s -> str_ok (take n s).
Proof. intros Hs. rewrite <- (take_drop n s) in Hs. by eapply ok_after_prefix. Qed.

Lemma str_ok_split c s : c < 128 -> str_ok s -> Forall str_ok (split c s).
Proof.
  intros Hc Hs. destruct (split_once c s) as [[l r]|] eqn:E.
  - revert s l E Hs. induction r as [r IH] using (induction_ltof1 _ (@List.length Z)).
    intros s l E Hs. apply split_once_Some in E as [-> Hl]. rewrite split_app_sep by done.
    constructor; [by eapply ok_after_prefix|]. apply ok_after_suffix in Hs; [|done].
    destruct (split_once c r) as [[l' r']|] eqn:E'.
    + eapply (IH r'); [|exact E'|done]. apply split_once_Some in E' as [-> _].
      unfold ltof. rewrite length_app. simpl. lia.
    + apply split_once_None in E'. rewrite split_no_sep by done. by constructor.
  - apply split_once_None in E. rewrite split_no_sep by done. by constructor.
Qed.

Lemma str_ok_join c l : c < 128 -> Forall str_ok l -> str_ok (join c l).
Proof.
  intros Hc Hl. induction Hl as [|h t Hh Ht IH]; [done|]. destruct t as [|h' t]; [done|].
  change (join c (h :: h' :: t)) with (h ++ c :: join c (h' :: t)).
  apply str_ok_app; [done|]. by apply str_ok_cons.
Qed.

Lemma trim_start_ok p s : (forall b, p b = true -> b < 128) -> str_ok s -> str_ok (trim_start p s).
Proof.
  intros Hp. induction s as [|b s IH]; simpl; [done|]. intros Hs.
  destruct (p b) eqn:Hb; [|done]. apply IH. apply (ok_after_suffix true [] b s Hs). auto.
Qed.

Lemma trim_start_suffix p s : exists l, s = l ++ trim_start p s.
Proof.
  induction s as [|b s [l Hl]]; simpl; [by exists []|].
  destruct (p b); [|by exists []]. exists (b :: l). simpl. by rewrite <- Hl.
Qed.

Lemma trim_matches_ok p s : (forall b, p b = true -> b < 128) -> str_ok s -> str_ok (trim_matches p s).
Proof.
  intros Hp Hs. unfold trim_matches. pose proof (trim_start_ok p s Hp Hs) as Ht.
  destruct (trim_start_suffix p (rev (trim_start p s))) as [l Hl].
  apply (f_equal (@rev Z)) in Hl. rewrite rev_involutive, rev_app_distr in Hl.
  rewrite Hl in Ht. by eapply ok_after_prefix.
Qed.

(** Cutting in front of a well-formed rest is allowed. *)
Lemma get_to_app a b : str_ok b -> get_to (List.length a) (a ++ b) = Some a.
Proof.
  intros Hb. unfold get_to, is_char_boundary. rewrite lookup_app_r, Nat.sub_diag by lia.
  destruct b as [|c b]; simpl.
  - rewrite app_nil_r, Nat.eqb_refl. by rewrite take_ge by lia.
  - destruct Hb as [Hc _]. specialize (Hc eq_refl). unfold continuation in Hc. rewrite Hc. simpl.
    by rewrite take_app_length.
Qed.

Lemma get_to_ascii n s : Forall (fun b => b < 128) s -> (n <= List.length s)%nat ->
  get_to n s = Some (take n s).
Proof.
  intros Hs Hn. pose proof (get_to_app (take n s) (drop n s)) as H.
  rewrite take_drop, length_take_le in H by done. apply H.
  apply str_ok_ascii. by apply Forall_drop.
Qed.

Lemma find_byte_Some p s i : find_byte p s = Some i -> exists b, s !! i = Some b /\ p b = true.
Proof.
  revert i. induction s as [|b s IH]; intros i; simpl; [done|].
  destruct (p b) eqn:Hb; [intros [= <-]; eauto|].
  destruct (find_byte p s) as [j|]; [|done]. intros [= <-]. simpl. auto.
Qed.

Lemma find_byte_drop_ok p s i :
  (forall b, p b = true -> b < 128) -> str_ok s -> find_byte p s = Some i -> str_ok (drop i s).
Proof.
  intros Hp Hs Hi. destruct (find_byte_Some _ _ _ Hi) as (b & Hb & Hpb).
  rewrite (drop_S _ _ _ Hb). apply str_ok_cons; [auto|]. eapply str_ok_drop; eauto.
Qed.
