(* ===== verification/Origin.v ===== *)
(** * Server origins

    [net/src/net/origin.rs]: scheme, host and port as one value, its reading from a URL and its
    spelling back into one.  The host is stored unbracketed (the resolver's argument); an IPv6
    literal is bracketed again where a URL is written. *)

From Stdlib Require Import String.
From S2P Require Import Prelude Bytes.

#[local] Open Scope Z_scope.

Inductive Scheme := Https | Http.
#[export] Instance Scheme_eq_dec : EqDecision Scheme.
Proof. solve_decision. Defined.

Definition as_str (s : Scheme) : bytes :=
  match s with Http => lit "http" | Https => lit "https" end.
Definition scheme_is_tls (s : Scheme) : bool := bool_decide (s = Https).

Definition DEFAULT_PORT : Z := 32400.

Definition dial_port (p : Z) : option Z := if (1 <=? p) && (p <=? 65535) then Some p else None.

(** ASCII bytes the readers look for. *)
Definition SLASH : Z := 47.
Definition COLON : Z := 58.
Definition LBRACKET : Z := 91.
Definition RBRACKET : Z := 93.

(** [strip_prefix('[').and_then(strip_suffix(']')).unwrap_or(host)]. *)
Definition unbracket (host : bytes) : bytes :=
  match strip_prefix [LBRACKET] host with
  | Some r =>
      match last r with
      | Some b => if b =? RBRACKET then removelast r else host
      | None => host
      end
  | None => host
  end.

Definition is_v6_literal (host : bytes) : bool := contains COLON host.

Record Origin := mk_origin { origin_scheme : Scheme; origin_host : bytes; origin_port : Z }.
#[export] Instance Origin_eq_dec : EqDecision Origin.
Proof. solve_decision. Defined.

Definition origin_new (scheme : Scheme) (host : bytes) (port : Z) : Origin :=
  mk_origin scheme (unbracket host) port.

Definition origin_is_tls (o : Origin) : bool := scheme_is_tls (origin_scheme o).

Definition authority (o : Origin) : bytes :=
  if is_v6_literal (origin_host o)
  then LBRACKET :: origin_host o ++ RBRACKET :: COLON :: show (origin_port o)
  else origin_host o ++ COLON :: show (origin_port o).

Definition base (o : Origin) : bytes := as_str (origin_scheme o) ++ lit "://" ++ authority o.

(** ** Reading a URL *)

Record Parts := mk_parts {
  parts_scheme : Scheme;
  parts_scheme_known : bool;
  parts_host : bytes;
  parts_port : option Z;
  parts_port_bad : bool;
  parts_path : bytes
}.

(** Host and written port of an authority. *)
Definition read_authority (auth : bytes) : bytes * option bytes :=
  match r ← strip_prefix [LBRACKET] auth; split_once RBRACKET r with
  | Some (h, after) => (h, strip_prefix [COLON] after)
  | None =>
      match split_once COLON auth with
      | Some (h, p) => (h, Some p)
      | None => (auth, None)
      end
  end.

Definition read_scheme (url : bytes) : Scheme * bool * bytes :=
  match split_once_str (lit "://") url with
  | Some (s, r) =>
      if bool_decide (s = lit "http") then (Http, true, r)
      else if bool_decide (s = lit "https") then (Https, true, r)
      else (Http, false, r)
  | None => (Http, true, url)
  end.

(** The authority ends at the first slash. *)
Definition cut_path (rest : bytes) : bytes * bytes :=
  match find_byte (Z.eqb SLASH) rest with
  | Some i => (take i rest, drop i rest)
  | None => (rest, [])
  end.

Definition parts_of (url : bytes) : Parts :=
  let '(scheme, scheme_known, rest) := read_scheme url in
  let '(auth, path) := cut_path rest in
  let '(host, port_txt) := read_authority auth in
  let port := t ← port_txt; n ← parse_i64 t; dial_port n in
  mk_parts scheme scheme_known host port
    (bool_decide (is_Some port_txt) && negb (bool_decide (is_Some port))) path.

Definition origin_parse (url : bytes) : option Origin :=
  let p := parts_of url in
  if parts_scheme_known p && negb (bool_decide (parts_host p = [])) && negb (parts_port_bad p)
  then Some (origin_new (parts_scheme p) (parts_host p) (default DEFAULT_PORT (parts_port p)))
  else None.

Definition parse_connection (uri : bytes) (advertised : Z) : option Origin :=
  let p := parts_of uri in
  if negb (parts_scheme_known p) || bool_decide (parts_host p = []) || parts_port_bad p then None
  else
    let port :=
      default DEFAULT_PORT (or_else (parts_port p) (dial_port advertised)) in
    Some (origin_new (parts_scheme p) (parts_host p) port).

Definition url_split (url : bytes) : Origin * bytes :=
  let p := parts_of url in
  (origin_new (parts_scheme p) (parts_host p) (default DEFAULT_PORT (parts_port p)), parts_path p).

Definition url_host (url : bytes) : bytes := parts_host (parts_of url).

(** ** Well-formed origins *)

(** What a resolver's host looks like: not empty, and none of the bytes that end an authority.  A
    bracket cannot be told from the URL's own. *)
Record origin_wf (o : Origin) : Prop := {
  ow_host : origin_host o <> [];
  ow_slash : Forall (fun b => b <> SLASH) (origin_host o);
  ow_close : Forall (fun b => b <> RBRACKET) (origin_host o);
  ow_port : 1 <= origin_port o <= 65535
}.

Lemma unbracket_id host : Forall (fun b => b <> RBRACKET) host -> unbracket host = host.
Proof.
  intros Hh. unfold unbracket. destruct (strip_prefix [LBRACKET] host) as [r|] eqn:E; [|done].
  apply strip_prefix_Some in E as ->. destruct (last r) as [b|] eqn:El; [|done].
  destruct (Z.eqb_spec b RBRACKET) as [->|]; [|done].
  apply last_Some_elem_of in El. apply Forall_app in Hh as [_ Hh].
  rewrite Forall_forall in Hh. by specialize (Hh _ El).
Qed.

Lemma dial_port_Some p q : dial_port p = Some q <-> q = p /\ 1 <= p <= 65535.
Proof.
  unfold dial_port. destruct (Z.leb_spec 1 p), (Z.leb_spec p 65535); simpl;
    split; intros; simplify_eq; try lia; intuition congruence.
Qed.

Lemma read_scheme_base s rest : read_scheme (as_str s ++ lit "://" ++ rest) = (s, true, rest).
Proof. by destruct s. Qed.

Lemma find_byte_None p s : Forall (fun b => p b = false) s -> find_byte p s = None.
Proof. induction 1 as [|b s Hb Hs IH]; simpl; [done|]. by rewrite Hb, IH. Qed.

Lemma find_byte_app p s b r :
  Forall (fun b => p b = false) s -> p b = true -> find_byte p (s ++ b :: r) = Some (List.length s).
Proof. intros Hs Hb. induction Hs as [|x s Hx Hs IH]; simpl; [by rewrite Hb|]. by rewrite Hx, IH. Qed.

Lemma show_port_bytes p (P : Z -> Prop) :
  1 <= p <= 65535 -> (forall b, 48 <= b <= 57 -> P b) -> Forall P (show p).
Proof.
  intros Hp HP. eapply Forall_impl; [apply show_digits_bytes; lia|]. done.
Qed.

Lemma read_authority_wf o : origin_wf o ->
  read_authority (authority o) = (origin_host o, Some (show (origin_port o))).
Proof.
  intros [Hne _ Hclose Hport]. unfold read_authority, authority, is_v6_literal.
  destruct (contains COLON (origin_host o)) eqn:Hv6.
  - simpl. rewrite split_once_app by done. done.
  - apply contains_false in Hv6.
    destruct (origin_host o) as [|b h] eqn:Eh; [done|]. rewrite <- Eh in *.
    assert (Hfirst : (r ← strip_prefix [LBRACKET] (origin_host o ++ COLON :: show (origin_port o));
                      split_once RBRACKET r) = None).
    { destruct (strip_prefix [LBRACKET] _) as [r|] eqn:E; [|done]. simpl.
      apply split_once_None. apply strip_prefix_Some in E.
      assert (Hall : Forall (fun b => b <> RBRACKET) (origin_host o ++ COLON :: show (origin_port o))).
      { apply Forall_app. split; [done|]. constructor; [done|].
        apply show_port_bytes; [done|unfold RBRACKET; lia]. }
      rewrite E in Hall. by apply Forall_app in Hall as [_ ?]. }
    rewrite Hfirst, split_once_app; done.
Qed.

Lemma authority_no_slash o : origin_wf o -> Forall (fun b => (SLASH =? b) = false) (authority o).
Proof.
  intros [_ Hslash _ Hport].
  assert (Hh : Forall (fun b => (SLASH =? b) = false) (origin_host o)).
  { eapply Forall_impl; [exact Hslash|]. intros b Hb. by apply Z.eqb_neq. }
  assert (Hp : Forall (fun b => (SLASH =? b) = false) (show (origin_port o))).
  { apply show_port_bytes; [done|]. intros b Hb. apply Z.eqb_neq. unfold SLASH. lia. }
  unfold authority. destruct (is_v6_literal _).
  - constructor; [done|]. apply Forall_app. split; [done|]. by repeat constructor.
  - apply Forall_app. split; [done|]. by constructor.
Qed.

Lemma parts_of_base o path : origin_wf o -> path = [] \/ (exists r, path = SLASH :: r) ->
  parts_of (base o ++ path)
  = mk_parts (origin_scheme o) true (origin_host o) (Some (origin_port o)) false path.
Proof.
  intros Hwf Hpath. unfold parts_of, base. rewrite <- !app_assoc, read_scheme_base.
  pose proof (authority_no_slash o Hwf) as Hs.
  assert (Hcut : cut_path (authority o ++ path) = (authority o, path)).
  { unfold cut_path. destruct Hpath as [->|[r ->]].
    - rewrite app_nil_r, find_byte_None by done. done.
    - rewrite find_byte_app by done. by rewrite take_app_length, drop_app_length. }
  cbv beta iota zeta. rewrite Hcut, (read_authority_wf o Hwf). cbn [mbind option_bind].
  destruct Hwf as [_ _ _ Hport]. rewrite parse_i64_show by ints. cbn [mbind option_bind].
  assert (Hd : dial_port (origin_port o) = Some (origin_port o)) by (apply dial_port_Some; auto).
  by rewrite Hd.
Qed.

(** ** Properties *)

(** An origin is spelled so that it is read back: parsing its base URL gives the origin, whatever
    port was advertised beside it and with an
    IPv6 host bracketed on the way out and bare on the way in, and cutting a URL built on it gives
    the origin and the path. *)
Theorem origin_round_trips o path advertised :
  origin_wf o -> path = [] \/ (exists r, path = SLASH :: r) ->
  origin_parse (base o) = Some o
  /\ parse_connection (base o) advertised = Some o
  /\ url_split (base o ++ path) = (o, path)
  /\ url_host (base o ++ path) = origin_host o.
Proof.
  intros Hwf Hpath. pose proof (parts_of_base o [] Hwf (or_introl eq_refl)) as Hb.
  pose proof (parts_of_base o path Hwf Hpath) as Hp. rewrite app_nil_r in Hb.
  assert (Hnew : origin_new (origin_scheme o) (origin_host o) (origin_port o) = o).
  { unfold origin_new. rewrite unbracket_id by apply Hwf. by destruct o. }
  unfold origin_parse, parse_connection, url_split, url_host. rewrite Hb, Hp.
  cbn -[origin_new]. rewrite bool_decide_false by apply Hwf. cbn -[origin_new].
  by rewrite Hnew.
Qed.
