(* ===== verification/Redirect.v ===== *)
(** * Redirects on the media path

    [net/src/stream_redirect.rs] (the plaintext follower) and the hop decision of
    [net/src/curlio.rs] ([next_hop], for https).  The socket client is one request per open; the
    follower re-opens it for each plaintext hop.  What the network answers is the class
    [Transport]; every request that is dialled is recorded. *)

From Stdlib Require Import String.
From S2P Require Import Prelude Bytes Origin.

#[local] Open Scope Z_scope.

(** ** Targets *)

Definition MAX_HOPS : Z := 5.

Definition is_redirect (status : Z) : bool :=
  (status =? 301) || (status =? 302) || (status =? 303) || (status =? 307) || (status =? 308).

Record Target := mk_target { target_origin : Origin; target_path : bytes }.

Definition target_url (t : Target) : bytes := base (target_origin t) ++ target_path t.

Definition same_origin (a b : Origin) : bool :=
  bool_decide (origin_scheme a = origin_scheme b) && (origin_port a =? origin_port b)
  && eq_ignore_ascii_case (origin_host a) (origin_host b).

Definition QUESTION : Z := 63.
Definition HASH : Z := 35.
Definition AMP : Z := 38.
Definition EQUALS : Z := 61.
Definition AT : Z := 64.

(** [split(c).next()]. *)
Definition first_part (c : Z) (s : bytes) : bytes := default [] (head (split c s)).

(** ** Resolving a [Location] *)

Fixpoint normalize_segs (out segs : list bytes) : list bytes :=
  match segs with
  | [] => out
  | s :: rest =>
      let at_end (out : list bytes) := match rest with [] => out ++ [[]] | _ => out end in
      if bool_decide (s = lit ".") then normalize_segs (at_end out) rest
      else if bool_decide (s = lit "..") then normalize_segs (at_end (removelast out)) rest
      else normalize_segs (out ++ [s]) rest
  end.

Definition cut_query (path_and_query : bytes) : bytes * option bytes :=
  match split_once QUESTION path_and_query with
  | Some (p, q) => (p, Some q)
  | None => (path_and_query, None)
  end.

Definition normalize (path_and_query : bytes) : bytes :=
  let '(path, query) := cut_query path_and_query in
  let out := normalize_segs [] (tail (split SLASH path)) in
  let p := SLASH :: join SLASH out in
  match query with Some q => p ++ QUESTION :: q | None => p end.

Definition split_port (auth : bytes) : option (bytes * option bytes) :=
  match strip_prefix [LBRACKET] auth with
  | Some rest =>
      '(host, after) ← split_once RBRACKET rest;
      match strip_prefix [COLON] after with
      | Some p => Some (host, Some p)
      | None => if bool_decide (after = []) then Some (host, None) else None
      end
  | None =>
      match split_once COLON auth with
      | Some (h, p) => Some (h, Some p)
      | None => Some (auth, None)
      end
  end.

Definition parse_authority (scheme : Scheme) (auth : bytes) : option Origin :=
  if contains AT auth then None
  else
    '(host, port) ← split_port auth;
    if bool_decide (host = []) then None
    else
      let standard := if scheme_is_tls scheme then 443 else 80 in
      port ←
        match port with
        | None | Some [] => Some standard
        | Some p => n ← parse_u16 p; if 0 <? n then Some n else None
        end;
      Some (origin_new scheme host port).

Definition blank (b : Z) : bool := (b =? 32) || (b =? 9).
Definition unprintable (b : Z) : bool := (b <=? 32) || (b =? 127).
Definition ends_authority (b : Z) : bool := (b =? SLASH) || (b =? QUESTION).

(** The scheme an absolute or scheme-relative [Location] names, and what follows its slashes. *)
Definition location_scheme (here : Scheme) (loc : bytes) : option (Scheme * bytes) :=
  let lower := to_ascii_lowercase (default loc (get_to 8 loc)) in
  if starts_with (lit "https://") lower then Some (Https, drop 8 loc)
  else if starts_with (lit "http://") lower then Some (Http, drop 7 loc)
  else
    match strip_prefix (lit "//") loc with
    | Some rest => Some (here, rest)
    | None => None
    end.

Definition absolute_target (scheme : Scheme) (rest : bytes) : option Target :=
  let at_end := find_or_end ends_authority rest in
  origin ← parse_authority scheme (take at_end rest);
  let tail := drop at_end rest in
  let path := if starts_with [SLASH] tail then tail else SLASH :: tail in
  Some (mk_target origin (normalize path)).

(** The path a relative [Location] spells against the path that answered. *)
Definition relative_path (answered loc : bytes) : bytes :=
  let base_path := first_part QUESTION answered in
  if starts_with [SLASH] loc then loc
  else if starts_with [QUESTION] loc then base_path ++ loc
  else
    let dir :=
      match rfind_byte SLASH base_path with
      | Some i => take (S i) base_path
      | None => [SLASH]
      end in
    dir ++ loc.

Definition relative_target (here : Target) (loc : bytes) : option Target :=
  if contains COLON (take (find_or_end ends_authority loc) loc) then None
  else Some (mk_target (target_origin here) (normalize (relative_path (target_path here) loc))).

Definition resolve_location (here : Target) (location : bytes) : option Target :=
  let loc := trim_matches blank location in
  if bool_decide (loc = []) || existsb unprintable loc then None
  else
    let loc := first_part HASH loc in
    if bool_decide (loc = []) then None
    else
      match location_scheme (origin_scheme (target_origin here)) loc with
      | Some (scheme, rest) => absolute_target scheme rest
      | None => relative_target here loc
      end.

(** ** Credentials *)

(** [None] is the panic of [p[..13]] inside a character. *)
Fixpoint find_token (params : list bytes) : option (option bytes) :=
  match params with
  | [] => Some None
  | p :: ps =>
      if (13 <? List.length p)%nat then
        name ← get_to 13 p;
        if eq_ignore_ascii_case name (lit "X-Plex-Token=") then Some (Some p) else find_token ps
      else find_token ps
  end.

Definition token_pair (path : bytes) : option (option bytes) :=
  match split_once QUESTION path with
  | None => Some None
  | Some (_, query) => find_token (split AMP query)
  end.

Definition with_query_pair (path pair : bytes) : bytes :=
  let name := first_part EQUALS pair in
  let present :=
    match split_once QUESTION path with
    | Some (_, q) =>
        existsb (fun p => eq_ignore_ascii_case (first_part EQUALS p) name) (split AMP q)
    | None => false
    end in
  if present then path
  else if contains QUESTION path then path ++ AMP :: pair
  else path ++ QUESTION :: pair.

Definition CRLF : bytes := [13; 10].

Definition header_lines (block : bytes) : list bytes :=
  List.filter (fun line => negb (bool_decide (line = [])))
    (split_str (List.length block) CRLF block).

(** ** The plaintext follower *)

Inductive HttpOpenError :=
  | Open_Deadline
  | Open_Status (status : Z)
  | Open_Aborted
  | Open_Stopped
  | Open_Transport.

(** What one open comes to, with the [Location] the stream holds after a failed one. *)
Inductive OpenAnswer := Ans_Ok | Ans_Err (e : HttpOpenError) (location : option bytes).

Inductive FollowError :=
  | Err_Open (e : HttpOpenError)
  | TooManyHops
  | LeftOrigin
  | Refused
  | BadLocation (status : Z).

Inductive Opened := Opened_Socket (t : Target) | Opened_Tls (t : Target).

(** One request on the wire: the host and port of [dial_origin], in plaintext. *)
Record Dial := mk_dial { dial_origin : Origin; dial_path : bytes; dial_extra : bytes }.

(** [http_open_with_timeouts], then [hs_redirect_location].  The world [W] is everything a request
    can change or read: the network, the clock behind the deadline and the checkpoint, the grants
    the credential authority consults. *)
Class Transport (W : Type) := http_open : Dial -> W -> OpenAnswer * W.

(** The gate reads the world it is asked in: a grant may be revoked while a chain is followed. *)
Record Request {W : Type} := mk_request {
  rq_origin : Origin;
  rq_path : bytes;
  rq_credentials : option bytes;
  rq_range_from : option Z;
  rq_same_origin_only : bool;
  rq_credential_gate : W -> Origin -> bytes -> list bytes -> bool
}.
Arguments Request : clear implicits.

Section Follower.
Context {W : Type} `{!Transport W}.
Implicit Types (req : Request W) (w : W).

(** How a chain ends: its result, what it dialled in order and in which world, the world after. *)
Definition Followed : Type := (Opened + FollowError) * list (W * Dial) * W.

Definition credential_block (req : Request W) (same : bool) : bytes :=
  if same then default [] (rq_credentials req) else [].

Definition range_header (req : Request W) : bytes :=
  match rq_range_from req with
  | Some at_byte => lit "Range: bytes=" ++ show at_byte ++ lit "-" ++ CRLF
  | None => []
  end.

Definition has_nul (d : Dial) : bool :=
  contains 0 (origin_host (dial_origin d)) || contains 0 (dial_path d)
  || contains 0 (dial_extra d).

(** Where a redirect goes, and what is refused before anything is dialled there. *)
Definition next_target (req : Request W) (token : option bytes) (cur : Target) (hop : Z)
    (status : Z) (location : option bytes) : Target + FollowError :=
  match loc ← location; resolve_location cur loc with
  | None => inr (BadLocation status)
  | Some next =>
      if MAX_HOPS <=? hop then inr TooManyHops
      else
        let same := same_origin (target_origin next) (rq_origin req) in
        if negb same && rq_same_origin_only req then inr LeftOrigin
        else
          inl (if same then
                 match token with
                 | Some token =>
                     mk_target (target_origin next) (with_query_pair (target_path next) token)
                 | None => next
                 end
               else next)
  end.

(** The loop; [hop] redirects have been followed.  [None] when [fuel] turns were not enough. *)
Fixpoint follow (fuel : nat) (req : Request W) (token : option bytes) (cur : Target) (hop : Z)
    (w : W) : option Followed :=
  match fuel with
  | O => None
  | S fuel =>
      if origin_is_tls (target_origin cur) then Some (inl (Opened_Tls cur), [], w)
      else
        let same := same_origin (target_origin cur) (rq_origin req) in
        let extra := credential_block req same in
        if negb (rq_credential_gate req w (target_origin cur) (target_path cur) (header_lines extra))
        then Some (inr Refused, [], w)
        else
          let d := mk_dial (target_origin cur) (target_path cur) (extra ++ range_header req) in
          if has_nul d then Some (inr (Err_Open Open_Transport), [], w)
          else
            let '(answer, w') := http_open d w in
            match answer with
            | Ans_Ok => Some (inl (Opened_Socket cur), [(w, d)], w')
            | Ans_Err (Open_Status status as e) location =>
                if is_redirect status then
                  match next_target req token cur hop status location with
                  | inr e => Some (inr e, [(w, d)], w')
                  | inl next =>
                      '(r, ds, w'') ← follow fuel req token next (hop + 1) w';
                      Some (r, (w, d) :: ds, w'')
                  end
                else Some (inr (Err_Open e), [(w, d)], w')
            | Ans_Err e _ => Some (inr (Err_Open e), [(w, d)], w')
            end
  end.

Definition FOLLOW_FUEL : nat := 6.

(** [None]: the token of the path could not be read (see [find_token]). *)
Definition open_following (req : Request W) (w : W) : option Followed :=
  token ← token_pair (rq_path req);
  follow FOLLOW_FUEL req token (mk_target (rq_origin req) (rq_path req)) 0 w.

End Follower.

(** ** The https hop decision *)

Inductive OpenErr :=
  | OpenErr_Unavailable
  | OpenErr_Aborted
  | OpenErr_Deadline
  | OpenErr_Stopped
  | OpenErr_Transport (code : Z)
  | OpenErr_Multi (code : Z)
  | OpenErr_Status (status : Z)
  | OpenErr_RangeIgnored
  | OpenErr_Local.

Definition CURLE_UNSUPPORTED_PROTOCOL : Z := 1.
Definition CURLE_TOO_MANY_REDIRECTS : Z := 47.
Definition CURLPROTO_HTTP : Z := 1.
Definition CURLPROTO_HTTPS : Z := 2.

Definition allowed_redirect_protocols (url : bytes) : Z :=
  if starts_with (lit "https://") url then CURLPROTO_HTTPS
  else Z.lor CURLPROTO_HTTP CURLPROTO_HTTPS.

(** [url.get(..scheme.len()).is_some_and(|s| s.eq_ignore_ascii_case(scheme))]. *)
Definition spells (scheme url : bytes) : bool :=
  match get_to (List.length scheme) url with
  | Some s => eq_ignore_ascii_case s scheme
  | None => false
  end.

Definition no_base : Target := mk_target (origin_new Http (lit "localhost") 80) [SLASH].

Definition target_of (url : bytes) : option Target :=
  if spells (lit "https://") url || spells (lit "http://") url
  then resolve_location no_base url else None.

Definition next_hop (original current : bytes) (status : Z) (location : bytes) (hop : Z)
  : Target + OpenErr :=
  if negb (is_redirect status) then inr (OpenErr_Status status)
  else
    let loc := trim_matches blank location in
    let resolved :=
      match target_of current with
      | Some here => resolve_location here location
      | None =>
          if spells (lit "https://") loc || spells (lit "http://") loc
          then resolve_location no_base location else None
      end in
    match resolved with
    | None => inr (OpenErr_Status status)
    | Some next =>
        if MAX_HOPS <=? hop then inr (OpenErr_Transport CURLE_TOO_MANY_REDIRECTS)
        else
          let allowed :=
            if spells (lit "https://") current then CURLPROTO_HTTPS
            else allowed_redirect_protocols original in
          let wanted :=
            if origin_is_tls (target_origin next) then CURLPROTO_HTTPS else CURLPROTO_HTTP in
          if Z.land allowed wanted =? 0 then inr (OpenErr_Transport CURLE_UNSUPPORTED_PROTOCOL)
          else inl next
    end.

(** ** What a resolved target is made of *)

(** A byte a request line may hold. *)
Definition requestable (b : Z) : Prop := 32 < b /\ b <> 127 /\ b <> HASH.

Definition dot_segment (s : bytes) : Prop := s = lit "." \/ s = lit "..".

Lemma first_part_spec c s :
  Forall (fun b => b <> c) (first_part c s) /\ exists r, s = first_part c s ++ r.
Proof.
  unfold first_part. induction s as [|b s [IH [r Hr]]]; simpl; [split; [constructor|by exists []]|].
  destruct (Z.eqb_spec b c); simpl; [split; [constructor|by eexists]|].
  destruct (split c s) as [|h t] eqn:E; [by apply split_nonempty in E|]. simpl in *.
  split; [by constructor|]. exists r. by rewrite Hr at 1.
Qed.

Lemma first_part_Forall c s (P : Z -> Prop) : Forall P s -> Forall P (first_part c s).
Proof. destruct (first_part_spec c s) as [_ [r Hr]]. rewrite Hr at 1. by intros [? _]%Forall_app. Qed.

Lemma first_part_id c s : Forall (fun b => b <> c) s -> first_part c s = s.
Proof. intros. unfold first_part. by rewrite split_no_sep. Qed.

Lemma first_part_app c s r : Forall (fun b => b <> c) s -> first_part c (s ++ c :: r) = s.
Proof. intros. unfold first_part. by rewrite split_app_sep. Qed.

Lemma removelast_Forall {A} (P : A -> Prop) l : Forall P l -> Forall P (removelast l).
Proof.
  induction 1 as [|x l Hx Hl IH]; simpl; [constructor|]. destruct l; [constructor|]. by constructor.
Qed.

Lemma normalize_segs_Forall (P : bytes -> Prop) segs : forall out,
  Forall P out -> Forall (fun s => dot_segment s \/ P s) segs -> P [] ->
  Forall P (normalize_segs out segs).
Proof.
  induction segs as [|s rest IH]; intros out Hout Hsegs Hnil; [done|].
  inversion Hsegs as [|? ? Hs Hrest]; subst. simpl.
  assert (Hend : forall o, Forall P o ->
            Forall P (match rest with [] => o ++ [[]] | _ => o end)).
  { intros o Ho. destruct rest; [|done]. apply Forall_app. auto. }
  destruct (bool_decide (s = lit ".")) eqn:E1; [by apply IH; auto|].
  destruct (bool_decide (s = lit "..")) eqn:E2; [by apply IH; auto using removelast_Forall|].
  apply bool_decide_eq_false in E1, E2. apply IH; [|done|done].
  apply Forall_app. split; [done|]. constructor; [|done]. by destruct Hs as [[?|?]|?].
Qed.

Lemma cut_query_spec p (P : Z -> Prop) : Forall P p ->
  exists path query, cut_query p = (path, query)
    /\ Forall P path /\ Forall (fun b => b <> QUESTION) path
    /\ match query with Some q => Forall P q | None => True end.
Proof.
  intros Hp. unfold cut_query. destruct (split_once QUESTION p) as [[l r]|] eqn:E.
  - apply split_once_Some in E as [-> Hl]. apply Forall_app in Hp as [? [_ ?]%Forall_cons]. eauto 8.
  - apply split_once_None in E. by exists p, None.
Qed.

(** The path part of a normalised path holds no dot segment, no byte the path did not have. *)
Lemma normalize_spec p (P : Z -> Prop) :
  Forall P p -> P SLASH -> P QUESTION ->
  Forall P (normalize p)
  /\ (exists r, normalize p = SLASH :: r)
  /\ Forall (fun s => ~ dot_segment s) (split SLASH (first_part QUESTION (normalize p))).
Proof.
  intros Hp Hslash Hquest. unfold normalize.
  destruct (cut_query_spec p P Hp) as (path & query & -> & Hpath & Hnoq & Hquery).
  set (out := normalize_segs [] (tail (split SLASH path))).
  assert (Hout : Forall (fun s => ~ dot_segment s /\ Forall (fun b => b <> SLASH) s
                   /\ Forall (fun b => P b /\ b <> QUESTION) s) out).
  { apply normalize_segs_Forall; [done| |repeat split; try done; by intros [?|?]].
    assert (Hparts : Forall (fun s => Forall (fun b => b <> SLASH) s
                       /\ Forall (fun b => P b /\ b <> QUESTION) s) (split SLASH path)).
    { apply split_parts. rewrite Forall_forall in *. auto. }
    assert (Htail : forall (Q : bytes -> Prop) l, Forall Q l -> Forall Q (tail l))
      by (intros Q l [|]; [constructor|done]).
    apply Htail. eapply Forall_impl; [exact Hparts|]. intros s [? ?].
    destruct (decide (s = lit ".")) as [|]; [left; by left|].
    destruct (decide (s = lit "..")) as [|]; [left; by right|]. right.
    split; [by intros [?|?]|done]. }
  clearbody out.
  assert (Hjoin : Forall (fun b => P b /\ b <> QUESTION) (SLASH :: join SLASH out)).
  { constructor; [done|]. apply join_Forall; [done|]. eapply Forall_impl; [exact Hout|].
    by intros s (_ & _ & ?). }
  assert (HP : Forall P (SLASH :: join SLASH out))
    by (eapply Forall_impl; [exact Hjoin|]; by intros ? []).
  assert (HQ : Forall (fun b => b <> QUESTION) (SLASH :: join SLASH out))
    by (eapply Forall_impl; [exact Hjoin|]; by intros ? []).
  assert (Hseg : Forall (fun s => ~ dot_segment s) (split SLASH (SLASH :: join SLASH out))).
  { simpl. constructor; [by intros [?|?]|].
    destruct out as [|o os]; [constructor; [by intros [?|?]|constructor]|].
    rewrite split_join; [|done|].
    - eapply Forall_impl; [exact Hout|]. by intros s [].
    - eapply Forall_impl; [exact Hout|]. by intros s (_ & ? & _). }
  destruct query as [q|].
  - split; [apply Forall_app; split; [done|by constructor]|]. split; [by eexists|].
    change (SLASH :: join SLASH out ++ QUESTION :: q)
      with ((SLASH :: join SLASH out) ++ QUESTION :: q).
    by rewrite first_part_app.
  - split; [done|]. split; [by eexists|]. by rewrite first_part_id.
Qed.

Lemma find_or_end_spec p s : Forall (fun b => p b = false) (take (find_or_end p s) s).
Proof.
  unfold find_or_end. induction s as [|b s IH]; simpl; [constructor|].
  destruct (p b) eqn:Hb; [constructor|]. destruct (find_byte p s) as [i|]; simpl in *; by constructor.
Qed.

Lemma take_Forall {A} (P : A -> Prop) n l : Forall P l -> Forall P (take n l).
Proof. apply Forall_take. Qed.

Lemma parse_digits_range max s n : parse_digits max s = Some n -> n <= max.
Proof.
  unfold parse_digits. destruct s; [done|]. destruct (forallb _ _); [|done].
  destruct (Z.leb_spec (digits_value (z :: s)) max); [|done]. by intros [= <-].
Qed.

Lemma split_port_spec auth host port (P : Z -> Prop) :
  Forall P auth -> split_port auth = Some (host, port) ->
  Forall P host /\ unbracket host = host.
Proof.
  intros Hp. unfold split_port. destruct (strip_prefix [LBRACKET] auth) as [rest|] eqn:E.
  - apply strip_prefix_Some in E as ->. apply Forall_app in Hp as [_ Hrest].
    destruct (split_once RBRACKET rest) as [[h after]|] eqn:Es; [|done]. cbn [mbind option_bind].
    apply split_once_Some in Es as [-> Hno]. apply Forall_app in Hrest as [Hh _].
    intros Hs. assert (h = host) as <-.
    { revert Hs. destruct (strip_prefix [COLON] after); [by intros [= -> _]|].
      destruct (bool_decide _); [by intros [= -> _]|done]. }
    split; [done|]. by apply unbracket_id.
  - assert (Hbare : forall h, (exists r, auth = h ++ r) -> h <> [] -> unbracket h = h).
    { intros h [r ->] Hne. unfold unbracket. destruct h as [|b h]; [done|].
      cbn [strip_prefix app] in *. by destruct (LBRACKET =? b). }
    destruct (split_once COLON auth) as [[h p]|] eqn:Es; intros [= <- <-].
    + apply split_once_Some in Es as [Eq _]. subst auth. apply Forall_app in Hp as [? _].
      split; [done|]. destruct h; [done|]. apply Hbare; [by eexists|done].
    + split; [done|]. destruct auth; [done|]. apply Hbare; [exists []; by rewrite app_nil_r|done].
Qed.

Lemma parse_authority_spec scheme auth o (P : Z -> Prop) :
  Forall P auth -> parse_authority scheme auth = Some o ->
  origin_scheme o = scheme /\ origin_host o <> [] /\ Forall P (origin_host o)
  /\ Forall (fun b => b <> AT) (origin_host o) /\ 1 <= origin_port o <= 65535.
Proof.
  intros Hp. unfold parse_authority. destruct (contains AT auth) eqn:Hat; [done|].
  apply contains_false in Hat.
  destruct (split_port auth) as [[host port]|] eqn:E; [|done]. cbn [mbind option_bind]. cbv beta iota.
  destruct (bool_decide _) eqn:Hh; [done|]. apply bool_decide_eq_false in Hh.
  destruct (split_port_spec _ _ _ _ Hp E) as [HP Hun].
  destruct (split_port_spec _ _ _ _ Hat E) as [HAt _].
  set (standard := if scheme_is_tls scheme then 443 else 80).
  assert (Hstd : 1 <= standard <= 65535) by (subst standard; destruct (scheme_is_tls scheme); lia).
  clearbody standard.
  intros Ho. assert (Hport : exists n, o = origin_new scheme host n /\ 1 <= n <= 65535).
  { destruct port as [[|b p]|]; simpl in Ho; simplify_eq; eauto.
    destruct (parse_u16 (b :: p)) as [n|] eqn:Ep; [|done]. simpl in Ho.
    destruct (Z.ltb_spec 0 n); simplify_eq/=. exists n. split; [done|].
    apply parse_digits_range in Ep. ints. }
  destruct Hport as (n & -> & Hn). unfold origin_new. rewrite Hun. simpl. auto.
Qed.

Lemma rfind_take_Forall (P : Z -> Prop) c p :
  Forall P p -> Forall P (match rfind_byte c p with Some i => take (S i) p | None => [] end).
Proof. intros. destruct (rfind_byte c p); [by apply take_Forall|constructor]. Qed.

Lemma requestable_slash : requestable SLASH. Proof. done. Qed.
Lemma requestable_question : requestable QUESTION. Proof. done. Qed.
#[local] Hint Resolve requestable_slash requestable_question : core.

(** The [Location] that gets past the guards holds requestable bytes only. *)
Lemma location_requestable loc :
  existsb unprintable loc = false -> Forall requestable (first_part HASH loc).
Proof.
  intros Hno. destruct (first_part_spec HASH loc) as [Hhash [r Hr]].
  assert (Hall : Forall (fun b => 32 < b /\ b <> 127) loc).
  { apply Forall_forall. intros b Hb%list_elem_of_In.
    assert (Hu : unprintable b = false).
    { destruct (unprintable b) eqn:E; [|done].
      rewrite <- Hno. symmetry. apply existsb_exists. eauto. }
    unfold unprintable in Hu. apply orb_false_iff in Hu as [?%Z.leb_gt ?%Z.eqb_neq]. lia. }
  rewrite Hr in Hall. apply Forall_app in Hall as [Hall _].
  rewrite Forall_forall in *. intros b Hb. specialize (Hall b Hb). specialize (Hhash b Hb).
  unfold requestable. tauto.
Qed.

Lemma location_scheme_Forall here loc scheme rest (P : Z -> Prop) :
  Forall P loc -> location_scheme here loc = Some (scheme, rest) -> Forall P rest.
Proof.
  intros Hp. unfold location_scheme.
  destruct (starts_with _ _); [intros [= <- <-]; by apply Forall_drop|].
  destruct (starts_with _ _); [intros [= <- <-]; by apply Forall_drop|].
  destruct (strip_prefix (lit "//") loc) as [r|] eqn:E; intros; simplify_eq.
  apply strip_prefix_Some in E as ->. by apply Forall_app in Hp as [_ ?].
Qed.

Record resolved (here t : Target) : Prop := {
  rs_bytes : Forall requestable (target_path t);
  rs_slash : exists r, target_path t = SLASH :: r;
  rs_dots : Forall (fun s => ~ dot_segment s) (split SLASH (first_part QUESTION (target_path t)));
  rs_origin :
    target_origin t = target_origin here
    \/ origin_host (target_origin t) <> []
       /\ Forall (fun b => requestable b /\ b <> AT /\ b <> SLASH /\ b <> QUESTION)
            (origin_host (target_origin t))
       /\ 1 <= origin_port (target_origin t) <= 65535
}.

Lemma absolute_resolved here scheme rest t :
  Forall requestable rest -> absolute_target scheme rest = Some t -> resolved here t.
Proof.
  intros Hr. unfold absolute_target. set (n := find_or_end ends_authority rest).
  pose proof (find_or_end_spec ends_authority rest) as Hend. fold n in Hend.
  destruct (parse_authority scheme (take n rest)) as [o|] eqn:E; [|done]. cbn [mbind option_bind].
  intros [= <-].
  assert (Hauth : Forall (fun b => requestable b /\ ends_authority b = false) (take n rest)).
  { pose proof (take_Forall _ n _ Hr). rewrite Forall_forall in *. auto. }
  destruct (parse_authority_spec _ _ _ _ Hauth E) as (_ & Hne & Hhost & Hat & Hport).
  assert (Hpath : Forall requestable
            (if starts_with [SLASH] (drop n rest) then drop n rest else SLASH :: drop n rest)).
  { pose proof (Forall_drop _ n _ Hr). destruct (starts_with _ _); auto. }
  destruct (normalize_spec _ _ Hpath) as (? & ? & ?); [done|done|].
  split; simpl; try done. right. split; [done|]. split; [|done].
  rewrite Forall_forall in *. intros b Hb. destruct (Hhost b Hb) as [? He].
  unfold ends_authority in He. apply orb_false_iff in He as [?%Z.eqb_neq ?%Z.eqb_neq]. auto.
Qed.

Lemma relative_resolved here loc t :
  Forall requestable (target_path here) -> Forall requestable loc ->
  relative_target here loc = Some t -> resolved here t.
Proof.
  intros Hbase Hloc. unfold relative_target. destruct (contains COLON _); [done|]. intros [= <-].
  pose proof (first_part_Forall QUESTION _ _ Hbase) as Hb.
  assert (Hpath : Forall requestable (relative_path (target_path here) loc)).
  { unfold relative_path. destruct (starts_with [SLASH] loc); [done|].
    destruct (starts_with [QUESTION] loc); [by apply Forall_app|].
    apply Forall_app. split; [|done].
    destruct (rfind_byte SLASH _); [by apply take_Forall|by repeat constructor]. }
  destruct (normalize_spec _ _ Hpath) as (? & ? & ?); [done|done|].
  split; simpl; auto.
Qed.

(** A redirect can only name something this client may request.  Whatever a server puts in a
    [Location], the target resolved from it has an absolute path without control bytes, blanks or
    a fragment (nothing can be smuggled into the request line) and without dot segments; its origin
    is the one that answered, or a written one with a host free of userinfo and of the bytes that
    end an authority, and a port a socket can dial.  The query of the answering target, where the
    token is, never shows in the result. *)
Theorem redirect_target_is_requestable here location t :
  Forall requestable (target_path here) -> resolve_location here location = Some t ->
  resolved here t
  /\ forall query,
       resolve_location
         (mk_target (target_origin here) (first_part QUESTION (target_path here) ++ QUESTION :: query))
         location = Some t.
Proof.
  intros Hbase Hres. split.
  - unfold resolve_location in Hres.
    destruct (existsb unprintable _) eqn:Hu; [by rewrite orb_true_r in Hres|].
    apply location_requestable in Hu. rewrite orb_false_r in Hres.
    do 2 (destruct (bool_decide _); [done|]).
    destruct (location_scheme _ _) as [[scheme rest]|] eqn:E.
    + eapply absolute_resolved; [|done]. by eapply location_scheme_Forall.
    + by eapply relative_resolved.
  - intros query. rewrite <- Hres. unfold resolve_location, relative_target, relative_path.
    cbn [target_origin target_path].
    by rewrite first_part_app by apply first_part_spec.
Qed.

(** ** The follower *)

Lemma same_origin_refl o : same_origin o o = true.
Proof.
  unfold same_origin, eq_ignore_ascii_case. rewrite !bool_decide_true by done. by rewrite Z.eqb_refl.
Qed.

Section FollowerProps.
Context {W : Type} `{!Transport W}.
Implicit Types (req : Request W) (w : W).

(** What a request of the chain asks for. *)
Definition asked (d : Dial) : Target := mk_target (dial_origin d) (dial_path d).

(** The scheme, host and port of the original request. *)
Definition at_home req (o : Origin) : bool :=
  bool_decide (origin_scheme o = origin_scheme (rq_origin req))
  && (origin_port o =? origin_port (rq_origin req))
  && eq_ignore_ascii_case (origin_host o) (origin_host (rq_origin req)).

(** What one request of the chain carries, and who let it go. *)
Definition dial_ok req (wd : W * Dial) : Prop :=
  let d := wd.2 in
  let carried := if at_home req (dial_origin d) then default [] (rq_credentials req) else [] in
  let range :=
    match rq_range_from req with
    | Some at_byte => lit "Range: bytes=" ++ show at_byte ++ lit "-" ++ CRLF
    | None => []
    end in
  origin_scheme (dial_origin d) = Http
  /\ dial_extra d = carried ++ range
  /\ rq_credential_gate req wd.1 (dial_origin d) (dial_path d) (header_lines carried) = true.

(** The parameters of a path's query, and those that are a token. *)
Definition parameters (path : bytes) : list bytes :=
  match split_once QUESTION path with Some (_, query) => split AMP query | None => [] end.
Definition is_token (p : bytes) : Prop :=
  (13 < List.length p)%nat /\ eq_ignore_ascii_case (take 13 p) (lit "X-Plex-Token=") = true.

(** The token of a path, if its query has one. *)
Definition token_of (path : bytes) (token : option bytes) : Prop :=
  match token with
  | Some tok => tok ∈ parameters path /\ is_token tok
  | None => Forall (fun p => ~ is_token p) (parameters path)
  end.

(** The token is added to a path, unless its query has a parameter of that name. *)
Definition token_added (token : option bytes) (path path' : bytes) : Prop :=
  match token with
  | Some tok =>
      let named p := eq_ignore_ascii_case (first_part EQUALS p) (first_part EQUALS tok) = true in
      (Exists named (parameters path) /\ path' = path)
      \/ (Forall (fun p => ~ named p) (parameters path)
          /\ path' = path ++ (if contains QUESTION path then AMP else QUESTION) :: tok)
  | None => path' = path
  end.

Lemma with_query_pair_added path tok : token_added (Some tok) path (with_query_pair path tok).
Proof.
  unfold with_query_pair, token_added, parameters. destruct (split_once QUESTION path) as [[p q]|].
  - destruct (existsb _ (split AMP q)) eqn:E.
    + left. split; [|done]. apply existsb_exists in E as (x & Hx%list_elem_of_In & Hn). apply Exists_exists. eauto.
    + right. split; [|by destruct (contains QUESTION path)]. apply Forall_forall. intros x Hx Hn.
      apply not_true_iff_false in E. apply E, existsb_exists. exists x. by rewrite <- list_elem_of_In.
  - right. split; [constructor|]. by destruct (contains QUESTION path).
Qed.

Lemma get_to_take n s t : get_to n s = Some t -> t = take n s.
Proof. unfold get_to. destruct (is_char_boundary s n); [by intros [= <-]|done]. Qed.

Lemma find_token_spec params token : find_token params = Some token ->
  match token with
  | Some tok => tok ∈ params /\ is_token tok
  | None => Forall (fun p => ~ is_token p) params
  end.
Proof.
  induction params as [|p ps IH]; cbn [find_token]; [intros [= <-]; constructor|].
  assert (Hskip : ~ is_token p -> find_token ps = Some token ->
    match token with Some tok => tok ∈ p :: ps /\ is_token tok | None => Forall (fun p => ~ is_token p) (p :: ps) end).
  { intros Hp Hf. specialize (IH Hf). destruct token; [destruct IH; split; [by right|done]|by constructor]. }
  destruct (Nat.ltb_spec 13 (List.length p)) as [Hl|Hl].
  - destruct (get_to 13 p) as [name|] eqn:En; [|done]. cbn [mbind option_bind]. apply get_to_take in En as ->.
    destruct (eq_ignore_ascii_case _ _) eqn:Ee.
    + intros [= <-]. split; [by left|]. by split.
    + apply Hskip. intros [_ Ht]. congruence.
  - apply Hskip. intros [Ht _]. lia.
Qed.

Lemma token_pair_spec path token : token_pair path = Some token -> token_of path token.
Proof.
  unfold token_pair, token_of, parameters. destruct (split_once QUESTION path) as [[p q]|].
  - apply find_token_spec.
  - intros [= <-]. constructor.
Qed.

(** The request [wd] was answered, in its own world, with a redirect whose [Location] names [t], and
    the world after that answer is [w'].  On the request's own origin the token of the path rides
    along; anywhere else the target is exactly what the [Location] spells. *)
Definition redirects req (token : option bytes) (wd : W * Dial) (t : Target) (w' : W) : Prop :=
  exists status location spelled,
    http_open wd.2 wd.1 = (Ans_Err (Open_Status status) (Some location), w')
    /\ is_redirect status = true
    /\ resolve_location (asked wd.2) location = Some spelled
    /\ if at_home req (target_origin spelled)
       then target_origin t = target_origin spelled
            /\ token_added token (target_path spelled) (target_path t)
       else t = spelled /\ rq_same_origin_only req = false.

(** Where the chain is after its requests so far, and in which world: at the request itself, or
    where the answer to the newest request sent it. *)
Definition comes_from req (token : option bytes) w (newest : option (W * Dial)) (t : Target) (w' : W) : Prop :=
  match newest with
  | None => t = mk_target (rq_origin req) (rq_path req) /\ w' = w
  | Some wd => redirects req token wd t w'
  end.

Lemma comes_from_confined req token w newest t w' :
  comes_from req token w newest t w' -> rq_same_origin_only req = true ->
  at_home req (target_origin t) = true.
Proof.
  destruct newest as [wd|]; cbn [comes_from].
  - intros (status & location & spelled & _ & _ & _ & Ht) Hsame.
    destruct (at_home req (target_origin spelled)) eqn:Hs; [by destruct Ht as [-> _]|]. destruct Ht. congruence.
  - intros [-> _] _. apply (same_origin_refl (rq_origin req)).
Qed.

Lemma next_target_redirects req token w cur d hop status location next w' :
  cur = asked d -> http_open d w = (Ans_Err (Open_Status status) location, w') ->
  is_redirect status = true -> next_target req token cur hop status location = inl next ->
  redirects req token (w, d) next w'.
Proof.
  intros -> Ha Hs. unfold next_target. destruct location as [loc|]; [|done]. cbn [mbind option_bind].
  destruct (resolve_location (asked d) loc) as [t|] eqn:E; [|done].
  destruct (MAX_HOPS <=? hop); [done|]. cbv zeta. intros Hn. exists status, loc, t. split_and!; [done..|].
  change (same_origin (target_origin t) (rq_origin req)) with (at_home req (target_origin t)) in Hn.
  destruct (at_home req (target_origin t)); cbn [negb andb] in Hn.
  - destruct token; injection Hn as <-; (split; [done|]); [apply with_query_pair_added|done].
  - destruct (rq_same_origin_only req); [done|]. by injection Hn as <-.
Qed.

(** What a chain from [newest] on dials and where it ends. *)
Definition follows req token w (newest : option (W * Dial)) (res : Opened + FollowError)
    (ds : list (W * Dial)) (w' : W) : Prop :=
  let newest_of older := match last older with Some wd => Some wd | None => newest end in
  Forall (dial_ok req) ds
  /\ (forall older wd newer, ds = older ++ wd :: newer ->
        comes_from req token w (newest_of older) (asked wd.2) wd.1)
  /\ (forall t, res = inl (Opened_Socket t) ->
        exists wd, last ds = Some wd /\ t = asked wd.2 /\ http_open wd.2 wd.1 = (Ans_Ok, w'))
  /\ (forall t, res = inl (Opened_Tls t) ->
        origin_is_tls (target_origin t) = true /\ comes_from req token w (newest_of ds) t w').

Lemma follows_stop req token w newest e w' : follows req token w newest (inr e) [] w'.
Proof. split_and!; [constructor|by intros [|]|done..]. Qed.

Lemma follows_one req token w newest res wd w' :
  dial_ok req wd -> comes_from req token w newest (asked wd.2) wd.1 ->
  (forall t, res = inl (Opened_Socket t) -> t = asked wd.2 /\ http_open wd.2 wd.1 = (Ans_Ok, w')) ->
  (forall t, res <> inl (Opened_Tls t)) -> follows req token w newest res [wd] w'.
Proof.
  intros Hd Hc Hs Ht. split_and!; [by constructor| | |by intros t ?%Ht].
  - by intros [|x [|]] wd' newer [= <- <-].
  - intros t Hr. exists wd. by destruct (Hs t Hr).
Qed.

Lemma follows_cons req token w newest res wd ds w' :
  dial_ok req wd -> comes_from req token w newest (asked wd.2) wd.1 ->
  follows req token w (Some wd) res ds w' -> follows req token w newest res (wd :: ds) w'.
Proof.
  intros Hd Hc (Hds & Hchain & Hs & Ht).
  assert (Hlast : forall l, match last (wd :: l) with Some x => Some x | None => newest end
                            = match last l with Some x => Some x | None => Some wd end).
  { intros l. rewrite last_cons. by destruct (last l). }
  split_and!; [by constructor| | |].
  - intros [|x older] wd' newer [= <- ->]; [done|]. rewrite Hlast. by apply (Hchain older wd' newer).
  - intros t Hr. destruct (Hs t Hr) as (x & Hx & Hrest). exists x. split; [|done]. by rewrite last_cons, Hx.
  - intros t Hr. rewrite Hlast. by apply Ht.
Qed.

Lemma follow_follows fuel req token w0 : forall newest cur hop w r ds w',
  follow fuel req token cur hop w = Some (r, ds, w') -> comes_from req token w0 newest cur w ->
  follows req token w0 newest r ds w'.
Proof.
  induction fuel as [|fuel IH]; intros newest cur hop w r ds w'; cbn [follow]; [done|].
  destruct (origin_is_tls (target_origin cur)) eqn:Htls.
  { intros [= <- <- <-] Hcur. split_and!; [constructor|by intros [|]|done|]. by intros t [= <-]. }
  destruct (rq_credential_gate req w _ _ _) eqn:Hgate; cbn [negb].
  2: { intros [= <- <- <-] _. apply follows_stop. }
  set (d := mk_dial _ _ _). destruct (has_nul d).
  { intros [= <- <- <-] _. apply follows_stop. }
  destruct (http_open d w) as [answer w1] eqn:Ha. intros Hrun Hcur.
  assert (Hasked : cur = asked d) by (by destruct cur).
  assert (Hd : dial_ok req (w, d)).
  { split; [|done]. simpl. unfold origin_is_tls, scheme_is_tls in Htls.
    apply bool_decide_eq_false in Htls. by destruct (origin_scheme _). }
  rewrite Hasked in Hcur.
  assert (Hfail : forall e, Some (inr e, [(w, d)], w1) = Some (r, ds, w') ->
            follows req token w0 newest r ds w').
  { intros e [= <- <- <-]. by apply follows_one. }
  destruct answer as [|[|status| | |] location]; eauto.
  - injection Hrun as <- <- <-. apply follows_one; [done..| |done]. intros t [= <-]. done.
  - destruct (is_redirect status) eqn:Hs; [|eauto].
    destruct (next_target req token cur hop status location) as [next|e] eqn:En; [|eauto].
    destruct (follow fuel req token next (hop + 1) w1) as [[[r1 ds1] w2]|] eqn:Ef; [|done].
    injection Hrun as <- <- <-. apply follows_cons; [done..|].
    eapply IH; [exact Ef|]. by eapply next_target_redirects.
Qed.

Lemma follow_bounded fuel req token : forall cur hop w,
  0 <= hop <= MAX_HOPS -> Z.of_nat fuel = MAX_HOPS + 1 - hop ->
  exists r ds w', follow fuel req token cur hop w = Some (r, ds, w')
    /\ Z.of_nat (List.length ds) <= MAX_HOPS + 1 - hop
    /\ (r = inr TooManyHops -> Z.of_nat (List.length ds) = MAX_HOPS + 1 - hop).
Proof.
  unfold MAX_HOPS. induction fuel as [|fuel IH]; intros cur hop w Hhop Hfuel; [lia|]. cbn [follow].
  destruct (origin_is_tls _); [eexists _, _, _; split; [done|]; simpl; split; [lia|done]|].
  destruct (negb _); [eexists _, _, _; split; [done|]; simpl; split; [lia|done]|].
  set (d := mk_dial _ _ _).
  destruct (has_nul d); [eexists _, _, _; split; [done|]; simpl; split; [lia|done]|].
  destruct (http_open d w) as [answer w1].
  assert (Hone : forall x : Opened + FollowError, x <> inr TooManyHops \/ hop = 5 ->
    exists r ds w', Some (x, [(w, d)], w1) = Some (r, ds, w')
      /\ Z.of_nat (List.length ds) <= 5 + 1 - hop
      /\ (r = inr TooManyHops -> Z.of_nat (List.length ds) = 5 + 1 - hop)).
  { intros x Hx. eexists _, _, _. split; [done|]. simpl. split; [lia|]. intros ->.
    destruct Hx; [done|lia]. }
  destruct answer as [|[|status| | |] location]; try (apply Hone; by left).
  destruct (is_redirect status); [|apply Hone; by left].
  unfold next_target. destruct (loc ← location; resolve_location cur loc); [|apply Hone; by left].
  destruct (Z.leb_spec MAX_HOPS hop) as [Hle|Hlt]; unfold MAX_HOPS in *.
  { apply Hone. right. lia. }
  destruct (_ && rq_same_origin_only req); [apply Hone; by left|].
  match goal with |- context [follow fuel req token ?n (hop + 1) w1] =>
    destruct (IH n (hop + 1) w1) as (r & ds & w' & -> & Hlen & Hmany); [lia|lia|] end.
  eexists _, _, _. split; [done|]. simpl. split; [lia|]. intros Hr. specialize (Hmany Hr). lia.
Qed.

Lemma find_token_ascii params :
  Forall (Forall (fun b => b < 128)) params -> is_Some (find_token params).
Proof.
  induction 1 as [|p ps Hp Hps IH]; simpl; [by eexists|].
  destruct (Nat.ltb_spec 13 (List.length p)); [|done].
  rewrite get_to_ascii by (done || lia). cbn [mbind option_bind].
  destruct (eq_ignore_ascii_case _ _); [by eexists|done].
Qed.

(** Outside ASCII the token may not be readable: a parameter whose thirteenth and fourteenth bytes
    are one character. *)
Lemma token_slice_cuts_characters :
  token_pair (lit "/f?album=abcdef" ++ [195; 169]) = None.
Proof. by vm_compute. Qed.

(** C40. Credentials stay at home.  Whatever the network answers, every request a followed open dials
    is plaintext, carries the credential block exactly when it goes to the scheme, host and port of
    the original request, and nothing but the range otherwise, and was admitted, in the world it was
    dialled in, by the credential gate for exactly what it carries.  The first request is the
    original one; each later one, and the https target a chain ends at, is where the answer to the
    request before it sent it: the target its [Location] names, with the token of the original path
    added when that is on the original origin (unless it spells one), and exactly as the [Location] spells it anywhere
    else.  A request confined to its origin dials, and is handed, nothing elsewhere. *)
Theorem credentials_stay_home req w r ds w' :
  open_following req w = Some (r, ds, w') ->
  Forall (dial_ok req) ds
  /\ exists token, token_of (rq_path req) token
  /\ (forall older wd newer, ds = older ++ wd :: newer ->
        comes_from req token w (last older) (asked wd.2) wd.1)
  /\ (forall t, r = inl (Opened_Socket t) ->
        exists wd, last ds = Some wd /\ t = asked wd.2 /\ http_open wd.2 wd.1 = (Ans_Ok, w'))
  /\ (forall t, r = inl (Opened_Tls t) ->
        origin_is_tls (target_origin t) = true /\ comes_from req token w (last ds) t w')
  /\ (rq_same_origin_only req = true ->
        Forall (fun wd => at_home req (dial_origin wd.2) = true) ds
        /\ forall t, r = inl (Opened_Tls t) -> at_home req (target_origin t) = true).
Proof.
  unfold open_following. destruct (token_pair (rq_path req)) as [token|] eqn:Et; [|done].
  cbn [mbind option_bind]. intros Hf.
  destruct (follow_follows _ _ _ w None _ _ _ _ _ _ Hf ltac:(done)) as (Hds & Hchain & Hs & Ht).
  assert (Hnone : forall l : list (W * Dial), match last l with Some x => Some x | None => None end = last l)
    by (intros l; by destruct (last l)).
  split; [done|]. exists token. split; [by apply token_pair_spec|]. split_and!; [|done| |intros Hsame; split].
  - intros older wd newer Heq. rewrite <- Hnone. by apply (Hchain older wd newer).
  - intros t Hr. rewrite <- Hnone. by apply Ht.
  - apply Forall_forall. intros wd (older & newer & Heq)%list_elem_of_split.
    eapply (comes_from_confined req token w _ (asked wd.2)); [|done]. by eapply Hchain.
  - intros t Hr. destruct (Ht t Hr) as [_ Hc]. by eapply comes_from_confined.
Qed.

(** Following always ends.  For an ASCII path (so that no query parameter is cut inside a
    character), whatever the network answers, the open returns after at most six requests; it gives
    up on the chain's length only after exactly six; and an https origin is never dialled in
    plaintext, but handed back at once. *)
Theorem following_ends req w :
  Forall (fun b => b < 128) (rq_path req) ->
  exists r ds w', open_following req w = Some (r, ds, w')
    /\ (List.length ds <= 6)%nat
    /\ (r = inr TooManyHops -> List.length ds = 6%nat)
    /\ (origin_is_tls (rq_origin req) = true ->
        r = inl (Opened_Tls (mk_target (rq_origin req) (rq_path req))) /\ ds = [] /\ w' = w).
Proof.
  intros Hascii. unfold open_following.
  assert (Htoken : is_Some (token_pair (rq_path req))).
  { unfold token_pair. destruct (split_once QUESTION (rq_path req)) as [[l q]|] eqn:E; [|by eexists].
    apply find_token_ascii. apply split_once_Some in E as [E _]. rewrite E in Hascii.
    apply Forall_app in Hascii as [_ [_ Hq]%Forall_cons].
    eapply Forall_impl; [apply (split_parts AMP q _ Hq)|]. by intros s []. }
  destruct Htoken as [token ->]. cbn [mbind option_bind].
  destruct (follow_bounded FOLLOW_FUEL req token (mk_target (rq_origin req) (rq_path req)) 0 w)
    as (r & ds & w' & Hf & Hlen & Hmany); [unfold MAX_HOPS; lia|done|].
  unfold MAX_HOPS in *. exists r, ds, w'. split; [done|]. split; [lia|].
  split; [intros Hr; specialize (Hmany Hr); lia|].
  intros Htls. unfold FOLLOW_FUEL in Hf. cbn [follow target_origin] in Hf. rewrite Htls in Hf.
  by simplify_eq.
Qed.

End FollowerProps.

(** ** Never back to plaintext *)

Definition target_ok (t : Target) : Prop :=
  str_ok (origin_host (target_origin t)) /\ str_ok (target_path t).

Lemma first_part_ok c s : str_ok s -> str_ok (first_part c s).
Proof.
  intros Hs. destruct (first_part_spec c s) as [_ [r Hr]]. rewrite Hr in Hs. by eapply ok_after_prefix.
Qed.

Lemma blank_ascii b : blank b = true -> b < 128.
Proof. unfold blank. rewrite orb_true_iff, !Z.eqb_eq. lia. Qed.

Lemma ends_ascii b : ends_authority b = true -> b < 128.
Proof. unfold ends_authority, SLASH, QUESTION. rewrite orb_true_iff, !Z.eqb_eq. lia. Qed.

Lemma normalize_ok p : str_ok p -> str_ok (normalize p).
Proof.
  intros Hp. unfold normalize, cut_query.
  assert (Hout : forall path, str_ok path ->
            str_ok (SLASH :: join SLASH (normalize_segs [] (tail (split SLASH path))))).
  { intros path Hpath. apply str_ok_cons; [done|]. apply str_ok_join; [done|].
    apply normalize_segs_Forall; [constructor| |done].
    pose proof (str_ok_split SLASH path eq_refl Hpath) as Hs.
    destruct Hs; [constructor|]. eapply Forall_impl; [done|]. auto. }
  destruct (split_once QUESTION p) as [[l q]|] eqn:E; [|by apply Hout].
  apply split_once_Some in E as [-> _].
  change (str_ok ((SLASH :: join SLASH (normalize_segs [] (tail (split SLASH l))))
                  ++ QUESTION :: q)).
  apply str_ok_app; [apply Hout; by eapply ok_after_prefix|].
  apply str_ok_cons; [done|]. by eapply ok_after_suffix.
Qed.

Lemma unbracket_ok h : str_ok h -> str_ok (unbracket h).
Proof.
  intros Hh. unfold unbracket. destruct (strip_prefix [LBRACKET] h) as [r|] eqn:E; [|done].
  apply strip_prefix_Some in E as ->. destruct (last r) as [b|] eqn:El; [|done].
  destruct (b =? RBRACKET); [|done]. apply (ok_after_suffix true []) in Hh; [|done].
  assert (Hr : r <> []) by (by intros ->).
  pose proof (app_removelast_last 0 Hr) as Hl. rewrite Hl in Hh. by eapply ok_after_prefix.
Qed.

Lemma split_port_ok auth host port :
  str_ok auth -> split_port auth = Some (host, port) -> str_ok host.
Proof.
  intros Ha. unfold split_port. destruct (strip_prefix [LBRACKET] auth) as [rest|] eqn:E.
  - apply strip_prefix_Some in E as ->. apply (ok_after_suffix true []) in Ha; [|done].
    destruct (split_once RBRACKET rest) as [[h after]|] eqn:Es; [|done]. cbn [mbind option_bind].
    apply split_once_Some in Es as [-> _]. apply ok_after_prefix in Ha.
    destruct (strip_prefix [COLON] after); [by intros [= <- _]|].
    destruct (bool_decide _); [by intros [= <- _]|done].
  - destruct (split_once COLON auth) as [[h p]|] eqn:Es; intros [= <- _]; [|done].
    apply split_once_Some in Es as [-> _]. by eapply ok_after_prefix.
Qed.

Lemma parse_authority_ok scheme auth o :
  str_ok auth -> parse_authority scheme auth = Some o -> str_ok (origin_host o).
Proof.
  intros Ha. unfold parse_authority. destruct (contains AT auth); [done|].
  destruct (split_port auth) as [[host port]|] eqn:E; [|done]. cbn [mbind option_bind].
  destruct (bool_decide _); [done|].
  destruct (match port with None | Some [] => _ | _ => _ end) as [n|]; [|done].
  intros [= <-]. simpl. apply unbracket_ok. by eapply split_port_ok.
Qed.

(** The scheme's slash is ASCII, so what follows it is a string again. *)
Lemma lowercase_slash s n p :
  starts_with p (to_ascii_lowercase s) = true -> p !! n = Some SLASH -> s !! n = Some SLASH.
Proof.
  unfold starts_with. destruct (strip_prefix p _) as [r|] eqn:E; [|done]. intros _ Hn.
  apply strip_prefix_Some in E.
  assert (Hl : to_ascii_lowercase s !! n = Some SLASH) by (rewrite E; by apply lookup_app_l_Some).
  unfold to_ascii_lowercase in Hl. apply list_lookup_fmap_Some in Hl as (b & Hb & Hs).
  rewrite Hs. f_equal. unfold to_lower, SLASH in *.
  destruct (Z.leb_spec 65 b), (Z.leb_spec b 90); simpl in Hb; lia.
Qed.

Lemma default_get_to_prefix n s : exists k, default s (get_to n s) = take k s.
Proof.
  unfold get_to. destruct (is_char_boundary s n); [by exists n|].
  exists (List.length s). by rewrite take_ge by lia.
Qed.

Lemma location_scheme_ok here loc scheme rest :
  str_ok loc -> location_scheme here loc = Some (scheme, rest) -> str_ok rest.
Proof.
  intros Hl. unfold location_scheme. destruct (default_get_to_prefix 8 loc) as [k ->].
  assert (Hdrop : forall n p, starts_with p (to_ascii_lowercase (take k loc)) = true ->
            p !! n = Some SLASH -> str_ok (drop (S n) loc)).
  { intros n p Hp Hn. pose proof (lowercase_slash _ _ _ Hp Hn) as Hs.
    apply lookup_take_Some in Hs as [Hs _]. by eapply str_ok_drop. }
  destruct (starts_with (lit "https://") _) eqn:E1.
  { intros [= _ <-]. by apply (Hdrop 7%nat _ E1). }
  destruct (starts_with (lit "http://") _) eqn:E2.
  { intros [= _ <-]. by apply (Hdrop 6%nat _ E2). }
  destruct (strip_prefix (lit "//") loc) as [r|] eqn:E; intros; simplify_eq.
  apply strip_prefix_Some in E as ->. by apply (ok_after_suffix true [SLASH] SLASH).
Qed.

Lemma resolve_location_ok here location t :
  target_ok here -> str_ok location -> resolve_location here location = Some t -> target_ok t.
Proof.
  intros [Hh Hp] Hl. unfold resolve_location.
  pose proof (first_part_ok HASH _ (trim_matches_ok blank _ blank_ascii Hl)) as Hloc.
  destruct (_ || _); [done|]. destruct (bool_decide _); [done|].
  set (loc := first_part HASH _) in *. clearbody loc.
  destruct (location_scheme _ _) as [[scheme rest]|] eqn:E.
  - apply location_scheme_ok in E; [|done]. unfold absolute_target.
    set (n := find_or_end ends_authority rest).
    destruct (parse_authority scheme (take n rest)) as [o|] eqn:Eo; [|done].
    cbn [mbind option_bind]. intros [= <-].
    split; [apply (parse_authority_ok _ _ _ (str_ok_take _ n E) Eo)|]. apply normalize_ok.
    assert (Htail : str_ok (drop n rest)).
    { unfold n, find_or_end. destruct (find_byte ends_authority rest) as [i|] eqn:Ei; cbn [default].
      - cbv [default id]. by apply (find_byte_drop_ok ends_authority); [apply ends_ascii| |].
      - cbv [default id]. by rewrite drop_ge by lia. }
    destruct (starts_with _ _); [done|]. by apply str_ok_cons.
  - unfold relative_target. destruct (contains COLON _); [done|]. intros [= <-].
    split; [done|]. apply normalize_ok. unfold relative_path.
    pose proof (first_part_ok QUESTION _ Hp) as Hb.
    destruct (starts_with [SLASH] loc); [done|].
    destruct (starts_with [QUESTION] loc); [by apply str_ok_app|].
    apply str_ok_app; [|done]. destruct (rfind_byte SLASH _); [by apply str_ok_take|done].
Qed.

Lemma show_digits_ascii fuel : forall n, 0 <= n -> Forall (fun b => b < 128) (show_digits fuel n).
Proof.
  induction fuel as [|fuel IH]; intros n Hn; simpl; [constructor|].
  destruct (Z.ltb_spec n 10); [repeat constructor; lia|].
  pose proof (Z.mod_pos_bound n 10 eq_refl).
  apply Forall_app. split; [apply IH; apply Z.div_pos; lia|]. repeat constructor; lia.
Qed.

Lemma show_ascii z : Forall (fun b => b < 128) (show z).
Proof.
  unfold show. destruct (Z.ltb_spec z 0); [constructor; [lia|]|]; apply show_digits_ascii; lia.
Qed.

Lemma target_url_ok t : target_ok t ->
  exists rest, target_url t = (as_str (origin_scheme (target_origin t)) ++ lit "://") ++ rest
    /\ str_ok rest.
Proof.
  intros [Hh Hp]. unfold target_url, base. exists (authority (target_origin t) ++ target_path t).
  split; [by rewrite <- !app_assoc|]. apply str_ok_app; [|done].
  pose proof (str_ok_ascii _ (show_ascii (origin_port (target_origin t)))) as Hs.
  unfold authority. destruct (is_v6_literal _).
  - apply str_ok_cons; [done|]. apply str_ok_app; [done|]. by do 2 (apply str_ok_cons; [done|]).
  - apply str_ok_app; [done|]. by apply str_ok_cons.
Qed.

Lemma tls_url_spells t : target_ok t -> origin_is_tls (target_origin t) = true ->
  spells (lit "https://") (target_url t) = true.
Proof.
  intros Ht Htls. destruct (target_url_ok t Ht) as (rest & -> & Hrest).
  unfold origin_is_tls, scheme_is_tls in Htls. apply bool_decide_eq_true in Htls. rewrite Htls.
  change (as_str Https ++ lit "://") with (lit "https://"). unfold spells. by rewrite get_to_app.
Qed.

Lemma no_base_ok : target_ok no_base.
Proof. split; vm_compute; intuition done. Qed.

Lemma target_of_ok url t : str_ok url -> target_of url = Some t -> target_ok t.
Proof.
  intros Hu. unfold target_of. destruct (_ || _); [|done].
  apply resolve_location_ok; [exact no_base_ok|done].
Qed.

Lemma next_hop_spec original current status location hop t :
  str_ok current -> str_ok location -> next_hop original current status location hop = inl t ->
  target_ok t /\ hop < MAX_HOPS
  /\ (spells (lit "https://") current = true -> origin_is_tls (target_origin t) = true).
Proof.
  intros Hc Hl. unfold next_hop. destruct (negb _); [done|].
  set (resolved := match target_of current with Some _ => _ | None => _ end).
  assert (Hres : forall t, resolved = Some t -> target_ok t).
  { subst resolved. intros t'. destruct (target_of current) as [here|] eqn:E.
    - apply resolve_location_ok; [exact (target_of_ok _ _ Hc E)|done].
    - destruct (_ || _); [|done]. apply resolve_location_ok; [exact no_base_ok|done]. }
  destruct resolved as [next|]; [|done]. destruct (Z.leb_spec MAX_HOPS hop); [done|].
  destruct (spells (lit "https://") current); destruct (origin_is_tls (target_origin next)) eqn:Et;
    cbn; try done; destruct (Z.eqb _ 0); try done; intros [= <-]; (split; [by apply Hres|split; [done|by intros]]).
Qed.

(** A chain of https hops: the targets chosen, newest first; each hop's answer names the next. *)
Definition current_url (original : bytes) (hops : list Target) : bytes :=
  match hops with [] => original | t :: _ => target_url t end.

Inductive hop_chain (original : bytes) : list Target -> Prop :=
  | chain_start : hop_chain original []
  | chain_hop hops status location t :
      hop_chain original hops -> str_ok location ->
      next_hop original (current_url original hops) status location
        (Z.of_nat (List.length hops)) = inl t ->
      hop_chain original (t :: hops).

Lemma chain_current_ok original hops :
  str_ok original -> hop_chain original hops -> str_ok (current_url original hops) /\ Forall target_ok hops.
Proof.
  intros Ho. induction 1 as [|hops status location t _ [Hc Hh] Hl Hn]; [by split; [|constructor]|].
  destruct (next_hop_spec _ _ _ _ _ _ Hc Hl Hn) as (Ht & _ & _). split; [|by constructor].
  change (str_ok (target_url t)). destruct (target_url_ok t Ht) as (rest & -> & Hr).
  apply str_ok_app; [|done].
  destruct (origin_scheme _); apply str_ok_ascii; repeat constructor.
Qed.

(** TLS is never left.  Along any chain of redirects of an https-capable open, at most five are
    followed, and once the chain is on https -- from its first URL, in whatever case that spells its
    scheme, or from any later hop -- every further hop is on https. *)
Theorem tls_is_never_left original hops :
  str_ok original -> hop_chain original hops ->
  (List.length hops <= 5)%nat
  /\ (spells (lit "https://") original = true ->
      Forall (fun t => origin_is_tls (target_origin t) = true) hops)
  /\ (forall newer t older, hops = newer ++ t :: older ->
        origin_is_tls (target_origin t) = true ->
        Forall (fun t => origin_is_tls (target_origin t) = true) newer).
Proof.
  intros Ho Hchain. induction Hchain as [|hops status location t Hchain IH Hl Hn].
  - split; [simpl; lia|]. split; [constructor|]. by intros [|? newer].
  - destruct (chain_current_ok _ _ Ho Hchain) as [Hc Hok].
    destruct (next_hop_spec _ _ _ _ _ _ Hc Hl Hn) as (_ & Hhop & Htls).
    destruct IH as (Hlen & Hall & Hafter).
    split; [unfold MAX_HOPS in Hhop; simpl; lia|].
    assert (Hkeep : forall t', head hops = Some t' -> origin_is_tls (target_origin t') = true ->
              origin_is_tls (target_origin t) = true).
    { intros t' Hhead Ht'. apply Htls. destruct hops as [|t0 hops]; [done|]. simpl in Hhead.
      simplify_eq. simpl. apply tls_url_spells; [by inversion Hok|done]. }
    split.
    + intros Horig. specialize (Hall Horig). constructor; [|done].
      destruct hops as [|t0 hops]; [by apply Htls|]. apply (Hkeep t0 eq_refl). by inversion Hall.
    + intros [|t1 newer] t0 older Heq Ht0; [constructor|]. injection Heq as <- Heq.
      specialize (Hafter newer t0 older Heq Ht0). constructor; [|done].
      destruct newer as [|t2 newer]; subst hops.
      * by apply (Hkeep t0 eq_refl).
      * apply (Hkeep t2 eq_refl). by inversion Hafter.
Qed.
