(* ===== verification/Lifecycle.v ===== *)
(** * The player's app-switch lifecycle machine

    [media/src/player/lifecycle.rs]: [ForegroundLifecycle] as a state, an event and an effect
    type with one transition function [step]; [media/src/player/foreground.rs]: the drivers that
    feed it events, execute its effects through an actuator and feed each answer back.  The
    actuator (the trait [ForegroundActuator]) is a type class over an abstract world. *)

From S2P Require Import Prelude.

(** ** Data *)

Inductive Successor := Playback | Exit.

Inductive ForegroundInput :=
| DidForeground
| DidForegroundSuperseded
| PlayKey
| PlayKeyOffPlayer
| Superseded (successor : Successor).

Inductive ForegroundClock := Paused | Playing.

Definition from_paused (paused : bool) : ForegroundClock :=
  if paused then Paused else Playing.

Inductive ForegroundClaim :=
| Claim_Prepare (saved_ns : Z) (saved_clock : ForegroundClock)
                (resume_ns : Z) (clock : ForegroundClock)
| Claim_Load (resume_ns : Z) (clock : ForegroundClock)
| Claim_PlayClock.

Inductive PrepareAnswer := Answer_Prepared | Answer_Refused | Answer_Pending.

Inductive ResumeOutcome := Outcome_Prepared | Outcome_NoRoute | Outcome_RebuildRejected.
Inductive ResumeStart := Start_Settled (outcome : ResumeOutcome) | Start_Pending.

Definition of_outcome (outcome : ResumeOutcome) : PrepareAnswer :=
  match outcome with
  | Outcome_Prepared => Answer_Prepared
  | Outcome_NoRoute | Outcome_RebuildRejected => Answer_Refused
  end.

Definition of_start (start : ResumeStart) : PrepareAnswer :=
  match start with
  | Start_Settled outcome => of_outcome outcome
  | Start_Pending => Answer_Pending
  end.

Inductive Flight := Flight_Prepare | Flight_Recovery.

Inductive Handled := Yes | No.

#[export] Instance Successor_eq_dec : EqDecision Successor.
Proof. solve_decision. Defined.
#[export] Instance ForegroundInput_eq_dec : EqDecision ForegroundInput.
Proof. solve_decision. Defined.
#[export] Instance ForegroundClock_eq_dec : EqDecision ForegroundClock.
Proof. solve_decision. Defined.
#[export] Instance ForegroundClaim_eq_dec : EqDecision ForegroundClaim.
Proof. solve_decision. Defined.
#[export] Instance Handled_eq_dec : EqDecision Handled.
Proof. solve_decision. Defined.

Section Data.
Context {Attempt : Type}.

Inductive ForegroundState :=
| Idle
| Suspended (id saved_ns : Z) (clock : ForegroundClock)
| Claimed (id : Z) (claim : ForegroundClaim)
| Prepared (id resume_ns : Z) (clock : ForegroundClock)
| LoadPending (id : Z) (attempt : Attempt) (resume_ns : Z) (clock : ForegroundClock)
| PreparePending (id saved_ns : Z) (saved_clock : ForegroundClock)
                 (resume_ns : Z) (clock : ForegroundClock)
| RecoveryPending (id resume_ns : Z) (clock : ForegroundClock)
| ClockPending (id : Z).

Inductive ForegroundLoadStart :=
| LS_Pending | LS_Deferred | LS_AlreadyRunning | LS_Launched (attempt : Attempt)
| LS_Failed | LS_Terminal.

Inductive ForegroundLoadStatus :=
| St_Pending | St_Started | St_Failed | St_Superseded (replacement : Attempt) | St_Stale.

Inductive ForegroundEvent :=
| Park (saved_ns : Z) (viewer_paused : bool)
| ParkFlight
| Input (input : ForegroundInput)
| PrepareAnswered (id : Z) (answer : PrepareAnswer)
| LoadAnswered (id : Z) (start : ForegroundLoadStart)
| FlightStale
| LoadStatus (attempt : Attempt) (status : ForegroundLoadStatus)
| ClockAnswered (id : Z) (accepted : bool).

Inductive ForegroundEffect :=
| Fx_Prepare (id resume_ns : Z)
| Fx_Load (id resume_ns : Z) (clock : ForegroundClock)
| Fx_PlayClock (id : Z)
| Fx_Retire (id : Z) (clock : ForegroundClock)
| Fx_AfterLoad (attempt : option Attempt) (clock : ForegroundClock) (started : bool)
| Fx_Launched (id : Z)
| Fx_DropFlight.

Record ForegroundLifecycle := mk_lifecycle { state : ForegroundState; next_id : Z }.

#[global] Instance eta_ForegroundLifecycle : Eta ForegroundLifecycle :=
  fun r => mk_lifecycle (state r) (next_id r).

Definition IDLE : ForegroundLifecycle := mk_lifecycle Idle 0.

Definition awaits_answer (fx : ForegroundEffect) : bool :=
  match fx with
  | Fx_Prepare _ _ | Fx_Load _ _ _ | Fx_PlayClock _ => true
  | _ => false
  end.
End Data.
Arguments ForegroundState : clear implicits.
Arguments ForegroundLoadStart : clear implicits.
Arguments ForegroundLoadStatus : clear implicits.
Arguments ForegroundEvent : clear implicits.
Arguments ForegroundEffect : clear implicits.
Arguments ForegroundLifecycle : clear implicits.

(** How far a suspended session that was playing rewinds when it is resumed. *)
Definition RESUME_REWIND_NS : Z := 5000000000.

(** ** The machine *)

Section Machine.
Context {Attempt : Type} `{EqDecision Attempt}.
Abbreviation St := (ForegroundState Attempt).
Abbreviation Fx := (ForegroundEffect Attempt).
Abbreviation Machine := (ForegroundLifecycle Attempt).

(** Every operation returns the machine, the effects it pushed in order, and [Handled]. *)
Definition Stepped : Type := (Machine * list Fx * Handled)%type.

Definition clock_for_suspend (m : Machine) (transport_paused : bool) : ForegroundClock :=
  match state m with
  | ClockPending _ | Claimed _ Claim_PlayClock => Playing
  | LoadPending _ _ _ clock
  | PreparePending _ _ clock _ _
  | RecoveryPending _ _ clock => clock
  | _ => from_paused transport_paused
  end.

Definition awaiting_load (m : Machine) : bool :=
  match state m with
  | Suspended _ _ _ | Prepared _ _ _ | PreparePending _ _ _ _ _ | RecoveryPending _ _ _
  | Claimed _ (Claim_Prepare _ _ _ _) | Claimed _ (Claim_Load _ _) => true
  | _ => false
  end.

Definition claimable_clock (m : Machine) : option ForegroundClock :=
  match state m with
  | Suspended _ _ clock | Prepared _ _ clock => Some clock
  | _ => None
  end.

Definition pending_flight (m : Machine) : option (Flight * Z) :=
  match state m with
  | PreparePending id _ _ _ _ => Some (Flight_Prepare, id)
  | RecoveryPending id _ _ => Some (Flight_Recovery, id)
  | _ => None
  end.

Definition flight_pending (m : Machine) : bool :=
  match pending_flight m with Some _ => true | None => false end.

Definition pending_load_attempt (m : Machine) : option Attempt :=
  match state m with
  | LoadPending _ attempt _ _ => Some attempt
  | _ => None
  end.

Definition supersede (m : Machine) (successor : Successor) : Stepped :=
  let exit := bool_decide (successor = Exit) in
  match state m with
  | Idle => (m, [], No)
  | LoadPending id _ _ clock =>
      if exit then (m <| state := Idle |>, [Fx_Retire id clock], Yes) else (m, [], Yes)
  | Claimed _ Claim_PlayClock | ClockPending _ =>
      if exit then (m <| state := Idle |>, [], Yes) else (m, [], Yes)
  | Suspended _ _ _ | Claimed _ _ | Prepared _ _ _ | PreparePending _ _ _ _ _
  | RecoveryPending _ _ _ => (m <| state := Idle |>, [], Yes)
  end.

Definition input_step (m : Machine) (input : ForegroundInput) : Stepped :=
  match input with
  | Superseded successor => supersede m successor
  | _ =>
      let off_player :=
        bool_decide (input = PlayKeyOffPlayer)
        && match state m with
           | ClockPending _ | Claimed _ Claim_PlayClock => true
           | _ => false
           end in
      if off_player then (m <| state := Idle |>, [], No) else
      let play := bool_decide (input = PlayKey) || bool_decide (input = PlayKeyOffPlayer) in
      match state m with
      | Idle => (m, [], No)
      | Suspended id saved_ns saved_clock =>
          if bool_decide (input = DidForegroundSuperseded) then (m, [], Yes) else
          let clock := if play then Playing else saved_clock in
          let resume_ns :=
            if bool_decide (saved_clock = Paused) then saved_ns
            else Z.max (i64_sat (saved_ns - RESUME_REWIND_NS)) 0 in
          (m <| state := Claimed id (Claim_Prepare saved_ns saved_clock resume_ns clock) |>,
           [Fx_Prepare id resume_ns], Yes)
      | Prepared id resume_ns clock =>
          if bool_decide (input = DidForegroundSuperseded) then (m, [], Yes) else
          let clock := if play then Playing else clock in
          (m <| state := Claimed id (Claim_Load resume_ns clock) |>,
           [Fx_Load id resume_ns clock], Yes)
      | ClockPending id =>
          if play then (m <| state := Claimed id Claim_PlayClock |>, [Fx_PlayClock id], Yes)
          else (m, [], Yes)
      | Claimed _ _ | LoadPending _ _ _ _ | PreparePending _ _ _ _ _
      | RecoveryPending _ _ _ => (m, [], Yes)
      end
  end.

Definition park_flight (m : Machine) : Stepped :=
  match state m with
  | PreparePending id saved_ns saved_clock _ _ =>
      (m <| state := Suspended id saved_ns saved_clock |>, [Fx_DropFlight], Yes)
  | RecoveryPending id resume_ns clock =>
      (m <| state := Suspended id resume_ns clock |>, [Fx_DropFlight], Yes)
  | _ => (m, [], No)
  end.

Definition prepare_answered (m : Machine) (id : Z) (answer : PrepareAnswer) : Stepped :=
  match
    match state m with
    | Claimed owner (Claim_Prepare saved_ns saved_clock resume_ns clock)
    | PreparePending owner saved_ns saved_clock resume_ns clock =>
        Some (owner, saved_ns, saved_clock, resume_ns, clock)
    | _ => None
    end
  with
  | None => (m, [], No)
  | Some (owner, saved_ns, saved_clock, resume_ns, clock) =>
      if negb (owner =? id) then (m, [], No) else
      match answer with
      | Answer_Pending =>
          (m <| state := PreparePending id saved_ns saved_clock resume_ns clock |>, [], Yes)
      | Answer_Refused => (m <| state := Suspended id saved_ns saved_clock |>, [], Yes)
      | Answer_Prepared =>
          (m <| state := Claimed id (Claim_Load resume_ns clock) |>,
           [Fx_Load id resume_ns clock], Yes)
      end
  end.

Definition load_answered (m : Machine) (id : Z) (start : ForegroundLoadStart Attempt)
  : Stepped :=
  match
    match state m with
    | Claimed owner (Claim_Load resume_ns clock)
    | RecoveryPending owner resume_ns clock => Some (owner, resume_ns, clock)
    | _ => None
    end
  with
  | None => (m, [], No)
  | Some (owner, resume_ns, clock) =>
      if negb (owner =? id) then (m, [], No) else
      match start with
      | LS_Launched attempt =>
          (m <| state := LoadPending id attempt resume_ns clock |>, [Fx_Launched id], Yes)
      | LS_Pending | LS_Deferred =>
          (m <| state := RecoveryPending id resume_ns clock |>, [], Yes)
      | LS_Failed =>
          (m <| state := Prepared id resume_ns clock |>, [Fx_AfterLoad None clock false], Yes)
      | LS_AlreadyRunning | LS_Terminal =>
          (m <| state := Idle |>, [Fx_AfterLoad None clock false], Yes)
      end
  end.

Definition load_status (m : Machine) (attempt : Attempt)
    (status : ForegroundLoadStatus Attempt) : Stepped :=
  match state m with
  | LoadPending id owner resume_ns clock =>
      if negb (bool_decide (owner = attempt)) then (m, [], No) else
      match status with
      | St_Pending => (m, [], Yes)
      | St_Superseded replacement =>
          (m <| state := LoadPending id replacement resume_ns clock |>, [], Yes)
      | St_Failed =>
          (m <| state := Prepared id resume_ns clock |>,
           [Fx_AfterLoad (Some attempt) clock false], Yes)
      | St_Stale => (m <| state := Idle |>, [Fx_AfterLoad None clock false], Yes)
      | St_Started =>
          match clock with
          | Paused =>
              (m <| state := Idle |>, [Fx_AfterLoad (Some attempt) clock true], Yes)
          | Playing =>
              (m <| state := Claimed id Claim_PlayClock |>,
               [Fx_AfterLoad (Some attempt) clock true; Fx_PlayClock id], Yes)
          end
      end
  | _ => (m, [], No)
  end.

Definition step (m : Machine) (ev : ForegroundEvent Attempt) : Stepped :=
  match ev with
  | Park saved_ns viewer_paused =>
      let clock := clock_for_suspend m viewer_paused in
      let id := u64_wrap (next_id m + 1) in
      let id := if id =? 0 then 1 else id in
      (mk_lifecycle (Suspended id saved_ns clock) id, [], Yes)
  | ParkFlight => park_flight m
  | Input input => input_step m input
  | PrepareAnswered id answer => prepare_answered m id answer
  | LoadAnswered id start => load_answered m id start
  | FlightStale =>
      match pending_flight m with
      | None => (m, [], No)
      | Some _ => (m <| state := Idle |>, [], Yes)
      end
  | LoadStatus attempt status => load_status m attempt status
  | ClockAnswered id accepted =>
      match state m with
      | Claimed owner Claim_PlayClock =>
          if negb (owner =? id) then (m, [], No)
          else (m <| state := if accepted then Idle else ClockPending id |>, [], Yes)
      | _ => (m, [], No)
      end
  end.
End Machine.
Arguments Stepped : clear implicits.

(** ** The drivers *)

Inductive FlightLanding (T : Type) := Waiting | Stale | Landed (landed : T).
Arguments Waiting {T}.
Arguments Stale {T}.
Arguments Landed {T}.

(** What the drivers ask of the app: the trait [ForegroundActuator] (its receiver and the
    playback session it is handed are one world [W]), with the three session operations the
    drivers call beside it. *)
Class ForegroundActuator (W Attempt : Type) := {
  prepare_resume : Z -> W -> ResumeStart * W;
  land_prepare : W -> FlightLanding ResumeOutcome * W;
  land_recovery : W -> FlightLanding (ForegroundLoadStart Attempt) * W;
  before_load : Z -> ForegroundClock -> W -> W;
  start_load : W -> ForegroundLoadStart Attempt * W;
  actuator_load_status : Attempt -> W -> ForegroundLoadStatus Attempt * W;
  after_load : option Attempt -> ForegroundClock -> bool -> W -> W;
  play_clock : W -> bool * W;
  accept_server_stop : W -> bool * W;
  note_resume_attempt : W -> W;
  suspend_playback : W -> W
}.

Inductive ForegroundActivation := Act_Ordinary | Act_Handled | Act_Launched.
Inductive ForegroundPollOutcome := Poll_Inactive | Poll_Pending | Poll_Started | Poll_Failed.

Record Run := mk_run { handled : Handled; launched : bool; settled : option bool }.
#[export] Instance eta_Run : Eta Run := fun r => mk_run (handled r) (launched r) (settled r).

Section Drivers.
Context {W Attempt : Type} `{EqDecision Attempt} `{!ForegroundActuator W Attempt}.
Abbreviation Ev := (ForegroundEvent Attempt).
Abbreviation Machine := (ForegroundLifecycle Attempt).

(** One turn of the loop's [for effect in fx.drain(..)]: the world, the run record and the
    slot holding the next event. *)
Definition exec_effect (acc : W * Run * option Ev) (effect : ForegroundEffect Attempt)
  : W * Run * option Ev :=
  let '(w, run, next) := acc in
  match effect with
  | Fx_Prepare id resume_ns =>
      let w := note_resume_attempt w in
      let '(start, w) := prepare_resume resume_ns w in
      (w, run, Some (PrepareAnswered id (of_start start)))
  | Fx_Load id resume_ns clock =>
      let w := before_load resume_ns clock w in
      let '(start, w) := start_load w in
      (w, run, Some (LoadAnswered id start))
  | Fx_PlayClock id =>
      let '(accepted, w) := play_clock w in
      (w, run, Some (ClockAnswered id accepted))
  | Fx_AfterLoad attempt clock started =>
      (after_load attempt clock started w, run <| settled := Some started |>, next)
  | Fx_Retire _ clock => (after_load None clock false w, run, next)
  | Fx_Launched _ => (w, run <| launched := true |>, next)
  | Fx_DropFlight => (w, run, next)
  end.

Definition is_supersession (ev : Ev) : bool :=
  match ev with Input (Superseded _) => true | _ => false end.

(** The loop's [debug_assert]s: an answer fed back is consumed, a step owes at most one answer,
    and [DropFlight] is never executed here. *)
Definition asserts_hold (stopped fed_back : bool) (h : Handled)
    (fx : list (ForegroundEffect Attempt)) : bool :=
  (stopped || negb fed_back || bool_decide (h = Yes))
  && (length (filter (fun e => awaits_answer e = true) fx) <=? 1)%nat
  && forallb (fun e => match e with Fx_DropFlight => false | _ => true end) fx.

(** [while let Some(ev) = next.take()]: [None] when [fuel] turns were not enough or, in a build
    with [debug] assertions, when one of them fails. *)
Fixpoint run_loop (debug : bool) (fuel : nat) (lc : Machine) (w : W) (run : Run) (fed_back : bool)
    (next : option Ev) : option (Machine * W * Run) :=
  match next with
  | None => Some (lc, w, run)
  | Some ev =>
      match fuel with
      | O => None
      | S fuel =>
          let '(stopped, w) :=
            if is_supersession ev then (false, w) else accept_server_stop w in
          let event := if stopped then Input (Superseded Exit) else ev in
          let '(lc, fx, h) := step lc event in
          if debug && negb (asserts_hold stopped fed_back h fx) then None else
          let run :=
            if stopped then run <| handled := Yes |>
            else if fed_back then run else run <| handled := h |> in
          let fed_back := if stopped then fed_back else true in
          let '(w, run, next) := fold_left exec_effect fx (w, run, None) in
          run_loop debug fuel lc w run fed_back next
      end
  end.

Definition LOOP_FUEL : nat := 3.

Definition run_foreground (debug : bool) (lc : Machine) (w : W) (first : Ev)
  : option (Machine * W * Run) :=
  run_loop debug LOOP_FUEL lc w (mk_run No false None) false (Some first).

Definition drive_foreground (debug : bool) (lc : Machine) (w : W) (input : ForegroundInput)
  : option (Machine * W * ForegroundActivation) :=
  '(lc, w, run) ← run_foreground debug lc w (Input input);
  Some (lc, w,
        match handled run with
        | No => Act_Ordinary
        | Yes => if launched run then Act_Launched else Act_Handled
        end).

(** [poll_foreground_flight]'s drain of the landing: the event it carries, if it landed. *)
Definition flight_landing (flight : Flight) (id : Z) (w : W) : option Ev * W :=
  match flight with
  | Flight_Prepare =>
      let '(l, w) := land_prepare w in
      (match l with
       | Waiting => None
       | Stale => Some FlightStale
       | Landed outcome => Some (PrepareAnswered id (of_outcome outcome))
       end, w)
  | Flight_Recovery =>
      let '(l, w) := land_recovery w in
      (match l with
       | Waiting => None
       | Stale => Some FlightStale
       | Landed start => Some (LoadAnswered id start)
       end, w)
  end.

Definition poll_foreground_flight (debug : bool) (lc : Machine) (w : W)
  : option (Machine * W * ForegroundActivation) :=
  match pending_flight lc with
  | None => Some (lc, w, Act_Handled)
  | Some (flight, id) =>
      let '(stopped, w) := accept_server_stop w in
      if stopped then
        '(lc, w, _) ← run_foreground debug lc w (Input (Superseded Exit));
        Some (lc, w, Act_Handled)
      else
        let '(landing, w) := flight_landing flight id w in
        match landing with
        | None => Some (lc, w, Act_Handled)
        | Some ev =>
            '(lc, w, run) ← run_foreground debug lc w ev;
            Some (lc, w, if launched run then Act_Launched else Act_Handled)
        end
  end.

Definition park_pending_foreground_flight (lc : Machine) (w : W) : Machine * W * bool :=
  let '(lc, fx, h) := step lc ParkFlight in
  match h with
  | No => (lc, w, false)
  | Yes =>
      (lc,
       fold_left (fun w effect =>
         match effect with Fx_DropFlight => suspend_playback w | _ => w end) fx w,
       true)
  end.

Definition poll_foreground_load (debug : bool) (lc : Machine) (w : W)
  : option (Machine * W * ForegroundPollOutcome) :=
  match pending_load_attempt lc with
  | None => Some (lc, w, Poll_Inactive)
  | Some attempt =>
      let '(status, w) := actuator_load_status attempt w in
      '(lc, w, run) ← run_foreground debug lc w (LoadStatus attempt status);
      Some (lc, w,
            match handled run, settled run with
            | No, _ => Poll_Inactive
            | Yes, None => Poll_Pending
            | Yes, Some true => Poll_Started
            | Yes, Some false => Poll_Failed
            end)
  end.
End Drivers.

(** ** Properties of the machine *)

Ltac unfold_step :=
  unfold step, input_step, supersede, park_flight, prepare_answered, load_answered,
    load_status, pending_flight in *.

(** Symbolic execution of one step: every test the handlers make becomes a case. *)
Ltac step_cases :=
  unfold_step; repeat (case_match; simplify_eq/=; try done);
  simplify_eq/=.

Section MachineProps.
Context {Attempt : Type} `{EqDecision Attempt}.
Implicit Types (m : ForegroundLifecycle Attempt) (ev : ForegroundEvent Attempt).

Definition state_id (s : ForegroundState Attempt) : option Z :=
  match s with
  | Idle => None
  | Suspended id _ _ | Claimed id _ | Prepared id _ _ | LoadPending id _ _ _
  | PreparePending id _ _ _ _ | RecoveryPending id _ _ | ClockPending id => Some id
  end.

(** The state a press off the player lets go of while answering [No]. *)
Definition clock_owed (s : ForegroundState Attempt) : bool :=
  match s with ClockPending _ | Claimed _ Claim_PlayClock => true | _ => false end.

(** The answer event an effect owes, for every answer the actuator may give. *)
Inductive answers : ForegroundEffect Attempt -> ForegroundEvent Attempt -> Prop :=
| answers_prepare id resume_ns answer :
    answers (Fx_Prepare id resume_ns) (PrepareAnswered id answer)
| answers_load id resume_ns clock start :
    answers (Fx_Load id resume_ns clock) (LoadAnswered id start)
| answers_clock id accepted :
    answers (Fx_PlayClock id) (ClockAnswered id accepted).

Definition is_answer (ev : ForegroundEvent Attempt) : bool :=
  match ev with
  | PrepareAnswered _ _ | LoadAnswered _ _ | LoadStatus _ _ | ClockAnswered _ _
  | FlightStale | ParkFlight => true
  | _ => false
  end.

(** How many turns of the driver's loop an event can cause, itself included. *)
Definition turns (ev : ForegroundEvent Attempt) : nat :=
  match ev with
  | Input _ => 3
  | PrepareAnswered _ _ | LoadStatus _ _ => 2
  | _ => 1
  end%nat.

(** No effect of [fx] owes an answer. *)
Definition owes_nothing (fx : list (ForegroundEffect Attempt)) : Prop :=
  Forall (fun e => awaits_answer e = false) fx.

(** The claim an effect was emitted for. *)
Definition claimed_for m (e : ForegroundEffect Attempt) : Prop :=
  match e with
  | Fx_Prepare id _ =>
      exists saved_ns saved_clock resume_ns clock,
        state m = Claimed id (Claim_Prepare saved_ns saved_clock resume_ns clock)
  | Fx_Load id resume_ns clock => state m = Claimed id (Claim_Load resume_ns clock)
  | Fx_PlayClock id => state m = Claimed id Claim_PlayClock
  | _ => False
  end.

(** No synchronous claim is outstanding. *)
Definition quiet m : Prop := forall id claim, state m <> Claimed id claim.

(** The effects of one step: either none owes an answer, or exactly the last one does, the
    machine is claimed for it, and every answer it can get is consumed and costs fewer turns. *)
Lemma step_awaiting m ev m' fx h :
  step m ev = (m', fx, h) ->
  (owes_nothing fx /\ (quiet m -> quiet m'))
  \/ exists pre e, fx = pre ++ [e] /\ awaits_answer e = true /\ owes_nothing pre
       /\ claimed_for m' e /\ forall ans, answers e ans -> (turns ans < turns ev)%nat.
Proof.
  intros H. destruct m as [s n], ev; cbn [turns] in *;
    step_cases; first
    [ left; split; [by repeat constructor|intros Hq ? ? ?; simplify_eq/=; by eapply Hq]
    | right; (eexists [], _ + eexists [_], _);
      (split; [reflexivity|]); (split; [reflexivity|]); (split; [by repeat constructor|]);
      (split; [cbn; eauto|]); intros ? Ha; inversion Ha; subst; cbn; lia ].
Qed.

Lemma answer_consumed m e ans :
  claimed_for m e -> answers e ans ->
  exists m' fx, step m ans = (m', fx, Yes) /\ Forall (fun e => e <> Fx_DropFlight) fx
    /\ (owes_nothing fx -> quiet m').
Proof.
  intros Hc Ha. destruct m as [s n]. inversion Ha; subst; cbn in Hc;
    [destruct Hc as (? & ? & ? & ? & ->)|subst s|subst s];
    unfold_step; cbn; rewrite Z.eqb_refl; cbn;
    repeat case_match; simplify_eq/=; eexists _, _; (split; [reflexivity|]);
    (split; [repeat (constructor; try done)|]); intros Ho ? ? ?; simplify_eq/=;
    by inversion Ho.
Qed.

Lemma step_drops_only_parked m ev m' fx h :
  step m ev = (m', fx, h) -> ev <> ParkFlight -> Forall (fun e => e <> Fx_DropFlight) fx.
Proof.
  intros H Hev. destruct m as [s n], ev; try (by destruct Hev); step_cases;
    repeat (constructor; try done).
Qed.

Lemma step_exit_idle m m' fx h :
  step m (Input (Superseded Exit)) = (m', fx, h) ->
  state m' = Idle /\ owes_nothing fx.
Proof. intros H. destruct m as [s n]. step_cases; (split; [done|repeat constructor]). Qed.

(** States reachable from [IDLE] by the one writer, [step]. *)
Inductive reachable : ForegroundLifecycle Attempt -> Prop :=
| reachable_idle : reachable IDLE
| reachable_step m ev m' fx h :
    reachable m -> step m ev = (m', fx, h) -> reachable m'.

(** The claim in force always carries the id the last [Park] drew. *)
Definition owner_is_newest m : Prop :=
  is_u64 (next_id m)
  /\ forall id, state_id (state m) = Some id -> id = next_id m /\ 1 <= id.

(** The id [Park] draws is a [u64] other than 0 and other than the last one. *)
Definition fresh_id (n : Z) : Z :=
  let id := u64_wrap (n + 1) in if id =? 0 then 1 else id.

Lemma fresh_id_spec n : is_u64 n -> 1 <= fresh_id n <= u64_max /\ fresh_id n <> n.
Proof.
  intros Hn. unfold fresh_id. pose proof (u64_wrap_range (n + 1)) as Hr.
  destruct (decide (n = u64_max)) as [->|].
  - by vm_compute.
  - rewrite u64_wrap_small in Hr |- * by ints. bools; ints.
Qed.

Lemma step_not_park m ev m' fx h :
  (forall ns vp, ev <> Park ns vp) -> step m ev = (m', fx, h) ->
  next_id m' = next_id m
  /\ forall id, state_id (state m') = Some id -> state_id (state m) = Some id.
Proof.
  intros Hev H. destruct m as [s n], ev; try (by edestruct Hev); cbn [next_id state] in *;
    clear Hev; step_cases; (split; [done|]); intros i Hi; simplify_eq/=;
    rewrite ?negb_false_iff, ?Z.eqb_eq in *; subst; done.
Qed.

Lemma step_owner_is_newest m ev m' fx h :
  owner_is_newest m -> step m ev = (m', fx, h) -> owner_is_newest m'.
Proof.
  intros [Hn Hm] H. destruct ev as [ns vp| | | | | | | ];
    [|eapply step_not_park in H as [Hid Hsub]; [|done];
      split; [congruence|intros i Hi; rewrite Hid; by apply Hm, Hsub]..].
  cbn in H. simplify_eq. change (owner_is_newest
    (mk_lifecycle (Suspended (fresh_id (next_id m)) ns (clock_for_suspend m vp))
                  (fresh_id (next_id m)))).
  pose proof (fresh_id_spec _ Hn). split; cbn; [ints|].
  intros id [= <-]. split; [done|ints].
Qed.

Lemma reachable_owner_is_newest m : reachable m -> owner_is_newest m.
Proof.
  induction 1 as [|m ev m' fx h _ IH Hstep]; [done|].
  by eapply step_owner_is_newest.
Qed.

(** What an event other than a park has to name to be an answer to the claim in force. *)
Definition addressed_to m ev : Prop :=
  match ev with
  | PrepareAnswered id _ | LoadAnswered id _ | ClockAnswered id _ =>
      state_id (state m) = Some id
  | LoadStatus attempt _ => pending_load_attempt m = Some attempt
  | FlightStale | ParkFlight => is_Some (pending_flight m)
  | Input _ | Park _ _ => True
  end.

(** An event the machine does not consume has no effect and moves nothing, except a PLAY
    press with no player on screen, which drops a clock still owed to a player that is gone.
    In particular an answer which names another claim, or another attempt, than the one in
    force is never consumed. *)
Theorem step_unhandled_is_inert m ev m' fx :
  step m ev = (m', fx, No) ->
  fx = []
  /\ (m' = m
      \/ ev = Input PlayKeyOffPlayer /\ clock_owed (state m) = true /\ m' = m <| state := Idle |>).
Proof. intros H. destruct m as [s n]. step_cases; auto. Qed.

(** An answer is consumed only by the claim it was made for: whatever the machine consumes names
    the session in force (prepare, load and clock answers), the attempt in flight (a load
    status), or comes while a flight is pending (a stale or parked flight). *)
Theorem step_consumes_addressed_only m ev m' fx :
  step m ev = (m', fx, Yes) -> addressed_to m ev.
Proof.
  intros H. destruct m as [s n]. step_cases; cbn; auto;
    rewrite ?negb_false_iff, ?Z.eqb_eq, ?bool_decide_eq_true in *; subst; eauto.
Qed.

(** A [Park] retires every claim made before it: an answer to the claim that was in force is
    not consumed any more, whatever it says and even after the parked session has been claimed
    again, across the wrap of the id counter too. *)
Theorem park_retires_claims m saved_ns vp input id answer start accepted :
  reachable m -> state_id (state m) = Some id ->
  let m' := (step (step m (Park saved_ns vp)).1.1 (Input input)).1.1 in
  step m' (PrepareAnswered id answer) = (m', [], No)
  /\ step m' (LoadAnswered id start) = (m', [], No)
  /\ step m' (ClockAnswered id accepted) = (m', [], No).
Proof.
  intros Hr Hid m'. destruct (reachable_owner_is_newest _ Hr) as [Hn Howner].
  destruct (Howner _ Hid) as [-> _]. destruct (fresh_id_spec _ Hn) as [_ Hne].
  assert (forall i, state_id (state m') = Some i -> i <> next_id m) as Hnew.
  { intros i Hi. destruct (step (step m (Park saved_ns vp)).1.1 (Input input))
      as [[m2 fx] h] eqn:E. subst m'. eapply step_not_park in E as [_ E]; [|done].
    specialize (E _ Hi). cbn in E. injection E as <-. exact Hne. }
  clearbody m'. destruct m' as [s n]; cbn in Hnew |- *.
  unfold_step; cbn; destruct s as [| | ? [] | | | | |]; cbn in *; try done;
    rewrite (proj2 (Z.eqb_neq _ _) (Hnew _ eq_refl)); done.
Qed.

(** After an exit nothing that comes back can revive the session. *)
Theorem exit_is_final m m' fx h ev :
  step m (Input (Superseded Exit)) = (m', fx, h) ->
  is_answer ev = true ->
  state m' = Idle
  /\ (h = No <-> state m = Idle)
  /\ (forall e, e ∈ fx -> exists id n a clock, e = Fx_Retire id clock /\ state m = LoadPending id n a clock)
  /\ step m' ev = (m', [], No).
Proof.
  intros H Hev. destruct (step_exit_idle _ _ _ _ H) as [Hidle _].
  split; [done|]. destruct m as [s n], m' as [s' n']; cbn in Hidle; subst s'.
  split; [|split].
  - step_cases; split; intros; (done || congruence).
  - step_cases; intros e He; set_unfold; try done; destruct He as [->|]; [|done].
    by eexists _, _, _, _.
  - by destruct ev.
Qed.

Definition claims_parked (input : ForegroundInput) : Prop :=
  input = DidForeground \/ input = PlayKey \/ input = PlayKeyOffPlayer.

Lemma claim_suspended n id saved_ns saved_clock input :
  claims_parked input ->
  exists resume_ns clock,
    step (mk_lifecycle (Suspended id saved_ns saved_clock) n) (Input input)
    = (mk_lifecycle (Claimed id (Claim_Prepare saved_ns saved_clock resume_ns clock)) n,
       [Fx_Prepare (Attempt := Attempt) id resume_ns], Yes)
    /\ resume_ns = (if decide (saved_clock = Paused) then saved_ns
                    else Z.max (i64_sat (saved_ns - RESUME_REWIND_NS)) 0)
    /\ clock = (if decide (input = DidForeground) then saved_clock else Playing).
Proof.
  intros [->|[->| ->]]; eexists _, _; (split; [reflexivity|]); by destruct saved_clock.
Qed.

(** Parking mid-restore gives back the very session that was parked: the claim on a suspended
    session, refused or dropped while its rebuild is in flight, leaves position, clock and id
    exactly as the OS suspend saved them. *)
Theorem restore_round_trip m id saved_ns saved_clock input :
  state m = Suspended id saved_ns saved_clock -> claims_parked input ->
  let m1 := (step m (Input input)).1.1 in
  (step m1 (PrepareAnswered id Answer_Refused)).1.1 = m
  /\ (step (step m1 (PrepareAnswered id Answer_Pending)).1.1 ParkFlight).1.1 = m.
Proof.
  destruct m as [s n]; cbn [state]. intros -> Hin.
  destruct (claim_suspended n id saved_ns saved_clock input Hin) as (r & c & -> & _ & _).
  unfold_step; cbn. by rewrite Z.eqb_refl.
Qed.

(** Where a restore resumes: a session parked paused comes back at the saved position, one
    parked playing [RESUME_REWIND_NS] earlier, never before the start; a PLAY press asks for
    Playing, a DID foreground for the saved clock. *)
Theorem restore_position m id saved_ns saved_clock input :
  state m = Suspended id saved_ns saved_clock -> is_i64 saved_ns -> claims_parked input ->
  exists resume_ns clock,
    step m (Input input)
    = (m <| state := Claimed id (Claim_Prepare saved_ns saved_clock resume_ns clock) |>,
       [Fx_Prepare id resume_ns], Yes)
    /\ (saved_clock = Paused -> resume_ns = saved_ns)
    /\ (saved_clock = Playing ->
        resume_ns = Z.max 0 (saved_ns - RESUME_REWIND_NS) /\ is_i64 resume_ns)
    /\ clock = (if decide (input = DidForeground) then saved_clock else Playing).
Proof.
  destruct m as [s n]; cbn [state]. intros -> Hr Hin.
  destruct (claim_suspended n id saved_ns saved_clock input Hin) as (r & c & -> & -> & ->).
  eexists _, _. split; [reflexivity|]. unfold RESUME_REWIND_NS.
  destruct saved_clock;
    [rewrite decide_True by done|rewrite decide_False by done]; repeat split; intros; try done; ints.
Qed.

(** The viewer's PLAY survives a second suspend at any point of the restore it started: once a
    claim asked for Playing, every park before the clock is running saves Playing, whatever
    the physical transport reads. *)
Definition wants_playing (s : ForegroundState Attempt) : bool :=
  match s with
  | LoadPending _ _ _ Playing | RecoveryPending _ _ Playing | ClockPending _
  | Claimed _ Claim_PlayClock => true
  | _ => false
  end.

(** A pending wish to play outlives an OS suspend: parked while a load, a recovery or the clock
    itself was still to be asked for Playing, the session comes back Playing, whatever the
    physical transport reads at that moment. *)
Theorem play_intent_survives_park m saved_ns vp :
  wants_playing (state m) = true ->
  exists id, state (step m (Park saved_ns vp)).1.1 = Suspended id saved_ns Playing.
Proof.
  destruct m as [s n]. cbn. unfold clock_for_suspend; cbn.
  intros H. eexists. destruct s as [| | ? [] | | ? ? ? [] | | ? ? [] | ]; try done.
Qed.

(** Play is asked of the native clock only after the exact attempt in force reported Started
    for a restore that wants Playing (its [AfterLoad] first), or as the retry of a clock that
    refused. *)
Theorem play_clock_needs_started m ev m' fx h id :
  step m ev = (m', fx, h) -> Fx_PlayClock id ∈ fx ->
  state m' = Claimed id Claim_PlayClock /\ h = Yes
  /\ ((exists attempt resume_ns,
          ev = LoadStatus attempt St_Started /\ state m = LoadPending id attempt resume_ns Playing
          /\ fx = [Fx_AfterLoad (Some attempt) Playing true; Fx_PlayClock id])
      \/ (ev = Input PlayKey \/ ev = Input PlayKeyOffPlayer)
         /\ state m = ClockPending id /\ fx = [Fx_PlayClock id]).
Proof.
  intros H Hin. destruct m as [s n].
  step_cases; set_unfold; repeat (destruct Hin as [Hin|Hin]; simplify_eq/=; try done);
    rewrite ?orb_true_iff, ?negb_false_iff, ?bool_decide_eq_true in *; subst; naive_solver.
Qed.
End MachineProps.

(** ** Properties of the drivers *)

Section DriverProps.
Context {W Attempt : Type} `{EqDecision Attempt} `{!ForegroundActuator W Attempt}.
Implicit Types (lc : ForegroundLifecycle Attempt) (w : W) (ev : ForegroundEvent Attempt).

Lemma exec_owes_nothing fx w run next :
  owes_nothing fx -> exists w' run', fold_left exec_effect fx (w, run, next) = (w', run', next).
Proof.
  intros H. revert w run. induction H as [|e fx He _ IH]; intros w run; cbn; [eauto|].
  destruct e; try done; cbn; apply IH.
Qed.

Lemma exec_awaiting e w run next :
  awaits_answer e = true ->
  exists w' run' ans, exec_effect (w, run, next) e = (w', run', Some ans) /\ answers e ans.
Proof.
  destruct e; try done; cbn; intros _; case_match; eexists _, _, _;
    (split; [reflexivity|constructor]).
Qed.

(** The invariant at the head of the loop: the event in the slot either starts the run or
    answers the one claim outstanding. *)
Definition loop_ready lc (fed_back : bool) ev : Prop :=
  ev <> ParkFlight /\
  (quiet lc /\ fed_back = false \/ exists e, claimed_for lc e /\ answers e ev).

Lemma asserts_hold_intro stopped fed_back h (fx : list (ForegroundEffect Attempt)) :
  (stopped = false -> fed_back = true -> h = Yes) ->
  (owes_nothing fx \/ exists pre e, fx = pre ++ [e] /\ owes_nothing pre) ->
  Forall (fun e => e <> Fx_DropFlight) fx ->
  asserts_hold stopped fed_back h fx = true.
Proof.
  assert (forall l, owes_nothing l ->
            filter (fun e : ForegroundEffect Attempt => awaits_answer e = true) l = []) as Hnil.
  { induction 1 as [|e l He _ IH]; [done|]. rewrite filter_cons_False; [done|congruence]. }
  intros Hh Hfx Hdrop. unfold asserts_hold. rewrite !andb_true_iff. split; [split|].
  - destruct stopped, fed_back, h; cbn in *; try done. by discriminate Hh.
  - apply Nat.leb_le. destruct Hfx as [H|(pre & e & -> & H)].
    + rewrite (Hnil _ H). cbn. lia.
    + rewrite filter_app, (Hnil _ H), filter_cons. case_decide; cbn; lia.
  - apply forallb_forall. intros e He. rewrite Forall_forall in Hdrop.
    specialize (Hdrop e). rewrite list_elem_of_In in Hdrop. destruct e; try done.
    by destruct Hdrop.
Qed.

Lemma run_loop_returns fuel lc w run fed_back ev :
  (turns ev <= fuel)%nat -> loop_ready lc fed_back ev ->
  exists lc' w' run', quiet lc'
    /\ forall debug, run_loop debug fuel lc w run fed_back (Some ev) = Some (lc', w', run').
Proof.
  revert lc w run fed_back ev.
  induction fuel as [|fuel IH]; intros lc w run fed_back ev Hfuel [Hpark Hready];
    [destruct ev; cbn in Hfuel; lia|]. cbn [run_loop].
  destruct (if is_supersession ev then (false, w) else accept_server_stop w)
    as [stopped w0] eqn:Estop.
  destruct (step lc (if stopped then Input (Superseded Exit) else ev)) as [[lc1 fx] h] eqn:Est.
  assert (Forall (fun e => e <> Fx_DropFlight) fx) as Hdrop.
  { eapply step_drops_only_parked; [exact Est|by destruct stopped]. }
  assert ((owes_nothing fx /\ quiet lc1)
    \/ stopped = false /\ exists pre e, fx = pre ++ [e] /\ awaits_answer e = true
         /\ owes_nothing pre /\ claimed_for lc1 e
         /\ forall ans, answers e ans -> (turns ans < turns ev)%nat) as Hfx.
  { destruct stopped.
    - destruct (step_exit_idle _ _ _ _ Est) as [Hidle Ho]. left. split; [done|].
      intros ? ?. by rewrite Hidle.
    - destruct (step_awaiting _ _ _ _ _ Est) as [[Ho Hq]|He]; [left|by right].
      split; [done|]. destruct Hready as [[Hq0 _]|(e & Hc & Ha)]; [by apply Hq|].
      destruct (answer_consumed _ _ _ Hc Ha) as (? & ? & E & _ & Hq'). rewrite E in Est. simplify_eq. by apply Hq'. }
  assert (asserts_hold stopped fed_back h fx = true) as Hassert.
  { apply asserts_hold_intro;
      [|destruct Hfx as [[? _]|(_ & pre & e & -> & _ & ? & _)]; eauto|done].
    intros -> ->. destruct Hready as [[_ [=]]|(e & Hc & Ha)].
    destruct (answer_consumed _ _ _ Hc Ha) as (? & ? & E & _). congruence. }
  setoid_rewrite Hassert. cbn [negb]. setoid_rewrite andb_false_r.
  set (run1 := if stopped then _ else _). set (fb := if stopped then fed_back else true).
  destruct Hfx as [[Ho Hq]|(-> & pre & e & -> & He & Hpre & Hc & Hlt)].
  - destruct (exec_owes_nothing fx w0 run1 None Ho) as (w2 & run2 & ->).
    exists lc1, w2, run2. split; [done|]. intros debug. by destruct fuel.
  - setoid_rewrite fold_left_app. destruct (exec_owes_nothing pre w0 run1 None Hpre) as (w2 & run2 & ->).
    destruct (exec_awaiting e w2 run2 None He) as (w3 & run3 & ans & Hex & Hans).
    cbn [fold_left]. setoid_rewrite Hex. apply IH.
    + specialize (Hlt _ Hans). lia.
    + split; [by destruct Hans|]. right. eauto.
Qed.

Lemma run_foreground_returns lc w ev :
  quiet lc -> ev <> ParkFlight ->
  exists lc' w' run', quiet lc'
    /\ forall debug, run_foreground debug lc w ev = Some (lc', w', run').
Proof.
  intros Hq Hev. apply run_loop_returns; [unfold LOOP_FUEL; destruct ev; cbn; lia|]. split; [done|by left].
Qed.

(** C39. Every driver, from a machine with no synchronous claim outstanding, returns (three turns of
    the loop are enough), leaves none outstanding, and behaves the same with the loop's debug
    assertions compiled in: an answer fed back is always consumed by the claim it settles, and a
    step never owes two. *)
Theorem drivers_settle lc w input :
  quiet lc ->
  (exists lc' w' act, quiet lc' /\ forall debug, drive_foreground debug lc w input = Some (lc', w', act))
  /\ (exists lc' w' act, quiet lc' /\ forall debug, poll_foreground_flight debug lc w = Some (lc', w', act))
  /\ (exists lc' w' out, quiet lc' /\ forall debug, poll_foreground_load debug lc w = Some (lc', w', out))
  /\ quiet (park_pending_foreground_flight lc w).1.1.
Proof.
  intros Hq. split; [|split; [|split]].
  - unfold drive_foreground.
    destruct (run_foreground_returns lc w (Input input)) as (lc' & w' & run & Hq' & Hr); [done..|].
    eexists _, _, _. split; [exact Hq'|]. intros debug. rewrite Hr. reflexivity.
  - unfold poll_foreground_flight. destruct (pending_flight lc) as [[flight id]|]; [|eauto 10].
    destruct (accept_server_stop w) as [[] w0].
    + destruct (run_foreground_returns lc w0 (Input (Superseded Exit)))
        as (lc' & w' & run & Hq' & Hr); [done..|].
      eexists _, _, _. split; [exact Hq'|]. intros debug. rewrite Hr. reflexivity.
    + assert ((flight_landing flight id w0).1 <> Some ParkFlight) as Hl.
      { unfold flight_landing. by repeat case_match. }
      destruct (flight_landing flight id w0) as [[ev|] w1]; [|eauto 10]. cbn in Hl.
      destruct (run_foreground_returns lc w1 ev) as (lc' & w' & run & Hq' & Hr); [done|congruence|].
      eexists _, _, _. split; [exact Hq'|]. intros debug. rewrite Hr. reflexivity.
  - unfold poll_foreground_load. destruct (pending_load_attempt lc) as [attempt|]; [|eauto 10].
    destruct (actuator_load_status attempt w) as [status w0].
    destruct (run_foreground_returns lc w0 (LoadStatus attempt status))
      as (lc' & w' & run & Hq' & Hr); [done..|].
    eexists _, _, _. split; [exact Hq'|]. intros debug. rewrite Hr. reflexivity.
  - destruct lc as [[] n]; cbn; done.
Qed.
End DriverProps.
