(* ===== verification/AuQueue.v ===== *)
(** * The access-unit queue

    [play-feed/src/aq.rs]: the FIFO between the demuxer (its one producer) and the feed loop (its
    one consumer), with byte-cap backpressure.

    Every operation runs under the queue's mutex, except that a parked push gives the mutex up
    while it drains the media socket or waits on [not_full].  The model is therefore a machine
    whose steps are the critical sections: a push is split where the source unlocks, and any
    operation may run in between.  [run] replays an explicit interleaving. *)

From S2P Require Import Prelude.

(** ** Data *)

(** [data] is what [copy_nonoverlapping] wrote after the header; [None] when nothing was copied. *)
Record AuNode := mk_node {
  an_pts : Z;
  an_len : Z;
  an_key : Z;
  an_es : Z;
  an_data : option (list Z)
}.

Definition AU_KEY : Z := 1.

Definition hevc_irap_not_idr (key : Z) : option Z :=
  if ((16 <=? key) && (key <=? 18)) || ((21 <=? key) && (key <=? 23)) then Some key else None.

Inductive IrapKind := CRA | BLA | ReservedIrap.

Definition hevc_irap_label (nal : Z) : IrapKind * Z :=
  (if nal =? 21 then CRA
   else if (16 <=? nal) && (nal <=? 18) then BLA else ReservedIrap, nal).

(** The linked list from [head] to [tail] is the list of its nodes; [c_long] is 32 bits wide. *)
Record AuQueue := mk_queue {
  aq_nodes : list AuNode;
  aq_queued_bytes : Z;
  aq_max_bytes : Z;
  aq_base_bytes : Z;
  aq_releasing : bool;
  aq_pops : Z;
  aq_eof : bool;
  aq_abort : bool
}.
#[export] Instance eta_queue : Eta AuQueue := fun q =>
  mk_queue (aq_nodes q) (aq_queued_bytes q) (aq_max_bytes q) (aq_base_bytes q) (aq_releasing q)
    (aq_pops q) (aq_eof q) (aq_abort q).

Record PushGate := mk_gate {
  pg_starved_below_ns : Z;
  pg_headroom : Z;
  pg_fail_at_ceiling : bool
}.

Definition PUSH_CEILING : Z := -2.

(** ** Operations, each one critical section *)

Definition aq_new (cap : Z) : AuQueue := mk_queue [] 0 cap cap false 0 false false.

(** [aq_would_park], and the test the park loop waits on. *)
Definition aq_would_park (q : AuQueue) : bool :=
  (aq_max_bytes q <? aq_queued_bytes q) && negb (aq_abort q).

Definition aq_span_ns (q : AuQueue) : Z :=
  match head (aq_nodes q), last (aq_nodes q) with
  | Some h, Some t => Z.max (i64_wrap (an_pts t - an_pts h)) 0
  | _, _ => 0
  end.

Definition settle_released_cap (q : AuQueue) : AuQueue :=
  let floor := aq_base_bytes q in
  let q := q <| aq_max_bytes := Z.max (Z.min (aq_max_bytes q) (aq_queued_bytes q)) floor |> in
  if aq_max_bytes q <=? floor then q <| aq_releasing := false |> else q.

(** The node popped; [eof_out] is [aq_drained] of the queue after the pop. *)
Definition aq_pop (q : AuQueue) : AuQueue * option AuNode :=
  match aq_nodes q with
  | [] => (q, None)
  | n :: rest =>
      let q := q <| aq_nodes := rest |>
                 <| aq_queued_bytes := i32_wrap (aq_queued_bytes q - an_len n) |>
                 <| aq_pops := u64_wrap (aq_pops q + 1) |> in
      (if aq_releasing q then settle_released_cap q else q, Some n)
  end.

Definition aq_drained (q : AuQueue) : bool :=
  match aq_nodes q with [] => aq_eof q | _ => false end.

Definition aq_set_eof (q : AuQueue) : AuQueue := q <| aq_eof := true |>.
Definition aq_set_abort (q : AuQueue) : AuQueue := q <| aq_abort := true |>.

(** The closure runs under the mutex [aq_abort] takes. *)
Definition aq_if_not_aborted {T} (q : AuQueue) (f : unit -> T) : option T :=
  if aq_abort q then None else Some (f tt).

(** The flag says whether [not_full] was broadcast. *)
Definition aq_set_headroom (q : AuQueue) (extra : Z) : AuQueue * bool :=
  let prev := aq_max_bytes q in
  let q := q <| aq_max_bytes := i32_wrap (aq_base_bytes q + Z.max extra 0) |>
             <| aq_releasing := false |> in
  (q, prev <? aq_max_bytes q).

Definition aq_release_headroom (q : AuQueue) : AuQueue :=
  settle_released_cap (q <| aq_releasing := true |>).

Definition aq_append (q : AuQueue) (n : AuNode) : AuQueue :=
  q <| aq_nodes := aq_nodes q ++ [n] |>
    <| aq_queued_bytes := i32_wrap (aq_queued_bytes q + an_len n) |>.

(** ** A push, split where it gives the mutex up *)

Record PushCall := mk_push {
  pc_node : AuNode;
  pc_drain : bool;
  pc_gate : option PushGate
}.

(** How a critical section of a push ends: with a return code, outside the lock running [drain]
    (and, when gated, reading the other lane), or in a timed or untimed wait on [not_full]. *)
Inductive PushExit :=
  | PushReturns (code : Z)
  | PushDrains
  | PushWaits (timed : bool).

(** After the loop: the abort check, then the append. *)
Definition push_finish (q : AuQueue) (c : PushCall) : AuQueue * PushExit :=
  if aq_abort q then (q, PushReturns (-1)) else (aq_append q (pc_node c), PushReturns 0).

(** The loop's head, the mutex held. *)
Definition push_top (q : AuQueue) (c : PushCall) : AuQueue * PushExit :=
  if aq_would_park q then
    match pc_gate c with
    | Some _ => (q, PushDrains)
    | None => if pc_drain c then (q, PushDrains) else (q, PushWaits false)
    end
  else push_finish q c.

(** The mutex taken again after [drain] returned [keep_polling] and, for a gated push, after the
    other lane was read as [other]. *)
Definition push_drained (q : AuQueue) (c : PushCall) (keep_polling : bool) (other : AuQueue)
    : AuQueue * PushExit :=
  match pc_gate c with
  | Some g =>
      let starved := aq_span_ns other <? pg_starved_below_ns g in
      if negb (aq_would_park q) then push_top q c
      else if starved
              && (aq_queued_bytes q <=? i32_wrap (aq_base_bytes q + Z.max (pg_headroom g) 0))
      then push_finish q c
      else if starved && pg_fail_at_ceiling g then (q, PushReturns PUSH_CEILING)
      else (q, PushWaits true)
  | None => if aq_would_park q then (q, PushWaits keep_polling) else push_top q c
  end.

(** [aq_push_park] up to its first unlock; [allocated] is whether [malloc] returned a node. *)
Definition aq_push_park (q : AuQueue) (c : PushCall) (allocated : bool) : AuQueue * PushExit :=
  if an_len (pc_node c) <? 0 then (q, PushReturns (-1))
  else if negb allocated then (q, PushReturns (-1))
  else push_top q c.

Definition push_node (data : option (list Z)) (len pts key es : Z) : AuNode :=
  mk_node pts len key es
    (if 0 <? len then option_map (take (Z.to_nat len)) data else None).

Definition aq_push data len pts key es : PushCall :=
  mk_push (push_node data len pts key es) false None.
Definition aq_push_with_drain data len pts key es : PushCall :=
  mk_push (push_node data len pts key es) true None.
Definition aq_push_gated data len pts key es (gate : PushGate) : PushCall :=
  mk_push (push_node data len pts key es) true (Some gate).

Record Timespec := mk_timespec { tv_sec : Z; tv_nsec : Z }.

(** [tv_nsec] is added as a [c_long]; the shipped target's is 32 bits wide. *)
Definition add_10ms (ts : Timespec) : Timespec :=
  let nsec := i32_wrap (tv_nsec ts + 10000000) in
  if 1000000000 <=? nsec then mk_timespec (i32_wrap (tv_sec ts + 1)) (i32_wrap (nsec - 1000000000))
  else mk_timespec (tv_sec ts) nsec.

(** ** The machine: one producer, one consumer, and whoever sets eof, abort and headroom *)

Inductive Stage :=
  | Draining
  | Waiting (timed signalled : bool).

(** [sy_pushed], [sy_popped] and [sy_codes] are histories: the nodes appended, the nodes handed to
    the consumer, the codes the pushes returned. *)
Record Sys := mk_sys {
  sy_queue : AuQueue;
  sy_producer : option (PushCall * Stage);
  sy_pushed : list AuNode;
  sy_popped : list AuNode;
  sy_codes : list Z
}.

Inductive Event :=
  | EvPush (c : PushCall) (allocated : bool)
  | EvDrained (keep_polling : bool) (other : AuQueue)
  | EvWake
  | EvPop
  | EvSetEof
  | EvAbort
  | EvSetHeadroom (extra : Z)
  | EvReleaseHeadroom.

Definition sys_new (cap : Z) : Sys := mk_sys (aq_new cap) None [] [] [].

(** The producer's position and the histories after one of its critical sections. *)
Definition producer_step (s : Sys) (c : PushCall) (r : AuQueue * PushExit) : Sys :=
  match r with
  | (q, PushReturns code) =>
      mk_sys q None (if code =? 0 then sy_pushed s ++ [pc_node c] else sy_pushed s)
        (sy_popped s) (sy_codes s ++ [code])
  | (q, PushDrains) => mk_sys q (Some (c, Draining)) (sy_pushed s) (sy_popped s) (sy_codes s)
  | (q, PushWaits timed) =>
      mk_sys q (Some (c, Waiting timed false)) (sy_pushed s) (sy_popped s) (sy_codes s)
  end.

(** The rest of the world changed the queue and, when [signal], signalled [not_full]. *)
Definition signal_not_full (signal : bool) (p : option (PushCall * Stage)) :=
  match p with
  | Some (c, Waiting timed signalled) => Some (c, Waiting timed (signalled || signal))
  | _ => p
  end.

Definition other_step (s : Sys) (q : AuQueue) (signal : bool) (popped : option AuNode) : Sys :=
  mk_sys q (signal_not_full signal (sy_producer s)) (sy_pushed s)
    (sy_popped s ++ option_list popped) (sy_codes s).

(** [None]: the event cannot happen there.  A wake needs no signal: a timed wait times out, and
    [pthread_cond_wait] may wake spuriously. *)
Definition sys_step (s : Sys) (e : Event) : option Sys :=
  let q := sy_queue s in
  match e, sy_producer s with
  | EvPush c allocated, None => Some (producer_step s c (aq_push_park q c allocated))
  | EvDrained keep other, Some (c, Draining) => Some (producer_step s c (push_drained q c keep other))
  | EvWake, Some (c, Waiting _ _) => Some (producer_step s c (push_top q c))
  | EvPop, _ => let (q', n) := aq_pop q in Some (other_step s q' (bool_decide (is_Some n)) n)
  | EvSetEof, _ => Some (other_step s (aq_set_eof q) false None)
  | EvAbort, _ => Some (other_step s (aq_set_abort q) true None)
  | EvSetHeadroom extra, _ =>
      let (q', signal) := aq_set_headroom q extra in Some (other_step s q' signal None)
  | EvReleaseHeadroom, _ => Some (other_step s (aq_release_headroom q) false None)
  | _, _ => None
  end.

Fixpoint run (s : Sys) (es : list Event) : option Sys :=
  match es with
  | [] => Some s
  | e :: es => s' ← sys_step s e; run s' es
  end.

(** ** The invariant *)

Definition total (ns : list AuNode) : Z := foldr (fun n acc => an_len n + acc) 0 ns.

Section Invariant.

(** The cap the queue was created with, the most headroom anyone grants, the longest unit pushed. *)
Context (cap H L : Z).

Definition call_ok (c : PushCall) : Prop :=
  an_len (pc_node c) <= L /\
  match pc_gate c with Some g => pg_headroom g <= H | None => True end.

Definition event_ok (e : Event) : Prop :=
  match e with
  | EvPush c _ => call_ok c
  | EvSetHeadroom extra => extra <= H
  | _ => True
  end.

Record queue_ok (q : AuQueue) : Prop := {
  qo_bytes : aq_queued_bytes q = total (aq_nodes q);
  qo_lens : Forall (fun n => 0 <= an_len n <= L) (aq_nodes q);
  qo_base : aq_base_bytes q = cap;
  qo_max : cap <= aq_max_bytes q <= cap + H;
  qo_occupancy : aq_queued_bytes q <= cap + H + L
}.

(** A critical section of a push leaves the queue alone unless it returns 0, and only waits on a
    lane that is over its cap. *)
Definition exit_ok (q : AuQueue) (c : PushCall) (r : AuQueue * PushExit) : Prop :=
  match r.2 with
  | PushReturns code =>
      if code =? 0 then r.1 = aq_append q (pc_node c) /\ aq_abort q = false else r.1 = q
  | PushDrains => r.1 = q
  | PushWaits _ => r.1 = q /\ aq_would_park q = true
  end.

Record sys_ok (s : Sys) : Prop := {
  so_queue : queue_ok (sy_queue s);
  so_fifo : sy_pushed s = sy_popped s ++ aq_nodes (sy_queue s);
  so_pops : aq_pops (sy_queue s) = u64_wrap (Z.of_nat (length (sy_popped s)));
  so_call : forall c st, sy_producer s = Some (c, st) -> call_ok c /\ 0 <= an_len (pc_node c);
  so_wait : forall c timed, sy_producer s = Some (c, Waiting timed false) ->
              aq_would_park (sy_queue s) = true
}.

Hypothesis (Hcap : 0 <= cap) (HH : 0 <= H) (HL : 0 <= L) (Hfits : cap + H + L <= i32_max).

Lemma i32_wrap_small z : i32_min <= z <= i32_max -> i32_wrap z = z.
Proof. intros. unfold i32_wrap. rewrite Z.mod_small; ints. Qed.

Lemma total_app a b : total (a ++ b) = total a + total b.
Proof. induction a; simpl; lia. Qed.

Lemma total_nonneg ns : Forall (fun n => 0 <= an_len n <= L) ns -> 0 <= total ns.
Proof. induction 1; simpl; lia. Qed.

Lemma queue_ok_append q n :
  queue_ok q -> 0 <= an_len n <= L -> aq_queued_bytes q <= cap + H -> queue_ok (aq_append q n).
Proof.
  intros [Hb Hl Hbase Hmax Hocc] Hn Hroom. pose proof (total_nonneg _ Hl).
  assert (Hw : i32_wrap (aq_queued_bytes q + an_len n) = aq_queued_bytes q + an_len n)
    by (apply i32_wrap_small; ints).
  split; simpl; rewrite ?Hw; try done; try lia.
  - rewrite total_app. simpl. lia.
  - apply Forall_app. split; [done|]. by constructor.
Qed.

Lemma queue_ok_settle q : queue_ok q -> queue_ok (settle_released_cap q).
Proof.
  intros [Hb Hl Hbase Hmax Hocc]. unfold settle_released_cap. simpl.
  destruct (_ <=? _); split; simpl; try done; lia.
Qed.

Lemma queue_ok_pop q : queue_ok q -> queue_ok (aq_pop q).1.
Proof.
  intros Hok. unfold aq_pop. destruct (aq_nodes q) as [|n rest] eqn:Hn; [done|].
  assert (Hq : queue_ok (q <| aq_nodes := rest |>
                 <| aq_queued_bytes := i32_wrap (aq_queued_bytes q - an_len n) |>
                 <| aq_pops := u64_wrap (aq_pops q + 1) |>)).
  { destruct Hok as [Hb Hl Hbase Hmax Hocc]. rewrite Hn in Hb, Hl. simpl in Hb.
    inversion Hl as [|? ? Hln Hrest]; subst. pose proof (total_nonneg _ Hrest).
    assert (Hw : i32_wrap (aq_queued_bytes q - an_len n) = total rest)
      by (rewrite i32_wrap_small; ints).
    split; simpl; rewrite ?Hw; try done; lia. }
  cbv zeta. cbn [fst]. destruct (aq_releasing _); [by apply queue_ok_settle|done].
Qed.

Lemma settle_nodes q : aq_nodes (settle_released_cap q) = aq_nodes q.
Proof. unfold settle_released_cap. simpl. by destruct (_ <=? _). Qed.

Lemma settle_pops q : aq_pops (settle_released_cap q) = aq_pops q.
Proof. unfold settle_released_cap. simpl. by destruct (_ <=? _). Qed.

Lemma settle_abort q : aq_abort (settle_released_cap q) = aq_abort q.
Proof. unfold settle_released_cap. simpl. by destruct (_ <=? _). Qed.

(** Taking headroom away never un-parks a producer, and never parks one. *)
Lemma settle_would_park q :
  queue_ok q -> aq_would_park (settle_released_cap q) = aq_would_park q.
Proof.
  intros [Hb Hl Hbase Hmax Hocc]. unfold aq_would_park, settle_released_cap. simpl.
  destruct (_ <=? aq_base_bytes q); simpl; f_equal; bools; try done; lia.
Qed.

Lemma pop_spec q :
  match aq_nodes q with
  | [] => aq_pop q = (q, None)
  | n :: rest =>
      (aq_pop q).2 = Some n /\ aq_nodes (aq_pop q).1 = rest /\
      aq_pops (aq_pop q).1 = u64_wrap (aq_pops q + 1) /\ aq_abort (aq_pop q).1 = aq_abort q
  end.
Proof.
  unfold aq_pop. destruct (aq_nodes q); [done|]. cbv zeta. cbn [fst snd].
  destruct (aq_releasing _); rewrite ?settle_nodes, ?settle_pops, ?settle_abort; done.
Qed.

Lemma queue_ok_headroom q extra :
  queue_ok q -> extra <= H -> queue_ok (aq_set_headroom q extra).1.
Proof.
  intros [Hb Hl Hbase Hmax Hocc] He. unfold aq_set_headroom. simpl.
  rewrite i32_wrap_small by ints. split; simpl; try done; lia.
Qed.

Lemma push_finish_ok q c :
  exit_ok q c (push_finish q c).
Proof. unfold push_finish, exit_ok. destruct (aq_abort q) eqn:Ha; simpl; rewrite ?Ha; done. Qed.

Lemma push_top_ok q c : exit_ok q c (push_top q c).
Proof.
  unfold push_top. destruct (aq_would_park q) eqn:Hp; [|apply push_finish_ok].
  destruct (pc_gate c); [done|]. by destruct (pc_drain c).
Qed.

Lemma push_drained_ok q c keep other : exit_ok q c (push_drained q c keep other).
Proof.
  unfold push_drained.
  destruct (pc_gate c) as [g|]; destruct (aq_would_park q) eqn:Hp; simpl;
    auto using push_top_ok; try done.
  destruct (_ && _); [apply push_finish_ok|]. by destruct (_ && _).
Qed.

Lemma push_park_ok q c allocated : exit_ok q c (aq_push_park q c allocated).
Proof.
  unfold aq_push_park. destruct (_ <? 0); [done|]. destruct allocated; [apply push_top_ok|done].
Qed.

(** A push that appends has room for it: the lane was within its cap, or within the hard ceiling. *)
Lemma would_park_false q :
  queue_ok q -> aq_would_park q = false -> aq_abort q = false -> aq_queued_bytes q <= cap + H.
Proof.
  intros [] Hp Ha. unfold aq_would_park in Hp. rewrite Ha, andb_true_r in Hp.
  apply Z.ltb_ge in Hp. lia.
Qed.

Definition roomy (q : AuQueue) (r : AuQueue * PushExit) : Prop :=
  r.2 = PushReturns 0 -> aq_queued_bytes q <= cap + H.

Lemma push_top_roomy q c : queue_ok q -> roomy q (push_top q c).
Proof.
  intros Hq. unfold roomy, push_top. destruct (aq_would_park q) eqn:Hp.
  - by destruct (pc_gate c), (pc_drain c).
  - unfold push_finish. destruct (aq_abort q) eqn:Ha; [done|]. eauto using would_park_false.
Qed.

Lemma push_drained_roomy q c keep other :
  queue_ok q -> call_ok c -> roomy q (push_drained q c keep other).
Proof.
  intros Hq [_ Hg]. unfold push_drained.
  destruct (pc_gate c) as [g|]; destruct (aq_would_park q) eqn:Hp; simpl;
    auto using push_top_roomy; try done.
  destruct (_ && (_ <=? _)) eqn:Ha; [|unfold roomy; destruct (_ && pg_fail_at_ceiling g); simpl; unfold PUSH_CEILING; intros; discriminate].
  apply andb_prop in Ha as [_ Ha]. apply Z.leb_le in Ha. intros _.
  destruct Hq. rewrite i32_wrap_small in Ha by ints. lia.
Qed.

Lemma push_park_roomy q c allocated : queue_ok q -> roomy q (aq_push_park q c allocated).
Proof.
  intros Hq. unfold aq_push_park. destruct (_ <? 0); [done|].
  destruct allocated; [by apply push_top_roomy|done].
Qed.

(** One critical section of the producer keeps the machine's invariant. *)
Lemma producer_step_ok s c r :
  sys_ok s -> call_ok c ->
  0 <= an_len (pc_node c) \/ r = (sy_queue s, PushReturns (-1)) ->
  exit_ok (sy_queue s) c r -> roomy (sy_queue s) r ->
  sys_ok (producer_step s c r).
Proof.
  intros [Hq Hf Hp Hc Hw] Hcall Hlen Hexit Hroom. destruct r as [q x].
  unfold exit_ok, roomy in *. cbn [fst snd] in *.
  destruct x as [code| |timed]; cbn [producer_step].
  - destruct (Z.eqb_spec code 0) as [->|Hz]; split; simpl; try done.
    + destruct Hexit as [-> _]. destruct Hcall, Hlen as [|[=]].
      apply queue_ok_append; auto.
    + destruct Hexit as [-> _]. simpl. by rewrite Hf, app_assoc.
    + by destruct Hexit as [-> _].
    + by subst.
    + by subst.
    + by subst.
  - subst. destruct Hlen as [|[=]]. split; simpl; try done. by intros ? ? [= <- <-].
  - destruct Hexit as [-> Hpark], Hlen as [|[=]]. split; simpl; try done. by intros ? ? [= <- <-].
Qed.

(** So does everything else that happens to the queue: a change that could end a wait signals it. *)
Lemma other_step_ok s q signal n :
  sys_ok s -> queue_ok q ->
  sy_pushed s = (sy_popped s ++ option_list n) ++ aq_nodes q ->
  aq_pops q = u64_wrap (Z.of_nat (length (sy_popped s ++ option_list n))) ->
  (signal = false -> aq_would_park (sy_queue s) = true -> aq_would_park q = true) ->
  sys_ok (other_step s q signal n).
Proof.
  intros [Hq Hf Hp Hc Hw] Hq' Hf' Hp' Hkeep. split; simpl; try done.
  - intros c st Hs. destruct (sy_producer s) as [[c' st']|] eqn:E; [|done].
    destruct st'; simpl in Hs; simplify_eq; eauto.
  - intros c timed Hs. destruct (sy_producer s) as [[c' st']|] eqn:E; [|done].
    destruct st' as [|t sg]; simpl in Hs; simplify_eq.
    match goal with Hx : _ || _ = false |- _ => apply orb_false_elim in Hx as [-> ->] end. eauto.
Qed.

Lemma sys_ok_new : sys_ok (sys_new cap).
Proof. split; simpl; try done. split; simpl; try done; lia. Qed.

Lemma headroom_would_park q extra :
  aq_set_headroom q extra = ((aq_set_headroom q extra).1, false) ->
  aq_would_park q = true -> aq_would_park (aq_set_headroom q extra).1 = true.
Proof.
  unfold aq_set_headroom, aq_would_park. simpl. intros [= Hlt]. apply Z.ltb_ge in Hlt.
  rewrite !andb_true_iff, !Z.ltb_lt. intuition lia.
Qed.

Lemma sys_step_ok s e s' : sys_ok s -> event_ok e -> sys_step s e = Some s' -> sys_ok s'.
Proof.
  intros Hs He Hstep. pose proof Hs as [Hq Hf Hp Hc Hw]. unfold sys_step in Hstep.
  destruct e as [c allocated|keep other| | | | |extra|].
  - destruct (sy_producer s); simplify_eq. apply producer_step_ok;
      auto using push_park_ok, push_park_roomy.
    unfold aq_push_park. destruct (Z.ltb_spec (an_len (pc_node c)) 0); auto.
  - destruct (sy_producer s) as [[c []]|] eqn:E; simplify_eq. destruct (Hc _ _ eq_refl).
    apply producer_step_ok; auto using push_drained_ok, push_drained_roomy.
  - destruct (sy_producer s) as [[c []]|] eqn:E; simplify_eq. destruct (Hc _ _ eq_refl).
    apply producer_step_ok; auto using push_top_ok, push_top_roomy.
  - assert (Hpop := pop_spec (sy_queue s)). assert (Hok := queue_ok_pop _ Hq).
    destruct (aq_pop (sy_queue s)) as [q' n]. simplify_eq. simpl in *.
    destruct (aq_nodes (sy_queue s)) as [|m rest] eqn:En.
    + simplify_eq. apply other_step_ok; simpl; rewrite ?En, ?app_nil_r in *; auto.
    + destruct Hpop as (-> & Hn & Hpops & _). apply other_step_ok; auto; simpl.
      * by rewrite Hn, Hf, <- app_assoc.
      * rewrite Hpops, Hp, length_app. simpl. unfold u64_wrap.
        rewrite Zplus_mod_idemp_l. f_equal. lia.
      * intros Hsig. done.
  - simplify_eq. apply other_step_ok; simpl; rewrite ?app_nil_r; auto. by destruct Hq.
  - simplify_eq. apply other_step_ok; simpl; rewrite ?app_nil_r; auto; [by destruct Hq|done].
  - assert (Hok := queue_ok_headroom _ _ Hq He).
    assert (Hkeep := headroom_would_park (sy_queue s) extra).
    unfold aq_set_headroom in *. simplify_eq. simpl in *.
    apply other_step_ok; simpl; rewrite ?app_nil_r; auto.
    intros Hsig. apply Hkeep. by rewrite Hsig.
  - simplify_eq.
    assert (Hr : queue_ok ((sy_queue s) <| aq_releasing := true |>)) by (destruct Hq; by split).
    unfold aq_release_headroom. apply other_step_ok; auto using queue_ok_settle.
    + simpl. by rewrite settle_nodes, app_nil_r.
    + rewrite settle_pops, app_nil_r. done.
    + rewrite settle_would_park by done. done.
Qed.

Lemma run_ok s es s' : sys_ok s -> Forall event_ok es -> run s es = Some s' -> sys_ok s'.
Proof.
  intros Hs Hes. revert s Hs. induction Hes as [|e es He Hes IH]; intros s Hs Hrun; simpl in Hrun.
  - by simplify_eq.
  - destruct (sys_step s e) as [s1|] eqn:E; [|done]. eauto using sys_step_ok.
Qed.

(** The consumer pops what is queued, then the parked producer wakes: its push is over. *)
Lemma drained_lane_admits ns c timed : forall s signalled,
  sys_ok s -> aq_nodes (sy_queue s) = ns -> sy_producer s = Some (c, Waiting timed signalled) ->
  exists s', run s (replicate (length ns) EvPop ++ [EvWake]) = Some s'
    /\ sy_producer s' = None /\ sy_popped s' = sy_pushed s
    /\ (if aq_abort (sy_queue s)
        then sy_codes s' = sy_codes s ++ [-1] /\ aq_nodes (sy_queue s') = []
        else sy_codes s' = sy_codes s ++ [0] /\ aq_nodes (sy_queue s') = [pc_node c]).
Proof.
  induction ns as [|n ns IH]; intros s signalled Hs Hn Hwait.
  - pose proof Hs as [[Hb Hl Hbase Hmax Hocc] Hf Hp Hc Hw].
    assert (Hfree : aq_would_park (sy_queue s) = false).
    { unfold aq_would_park. rewrite Hb, Hn. simpl. bools; [lia|done]. }
    simpl. unfold sys_step. rewrite Hwait. simpl. unfold push_top, push_finish. rewrite Hfree.
    eexists. split; [done|]. rewrite Hf, Hn, app_nil_r.
    destruct (aq_abort (sy_queue s)); simpl; rewrite ?Hn; auto.
  - assert (Hpop := pop_spec (sy_queue s)). rewrite Hn in Hpop. destruct Hpop as (H2 & Hr & _ & Ha).
    assert (Hstep : sys_step s EvPop = Some (other_step s (aq_pop (sy_queue s)).1 true (Some n))).
    { simpl. destruct (aq_pop (sy_queue s)). simpl in *. subst.
      by rewrite bool_decide_true by done. }
    assert (Hs1 : sys_ok (other_step s (aq_pop (sy_queue s)).1 true (Some n)))
      by (eapply sys_step_ok; eauto; done).
    destruct (IH _ (signalled || true) Hs1 Hr) as (s' & Hrun & ?); [simpl; by rewrite Hwait|].
    exists s'. cbn [replicate length app run mbind option_bind]. rewrite Hstep.
    cbn [mbind option_bind]. split; [done|]. simpl in *. by rewrite Ha in *.
Qed.

End Invariant.

(** ** How a push ends *)

Definition overruns (q : AuQueue) (code : Z) : Prop :=
  code = PUSH_CEILING \/ code = 0 /\ aq_max_bytes q < aq_queued_bytes q.

Lemma push_finish_code q c code :
  (push_finish q c).2 = PushReturns code -> code = -1 \/ code = 0 /\ aq_abort q = false.
Proof. unfold push_finish. destruct (aq_abort q); simpl; intros [= <-]; auto. Qed.

Lemma push_top_code q c code : (push_top q c).2 = PushReturns code -> ~ overruns q code.
Proof.
  unfold push_top, overruns, PUSH_CEILING. destruct (aq_would_park q) eqn:Hp.
  - by destruct (pc_gate c), (pc_drain c).
  - intros [->|[-> Ha]]%push_finish_code; [lia|].
    unfold aq_would_park in Hp. rewrite Ha, andb_true_r in Hp. apply Z.ltb_ge in Hp. lia.
Qed.

Lemma push_park_code q c allocated code :
  (aq_push_park q c allocated).2 = PushReturns code -> ~ overruns q code.
Proof.
  unfold aq_push_park. destruct (_ <? 0), allocated; simpl; try apply push_top_code;
    intros [= <-]; unfold overruns, PUSH_CEILING; lia.
Qed.

Lemma push_drained_code q c keep other code :
  (push_drained q c keep other).2 = PushReturns code -> overruns q code ->
  exists g, pc_gate c = Some g /\ aq_span_ns other < pg_starved_below_ns g /\
    (code = 0 /\ aq_queued_bytes q <= i32_wrap (aq_base_bytes q + Z.max (pg_headroom g) 0)
       /\ push_drained q c keep other = (aq_append q (pc_node c), PushReturns 0)
     \/ code = PUSH_CEILING
        /\ i32_wrap (aq_base_bytes q + Z.max (pg_headroom g) 0) < aq_queued_bytes q
        /\ pg_fail_at_ceiling g = true
        /\ push_drained q c keep other = (q, PushReturns PUSH_CEILING)).
Proof.
  unfold push_drained. destruct (pc_gate c) as [g|].
  2: { destruct (aq_would_park q); [done|]. by intros ?%push_top_code. }
  destruct (aq_would_park q) eqn:Hp; simpl; [|by intros ?%push_top_code].
  destruct (Z.ltb_spec (aq_span_ns other) (pg_starved_below_ns g)) as [Hs|Hs]; simpl; [|done].
  unfold aq_would_park in Hp. apply andb_prop in Hp as [_ Ha%negb_true_iff].
  destruct (Z.leb_spec (aq_queued_bytes q) (i32_wrap (aq_base_bytes q + Z.max (pg_headroom g) 0))).
  - unfold push_finish. rewrite Ha. intros [= <-] _. eauto 8.
  - destruct (pg_fail_at_ceiling g) eqn:Hfail; [|done]. intros [= <-] _. eauto 10.
Qed.

Lemma app_self_nil {A} (l : list A) x : l <> l ++ [x].
Proof. intros Heq%(f_equal length). rewrite length_app in Heq. simpl in Heq. lia. Qed.

(** A step that adds a code is the end of a push with that code. *)
Lemma producer_code s c r code :
  sy_codes (producer_step s c r) = sy_codes s ++ [code] -> r.2 = PushReturns code.
Proof.
  destruct r as [q [code'| |]]; simpl; [|by intros ?%app_self_nil..].
  by intros [_ <-]%app_inj_tail.
Qed.

Lemma no_code s q signal n code : sy_codes (other_step s q signal n) <> sy_codes s ++ [code].
Proof. apply app_self_nil. Qed.

(** ** Abort and headroom release *)

(** What holds from the abort on: nothing is appended, every push ends with -1, nobody sleeps
    unsignalled. *)
Definition aborted_since (s0 s : Sys) : Prop :=
  aq_abort (sy_queue s) = true
  /\ sy_pushed s = sy_pushed s0
  /\ (exists k, sy_codes s = sy_codes s0 ++ replicate k (-1))
  /\ (forall c timed signalled, sy_producer s = Some (c, Waiting timed signalled) -> signalled = true).

Lemma aborted_push s0 s c r :
  aborted_since s0 s -> r = (sy_queue s, PushReturns (-1)) -> aborted_since s0 (producer_step s c r).
Proof.
  intros (Ha & Hp & [k Hk] & Hw) ->. repeat split; simpl; try done.
  exists (S k). by rewrite Hk, <- app_assoc, <- replicate_cons_app.
Qed.

Lemma aborted_other s0 s q signal n :
  aborted_since s0 s -> aq_abort q = true -> aborted_since s0 (other_step s q signal n).
Proof.
  intros (Ha & Hp & Hk & Hw) Hq. repeat split; simpl; try done.
  intros c timed signalled Hs. destruct (sy_producer s) as [[c' []]|]; simplify_eq/=.
  by rewrite (Hw _ _ _ eq_refl).
Qed.

Lemma aborted_top q c : aq_abort q = true -> push_top q c = (q, PushReturns (-1)).
Proof.
  intros Ha. unfold push_top, push_finish, aq_would_park. by rewrite Ha, andb_false_r.
Qed.

Lemma aborted_drained q c keep other :
  aq_abort q = true -> push_drained q c keep other = (q, PushReturns (-1)).
Proof.
  intros Ha. pose proof (aborted_top q c Ha). unfold push_drained, aq_would_park.
  rewrite Ha, andb_false_r. by destruct (pc_gate c).
Qed.

Lemma aborted_park q c allocated :
  aq_abort q = true -> aq_push_park q c allocated = (q, PushReturns (-1)).
Proof.
  intros Ha. unfold aq_push_park. destruct (_ <? 0), allocated; simpl; auto using aborted_top.
Qed.

Lemma pop_abort q : aq_abort (aq_pop q).1 = aq_abort q.
Proof.
  pose proof (pop_spec q) as Hp. destruct (aq_nodes q); [by rewrite Hp|]. by destruct Hp as (_&_&_&?).
Qed.

Lemma aborted_step s0 s e s' :
  aborted_since s0 s -> sys_step s e = Some s' -> aborted_since s0 s'.
Proof.
  intros Hs Hstep. pose proof Hs as [Ha _]. unfold sys_step in Hstep.
  destruct e as [c allocated|keep other| | | | |extra|].
  - destruct (sy_producer s); simplify_eq. apply aborted_push; auto using aborted_park.
  - destruct (sy_producer s) as [[c []]|]; simplify_eq.
    apply aborted_push; auto using aborted_drained.
  - destruct (sy_producer s) as [[c []]|]; simplify_eq. apply aborted_push; auto using aborted_top.
  - pose proof (pop_abort (sy_queue s)) as Hpop. destruct (aq_pop (sy_queue s)). simplify_eq.
    apply aborted_other; [done|]. simpl in Hpop. congruence.
  - simplify_eq. by apply aborted_other.
  - simplify_eq. by apply aborted_other.
  - destruct (aq_set_headroom (sy_queue s) extra) as [q b] eqn:E. simplify_eq.
    apply aborted_other; [done|]. unfold aq_set_headroom in E. by simplify_eq/=.
  - simplify_eq. apply aborted_other; [done|]. unfold aq_release_headroom. by rewrite settle_abort.
Qed.

(** Once released, the cap is the base again or still held up by what is queued. *)
Definition releasing_ok (q : AuQueue) : Prop :=
  (aq_releasing q = false /\ aq_max_bytes q = aq_base_bytes q)
  \/ (aq_releasing q = true /\ aq_base_bytes q < aq_max_bytes q <= aq_queued_bytes q).

Lemma settle_releasing q : aq_releasing q = true -> releasing_ok (settle_released_cap q).
Proof.
  intros Hr. unfold releasing_ok, settle_released_cap. simpl.
  destruct (Z.leb_spec (Z.max (Z.min (aq_max_bytes q) (aq_queued_bytes q)) (aq_base_bytes q))
              (aq_base_bytes q)); simpl; [left|right]; split; try done; lia.
Qed.

Lemma settle_max q : aq_base_bytes q <= aq_max_bytes q ->
  aq_max_bytes (settle_released_cap q) <= aq_max_bytes q.
Proof. unfold settle_released_cap. simpl. destruct (_ <=? _); simpl; lia. Qed.

Lemma release_max q : aq_base_bytes q <= aq_max_bytes q ->
  aq_max_bytes (aq_release_headroom q) <= aq_max_bytes q.
Proof.
  unfold aq_release_headroom, settle_released_cap. simpl. destruct (_ <=? _); simpl; lia.
Qed.

(** A change of the queue that keeps the release going: the cap does not rise. *)
Definition release_le (q q' : AuQueue) : Prop :=
  releasing_ok q -> releasing_ok q' /\ aq_max_bytes q' <= aq_max_bytes q.

Lemma release_append q n :
  i32_wrap (aq_queued_bytes q + an_len n) = aq_queued_bytes q + an_len n -> 0 <= an_len n ->
  release_le q (aq_append q n).
Proof.
  unfold release_le, releasing_ok. simpl. intros -> Hn [[? ?]|[? ?]]; (split; [|lia]); [by left|].
  right. split; [done|lia].
Qed.

Lemma release_pop q : release_le q (aq_pop q).1.
Proof.
  intros Hok. unfold aq_pop. destruct (aq_nodes q) as [|n rest]; [split; [done|simpl; lia]|].
  cbv zeta. cbn [fst]. destruct (aq_releasing q) eqn:Hr.
  - simpl. rewrite Hr. split; [by apply settle_releasing|].
    destruct Hok as [[? ?]|[? ?]]; [congruence|].
    etrans; [apply settle_max|]; simpl; lia.
  - simpl. rewrite Hr. destruct Hok as [[? ?]|[? ?]]; [|congruence].
    split; [left; simpl; auto|simpl; lia].
Qed.

Lemma release_le_refl q : release_le q q.
Proof. intros ?. split; [done|lia]. Qed.

Lemma release_settle q : releasing_ok q -> aq_base_bytes q <= aq_max_bytes q ->
  releasing_ok (aq_release_headroom q) /\ aq_max_bytes (aq_release_headroom q) <= aq_max_bytes q.
Proof.
  intros _ Hb. split; [by apply settle_releasing|by apply release_max].
Qed.

Definition no_grant (e : Event) : Prop := match e with EvSetHeadroom _ => False | _ => True end.

Lemma release_producer cap H L s c r :
  cap + H + L <= i32_max -> 0 <= cap -> 0 <= L ->
  queue_ok cap H L (sy_queue s) -> call_ok H L c ->
  0 <= an_len (pc_node c) \/ r = (sy_queue s, PushReturns (-1)) ->
  exit_ok (sy_queue s) c r -> roomy cap H (sy_queue s) r ->
  release_le (sy_queue s) (sy_queue (producer_step s c r)).
Proof.
  intros Hfits Hcap HL [Hb Hl Hbase Hmax Hocc] [Hlen _] Hn Hexit Hroom.
  pose proof (total_nonneg _ _ Hl). unfold exit_ok, roomy in *.
  destruct r as [q [code| |timed]]; cbn [fst snd producer_step sy_queue] in *.
  - destruct (Z.eqb_spec code 0) as [->|]; [|subst; apply release_le_refl].
    destruct Hexit as [-> _], Hn as [Hn|[=]]. specialize (Hroom eq_refl).
    apply release_append; [|done]. apply i32_wrap_small. ints.
  - subst. apply release_le_refl.
  - destruct Hexit as [-> _]. apply release_le_refl.
Qed.

Lemma release_step cap H L s e s' :
  0 <= cap -> 0 <= H -> 0 <= L -> cap + H + L <= i32_max ->
  sys_ok cap H L s -> event_ok H L e -> no_grant e -> sys_step s e = Some s' ->
  release_le (sy_queue s) (sy_queue s').
Proof.
  intros Hcap HH HL Hfits [Hq Hf Hp Hc Hw] He Hng Hstep.
  pose proof (push_top_roomy cap H L). pose proof (push_park_roomy cap H L).
  pose proof (push_drained_roomy cap H L Hcap HH HL Hfits).
  unfold sys_step in Hstep. destruct e as [c allocated|keep other| | | | |extra|]; try done.
  - destruct (sy_producer s); simplify_eq. eapply release_producer; eauto using push_park_ok.
    unfold aq_push_park. destruct (Z.ltb_spec (an_len (pc_node c)) 0); auto.
  - destruct (sy_producer s) as [[c []]|] eqn:E; simplify_eq. destruct (Hc _ _ eq_refl).
    eapply release_producer; eauto using push_drained_ok.
  - destruct (sy_producer s) as [[c []]|] eqn:E; simplify_eq. destruct (Hc _ _ eq_refl).
    eapply release_producer; eauto using push_top_ok.
  - pose proof (release_pop (sy_queue s)) as Hr. destruct (aq_pop (sy_queue s)). by simplify_eq.
  - simplify_eq. intros Hok. split; [exact Hok|simpl; lia].
  - simplify_eq. intros Hok. split; [exact Hok|simpl; lia].
  - simplify_eq. intros Hok. apply release_settle; [done|]. destruct Hq. lia.
Qed.

Lemma release_run cap H L :
  0 <= cap -> 0 <= H -> 0 <= L -> cap + H + L <= i32_max ->
  forall es, Forall (event_ok H L) es -> Forall no_grant es ->
  forall s s', sys_ok cap H L s -> releasing_ok (sy_queue s) -> run s es = Some s' ->
  sys_ok cap H L s' /\ releasing_ok (sy_queue s')
  /\ aq_max_bytes (sy_queue s') <= aq_max_bytes (sy_queue s).
Proof.
  intros Hcap HH HL Hfits es Hes. induction Hes as [|e es He Hes IH]; intros Hng s s' Hs Hr Hrun.
  - simpl in Hrun. simplify_eq. auto with lia.
  - inversion Hng; subst. simpl in Hrun. destruct (sys_step s e) as [s1|] eqn:E; [|done].
    destruct (release_step cap H L s e s1) as [Hr1 Hle]; auto.
    destruct (IH ltac:(done) s1 s') as (? & ? & ?); eauto using sys_step_ok. split_and!; auto. lia.
Qed.

(** ** Properties *)

Section Properties.

(** A lane created with [cap], on which nobody grants more than [H] bytes of headroom and no unit
    is longer than [L], and whose byte count therefore fits a [c_long]. *)
Context (cap H L : Z) (es : list Event) (s : Sys).
Hypothesis (Hcap : 0 <= cap) (HH : 0 <= H) (HL : 0 <= L) (Hfits : cap + H + L <= i32_max).
Hypothesis (Hes : Forall (event_ok H L) es).
Hypothesis (Hrun : run (sys_new cap) es = Some s).

Let reached : sys_ok cap H L s :=
  run_ok cap H L Hcap HH HL Hfits (sys_new cap) es s (sys_ok_new cap H L Hcap HH HL) Hes Hrun.

(** Under every interleaving of producer, consumer, abort and headroom changes the lane is a
    FIFO: what was appended is what was popped, in order, followed by what is queued.  The byte
    count is the sum of the queued lengths, and never exceeds the cap plus the headroom plus the
    one unit whose push found room; the cap in force stays between the base and the base plus the
    headroom. *)
Theorem lane_is_fifo :
  sy_pushed s = sy_popped s ++ aq_nodes (sy_queue s)
  /\ aq_queued_bytes (sy_queue s) = total (aq_nodes (sy_queue s))
  /\ 0 <= aq_queued_bytes (sy_queue s) <= cap + H + L
  /\ cap <= aq_max_bytes (sy_queue s) <= cap + H.
Proof.
  destruct reached as [[Hb Hl Hbase Hmax Hocc] Hf Hp Hc Hw].
  pose proof (total_nonneg _ _ Hl). rewrite Hb in *. auto.
Qed.

(** C21. No wakeup is lost: a producer that waits on [not_full] without having been signalled is
    still over the lane's cap and not aborted, whatever happened to the queue since it went to
    sleep; and once the consumer has popped what is queued, its next wake ends the push, with the
    unit appended unless the lane was aborted. *)
Theorem no_lost_wakeup c timed signalled :
  sy_producer s = Some (c, Waiting timed signalled) ->
  (signalled = false -> aq_would_park (sy_queue s) = true)
  /\ exists s', run s (replicate (length (aq_nodes (sy_queue s))) EvPop ++ [EvWake]) = Some s'
     /\ sy_producer s' = None
     /\ sy_popped s' = sy_pushed s
     /\ (if aq_abort (sy_queue s)
         then sy_codes s' = sy_codes s ++ [-1] /\ aq_nodes (sy_queue s') = []
         else sy_codes s' = sy_codes s ++ [0] /\ aq_nodes (sy_queue s') = [pc_node c]).
Proof.
  intros Hwait. split; [intros ->; by eapply so_wait|].
  by apply (drained_lane_admits cap H L Hcap HH HL Hfits _ c timed s signalled).
Qed.

(** The soft cap yields only to a starved neighbour: a push that ends over the cap in force, by
    appending or with [PUSH_CEILING], is a gated one whose [other] lane was read holding less than
    [starved_below_ns].  It appends only within the hard ceiling (the base plus the headroom), and
    fails only over it, when its gate asks for that; the lane is then untouched. *)
Theorem only_starvation_overruns_the_cap e s' code :
  sys_step s e = Some s' -> event_ok H L e ->
  sy_codes s' = sy_codes s ++ [code] ->
  overruns (sy_queue s) code ->
  exists c g keep other,
    e = EvDrained keep other /\ sy_producer s = Some (c, Draining) /\ pc_gate c = Some g
    /\ aq_span_ns other < pg_starved_below_ns g
    /\ (if code =? 0
        then aq_queued_bytes (sy_queue s) <= cap + Z.max (pg_headroom g) 0
             /\ sy_pushed s' = sy_pushed s ++ [pc_node c]
        else cap + Z.max (pg_headroom g) 0 < aq_queued_bytes (sy_queue s)
             /\ pg_fail_at_ceiling g = true /\ sy_queue s' = sy_queue s).
Proof.
  intros Hstep He Hcodes Hcode.
  destruct reached as [[Hb Hl Hbase Hmax Hocc] Hf Hp Hc Hw].
  unfold sys_step in Hstep. destruct e as [c allocated|keep other| | | | |extra|].
  - destruct (sy_producer s); simplify_eq. by apply producer_code, push_park_code in Hcodes.
  - destruct (sy_producer s) as [[c []]|] eqn:E; simplify_eq. destruct (Hc _ _ eq_refl) as [[_ Hg] _].
    pose proof (producer_code _ _ _ _ Hcodes) as Hr.
    destruct (push_drained_code _ _ _ _ _ Hr Hcode) as (g & Hgate & Hspan & Hend).
    exists c, g, keep, other. rewrite Hgate in Hg. rewrite i32_wrap_small in Hend by ints.
    repeat (split; [done|]). destruct Hend as [(-> & Hroom & Heq)|(-> & Hroom & Hfail & Heq)];
      simpl; rewrite Heq; simpl; auto.
  - destruct (sy_producer s) as [[c []]|] eqn:E; simplify_eq.
    by apply producer_code, push_top_code in Hcodes.
  - destruct (aq_pop (sy_queue s)). simplify_eq. by apply no_code in Hcodes.
  - simplify_eq. by apply no_code in Hcodes.
  - simplify_eq. by apply no_code in Hcodes.
  - destruct (aq_set_headroom (sy_queue s) extra). simplify_eq. by apply no_code in Hcodes.
  - simplify_eq. by apply no_code in Hcodes.
Qed.

(** Abort is final and reaches a parked producer: from the step that aborts the lane on, no push
    appends anything, every push that ends returns -1, and a producer asleep on [not_full] has been
    signalled.  A publication guarded by the same mutex does not happen either. *)
Theorem abort_is_final es' s1 s' {T} (f : unit -> T) :
  sys_step s EvAbort = Some s1 -> run s1 es' = Some s' ->
  sy_pushed s' = sy_pushed s
  /\ (exists k, sy_codes s' = sy_codes s ++ replicate k (-1))
  /\ (forall c timed signalled,
        sy_producer s' = Some (c, Waiting timed signalled) -> signalled = true)
  /\ aq_if_not_aborted (sy_queue s') f = None.
Proof.
  intros Habort Hafter.
  assert (Hs1 : aborted_since s s1).
  { simpl in Habort. simplify_eq. repeat split; simpl.
    - exists 0%nat. by rewrite app_nil_r.
    - intros c t sg Hs. destruct (sy_producer s) as [[c' []]|]; simplify_eq/=. apply orb_true_r. }
  assert (Hs' : aborted_since s s').
  { clear Habort. revert s1 Hs1 Hafter. induction es' as [|e es' IH]; simpl; intros; [by simplify_eq|].
    destruct (sys_step s1 e) eqn:E; [|done]. eauto using aborted_step. }
  destruct Hs' as (Ha & ? & ? & ?). unfold aq_if_not_aborted. rewrite Ha. auto.
Qed.

(** Released headroom drains away: releasing parks nobody who was not parked and frees nobody who
    was; from then on, until somebody grants headroom again, the cap never rises, it is the base or
    no more than what is queued, and once the lane is empty it is the base and the release over. *)
Theorem released_headroom_drains es' s' :
  Forall (event_ok H L) es' -> Forall no_grant es' ->
  run s (EvReleaseHeadroom :: es') = Some s' ->
  let q0 := sy_queue s in let q1 := aq_release_headroom q0 in let q' := sy_queue s' in
  aq_would_park q1 = aq_would_park q0
  /\ aq_max_bytes q' <= aq_max_bytes q1 <= aq_max_bytes q0
  /\ (aq_max_bytes q' = cap \/ aq_max_bytes q' <= aq_queued_bytes q')
  /\ (aq_nodes q' = [] -> aq_max_bytes q' = cap /\ aq_releasing q' = false).
Proof.
  intros Hes' Hng Hafter q0 q1 q'. cbn [run mbind option_bind sys_step] in Hafter.
  pose proof reached as [Hq _ _ _ _].
  assert (Hr1 : sys_ok cap H L (other_step s q1 false None))
    by (eapply (sys_step_ok cap H L Hcap HH HL Hfits s EvReleaseHeadroom); eauto; done).
  assert (Hrel : releasing_ok q1) by by apply settle_releasing.
  assert (Hpark : aq_would_park q1 = aq_would_park q0).
  { unfold q1, aq_release_headroom. rewrite (settle_would_park cap H L); [done|].
    destruct Hq; by split. }
  assert (Hmax : aq_max_bytes q1 <= aq_max_bytes q0).
  { apply release_max. destruct Hq. unfold q0. lia. }
  assert (Hend : sys_ok cap H L s' /\ releasing_ok q' /\ aq_max_bytes q' <= aq_max_bytes q1).
  { fold q0 q1 in Hafter.
    apply (release_run cap H L Hcap HH HL Hfits es' Hes' Hng _ _ Hr1 Hrel Hafter). }
  destruct Hend as ([[Hb' Hl' Hbase' Hmax' _] _ _ _ _] & Hrel' & Hle).
  unfold q' in *. split; [done|]. split; [done|]. destruct Hrel' as [[? ?]|[? ?]].
  - split; [left; congruence|]. intros _. split; [congruence|done].
  - split; [right; lia|]. intros Hn. rewrite Hn in Hb'. simpl in Hb'. lia.
Qed.

End Properties.
