(* ===== verification/Vocabulary.v ===== *)
(** * The adaptive controller's vocabulary

    The content clock ([playback-contract/src/time.rs]), the policy record
    ([media/src/abr/mod.rs], with [AdmissionPolicy] of [media/src/abr/window.rs]) and the
    two-lane buffer snapshot ([media/src/abr/plant.rs]). *)

From S2P Require Import Prelude.

(** [MediaTimeMs] is a newtype of [i64]. *)
Definition MediaTimeMs : Type := Z.

Definition saturating_since (self earlier : MediaTimeMs) : Z :=
  Z.max (i64_sat (self - earlier)) 0.

Record AdmissionPolicy := mk_admission_policy { epsilon_pm : Z; k : Z }.

Record AbrPolicy := mk_policy {
  admission : AdmissionPolicy;
  production_floor_pm : Z;
  emergency_buffer_ms : Z;
  buffer_target_ms : Z;
  buffer_reserve_fraction_pm : Z;
  buffer_refill_horizon_ms : Z;
  assumed_audio_kbps : Z;
  stale_half_life_ms : Z;
  starvation_fallback_secs : Z;
  starvation_safe_secs : Z;
  visible_switch_cost : Z;
  visible_switch_penalty : Z;
  visible_switch_decay_ms : Z;
  original_quality_bonus : Z;
  dv_bonus : Z;
  generation_loss_bonus : Z;
  atmos_bonus : Z;
  benefit_horizon_ms : Z;
  risk_weight : Z;
  server_cost_weight : Z;
  sustained_unsafe_deficit_ms : Z;
  probe_budget_ms : Z
}.

Definition PROBE_BUDGET_MS : Z := 4000.

Definition policy_measured : AbrPolicy := {|
  admission := {| epsilon_pm := 50; k := 1 |};
  production_floor_pm := 250;
  emergency_buffer_ms := 2000;
  buffer_target_ms := 2500;
  buffer_reserve_fraction_pm := 500;
  buffer_refill_horizon_ms := 10000;
  assumed_audio_kbps := 192;
  stale_half_life_ms := 30000;
  starvation_fallback_secs := 20;
  starvation_safe_secs := 60;
  visible_switch_cost := 15;
  visible_switch_penalty := 15;
  visible_switch_decay_ms := 120000;
  original_quality_bonus := 40;
  dv_bonus := 13;
  generation_loss_bonus := 8;
  atmos_bonus := 4;
  benefit_horizon_ms := 120000;
  risk_weight := 2;
  server_cost_weight := 4;
  sustained_unsafe_deficit_ms := 4500;
  probe_budget_ms := PROBE_BUDGET_MS
|}.

(** ** The two-lane buffer snapshot *)

Record BufferSnapshot := mk_snapshot {
  playback : MediaTimeMs;
  video_tail : MediaTimeMs;
  audio_tail : option MediaTimeMs;
  audio_expected : bool
}.

(** The playable reserve: the shallower lane; unknown while expected audio has no timestamp. *)
Definition buffered_ms (s : BufferSnapshot) : option Z :=
  match audio_expected s, audio_tail s with
  | true, None => None
  | _, Some audio => Some (saturating_since (Z.min audio (video_tail s)) (playback s))
  | false, None => Some (saturating_since (video_tail s) (playback s))
  end.

Definition video_buffered_ms (s : BufferSnapshot) : Z :=
  saturating_since (video_tail s) (playback s).

Definition audio_buffered_ms (s : BufferSnapshot) : option Z :=
  (fun a => saturating_since a (playback s)) <$> audio_tail s.

Lemma saturating_since_nonneg a b : 0 <= saturating_since a b <= i64_max.
Proof. unfold saturating_since. ints. Qed.

Lemma buffered_ms_range s b : buffered_ms s = Some b -> 0 <= b <= i64_max.
Proof.
  unfold buffered_ms. repeat case_match; intros; simplify_eq; apply saturating_since_nonneg.
Qed.

#[export] Hint Resolve saturating_since_nonneg buffered_ms_range : plx.

(** The reserve is the minimum of the lanes that carry media. *)
Lemma buffered_ms_min s b :
  buffered_ms s = Some b ->
  b <= video_buffered_ms s /\ forall a, audio_buffered_ms s = Some a -> b <= a.
Proof.
  unfold buffered_ms, video_buffered_ms, audio_buffered_ms, saturating_since.
  destruct (audio_expected s), (audio_tail s) as [a|]; intros; simplify_eq/=;
    (split; [ints|]); intros; simplify_eq/=; try ints.
Qed.
