(* ===== verification/Estimate.v ===== *)
(** * Delivery estimates

    [media/src/abr/estimate.rs]: the two-speed capacity estimate with its uncertainty discount,
    the observation it is fed, and the validated timing of one segment acquisition. *)

From S2P Require Import Prelude Vocabulary.

(** ** Data *)

Record CapacityEstimate := mk_capacity {
  ce_fast_kbps : Z;
  ce_slow_kbps : Z;
  ce_uncertainty_pm : Z;
  ce_samples : Z
}.
#[export] Instance eta_CapacityEstimate : Eta CapacityEstimate :=
  fun r => mk_capacity (ce_fast_kbps r) (ce_slow_kbps r) (ce_uncertainty_pm r) (ce_samples r).
#[export] Instance CapacityEstimate_eq_dec : EqDecision CapacityEstimate.
Proof. solve_decision. Defined.

Definition capacity_default : CapacityEstimate := mk_capacity 0 0 0 0.

Inductive ObservationQuality := Weak | Normal | Strong.
#[export] Instance ObservationQuality_eq_dec : EqDecision ObservationQuality.
Proof. solve_decision. Defined.

Record CapacityObservation := mk_observation {
  co_kbps : Z;
  co_bytes : Z;
  co_active_us : Z;
  co_completed : bool
}.
#[export] Instance eta_CapacityObservation : Eta CapacityObservation :=
  fun r => mk_observation (co_kbps r) (co_bytes r) (co_active_us r) (co_completed r).

Definition REGIME_FACTOR : Z := 4.
Definition MAX_UNCERTAINTY_PM : Z := 500.
Definition WEAK_SAMPLE_HEADROOM : Z := 8.
Definition STRONG_OBSERVATION_BYTES : Z := 1048576.
Definition MEASURABLE_OBSERVATION_US : Z := 250000.
Definition NORMAL_OBSERVATION_BYTES : Z := 256 * 1024.

(** ** Arithmetic *)

Definition weighted_mean (old new weight denominator : Z) : Z :=
  if old =? 0 then new else
  let new_weight := Z.min weight (Z.min denominator u32_max) in
  Z.min
    (u64_wrap
       (u64_wrap (old * u64_wrap (denominator - new_weight)) + u64_wrap (new * new_weight))
     / denominator)
    u32_max.

Definition kbps_from (bytes us : Z) : Z := u64_sat (bytes * 8000) / Z.max us 1.

(** ** Observations *)

Definition quality (o : CapacityObservation) : ObservationQuality :=
  if negb (co_completed o) || (co_active_us o <? MEASURABLE_OBSERVATION_US) then Weak
  else if STRONG_OBSERVATION_BYTES <=? co_bytes o then Strong
  else if NORMAL_OBSERVATION_BYTES <=? co_bytes o then Normal
  else Weak.

Definition weight (o : CapacityObservation) : Z :=
  match quality o with Weak => 1 | Normal => 2 | Strong => 3 end.

Definition is_collapse (o : CapacityObservation) (prior : CapacityEstimate) : bool :=
  co_completed o && (0 <? ce_fast_kbps prior)
  && (u32_sat (co_kbps o * 4) <? ce_fast_kbps prior).

Definition clamped_to_evidence (o : CapacityObservation) (wire_kbps : Z)
  : CapacityObservation :=
  if negb (bool_decide (quality o = Weak)) || (wire_kbps =? 0) then o
  else
    let ceiling := u32_sat (wire_kbps * WEAK_SAMPLE_HEADROOM) in
    o <| co_kbps := Z.min (co_kbps o) ceiling |>.

Definition is_regime_change (o : CapacityObservation) (prior : CapacityEstimate) : bool :=
  if negb (co_completed o) || (ce_slow_kbps prior =? 0) || (co_kbps o =? 0) then false
  else
    (u32_sat (co_kbps o * REGIME_FACTOR) <? ce_slow_kbps prior)
    || (u32_sat (ce_slow_kbps prior * REGIME_FACTOR) <? co_kbps o).

(** ** The estimate *)

Definition from_prior (kbps : Z) : CapacityEstimate :=
  mk_capacity kbps kbps MAX_UNCERTAINTY_PM 1.

(** The uncertainty after one more sample, against the already updated slow mean. *)
Definition sample_uncertainty (samples slow kbps : Z) : Z :=
  let spread := Z.abs (kbps - slow) in
  let relative := if slow =? 0 then 1000 else Z.min (spread * 1000 / slow) 1000 in
  let sample_uncertainty := if samples =? 1 then 300 else 200 in
  let uncertainty := Z.max relative sample_uncertainty in
  if kbps <? slow then
    let downside := slow - kbps in
    Z.max uncertainty (Z.min (u32_sat (downside * 2000) / Z.max slow 1) 800)
  else uncertainty.

Definition capacity_update (e : CapacityEstimate) (o : CapacityObservation)
  : CapacityEstimate :=
  if negb (co_completed o) then e else
  if (0 <? ce_samples e) && is_regime_change o e then
    (from_prior (co_kbps o)) <| ce_samples := 1 |>
  else
    let slow := weighted_mean (ce_slow_kbps e) (co_kbps o) (weight o) 8 in
    let fast := weighted_mean (ce_fast_kbps e) (co_kbps o) (Z.min (weight o) 2) 4 in
    let samples := u32_sat (ce_samples e + 1) in
    if ce_samples e =? 0 then
      mk_capacity (co_kbps o) (co_kbps o) MAX_UNCERTAINTY_PM samples
    else
      mk_capacity fast slow (sample_uncertainty (ce_samples e) slow (co_kbps o)) samples.

Definition conservative_kbps (e : CapacityEstimate) : Z :=
  let uncertainty := Z.min (ce_uncertainty_pm e) 500 in
  let discount := u64_sat (1000 - uncertainty) in
  Z.min (ce_slow_kbps e * discount / 1000) u32_max.

Definition collapse (e : CapacityEstimate) (measured_kbps : Z) : CapacityEstimate :=
  let e :=
    if (0 <? ce_fast_kbps e) && (u32_sat (measured_kbps * 4) <? ce_fast_kbps e)
    then e <| ce_slow_kbps := Z.max measured_kbps (ce_slow_kbps e / 4) |>
           <| ce_uncertainty_pm := 400 |>
    else e in
  e <| ce_fast_kbps := measured_kbps |>.

Definition demote_to_prior (e : CapacityEstimate) : CapacityEstimate :=
  if ce_samples e =? 0 then e
  else mk_capacity (ce_slow_kbps e) (ce_slow_kbps e)
                   (Z.max (ce_uncertainty_pm e) MAX_UNCERTAINTY_PM) 1.

Definition age_ms (e : CapacityEstimate) (elapsed_ms : Z) (policy : AbrPolicy)
  : CapacityEstimate :=
  let half_life := Z.max (stale_half_life_ms policy) 1 in
  if (ce_samples e =? 0) || (elapsed_ms <? half_life) then e
  else if u64_sat (half_life * 4) <=? elapsed_ms then demote_to_prior e
  else
    let halvings := Z.min (Z.min (elapsed_ms / half_life) u32_max) 16 in
    let widened := MAX_UNCERTAINTY_PM - Z.shiftr MAX_UNCERTAINTY_PM halvings in
    e <| ce_uncertainty_pm := Z.max (ce_uncertainty_pm e) widened |>.

(** ** One segment acquisition *)

Record SegmentSample := mk_sample {
  ss_bytes : Z;
  ss_active_fetch_us : Z;
  ss_total_fetch_us : Z;
  ss_media_duration_ms : Z;
  ss_media_obligation_ms : Z;
  ss_buffer : BufferSnapshot;
  ss_completed : bool
}.
#[export] Instance eta_SegmentSample : Eta SegmentSample :=
  fun r => mk_sample (ss_bytes r) (ss_active_fetch_us r) (ss_total_fetch_us r)
             (ss_media_duration_ms r) (ss_media_obligation_ms r) (ss_buffer r) (ss_completed r).

Definition new_with_obligation (bytes active_fetch_us total_fetch_us media_duration_ms
    media_obligation_ms : Z) (buffer : BufferSnapshot) : option SegmentSample :=
  if (0 <? bytes) && (0 <? active_fetch_us) && (active_fetch_us <=? total_fetch_us)
     && (0 <? media_duration_ms) && (media_duration_ms <=? media_obligation_ms)
  then Some (mk_sample bytes active_fetch_us total_fetch_us media_duration_ms
               media_obligation_ms buffer true)
  else None.

Definition abandoned_acquisition (bytes active_fetch_us total_fetch_us media_duration_ms
    media_obligation_ms : Z) (buffer : BufferSnapshot) : option SegmentSample :=
  if (active_fetch_us <=? total_fetch_us) && (0 <? media_duration_ms)
     && (media_duration_ms <=? media_obligation_ms)
  then Some (mk_sample bytes active_fetch_us total_fetch_us media_duration_ms
               media_obligation_ms buffer false)
  else None.

Definition with_buffer (s : SegmentSample) (buffer : BufferSnapshot) : SegmentSample :=
  s <| ss_buffer := buffer |>.

Definition network_kbps (s : SegmentSample) : Z :=
  Z.min (kbps_from (ss_bytes s) (ss_active_fetch_us s)) u32_max.

Definition media_kbps (s : SegmentSample) : Z :=
  Z.min (u64_sat (ss_bytes s * 8) / ss_media_duration_ms s) u32_max.

Definition production_ratio_pm (s : SegmentSample) : Z :=
  Z.min (u64_sat (ss_total_fetch_us s * 1000) / u64_sat (ss_media_duration_ms s * 1000)) u32_max.

(** ** Well-formedness: every field in its width, the discount bounded *)

Record capacity_wf (e : CapacityEstimate) : Prop := {
  cwf_fast : is_u32 (ce_fast_kbps e);
  cwf_slow : is_u32 (ce_slow_kbps e);
  cwf_unc : 0 <= ce_uncertainty_pm e <= 1000;
  cwf_samples : is_u32 (ce_samples e)
}.

Record observation_wf (o : CapacityObservation) : Prop := {
  owf_kbps : is_u32 (co_kbps o);
  owf_bytes : is_u64 (co_bytes o);
  owf_active : is_u64 (co_active_us o)
}.

Record sample_wf (s : SegmentSample) : Prop := {
  swf_bytes : is_u64 (ss_bytes s);
  swf_active : 0 <= ss_active_fetch_us s <= ss_total_fetch_us s;
  swf_total : is_u64 (ss_total_fetch_us s);
  swf_duration : 0 < ss_media_duration_ms s <= u32_max;
  swf_obligation : ss_media_duration_ms s <= ss_media_obligation_ms s <= u32_max;
  swf_completed : ss_completed s = true -> 0 < ss_bytes s /\ 0 < ss_active_fetch_us s
}.

Lemma capacity_default_wf : capacity_wf capacity_default.
Proof. split; cbn; ints. Qed.

Lemma from_prior_wf kbps : is_u32 kbps -> capacity_wf (from_prior kbps).
Proof. split; cbn; unfold MAX_UNCERTAINTY_PM; ints. Qed.

#[export] Hint Resolve capacity_default_wf from_prior_wf : plx.

Lemma weight_range o : 1 <= weight o <= 3.
Proof. unfold weight. destruct (quality o); lia. Qed.

(** With the denominators the estimator uses no step of the blend wraps. *)
Lemma weighted_mean_exact old new w d :
  is_u32 old -> is_u32 new -> 0 <= w <= d -> 0 < d <= 8 -> old <> 0 ->
  weighted_mean old new w d = (old * (d - w) + new * w) / d.
Proof.
  intros Ho Hn Hw Hd H0. unfold weighted_mean. destruct (Z.eqb_spec old 0); [done|].
  rewrite (Z.min_l d u32_max), (Z.min_l w d) by ints.
  rewrite (u64_wrap_small (d - w)) by ints.
  pose proof (mul_bound old (d - w) u32_max 8 Ho ltac:(lia)).
  pose proof (mul_bound new w u32_max 8 Hn ltac:(lia)).
  unwrap. apply Z.min_l. apply Z.div_le_upper_bound; [lia|].
  transitivity (u32_max * (d - w) + u32_max * w); [|lia].
  apply Z.add_le_mono; apply Z.mul_le_mono_nonneg_r; destruct Ho, Hn; lia.
Qed.

(** A blend lies between what it blends. *)
Lemma weighted_mean_between old new w d :
  is_u32 old -> is_u32 new -> 0 <= w <= d -> 0 < d <= 8 -> old <> 0 ->
  Z.min old new <= weighted_mean old new w d <= Z.max old new.
Proof.
  intros. rewrite weighted_mean_exact by done.
  assert (Z.min old new * d <= old * (d - w) + new * w <= Z.max old new * d) by nia.
  split; [apply Z.div_le_lower_bound; nia|apply Z.div_le_upper_bound; nia].
Qed.

Lemma weighted_mean_u32 old new w d :
  is_u32 old -> is_u32 new -> 0 <= w <= d -> 0 < d <= 8 ->
  is_u32 (weighted_mean old new w d).
Proof.
  intros. destruct (decide (old = 0)) as [->|].
  - done.
  - pose proof (weighted_mean_between old new w d). ints.
Qed.

Lemma sample_uncertainty_range samples slow kbps :
  is_u32 slow -> is_u32 kbps -> 200 <= sample_uncertainty samples slow kbps <= 1000.
Proof.
  intros Hs Hk. unfold sample_uncertainty.
  set (relative := if slow =? 0 then 1000 else _).
  assert (0 <= relative <= 1000).
  { subst relative. destruct (Z.eqb_spec slow 0); [lia|].
    pose proof (Z.div_pos (Z.abs (kbps - slow) * 1000) slow). ints. }
  clearbody relative.
  assert (0 <= u32_sat ((slow - kbps) * 2000) / Z.max slow 1)
    by (apply Z.div_pos; ints).
  bools; destruct (samples =? 1); lia.
Qed.

(** The test for a new regime saturates, and saturation never changes its answer: it is the
    factor-of-four test in exact integers. *)
Lemma is_regime_change_exact o e :
  is_u32 (co_kbps o) -> capacity_wf e ->
  is_regime_change o e = true
  <-> co_completed o = true /\ 0 < ce_slow_kbps e /\ 0 < co_kbps o
      /\ (4 * co_kbps o < ce_slow_kbps e \/ 4 * ce_slow_kbps e < co_kbps o).
Proof.
  intros Ho [_ Hs _ _]. unfold is_regime_change, REGIME_FACTOR.
  destruct (co_completed o); cbn; [|split; [done|by intros (? & ?)]].
  bools; split; intros; try done; try ints; split_and?; ints.
Qed.

Lemma is_collapse_exact o e :
  is_u32 (co_kbps o) -> capacity_wf e ->
  is_collapse o e = true <-> co_completed o = true /\ 4 * co_kbps o < ce_fast_kbps e.
Proof.
  intros Ho [Hf _ _ _]. unfold is_collapse.
  destruct (co_completed o); cbn; [|split; [done|by intros (? & ?)]].
  bools; split; intros; try done; try ints; split_and?; ints.
Qed.

Lemma capacity_update_wf e o :
  capacity_wf e -> observation_wf o -> capacity_wf (capacity_update e o).
Proof.
  intros He [Ho _ _]. pose proof (weight_range o). unfold capacity_update.
  destruct (co_completed o); [|done]. cbn [negb].
  destruct ((0 <? ce_samples e) && is_regime_change o e).
  { split; cbn; try done; unfold MAX_UNCERTAINTY_PM; ints. }
  destruct He as [Hf Hs Hu Hn].
  pose proof (weighted_mean_u32 (ce_slow_kbps e) (co_kbps o) (weight o) 8 Hs Ho ltac:(lia) ltac:(lia)).
  pose proof (weighted_mean_u32 (ce_fast_kbps e) (co_kbps o) (Z.min (weight o) 2) 4 Hf Ho
                ltac:(lia) ltac:(lia)).
  destruct (ce_samples e =? 0); split; cbn; try done; try apply u32_sat_range;
    unfold MAX_UNCERTAINTY_PM; try lia.
  pose proof (sample_uncertainty_range (ce_samples e)
                (weighted_mean (ce_slow_kbps e) (co_kbps o) (weight o) 8) (co_kbps o)). ints.
Qed.

Lemma collapse_wf e m : capacity_wf e -> is_u32 m -> capacity_wf (collapse e m).
Proof.
  intros [Hf Hs Hu Hn] Hm. unfold collapse.
  assert (is_u32 (Z.max m (ce_slow_kbps e / 4))).
  { pose proof (Z.div_pos (ce_slow_kbps e) 4). pose proof (Z.div_le_upper_bound (ce_slow_kbps e) 4 u32_max).
    ints. }
  destruct (_ && _); split; cbn; try done; lia.
Qed.

Lemma demote_to_prior_wf e : capacity_wf e -> capacity_wf (demote_to_prior e).
Proof.
  intros [Hf Hs Hu Hn]. unfold demote_to_prior, MAX_UNCERTAINTY_PM.
  destruct (ce_samples e =? 0); split; cbn; try done; ints.
Qed.

Lemma halvings_bound h : 0 <= h -> 0 <= MAX_UNCERTAINTY_PM - Z.shiftr MAX_UNCERTAINTY_PM h <= 500.
Proof.
  intros Hh. unfold MAX_UNCERTAINTY_PM. rewrite Z.shiftr_div_pow2 by done.
  pose proof (Z.pow_pos_nonneg 2 h).
  pose proof (Z.div_pos 500 (2 ^ h)). pose proof (Z.div_le_upper_bound 500 (2 ^ h) 500). nia.
Qed.

Lemma age_ms_wf e t p : capacity_wf e -> 0 <= t -> capacity_wf (age_ms e t p).
Proof.
  intros He Ht. unfold age_ms. destruct (_ || _); [done|].
  destruct (_ <=? _); [by apply demote_to_prior_wf|].
  set (h := Z.min _ 16). assert (0 <= h).
  { subst h. pose proof (Z.div_pos t (Z.max (stale_half_life_ms p) 1)). ints. }
  pose proof (halvings_bound h). clearbody h.
  destruct He; split; cbn; try done; lia.
Qed.

#[export] Hint Resolve capacity_update_wf collapse_wf demote_to_prior_wf age_ms_wf : plx.

(** What the constructors of a sample promise. *)
Lemma new_with_obligation_wf b a t d ob buf s :
  is_u64 b -> is_u64 a -> is_u64 t -> is_u32 d -> is_u32 ob ->
  new_with_obligation b a t d ob buf = Some s -> sample_wf s /\ ss_completed s = true.
Proof.
  intros. unfold new_with_obligation in *. case_match eqn:E; simplify_eq.
  rewrite !andb_true_iff, !Z.ltb_lt, !Z.leb_le in E. split; [|done].
  split; cbn; intros; ints.
Qed.

Lemma abandoned_acquisition_wf b a t d ob buf s :
  is_u64 b -> is_u64 a -> is_u64 t -> is_u32 d -> is_u32 ob ->
  abandoned_acquisition b a t d ob buf = Some s -> sample_wf s /\ ss_completed s = false.
Proof.
  intros. unfold abandoned_acquisition in *. case_match eqn:E; simplify_eq.
  rewrite !andb_true_iff, !Z.ltb_lt, !Z.leb_le in E. split; [|done].
  split; cbn; intros; try done; ints.
Qed.

Lemma kbps_from_range b us : is_u64 b -> 0 <= us -> 0 <= kbps_from b us.
Proof. intros. unfold kbps_from. apply Z.div_pos; ints. Qed.

Lemma network_kbps_range s : sample_wf s -> is_u32 (network_kbps s).
Proof.
  intros [? ? ? ? ? ?]. unfold network_kbps.
  pose proof (kbps_from_range (ss_bytes s) (ss_active_fetch_us s)). ints.
Qed.

Lemma production_ratio_range s : sample_wf s -> is_u32 (production_ratio_pm s).
Proof.
  intros [? ? ? ? ? ?]. unfold production_ratio_pm.
  pose proof (Z.div_pos (u64_sat (ss_total_fetch_us s * 1000)) (u64_sat (ss_media_duration_ms s * 1000))).
  ints.
Qed.

(** ** Properties *)

(** The estimate is an invariant of every operation: whatever completed or abandoned
    observation, collapse, demotion or ageing is applied, each field stays in its width and the
    discount stays a proportion. *)
Inductive CapacityOp :=
| Op_update (o : CapacityObservation)
| Op_collapse (measured_kbps : Z)
| Op_demote
| Op_age (elapsed_ms : Z).

Definition capacity_op (policy : AbrPolicy) (e : CapacityEstimate) (op : CapacityOp)
  : CapacityEstimate :=
  match op with
  | Op_update o => capacity_update e o
  | Op_collapse m => collapse e m
  | Op_demote => demote_to_prior e
  | Op_age t => age_ms e t policy
  end.

Definition capacity_op_wf (op : CapacityOp) : Prop :=
  match op with
  | Op_update o => observation_wf o
  | Op_collapse m => is_u32 m
  | Op_demote => True
  | Op_age t => is_u64 t
  end.

Lemma conservative_kbps_exact e :
  capacity_wf e ->
  conservative_kbps e = ce_slow_kbps e * (1000 - Z.min (ce_uncertainty_pm e) 500) / 1000.
Proof.
  intros [_ Hs Hu _]. unfold conservative_kbps.
  assert (u64_sat (1000 - Z.min (ce_uncertainty_pm e) 500) = 1000 - Z.min (ce_uncertainty_pm e) 500)
    as -> by ints.
  apply Z.min_l, Z.div_le_upper_bound; [lia|]. unfold_ints. nia.
Qed.

(** The budget every decision is made on never exceeds the sustained rate and never falls under
    half of it: the discount is capped. *)
Theorem conservative_budget_bounds e policy ops :
  capacity_wf e -> Forall capacity_op_wf ops ->
  let e' := fold_left (capacity_op policy) ops e in
  capacity_wf e'
  /\ ce_slow_kbps e' / 2 <= conservative_kbps e' <= ce_slow_kbps e'.
Proof.
  intros He Hops e'.
  assert (capacity_wf e') as Hwf.
  { subst e'. revert e He. induction Hops as [|op ops Hop _ IH]; intros e He; cbn; [done|].
    apply IH. destruct op; cbn in *; eauto with plx. apply age_ms_wf; [done|ints]. }
  split; [done|]. clearbody e'. rewrite conservative_kbps_exact by done.
  destruct Hwf as [_ Hs Hu _]. split.
  - apply Z.div_le_lower_bound; [lia|]. pose proof (Z.mul_div_le (ce_slow_kbps e') 2).
    transitivity (ce_slow_kbps e' * 500); [lia|].
    apply Z.mul_le_mono_nonneg_l; [by destruct Hs|lia].
  - apply Z.div_le_upper_bound; [lia|]. rewrite (Z.mul_comm 1000).
    apply Z.mul_le_mono_nonneg_l; [by destruct Hs|lia].
Qed.

(** An abandoned transfer is not a capacity observation in either direction; a completed one a
    factor of four away from the history restarts the estimate at its own value, in exact
    arithmetic; any other moves the sustained mean to a value between the old one and itself. *)
Theorem capacity_update_cases e o :
  capacity_wf e -> observation_wf o -> 0 < ce_samples e -> 0 < ce_slow_kbps e ->
  (co_completed o = false -> capacity_update e o = e)
  /\ (co_completed o = true -> 0 < co_kbps o ->
      4 * co_kbps o < ce_slow_kbps e \/ 4 * ce_slow_kbps e < co_kbps o ->
      capacity_update e o = from_prior (co_kbps o))
  /\ (co_completed o = true ->
      ce_slow_kbps e <= 4 * co_kbps o -> co_kbps o <= 4 * ce_slow_kbps e ->
      Z.min (ce_slow_kbps e) (co_kbps o) <= ce_slow_kbps (capacity_update e o)
        <= Z.max (ce_slow_kbps e) (co_kbps o)
      /\ ce_samples (capacity_update e o) = Z.min u32_max (ce_samples e + 1)).
Proof.
  intros He [Ho _ _] Hn Hs. pose proof (is_regime_change_exact o e Ho He) as Hr.
  pose proof (weight_range o). unfold capacity_update.
  destruct (Z.ltb_spec 0 (ce_samples e)); [|lia]. destruct (Z.eqb_spec (ce_samples e) 0); [lia|].
  split; [by intros ->|]. split; intros Hc; rewrite Hc; cbn [negb andb].
  - intros Hk Hfar. by rewrite (proj2 Hr).
  - intros H1 H2. destruct (is_regime_change o e).
    { destruct (proj1 Hr eq_refl) as (_ & _ & _ & ?). lia. }
    destruct He as [Hf Hsl Hu Hsm]. cbn. split; [|ints].
    apply weighted_mean_between; try done; lia.
Qed.

(** Ageing widens the discount and changes nothing else, in the steps the half-life names:
    nothing before one half-life, 250, 375 and 438 per mille at one, two and three, and from the
    fourth on a single-sample prior. *)
Theorem age_ms_steps e t policy :
  capacity_wf e -> 0 < ce_samples e -> is_u32 (stale_half_life_ms policy) ->
  0 < stale_half_life_ms policy -> is_u64 t ->
  let h := stale_half_life_ms policy in
  let widen u := e <| ce_uncertainty_pm := Z.max (ce_uncertainty_pm e) u |> in
  (t < h -> age_ms e t policy = e)
  /\ (h <= t < 2 * h -> age_ms e t policy = widen 250)
  /\ (2 * h <= t < 3 * h -> age_ms e t policy = widen 375)
  /\ (3 * h <= t < 4 * h -> age_ms e t policy = widen 438)
  /\ (4 * h <= t ->
      age_ms e t policy
      = mk_capacity (ce_slow_kbps e) (ce_slow_kbps e) (Z.max (ce_uncertainty_pm e) 500) 1).
Proof.
  intros He Hn Hh Hpos Ht h widen. unfold age_ms. fold h.
  rewrite (Z.max_l h 1) by (subst h; lia).
  destruct (Z.eqb_spec (ce_samples e) 0); [lia|]. cbn [orb].
  assert (u64_sat (h * 4) = 4 * h) as -> by (subst h; ints).
  assert (forall q, q * h <= t < (q + 1) * h -> t / h = q) as Hq.
  { intros q Hq. symmetry. apply Z.div_unique with (t - q * h); subst h; lia. }
  repeat split; intros Hr; destruct (Z.ltb_spec t h); try lia; try done;
    destruct (Z.leb_spec (4 * h) t); try lia.
  - rewrite (Hq 1) by lia. done.
  - rewrite (Hq 2) by lia. done.
  - rewrite (Hq 3) by lia. done.
  - unfold demote_to_prior. by destruct (Z.eqb_spec (ce_samples e) 0).
Qed.

(** A transfer too brief or too small to measure claims at most eight times the rate it was
    measured on, however fast it read; one that is measured is not touched. *)
Theorem clamped_to_evidence_bounds o wire :
  observation_wf o -> is_u32 wire ->
  let o' := clamped_to_evidence o wire in
  co_kbps o' <= co_kbps o
  /\ (0 < wire -> (co_active_us o < 250000 \/ co_bytes o < 262144) -> co_kbps o' <= 8 * wire)
  /\ (co_completed o = true -> 250000 <= co_active_us o -> 262144 <= co_bytes o -> o' = o).
Proof.
  intros [Ho _ _] Hw o'. subst o'. unfold clamped_to_evidence, quality, WEAK_SAMPLE_HEADROOM,
    MEASURABLE_OBSERVATION_US, STRONG_OBSERVATION_BYTES, NORMAL_OBSERVATION_BYTES.
  destruct (co_completed o) eqn:Ec; cbn [negb orb]; bools; rewrite ?bool_decide_true by done;
    rewrite ?bool_decide_false by done; cbn [negb orb]; bools; cbn; repeat split; intros;
    try done; try ints.
Qed.
