(* ===== verification/Window.v ===== *)
(** * Acquisition windows

    [media/src/abr/window.rs]: the finite bag of completed acquisitions of one operating-point
    episode, folded into a constant-size summary, and the bounded diagnostics ring beside it.

    The specification the summary is proved against is the replay of the acquisitions against a
    reserve: while an acquisition runs the reserve drains, and its media is credited only after
    it completed. *)

From S2P Require Import Prelude Vocabulary.

(** ** Data *)

Definition WINDOW_CAPACITY : nat := 64.

Record Acquisition := mk_acquisition {
  aq_bytes : Z;
  aq_acquisition_us : Z;
  aq_media_duration_ms : Z;
  aq_overhead_us : Z
}.
Definition acquisition_default : Acquisition := mk_acquisition 0 0 0 0.
#[export] Instance acquisition_inhabited : Inhabited Acquisition := populate acquisition_default.

Record AdmissionSummary := mk_summary {
  as_n : Z;
  as_sum_acquisition_us : Z;
  as_sum_duration_us : Z;
  as_delta_us : Z;
  as_max_prefix_runway_us : Z;
  as_positive_slack_sum_us : Z;
  as_max_capped_delivery_us : Z;
  as_sample_overhead_max_us : Z;
  as_overflowed : bool
}.
Definition summary_default : AdmissionSummary := mk_summary 0 0 0 0 0 0 0 0 false.

Record Admission := mk_admission {
  ad_sustainable : bool;
  ad_survivable : bool;
  ad_demand_us : Z;
  ad_supply_us : Z;
  ad_excess_us : Z;
  ad_runway_us : Z;
  ad_samples : Z
}.

Definition admitted (a : Admission) : bool := ad_sustainable a && ad_survivable a.

Record AdmissionReadout := mk_readout {
  ar_have : Z;
  ar_want : Z;
  ar_effective_epsilon_pm : Z;
  ar_clamped : bool;
  ar_bound_us : option Z;
  ar_admission : option Admission;
  ar_resets : Z
}.
Definition readout_default : AdmissionReadout := mk_readout 0 0 0 false None None 0.

Definition readout_admitted (r : AdmissionReadout) : option bool := admitted <$> ar_admission r.

(** ** The summary *)

Definition stress_runway_us (s : AdmissionSummary) : option Z :=
  i64_checked (as_positive_slack_sum_us s + as_max_capped_delivery_us s).

Definition poisoned (n sample_overhead_max_us : Z) : AdmissionSummary :=
  {| as_n := n;
     as_sum_acquisition_us := i64_max;
     as_sum_duration_us := i64_max;
     as_delta_us := 0;
     as_max_prefix_runway_us := i64_max;
     as_positive_slack_sum_us := i64_max;
     as_max_capped_delivery_us := i64_max;
     as_sample_overhead_max_us := sample_overhead_max_us;
     as_overflowed := true |}.

(** The two [let ... else] chains: [None] is the branch to [poisoned]. *)
Definition summary_of_sample (sample : Acquisition) : option AdmissionSummary :=
  acquisition_us ← i64_checked (aq_acquisition_us sample);
  duration_us ← i64_checked (aq_media_duration_ms sample * 1000);
  delta_us ← i64_checked (acquisition_us - duration_us);
  let summary :=
    {| as_n := 1;
       as_sum_acquisition_us := acquisition_us;
       as_sum_duration_us := duration_us;
       as_delta_us := delta_us;
       as_max_prefix_runway_us := acquisition_us;
       as_positive_slack_sum_us := Z.max delta_us 0;
       as_max_capped_delivery_us := Z.min acquisition_us duration_us;
       as_sample_overhead_max_us := aq_overhead_us sample;
       as_overflowed := false |} in
  _ ← stress_runway_us summary;
  Some summary.

Definition from_sample (sample : Acquisition) : AdmissionSummary :=
  default (poisoned 1 (aq_overhead_us sample)) (summary_of_sample sample).

Definition combine_exact (n overhead : Z) (self rhs : AdmissionSummary)
  : option AdmissionSummary :=
  sum_acquisition_us ← i64_checked (as_sum_acquisition_us self + as_sum_acquisition_us rhs);
  sum_duration_us ← i64_checked (as_sum_duration_us self + as_sum_duration_us rhs);
  delta_us ← i64_checked (sum_acquisition_us - sum_duration_us);
  shifted_rhs_runway ← i64_checked (as_delta_us self + as_max_prefix_runway_us rhs);
  positive_slack_sum_us ←
    i64_checked (as_positive_slack_sum_us self + as_positive_slack_sum_us rhs);
  let summary :=
    {| as_n := n;
       as_sum_acquisition_us := sum_acquisition_us;
       as_sum_duration_us := sum_duration_us;
       as_delta_us := delta_us;
       as_max_prefix_runway_us :=
         Z.max (as_max_prefix_runway_us self) (Z.max shifted_rhs_runway 0);
       as_positive_slack_sum_us := positive_slack_sum_us;
       as_max_capped_delivery_us :=
         Z.max (as_max_capped_delivery_us self) (as_max_capped_delivery_us rhs);
       as_sample_overhead_max_us := overhead;
       as_overflowed := false |} in
  _ ← stress_runway_us summary;
  Some summary.

Definition combine (self rhs : AdmissionSummary) : AdmissionSummary :=
  let overhead := Z.max (as_sample_overhead_max_us self) (as_sample_overhead_max_us rhs) in
  match usize_checked (as_n self + as_n rhs) with
  | None => poisoned usize_max overhead
  | Some n =>
      if as_overflowed self || as_overflowed rhs then poisoned n overhead
      else default (poisoned n overhead) (combine_exact n overhead self rhs)
  end.

Definition conservative_refusal (s : AdmissionSummary) : Admission :=
  {| ad_sustainable := false;
     ad_survivable := false;
     ad_demand_us := i64_max;
     ad_supply_us := 0;
     ad_excess_us := i64_max;
     ad_runway_us := i64_max;
     ad_samples := as_n s |}.

Definition summary_admission (s : AdmissionSummary) (reserve_ms : Z) (ordered : bool)
  : option Admission :=
  if as_n s =? 0 then None else
  if as_overflowed s then Some (conservative_refusal s) else
  match
    (if ordered then Some (Z.max (as_delta_us s) 0, as_max_prefix_runway_us s)
     else (fun r => (as_positive_slack_sum_us s, r)) <$> stress_runway_us s)
  with
  | None => Some (conservative_refusal s)
  | Some (excess_us, runway_us) =>
      let survivable :=
        match i64_checked (reserve_ms * 1000) with
        | Some reserve_us => runway_us <=? reserve_us
        | None => false
        end in
      Some {| ad_sustainable := as_sum_acquisition_us s <=? as_sum_duration_us s;
              ad_survivable := survivable;
              ad_demand_us := as_sum_acquisition_us s;
              ad_supply_us := as_sum_duration_us s;
              ad_excess_us := excess_us;
              ad_runway_us := runway_us;
              ad_samples := as_n s |}
  end.

(** ** The order-statistic policy (diagnostics and offline comparison) *)

Definition requested_len (p : AdmissionPolicy) : Z :=
  let a := u64_wrap (Z.max (k p) 1 * 1000) in
  let b := Z.max (epsilon_pm p) 1 in
  u64_sat ((a + b - 1) / b - 1).

Definition window_len (p : AdmissionPolicy) : nat :=
  Z.to_nat (Z.max 1 (Z.min (u32_wrap (requested_len p)) (Z.of_nat WINDOW_CAPACITY))).

Definition is_clamped (p : AdmissionPolicy) : bool :=
  Z.of_nat WINDOW_CAPACITY <? requested_len p.

Definition effective_epsilon_pm (p : AdmissionPolicy) : Z :=
  let n := Z.of_nat (window_len p) in
  let a := u64_wrap (Z.max (k p) 1 * 1000) in
  Z.min ((a + (n + 1) - 1) / (n + 1)) 1000.

Definition candidate_worst_case_bytes (declared_bps media_duration_ms sigma_pm : Z) : Z :=
  if (declared_bps =? 0) || (media_duration_ms <=? 0) then 0
  else
    let numerator := u64_sat (u64_sat (sigma_pm * declared_bps) * media_duration_ms) in
    u64_sat (numerator + 7999999) / 8000000.

(** ** The window *)

Record AcquisitionWindow := mk_window {
  aw_ring : list Acquisition;
  aw_len : nat;
  aw_next : nat;
  aw_summary : AdmissionSummary;
  aw_resets : Z
}.
#[export] Instance eta_AcquisitionWindow : Eta AcquisitionWindow :=
  fun r => mk_window (aw_ring r) (aw_len r) (aw_next r) (aw_summary r) (aw_resets r).

Definition window_default : AcquisitionWindow :=
  mk_window (replicate WINDOW_CAPACITY acquisition_default) 0 0 summary_default 0.

Definition sample_of (bytes acquisition_us active_us media_duration_ms : Z) : Acquisition :=
  mk_acquisition bytes acquisition_us media_duration_ms
    (u64_sat (acquisition_us - Z.min active_us acquisition_us)).

Definition window_observe (w : AcquisitionWindow)
    (bytes acquisition_us active_us media_duration_ms : Z) : AcquisitionWindow :=
  if (bytes =? 0) || (acquisition_us =? 0) || (media_duration_ms <=? 0) then w
  else
    let sample := sample_of bytes acquisition_us active_us media_duration_ms in
    w <| aw_summary := combine (aw_summary w) (from_sample sample) |>
      <| aw_ring := <[aw_next w := sample]> (aw_ring w) |>
      <| aw_next := ((aw_next w + 1) mod WINDOW_CAPACITY)%nat |>
      <| aw_len := Nat.min (aw_len w + 1) WINDOW_CAPACITY |>.

Definition window_reset (w : AcquisitionWindow) : AcquisitionWindow :=
  window_default <| aw_resets := u32_sat (aw_resets w + 1) |>.

Definition worst_overhead_us (w : AcquisitionWindow) : Z :=
  as_sample_overhead_max_us (aw_summary w).

(** The newest [want] samples, newest first. *)
Definition recent (w : AcquisitionWindow) (want : nat) : list Acquisition :=
  (fun back =>
     (aw_ring w) !!! ((aw_next w + WINDOW_CAPACITY - 1 - back) mod WINDOW_CAPACITY)%nat)
  <$> seq 0 (Nat.min want (aw_len w)).

Definition transferred_us (sample : Acquisition) (query_bytes : Z) : Z :=
  if query_bytes <=? aq_bytes sample then Z.min (aq_acquisition_us sample) i64_max
  else
    let body := u64_sat (aq_acquisition_us sample - aq_overhead_us sample) in
    let bytes := Z.max (aq_bytes sample) 1 in
    let scaled := (body * query_bytes + bytes - 1) / bytes in
    Z.min (u128_sat (scaled + aq_overhead_us sample)) i64_max.

(** [sort_unstable] on [i64]s, then the [k]-th largest. *)
Definition bound_us (w : AcquisitionWindow) (query_bytes : Z) (p : AdmissionPolicy) : option Z :=
  let n := window_len p in
  if (aw_len w <? n)%nat then None
  else
    let used := merge_sort Z.le ((fun s => transferred_us s query_bytes) <$> recent w n) in
    let kth := Nat.min (Z.to_nat (Z.max (k p) 1)) n in
    used !! (n - kth)%nat.

Definition observed_admission (w : AcquisitionWindow) (reserve_ms : Z) : option Admission :=
  summary_admission (aw_summary w) reserve_ms false.

Definition observed_ordered_admission (w : AcquisitionWindow) (reserve_ms : Z)
  : option Admission :=
  summary_admission (aw_summary w) reserve_ms true.

Definition observed_runway_us (w : AcquisitionWindow) : option Z :=
  ad_runway_us <$> observed_admission w 0.

Definition observed_readout (w : AcquisitionWindow) (reserve_ms : Z) : AdmissionReadout :=
  {| ar_have := as_n (aw_summary w);
     ar_want := as_n (aw_summary w);
     ar_effective_epsilon_pm := 0;
     ar_clamped := false;
     ar_bound_us := None;
     ar_admission := observed_admission w reserve_ms;
     ar_resets := aw_resets w |}.

(** One turn of the loop of [evaluate_recent]: demand, supply, excess, terminal. *)
Definition evaluate_sample (query_bytes : Acquisition -> Z) (acc : Z * Z * Z * Z)
    (sample : Acquisition) : Z * Z * Z * Z :=
  let '(demand_us, supply_us, excess_us, terminal_us) := acc in
  let duration_us := i64_sat (aq_media_duration_ms sample * 1000) in
  let transferred := transferred_us sample (query_bytes sample) in
  (i64_sat (demand_us + transferred),
   i64_sat (supply_us + duration_us),
   i64_sat (excess_us + Z.max (i64_wrap (transferred - duration_us)) 0),
   Z.max terminal_us (Z.min transferred duration_us)).

Definition evaluate_recent (w : AcquisitionWindow) (n : nat) (reserve_ms : Z)
    (query_bytes : Acquisition -> Z) : Admission :=
  let '(demand_us, supply_us, excess_us, terminal_us) :=
    fold_left (evaluate_sample query_bytes) (recent w n) (0, 0, 0, 0) in
  let runway_us := i64_sat (excess_us + terminal_us) in
  {| ad_sustainable := demand_us <=? supply_us;
     ad_survivable := runway_us <=? i64_sat (reserve_ms * 1000);
     ad_demand_us := demand_us;
     ad_supply_us := supply_us;
     ad_excess_us := excess_us;
     ad_runway_us := runway_us;
     ad_samples := Z.of_nat n |}.

Definition evaluate (w : AcquisitionWindow) (reserve_ms : Z) (p : AdmissionPolicy)
    (query_bytes : Acquisition -> Z) : option Admission :=
  let n := window_len p in
  if (aw_len w <? n)%nat then None else Some (evaluate_recent w n reserve_ms query_bytes).

Definition admits (w : AcquisitionWindow) (query_bytes media_duration_ms reserve_ms : Z)
    (p : AdmissionPolicy) : option Admission :=
  if media_duration_ms <=? 0 then None else evaluate w reserve_ms p (fun _ => query_bytes).

Definition window_readout (w : AcquisitionWindow) (query_bytes media_duration_ms reserve_ms : Z)
    (p : AdmissionPolicy) : AdmissionReadout :=
  {| ar_have := Z.of_nat (aw_len w);
     ar_want := Z.of_nat (window_len p);
     ar_effective_epsilon_pm := effective_epsilon_pm p;
     ar_clamped := is_clamped p;
     ar_bound_us := bound_us w query_bytes p;
     ar_admission := admits w query_bytes media_duration_ms reserve_ms p;
     ar_resets := aw_resets w |}.

(** ** Specification: replaying acquisitions against a reserve

    An acquisition is its end-to-end time and the media it delivers, both in microseconds. *)

Abbreviation Cost := (Z * Z)%type.

(** Play [l] from a reserve of [b]: each acquisition must finish before the reserve is empty,
    and only then adds its media. *)
Fixpoint replay (b : Z) (l : list Cost) : option Z :=
  match l with
  | [] => Some b
  | (a, d) :: l => if a <=? b then replay (b - a + d) l else None
  end.

Fixpoint sum_acquisition (l : list Cost) : Z :=
  match l with [] => 0 | (a, _) :: l => a + sum_acquisition l end.
Fixpoint sum_duration (l : list Cost) : Z :=
  match l with [] => 0 | (_, d) :: l => d + sum_duration l end.

(** The module's [R_o = max_i (sum_(j<i) (A_j - D_j) + A_i)]. *)
Fixpoint ordered_runway (l : list Cost) : Z :=
  match l with
  | [] => 0
  | (a, d) :: l => Z.max a (a - d + ordered_runway l)
  end.

(** The module's [R_s = sum (A_i - D_i)+ + max_i min(A_i, D_i)]. *)
Fixpoint slack_sum (l : list Cost) : Z :=
  match l with [] => 0 | (a, d) :: l => Z.max (a - d) 0 + slack_sum l end.
Fixpoint max_capped (l : list Cost) : Z :=
  match l with [] => 0 | (a, d) :: l => Z.max (Z.min a d) (max_capped l) end.
Definition stress_runway (l : list Cost) : Z := slack_sum l + max_capped l.

Definition costs_ok (l : list Cost) : Prop := Forall (fun c => 0 <= c.1 /\ 0 <= c.2) l.

Lemma ordered_runway_bounds l :
  costs_ok l ->
  0 <= ordered_runway l /\ sum_acquisition l - sum_duration l <= ordered_runway l
  /\ ordered_runway l <= sum_acquisition l.
Proof.
  induction 1 as [|[a d] l [? ?] _ IH]; cbn in *; lia.
Qed.

Lemma stress_bounds l :
  costs_ok l ->
  0 <= slack_sum l /\ 0 <= max_capped l /\ 0 <= sum_acquisition l /\ 0 <= sum_duration l
  /\ stress_runway l <= sum_acquisition l.
Proof.
  unfold stress_runway. induction 1 as [|[a d] l [? ?] _ IH]; cbn in *; lia.
Qed.

(** The ordered runway is exactly the starting reserve the chronology needs. *)
Lemma replay_ordered_runway l b :
  costs_ok l -> is_Some (replay b l) <-> (l = [] \/ ordered_runway l <= b).
Proof.
  intros Hl. revert b. induction Hl as [|[a d] l [Ha Hd] Hl IH]; intros b; cbn in *;
    [split; [by left|done]|].
  destruct (Z.leb_spec a b).
  - rewrite IH. split.
    + intros [-> | ?]; right; cbn; lia.
    + intros [[=]|?]. right. lia.
  - split; [by intros []|]. intros [[=]|?]. lia.
Qed.

Lemma replay_total l b r : replay b l = Some r -> r = b - sum_acquisition l + sum_duration l.
Proof.
  revert b. induction l as [|[a d] l IH]; intros b; cbn; [intros; simplify_eq; lia|].
  destruct (a <=? b); [|done]. intros H%IH. lia.
Qed.

Lemma ordered_runway_app l l' :
  costs_ok l -> costs_ok l' ->
  ordered_runway (l ++ l')
  = Z.max (ordered_runway l) (sum_acquisition l - sum_duration l + ordered_runway l').
Proof.
  intros Hl Hl'. induction Hl as [|[a d] l [Ha Hd] Hl IH]; cbn in *.
  - pose proof (ordered_runway_bounds l' Hl'). lia.
  - rewrite IH. lia.
Qed.

Lemma sums_app l l' :
  sum_acquisition (l ++ l') = sum_acquisition l + sum_acquisition l'
  /\ sum_duration (l ++ l') = sum_duration l + sum_duration l'
  /\ slack_sum (l ++ l') = slack_sum l + slack_sum l'.
Proof. induction l as [|[a d] l IH]; cbn; lia. Qed.

Lemma max_capped_app l l' :
  costs_ok l' -> max_capped (l ++ l') = Z.max (max_capped l) (max_capped l').
Proof.
  intros Hl'. induction l as [|[a d] l IH]; cbn; [|lia].
  pose proof (stress_bounds l' Hl'). lia.
Qed.

#[export] Instance stress_runway_perm : Proper (Permutation ==> eq) stress_runway.
Proof.
  intros l l' H. unfold stress_runway.
  assert (slack_sum l = slack_sum l' /\ max_capped l = max_capped l') as [-> ->]; [|done].
  induction H as [|[a d] l l' _ IH|[a d] [a' d'] l|l l' l'' _ IH1 _ IH2]; cbn; lia.
Qed.

(** No order of the acquisitions needs more than the stress runway... *)
Lemma stress_covers_every_order l : costs_ok l -> ordered_runway l <= stress_runway l.
Proof.
  unfold stress_runway.
  induction 1 as [|[a d] l [Ha Hd] Hl IH]; cbn in *; [lia|]. pose proof (stress_bounds l Hl). lia.
Qed.

Lemma max_capped_attained l :
  l <> [] -> costs_ok l -> exists c, c ∈ l /\ max_capped l = Z.min c.1 c.2.
Proof.
  intros Hne Hl. induction Hl as [|[a d] l [Ha Hd] Hl IH]; [done|]. cbn in *.
  destruct l as [|c' l].
  - exists (a, d). cbn. split; [by constructor|lia].
  - destruct IH as (c & Hc & IH); [done|].
    destruct (Z.max_spec (Z.min a d) (max_capped (c' :: l))) as [[_ E]|[_ E]]; rewrite E.
    + exists c. split; [by constructor|done].
    + exists (a, d). split; [by constructor|done].
Qed.

Lemma slow_first_sums l :
  let slow := filter (fun c : Cost => c.2 < c.1) l in
  sum_acquisition slow - sum_duration slow = slack_sum l.
Proof.
  induction l as [|[a d] l IH]; [done|]. cbn -[filter]. rewrite filter_cons.
  cbn [fst snd]. case_decide; cbn in *; lia.
Qed.

(** ...and some order needs exactly that much: every acquisition slower than real time first,
    then the one with the largest capped delivery. *)
Lemma stress_attained l :
  costs_ok l -> exists l', l' ≡ₚ l /\ ordered_runway l' = stress_runway l.
Proof.
  intros Hl. destruct (decide (l = [])) as [->|Hne]; [by exists []|].
  destruct (max_capped_attained l Hne Hl) as (c & Hc & Hmax).
  destruct (proj1 (elem_of_Permutation l c) Hc) as [rest Hperm].
  set (slow := filter (fun c : Cost => c.2 < c.1) rest).
  set (fast := filter (fun c : Cost => ~ c.2 < c.1) rest).
  assert (slow ++ fast ≡ₚ rest) as Hpart.
  { subst slow fast. clear. induction rest as [|x rest IH]; [done|].
    rewrite !filter_cons. destruct (decide (x.2 < x.1)).
    - rewrite decide_False by tauto. cbn. by rewrite IH.
    - rewrite decide_True by tauto. cbn. by rewrite <- Permutation_middle, IH. }
  exists (slow ++ c :: fast). split; [by rewrite <- Permutation_middle, Hpart, Hperm|].
  assert (costs_ok (slow ++ c :: fast)) as Hok.
  { unfold costs_ok. rewrite <- Permutation_middle, Hpart, <- Hperm. exact Hl. }
  assert (stress_runway (slow ++ c :: fast) = stress_runway l) as Hstress.
  { apply stress_runway_perm. by rewrite <- Permutation_middle, Hpart, Hperm. }
  pose proof (stress_covers_every_order _ Hok) as Hle.
  apply Forall_app in Hok as [Hslow Hrest]. rewrite ordered_runway_app in Hle |- * by done.
  pose proof (slow_first_sums rest) as Hs. fold slow in Hs. cbn in Hs.
  assert (slack_sum l = Z.max (c.1 - c.2) 0 + slack_sum rest) as Hsl.
  { clear -Hperm. assert (forall l l', l ≡ₚ l' -> slack_sum l = slack_sum l') as Hp.
    { induction 1 as [|[a d] m m' _ IH|[a d] [a' d'] m|m m' m'' _ IH1 _ IH2]; cbn; lia. }
    rewrite (Hp _ _ Hperm). by destruct c. }
  inversion_clear Hrest as [|? ? [Hca Hcd] Hfast].
  pose proof (ordered_runway_bounds slow Hslow).
  destruct c as [a d]. cbn in *. unfold stress_runway in *. lia.
Qed.

(** ** The summary computes the specification *)

Definition cost_of (s : Acquisition) : Cost :=
  (aq_acquisition_us s, aq_media_duration_ms s * 1000).

Definition acquisition_ok (s : Acquisition) : Prop :=
  0 < aq_acquisition_us s <= u64_max /\ 0 < aq_media_duration_ms s <= i64_max.

(** An episode whose totals, or whose length, do not fit the machine. *)
Definition overflows (l : list Cost) : Prop :=
  i64_max < sum_acquisition l \/ i64_max < sum_duration l \/ usize_max < Z.of_nat (length l).

(** [s] is the summary of the episode [l]. *)
Definition summary_models (s : AdmissionSummary) (l : list Cost) : Prop :=
  as_n s = Z.min (Z.of_nat (length l)) usize_max
  /\ (as_overflowed s = true -> overflows l)
  /\ (as_overflowed s = false ->
      ~ overflows l
      /\ as_sum_acquisition_us s = sum_acquisition l
      /\ as_sum_duration_us s = sum_duration l
      /\ as_delta_us s = sum_acquisition l - sum_duration l
      /\ as_max_prefix_runway_us s = ordered_runway l
      /\ as_positive_slack_sum_us s = slack_sum l
      /\ as_max_capped_delivery_us s = max_capped l).

Lemma summary_default_models : summary_models summary_default [].
Proof. unfold summary_models, overflows. cbn. repeat split; try done; ints. Qed.

Lemma poisoned_models n o l :
  overflows l -> n = Z.min (Z.of_nat (length l)) usize_max -> summary_models (poisoned n o) l.
Proof. intros Ho ->. split; [done|]. split; [done|]. done. Qed.

Lemma from_sample_models s :
  acquisition_ok s -> summary_models (from_sample s) [cost_of s].
Proof.
  intros [Ha Hd]. unfold from_sample, summary_of_sample, stress_runway_us.
  destruct (i64_checked (aq_acquisition_us s)) as [a|] eqn:E1;
    [apply i64_checked_Some in E1 as [-> E1]|apply i64_checked_None in E1]; cbn.
  2:{ apply poisoned_models; [unfold overflows; cbn; left; ints|cbn; ints]. }
  destruct (i64_checked (aq_media_duration_ms s * 1000)) as [d|] eqn:E2;
    [apply i64_checked_Some in E2 as [-> E2]|apply i64_checked_None in E2]; cbn.
  2:{ apply poisoned_models; [unfold overflows; cbn; right; left; ints|cbn; ints]. }
  destruct (i64_checked (aq_acquisition_us s - _)) as [d|] eqn:E3;
    [apply i64_checked_Some in E3 as [-> E3]|apply i64_checked_None in E3; exfalso; ints]; cbn.
  destruct (i64_checked _) as [r|] eqn:E4;
    [|apply i64_checked_None in E4; exfalso; ints]; cbn.
  split; [cbn; ints|]. split; [done|]. intros _. unfold overflows. cbn. repeat split; ints.
Qed.

(** The code's claim that the summary is an exact associative fold: combining the summaries of
    two consecutive episodes gives the summary of their concatenation. *)
Lemma combine_models s l s' l' :
  costs_ok l -> costs_ok l' -> summary_models s l -> summary_models s' l' ->
  summary_models (combine s s') (l ++ l').
Proof.
  intros Hl Hl' (Hn & Ho & Hx) (Hn' & Ho' & Hx').
  pose proof (sums_app l l') as (Ea & Ed & Es). pose proof (max_capped_app l l' Hl') as Em.
  pose proof (ordered_runway_app l l' Hl Hl') as Er.
  pose proof (stress_bounds l Hl) as Bl. pose proof (stress_bounds l' Hl') as Bl'.
  pose proof (ordered_runway_bounds l Hl) as Rl. pose proof (ordered_runway_bounds l' Hl') as Rl'.
  assert (overflows l \/ overflows l' -> overflows (l ++ l')) as Hover.
  { unfold overflows. rewrite length_app. intros [H|H]; ints. }
  assert (Z.of_nat (length (l ++ l')) = Z.of_nat (length l) + Z.of_nat (length l')) as Elen
    by (rewrite length_app; lia).
  unfold combine. destruct (usize_checked (as_n s + as_n s')) as [n|] eqn:En.
  2:{ apply checked_None in En. apply poisoned_models; [right; right|]; ints. }
  apply usize_checked_Some in En as [-> En].
  destruct (as_overflowed s) eqn:Eo; [|destruct (as_overflowed s') eqn:Eo'].
  1,2: apply poisoned_models; [auto|rewrite Elen, Hn, Hn'; ints].
  cbn [orb]. specialize (Hx eq_refl) as (Nx & X1 & X2 & X3 & X4 & X5 & X6).
  specialize (Hx' eq_refl) as (Nx' & Y1 & Y2 & Y3 & Y4 & Y5 & Y6).
  unfold combine_exact. rewrite X1, X2, X3, X4, X5, X6, Y1, Y2, Y4, Y5, Y6.
  assert (as_n s + as_n s' = Z.min (Z.of_nat (length (l ++ l'))) usize_max) as Hlen
    by (unfold overflows in *; ints).
  destruct (i64_checked (sum_acquisition l + sum_acquisition l')) as [a|] eqn:E1;
    [apply i64_checked_Some in E1 as [-> E1]|apply i64_checked_None in E1]; cbn -[Z.add Z.sub].
  2:{ apply poisoned_models; [left; ints|done]. }
  destruct (i64_checked (sum_duration l + sum_duration l')) as [d|] eqn:E2;
    [apply i64_checked_Some in E2 as [-> E2]|apply i64_checked_None in E2]; cbn -[Z.add Z.sub].
  2:{ apply poisoned_models; [right; left; ints|done]. }
  unfold stress_runway_us.
  repeat match goal with
  | |- context [i64_checked ?z] =>
      let E := fresh in destruct (i64_checked z) as [?|] eqn:E;
      [apply i64_checked_Some in E as [-> ?]
      |apply i64_checked_None in E; exfalso; unfold stress_runway in *; cbn in E; ints];
      cbn -[Z.add Z.sub]
  end.
  split; [done|]. split; [done|]. intros _. cbn.
  split; [unfold overflows in *; ints|]. rewrite Ea, Ed, Es, Em, Er. repeat split; lia.
Qed.

(** ** Episodes: a fresh window and the acquisitions reported to it *)

Record Report := mk_report { rp_bytes : Z; rp_acquisition_us : Z; rp_active_us : Z; rp_media_ms : Z }.

Definition report_ok (r : Report) : Prop :=
  is_u64 (rp_bytes r) /\ is_u64 (rp_acquisition_us r) /\ is_u64 (rp_active_us r)
  /\ is_i64 (rp_media_ms r).

(** The reports [window_observe] does not drop. *)
Definition report_counts (r : Report) : bool :=
  negb ((rp_bytes r =? 0) || (rp_acquisition_us r =? 0) || (rp_media_ms r <=? 0)).

Definition report_sample (r : Report) : Acquisition :=
  sample_of (rp_bytes r) (rp_acquisition_us r) (rp_active_us r) (rp_media_ms r).

Definition observe_report (w : AcquisitionWindow) (r : Report) : AcquisitionWindow :=
  window_observe w (rp_bytes r) (rp_acquisition_us r) (rp_active_us r) (rp_media_ms r).

Fixpoint kept (rs : list Report) : list Acquisition :=
  match rs with
  | [] => []
  | r :: rs => if report_counts r then report_sample r :: kept rs else kept rs
  end.

Definition episode (w : AcquisitionWindow) (rs : list Report) : AcquisitionWindow :=
  fold_left observe_report rs w.

(** What a window knows after the acquisitions [l] since its last reset. *)
Record window_holds (w : AcquisitionWindow) (l : list Acquisition) : Prop := {
  wh_ring : length (aw_ring w) = WINDOW_CAPACITY;
  wh_next : aw_next w = (length l mod WINDOW_CAPACITY)%nat;
  wh_len : aw_len w = Nat.min (length l) WINDOW_CAPACITY;
  wh_recent : forall back, (back < aw_len w)%nat ->
    aw_ring w !!! ((aw_next w + WINDOW_CAPACITY - 1 - back) mod WINDOW_CAPACITY)%nat
    = rev l !!! back;
  wh_summary : summary_models (aw_summary w) (cost_of <$> l);
  wh_ok : Forall acquisition_ok l
}.

Lemma costs_ok_of l : Forall acquisition_ok l -> costs_ok (cost_of <$> l).
Proof.
  intros H. apply Forall_fmap. eapply Forall_impl; [exact H|]. intros s [? ?]. cbn. lia.
Qed.

Lemma window_default_holds : window_holds window_default [].
Proof.
  split; cbn; try done; [|apply summary_default_models]. intros back Hb. unfold WINDOW_CAPACITY in Hb. lia.
Qed.

Lemma window_reset_holds w : window_holds (window_reset w) [].
Proof.
  split; cbn; try done; [|apply summary_default_models]. intros back Hb. unfold WINDOW_CAPACITY in Hb. lia.
Qed.

Lemma report_sample_ok r :
  report_ok r -> report_counts r = true -> acquisition_ok (report_sample r).
Proof.
  intros (Hb & Ha & Hac & Hm). unfold report_counts.
  rewrite negb_true_iff, !orb_false_iff, !Z.eqb_neq, Z.leb_gt. intros [[? ?] ?].
  split; cbn; ints.
Qed.

(** Writing at [next] moves every recorded acquisition one step back. *)
Lemma ring_push_recent {A} `{Inhabited A} (ring : list A) (next back : nat) (x : A) (hist : list A) :
  length ring = WINDOW_CAPACITY -> (next < WINDOW_CAPACITY)%nat -> (back < WINDOW_CAPACITY)%nat ->
  (forall b, (S b <= back)%nat ->
     ring !!! ((next + WINDOW_CAPACITY - 1 - b) mod WINDOW_CAPACITY)%nat = hist !!! b) ->
  <[next:=x]> ring !!! (((next + 1) mod WINDOW_CAPACITY + WINDOW_CAPACITY - 1 - back)
                        mod WINDOW_CAPACITY)%nat
  = (x :: hist) !!! back.
Proof.
  unfold WINDOW_CAPACITY. intros Hring Hlt Hback Hrecent.
  assert (((next + 1) mod 64 + 64 - 1 - back) mod 64 = (next + 64 - back) mod 64)%nat as ->.
  { destruct (decide (next = 63%nat)) as [->|].
    - change ((63 + 1) mod 64)%nat with 0%nat.
      replace (63 + 64 - back)%nat with ((0 + 64 - 1 - back) + 1 * 64)%nat by lia.
      by rewrite Nat.Div0.mod_add.
    - rewrite (Nat.mod_small (next + 1)) by lia. f_equal. lia. }
  destruct back as [|back].
  - replace (next + 64 - 0)%nat with (next + 1 * 64)%nat by lia.
    rewrite Nat.Div0.mod_add, Nat.mod_small by lia.
    rewrite list_lookup_total_insert_eq by lia. done.
  - replace (next + 64 - S back)%nat with (next + 64 - 1 - back)%nat by lia.
    rewrite list_lookup_total_insert_ne; [by apply Hrecent; lia|].
    intros E. assert (next = (next + 63 - back) mod 64)%nat as E'.
    { rewrite E at 1. f_equal. lia. }
    destruct (decide (next + 63 - back < 64)%nat) as [Hs|Hs].
    + rewrite Nat.mod_small in E' by lia. lia.
    + replace (next + 63 - back)%nat with ((next - 1 - back) + 1 * 64)%nat in E' by lia.
      rewrite Nat.Div0.mod_add, Nat.mod_small in E' by lia. lia.
Qed.

Lemma window_observe_holds w l r :
  window_holds w l -> report_ok r ->
  window_holds (observe_report w r) (l ++ (if report_counts r then [report_sample r] else [])).
Proof.
  intros Hw Hr. unfold observe_report, window_observe.
  destruct (report_counts r) eqn:Hc; unfold report_counts in Hc;
    [apply negb_true_iff in Hc|apply negb_false_iff in Hc]; rewrite Hc;
    [|by rewrite app_nil_r].
  assert (report_counts r = true) as Hc' by (unfold report_counts; by rewrite Hc).
  pose proof (report_sample_ok r Hr Hc') as Hok. fold (report_sample r).
  destruct Hw as [Hring Hnext Hlen Hrecent Hsum Hall].
  assert (aw_next w < 64)%nat as Hlt.
  { rewrite Hnext. apply Nat.mod_upper_bound. done. }
  split; cbn [aw_ring aw_next aw_len aw_summary update].
  - change (length (<[aw_next w:=report_sample r]> (aw_ring w)) = WINDOW_CAPACITY).
    by rewrite length_insert.
  - change (((aw_next w + 1) mod WINDOW_CAPACITY)%nat
            = (length (l ++ [report_sample r]) mod WINDOW_CAPACITY)%nat).
    rewrite length_app, Hnext. cbn [length]. by rewrite Nat.Div0.add_mod_idemp_l.
  - change (Nat.min (aw_len w + 1) WINDOW_CAPACITY
            = Nat.min (length (l ++ [report_sample r])) WINDOW_CAPACITY).
    rewrite length_app. cbn. lia.
  - change (forall back, (back < Nat.min (aw_len w + 1) WINDOW_CAPACITY)%nat ->
      <[aw_next w:=report_sample r]> (aw_ring w)
        !!! (((aw_next w + 1) mod WINDOW_CAPACITY + WINDOW_CAPACITY - 1 - back)
             mod WINDOW_CAPACITY)%nat
      = rev (l ++ [report_sample r]) !!! back).
    intros back Hback. rewrite rev_app_distr. cbn [rev app].
    apply ring_push_recent; [done|done|lia|]. intros b Hb. apply Hrecent. lia.
  - change (summary_models (combine (aw_summary w) (from_sample (report_sample r)))
              (cost_of <$> l ++ [report_sample r])).
    rewrite fmap_app. apply combine_models; [by apply costs_ok_of| |done|by apply from_sample_models].
    apply costs_ok_of. by apply Forall_singleton.
  - apply Forall_app. split; [done|]. by apply Forall_singleton.
Qed.

Lemma episode_holds w l rs :
  window_holds w l -> Forall report_ok rs -> window_holds (episode w rs) (l ++ kept rs).
Proof.
  intros Hw Hrs. revert w l Hw. induction Hrs as [|r rs Hr _ IH]; intros w l Hw; cbn.
  - by rewrite app_nil_r.
  - specialize (IH _ _ (window_observe_holds _ _ _ Hw Hr)). rewrite <- app_assoc in IH.
    destruct (report_counts r); exact IH.
Qed.

(** ** Properties *)

(** The diagnostics ring: the newest [want] acquisitions, newest first, however often it
    wrapped. *)
Theorem recent_is_newest w rs want :
  Forall report_ok rs ->
  recent (episode (window_reset w) rs) want
  = take (Nat.min want WINDOW_CAPACITY) (rev (kept rs)).
Proof.
  intros Hrs. pose proof (episode_holds _ [] rs (window_reset_holds w) Hrs) as H. cbn in H.
  set (e := episode _ _) in *. destruct H as [Hring Hnext Hlen Hrecent _ _].
  apply list_eq. intros i. unfold recent. rewrite list_lookup_fmap.
  destruct (decide (i < Nat.min want (aw_len e))%nat) as [Hi|Hi].
  - rewrite lookup_seq_lt by done. change (0 + i)%nat with i.
    cbv [fmap option_fmap option_map]. rewrite Hrecent by lia.
    rewrite lookup_take_lt by lia. symmetry. apply list_lookup_lookup_total_lt.
    rewrite length_rev. lia.
  - rewrite lookup_seq_ge by lia. cbn. symmetry. apply lookup_ge_None.
    rewrite length_take, length_rev. lia.
Qed.

(** The costs an episode reported, in order. *)
Definition episode_costs (rs : list Report) : list Cost := cost_of <$> kept rs.

Lemma episode_summary w rs :
  Forall report_ok rs ->
  summary_models (aw_summary (episode (window_reset w) rs)) (episode_costs rs)
  /\ costs_ok (episode_costs rs).
Proof.
  intros Hrs. destruct (episode_holds _ [] rs (window_reset_holds w) Hrs) as [_ _ _ _ Hs Ho].
  split; [exact Hs|by apply costs_ok_of].
Qed.

Lemma summary_n_zero s l : summary_models s l -> as_n s = 0 <-> l = [].
Proof.
  intros (Hn & _). rewrite Hn. split.
  - intros H. destruct l; [done|]. cbn in H. ints.
  - by intros ->.
Qed.

(** An answer exists as soon as one acquisition was kept; the answer never errs towards
    admission; and it is exact while the totals and the reserve fit the machine. *)
Lemma summary_admission_spec s l reserve_ms (ordered : bool) :
  let runway := if ordered then ordered_runway l else stress_runway l in
  summary_models s l -> costs_ok l ->
  (l = [] -> summary_admission s reserve_ms ordered = None)
  /\ (l <> [] -> exists a, summary_admission s reserve_ms ordered = Some a
       /\ ad_samples a = as_n s
       /\ (ad_sustainable a = true -> sum_acquisition l <= sum_duration l)
       /\ (ad_survivable a = true -> runway <= reserve_ms * 1000)
       /\ (~ overflows l ->
           ad_runway_us a = runway
           /\ (ad_sustainable a = true <-> sum_acquisition l <= sum_duration l)
           /\ (is_i64 (reserve_ms * 1000) ->
               ad_survivable a = true <-> runway <= reserve_ms * 1000))).
Proof.
  intros runway Hm Hok. pose proof (summary_n_zero s l Hm) as Hn.
  unfold summary_admission. destruct (Z.eqb_spec (as_n s) 0) as [E|E].
  { split; [done|]. intros Hne. by apply Hn in E. }
  split; [intros ->; by destruct E; apply Hn|]. intros _.
  destruct Hm as (_ & Ho & Hx). destruct (as_overflowed s).
  { eexists. split; [reflexivity|]. cbn. split; [done|]. split; [done|]. split; [done|].
    intros Hno. by destruct Hno; apply Ho. }
  destruct (Hx eq_refl) as (Hno & X1 & X2 & X3 & X4 & X5 & X6).
  assert (exists excess,
    (if ordered then Some (Z.max (as_delta_us s) 0, as_max_prefix_runway_us s)
     else (fun r => (as_positive_slack_sum_us s, r)) <$> stress_runway_us s)
    = Some (excess, runway)) as [excess ->].
  { subst runway. destruct ordered; [eexists; by rewrite X4|].
    unfold stress_runway_us. rewrite X5, X6. fold (stress_runway l).
    pose proof (stress_bounds l Hok).
    assert (i64_checked (stress_runway l) = Some (stress_runway l)) as ->;
      [|by eexists]. apply i64_checked_Some. split; [done|]. unfold overflows, stress_runway in *. ints. }
  eexists. split; [reflexivity|]. cbn. rewrite X1, X2. split; [done|].
  split; [by intros ?%Z.leb_le|]. split; [|split; [done|split; [apply Z.leb_le|]]].
  - destruct (i64_checked _) eqn:Ec; [|done]. apply i64_checked_Some in Ec as [-> _].
    by intros ?%Z.leb_le.
  - intros Hr. assert (i64_checked (reserve_ms * 1000) = Some (reserve_ms * 1000)) as ->
      by by apply i64_checked_Some. apply Z.leb_le.
Qed.

(** A total that does not fit refuses everything, and so does a reserve that does not fit. *)
Lemma summary_admission_refuses s l reserve_ms (ordered : bool) a :
  summary_models s l -> costs_ok l -> summary_admission s reserve_ms ordered = Some a ->
  (overflows l -> ad_sustainable a = false /\ ad_survivable a = false)
  /\ (~ is_i64 (reserve_ms * 1000) -> ad_survivable a = false).
Proof.
  intros (_ & _ & Hx) Hok. unfold summary_admission. destruct (as_n s =? 0); [done|].
  destruct (as_overflowed s); [intros [= <-]; by split|].
  destruct (Hx eq_refl) as (Hno & _). set (o := if ordered then _ else _).
  destruct o as [[excess runway]|]; intros [= <-]; (split; [by intros ?|]); [|done].
  cbn. intros Hr. destruct (i64_checked _) eqn:E; [|done]. apply i64_checked_Some in E as [-> ?]. done.
Qed.

(** C13. The live stay/down certificate. For the chronology of completed acquisitions reported
    since the last reset, the constant-size summary answers exactly what replaying them would. It
    has no answer only while none was reported; then [sustainable] is whether acquiring took no
    longer than the media lasts, and [survivable] whether the replay from the reserve never runs
    dry. When a total does not fit 64 bits it still answers, and refuses both; a reserve that does
    not fit in microseconds survives nothing. *)
Theorem ordered_admission_is_replay w rs reserve_ms :
  Forall report_ok rs -> 0 <= reserve_ms ->
  let costs := episode_costs rs in
  let answer := observed_ordered_admission (episode (window_reset w) rs) reserve_ms in
  (costs = [] -> answer = None)
  /\ (costs <> [] -> exists a, answer = Some a
       /\ (admitted a = true ->
            exists left, replay (reserve_ms * 1000) costs = Some left /\ reserve_ms * 1000 <= left)
       /\ (~ overflows costs ->
            (ad_sustainable a = true <-> sum_acquisition costs <= sum_duration costs)
            /\ (is_i64 (reserve_ms * 1000) ->
                 ad_survivable a = true <-> is_Some (replay (reserve_ms * 1000) costs)))
       /\ (overflows costs -> ad_sustainable a = false /\ ad_survivable a = false)
       /\ (~ is_i64 (reserve_ms * 1000) -> ad_survivable a = false)).
Proof.
  intros Hrs Hres l answer. destruct (episode_summary w rs Hrs) as [Hm Hok].
  destruct (summary_admission_spec _ l reserve_ms true Hm Hok) as [Hnil Hne].
  split; [exact Hnil|]. intros E. destruct (Hne E) as (a & Ha & _ & Hsus & Hsur & Hex).
  exists a. split; [exact Ha|].
  destruct (summary_admission_refuses _ _ _ _ _ Hm Hok Ha) as [Hover Hbig].
  pose proof (replay_ordered_runway l (reserve_ms * 1000) Hok) as Hrep. split_and!; [|..|done|done].
  - intros [H1 H2]%andb_true_iff. specialize (Hsus H1). specialize (Hsur H2).
    destruct (proj2 Hrep (or_intror Hsur)) as [left Hleft]. exists left. split; [done|].
    apply replay_total in Hleft. lia.
  - intros Hno. destruct (Hex Hno) as (_ & H1 & H2). split; [done|]. intros Hi.
    rewrite (H2 Hi), Hrep. intuition.
Qed.

(** The reserve exploration may spend is what is above the worst replay: an unordered
    admission survives every permutation of the acquisitions seen, and it is not conservative,
    since a reserve it calls short really fails some permutation. *)
Theorem stress_admission_is_worst_order w rs reserve_ms a :
  Forall report_ok rs -> 0 <= reserve_ms ->
  observed_admission (episode (window_reset w) rs) reserve_ms = Some a ->
  (ad_survivable a = true ->
     forall l, l ≡ₚ episode_costs rs -> is_Some (replay (reserve_ms * 1000) l))
  /\ (~ overflows (episode_costs rs) -> is_i64 (reserve_ms * 1000) -> ad_survivable a = false ->
      exists l, l ≡ₚ episode_costs rs /\ replay (reserve_ms * 1000) l = None).
Proof.
  intros Hrs Hres Ha. destruct (episode_summary w rs Hrs) as [Hm Hok].
  set (l := episode_costs rs) in *.
  destruct (summary_admission_spec _ l reserve_ms false Hm Hok) as [Hnil Hne].
  unfold observed_admission in Ha.
  destruct (decide (l = [])) as [E|E]; [rewrite (Hnil E) in Ha; done|].
  destruct (Hne E) as (a' & Ha' & _ & _ & Hsur & Hex). rewrite Ha' in Ha. injection Ha as ->.
  split.
  - intros Hs l' Hp. assert (costs_ok l') as Hok' by (unfold costs_ok; by rewrite Hp).
    apply replay_ordered_runway; [done|]. right.
    pose proof (stress_covers_every_order l' Hok') as Hc.
    rewrite (stress_runway_perm _ _ Hp) in Hc. specialize (Hsur Hs). lia.
  - intros Hno Hi Hs. destruct (Hex Hno) as (_ & _ & H2). destruct (stress_attained l Hok) as (l' & Hp & Heq).
    exists l'. split; [done|]. assert (costs_ok l') as Hok' by (unfold costs_ok; by rewrite Hp).
    destruct (replay (reserve_ms * 1000) l') eqn:Er; [|done]. exfalso.
    destruct (proj1 (replay_ordered_runway l' (reserve_ms * 1000) Hok')) as [->|Hle]; [by eexists| |].
    + by apply Permutation_nil in Hp.
    + rewrite Heq in Hle. apply (H2 Hi) in Hle. congruence.
Qed.

(** The summary is an exact associative fold: however an episode is cut, combining the parts'
    summaries gives the same totals and the same verdict, and a summary only gives up (and then
    refuses everything) when a total really does not fit. *)
Theorem combine_is_associative l1 l2 l3 s1 s2 s3 :
  costs_ok l1 -> costs_ok l2 -> costs_ok l3 ->
  summary_models s1 l1 -> summary_models s2 l2 -> summary_models s3 l3 ->
  let left := combine (combine s1 s2) s3 in
  let right := combine s1 (combine s2 s3) in
  summary_models left (l1 ++ l2 ++ l3)
  /\ as_overflowed left = as_overflowed right
  /\ forall reserve_ms ordered,
       summary_admission left reserve_ms ordered = summary_admission right reserve_ms ordered.
Proof.
  intros O1 O2 O3 M1 M2 M3 left right.
  assert (costs_ok (l1 ++ l2)) as O12 by (by apply Forall_app).
  assert (costs_ok (l2 ++ l3)) as O23 by (by apply Forall_app).
  assert (summary_models left (l1 ++ l2 ++ l3)) as ML.
  { rewrite app_assoc. apply combine_models; [done..| |done]. by apply combine_models. }
  assert (summary_models right (l1 ++ l2 ++ l3)) as MR.
  { apply combine_models; [done..|]. by apply combine_models. }
  clearbody left right. destruct ML as (Ln & Lo & Lx), MR as (Rn & Ro & Rx).
  assert (as_overflowed left = as_overflowed right) as Eo.
  { destruct (as_overflowed left), (as_overflowed right); try done.
    - by destruct (Rx eq_refl) as [[] _]; apply Lo.
    - by destruct (Lx eq_refl) as [[] _]; apply Ro. }
  split; [by split|]. split; [done|]. intros reserve_ms ordered.
  unfold summary_admission, conservative_refusal, stress_runway_us. rewrite Ln, Rn, Eo.
  destruct (as_overflowed right); [done|].
  destruct (Lx Eo) as (_ & L1 & L2 & L3 & L4 & L5 & L6), (Rx eq_refl) as (_ & R1 & R2 & R3 & R4 & R5 & R6).
  by rewrite L1, L2, L3, L4, L5, L6, R1, R2, R3, R4, R5, R6.
Qed.
