(* ===== verification/Ladder.v ===== *)
(** * The quality ladder

    [media/src/abr/ladder.rs]: the thirteen rungs, what a master playlist declared, and the
    catalog's candidates.  The catalog itself is in [Catalog.v]. *)

From S2P Require Import Prelude Vocabulary.

(** ** Rungs *)

Inductive Rung :=
| P240 | P480 | P720Low | P720 | P1080M6 | P1080 | P1080M10 | P1080M12 | P1080M14 | P1080M16
| P1080M18 | P1080High | Uhd.
#[export] Instance Rung_eq_dec : EqDecision Rung.
Proof. solve_decision. Defined.

Definition LADDER : list Rung :=
  [P240; P480; P720Low; P720; P1080M6; P1080; P1080M10; P1080M12; P1080M14; P1080M16;
   P1080M18; P1080High; Uhd].

Definition PIN_MIN_RESERVE_SEGMENTS : Z := 6.
Definition PIN_MIN_RESERVE_SEGMENTS_DOWN : Z := 2.

Definition kbps (r : Rung) : Z :=
  match r with
  | P240 => 320
  | P480 => 720
  | P720Low => 2000
  | P720 => 4000
  | P1080M6 => 6000
  | P1080 => 8000
  | P1080M10 => 10000
  | P1080M12 => 12000
  | P1080M14 => 14000
  | P1080M16 => 16000
  | P1080M18 => 18000
  | P1080High => 20000
  | Uhd => 22000
  end.

Definition size_spread_pm (r : Rung) : Z :=
  match r with P240 => 1577 | P480 => 1418 | P720Low => 1040 | _ => 893 end.

Definition raster (r : Rung) : Z * Z :=
  match r with
  | P240 => (426, 240)
  | P480 => (854, 480)
  | P720Low | P720 => (1280, 720)
  | P1080M6 | P1080 | P1080M10 | P1080M12 | P1080M14 | P1080M16 | P1080M18 | P1080High =>
      (1920, 1080)
  | Uhd => (3840, 2160)
  end.

(** [plx_plex::plex::Ceiling]. *)
Record Ceiling := mk_ceiling { max_kbps : Z; max_w : Z; max_h : Z }.
#[export] Instance Ceiling_eq_dec : EqDecision Ceiling.
Proof. solve_decision. Defined.

Definition from_request_kbps (request : Z) : option Rung :=
  snd <$> list_find (fun r => kbps r = request) LADDER.

Definition ceiling (r : Rung) : Ceiling :=
  mk_ceiling (kbps r) (fst (raster r)) (snd (raster r)).

Definition from_ceiling (c : Ceiling) : option Rung :=
  snd <$> list_find (fun r => ceiling r = c) LADDER.

Definition index (r : Rung) : nat :=
  match list_find (fun r' => r' = r) LADDER with Some (i, _) => i | None => 0 end.

#[export] Instance Rung_inhabited : Inhabited Rung := populate P240.

Definition below (r : Rung) : Rung := LADDER !!! (index r - 1)%nat.

Definition at_floor (r : Rung) : bool := bool_decide (below r = r).

(** The derived [Ord]: declaration order. *)
Definition rung_lt (a b : Rung) : bool := (index a <? index b)%nat.
Definition rung_le (a b : Rung) : bool := (index a <=? index b)%nat.
Definition rung_key (r : Rung) : Z := Z.of_nat (index r).

(** ** What PMS declared *)

Record ObservedHlsVariant := mk_variant { declared_bps : Z; variant_width : Z; variant_height : Z }.
#[export] Instance ObservedHlsVariant_eq_dec : EqDecision ObservedHlsVariant.
Proof. solve_decision. Defined.

Definition variant_new (declared_bps width height : Z) : option ObservedHlsVariant :=
  width ← u16_checked width;
  width ← (if 0 <? width then Some width else None);
  height ← u16_checked height;
  height ← (if 0 <? height then Some height else None);
  if 0 <? declared_bps then Some (mk_variant declared_bps width height) else None.

Definition strictly_dominates (self other : ObservedHlsVariant) : bool :=
  (variant_width other <=? variant_width self)
  && (variant_height other <=? variant_height self)
  && (declared_bps other <=? declared_bps self)
  && ((variant_width other <? variant_width self)
      || (variant_height other <? variant_height self)
      || (declared_bps other <? declared_bps self)).

Definition definitively_underfills (self : ObservedHlsVariant) (rung : Rung) (source : Z * Z)
  : bool :=
  if (fst source =? 0) || (snd source =? 0) then false
  else
    let bounds := raster rung in
    if (fst source <=? fst bounds) && (snd source <=? snd bounds)
    then (variant_width self <? fst source) || (variant_height self <? snd source)
    else (variant_width self <? fst bounds) && (variant_height self <? snd bounds).

(** ** Candidates *)

Record HlsCandidate := mk_candidate {
  cd_rung : Rung;
  cd_request_kbps : Z;
  cd_expected_wire_kbps : Z;
  cd_production_load_pm : Z
}.
#[export] Instance HlsCandidate_eq_dec : EqDecision HlsCandidate.
Proof. solve_decision. Defined.

(** ** Properties *)

Lemma rung_in_ladder r : r ∈ LADDER.
Proof. by destruct r; vm_compute; repeat constructor. Qed.

Lemma index_range r : (index r < 13)%nat.
Proof. destruct r; vm_compute; lia. Qed.

Lemma ladder_index r : LADDER !! index r = Some r.
Proof. by destruct r. Qed.

Lemma index_inj a b : index a = index b -> a = b.
Proof. intros H. pose proof (ladder_index a). rewrite H, ladder_index in *. congruence. Qed.

Lemma kbps_monotone a b : rung_lt a b = (kbps a <? kbps b).
Proof. by destruct a, b. Qed.

Lemma kbps_range r : 320 <= kbps r <= 22000.
Proof. destruct r; cbn; lia. Qed.

#[export] Hint Resolve rung_in_ladder index_range kbps_range : plx.

Lemma rung_lt_irrefl r : rung_lt r r = false.
Proof. apply Nat.ltb_irrefl. Qed.

Lemma rung_lt_key a b : rung_lt a b = (rung_key a <? rung_key b).
Proof. unfold rung_lt, rung_key. by destruct a, b. Qed.

(** The rate PMS was asked for, and the ceiling a rung became on the wire, both name exactly the
    rung they came from; stepping down moves one rung until the floor, and dominance is a strict
    order on declared pictures. *)
Theorem ladder_round_trips r :
  from_request_kbps (kbps r) = Some r
  /\ from_ceiling (ceiling r) = Some r
  /\ (forall k r', from_request_kbps k = Some r' -> kbps r' = k)
  /\ (forall c r', from_ceiling c = Some r' -> ceiling r' = c)
  /\ index (below r) = (index r - 1)%nat
  /\ (at_floor r = true <-> r = P240)
  /\ (at_floor r = false -> rung_lt (below r) r = true).
Proof.
  split; [by destruct r|]. split; [by destruct r|].
  assert (forall (P : Rung -> Prop) `{forall x, Decision (P x)} r',
            snd <$> list_find P LADDER = Some r' -> P r') as Hfind.
  { intros P ? r' H'. destruct (list_find P LADDER) as [[i x]|] eqn:E; [|done].
    apply list_find_Some in E as (_ & HP & _). by simplify_eq/=. }
  split; [by intros k r' H%Hfind|]. split; [by intros c r' H%Hfind|].
  destruct r; vm_compute; repeat split; try done; by intros.
Qed.

Lemma strictly_dominates_irrefl v : strictly_dominates v v = false.
Proof. unfold strictly_dominates. rewrite !Z.leb_refl, !Z.ltb_irrefl. done. Qed.

Lemma strictly_dominates_trans a b c :
  strictly_dominates a b = true -> strictly_dominates b c = true -> strictly_dominates a c = true.
Proof.
  unfold strictly_dominates. rewrite !andb_true_iff, !orb_true_iff, !Z.leb_le, !Z.ltb_lt. lia.
Qed.
