(* ===== verification/Plant.v ===== *)
(** * The plant: server, buffer and queues

    [media/src/abr/plant.rs]: can the server keep up, is the reserve falling, how deep can it
    get, and may a deficit be refilled at a candidate's rate. *)

From S2P Require Import Prelude Vocabulary Estimate Ladder.

(** ** Production *)

Record ProductionEstimate := mk_production {
  pe_ratio_pm : Z;
  pe_uncertainty_pm : Z;
  pe_samples : Z;
  pe_server_pm : Z
}.
Definition production_default : ProductionEstimate := mk_production 0 0 0 0.

Definition production_observe (e : ProductionEstimate) (ratio_pm load_pm : Z) (cold_start : bool)
  : ProductionEstimate :=
  let weight := if cold_start then 1 else 3 in
  let normalized := Z.min (u64_sat (ratio_pm * 1000) / Z.max load_pm 1) u32_max in
  let '(ratio, server) :=
    if pe_samples e =? 0 then (ratio_pm, normalized)
    else (weighted_mean (pe_ratio_pm e) ratio_pm weight 8,
          weighted_mean (pe_server_pm e) normalized weight 8) in
  let samples := u32_sat (pe_samples e + 1) in
  mk_production ratio
    (if samples <? 3 then 250 else if 200 <? Z.abs (ratio_pm - ratio) then 500 else 250)
    samples server.

Definition predicted_ratio_pm (e : ProductionEstimate) (candidate current : HlsCandidate)
    (policy : AbrPolicy) : option Z :=
  if pe_samples e =? 0 then None
  else if bool_decide (cd_rung candidate = cd_rung current) then Some (pe_ratio_pm e)
  else
    let overhead := Z.min (pe_ratio_pm e) (production_floor_pm policy) in
    let work := u32_wrap (pe_ratio_pm e - overhead) in
    let scaled :=
      u64_sat (work * cd_production_load_pm candidate)
      / Z.max (cd_production_load_pm current) 1 in
    Some (Z.min (u64_sat (overhead + scaled)) u32_max).

(** ** The buffer *)

Record BufferEstimate := mk_buffer {
  be_buffered_ms : Z;
  be_slope_ms_per_s : Z;
  be_last_delta_ms : Z;
  be_samples : Z;
  be_draining_samples : Z
}.
#[export] Instance eta_BufferEstimate : Eta BufferEstimate :=
  fun r => mk_buffer (be_buffered_ms r) (be_slope_ms_per_s r) (be_last_delta_ms r)
             (be_samples r) (be_draining_samples r).
Definition buffer_default : BufferEstimate := mk_buffer 0 0 0 0 0.

Definition DRAIN_EPS_MS_PER_S : Z := 50.

Definition slope_draining (slope : Z) : bool := slope <? - DRAIN_EPS_MS_PER_S.
Definition draining (e : BufferEstimate) : bool := slope_draining (be_slope_ms_per_s e).
Definition filling (e : BufferEstimate) : bool := DRAIN_EPS_MS_PER_S <? be_slope_ms_per_s e.

Definition starving (e : BufferEstimate) : bool :=
  (be_buffered_ms e <=? 2000)
  || ((be_buffered_ms e <=? 6000) && (2 <=? be_draining_samples e)).

Definition buffer_update (e : BufferEstimate) (buffered : option Z) (wall_elapsed_ms : Z)
  : BufferEstimate :=
  match buffered with
  | None => e
  | Some buffered_ms =>
      let delta := i64_wrap (buffered_ms - be_buffered_ms e) in
      let first := be_samples e =? 0 in
      let e := e <| be_last_delta_ms := if first then 0 else delta |> in
      if negb first && (wall_elapsed_ms <=? 0) then
        e <| be_last_delta_ms := 0 |> <| be_buffered_ms := buffered_ms |>
      else
        let sample_slope :=
          if first then 0 else Z.quot (i64_wrap (delta * 1000)) wall_elapsed_ms in
        let slope :=
          if be_samples e =? 0 then be_slope_ms_per_s e
          else if be_samples e =? 1 then sample_slope
          else Z.quot (i64_wrap (i64_wrap (be_slope_ms_per_s e * 3) + sample_slope)) 4 in
        let e := e <| be_slope_ms_per_s := slope |> in
        let e :=
          e <| be_draining_samples :=
                 if draining e then u32_sat (be_draining_samples e + 1) else 0 |> in
        e <| be_buffered_ms := buffered_ms |> <| be_samples := u32_sat (be_samples e + 1) |>
  end.

Definition rebase (e : BufferEstimate) : BufferEstimate :=
  e <| be_slope_ms_per_s := 0 |> <| be_last_delta_ms := 0 |> <| be_draining_samples := 0 |>
    <| be_samples := 0 |>.

Definition observed_starvation_secs (e : BufferEstimate) : option Z :=
  if negb (draining e) then None
  else Some (Z.quot (Z.max (be_buffered_ms e) 0) (- be_slope_ms_per_s e)).

(** ** Starvation *)

(** [StarvationHorizon] is its one field. *)
Definition starvation_horizon (buffer_ms requirement_kbps capacity_kbps : Z) : option Z :=
  if (requirement_kbps <=? capacity_kbps) || (requirement_kbps =? 0) then None
  else
    let deficit := requirement_kbps - capacity_kbps in
    let time_to_empty_ms := Z.quot (i64_wrap (buffer_ms * requirement_kbps)) deficit in
    u32_checked (Z.quot time_to_empty_ms 1000).

(** ** Reachable depth *)

Record PlantGeometry := mk_geometry {
  video_queue_bytes : Z;
  audio_queue_bytes : Z;
  video_lead_ms : Z;
  audio_lead_ms : Z
}.

Definition from_feed (video_queue_bytes audio_queue_bytes video_lead_ms audio_lead_ms : Z)
  : option PlantGeometry :=
  if (video_queue_bytes <=? 0) || (audio_queue_bytes <=? 0) || (video_lead_ms <? 0)
     || (audio_lead_ms <? 0)
  then None
  else Some (mk_geometry video_queue_bytes audio_queue_bytes video_lead_ms audio_lead_ms).

Definition lane_max_ms (lead_ms queue_bytes es_kbps : Z) : Z :=
  i64_sat (lead_ms + Z.min (u64_sat (queue_bytes * 8) / Z.max es_kbps 1) i64_max).

Definition b_max_est_ms (g : PlantGeometry) (video_es_kbps audio_es_kbps : Z) : Z :=
  Z.min (lane_max_ms (video_lead_ms g) (video_queue_bytes g) video_es_kbps)
        (lane_max_ms (audio_lead_ms g) (audio_queue_bytes g) audio_es_kbps).

Definition buffer_target_at_ms (g : PlantGeometry) (video_es_kbps audio_es_kbps : Z)
    (policy : AbrPolicy) : Z :=
  let reachable :=
    Z.quot (i64_sat (b_max_est_ms g video_es_kbps audio_es_kbps
                     * buffer_reserve_fraction_pm policy)) 1000 in
  Z.min (buffer_target_ms policy) reachable.

Definition refill_admits (g : PlantGeometry)
    (candidate_wire_kbps candidate_video_es_kbps audio_es_kbps buffered_ms safe_budget_kbps : Z)
    (policy : AbrPolicy) : bool :=
  let target := buffer_target_at_ms g candidate_video_es_kbps audio_es_kbps policy in
  let deficit := Z.max (i64_wrap (target - buffered_ms)) 0 in
  let horizon := Z.max (buffer_refill_horizon_ms policy) 1 in
  let r_max := Z.quot (i64_sat (safe_budget_kbps * horizon)) (i64_sat (horizon + deficit)) in
  candidate_wire_kbps <=? r_max.

(** ** Well-formedness *)

Record production_wf (e : ProductionEstimate) : Prop := {
  pwf_ratio : is_u32 (pe_ratio_pm e);
  pwf_unc : 0 <= pe_uncertainty_pm e <= 500;
  pwf_samples : is_u32 (pe_samples e);
  pwf_server : is_u32 (pe_server_pm e)
}.

(** A reserve no playback reaches (an hour short of 36000 years); below it the slope's integer
    arithmetic is exact. *)
Definition RESERVE_BOUND_MS : Z := 1000000000000000.

Record buffer_wf (e : BufferEstimate) : Prop := {
  bwf_buffered : 0 <= be_buffered_ms e <= RESERVE_BOUND_MS;
  bwf_slope : Z.abs (be_slope_ms_per_s e) <= RESERVE_BOUND_MS * 1000;
  bwf_samples : is_u32 (be_samples e);
  bwf_draining : is_u32 (be_draining_samples e)
}.

Record geometry_wf (g : PlantGeometry) : Prop := {
  gwf_vq : 0 < video_queue_bytes g <= i64_max;
  gwf_aq : 0 < audio_queue_bytes g <= i64_max;
  gwf_vl : 0 <= video_lead_ms g <= i64_max;
  gwf_al : 0 <= audio_lead_ms g <= i64_max
}.

Lemma production_default_wf : production_wf production_default.
Proof. split; cbn; ints. Qed.
Lemma buffer_default_wf : buffer_wf buffer_default.
Proof. split; cbn; unfold RESERVE_BOUND_MS; ints. Qed.

Lemma from_feed_wf vq aq vl al g :
  is_i64 vq -> is_i64 aq -> is_i64 vl -> is_i64 al ->
  from_feed vq aq vl al = Some g -> geometry_wf g.
Proof.
  intros ? ? ? ?. unfold from_feed. bools; intros; simplify_eq; split; cbn; ints.
Qed.

Lemma production_observe_wf e ratio load cold :
  production_wf e -> is_u32 ratio -> is_u32 load ->
  production_wf (production_observe e ratio load cold).
Proof.
  intros [Hr Hu Hn Hs] Hratio Hload. unfold production_observe.
  set (normalized := Z.min _ u32_max).
  assert (is_u32 normalized).
  { subst normalized. pose proof (Z.div_pos (u64_sat (ratio * 1000)) (Z.max load 1)). ints. }
  clearbody normalized. set (w := if cold then 1 else 3).
  assert (0 <= w <= 8) by (subst w; destruct cold; lia).
  destruct (pe_samples e =? 0); split; cbn; try done; try apply u32_sat_range;
    try (apply weighted_mean_u32; done || lia); repeat case_match; lia.
Qed.

Lemma quot_4_hull a b M :
  Z.abs a <= M -> Z.abs b <= M -> Z.abs (Z.quot (a * 3 + b) 4) <= M.
Proof.
  intros Ha Hb. rewrite <- Z.quot_abs by lia. change (Z.abs 4) with 4.
  rewrite Z.quot_div_nonneg by lia. apply Z.div_le_upper_bound; lia.
Qed.

Lemma quot_abs_le a b : 0 < b -> Z.abs (Z.quot a b) <= Z.abs a.
Proof.
  intros Hb. rewrite <- Z.quot_abs by lia. rewrite Z.quot_div_nonneg by lia.
  apply Z.div_le_upper_bound; [lia|]. nia.
Qed.

(** The slope the next observation leaves, in exact arithmetic. *)
Definition slope_after (e : BufferEstimate) (buffered wall : Z) : Z :=
  let sample := Z.quot ((buffered - be_buffered_ms e) * 1000) wall in
  if be_samples e =? 0 then be_slope_ms_per_s e
  else if be_samples e =? 1 then sample
  else Z.quot (be_slope_ms_per_s e * 3 + sample) 4.

Lemma buffer_update_exact e buffered wall :
  buffer_wf e -> 0 <= buffered <= RESERVE_BOUND_MS -> be_samples e = 0 \/ 0 < wall ->
  buffer_update e (Some buffered) wall
  = mk_buffer buffered (slope_after e buffered wall)
      (if be_samples e =? 0 then 0 else buffered - be_buffered_ms e)
      (u32_sat (be_samples e + 1))
      (if slope_draining (slope_after e buffered wall)
       then u32_sat (be_draining_samples e + 1) else 0).
Proof.
  intros [Hb Hs Hn Hd] Hbuf Hw. destruct e as [b0 s0 d0 n0 dr0].
  unfold RESERVE_BOUND_MS in *. unfold buffer_update, slope_after, draining, update.
  cbn [be_buffered_ms be_slope_ms_per_s be_samples be_draining_samples be_last_delta_ms] in *.
  rewrite (i64_wrap_small (buffered - b0)) by ints.
  rewrite (i64_wrap_small ((buffered - b0) * 1000)) by ints.
  rewrite (i64_wrap_small (s0 * 3)) by ints.
  destruct (Z.eqb_spec n0 0) as [->|E]; cbn [negb andb]; [reflexivity|].
  destruct (Z.leb_spec wall 0); [lia|].
  pose proof (quot_abs_le ((buffered - b0) * 1000) wall).
  rewrite (i64_wrap_small (s0 * 3 + _)) by ints. reflexivity.
Qed.

Lemma slope_after_hull e buffered wall :
  buffer_wf e -> 0 <= buffered <= RESERVE_BOUND_MS -> be_samples e = 0 \/ 0 < wall ->
  Z.abs (slope_after e buffered wall) <= RESERVE_BOUND_MS * 1000.
Proof.
  intros [Hb Hs Hn Hd] Hbuf Hw. unfold slope_after.
  destruct (Z.eqb_spec (be_samples e) 0); [done|].
  pose proof (quot_abs_le ((buffered - be_buffered_ms e) * 1000) wall).
  destruct (be_samples e =? 1); [lia|]. apply quot_4_hull; lia.
Qed.

Lemma buffer_update_wf e buffered wall :
  buffer_wf e -> (forall b, buffered = Some b -> 0 <= b <= RESERVE_BOUND_MS) ->
  buffer_wf (buffer_update e buffered wall).
Proof.
  intros He Hb. destruct buffered as [b|]; [|done]. specialize (Hb b eq_refl).
  destruct (decide (be_samples e = 0 \/ 0 < wall)) as [Hw|Hw].
  - rewrite buffer_update_exact by done. pose proof (slope_after_hull e b wall He Hb Hw).
    destruct He as [? ? ? ?]. split; cbn; try done; try apply u32_sat_range.
    destruct (slope_draining _); [apply u32_sat_range|ints].
  - unfold buffer_update. destruct (Z.eqb_spec (be_samples e) 0); [lia|].
    destruct (Z.leb_spec wall 0); [|lia]. destruct He as [? ? ? ?]. split; cbn; done.
Qed.

Lemma rebase_wf e : buffer_wf e -> buffer_wf (rebase e).
Proof. intros [? ? ? ?]. split; cbn; try done; unfold RESERVE_BOUND_MS; ints. Qed.

#[export] Hint Resolve production_default_wf buffer_default_wf production_observe_wf
  buffer_update_wf rebase_wf : plx.

Lemma lane_max_nonneg lead bytes es : 0 <= lead -> 0 <= bytes -> 0 <= lane_max_ms lead bytes es.
Proof.
  intros Hl Hb. unfold lane_max_ms.
  assert (0 <= u64_sat (bytes * 8) / Z.max es 1) as Hq by (apply Z.div_pos; [ints|lia]).
  set (q := u64_sat _ / _) in *. clearbody q. ints.
Qed.

Lemma i64_sat_nonneg z : 0 <= z -> 0 <= i64_sat z.
Proof. ints. Qed.

Lemma buffer_target_range g video audio policy :
  geometry_wf g -> 0 <= buffer_target_ms policy <= RESERVE_BOUND_MS ->
  0 <= buffer_reserve_fraction_pm policy ->
  0 <= buffer_target_at_ms g video audio policy <= RESERVE_BOUND_MS.
Proof.
  intros [? ? ? ?] Ht Hf. unfold buffer_target_at_ms, b_max_est_ms.
  pose proof (lane_max_nonneg (video_lead_ms g) (video_queue_bytes g) video ltac:(lia) ltac:(lia)).
  pose proof (lane_max_nonneg (audio_lead_ms g) (audio_queue_bytes g) audio ltac:(lia) ltac:(lia)).
  set (reach := Z.min (lane_max_ms _ _ _) _). assert (0 <= reach) by (subst reach; lia). clearbody reach.
  assert (0 <= reach * buffer_reserve_fraction_pm policy) as Hp
    by (apply Z.mul_nonneg_nonneg; lia).
  pose proof (i64_sat_nonneg _ Hp) as Hs.
  set (s := i64_sat _) in *. clearbody s.
  rewrite Z.quot_div_nonneg by lia. pose proof (Z.div_pos s 1000). lia.
Qed.

(** ** Properties *)

(** The slope never leaves the hull of what was measured: the first interval stands alone, and
    each later one moves the slope at most to a weighted mean of itself and the history, so a
    reserve sampled once a second that moves by at most [M] leaves a slope of at most
    [1000 * M]. *)
Theorem slope_hull e buffered wall M :
  buffer_wf e -> 0 <= buffered <= RESERVE_BOUND_MS -> 1000 <= wall ->
  Z.abs (be_slope_ms_per_s e) <= M -> Z.abs (buffered - be_buffered_ms e) <= M ->
  let e' := buffer_update e (Some buffered) wall in
  be_buffered_ms e' = buffered
  /\ be_samples e' = Z.min u32_max (be_samples e + 1)
  /\ Z.abs (be_slope_ms_per_s e') <= M
  /\ (be_samples e = 0 -> be_slope_ms_per_s e' = be_slope_ms_per_s e)
  /\ (draining e' = false -> be_draining_samples e' = 0).
Proof.
  intros He Hb Hw Hs HM e'. subst e'. rewrite buffer_update_exact by (done || lia).
  unfold draining. cbn. pose proof He as [_ _ Hn _].
  assert (Z.abs (Z.quot ((buffered - be_buffered_ms e) * 1000) wall) <= M) as Hq.
  { rewrite <- Z.quot_abs by lia. rewrite Z.quot_div_nonneg by lia.
    apply Z.div_le_upper_bound; [lia|]. nia. }
  split_and!; [done|ints| |intros E|by intros ->].
  - unfold slope_after. destruct (be_samples e =? 0); [done|].
    destruct (be_samples e =? 1); [done|]. by apply quot_4_hull.
  - unfold slope_after. by rewrite E.
Qed.

(** The horizon is the whole number of seconds until the reserve runs out at the current
    deficit, and no horizon is stated exactly when the capacity covers the requirement or the
    number does not fit. *)
Theorem starvation_horizon_exact buffer requirement capacity :
  0 <= buffer <= RESERVE_BOUND_MS / 1000000 -> is_u32 requirement -> is_u32 capacity ->
  let deficit := requirement - capacity in
  match starvation_horizon buffer requirement capacity with
  | Some s => 0 < deficit /\ s * 1000 * deficit <= buffer * requirement < (s + 1) * 1000 * deficit
  | None => deficit <= 0 \/ (u32_max + 1) * 1000 * deficit <= buffer * requirement
  end.
Proof.
  intros Hb Hr Hc deficit. unfold starvation_horizon. fold deficit.
  change (RESERVE_BOUND_MS / 1000000) with 1000000000 in Hb.
  destruct (Z.leb_spec requirement capacity) as [?|Hlt]; cbn [orb]; [left; subst deficit; lia|].
  destruct (Z.eqb_spec requirement 0); [ints|].
  pose proof (mul_bound buffer requirement 1000000000 u32_max Hb Hr) as Hp.
  rewrite (i64_wrap_small (buffer * requirement)) by ints.
  assert (0 < deficit) by (subst deficit; lia). clearbody deficit.
  rewrite (Z.quot_div_nonneg (buffer * requirement)) by lia.
  rewrite Z.quot_div_nonneg by (try apply Z.div_pos; lia).
  rewrite Z.div_div, (Z.mul_comm deficit 1000) by lia.
  destruct Hp as [Hp _].
  destruct (u32_checked _) as [s|] eqn:E.
  - apply checked_Some in E as [-> E]. split; [done|].
    rewrite <- !Z.mul_assoc. split; [apply le_div_iff|apply div_lt_iff]; lia.
  - apply checked_None in E. right. rewrite <- Z.mul_assoc. apply le_div_iff; [lia|].
    pose proof (Z.div_pos (buffer * requirement) (1000 * deficit)). ints.
Qed.

(** A deficit may be refilled at a candidate's rate exactly when the horizon's worth of budget
    carries the horizon and the deficit together; a shallower reserve, a dearer wire or a
    smaller budget never turns a refusal into an admission. *)
Theorem refill_admits_exact g wire video audio buffered safe policy :
  is_u32 wire -> is_u32 safe -> 0 <= buffered <= RESERVE_BOUND_MS ->
  0 < buffer_refill_horizon_ms policy <= i32_max ->
  geometry_wf g -> 0 <= buffer_target_ms policy <= RESERVE_BOUND_MS ->
  0 <= buffer_reserve_fraction_pm policy ->
  let horizon := buffer_refill_horizon_ms policy in
  let deficit := Z.max (buffer_target_at_ms g video audio policy - buffered) 0 in
  refill_admits g wire video audio buffered safe policy = true
  <-> wire * (horizon + deficit) <= safe * horizon.
Proof.
  intros Hw Hs Hb Hh Hg Htgt Hf horizon deficit. unfold refill_admits. fold horizon.
  pose proof (buffer_target_range g video audio policy Hg Htgt Hf) as Ht.
  set (target := buffer_target_at_ms g video audio policy) in *. clearbody target.
  unfold RESERVE_BOUND_MS in *.
  rewrite (i64_wrap_small (target - buffered)) by ints. fold deficit.
  rewrite (Z.max_l horizon 1) by (subst horizon; lia).
  pose proof (mul_bound safe horizon u32_max i32_max Hs ltac:(subst horizon; lia)).
  rewrite (i64_sat_small (horizon + deficit)) by (subst horizon deficit; ints).
  assert (0 <= deficit) by (subst deficit; lia). assert (0 < horizon) by (subst horizon; lia).
  clearbody horizon deficit.
  rewrite (i64_sat_small (safe * horizon)) by ints.
  rewrite Z.quot_div_nonneg by ints. rewrite Z.leb_le, le_div_iff by lia. lia.
Qed.
