(* ===== verification/Catalog.v ===== *)
(** * The actuator catalog

    [media/src/abr/ladder.rs], [HlsActuatorCatalog]: the thirteen measured operating points, the
    feasibility bounds of one playback (device and source raster), and the selections made from
    what is feasible. *)

From S2P Require Import Prelude Vocabulary Ladder Plant.

Record HlsActuatorCatalog := mk_catalog {
  cat_candidates : list HlsCandidate;
  cat_raster_limit : Z * Z;
  cat_source : Z * Z;
  cat_plant_geometry : option PlantGeometry
}.
#[export] Instance eta_HlsActuatorCatalog : Eta HlsActuatorCatalog :=
  fun r => mk_catalog (cat_candidates r) (cat_raster_limit r) (cat_source r)
             (cat_plant_geometry r).

Definition point (rung : Rung) (expected_wire_kbps production_load_pm : Z) : HlsCandidate :=
  mk_candidate rung (kbps rung) expected_wire_kbps production_load_pm.

Definition measured_points : list HlsCandidate :=
  [point P240 320 90; point P480 720 180; point P720Low 2000 300; point P720 4000 450;
   point P1080M6 6000 350; point P1080 8000 930; point P1080M10 10000 950;
   point P1080M12 12000 970; point P1080M14 14000 980; point P1080M16 16000 990;
   point P1080M18 18000 995; point P1080High 20011 1000; point Uhd 20895 2100].

Definition catalog_measured : HlsActuatorCatalog :=
  mk_catalog measured_points (u16_max, u16_max) (0, 0) None.

Definition with_plant_geometry (self : HlsActuatorCatalog) (geometry : option PlantGeometry)
  : HlsActuatorCatalog :=
  self <| cat_plant_geometry := geometry |>.

Definition source_raster (self : HlsActuatorCatalog) : Z * Z := cat_source self.

Definition axis (value : Z) : Z := if value =? 0 then u16_max else value.

Definition limited_to (self : HlsActuatorCatalog) (device source : Z * Z) : HlsActuatorCatalog :=
  self <| cat_raster_limit := (axis (fst device), axis (snd device)) |>
       <| cat_source := source |>.

Definition decodable (self : HlsActuatorCatalog) (candidate : HlsCandidate) : bool :=
  let '(width, height) := raster (cd_rung candidate) in
  (width <=? fst (cat_raster_limit self)) && (height <=? snd (cat_raster_limit self)).

Definition covers_source (self : HlsActuatorCatalog) (candidate : HlsCandidate) : bool :=
  let '(width, height) := raster (cd_rung candidate) in
  (0 <? fst (cat_source self)) && (0 <? snd (cat_source self))
  && (fst (cat_source self) <=? width) && (snd (cat_source self) <=? height).

(** The closure's [strictly_smaller]. *)
Definition strictly_smaller (other this : Rung) : bool :=
  let '(width, height) := raster this in
  let '(other_w, other_h) := raster other in
  (other_w <=? width) && (other_h <=? height) && ((other_w <? width) || (other_h <? height)).

Definition admits (self : HlsActuatorCatalog) (candidate : HlsCandidate) : bool :=
  if negb (decodable self candidate) then false
  else if negb (covers_source self candidate) then true
  else
    negb (existsb
            (fun other =>
               strictly_smaller (cd_rung other) (cd_rung candidate)
               && decodable self other && covers_source self other)
            (cat_candidates self)).

Definition feasible (self : HlsActuatorCatalog) : list HlsCandidate :=
  List.filter (admits self) (cat_candidates self).

Definition widest_feasible_raster (self : HlsActuatorCatalog) : Z * Z :=
  fold_left
    (fun acc c =>
       let '(w, h) := raster (cd_rung c) in (Z.max (fst acc) w, Z.max (snd acc) h))
    (feasible self) (0, 0).

Definition candidate (self : HlsActuatorCatalog) (rung : Rung) : HlsCandidate :=
  match List.find (fun c => bool_decide (cd_rung c = rung)) (cat_candidates self) with
  | Some c => c
  | None => mk_candidate rung (kbps rung) (kbps rung) 1000
  end.

Definition best_for_budget (self : HlsActuatorCatalog) (safe_budget_kbps : Z)
  : option HlsCandidate :=
  max_by_key cd_expected_wire_kbps
    (List.filter (fun c => cd_expected_wire_kbps c <=? safe_budget_kbps) (feasible self)).

Definition modeled_sustainable (self : HlsActuatorCatalog) (c : HlsCandidate)
    (safe_budget_kbps : Z) (policy : AbrPolicy) (buffered_ms : Z) : bool :=
  match cat_plant_geometry self with
  | None => false
  | Some geometry =>
      (cd_expected_wire_kbps c <=? safe_budget_kbps)
      && (let video_es := u32_sat (cd_expected_wire_kbps c - assumed_audio_kbps policy) in
          refill_admits geometry (cd_expected_wire_kbps c) video_es (assumed_audio_kbps policy)
            buffered_ms safe_budget_kbps policy)
  end.

Definition best_sustainable (self : HlsActuatorCatalog) (safe_budget_kbps : Z)
    (policy : AbrPolicy) (buffered_ms : Z) : option HlsCandidate :=
  max_by_key cd_expected_wire_kbps
    (List.filter (fun c => modeled_sustainable self c safe_budget_kbps policy buffered_ms)
       (feasible self)).

(** ** Well-formedness: the points are the measured ones, the bounds are [u16] pairs. *)

Record catalog_wf (cat : HlsActuatorCatalog) : Prop := {
  catwf_points : cat_candidates cat = measured_points;
  catwf_limit : is_u16 (fst (cat_raster_limit cat)) /\ is_u16 (snd (cat_raster_limit cat));
  catwf_source : is_u16 (fst (cat_source cat)) /\ is_u16 (snd (cat_source cat));
  catwf_geometry : forall g, cat_plant_geometry cat = Some g -> geometry_wf g
}.

Lemma catalog_measured_wf : catalog_wf catalog_measured.
Proof. split; cbn; [done|unfold_ints; lia|unfold_ints; lia|done]. Qed.

Lemma limited_to_wf cat device source :
  catalog_wf cat -> is_u16 (fst device) -> is_u16 (snd device) ->
  is_u16 (fst source) -> is_u16 (snd source) -> catalog_wf (limited_to cat device source).
Proof.
  intros [? ? ? ?] ? ? ? ?. split; cbn; try done. unfold axis. split; bools; ints.
Qed.

Lemma with_plant_geometry_wf cat g :
  catalog_wf cat -> (forall g', g = Some g' -> geometry_wf g') ->
  catalog_wf (with_plant_geometry cat g).
Proof. intros [? ? ? ?] ?. split; cbn; done. Qed.

#[export] Hint Resolve catalog_measured_wf limited_to_wf with_plant_geometry_wf : plx.

(** ** Lemmas *)

Lemma elem_of_filterb {A} (f : A -> bool) l x :
  x ∈ List.filter f l <-> x ∈ l /\ f x = true.
Proof. rewrite !list_elem_of_In. apply filter_In. Qed.

Lemma feasible_spec cat c :
  c ∈ feasible cat <-> c ∈ cat_candidates cat /\ admits cat c = true.
Proof. apply elem_of_filterb. Qed.

Lemma admits_spec cat c :
  admits cat c = true
  <-> decodable cat c = true
      /\ (covers_source cat c = true ->
          forall other, other ∈ cat_candidates cat -> decodable cat other = true ->
            covers_source cat other = true ->
            strictly_smaller (cd_rung other) (cd_rung c) = false).
Proof.
  unfold admits. destruct (decodable cat c); cbn [negb]; [|split; [done|by intros [? _]]].
  destruct (covers_source cat c); cbn [negb]; [|split; [done|by intros _]].
  rewrite negb_true_iff, <- not_true_iff_false, existsb_exists. split.
  - intros Hn. split; [done|]. intros _ other Hin Hd Hc.
    apply not_true_iff_false. intros Hs. apply Hn. exists other.
    rewrite list_elem_of_In in Hin. by rewrite Hs, Hd, Hc.
  - intros [_ H] (other & Hin & Hx). rewrite !andb_true_iff in Hx. destruct Hx as [[Hs Hd] Hc].
    rewrite <- list_elem_of_In in Hin. rewrite (H eq_refl other Hin Hd Hc) in Hs. done.
Qed.

Lemma measured_points_spec c :
  c ∈ measured_points ->
  cd_request_kbps c = kbps (cd_rung c) /\ 320 <= cd_expected_wire_kbps c <= 20895
  /\ 90 <= cd_production_load_pm c <= 2100.
Proof.
  unfold measured_points. rewrite !elem_of_cons, elem_of_nil.
  intros H; decompose [or] H; subst; cbn; repeat split; try lia; done.
Qed.

(** The wire calibration orders the points as the rungs are ordered. *)
Lemma measured_points_sorted a b :
  a ∈ measured_points -> b ∈ measured_points ->
  rung_lt (cd_rung a) (cd_rung b) = (cd_expected_wire_kbps a <? cd_expected_wire_kbps b).
Proof.
  intros Ha Hb. assert (forallb (fun a => forallb (fun b => Bool.eqb
      (rung_lt (cd_rung a) (cd_rung b)) (cd_expected_wire_kbps a <? cd_expected_wire_kbps b))
      measured_points) measured_points = true) as H by by vm_compute.
  rewrite forallb_forall in H. rewrite list_elem_of_In in Ha, Hb.
  specialize (H a Ha). rewrite forallb_forall in H. by apply eqb_prop, H.
Qed.

Lemma candidate_rung cat r : catalog_wf cat -> cd_rung (candidate cat r) = r.
Proof. intros [E _ _ _]. unfold candidate. rewrite E. by destruct r. Qed.

Lemma candidate_in cat r : catalog_wf cat -> candidate cat r ∈ cat_candidates cat.
Proof.
  intros [E _ _ _]. unfold candidate. rewrite E.
  destruct (find _ measured_points) eqn:F; [apply find_some in F as [F _]; by apply list_elem_of_In|].
  exfalso. assert (forallb (fun r => match List.find (fun c => bool_decide (cd_rung c = r)) measured_points
    with Some _ => true | None => false end) LADDER = true) as H by by vm_compute.
  rewrite forallb_forall in H. specialize (H r (proj1 (list_elem_of_In _ _) (rung_in_ladder r))).
  by rewrite F in H.
Qed.

Lemma feasible_points cat c : catalog_wf cat -> c ∈ feasible cat -> c ∈ measured_points.
Proof. intros [<- _ _ _] [? _]%feasible_spec. done. Qed.

Lemma candidate_wire_range cat r :
  catalog_wf cat -> 320 <= cd_expected_wire_kbps (candidate cat r) <= 20895.
Proof.
  intros H. pose proof (candidate_in cat r H) as Hin. rewrite (catwf_points _ H) in Hin.
  by apply measured_points_spec in Hin as (_ & ? & _).
Qed.

(** Two measured points with one rung are one point. *)
Lemma measured_points_inj a b :
  a ∈ measured_points -> b ∈ measured_points -> cd_rung a = cd_rung b -> a = b.
Proof.
  intros Ha Hb E. assert (forallb (fun a => forallb (fun b =>
      negb (bool_decide (cd_rung a = cd_rung b)) || bool_decide (a = b))
      measured_points) measured_points = true) as H by by vm_compute.
  rewrite forallb_forall in H. rewrite list_elem_of_In in Ha, Hb.
  specialize (H a Ha). rewrite forallb_forall in H. specialize (H b Hb).
  rewrite bool_decide_true in H by done. by apply bool_decide_eq_true in H.
Qed.

Lemma candidate_of_feasible cat c :
  catalog_wf cat -> c ∈ feasible cat -> candidate cat (cd_rung c) = c.
Proof.
  intros Hw Hc. apply measured_points_inj.
  - rewrite <- (catwf_points _ Hw). by apply candidate_in.
  - by eapply feasible_points.
  - by apply candidate_rung.
Qed.

Lemma widest_fold l : forall acc,
  let r := fold_left
    (fun acc c =>
       let '(w, h) := raster (cd_rung c) in (Z.max (fst acc) w, Z.max (snd acc) h)) l acc in
  (fst acc <= fst r /\ snd acc <= snd r)
  /\ (forall c, c ∈ l -> fst (raster (cd_rung c)) <= fst r /\ snd (raster (cd_rung c)) <= snd r)
  /\ (forall W H, fst acc <= W -> snd acc <= H ->
        (forall c, c ∈ l -> fst (raster (cd_rung c)) <= W /\ snd (raster (cd_rung c)) <= H) ->
        fst r <= W /\ snd r <= H).
Proof.
  induction l as [|c l IH]; intros acc; cbn.
  - split; [lia|]. split; [intros c Hc; by apply elem_of_nil in Hc|done].
  - destruct (raster (cd_rung c)) as [w h] eqn:E.
    destruct (IH (Z.max (fst acc) w, Z.max (snd acc) h)) as ((H1 & H2) & H3 & H4).
    cbn [fst snd] in *. split; [lia|]. split.
    + intros c' [->|Hc]%elem_of_cons; [rewrite E; cbn; lia|by apply H3].
    + intros W H HW HH Hall. pose proof (Hall c ltac:(left)) as Hc. rewrite E in Hc. cbn in Hc.
      apply H4; [lia|lia|]. intros c' Hc'. apply Hall. by right.
Qed.

Lemma max_by_key_filter {A} (f : A -> Z) (p : A -> bool) l :
  match max_by_key f (List.filter p l) with
  | Some x => x ∈ l /\ p x = true /\ forall y, y ∈ l -> p y = true -> f y <= f x
  | None => forall y, y ∈ l -> p y = false
  end.
Proof.
  destruct (max_by_key f (List.filter p l)) as [x|] eqn:E.
  - apply max_by_key_Some in E as [Hin Hmax]. apply elem_of_filterb in Hin as [? ?].
    split_and!; [done|done|]. intros y ? ?. apply Hmax. by apply elem_of_filterb.
  - apply max_by_key_None in E. intros y Hy. apply not_true_iff_false. intros Hp.
    assert (y ∈ List.filter p l) as Hf by by apply elem_of_filterb.
    rewrite E in Hf. by apply elem_of_nil in Hf.
Qed.

(** ** Properties *)

(** A rung's raster is a bounding box.  Everything feasible decodes on the device; every
    decodable box that constrains the source is kept; of the boxes that cover the source only
    the smallest decodable size is kept, all of its bitrates with it; and some actuator is
    feasible exactly when the device decodes the smallest box. *)
Theorem smallest_sufficient_box cat :
  catalog_wf cat ->
  (forall c, c ∈ feasible cat -> decodable cat c = true)
  /\ (forall c, c ∈ cat_candidates cat -> decodable cat c = true ->
      covers_source cat c = false -> c ∈ feasible cat)
  /\ (forall c d, c ∈ feasible cat -> d ∈ cat_candidates cat -> decodable cat d = true ->
      covers_source cat c = true -> covers_source cat d = true ->
      fst (raster (cd_rung c)) <= fst (raster (cd_rung d))
      /\ snd (raster (cd_rung c)) <= snd (raster (cd_rung d))
      /\ (raster (cd_rung c) = raster (cd_rung d) <-> d ∈ feasible cat))
  /\ (feasible cat <> [] <->
      426 <= fst (cat_raster_limit cat) /\ 240 <= snd (cat_raster_limit cat)).
Proof.
  intros Hw. split; [by intros c [_ [? _]%admits_spec]%feasible_spec|].
  split.
  { intros c Hin Hd Hc. apply feasible_spec. split; [done|]. apply admits_spec.
    split; [done|]. by rewrite Hc. }
  assert (forall a b : Rung, strictly_smaller b a = false ->
            fst (raster a) <= fst (raster b) /\ snd (raster a) <= snd (raster b)) as Hnest.
  { by intros [] [] H; vm_compute in H |- *. }
  split.
  - intros c d [Hcin [Hcd Hcm]%admits_spec]%feasible_spec Hd Hdd Hcc Hdc.
    pose proof (Hcm Hcc d Hd Hdd Hdc) as Hnd. pose proof (Hnest _ _ Hnd) as [Hx Hy].
    split_and!; [done|done|]. split.
    + intros E. apply feasible_spec. split; [done|]. apply admits_spec. split; [done|].
      intros _ o Ho Hod Hoc. pose proof (Hcm Hcc o Ho Hod Hoc) as Hs.
      unfold strictly_smaller in *. by rewrite <- E.
    + intros [_ [_ Hdm]%admits_spec]%feasible_spec.
      pose proof (Hnest _ _ (Hdm Hdc c Hcin Hcd Hcc)) as [? ?].
      destruct (raster (cd_rung c)), (raster (cd_rung d)); cbn in *. f_equal; lia.
  - split.
    + intros Hne. destruct (feasible cat) as [|c l] eqn:E; [done|].
      assert (c ∈ feasible cat) as Hc by (rewrite E; left).
      pose proof (proj1 (proj1 (admits_spec _ _) (proj2 (proj1 (feasible_spec _ _) Hc)))) as Hd.
      unfold decodable in Hd.
      destruct (cd_rung c); cbn in Hd; rewrite andb_true_iff, !Z.leb_le in Hd; lia.
    + intros [Hx Hy] Hnil.
      assert (candidate cat P240 ∈ feasible cat) as Hin.
      { apply feasible_spec. split; [by apply candidate_in|]. apply admits_spec.
        unfold decodable, covers_source. rewrite candidate_rung by done. cbn.
        rewrite andb_true_iff, !Z.leb_le. split; [done|].
        intros _ o _ _ _. by destruct (cd_rung o). }
      rewrite Hnil in Hin. by apply elem_of_nil in Hin.
Qed.

(** The raster declared at [Load] for an adaptive session is the tightest box around everything
    the controller may later move to, and the device decodes it. *)
Theorem widest_feasible_raster_is_declared cat :
  catalog_wf cat ->
  let '(w, h) := widest_feasible_raster cat in
  w <= fst (cat_raster_limit cat) /\ h <= snd (cat_raster_limit cat)
  /\ (forall c, c ∈ feasible cat ->
        fst (raster (cd_rung c)) <= w /\ snd (raster (cd_rung c)) <= h)
  /\ (forall W H, 0 <= W -> 0 <= H ->
        (forall c, c ∈ feasible cat ->
           fst (raster (cd_rung c)) <= W /\ snd (raster (cd_rung c)) <= H) ->
        w <= W /\ h <= H).
Proof.
  intros Hw. unfold widest_feasible_raster.
  pose proof (widest_fold (feasible cat) (0, 0)) as (Hacc & Hub & Hlub).
  destruct (fold_left _ _ _) as [w h]. cbn [fst snd] in *. destruct Hw as [_ [? ?] _ _].
  assert (w <= fst (cat_raster_limit cat) /\ h <= snd (cat_raster_limit cat)) as [? ?].
  { apply Hlub; try ints. intros c [_ [Hd _]%admits_spec]%feasible_spec.
    unfold decodable in Hd. destruct (raster (cd_rung c)).
    rewrite andb_true_iff, !Z.leb_le in Hd. cbn. lia. }
  split_and!; done.
Qed.

(** Planning picks the dearest feasible point the budget pays for, and picks nothing only when
    nothing feasible fits; asking in addition for the refill never picks a dearer one, and
    without the feed's geometry it picks nothing at all. *)
Theorem best_for_budget_is_optimal cat budget policy buffered :
  (match best_for_budget cat budget with
   | Some c =>
       c ∈ feasible cat /\ cd_expected_wire_kbps c <= budget
       /\ forall d, d ∈ feasible cat -> cd_expected_wire_kbps d <= budget ->
            cd_expected_wire_kbps d <= cd_expected_wire_kbps c
   | None => forall d, d ∈ feasible cat -> budget < cd_expected_wire_kbps d
   end)
  /\ (match best_sustainable cat budget policy buffered with
      | Some c =>
          cat_plant_geometry cat <> None
          /\ c ∈ feasible cat /\ modeled_sustainable cat c budget policy buffered = true
          /\ (exists b, best_for_budget cat budget = Some b
                /\ cd_expected_wire_kbps c <= cd_expected_wire_kbps b)
      | None => forall d, d ∈ feasible cat ->
                  modeled_sustainable cat d budget policy buffered = false
      end).
Proof.
  pose proof (max_by_key_filter cd_expected_wire_kbps
                (fun c => cd_expected_wire_kbps c <=? budget) (feasible cat)) as Hb.
  pose proof (max_by_key_filter cd_expected_wire_kbps
                (fun c => modeled_sustainable cat c budget policy buffered) (feasible cat)) as Hs.
  unfold best_for_budget, best_sustainable. split.
  - destruct (max_by_key _ (List.filter (fun c => cd_expected_wire_kbps c <=? budget) _)) as [c|].
    + destruct Hb as (? & Hle%Z.leb_le & Hmax). split_and!; [done|done|].
      intros d Hd Hle'. apply Hmax; [done|by apply Z.leb_le].
    + intros d Hd. specialize (Hb d Hd). by apply Z.leb_gt in Hb.
  - destruct (max_by_key _ (List.filter (fun c => modeled_sustainable _ _ _ _ _) _)) as [c|]; [|done].
    destruct Hs as (Hin & Hm & _).
    assert (cat_plant_geometry cat <> None /\ (cd_expected_wire_kbps c <=? budget) = true) as [? Hle].
    { unfold modeled_sustainable in Hm. destruct (cat_plant_geometry cat); [|done].
      apply andb_true_iff in Hm as [? _]. done. }
    split_and!; [done|done|done|].
    destruct (max_by_key _ (List.filter (fun c => cd_expected_wire_kbps c <=? budget) _)) as [b|].
    + destruct Hb as (_ & _ & Hmax). exists b. split; [done|]. by apply Hmax.
    + specialize (Hb c Hin). congruence.
Qed.
