(* ===== verification/Viability.v ===== *)
(** * Per-candidate viability

    [media/src/abr/viability.rs], with the transaction vocabulary of
    [media/src/abr/controller.rs] it takes as an argument: the risk every measurement reaches
    the decision through, and the time budgets of a candidate transaction. *)

From S2P Require Import Prelude Vocabulary Estimate Ladder Plant Catalog.

(** ** The transaction vocabulary *)

Inductive Direction := Down | Up.
#[export] Instance Direction_eq_dec : EqDecision Direction.
Proof. solve_decision. Defined.

Record Proposal := mk_proposal { pr_rung : Rung; pr_direction : Direction }.
#[export] Instance Proposal_eq_dec : EqDecision Proposal.
Proof. solve_decision. Defined.

Inductive ReservePolicy := Preserve | TerminalFloor.
#[export] Instance ReservePolicy_eq_dec : EqDecision ReservePolicy.
Proof. solve_decision. Defined.

(** ** Risk *)

Definition source_requirement_kbps (source_kbps : Z) (_policy : AbrPolicy) : Z := source_kbps.

Record CandidateRisk := mk_risk {
  starvation_seconds : option Z;
  risk_production_ratio_pm : option Z;
  buffer_risk : bool;
  score : Z
}.

Definition RISK_NET : Z := 40.
Definition RISK_BUFFER : Z := 30.
Definition RISK_SCORE_MAX : Z := RISK_NET + RISK_BUFFER.

(** The closure of [risk_score]. *)
Definition round_half_up (weight pm : Z) : Z := Z.quot (weight * pm + 500) 1000.

Definition risk_score (horizon_secs : option Z) (buffer_risk : bool) (policy : AbrPolicy) : Z :=
  let safe := starvation_safe_secs policy in
  let fallback := starvation_fallback_secs policy in
  let r_net_pm :=
    match horizon_secs with
    | None => 0
    | Some t =>
        if safe <=? t then 0
        else if t <=? fallback then 1000
        else Z.quot ((safe - t) * 1000) (Z.max (safe - fallback) 1)
    end in
  let score := round_half_up RISK_NET r_net_pm in
  let score := if buffer_risk then score + RISK_BUFFER else score in
  default u32_max (u32_checked score).

Definition candidate_risk (candidate current : HlsCandidate) (capacity : CapacityEstimate)
    (production : ProductionEstimate) (buffer : BufferEstimate) (policy : AbrPolicy)
  : CandidateRisk :=
  let conservative := conservative_kbps capacity in
  let horizon :=
    starvation_horizon (be_buffered_ms buffer) (cd_expected_wire_kbps candidate) conservative in
  let predicted := predicted_ratio_pm production candidate current policy in
  let buffer_risk :=
    (be_buffered_ms buffer <? emergency_buffer_ms policy)
    || (starving buffer && draining buffer) in
  mk_risk horizon predicted buffer_risk (risk_score horizon buffer_risk policy).

Definition hls_safe_budget (capacity : CapacityEstimate) : Z := conservative_kbps capacity.

(** ** Durations: [std::time::Duration] as nanoseconds *)

Definition Duration_MAX : Z := u64_max * 1000000000 + 999999999.
Definition from_millis (ms : Z) : Z := ms * 1000000.
Definition as_millis (d : Z) : Z := d / 1000000.
Definition duration_saturating_add (a b : Z) : Z := Z.min (a + b) Duration_MAX.
Definition is_duration (d : Z) : Prop := 0 <= d <= Duration_MAX.

(** ** Transaction budgets *)

Definition candidate_warmup_budget (proposal : Proposal)
    (_media_duration reserve predicted_transfer fixed_overhead : Z) : Z :=
  let cold_start :=
    match pr_direction proposal with Up => reserve | Down => Duration_MAX end in
  match pr_direction proposal with
  | Up => Z.min cold_start reserve
  | Down =>
      Z.max (Z.min cold_start reserve)
        (duration_saturating_add predicted_transfer fixed_overhead)
  end.

Definition candidate_media_reserve_deadline (proposal : Proposal) (reserve_policy : ReservePolicy)
    (rebuffering : bool) (budget : Z) : option Z :=
  let no_rollback_path := rebuffering || bool_decide (reserve_policy = TerminalFloor) in
  if negb (no_rollback_path && bool_decide (pr_direction proposal = Down)
           && at_floor (pr_rung proposal))
  then Some budget else None.

Definition predicted_transfer (target_wire_kbps media_duration capacity_kbps uncertainty_pm : Z)
  : Z :=
  if capacity_kbps =? 0 then 0
  else
    let bits := u128_sat (target_wire_kbps * as_millis media_duration) in
    let ms := bits / capacity_kbps in
    let widened := u128_sat (ms * u32_wrap (1000 + uncertainty_pm)) / 1000 in
    from_millis (default u64_max (u64_checked widened)).

Definition candidate_prime_budget (media_duration : Z) (_policy : AbrPolicy) (reserve : Z) : Z :=
  Z.min media_duration reserve.

Definition upshift_transaction_cost (_media_duration : Z) (_policy : AbrPolicy) : Z := 0.

Definition reserve_as_budget (reserve_ms : Z) : Z :=
  from_millis (default 0 (u64_checked (Z.max reserve_ms 0))).

(** ** Lemmas *)

Lemma risk_band safe fallback t :
  fallback < t < safe -> 0 <= Z.quot ((safe - t) * 1000) (Z.max (safe - fallback) 1) <= 1000.
Proof.
  intros H. rewrite Z.max_l, Z.quot_div_nonneg by lia.
  split; [apply Z.div_pos|apply Z.div_le_upper_bound]; lia.
Qed.

Lemma round_half_up_mono w a b :
  0 <= w -> 0 <= a <= b -> round_half_up w a <= round_half_up w b.
Proof.
  intros Hw Hab. unfold round_half_up. rewrite !Z.quot_div_nonneg by nia.
  apply Z.div_le_mono; nia.
Qed.

(** The share of the network weight a horizon of [t] seconds is charged, per mille. *)
Definition net_pm (policy : AbrPolicy) (t : Z) : Z :=
  if starvation_safe_secs policy <=? t then 0
  else if t <=? starvation_fallback_secs policy then 1000
  else Z.quot ((starvation_safe_secs policy - t) * 1000)
         (Z.max (starvation_safe_secs policy - starvation_fallback_secs policy) 1).

Lemma net_pm_range policy t : 0 <= net_pm policy t <= 1000.
Proof. unfold net_pm. bools; try lia. apply risk_band. lia. Qed.

Lemma net_pm_antitone policy a b : a <= b -> net_pm policy b <= net_pm policy a.
Proof.
  intros H. unfold net_pm. bools; try lia; try (apply risk_band; lia).
  rewrite !Z.max_l, !Z.quot_div_nonneg by lia. apply Z.div_le_mono; lia.
Qed.

Lemma round_net_range pm : 0 <= pm <= 1000 -> 0 <= round_half_up 40 pm <= 40.
Proof.
  intros H. unfold round_half_up. rewrite Z.quot_div_nonneg by lia.
  split; [apply Z.div_pos; lia|apply Z.lt_succ_r, div_lt_iff; lia].
Qed.

Lemma risk_score_exact policy t f :
  risk_score (Some t) f policy = round_half_up 40 (net_pm policy t) + (if f then 30 else 0).
Proof.
  pose proof (round_net_range _ (net_pm_range policy t)) as Hr.
  unfold risk_score, RISK_NET, RISK_BUFFER. fold (net_pm policy t).
  destruct f; [|rewrite Z.add_0_r];
    rewrite (proj2 (checked_Some 0 u32_max _ _)) by (split; [done|ints]); done.
Qed.

Lemma round_half_up_whole n : 0 <= n -> round_half_up 40 (25 * n) = n.
Proof.
  intros H. unfold round_half_up. rewrite Z.quot_div_nonneg by lia.
  replace (40 * (25 * n) + 500) with (500 + n * 1000) by lia. by rewrite Z.div_add by lia.
Qed.

Lemma net_pm_measured t :
  0 <= t -> net_pm policy_measured t = 25 * Z.max 0 (Z.min 40 (60 - t)).
Proof.
  intros H. unfold net_pm. change (starvation_safe_secs policy_measured) with 60.
  change (starvation_fallback_secs policy_measured) with 20.
  destruct (Z.leb_spec 60 t); [lia|]. destruct (Z.leb_spec t 20); [lia|].
  change (Z.max (60 - 20) 1) with 40. rewrite Z.quot_div_nonneg by lia.
  replace ((60 - t) * 1000) with (25 * (60 - t) * 40) by lia. rewrite Z.div_mul; lia.
Qed.

(** ** Properties *)

(** The risk a candidate is charged is bounded by the two weights, charges the reserve flag its
    whole weight whatever the horizon, never charges a longer horizon more than a shorter one,
    is zero at the safe horizon and full at the fallback one; with the shipped constants it is
    one point per second of the band, with no cliff anywhere. *)
Theorem risk_score_bounded_monotone policy h1 h2 flag :
  starvation_fallback_secs policy < starvation_safe_secs policy ->
  is_u32 h1 -> is_u32 h2 -> h1 <= h2 ->
  0 <= risk_score None flag policy <= risk_score (Some h2) flag policy
  /\ risk_score (Some h2) flag policy <= risk_score (Some h1) flag policy
  /\ risk_score (Some h1) flag policy <= RISK_SCORE_MAX
  /\ risk_score (Some h1) true policy = risk_score (Some h1) false policy + RISK_BUFFER
  /\ (starvation_safe_secs policy <= h2 -> risk_score (Some h2) false policy = 0)
  /\ (h1 <= starvation_fallback_secs policy -> risk_score (Some h1) false policy = RISK_NET)
  /\ risk_score (Some h1) false policy_measured = Z.max 0 (Z.min 40 (60 - h1)).
Proof.
  intros Hband H1 H2 Hle.
  pose proof (round_half_up_mono 40 (net_pm policy h2) (net_pm policy h1) ltac:(lia)
                (conj (proj1 (net_pm_range policy h2)) (net_pm_antitone policy h1 h2 Hle))) as Hm.
  pose proof (round_net_range _ (net_pm_range policy h1)).
  pose proof (round_net_range _ (net_pm_range policy h2)).
  assert (risk_score None flag policy = if flag then 30 else 0) as -> by by destruct flag.
  rewrite !risk_score_exact. unfold RISK_SCORE_MAX, RISK_NET, RISK_BUFFER.
  split_and!; try (destruct flag; lia); try lia.
  - intros Hh. unfold net_pm. rewrite (proj2 (Z.leb_le _ _) Hh). done.
  - intros Hh. unfold net_pm. rewrite (proj2 (Z.leb_gt _ _)) by lia.
    rewrite (proj2 (Z.leb_le _ _) Hh). done.
  - rewrite net_pm_measured by ints. rewrite round_half_up_whole; lia.
Qed.

(** A transaction's time budget: an upshift spends exactly the reserve it was granted; a
    downshift is never granted less than the transfer and its fixed cost physically need at the
    measured capacity, nor less than the reserve, and is granted no more than the larger of the
    two; and only the recovery to the ladder floor, once rollback is already lost, runs without
    a deadline. *)
Theorem warmup_budget_covers_transfer rung wire duration capacity uncertainty reserve overhead :
  is_u32 wire -> is_duration duration -> 0 < capacity <= u32_max -> 0 <= uncertainty <= 1000 ->
  is_duration reserve -> is_duration overhead ->
  wire * as_millis duration / capacity <= u64_max / 2 ->
  let needed := predicted_transfer wire duration capacity uncertainty in
  let budget d := candidate_warmup_budget (mk_proposal rung d) duration reserve needed overhead in
  budget Up = reserve
  /\ reserve <= budget Down
  /\ Z.min (from_millis (wire * as_millis duration / capacity) + overhead) Duration_MAX
     <= budget Down
  /\ (budget Down = reserve \/ budget Down = duration_saturating_add needed overhead)
  /\ (forall d policy stalled,
        candidate_media_reserve_deadline (mk_proposal rung d) policy stalled (budget d) = None
        <-> d = Down /\ rung = P240 /\ (stalled = true \/ policy = TerminalFloor)).
Proof.
  intros Hw Hd Hc Hu Hr Ho Hfit needed budget.
  assert (from_millis (wire * as_millis duration / capacity) <= needed) as Hneed.
  { subst needed. unfold predicted_transfer. destruct (Z.eqb_spec capacity 0); [lia|].
    assert (0 <= as_millis duration <= Duration_MAX) as Hms by (apply div_range; [done|lia]).
    pose proof (mul_bound wire (as_millis duration) u32_max Duration_MAX Hw Hms) as Hb.
    assert (u128_sat (wire * as_millis duration) = wire * as_millis duration) as ->.
    { unfold Duration_MAX in Hb. ints. }
    set (ms := wire * as_millis duration / capacity) in *.
    assert (0 <= ms) by (apply Z.div_pos; lia). clearbody ms.
    change (u64_max / 2) with 9223372036854775807 in Hfit.
    rewrite u32_wrap_small by ints.
    assert (u128_sat (ms * (1000 + uncertainty)) = ms * (1000 + uncertainty)) as ->.
    { pose proof (mul_bound ms (1000 + uncertainty) 9223372036854775807 2000). ints. }
    assert (ms <= ms * (1000 + uncertainty) / 1000 <= u64_max) as [? ?].
    { split; [apply le_div_iff; nia|]. apply Z.div_le_upper_bound; [lia|].
      pose proof (mul_bound ms (1000 + uncertainty) 9223372036854775807 2000). ints. }
    rewrite (proj2 (checked_Some 0 u64_max _ _)) by (split; [done|lia]).
    cbn. unfold from_millis. lia. }
  clearbody needed. unfold is_duration in *. subst budget.
  unfold candidate_warmup_budget. cbn [pr_direction].
  unfold duration_saturating_add. split; [lia|]. split; [lia|]. split; [lia|]. split; [lia|].
  intros d policy stalled. unfold candidate_media_reserve_deadline. cbn [pr_direction pr_rung].
  assert (at_floor rung = bool_decide (rung = P240)) as -> by by destruct rung.
  destruct d, rung, policy, stalled; cbn; split; intros; try done;
    repeat match goal with H : _ /\ _ |- _ => destruct H | H : _ \/ _ |- _ => destruct H end;
    try done; split_and!; try done; (by left) || (by right).
Qed.
