(* ===== verification/Mode.v ===== *)
(** * The Original/HLS mode comparison

    [media/src/abr/mode.rs]: the visible-switch history and its decaying price, the two quality
    curves, the utilities of both modes and their argmax. *)

From S2P Require Import Prelude Vocabulary Estimate Ladder Plant Catalog Viability.

Inductive ModeKind := Mode_Original | Mode_Hls.
#[export] Instance ModeKind_eq_dec : EqDecision ModeKind.
Proof. solve_decision. Defined.

(** ** The visible-switch history *)

Record TransitionHistory := mk_history { visible_switches : Z; since_last_ms : option Z }.
Definition history_default : TransitionHistory := mk_history 0 None.

Definition advanced_by (self : TransitionHistory) (elapsed_ms : Z) : TransitionHistory :=
  mk_history (visible_switches self) ((fun ms => u64_sat (ms + elapsed_ms)) <$> since_last_ms self).

Definition penalty (self : TransitionHistory) (policy : AbrPolicy) : Z :=
  if visible_switches self =? 0 then 0
  else
    let base := i64_sat (visible_switch_penalty policy * visible_switches self) in
    match since_last_ms self with
    | None => base
    | Some since =>
        let halvings := since / Z.max (visible_switch_decay_ms policy) 1 in
        Z.shiftr base (Z.min halvings 16)
    end.

Definition transition_cost (from to : ModeKind) (history : TransitionHistory) (policy : AbrPolicy)
  : Z :=
  if bool_decide (from = to) then 0
  else i64_wrap (visible_switch_cost policy + penalty history policy).

(** ** Utilities *)

Record ModeUtility := mk_utility {
  mu_quality : Z;
  mu_features : Z;
  mu_risk : Z;
  mu_server : Z;
  mu_transition : Z;
  mu_total : Z
}.

Record ModeInputs := mk_inputs {
  mi_current : ModeKind;
  mi_source_kbps : Z;
  mi_source_raster : Z * Z;
  mi_source_delivery : CapacityEstimate;
  mi_hls_delivery : CapacityEstimate;
  mi_production : ProductionEstimate;
  mi_buffer : BufferEstimate;
  mi_remaining_ms : Z;
  mi_history : TransitionHistory;
  mi_original_feasible : bool;
  mi_source_dv : bool;
  mi_source_atmos : bool;
  mi_unsafe_deficit_ms : Z
}.
#[export] Instance eta_ModeInputs : Eta ModeInputs :=
  fun r => mk_inputs (mi_current r) (mi_source_kbps r) (mi_source_raster r)
             (mi_source_delivery r) (mi_hls_delivery r) (mi_production r) (mi_buffer r)
             (mi_remaining_ms r) (mi_history r) (mi_original_feasible r) (mi_source_dv r)
             (mi_source_atmos r) (mi_unsafe_deficit_ms r).

Record SourceFeatures := mk_features { feat_dv : bool; feat_atmos : bool }.

Definition benefit_scale_pm (remaining_ms : Z) (policy : AbrPolicy) : Z :=
  if remaining_ms <=? 0 then 0
  else
    let horizon := Z.max (benefit_horizon_ms policy) 1 in
    Z.quot (i64_wrap (Z.min remaining_ms horizon * 1000)) horizon.

Definition scaled (value scale_pm : Z) : Z := Z.quot (i64_wrap (value * scale_pm)) 1000.

Definition quality_score_at_kbps (wire_kbps : Z) : Z :=
  if wire_kbps <=? 500 then 0
  else if wire_kbps <=? 1000 then 10
  else if wire_kbps <=? 2500 then 25
  else if wire_kbps <=? 5000 then 40
  else if wire_kbps <=? 7000 then 50
  else if wire_kbps <=? 9000 then 58
  else if wire_kbps <=? 13000 then 66
  else if wire_kbps <=? 17000 then 72
  else 76.

Definition ANCHORS : list (Z * Z) :=
  [(500, 0); (1000, 10); (2500, 25); (5000, 40); (7000, 50); (9000, 58); (13000, 66);
   (17000, 72); (21000, 76)].

(** The loop of [quality_score_pm_at_kbps] from the anchor [below] on. *)
Fixpoint quality_from (kbps : Z) (below : Z * Z) (anchors : list (Z * Z)) : Z :=
  match anchors with
  | [] => snd below * 1000
  | (edge, score) :: anchors =>
      if kbps <=? edge then
        let span := edge - fst below in
        snd below * 1000
        + Z.quot ((kbps - fst below) * (score - snd below) * 1000) (Z.max span 1)
      else quality_from kbps (edge, score) anchors
  end.

Definition quality_score_pm_at_kbps (wire_kbps : Z) : Z := quality_from wire_kbps (0, 0) ANCHORS.

Definition hls_scoring_kbps (candidate : HlsCandidate) (source_kbps : Z) : Z :=
  if source_kbps =? 0 then cd_expected_wire_kbps candidate
  else Z.min (cd_expected_wire_kbps candidate) source_kbps.

Definition hls_utility (candidate current : HlsCandidate) (inputs : ModeInputs)
    (policy : AbrPolicy) : ModeUtility :=
  let scale := benefit_scale_pm (mi_remaining_ms inputs) policy in
  let risk := candidate_risk candidate current (mi_hls_delivery inputs) (mi_production inputs)
                (mi_buffer inputs) policy in
  let quality :=
    scaled (quality_score_at_kbps (hls_scoring_kbps candidate (mi_source_kbps inputs))) scale in
  let server :=
    scaled (Z.quot (i64_wrap (server_cost_weight policy * cd_production_load_pm candidate)) 1000)
      scale in
  let transition := transition_cost (mi_current inputs) Mode_Hls (mi_history inputs) policy in
  let risk_cost := scaled (i64_wrap (risk_weight policy * score risk)) scale in
  mk_utility quality 0 risk_cost server transition
    (i64_wrap (quality - risk_cost - server - transition)).

Definition source_quality_score (inputs : ModeInputs) : Z :=
  let top := candidate catalog_measured P1080High in
  let raster_cap :=
    match max_by_key id
            (cd_expected_wire_kbps
             <$> feasible (limited_to catalog_measured (0, 0) (mi_source_raster inputs))) with
    | Some m => m
    | None => 0
    end in
  let rate := Z.min (Z.min (mi_source_kbps inputs) (cd_expected_wire_kbps top)) raster_cap in
  quality_score_at_kbps rate.

(** The starvation bands Original's risk starts from. *)
Definition original_horizon_score (seconds : option Z) (policy : AbrPolicy) : Z :=
  match seconds with
  | None => 0
  | Some seconds =>
      if starvation_safe_secs policy <=? seconds then 2
      else if starvation_fallback_secs policy <=? seconds then 10
      else if starvation_fallback_secs policy / 2 <=? seconds then 25
      else 60
  end.

Definition original_utility (inputs : ModeInputs) (policy : AbrPolicy) : option ModeUtility :=
  if negb (mi_original_feasible inputs) then None
  else
    let scale := benefit_scale_pm (mi_remaining_ms inputs) policy in
    let requirement := source_requirement_kbps (mi_source_kbps inputs) policy in
    let horizon :=
      starvation_horizon (be_buffered_ms (mi_buffer inputs)) requirement
        (conservative_kbps (mi_source_delivery inputs)) in
    let score := original_horizon_score horizon policy in
    let score :=
      if ce_samples (mi_source_delivery inputs) =? 0 then score + 20 else score in
    let threshold := Z.max (sustained_unsafe_deficit_ms policy) 1 in
    let held_pm :=
      Z.min (Z.quot (i64_sat (Z.max (mi_unsafe_deficit_ms inputs) 0 * 1000)) threshold) 2500 in
    let score := score + default 60 (u32_checked (Z.quot (60 * held_pm) 2500)) in
    let quality :=
      scaled (i64_wrap (original_quality_bonus policy + source_quality_score inputs)) scale in
    let features :=
      scaled (i64_wrap (generation_loss_bonus policy
                        + (if mi_source_dv inputs then dv_bonus policy else 0)
                        + (if mi_source_atmos inputs then atmos_bonus policy else 0))) scale in
    let transition :=
      transition_cost (mi_current inputs) Mode_Original (mi_history inputs) policy in
    let risk_cost := scaled (i64_wrap (risk_weight policy * score)) scale in
    Some (mk_utility quality features risk_cost 0 transition
            (i64_wrap (quality + features - risk_cost - transition))).

(** ** The comparison *)

Inductive ModeReason := OriginalWorthIt | OriginalInfeasible | OriginalNotWorthIt.

Record ModeComparison := mk_comparison {
  cmp_chosen : ModeKind;
  cmp_reason : ModeReason;
  cmp_winner : ModeUtility;
  cmp_loser : option ModeUtility;
  cmp_hls_rung : Rung;
  cmp_scale_pm : Z
}.

Definition choose_mode (inputs : ModeInputs) (current_hls best_hls : HlsCandidate)
    (policy : AbrPolicy) : ModeKind * ModeReason * ModeUtility * option ModeUtility :=
  let original := original_utility inputs policy in
  let hls := hls_utility best_hls current_hls inputs policy in
  match original with
  | Some orig =>
      if mu_total hls <? mu_total orig then (Mode_Original, OriginalWorthIt, orig, Some hls)
      else if (mu_total orig =? mu_total hls)
              && bool_decide (mi_current inputs = Mode_Original)
      then (Mode_Original, OriginalWorthIt, orig, Some hls)
      else (Mode_Hls, OriginalNotWorthIt, hls, Some orig)
  | None => (Mode_Hls, OriginalInfeasible, hls, None)
  end.

Definition chosen_mode (inputs : ModeInputs) (current_hls best_hls : HlsCandidate)
    (policy : AbrPolicy) : ModeKind :=
  fst (fst (fst (choose_mode inputs current_hls best_hls policy))).

(** ** Lemmas *)

Record history_wf (h : TransitionHistory) : Prop := {
  hwf_switches : is_u32 (visible_switches h);
  hwf_since : forall s, since_last_ms h = Some s -> is_u64 s
}.

Lemma advanced_by_wf h t : history_wf h -> is_u64 t -> history_wf (advanced_by h t).
Proof.
  intros [? ?] ?. split; [done|]. cbn. intros s. destruct (since_last_ms h); cbn; [|done].
  intros [= <-]. apply u64_sat_range.
Qed.

Lemma shiftr_range b k : 0 <= b -> 0 <= k -> 0 <= Z.shiftr b k <= b.
Proof.
  intros Hb Hk. rewrite Z.shiftr_div_pow2 by done.
  pose proof (Z.pow_pos_nonneg 2 k ltac:(lia) Hk). by apply div_range.
Qed.

Lemma shiftr_antitone b i j : 0 <= b -> 0 <= i <= j -> Z.shiftr b j <= Z.shiftr b i.
Proof.
  intros Hb Hij. replace j with (i + (j - i)) by lia. rewrite <- Z.shiftr_shiftr by lia.
  apply shiftr_range; [by apply Z.shiftr_nonneg|lia].
Qed.

Lemma penalty_range h policy :
  history_wf h -> 0 <= visible_switch_penalty policy <= u32_max ->
  0 <= penalty h policy <= visible_switch_penalty policy * visible_switches h.
Proof.
  intros [Hn Hs] Hp. unfold penalty. destruct (Z.eqb_spec (visible_switches h) 0); [lia|].
  pose proof (mul_bound (visible_switch_penalty policy) (visible_switches h) _ _ Hp Hn).
  set (base := i64_sat _).
  assert (0 <= base <= visible_switch_penalty policy * visible_switches h) by (subst base; ints).
  clearbody base. destruct (since_last_ms h) as [s|] eqn:E; [|done].
  assert (0 <= s / Z.max (visible_switch_decay_ms policy) 1)
    by (apply Z.div_pos; [destruct (Hs s eq_refl); lia|lia]).
  pose proof (shiftr_range base (Z.min (s / Z.max (visible_switch_decay_ms policy) 1) 16)). lia.
Qed.

Lemma benefit_scale_range remaining : 0 <= benefit_scale_pm remaining policy_measured <= 1000.
Proof.
  unfold benefit_scale_pm. change (Z.max (benefit_horizon_ms policy_measured) 1) with 120000.
  destruct (Z.leb_spec remaining 0); [lia|]. rewrite i64_wrap_small by ints.
  rewrite Z.quot_div_nonneg by lia.
  split; [apply Z.div_pos; lia|apply Z.lt_succ_r, div_lt_iff; lia].
Qed.

(** With a scale of at most 1000, scaling a small value is order preserving and shrinks it. *)
Lemma scaled_exact v scale :
  0 <= v <= u32_max -> 0 <= scale <= 1000 -> scaled v scale = v * scale / 1000.
Proof.
  intros Hv Hs. unfold scaled. pose proof (mul_bound v scale _ _ Hv Hs).
  rewrite i64_wrap_small by ints. apply Z.quot_div_nonneg; lia.
Qed.

Lemma scaled_range v scale :
  0 <= v <= u32_max -> 0 <= scale <= 1000 -> 0 <= scaled v scale <= v.
Proof.
  intros Hv Hs. rewrite scaled_exact by done. split.
  - apply Z.div_pos; [nia|lia].
  - apply Z.lt_succ_r, div_lt_iff; [lia|]. nia.
Qed.

Lemma scaled_mono a b scale :
  0 <= a <= b -> b <= u32_max -> 0 <= scale <= 1000 -> scaled a scale <= scaled b scale.
Proof. intros. rewrite !scaled_exact by lia. apply Z.div_le_mono; [lia|]. nia. Qed.

Lemma quality_score_range w : 0 <= quality_score_at_kbps w <= 76.
Proof. unfold quality_score_at_kbps. bools; lia. Qed.

Lemma risk_score_range h f : 0 <= risk_score h f policy_measured <= 70.
Proof.
  destruct h as [t|]; [|by destruct f]. rewrite risk_score_exact.
  pose proof (round_net_range _ (net_pm_range policy_measured t)). destruct f; lia.
Qed.

Lemma original_horizon_range h : 0 <= original_horizon_score h policy_measured <= 60.
Proof. unfold original_horizon_score. destruct h; [|lia]. repeat case_match; lia. Qed.

(** What the two totals are apart from the price of the switch, with the shipped policy. *)
Definition hls_value (best current : HlsCandidate) (inputs : ModeInputs) : Z :=
  mu_quality (hls_utility best current inputs policy_measured)
  - mu_risk (hls_utility best current inputs policy_measured)
  - mu_server (hls_utility best current inputs policy_measured).

Definition original_value (u : ModeUtility) : Z := mu_quality u + mu_features u - mu_risk u.

Lemma transition_cost_range from to h :
  history_wf h ->
  0 <= transition_cost from to h policy_measured <= 15 + 15 * u32_max
  /\ (from = to -> transition_cost from to h policy_measured = 0)
  /\ (from <> to -> transition_cost from to h policy_measured
                    = 15 + penalty h policy_measured).
Proof.
  intros Hh. pose proof (penalty_range h policy_measured Hh ltac:(by split)) as Hp.
  change (visible_switch_penalty policy_measured) with 15 in Hp. destruct Hh as [Hn _].
  unfold transition_cost. change (visible_switch_cost policy_measured) with 15.
  case_bool_decide; [split_and!; (ints || done)|].
  rewrite i64_wrap_small by ints. split_and!; (ints || done).
Qed.

Lemma hls_total_exact best current inputs :
  history_wf (mi_history inputs) -> 0 <= cd_production_load_pm best <= u32_max ->
  mu_total (hls_utility best current inputs policy_measured)
  = hls_value best current inputs
    - transition_cost (mi_current inputs) Mode_Hls (mi_history inputs) policy_measured
  /\ -100000000 <= hls_value best current inputs <= 76.
Proof.
  intros Hh Hl. unfold hls_value. cbn [mu_total mu_quality mu_risk mu_server hls_utility].
  pose proof (benefit_scale_range (mi_remaining_ms inputs)) as Hs.
  set (scale := benefit_scale_pm _ _) in *. clearbody scale.
  set (q := quality_score_at_kbps _). pose proof (quality_score_range _ : 0 <= q <= 76) as Hq.
  clearbody q. change (risk_weight policy_measured) with 2.
  change (server_cost_weight policy_measured) with 4.
  set (r := score _).
  assert (0 <= r <= 70) as Hr by apply risk_score_range. clearbody r.
  rewrite (i64_wrap_small (4 * _)), (i64_wrap_small (2 * r)) by ints.
  pose proof (scaled_range q scale ltac:(ints) Hs).
  pose proof (scaled_range (2 * r) scale ltac:(ints) Hs).
  assert (0 <= Z.quot (4 * cd_production_load_pm best) 1000 <= 20000000) as Hld.
  { rewrite Z.quot_div_nonneg by lia.
    split; [apply Z.div_pos; lia|apply Z.lt_succ_r, div_lt_iff; ints]. }
  pose proof (scaled_range _ scale ltac:(split; [apply Hld|ints]) Hs).
  pose proof (transition_cost_range (mi_current inputs) Mode_Hls _ Hh) as (? & _ & _).
  rewrite i64_wrap_small by ints. split; lia.
Qed.

Lemma original_total_exact inputs u :
  history_wf (mi_history inputs) -> is_i64 (mi_unsafe_deficit_ms inputs) ->
  original_utility inputs policy_measured = Some u ->
  mu_total u
  = original_value u
    - transition_cost (mi_current inputs) Mode_Original (mi_history inputs) policy_measured
  /\ -280 <= original_value u <= 141.
Proof.
  intros Hh Hd. unfold original_utility. destruct (mi_original_feasible inputs); [|done].
  cbn [negb]. intros E. apply Some_inj in E. subst u. unfold original_value.
  cbn [mu_total mu_quality mu_features mu_risk].
  pose proof (benefit_scale_range (mi_remaining_ms inputs)) as Hs.
  set (scale := benefit_scale_pm _ _) in *. clearbody scale.
  pose proof (quality_score_range _ : 0 <= source_quality_score inputs <= 76) as Hq.
  set (sq := source_quality_score inputs) in *. clearbody sq.
  set (horizon := starvation_horizon _ _ _). pose proof (original_horizon_range horizon) as Ho.
  set (h0 := original_horizon_score _ _) in *. clearbody h0. clear horizon.
  set (h1 := if _ =? 0 then h0 + 20 else h0). assert (0 <= h1 <= 80) as H1
    by (subst h1; case_match; lia). clearbody h1.
  change (Z.max (sustained_unsafe_deficit_ms policy_measured) 1) with 4500.
  set (held := Z.min (Z.quot _ 4500) 2500).
  assert (0 <= held <= 2500) as Hheld.
  { subst held. rewrite Z.quot_div_nonneg by ints.
    pose proof (Z.div_pos (i64_sat (Z.max (mi_unsafe_deficit_ms inputs) 0 * 1000)) 4500). ints. }
  clearbody held.
  assert (0 <= default 60 (u32_checked (Z.quot (60 * held) 2500)) <= 60) as Hx.
  { destruct (u32_checked _) eqn:E; cbn; [|lia]. apply checked_Some in E as [-> E].
    split; [lia|]. rewrite Z.quot_div_nonneg by lia. apply Z.lt_succ_r, div_lt_iff; lia. }
  set (h2 := default 60 _) in *. clearbody h2.
  change (risk_weight policy_measured) with 2.
  change (original_quality_bonus policy_measured) with 40.
  change (generation_loss_bonus policy_measured) with 8.
  set (f := i64_wrap (8 + _ + _)).
  assert (8 <= f <= 25) as Hf.
  { subst f. destruct (mi_source_dv inputs), (mi_source_atmos inputs); vm_compute; done. }
  clearbody f. rewrite (i64_wrap_small (40 + sq)), (i64_wrap_small (2 * _)) by ints.
  pose proof (scaled_range (40 + sq) scale ltac:(ints) Hs).
  pose proof (scaled_range f scale ltac:(ints) Hs).
  pose proof (scaled_range (2 * (h1 + h2)) scale ltac:(ints) Hs).
  pose proof (transition_cost_range (mi_current inputs) Mode_Original _ Hh) as (? & _ & _).
  rewrite i64_wrap_small by ints. split; lia.
Qed.

Lemma original_utility_feasible inputs policy :
  original_utility inputs policy = None <-> mi_original_feasible inputs = false.
Proof.
  unfold original_utility. destruct (mi_original_feasible inputs); cbn [negb]; split; intros; done.
Qed.

(** What a mode is worth before the switch is priced does not depend on the mode it is asked
    from. *)
Lemma hls_value_current best cur inputs m :
  hls_value best cur (inputs <| mi_current := m |>) = hls_value best cur inputs.
Proof. reflexivity. Qed.

Lemma original_value_current inputs m :
  original_value <$> original_utility (inputs <| mi_current := m |>) policy_measured
  = original_value <$> original_utility inputs policy_measured.
Proof.
  unfold original_utility. change (mi_original_feasible (inputs <| mi_current := m |>))
    with (mi_original_feasible inputs). by destruct (mi_original_feasible inputs).
Qed.

Record inputs_wf (i : ModeInputs) : Prop := {
  iwf_history : history_wf (mi_history i);
  iwf_deficit : is_i64 (mi_unsafe_deficit_ms i)
}.

(** The decision, with the price of a switch separated from the values compared. *)
Lemma chosen_mode_spec inputs cur best :
  inputs_wf inputs -> 0 <= cd_production_load_pm best <= u32_max ->
  chosen_mode inputs cur best policy_measured
  = match original_value <$> original_utility inputs policy_measured with
    | None => Mode_Hls
    | Some o =>
        let h := hls_value best cur inputs in
        let cost := 15 + penalty (mi_history inputs) policy_measured in
        match mi_current inputs with
        | Mode_Original => if h - cost <=? o then Mode_Original else Mode_Hls
        | Mode_Hls => if h <? o - cost then Mode_Original else Mode_Hls
        end
    end.
Proof.
  intros [Hh Hd] Hl. unfold chosen_mode, choose_mode.
  destruct (hls_total_exact best cur inputs Hh Hl) as [Eh _].
  destruct (original_utility inputs policy_measured) as [u|] eqn:E; cbn [fmap option_fmap option_map];
    [|done].
  destruct (original_total_exact inputs u Hh Hd E) as [Eo _]. rewrite Eh, Eo.
  destruct (transition_cost_range (mi_current inputs) Mode_Hls _ Hh) as (_ & Hh0 & Hh1).
  destruct (transition_cost_range (mi_current inputs) Mode_Original _ Hh) as (_ & Ho0 & Ho1).
  destruct (mi_current inputs); cbn [bool_decide].
  - rewrite (Ho0 eq_refl), (Hh1 ltac:(done)). rewrite bool_decide_true by done.
    rewrite andb_true_r. bools; cbn; (done || lia).
  - rewrite (Hh0 eq_refl), (Ho1 ltac:(done)). rewrite bool_decide_false by done.
    rewrite andb_false_r. bools; cbn; (done || lia).
Qed.

(** The quality curve on the rungs the ladder can be asked for. *)
Lemma quality_points_strict a b :
  a ∈ measured_points -> b ∈ measured_points ->
  cd_expected_wire_kbps a < cd_expected_wire_kbps b ->
  quality_score_pm_at_kbps (cd_expected_wire_kbps a)
  < quality_score_pm_at_kbps (cd_expected_wire_kbps b).
Proof.
  intros Ha Hb Hab. assert (forallb (fun a => forallb (fun b =>
      negb (cd_expected_wire_kbps a <? cd_expected_wire_kbps b)
      || (quality_score_pm_at_kbps (cd_expected_wire_kbps a)
          <? quality_score_pm_at_kbps (cd_expected_wire_kbps b)))
      measured_points) measured_points = true) as H by by vm_compute.
  rewrite forallb_forall in H. rewrite list_elem_of_In in Ha, Hb.
  specialize (H a Ha). rewrite forallb_forall in H. specialize (H b Hb).
  rewrite (proj2 (Z.ltb_lt _ _) Hab) in H. by apply Z.ltb_lt.
Qed.

Lemma anchor_segment lo hi slo shi w :
  lo < hi -> 0 <= slo <= shi -> lo <= w <= hi ->
  slo * 1000 <= slo * 1000 + Z.quot ((w - lo) * (shi - slo) * 1000) (Z.max (hi - lo) 1)
    <= shi * 1000.
Proof.
  intros Hlt Hs Hw. rewrite Z.max_l, Z.quot_div_nonneg by nia.
  assert (0 <= (w - lo) * (shi - slo) * 1000 / (hi - lo) <= (shi - slo) * 1000).
  { split; [apply Z.div_pos; nia|]. apply Z.div_le_upper_bound; nia. }
  lia.
Qed.

Lemma anchor_segment_mono lo hi slo shi v w :
  lo < hi -> 0 <= slo <= shi -> lo <= v <= w -> w <= hi ->
  slo * 1000 + Z.quot ((v - lo) * (shi - slo) * 1000) (Z.max (hi - lo) 1)
  <= slo * 1000 + Z.quot ((w - lo) * (shi - slo) * 1000) (Z.max (hi - lo) 1).
Proof.
  intros Hlt Hs Hv Hw. rewrite !Z.max_l, !Z.quot_div_nonneg by nia.
  apply Z.add_le_mono_l, Z.div_le_mono; nia.
Qed.

Inductive ascending : Z * Z -> list (Z * Z) -> Prop :=
| ascending_nil p : 0 <= snd p -> ascending p []
| ascending_cons p q l :
    0 <= snd p -> fst p < fst q -> snd p <= snd q -> ascending q l -> ascending p (q :: l).

Lemma quality_from_above below anchors w :
  ascending below anchors -> fst below <= w -> snd below * 1000 <= quality_from w below anchors.
Proof.
  intros Ha. revert w. induction Ha as [p Hp|p q l Hp Hpq Hs Ha IH]; intros w Hw; cbn; [lia|].
  destruct q as [edge score]. cbn [fst snd] in *. destruct (Z.leb_spec w edge).
  - apply anchor_segment; lia.
  - specialize (IH w ltac:(lia)). lia.
Qed.

Lemma quality_from_mono below anchors v w :
  ascending below anchors -> fst below <= v <= w ->
  quality_from v below anchors <= quality_from w below anchors.
Proof.
  intros Ha. revert v w. induction Ha as [p Hp|p q l Hp Hpq Hs Ha IH]; intros v w Hv; cbn; [lia|].
  destruct q as [edge score]. cbn [fst snd] in *.
  destruct (Z.leb_spec v edge), (Z.leb_spec w edge); try lia.
  - apply anchor_segment_mono; lia.
  - pose proof (anchor_segment (fst p) edge (snd p) score v ltac:(lia) ltac:(lia) ltac:(lia)).
    pose proof (quality_from_above (edge, score) l w Ha ltac:(cbn; lia)). cbn [snd] in *. lia.
  - apply IH. lia.
Qed.

Lemma anchors_ascending : ascending (0, 0) ANCHORS.
Proof. unfold ANCHORS. repeat constructor; cbn; lia. Qed.

(** ** Properties *)

(** The mode comparison is an argmax in which the price of a visible switch is charged to the
    mode that would have to be switched to: Original is taken from HLS only when it is worth
    strictly more than the switch, and kept unless HLS is.  So deciding again on the same
    measurements after adopting the decision never reverses it, and an infeasible source is
    never chosen. *)
Theorem choose_mode_stable inputs cur best :
  inputs_wf inputs -> 0 <= cd_production_load_pm best <= u32_max ->
  let m := chosen_mode inputs cur best policy_measured in
  let cost := 15 + penalty (mi_history inputs) policy_measured in
  chosen_mode (inputs <| mi_current := m |>) cur best policy_measured = m
  /\ (mi_original_feasible inputs = false -> m = Mode_Hls)
  /\ (forall u, original_utility inputs policy_measured = Some u ->
      (mi_current inputs = Mode_Hls ->
         m = Mode_Original <-> hls_value best cur inputs + cost < original_value u)
      /\ (mi_current inputs = Mode_Original ->
         m = Mode_Hls <-> original_value u + cost < hls_value best cur inputs)).
Proof.
  intros Hi Hl m cost.
  assert (0 <= penalty (mi_history inputs) policy_measured) as Hp.
  { eapply penalty_range; [apply Hi|by split]. }
  pose proof (chosen_mode_spec inputs cur best Hi Hl) as Em. fold m in Em.
  split_and!.
  - assert (inputs_wf (inputs <| mi_current := m |>)) as Hi' by by destruct Hi.
    rewrite chosen_mode_spec by done. rewrite original_value_current, hls_value_current.
    change (mi_history (inputs <| mi_current := m |>)) with (mi_history inputs).
    change (mi_current (inputs <| mi_current := m |>)) with m.
    clearbody m. clear Hi' Hi Hl. subst cost.
    destruct (original_value <$> _) as [o|]; [|by rewrite Em].
    cbv zeta in Em |- *. destruct m, (mi_current inputs); revert Em; bools; intros; (done || lia).
  - intros Hf. apply (original_utility_feasible _ policy_measured) in Hf.
    rewrite Hf in Em. exact Em.
  - intros u Hu. rewrite Hu in Em. cbn [fmap option_fmap option_map] in Em. clearbody m.
    cbv zeta in Em. subst cost. split; intros Hc; rewrite Hc in Em; rewrite Em; bools; split; intros;
      (done || lia).
Qed.

(** The interpolated curve never decreases, and every real step of the ladder is worth something
    on it -- where the banded curve scores steps inside one band as nothing; the banded curve is
    the interpolated one rounded up to the next anchor. *)
Theorem quality_curves v w a b :
  0 <= v <= w -> a ∈ measured_points -> b ∈ measured_points ->
  rung_lt (cd_rung a) (cd_rung b) = true ->
  quality_score_pm_at_kbps v <= quality_score_pm_at_kbps w
  /\ 0 <= quality_score_pm_at_kbps v <= 1000 * quality_score_at_kbps v
  /\ quality_score_at_kbps v <= quality_score_at_kbps w
  /\ quality_score_pm_at_kbps (cd_expected_wire_kbps a)
     < quality_score_pm_at_kbps (cd_expected_wire_kbps b).
Proof.
  intros Hv Ha Hb Hlt. rewrite measured_points_sorted in Hlt by done. apply Z.ltb_lt in Hlt.
  split_and!.
  - apply quality_from_mono; [apply anchors_ascending|cbn; lia].
  - pose proof (quality_from_above (0, 0) ANCHORS v anchors_ascending ltac:(cbn; lia)). cbn in *. lia.
  - unfold quality_score_pm_at_kbps, quality_score_at_kbps, ANCHORS, quality_from. cbn [fst snd].
    repeat match goal with
    | |- context [if ?x <=? ?e then _ else _] => destruct (Z.leb_spec x e)
    end; try lia;
      match goal with
      | |- ?s * 1000 + Z.quot ((?x - ?lo) * (?hi - ?s) * 1000) (Z.max (?e - ?lo) 1) <= _ =>
          pose proof (anchor_segment lo e s hi x ltac:(lia) ltac:(lia) ltac:(lia)); lia
      end.
  - unfold quality_score_at_kbps. bools; lia.
  - by apply quality_points_strict.
Qed.

(** The price of the next visible switch: the first is free, every recorded one raises it, time
    alone lowers it, by half for every half-life that has passed. *)
Theorem penalty_decays h policy elapsed :
  history_wf h -> is_u64 elapsed -> 0 <= visible_switch_penalty policy <= u32_max ->
  penalty history_default policy = 0
  /\ 0 <= penalty (advanced_by h elapsed) policy <= penalty h policy
  /\ penalty h policy <= penalty (mk_history (u32_sat (visible_switches h + 1)) (since_last_ms h)) policy
  /\ (forall s, since_last_ms h = Some s -> 0 < visible_switch_decay_ms policy ->
      s + 16 * visible_switch_decay_ms policy <= u64_max ->
      forall k, 0 <= k -> s / visible_switch_decay_ms policy + k <= 16 ->
      penalty (advanced_by h (k * visible_switch_decay_ms policy)) policy
      = penalty h policy / 2 ^ k).
Proof.
  intros Hh He Hp. pose proof (penalty_range h policy Hh Hp) as [Hpos _].
  pose proof (penalty_range (advanced_by h elapsed) policy (advanced_by_wf _ _ Hh He) Hp) as [Hpos' _].
  destruct Hh as [Hn Hs]. destruct h as [n since]. cbn [visible_switches since_last_ms] in *.
  assert (forall m, is_u32 m -> 0 <= i64_sat (visible_switch_penalty policy * m)) as Hb.
  { intros m Hm. apply i64_sat_nonneg, Z.mul_nonneg_nonneg; ints. }
  split_and!; [done|done| | |].
  - unfold penalty, advanced_by. cbn [visible_switches since_last_ms].
    destruct (n =? 0); [lia|]. destruct since as [s|]; cbn [fmap option_fmap option_map]; [|lia].
    apply shiftr_antitone; [by apply Hb|]. specialize (Hs s eq_refl).
    assert (s / Z.max (visible_switch_decay_ms policy) 1
            <= u64_sat (s + elapsed) / Z.max (visible_switch_decay_ms policy) 1)
      by (apply Z.div_le_mono; ints).
    pose proof (Z.div_pos s (Z.max (visible_switch_decay_ms policy) 1)). ints.
  - unfold penalty. cbn [visible_switches since_last_ms].
    destruct (Z.eqb_spec n 0) as [->|].
    { change (u32_sat (0 + 1) =? 0) with false. cbn iota. change (u32_sat (0 + 1)) with 1.
      pose proof (Hb 1 ltac:(ints)). destruct since as [s|]; [|done]. apply Z.shiftr_nonneg. done. }
    destruct (Z.eqb_spec (u32_sat (n + 1)) 0); [ints|].
    assert (i64_sat (visible_switch_penalty policy * n)
            <= i64_sat (visible_switch_penalty policy * u32_sat (n + 1))) as Hmono.
    { pose proof (Z.mul_le_mono_nonneg_l n (u32_sat (n + 1)) (visible_switch_penalty policy)
                    ltac:(lia) ltac:(ints)). clear -H. ints. }
    destruct since as [s|]; [|done]. rewrite !Z.shiftr_div_pow2.
    + apply Z.div_le_mono; [apply Z.pow_pos_nonneg|done]; try lia.
      specialize (Hs s eq_refl). pose proof (Z.div_pos s (Z.max (visible_switch_decay_ms policy) 1)).
      ints.
    + specialize (Hs s eq_refl). pose proof (Z.div_pos s (Z.max (visible_switch_decay_ms policy) 1)).
      ints.
    + specialize (Hs s eq_refl). pose proof (Z.div_pos s (Z.max (visible_switch_decay_ms policy) 1)).
      ints.
  - intros s -> Hd Hmax k Hk H16. unfold penalty, advanced_by.
    cbn [visible_switches since_last_ms fmap option_fmap option_map].
    destruct (n =? 0); [by rewrite Z.div_0_l by (apply Z.pow_nonzero; lia)|].
    rewrite Z.max_l by lia. set (d := visible_switch_decay_ms policy) in *.
    specialize (Hs s eq_refl).
    assert (0 <= s / d) by (apply Z.div_pos; ints).
    assert (k * d <= 16 * d) by (apply Z.mul_le_mono_nonneg_r; lia).
    assert (u64_sat (s + k * d) = s + k * d) as -> by (pose proof (Z.mul_nonneg_nonneg k d); ints).
    rewrite Z.div_add by lia. rewrite !Z.min_l by lia.
    rewrite <- Z.shiftr_shiftr by lia. by rewrite (Z.shiftr_div_pow2 (Z.shiftr _ _) k) by lia.
Qed.
