(* ===== verification/Original.v ===== *)
(** * Direct play of the source: probing for it and leaving it

    [media/src/abr/original.rs]: the source-probe plan, the recovery state machine that may spend
    a probe to leave HLS for Original, and the runtime monitor that may leave Original for HLS. *)

From S2P Require Import Prelude Vocabulary Estimate Ladder Plant Catalog Viability Mode.

(** ** Probe plan and fallback rungs *)

Definition SOURCE_PROBE_MIN_BYTES : Z := 512 * 1024.
Definition SOURCE_PROBE_MAX_BYTES : Z := 8 * 1024 * 1024.

Record SourceProbePlan := mk_plan { target_bytes : Z; budget_ms : Z }.

Definition source_probe_plan (source_kbps max_budget_ms : Z) : option SourceProbePlan :=
  let rate := source_kbps in
  if (rate =? 0) || (max_budget_ms =? 0) then None
  else
    let target_bytes :=
      Z.max SOURCE_PROBE_MIN_BYTES
        (Z.min SOURCE_PROBE_MAX_BYTES
           (usize_sat (default usize_max (usize_checked rate) * 125))) in
    let represented_ms := u64_sat (u64_sat (target_bytes * 8) + (rate - 1)) / rate in
    Some (mk_plan target_bytes (Z.min (Z.max represented_ms 1) max_budget_ms)).

Definition policy_startup_floor_kbps (_policy : AbrPolicy) : Z := kbps P480.

Definition original_fallback_rung (measured_kbps : Z) (catalog : HlsActuatorCatalog)
    (_policy : AbrPolicy) : Rung :=
  match or_else (best_for_budget catalog measured_kbps) (head (feasible catalog)) with
  | Some c => cd_rung c
  | None => P240
  end.

Definition original_open_fallback_rung (bootstrap_rung : option Rung)
    (catalog : HlsActuatorCatalog) (policy : AbrPolicy) : Rung :=
  let fallback :=
    match or_else (best_for_budget catalog (policy_startup_floor_kbps policy))
            (head (feasible catalog)) with
    | Some c => cd_rung c
    | None => P480
    end in
  default fallback
    (carried ← bootstrap_rung;
     max_by_key rung_key
       (List.filter (fun rung => rung_le rung carried) (cd_rung <$> feasible catalog))).

Definition original_sustainable (source_kbps measured_kbps : Z) (complete : bool)
    (_policy : AbrPolicy) : bool :=
  (0 <? source_kbps) && complete && (source_kbps <=? measured_kbps).

(** ** Recovery: probing from HLS *)

Inductive RecoveryVerdict := Recover | NotWorthIt | Insufficient | ProbeFailed.

Record RetainedProbeDecision := mk_retained { rp_verdict : RecoveryVerdict; rp_measured_kbps : Z }.

Inductive ProbeBlock :=
| ShallowReserve | Draining | BelowHlsCeiling | Block_NotWorthIt | NoNewLinkEvidence
| Block_RouteRefused.

Inductive SourceProbeState :=
| Probe_Fresh
| AwaitHlsAbove (floor_kbps : Z)
| Probe_Terminal
| ReconsiderAfterHlsCommit
| Probe_RouteRefused.

Record OriginalRecovery := mk_recovery {
  or_source_kbps : Z;
  or_policy : AbrPolicy;
  or_probe : CapacityEstimate;
  or_features : SourceFeatures;
  or_history : TransitionHistory;
  or_elapsed_ms : Z;
  or_probes : Z;
  or_source_probe_state : SourceProbeState;
  or_last_comparison : option ModeComparison;
  or_catalog : HlsActuatorCatalog
}.
#[export] Instance eta_OriginalRecovery : Eta OriginalRecovery :=
  fun r => mk_recovery (or_source_kbps r) (or_policy r) (or_probe r) (or_features r)
             (or_history r) (or_elapsed_ms r) (or_probes r) (or_source_probe_state r)
             (or_last_comparison r) (or_catalog r).

Definition recovery_new (source_kbps : Z) (policy : AbrPolicy) (features : SourceFeatures)
    (history : TransitionHistory) (catalog : HlsActuatorCatalog) : option OriginalRecovery :=
  if 0 <? source_kbps then
    Some (mk_recovery source_kbps policy capacity_default features history 0 0 Probe_Fresh None
            catalog)
  else None.

Definition after_route_refusal (self : OriginalRecovery) : OriginalRecovery :=
  self <| or_source_probe_state := Probe_RouteRefused |>.

Definition advance_to (self : OriginalRecovery) (elapsed_ms : Z) : OriginalRecovery :=
  self <| or_elapsed_ms := elapsed_ms |>.

Definition on_hls_commit (self : OriginalRecovery) (direction : Direction) : OriginalRecovery :=
  match or_source_probe_state self with
  | Probe_RouteRefused => self <| or_source_probe_state := Probe_Fresh |>
  | Probe_Terminal =>
      let self := self <| or_last_comparison := None |> in
      match direction with
      | Up => self <| or_source_probe_state := ReconsiderAfterHlsCommit |>
      | Down => self <| or_probe := capacity_default |> <| or_source_probe_state := Probe_Fresh |>
      end
  | _ => self
  end.

Definition recovery_inputs (self : OriginalRecovery) (source_delivery : CapacityEstimate)
    (production : ProductionEstimate) (buffer : BufferEstimate) (hls_delivery : CapacityEstimate)
    (remaining_ms : Z) : ModeInputs :=
  {| mi_current := Mode_Hls;
     mi_source_kbps := or_source_kbps self;
     mi_source_raster := source_raster (or_catalog self);
     mi_source_delivery := source_delivery;
     mi_hls_delivery := hls_delivery;
     mi_production := production;
     mi_buffer := buffer;
     mi_remaining_ms := remaining_ms;
     mi_history := advanced_by (or_history self) (or_elapsed_ms self);
     mi_original_feasible := true;
     mi_source_dv := feat_dv (or_features self);
     mi_source_atmos := feat_atmos (or_features self);
     mi_unsafe_deficit_ms := 0 |}.

Definition best_hls (self : OriginalRecovery) (current : HlsCandidate) (buffer : BufferEstimate)
    (hls_delivery : CapacityEstimate) : HlsCandidate :=
  default current
    (best_sustainable (or_catalog self) (hls_safe_budget hls_delivery) (or_policy self)
       (be_buffered_ms buffer)).

Definition worth_probing (self : OriginalRecovery) (current : HlsCandidate)
    (production : ProductionEstimate) (buffer : BufferEstimate) (hls_delivery : CapacityEstimate)
    (remaining_ms : Z) : bool :=
  let requirement := source_requirement_kbps (or_source_kbps self) (or_policy self) in
  let assumed := mk_capacity requirement requirement 0 1 in
  let inputs := recovery_inputs self assumed production buffer hls_delivery remaining_ms in
  let best := best_hls self current buffer hls_delivery in
  bool_decide (chosen_mode inputs current best (or_policy self) = Mode_Original).

(** What a probe is funded from: its plan, the reserve it requires and the reserve there is. *)
Definition probe_funding (self : OriginalRecovery) (sample : SegmentSample)
    (rollback_media_ms current_runway_ms : option Z) : option (SourceProbePlan * Z * Z) :=
  plan ← source_probe_plan (or_source_kbps self) (probe_budget_ms (or_policy self));
  runway_ms ← current_runway_ms;
  rollback_media_ms ← rollback_media_ms;
  buffered_ms ← buffered_ms (ss_buffer sample);
  let continuity_ms := Z.max (Z.max runway_ms 0) rollback_media_ms in
  let required_ms :=
    i64_sat (i64_sat (default i64_max (i64_checked (budget_ms plan)) * 2) + continuity_ms) in
  Some (plan, required_ms, buffered_ms).

(** [Ok(ProbePermit { plan })] is [inl plan]; the method mutates nothing. *)
Definition probe_due_with_rollback (self : OriginalRecovery) (current : HlsCandidate)
    (hls_frontier_exhausted : bool) (production : ProductionEstimate) (sample : SegmentSample)
    (rollback_media_ms current_runway_ms : option Z) (buffer : BufferEstimate)
    (hls_delivery : CapacityEstimate) (remaining_ms : Z) : SourceProbePlan + ProbeBlock :=
  let funding := probe_funding self sample rollback_media_ms current_runway_ms in
  let deep_reserve :=
    match funding with
    | Some (_, required_ms, buffered_ms) => required_ms <=? buffered_ms
    | None => false
    end in
  let refilling := negb (draining buffer) in
  if negb (deep_reserve && refilling && hls_frontier_exhausted) then
    inr (if negb deep_reserve then ShallowReserve
         else if negb refilling then Draining else BelowHlsCeiling)
  else
    let evidence : option ProbeBlock :=
      match or_source_probe_state self with
      | Probe_Fresh => None
      | AwaitHlsAbove floor_kbps =>
          if floor_kbps <? conservative_kbps hls_delivery then None else Some NoNewLinkEvidence
      | Probe_Terminal | ReconsiderAfterHlsCommit => Some NoNewLinkEvidence
      | Probe_RouteRefused => Some Block_RouteRefused
      end in
    match evidence with
    | Some block => inr block
    | None =>
        if negb (worth_probing self current production buffer hls_delivery remaining_ms)
        then inr Block_NotWorthIt
        else
          match funding with
          | Some (plan, _, _) => inl plan
          | None => inr ShallowReserve
          end
    end.

Definition await_stronger_hls (self : OriginalRecovery) (source_kbps : Z)
    (hls_delivery : CapacityEstimate) : OriginalRecovery :=
  self <| or_source_probe_state := AwaitHlsAbove (Z.max source_kbps (ce_fast_kbps hls_delivery)) |>.

Definition begin_probe_attempt (self : OriginalRecovery) : OriginalRecovery :=
  self <| or_probes := u8_sat (or_probes self + 1) |> <| or_last_comparison := None |>.

Definition decide_from_completed_probe (self : OriginalRecovery) (current : HlsCandidate)
    (production : ProductionEstimate) (buffer : BufferEstimate) (hls_delivery : CapacityEstimate)
    (remaining_ms : Z) : RecoveryVerdict * OriginalRecovery :=
  let inputs := recovery_inputs self (or_probe self) production buffer hls_delivery remaining_ms in
  let best := best_hls self current buffer hls_delivery in
  let '(mode, reason, winner, loser) := choose_mode inputs current best (or_policy self) in
  let self :=
    self <| or_last_comparison :=
              Some (mk_comparison mode reason winner loser (cd_rung best)
                      (benefit_scale_pm remaining_ms (or_policy self))) |>
         <| or_source_probe_state := Probe_Terminal |> in
  (if bool_decide (mode = Mode_Original) then Recover else NotWorthIt, self).

Definition reconsider_after_hls_commit (self : OriginalRecovery) (current : HlsCandidate)
    (production : ProductionEstimate) (buffer : BufferEstimate) (hls_delivery : CapacityEstimate)
    (remaining_ms : Z) : option RetainedProbeDecision * OriginalRecovery :=
  match or_source_probe_state self with
  | ReconsiderAfterHlsCommit =>
      let measured_kbps := ce_slow_kbps (or_probe self) in
      let '(verdict, self) :=
        decide_from_completed_probe self current production buffer hls_delivery remaining_ms in
      (Some (mk_retained verdict measured_kbps), self)
  | _ => (None, self)
  end.

Definition observe_probe (self : OriginalRecovery) (observation : CapacityObservation)
    (current : HlsCandidate) (production : ProductionEstimate) (buffer : BufferEstimate)
    (hls_delivery : CapacityEstimate) (remaining_ms : Z) : RecoveryVerdict * OriginalRecovery :=
  let self := begin_probe_attempt self in
  if negb (co_completed observation) then
    (Insufficient, await_stronger_hls self 0 hls_delivery)
  else
    let self := self <| or_probe := mk_capacity (co_kbps observation) (co_kbps observation) 0 1 |> in
    let requirement := source_requirement_kbps (or_source_kbps self) (or_policy self) in
    if co_kbps observation <? requirement then
      (Insufficient, await_stronger_hls self (co_kbps observation) hls_delivery)
    else decide_from_completed_probe self current production buffer hls_delivery remaining_ms.

Definition observe_probe_failed (self : OriginalRecovery) (hls_delivery : CapacityEstimate)
  : RecoveryVerdict * OriginalRecovery :=
  let self := begin_probe_attempt self in
  (ProbeFailed, await_stronger_hls self 0 hls_delivery).

(** ** The runtime monitor: leaving Original *)

Definition ORIGINAL_WINDOW_US : Z := 750000.

Inductive OriginalExit := ImminentStarvation | SustainedDeficit | EmergencyLowBuffer.

Record OriginalObservation := mk_original_observation {
  oo_measured_kbps : Z;
  oo_conservative_kbps : Z;
  oo_requirement_kbps : Z;
  oo_buffered_ms : Z;
  oo_slope_ms_per_s : Z;
  oo_horizon_secs : option Z;
  oo_unsafe_deficit_ms : Z;
  oo_fallback : option OriginalExit;
  oo_target : option Rung
}.

Record OriginalModeController := mk_original {
  om_source_kbps : Z;
  om_policy : AbrPolicy;
  om_catalog : HlsActuatorCatalog;
  om_delivery : CapacityEstimate;
  om_buffer : BufferEstimate;
  om_history : TransitionHistory;
  om_features : SourceFeatures;
  om_last_bytes : Z;
  om_last_active_us : Z;
  om_unsafe_deficit_ms : Z;
  om_unsafe_deficit_active : bool;
  om_last_now_ms : Z
}.
#[export] Instance eta_OriginalModeController : Eta OriginalModeController :=
  fun r => mk_original (om_source_kbps r) (om_policy r) (om_catalog r) (om_delivery r)
             (om_buffer r) (om_history r) (om_features r) (om_last_bytes r) (om_last_active_us r)
             (om_unsafe_deficit_ms r) (om_unsafe_deficit_active r) (om_last_now_ms r).

Definition original_new (source_kbps : Z) (policy : AbrPolicy) (catalog : HlsActuatorCatalog)
    (history : TransitionHistory) (features : SourceFeatures) : option OriginalModeController :=
  if 0 <? source_kbps then
    Some (mk_original source_kbps policy catalog capacity_default buffer_default history features
            0 0 0 false 0)
  else None.

Definition on_seek (self : OriginalModeController) (bytes active_us : Z) : OriginalModeController :=
  self <| om_last_bytes := bytes |> <| om_last_active_us := active_us |>
       <| om_unsafe_deficit_ms := 0 |> <| om_unsafe_deficit_active := false |>
       <| om_buffer := buffer_default |>.

Definition on_resume (self : OriginalModeController) (paused_ms : Z) : OriginalModeController :=
  self <| om_delivery := age_ms (om_delivery self) paused_ms (om_policy self) |>
       <| om_buffer := buffer_default |> <| om_unsafe_deficit_ms := 0 |>
       <| om_unsafe_deficit_active := false |>.

Definition fallback_target (self : OriginalModeController) : option Rung :=
  cd_rung <$> or_else (best_for_budget (om_catalog self) (conservative_kbps (om_delivery self)))
                (head (feasible (om_catalog self))).

Definition original_inputs (self : OriginalModeController) (remaining_ms : Z) : ModeInputs :=
  {| mi_current := Mode_Original;
     mi_source_kbps := om_source_kbps self;
     mi_source_raster := source_raster (om_catalog self);
     mi_source_delivery := om_delivery self;
     mi_hls_delivery := om_delivery self;
     mi_production := production_default;
     mi_buffer := om_buffer self;
     mi_remaining_ms := remaining_ms;
     mi_history := om_history self;
     mi_original_feasible := true;
     mi_source_dv := feat_dv (om_features self);
     mi_source_atmos := feat_atmos (om_features self);
     mi_unsafe_deficit_ms := om_unsafe_deficit_ms self |}.

(** The [imminent] conjunction of [verdict]. *)
Definition imminent_starvation (self : OriginalModeController) : bool :=
  let observed_horizon := observed_starvation_secs (om_buffer self) in
  let observed_imminent :=
    match observed_horizon with
    | Some secs => secs <=? starvation_fallback_secs (om_policy self)
    | None => false
    end in
  let confirmation_remaining_ms :=
    Z.max (i64_sat (sustained_unsafe_deficit_ms (om_policy self) - om_unsafe_deficit_ms self)) 0 in
  let confirmation_due := confirmation_remaining_ms =? 0 in
  let cannot_afford_confirmation :=
    match observed_horizon with
    | Some secs =>
        i64_sat (secs * 1000)
        <=? i64_sat (confirmation_remaining_ms + Z.max (emergency_buffer_ms (om_policy self)) 0)
    | None => false
    end in
  observed_imminent && (confirmation_due || cannot_afford_confirmation).

Definition verdict (self : OriginalModeController) (buffered_ms remaining_ms : Z)
    (target : option Rung) : option OriginalExit :=
  match target with
  | None => None
  | Some target =>
      if (0 <? remaining_ms) && (remaining_ms <=? buffered_ms) then None
      else if (buffered_ms <=? emergency_buffer_ms (om_policy self))
              && (be_last_delta_ms (om_buffer self) <? 0) && negb (filling (om_buffer self))
      then Some EmergencyLowBuffer
      else if imminent_starvation self then Some ImminentStarvation
      else if om_unsafe_deficit_ms self <? sustained_unsafe_deficit_ms (om_policy self) then None
      else
        let candidate := candidate (om_catalog self) target in
        let inputs := original_inputs self remaining_ms in
        if bool_decide (chosen_mode inputs candidate candidate (om_policy self) = Mode_Hls)
        then Some SustainedDeficit else None
  end.

Definition clear_deficit (self : OriginalModeController) : OriginalModeController :=
  self <| om_unsafe_deficit_ms := 0 |> <| om_unsafe_deficit_active := false |>.

(** The estimates of one window: its delivery and the reserve at its end. *)
Definition take_window (self : OriginalModeController) (observation : CapacityObservation)
    (buffered_ms wall_delta : Z) : OriginalModeController :=
  let self :=
    if is_collapse observation (om_delivery self)
    then self <| om_delivery := collapse (om_delivery self) (co_kbps observation) |> else self in
  let self := self <| om_delivery := capacity_update (om_delivery self) observation |> in
  self <| om_buffer := buffer_update (om_buffer self) (Some buffered_ms) (Z.max wall_delta 1) |>.

(** [if unsafe_now]: how long the deficit has been confirmed for. *)
Definition track_deficit (self : OriginalModeController) (unsafe_now : bool) (wall_delta : Z)
  : OriginalModeController :=
  if unsafe_now then
    self <| om_unsafe_deficit_ms :=
              if om_unsafe_deficit_active self
              then i64_sat (om_unsafe_deficit_ms self + wall_delta) else 0 |>
         <| om_unsafe_deficit_active := true |>
  else clear_deficit self.

Definition original_observe (self : OriginalModeController) (bytes active_us : Z)
    (buffered : option Z) (remaining_ms now_ms : Z)
  : option OriginalObservation * OriginalModeController :=
  if (bytes <? om_last_bytes self) || (active_us <? om_last_active_us self) then
    (None, (on_seek self bytes active_us) <| om_last_now_ms := now_ms |>)
  else
    let active_delta := active_us - om_last_active_us self in
    if active_delta <? ORIGINAL_WINDOW_US then (None, self)
    else
      let wall_delta := default 0 (i64_checked (u64_sat (now_ms - om_last_now_ms self))) in
      let self := self <| om_last_now_ms := now_ms |> in
      let byte_delta := bytes - om_last_bytes self in
      let self := self <| om_last_bytes := bytes |> <| om_last_active_us := active_us |> in
      let cold_start := be_samples (om_buffer self) =? 0 in
      match buffered with
      | None => (None, clear_deficit self)
      | Some buffered_ms =>
          if byte_delta =? 0 then (None, clear_deficit self)
          else
            let measured_kbps := Z.min (kbps_from byte_delta active_delta) u32_max in
            let observation := mk_observation measured_kbps byte_delta active_delta true in
            let self := take_window self observation buffered_ms wall_delta in
            let requirement := source_requirement_kbps (om_source_kbps self) (om_policy self) in
            let conservative := conservative_kbps (om_delivery self) in
            let immediate := Z.min (ce_fast_kbps (om_delivery self)) measured_kbps in
            let horizon := starvation_horizon buffered_ms requirement immediate in
            let unsafe_horizon :=
              match horizon with
              | Some secs => secs <? starvation_safe_secs (om_policy self)
              | None => false
              end in
            let unsafe_now := unsafe_horizon && negb cold_start && draining (om_buffer self) in
            let self := track_deficit self unsafe_now wall_delta in
            let target := fallback_target self in
            let fallback := verdict self buffered_ms remaining_ms target in
            (Some (mk_original_observation measured_kbps conservative requirement buffered_ms
                     (be_slope_ms_per_s (om_buffer self)) horizon (om_unsafe_deficit_ms self)
                     fallback target), self)
      end.

(** ** Lemmas *)

Record original_wf (s : OriginalModeController) : Prop := {
  omwf_delivery : capacity_wf (om_delivery s);
  omwf_buffer : buffer_wf (om_buffer s);
  omwf_history : history_wf (om_history s);
  omwf_deficit : 0 <= om_unsafe_deficit_ms s <= i64_max;
  omwf_idle : om_unsafe_deficit_active s = false -> om_unsafe_deficit_ms s = 0
}.

Lemma original_new_wf source policy cat h f s :
  history_wf h -> original_new source policy cat h f = Some s -> original_wf s.
Proof.
  intros Hh. unfold original_new. case_match; intros; simplify_eq.
  split; cbn; auto with plx; ints.
Qed.

Lemma on_seek_wf s b a : original_wf s -> original_wf (on_seek s b a).
Proof. intros [? ? ? ? ?]. split; cbn; auto with plx; ints. Qed.

Lemma on_resume_wf s t : original_wf s -> is_u64 t -> original_wf (on_resume s t).
Proof.
  intros [? ? ? ? ?] ?. split; cbn; auto with plx; try ints. apply age_ms_wf; [done|ints].
Qed.

Lemma clear_deficit_wf s : original_wf s -> original_wf (clear_deficit s).
Proof. intros [? ? ? ? ?]. split; cbn; auto; ints. Qed.

(** A measured rate is a [u32], and the observation a window makes is well formed. *)
Lemma window_observation_wf bytes us :
  is_u64 bytes -> is_u64 us ->
  observation_wf (mk_observation (Z.min (kbps_from bytes us) u32_max) bytes us true).
Proof.
  intros Hb Hu. split; cbn; try done. pose proof (kbps_from_range bytes us Hb ltac:(ints)). ints.
Qed.

Lemma take_window_spec s o b wall :
  original_wf s -> observation_wf o -> 0 <= b <= RESERVE_BOUND_MS ->
  let s' := take_window s o b wall in
  original_wf s' /\ om_policy s' = om_policy s /\ om_catalog s' = om_catalog s
  /\ om_history s' = om_history s
  /\ om_unsafe_deficit_ms s' = om_unsafe_deficit_ms s
  /\ om_unsafe_deficit_active s' = om_unsafe_deficit_active s
  /\ om_buffer s' = buffer_update (om_buffer s) (Some b) (Z.max wall 1).
Proof.
  intros [Hd Hb Hh Hdef Hidle] Ho Hbuf. unfold take_window. cbv zeta.
  set (base := if is_collapse o (om_delivery s) then _ else s).
  assert (capacity_wf (om_delivery base)) as Hcap.
  { subst base. destruct (is_collapse _ _); [|done]. apply collapse_wf; [done|apply Ho]. }
  assert (om_policy base = om_policy s /\ om_catalog base = om_catalog s
          /\ om_history base = om_history s /\ om_buffer base = om_buffer s
          /\ om_unsafe_deficit_ms base = om_unsafe_deficit_ms s
          /\ om_unsafe_deficit_active base = om_unsafe_deficit_active s)
    as (E1 & E2 & E3 & E4 & E5 & E6) by (subst base; by destruct (is_collapse _ _)).
  clearbody base. split_and!; try done; [|by cbn -[buffer_update capacity_update]; rewrite E4].
  split; cbn -[buffer_update capacity_update]; rewrite ?E3, ?E4, ?E5, ?E6; try done.
  - by apply capacity_update_wf.
  - apply buffer_update_wf; [done|by intros ? [= <-]].
Qed.

Lemma track_deficit_spec s unsafe wall :
  original_wf s -> 0 <= wall <= i64_max ->
  let s' := track_deficit s unsafe wall in
  original_wf s' /\ om_policy s' = om_policy s /\ om_catalog s' = om_catalog s
  /\ om_history s' = om_history s /\ om_buffer s' = om_buffer s
  /\ om_unsafe_deficit_ms s' <= om_unsafe_deficit_ms s + wall
  /\ (unsafe = false -> om_unsafe_deficit_ms s' = 0 /\ om_unsafe_deficit_active s' = false).
Proof.
  intros [Hd Hb Hh Hdef Hidle] Hwall. unfold track_deficit, clear_deficit.
  destruct unsafe; split_and!; try done; cbn; try (split; cbn; done || ints).
  - split; cbn; try done. destruct (om_unsafe_deficit_active s); ints.
  - destruct (om_unsafe_deficit_active s); ints.
  - lia.
Qed.

(** Everything a window that measured something does, in one place. *)
Lemma original_observe_inv s bytes active buffered remaining now o s' :
  original_wf s -> is_u64 bytes -> is_u64 active -> 0 <= om_last_bytes s ->
  0 <= om_last_active_us s ->
  (forall b, buffered = Some b -> 0 <= b <= RESERVE_BOUND_MS) ->
  original_observe s bytes active buffered remaining now = (Some o, s') ->
  exists b, buffered = Some b /\ original_wf s'
    /\ om_last_bytes s < bytes /\ ORIGINAL_WINDOW_US <= active - om_last_active_us s
    /\ om_policy s' = om_policy s /\ om_catalog s' = om_catalog s
    /\ om_history s' = om_history s
    /\ om_buffer s' = buffer_update (om_buffer s) (Some b)
         (Z.max (default 0 (i64_checked (u64_sat (now - om_last_now_ms s)))) 1)
    /\ oo_target o = fallback_target s' /\ oo_buffered_ms o = b
    /\ oo_fallback o = verdict s' b remaining (fallback_target s')
    /\ (draining (om_buffer s') = false \/ be_samples (om_buffer s) = 0 ->
          om_unsafe_deficit_ms s' = 0 /\ om_unsafe_deficit_active s' = false)
    /\ om_unsafe_deficit_ms s'
       <= om_unsafe_deficit_ms s + default 0 (i64_checked (u64_sat (now - om_last_now_ms s))).
Proof.
  intros Hw Hby Hac Hlb Hla Hbuf. unfold original_observe.
  destruct (Z.ltb_spec bytes (om_last_bytes s)); [done|].
  destruct (Z.ltb_spec active (om_last_active_us s)); [done|]. cbn [orb].
  destruct (Z.ltb_spec (active - om_last_active_us s) ORIGINAL_WINDOW_US); [done|].
  destruct buffered as [b|]; [|done]. specialize (Hbuf b eq_refl).
  set (wall := default 0 _).
  assert (0 <= wall <= i64_max) as Hwall.
  { subst wall. destruct (i64_checked _) eqn:E; cbn; [|ints].
    apply i64_checked_Some in E as [-> E]. ints. }
  clearbody wall.
  change (om_last_bytes (s <| om_last_now_ms := now |>)) with (om_last_bytes s).
  destruct (Z.eqb_spec (bytes - om_last_bytes s) 0); [done|].
  pose proof (window_observation_wf (bytes - om_last_bytes s) (active - om_last_active_us s)
                ltac:(ints) ltac:(ints)) as Hobs.
  set (base := s <| om_last_now_ms := now |> <| om_last_bytes := bytes |>
                 <| om_last_active_us := active |>).
  assert (original_wf base) as Hbase by (destruct Hw; by split).
  destruct (take_window_spec base _ b wall Hbase Hobs Hbuf) as (Hw1 & P1 & C1 & Hh1 & D1 & A1 & B1).
  set (s1 := take_window base _ b wall) in *.
  set (unsafe := _ && draining _).
  assert (draining (om_buffer s1) = false \/ be_samples (om_buffer s) = 0 -> unsafe = false) as Hsafe.
  { subst unsafe. intros [->|Hz]; [by rewrite andb_false_r|].
    change (om_buffer base) with (om_buffer s). by rewrite Hz, andb_false_r. }
  destruct (track_deficit_spec s1 unsafe wall Hw1 Hwall) as (Hw2 & P2 & C2 & Hh2 & B2 & L2 & Z2).
  set (s2 := track_deficit s1 unsafe wall) in *. clearbody s2 s1 unsafe.
  intros E. injection E as <- <-. exists b.
  split_and!; try done; try lia; try congruence.
  - by rewrite P2, P1.
  - by rewrite C2, C1.
  - by rewrite Hh2, Hh1.
  - by rewrite B2, B1.
  - rewrite B2. auto.
  - by rewrite D1 in L2.
Qed.

Lemma fallback_target_feasible s r :
  fallback_target s = Some r -> exists c, c ∈ feasible (om_catalog s) /\ cd_rung c = r.
Proof.
  unfold fallback_target, or_else. intros E.
  pose proof (max_by_key_filter cd_expected_wire_kbps
    (fun c => cd_expected_wire_kbps c <=? conservative_kbps (om_delivery s))
    (feasible (om_catalog s))) as Hb. unfold best_for_budget in E.
  destruct (max_by_key _ _) as [c|].
  - exists c. cbn in E. destruct Hb as [? _]. by simplify_eq.
  - destruct (feasible (om_catalog s)) as [|c l]; [done|]. cbn in E. simplify_eq.
    exists c. split; [left|done].
Qed.

Lemma observed_starvation_draining e secs :
  observed_starvation_secs e = Some secs -> draining e = true.
Proof. unfold observed_starvation_secs. by destruct (draining e). Qed.

Lemma draining_not_filling e : draining e = true -> filling e = false.
Proof.
  unfold draining, slope_draining, filling. rewrite Z.ltb_lt, Z.ltb_ge.
  unfold DRAIN_EPS_MS_PER_S. lia.
Qed.

(** Each reason [verdict] gives states what it was concluded from. *)
Lemma verdict_reason s b remaining target exit :
  verdict s b remaining target = Some exit ->
  target <> None
  /\ ~ (0 < remaining <= b)
  /\ match exit with
     | EmergencyLowBuffer =>
         b <= emergency_buffer_ms (om_policy s) /\ be_last_delta_ms (om_buffer s) < 0
         /\ filling (om_buffer s) = false
     | ImminentStarvation =>
         exists secs, observed_starvation_secs (om_buffer s) = Some secs
           /\ secs <= starvation_fallback_secs (om_policy s)
           /\ (sustained_unsafe_deficit_ms (om_policy s) <= om_unsafe_deficit_ms s
               \/ i64_sat (secs * 1000)
                  <= i64_sat (Z.max (i64_sat (sustained_unsafe_deficit_ms (om_policy s)
                                              - om_unsafe_deficit_ms s)) 0
                              + Z.max (emergency_buffer_ms (om_policy s)) 0))
     | SustainedDeficit =>
         sustained_unsafe_deficit_ms (om_policy s) <= om_unsafe_deficit_ms s
         /\ exists r, target = Some r
            /\ chosen_mode (original_inputs s remaining) (candidate (om_catalog s) r)
                 (candidate (om_catalog s) r) (om_policy s) = Mode_Hls
     end.
Proof.
  unfold verdict. destruct target as [r|]; [|done]. intros E. split; [done|].
  destruct ((0 <? remaining) && (remaining <=? b)) eqn:Er; [done|].
  apply andb_false_iff in Er. rewrite Z.ltb_ge, Z.leb_gt in Er. split; [lia|].
  destruct ((b <=? _) && _ && _) eqn:Ee.
  { simplify_eq. rewrite !andb_true_iff, negb_true_iff, Z.leb_le, Z.ltb_lt in Ee. tauto. }
  destruct (imminent_starvation s) eqn:Ei.
  { simplify_eq. unfold imminent_starvation in Ei.
    destruct (observed_starvation_secs (om_buffer s)) as [secs|]; [|done].
    rewrite andb_true_iff, orb_true_iff, Z.eqb_eq, !Z.leb_le in Ei. exists secs.
    destruct Ei as [? [?|?]]; split_and!; try done; [left; ints|by right]. }
  destruct (Z.ltb_spec (om_unsafe_deficit_ms s) (sustained_unsafe_deficit_ms (om_policy s))); [done|].
  case_bool_decide; simplify_eq. split; [done|]. by exists r.
Qed.

(** ** Properties *)

(** The probe's deadline is the exact conservation boundary rounded up: a source that delivers
    at just the rate playback consumes it delivers the whole range within the deadline, and a
    millisecond less would refuse it -- unless the caller's budget is shorter still. *)
Theorem source_probe_plan_conserves source max_budget :
  0 < source <= u32_max -> 0 < max_budget <= u64_max ->
  exists p, source_probe_plan source max_budget = Some p
    /\ SOURCE_PROBE_MIN_BYTES <= target_bytes p <= SOURCE_PROBE_MAX_BYTES
    /\ 1 <= budget_ms p <= max_budget
    /\ (SOURCE_PROBE_MIN_BYTES <= source * 125 <= SOURCE_PROBE_MAX_BYTES ->
        target_bytes p = source * 125)
    /\ (budget_ms p < max_budget ->
        target_bytes p * 8 <= budget_ms p * source
        /\ (budget_ms p - 1) * source < target_bytes p * 8).
Proof.
  intros Hs Hm. unfold source_probe_plan.
  destruct (Z.eqb_spec source 0); [lia|]. destruct (Z.eqb_spec max_budget 0); [lia|]. cbn [orb].
  rewrite (proj2 (usize_checked_Some source source)) by (split; [done|ints]). cbv [default id from_option].
  unfold SOURCE_PROBE_MIN_BYTES, SOURCE_PROBE_MAX_BYTES.
  set (t := Z.max (512 * 1024) _). eexists. split; [done|]. cbn [target_bytes budget_ms].
  assert (524288 <= t <= 8388608 /\ (524288 <= source * 125 <= 8388608 -> t = source * 125))
    as [Ht He] by (subst t; ints).
  clearbody t. assert (u64_sat (u64_sat (t * 8) + (source - 1)) = t * 8 + (source - 1)) as -> by ints.
  set (r := (t * 8 + (source - 1)) / source).
  assert (0 <= r) by (apply Z.div_pos; lia).
  assert (r * source <= t * 8 + (source - 1)) as Hle by (apply le_div_iff; lia).
  assert (t * 8 + (source - 1) < (r + 1) * source) as Hlt by (apply div_lt_iff; lia).
  assert (1 <= r) by (apply le_div_iff; lia).
  split_and!; try lia.
Qed.

(** A source probe is authorised only when the reserve funds its setup, its body and the larger
    of the replay runway and the next HLS object, the reserve is not draining, HLS has nothing
    left to try, and the link evidence is strictly newer than what stopped the last probe. *)
Theorem probe_permit_is_funded self current exhausted production sample rollback runway buffer
    hls remaining plan :
  or_policy self = policy_measured -> is_u32 (or_source_kbps self) ->
  (forall d, rollback = Some d -> is_u32 d) -> (forall r, runway = Some r -> r <= i64_max / 2) ->
  probe_due_with_rollback self current exhausted production sample rollback runway buffer hls
    remaining = inl plan ->
  source_probe_plan (or_source_kbps self) 4000 = Some plan
  /\ (exists r d b, runway = Some r /\ rollback = Some d /\ buffered_ms (ss_buffer sample) = Some b
        /\ 2 * budget_ms plan + Z.max (Z.max r 0) d <= b)
  /\ draining buffer = false
  /\ exhausted = true
  /\ (or_source_probe_state self = Probe_Fresh
      \/ exists floor, or_source_probe_state self = AwaitHlsAbove floor
         /\ floor < conservative_kbps hls)
  /\ worth_probing self current production buffer hls remaining = true.
Proof.
  intros Hpol Hsrc Hd Hr. unfold probe_due_with_rollback, probe_funding. rewrite Hpol.
  change (probe_budget_ms policy_measured) with 4000. intros E.
  destruct (source_probe_plan (or_source_kbps self) 4000) as [p|] eqn:Ep; [|done].
  destruct runway as [r|]; [|done]. destruct rollback as [d|]; [|done].
  destruct (buffered_ms (ss_buffer sample)) as [b|] eqn:Eb; [|done].
  cbn [mbind option_bind] in E. specialize (Hd d eq_refl). specialize (Hr r eq_refl).
  assert (1 <= budget_ms p <= 4000) as Hbud.
  { unfold source_probe_plan in Ep. destruct (_ || _); [done|]. simplify_eq. cbn. lia. }
  change (i64_max / 2) with 4611686018427387903 in Hr.
  rewrite (proj2 (i64_checked_Some (budget_ms p) (budget_ms p))) in E by (split; [done|ints]).
  cbv [default id from_option] in E.
  destruct (negb _) eqn:Eg; [done|]. rewrite negb_false_iff, !andb_true_iff, Z.leb_le in Eg.
  destruct Eg as [[Hdeep Hdr] Hex]. rewrite negb_true_iff in Hdr.
  assert (2 * budget_ms p + Z.max (Z.max r 0) d <= b) as Hfund by ints.
  destruct (or_source_probe_state self) as [|floor| | |] eqn:Es;
    try (destruct (Z.ltb_spec floor (conservative_kbps hls))); try done;
    destruct (worth_probing self current production buffer hls remaining) eqn:Ew;
    try done; cbn [negb] in E; simplify_eq; split_and!; try done; try (by exists r, d, b);
    [by left|right; by exists floor].
Qed.

(** A probe is never repeated on the evidence that already answered it.  A truncated response
    is no measurement; a completed one below the requirement, or a failed one, waits for HLS
    evidence strictly above both what the source just did and what HLS was just doing; a
    completed decision is final until HLS commits another rung, and [Recover] is given only for
    a completed response at least as fast as the source that also wins the comparison. *)
Theorem source_probe_never_repeats self obs current production buffer hls remaining v self' :
  is_u32 (co_kbps obs) ->
  observe_probe self obs current production buffer hls remaining = (v, self') ->
  v <> ProbeFailed
  /\ (co_completed obs = false -> v = Insufficient /\ or_probe self' = or_probe self)
  /\ (v = Insufficient <->
      co_completed obs = false \/ co_kbps obs < or_source_kbps self)
  /\ (v = Recover ->
      chosen_mode
        (recovery_inputs self (mk_capacity (co_kbps obs) (co_kbps obs) 0 1) production buffer hls
           remaining)
        current (best_hls self current buffer hls) (or_policy self) = Mode_Original)
  /\ (forall c x p s rb rw b h r plan,
        probe_due_with_rollback self' c x p s rb rw b h r = inl plan ->
        v = Insufficient /\ ce_fast_kbps hls < conservative_kbps h
        /\ (co_completed obs = true -> co_kbps obs < conservative_kbps h))
  /\ (forall h v' self'', observe_probe_failed self h = (v', self'') ->
        v' = ProbeFailed /\ or_source_probe_state self'' = AwaitHlsAbove (Z.max 0 (ce_fast_kbps h))).
Proof.
  intros Hk E.
  assert (forall st c x p s rb rw b h r plan,
            probe_due_with_rollback st c x p s rb rw b h r = inl plan ->
            or_source_probe_state st = Probe_Fresh
            \/ exists floor, or_source_probe_state st = AwaitHlsAbove floor
               /\ floor < conservative_kbps h) as Hpermit.
  { intros st c x p s rb rw b h r plan. unfold probe_due_with_rollback.
    destruct (negb (_ && _ && x)); [done|].
    destruct (or_source_probe_state st) as [|floor| | |]; try done; [by left|].
    destruct (Z.ltb_spec floor (conservative_kbps h)); [|done]. right. by exists floor. }
  assert (forall h v' self'', observe_probe_failed self h = (v', self'') ->
        v' = ProbeFailed /\ or_source_probe_state self'' = AwaitHlsAbove (Z.max 0 (ce_fast_kbps h)))
    as Hfail by (intros h v' self'' E'; unfold observe_probe_failed in E'; by simplify_eq).
  unfold observe_probe in E. destruct (co_completed obs); cbn [negb] in E.
  - set (started := begin_probe_attempt self) in E.
    change (source_requirement_kbps (or_source_kbps _) _) with (or_source_kbps self) in E.
    destruct (Z.ltb_spec (co_kbps obs) (or_source_kbps self)) as [Hlow|Hhigh].
    + simplify_eq. split_and!; try done; [split; [by right|done]|].
      intros ? ? ? ? ? ? ? h ? ? [?|(floor & Ef & ?)]%Hpermit; [done|].
      cbn in Ef. simplify_eq. split_and!; [done|lia|intros; lia].
    + unfold decide_from_completed_probe in E. unfold chosen_mode.
      change (recovery_inputs (started <| or_probe := _ |>) _ production buffer hls remaining)
        with (recovery_inputs self (mk_capacity (co_kbps obs) (co_kbps obs) 0 1) production buffer
                hls remaining) in E.
      change (best_hls (started <| or_probe := _ |>) current buffer hls)
        with (best_hls self current buffer hls) in E.
      change (or_policy (started <| or_probe := _ |>)) with (or_policy self) in E.
      destruct (choose_mode _ _ _ _) as [[[mode reason] winner] loser]. cbn [fst].
      injection E as <- <-. split_and!.
      * by case_bool_decide.
      * done.
      * case_bool_decide; split; intros; (done || lia || (exfalso; intuition (lia || done))).
      * by case_bool_decide.
      * intros ? ? ? ? ? ? ? ? ? ? [?|(floor & Ef & ?)]%Hpermit; done.
      * done.
  - simplify_eq. split_and!; try done; [split; [by left|done]|].
    intros ? ? ? ? ? ? ? h ? ? [?|(floor & Ef & ?)]%Hpermit; [done|].
    cbn in Ef. simplify_eq. split_and!; [done|lia|done].
Qed.

(** Leaving Original is visible, so it is justified: it goes to a feasible rung, never while the
    reserve outlasts the film, never while the reserve is refilling, never on the first window
    after an open, a seek or a resume; an imminent exit has observed the reserve run down within
    the fallback horizon, and a sustained one has observed it run down for the whole
    confirmation interval. *)
Theorem fallback_is_justified s bytes active buffered remaining now o s' exit :
  original_wf s -> is_u64 bytes -> is_u64 active -> 0 <= om_last_bytes s ->
  0 <= om_last_active_us s ->
  (forall b, buffered = Some b -> 0 <= b <= RESERVE_BOUND_MS) ->
  0 < sustained_unsafe_deficit_ms (om_policy s) ->
  original_observe s bytes active buffered remaining now = (Some o, s') ->
  oo_fallback o = Some exit ->
  (exists c, c ∈ feasible (om_catalog s) /\ oo_target o = Some (cd_rung c))
  /\ ~ (0 < remaining <= oo_buffered_ms o)
  /\ filling (om_buffer s') = false
  /\ om_buffer s <> buffer_default
  /\ (exit = EmergencyLowBuffer -> oo_buffered_ms o <= emergency_buffer_ms (om_policy s))
  /\ (exit = ImminentStarvation ->
      exists secs, observed_starvation_secs (om_buffer s') = Some secs
        /\ secs <= starvation_fallback_secs (om_policy s))
  /\ (exit = SustainedDeficit ->
      draining (om_buffer s') = true
      /\ sustained_unsafe_deficit_ms (om_policy s) <= om_unsafe_deficit_ms s').
Proof.
  intros Hw Hby Hac Hlb Hla Hbuf Hsust E Hexit.
  destruct (original_observe_inv _ _ _ _ _ _ _ _ Hw Hby Hac Hlb Hla Hbuf E)
    as (b & -> & Hw' & _ & _ & Hp & Hc & _ & Hbu & Ht & Hb & Hf & Hz & _).
  rewrite Hexit in Hf. symmetry in Hf. apply verdict_reason in Hf as (Htn & Hrem & Hwhy).
  rewrite Hp in Hwhy.
  assert (om_buffer s = buffer_default ->
          be_last_delta_ms (om_buffer s') = 0 /\ draining (om_buffer s') = false) as Hfirst.
  { intros Ed. rewrite Hbu, Ed. done. }
  split_and!.
  - rewrite Ht. destruct (fallback_target s') as [r|] eqn:Er; [|done].
    apply fallback_target_feasible in Er as (c & Hin & <-). rewrite Hc in Hin. by exists c.
  - by rewrite Hb.
  - destruct exit.
    + destruct Hwhy as (secs & Ho & _). by apply observed_starvation_draining, draining_not_filling in Ho.
    + destruct Hwhy as [Hs _]. destruct (draining (om_buffer s')) eqn:Ed; [by apply draining_not_filling|].
      destruct (Hz (or_introl eq_refl)) as [Hz0 _]. lia.
    + by destruct Hwhy as (_ & _ & ?).
  - intros Ed. destruct (Hfirst Ed) as [Hd0 Hdr]. destruct exit.
    + destruct Hwhy as (secs & Ho & _). apply observed_starvation_draining in Ho. congruence.
    + destruct Hwhy as [Hs _]. destruct (Hz (or_introl Hdr)) as [Hz0 _]. lia.
    + lia.
  - intros ->. rewrite Hb. by destruct Hwhy.
  - intros ->. destruct Hwhy as (secs & ? & ? & _). by exists secs.
  - intros ->. destruct Hwhy as [Hs _]. split; [|done].
    destruct (draining (om_buffer s')) eqn:Ed; [done|].
    destruct (Hz (or_introl eq_refl)) as [Hz0 _]. lia.
Qed.
