(* ===== verification/Bootstrap.v ===== *)
(** * Cold start and hand-back

    [media/src/abr/bootstrap.rs]: the opening decision of a playback, where every estimator is
    empty, and the rung an existing playback re-enters Auto at. *)

From S2P Require Import Prelude Vocabulary Estimate Ladder Plant Catalog Viability Original.

Inductive LinkKind := Local | Remote | Relay.

Inductive BootstrapReason :=
| LocalDirect | Boot_OriginalInfeasible | RelayLimited | ProbeSustainable | ProbeBelowRequirement
| ProbeInconclusive.

Record BootstrapDecision := mk_bootstrap {
  bd_original : bool;
  bd_rung : Rung;
  bd_reason : BootstrapReason;
  bd_prior : option CapacityEstimate
}.

Definition startup_rung (measured_kbps : Z) (catalog : HlsActuatorCatalog) (fallback : Rung)
  : Rung :=
  match best_for_budget catalog measured_kbps with Some c => cd_rung c | None => fallback end.

(** The unknown-link starting point both entries share. *)
Definition startup_fallback (catalog : HlsActuatorCatalog) (policy : AbrPolicy)
  : option HlsCandidate :=
  or_else (best_for_budget catalog (policy_startup_floor_kbps policy)) (head (feasible catalog)).

Definition bootstrap (link : LinkKind) (original_feasible : bool) (source_kbps : Z)
    (probe : option CapacityObservation) (catalog : HlsActuatorCatalog) (policy : AbrPolicy)
  : BootstrapDecision :=
  let fallback_rung :=
    match startup_fallback catalog policy with Some c => cd_rung c | None => P480 end in
  let deny reason := mk_bootstrap false fallback_rung reason None in
  if negb original_feasible then deny Boot_OriginalInfeasible
  else
    match link with
    | Local => mk_bootstrap true fallback_rung LocalDirect None
    | Relay => deny RelayLimited
    | Remote =>
        match probe with
        | Some probe =>
            if (0 <? co_kbps probe) && (0 <? source_kbps) then
              if negb (co_completed probe) then deny ProbeInconclusive
              else
                let sustainable :=
                  original_sustainable source_kbps (co_kbps probe) (co_completed probe) policy in
                let prior := demote_to_prior (capacity_update capacity_default probe) in
                mk_bootstrap sustainable (startup_rung (co_kbps probe) catalog fallback_rung)
                  (if sustainable then ProbeSustainable else ProbeBelowRequirement)
                  (Some prior)
            else deny ProbeInconclusive
        | None => deny ProbeInconclusive
        end
    end.

Definition hls_reentry_rung (current : option Rung) (prior : option CapacityEstimate)
    (catalog : HlsActuatorCatalog) (policy : AbrPolicy) : Rung :=
  let fallback := startup_fallback catalog policy in
  let current :=
    rung ← current;
    List.find (fun c => bool_decide (cd_rung c = rung)) (feasible catalog) in
  let posterior :=
    estimate ← prior; best_for_budget catalog (conservative_kbps estimate) in
  match
    max_by_key cd_expected_wire_kbps
      (option_list fallback ++ option_list current ++ option_list posterior)
  with
  | Some c => cd_rung c
  | None => P480
  end.

(** ** Lemmas *)

Lemma elem_of_option_list {A} (o : option A) x : x ∈ option_list o <-> o = Some x.
Proof.
  destruct o as [y|]; cbn.
  - rewrite list_elem_of_singleton. split; [by intros ->|by intros [= ->]].
  - rewrite elem_of_nil. done.
Qed.

Lemma best_for_budget_in cat b c : best_for_budget cat b = Some c -> c ∈ feasible cat.
Proof. intros [[? _]%elem_of_filterb _]%max_by_key_Some. done. Qed.

Lemma startup_fallback_spec cat policy :
  match startup_fallback cat policy with
  | Some c => c ∈ feasible cat
  | None => feasible cat = []
  end.
Proof.
  unfold startup_fallback, or_else. destruct (best_for_budget cat _) as [c|] eqn:E.
  - by eapply best_for_budget_in.
  - destruct (feasible cat); [done|left].
Qed.

Definition feasible_rung (cat : HlsActuatorCatalog) (r : Rung) : Prop :=
  exists c, c ∈ feasible cat /\ cd_rung c = r.

Lemma startup_rung_feasible cat policy k :
  feasible cat <> [] ->
  feasible_rung cat
    (startup_rung k cat
       (match startup_fallback cat policy with Some c => cd_rung c | None => P480 end)).
Proof.
  intros Hne. unfold startup_rung. destruct (best_for_budget cat k) as [c|] eqn:E.
  - exists c. split; [by eapply best_for_budget_in|done].
  - pose proof (startup_fallback_spec cat policy) as Hs.
    destruct (startup_fallback cat policy) as [c|]; [|done]. by exists c.
Qed.

(** ** Properties *)

(** Cold start never holds the screen for a proof and never claims more than was measured: the
    source is opened only when it is feasible and either the link is local or a completed probe
    delivered at least the source's rate; a truncated probe is no evidence at all; the opening
    rung is always one this playback may run, costs no more than a usable probe measured
    whenever anything does, and what is handed on as a prior is weak. *)
Theorem bootstrap_claims_only_evidence link ok source probe cat policy :
  feasible cat <> [] -> (forall p, probe = Some p -> observation_wf p) -> is_u32 source ->
  let d := bootstrap link ok source probe cat policy in
  feasible_rung cat (bd_rung d)
  /\ (bd_original d = true <->
      ok = true
      /\ (link = Local
          \/ link = Remote /\ exists p, probe = Some p /\ co_completed p = true
               /\ 0 < source <= co_kbps p))
  /\ (forall e, bd_prior d = Some e ->
      exists p, probe = Some p /\ co_completed p = true
        /\ ce_slow_kbps e = co_kbps p /\ ce_samples e = 1 /\ 500 <= ce_uncertainty_pm e
        /\ (forall c, best_for_budget cat (co_kbps p) = Some c ->
              bd_rung d = cd_rung c /\ cd_expected_wire_kbps c <= co_kbps p)).
Proof.
  intros Hne Hp Hs d.
  assert (forall b reason prior, feasible_rung cat (bd_rung (mk_bootstrap b
     (match startup_fallback cat policy with Some c => cd_rung c | None => P480 end) reason prior)))
    as Hfb.
  { intros b reason prior. cbn. pose proof (startup_fallback_spec cat policy) as Hf.
    destruct (startup_fallback cat policy) as [c|]; [|done]. by exists c. }
  subst d. unfold bootstrap. destruct ok; cbn [negb].
  2: { split_and!; [apply Hfb| |done]. split; [done|by intros [? _]]. }
  destruct link.
  - split_and!; [apply Hfb| |done]. split; [by intros _; split; [|left]|done].
  - destruct probe as [p|].
    2: { split_and!; [apply Hfb| |done]. split; [done|]. by intros (_ & [?|(_ & ? & ? & _)]). }
    specialize (Hp p eq_refl). destruct Hp as [Hk _ _].
    destruct (Z.ltb_spec 0 (co_kbps p)) as [Hk0|]; cbn [andb].
    2: { split_and!; [apply Hfb| |done]. split; [done|].
         intros (_ & [?|(_ & ? & ? & ? & ?)]); simplify_eq. lia. }
    destruct (Z.ltb_spec 0 source) as [Hs0|].
    2: { split_and!; [apply Hfb| |done]. split; [done|].
         intros (_ & [?|(_ & ? & ? & ? & ?)]); simplify_eq. lia. }
    destruct (co_completed p) eqn:Ec; cbn [negb].
    2: { split_and!; [apply Hfb| |done]. split; [done|].
         intros (_ & [?|(_ & ? & ? & ? & ?)]); simplify_eq; congruence. }
    split_and!.
    + by apply startup_rung_feasible.
    + cbn [bd_original]. unfold original_sustainable. rewrite (proj2 (Z.ltb_lt 0 source) Hs0).
      cbn [andb]. rewrite Z.leb_le. split.
      * intros Hle. split; [done|]. right. split; [done|]. by exists p.
      * intros (_ & [?|(_ & q & ? & ? & ?)]); simplify_eq. lia.
    + cbn [bd_prior bd_rung]. intros e [= <-]. exists p.
      assert (capacity_update capacity_default p
              = mk_capacity (co_kbps p) (co_kbps p) 500 1) as ->.
      { unfold capacity_update. rewrite Ec. done. }
      split_and!; try done. intros c Ebest. unfold startup_rung. rewrite Ebest. split; [done|].
      apply max_by_key_Some in Ebest as [[_ Hle%Z.leb_le]%elem_of_filterb _]. done.
  - split_and!; [apply Hfb| |done]. split; [done|]. by intros (_ & [?|(? & _)]).
Qed.

(** Handing a playback back to Auto never starts it below the rung it replaces, as far as that
    is feasible, nor below what its own history supports, and never outside what is feasible. *)
Theorem reentry_never_steps_back current prior cat policy :
  catalog_wf cat -> feasible cat <> [] ->
  let r := hls_reentry_rung current prior cat policy in
  feasible_rung cat r
  /\ (forall c, current = Some c -> feasible_rung cat c -> rung_le c r = true)
  /\ (forall e c, prior = Some e -> best_for_budget cat (conservative_kbps e) = Some c ->
        rung_le (cd_rung c) r = true).
Proof.
  intros Hw Hne r. subst r. unfold hls_reentry_rung.
  set (l := option_list _ ++ _).
  assert (forall c, c ∈ l -> c ∈ feasible cat) as Hl.
  { subst l. intros c. rewrite !elem_of_app, !elem_of_option_list.
    intros [Hf|[Hc|Hp]].
    - pose proof (startup_fallback_spec cat policy) as Hs. by rewrite Hf in Hs.
    - destruct current as [r|]; [|done]. cbn in Hc. apply find_some in Hc as [Hc _].
      by apply list_elem_of_In.
    - destruct prior as [e|]; [|done]. by eapply best_for_budget_in. }
  assert (forall a b, a ∈ feasible cat -> b ∈ feasible cat ->
            cd_expected_wire_kbps a <= cd_expected_wire_kbps b ->
            rung_le (cd_rung a) (cd_rung b) = true) as Hmono.
  { intros a b Ha Hb Hab. unfold rung_le. apply Nat.leb_le, Nat.nlt_ge. intros Hlt%Nat.ltb_lt.
    change (rung_lt (cd_rung b) (cd_rung a) = true) in Hlt.
    rewrite measured_points_sorted in Hlt by (eapply feasible_points; done).
    apply Z.ltb_lt in Hlt. lia. }
  destruct (max_by_key cd_expected_wire_kbps l) as [m|] eqn:Em.
  - apply max_by_key_Some in Em as [Hin Hmax]. split; [exists m; auto|]. split.
    + intros c -> (x & Hx & <-).
      assert (x ∈ l) as Hxl.
      { subst l. rewrite !elem_of_app, !elem_of_option_list. right. left. cbn.
        destruct (List.find _ (feasible cat)) as [y|] eqn:Ef.
        - apply find_some in Ef as [Hy Hd%bool_decide_eq_true]. f_equal.
          apply list_elem_of_In in Hy. apply measured_points_inj; try done;
            by eapply feasible_points.
        - eapply find_none in Ef; [|by apply list_elem_of_In].
          by rewrite bool_decide_true in Ef. }
      apply Hmono; auto.
    + intros e c -> Eb. assert (c ∈ l) as Hcl.
      { subst l. rewrite !elem_of_app, !elem_of_option_list. by right; right. }
      apply Hmono; auto.
  - apply max_by_key_None in Em. pose proof (startup_fallback_spec cat policy) as Hs.
    subst l. destruct (startup_fallback cat policy); [done|]. done.
Qed.
