(* ===== verification/Controller.v ===== *)
(** * The adaptive controller

    [media/src/abr/controller.rs]: the transaction state machine that proposes a rung, grades the
    candidate that was actually acquired, commits or rejects it, and remembers what failed. *)

From S2P Require Import Prelude Vocabulary Estimate Window Ladder Plant Catalog Viability Mode.

(** ** Data *)

Inductive HlsReason :=
| SafeBudgetIncrease | UnsafeCurrentState | ProductionConstraint | BufferConstraint | LadderFloor
| StarvationHorizon | RejectBackoff | EvidenceWindow | DeadlineRollback | ReserveUnknown
| AtBestRung | SwitchCost | ResponseLimited.

(** [DecisionReason] has the one constructor [Hls]. *)
Inductive DecisionReason := Reason_Hls (r : HlsReason).

Inductive HlsExplorationState := Open | CommonBudgetBlocked | PerRungExhausted.
#[export] Instance HlsExplorationState_eq_dec : EqDecision HlsExplorationState.
Proof. solve_decision. Defined.

Inductive RejectCause :=
| Censored | Candidate | CompletedUnsustainable | Structural | ResponseUnchanged
| StructuralAtOrBelow | Circumstance.
#[export] Instance RejectCause_eq_dec : EqDecision RejectCause.
Proof. solve_decision. Defined.

Record FailureCertificate := mk_failure {
  deadline_budget_ms : option Z;
  service_endpoint : bool;
  completed_unsustainable_hls_fast_kbps : option Z;
  structural : bool
}.
#[export] Instance eta_FailureCertificate : Eta FailureCertificate :=
  fun r => mk_failure (deadline_budget_ms r) (service_endpoint r)
             (completed_unsustainable_hls_fast_kbps r) (structural r).
Definition failure_default : FailureCertificate := mk_failure None false None false.
#[export] Instance failure_inhabited : Inhabited FailureCertificate := populate failure_default.

Definition completed_unsustainable_blocks (self : FailureCertificate)
    (delivery : CapacityEstimate) : bool :=
  match completed_unsustainable_hls_fast_kbps self with
  | Some old_regime => conservative_kbps delivery <=? old_regime
  | None => false
  end.

(** [frontier.is_some_and(|failed| budget.is_none_or(|budget| budget <= failed))]. *)
Definition budget_within (frontier budget : option Z) : bool :=
  match frontier with
  | Some failed => match budget with Some budget => budget <=? failed | None => true end
  | None => false
  end.

Definition blocks (self : FailureCertificate) (exploration_budget_ms : option Z)
    (delivery : CapacityEstimate) : bool :=
  structural self || completed_unsustainable_blocks self delivery
  || budget_within (deadline_budget_ms self) exploration_budget_ms.

Definition service_blocks (self : FailureCertificate) (_exploration_budget_ms : option Z)
    (delivery : CapacityEstimate) : bool :=
  completed_unsustainable_blocks self delivery || service_endpoint self.

Inductive Decision := Stay | Prime (p : Proposal).

Inductive CandidateVerdict :=
| Ready | SetupBearing | Incomplete | Verdict_ReserveUnknown | Unsustainable | Unfunded.
#[export] Instance CandidateVerdict_eq_dec : EqDecision CandidateVerdict.
Proof. solve_decision. Defined.

Record Controller := mk_controller {
  c_current : Rung;
  c_pending : option Proposal;
  c_pending_reserve_policy : option ReservePolicy;
  c_delivery : CapacityEstimate;
  c_production : ProductionEstimate;
  c_buffer : BufferEstimate;
  c_catalog : HlsActuatorCatalog;
  c_policy : AbrPolicy;
  c_samples_on_rung : Z;
  c_now_ms : Z;
  c_last_buffer_observation_ms : option Z;
  c_rollback_media_ms : option Z;
  c_failures : list FailureCertificate;
  c_common_budget_frontier_ms : option Z;
  c_pending_exploration_budget_ms : Z;
  c_rollback_rung : option Rung;
  c_recovery_target : option Rung;
  c_last_reason : option DecisionReason;
  c_last_safe_budget_kbps : Z;
  c_last_emergency_horizon : option Z;
  c_pin : option Rung;
  c_acquisitions : AcquisitionWindow;
  c_last_window : AdmissionReadout;
  c_active_variant : option ObservedHlsVariant;
  c_active_variant_evidence_kbps : option Z;
  c_visible_switches : Z;
  c_last_switch_ms : option Z
}.
#[export] Instance eta_Controller : Eta Controller :=
  fun r => mk_controller (c_current r) (c_pending r) (c_pending_reserve_policy r) (c_delivery r)
    (c_production r) (c_buffer r) (c_catalog r) (c_policy r) (c_samples_on_rung r) (c_now_ms r)
    (c_last_buffer_observation_ms r) (c_rollback_media_ms r) (c_failures r)
    (c_common_budget_frontier_ms r) (c_pending_exploration_budget_ms r) (c_rollback_rung r)
    (c_recovery_target r) (c_last_reason r) (c_last_safe_budget_kbps r)
    (c_last_emergency_horizon r) (c_pin r) (c_acquisitions r) (c_last_window r)
    (c_active_variant r) (c_active_variant_evidence_kbps r) (c_visible_switches r)
    (c_last_switch_ms r).

Definition starting_at (current : Rung) (prior : option CapacityEstimate)
    (catalog : HlsActuatorCatalog) : Controller :=
  {| c_current := current;
     c_pending := None;
     c_pending_reserve_policy := None;
     c_delivery := default capacity_default prior;
     c_production := production_default;
     c_buffer := buffer_default;
     c_catalog := catalog;
     c_policy := policy_measured;
     c_samples_on_rung := 0;
     c_now_ms := 0;
     c_last_buffer_observation_ms := None;
     c_rollback_media_ms := None;
     c_failures := replicate (length LADDER) failure_default;
     c_common_budget_frontier_ms := None;
     c_pending_exploration_budget_ms := 0;
     c_rollback_rung := None;
     c_recovery_target := None;
     c_last_reason := None;
     c_last_safe_budget_kbps := 0;
     c_last_emergency_horizon := None;
     c_pin := None;
     c_acquisitions := window_default;
     c_last_window := readout_default;
     c_active_variant := None;
     c_active_variant_evidence_kbps := None;
     c_visible_switches := 0;
     c_last_switch_ms := None |}.

Definition pinned_to (self : Controller) (pin : option Rung) : Controller :=
  self <| c_pin := pin |>.

(** [failures[rung.index()]]. *)
Definition failure (self : Controller) (rung : Rung) : FailureCertificate :=
  c_failures self !!! index rung.

Definition set_failure (self : Controller) (rung : Rung) (f : FailureCertificate) : Controller :=
  self <| c_failures := <[index rung := f]> (c_failures self) |>.

(** ** The live response *)

Definition observe_active_variant (self : Controller) (variant : ObservedHlsVariant)
    (evidence_kbps : Z) : Controller :=
  if bool_decide (c_active_variant self = Some variant) then self
  else self <| c_active_variant := Some variant |>
            <| c_active_variant_evidence_kbps := Some evidence_kbps |>.

Definition active_variant_needs_refresh (self : Controller) : bool :=
  match c_active_variant self with
  | Some variant =>
      definitively_underfills variant (c_current self) (source_raster (c_catalog self))
  | None => false
  end.

Definition active_variant_refresh_released (self : Controller) : bool :=
  match c_active_variant_evidence_kbps self with
  | Some observed => observed <? conservative_kbps (c_delivery self)
  | None => false
  end.

(** ** Budgets, targets and frontiers *)

(** Microseconds to milliseconds, rounded up. *)
Definition ceil_ms (us : Z) : Z := Z.quot us 1000 + (if Z.rem us 1000 =? 0 then 0 else 1).

Definition prime_runway_ms (self : Controller) : option Z :=
  ceil_ms <$> observed_runway_us (c_acquisitions self).

Definition exploration_budget_ms_for (self : Controller) (reserve_ms : Z)
    (rollback_media_ms : option Z) : option Z :=
  observed ← observed_admission (c_acquisitions self) reserve_ms;
  if negb (ad_sustainable observed) then None
  else
    let runway_ms := ceil_ms (ad_runway_us observed) in
    rollback_media_ms ← rollback_media_ms;
    if negb (0 <? rollback_media_ms) then None
    else
      let rollback_reserve_ms := Z.max runway_ms rollback_media_ms in
      let budget := i64_sat (reserve_ms - rollback_reserve_ms) in
      if 0 <? budget then Some budget else None.

Definition exploration_budget_ms (self : Controller) (reserve_ms : Z) : option Z :=
  exploration_budget_ms_for self reserve_ms (c_rollback_media_ms self).

Definition common_budget_blocks (self : Controller) (exploration_budget_ms : option Z) : bool :=
  budget_within (c_common_budget_frontier_ms self) exploration_budget_ms.

(** The feasible rungs above the current one, in ladder order. *)
Definition rungs_above (self : Controller) : list Rung :=
  List.filter (fun r => rung_lt (c_current self) r) (cd_rung <$> feasible (c_catalog self)).

Definition rungs_below (self : Controller) : list Rung :=
  List.filter (fun r => rung_lt r (c_current self)) (cd_rung <$> feasible (c_catalog self)).

Definition hls_exploration_state (self : Controller) : HlsExplorationState :=
  let exploration_budget := exploration_budget_ms self (be_buffered_ms (c_buffer self)) in
  if common_budget_blocks self exploration_budget then CommonBudgetBlocked
  else if existsb (fun r => negb (blocks (failure self r) exploration_budget (c_delivery self)))
            (rungs_above self)
  then Open else PerRungExhausted.

Definition hls_frontier_exhausted (self : Controller) : bool :=
  negb (bool_decide (hls_exploration_state self = Open)).

Definition recovery_floor (self : Controller) : Rung :=
  default (c_current self) (min_by_key rung_key (rungs_below self)).

Definition completed_recovery_target (self : Controller) (safe_budget_kbps buffered_ms : Z)
  : Rung :=
  match
    max_by_key cd_expected_wire_kbps
      (List.filter
         (fun c => modeled_sustainable (c_catalog self) c safe_budget_kbps (c_policy self)
                     buffered_ms)
         (List.filter (fun c => rung_lt (cd_rung c) (c_current self)) (feasible (c_catalog self))))
  with
  | Some c => cd_rung c
  | None => recovery_floor self
  end.

(** ** The price of a picture change *)

Definition visible_switch_history (self : Controller) : TransitionHistory :=
  mk_history (c_visible_switches self)
    ((fun at_ms => u64_sat (c_now_ms self - at_ms)) <$> c_last_switch_ms self).

Definition upshift_earns_its_visible_switch (self : Controller) (target : Rung) : bool :=
  if bool_decide (target = c_current self) then true
  else
    let price := i64_sat (penalty (visible_switch_history self) (c_policy self) * 1000) in
    if price <=? 0 then true
    else
      let '(width, height) := raster target in
      let '(current_width, current_height) := raster (c_current self) in
      if (current_width <? width) || (current_height <? height) then true
      else
        let score rung :=
          quality_score_pm_at_kbps (cd_expected_wire_kbps (candidate (c_catalog self) rung)) in
        price <=? score target - score (c_current self).

(** ** Observation: [observe_inner]

    The method is given in the order of its source: what every sample records
    ([take_evidence]), then the decision, cut at its early returns. *)

(** [self.pending = Some(..); self.pending_reserve_policy = Some(..); return Prime(..)]. *)
Definition prime (self : Controller) (rung : Rung) (direction : Direction) (rp : ReservePolicy)
  : Decision * Controller :=
  let proposal := mk_proposal rung direction in
  (Prime proposal,
   self <| c_pending := Some proposal |> <| c_pending_reserve_policy := Some rp |>).

Definition with_reason (self : Controller) (reason : HlsReason) : Controller :=
  self <| c_last_reason := Some (Reason_Hls reason) |>.

Definition stay (self : Controller) (reason : HlsReason) : Decision * Controller :=
  (Stay, with_reason self reason).

(** The clamped observation of the current rung's response. *)
Definition sample_observation (self : Controller) (sample : SegmentSample)
  : CapacityObservation :=
  clamped_to_evidence
    (mk_observation (network_kbps sample) (ss_bytes sample) (ss_active_fetch_us sample)
       (ss_completed sample))
    (cd_expected_wire_kbps (candidate (c_catalog self) (c_current self))).

Definition take_delivery (self : Controller) (sample : SegmentSample) : Controller :=
  let current_candidate := candidate (c_catalog self) (c_current self) in
  let observation := sample_observation self sample in
  let completed := ss_completed sample in
  let network := if completed then co_kbps observation else ce_fast_kbps (c_delivery self) in
  let regime_changed := completed && is_collapse observation (c_delivery self) in
  let self :=
    if completed then
      let delivery :=
        if regime_changed then collapse (c_delivery self) network else c_delivery self in
      self <| c_delivery := capacity_update delivery observation |>
    else self in
  let cold_start := c_samples_on_rung self =? 0 in
  if completed then
    self <| c_production :=
              production_observe (c_production self) (production_ratio_pm sample)
                (cd_production_load_pm current_candidate) cold_start |>
         <| c_samples_on_rung := u8_sat (c_samples_on_rung self + 1) |>
         <| c_rollback_rung := None |>
         <| c_recovery_target := None |>
  else self.

Definition take_reserve (self : Controller) (sample : SegmentSample) (now_ms : Z) : Controller :=
  let wall_delta :=
    default 0
      (last ← c_last_buffer_observation_ms self; i64_checked (u64_sat (now_ms - last))) in
  match buffered_ms (ss_buffer sample) with
  | Some buffered =>
      self <| c_buffer := buffer_update (c_buffer self) (Some buffered) wall_delta |>
           <| c_last_buffer_observation_ms := Some now_ms |>
  | None => self
  end.

Definition take_acquisition (self : Controller) (sample : SegmentSample)
    (regime_changed session_boundary : bool) : Controller :=
  let self :=
    if ss_completed sample && negb session_boundary then
      let acquisitions :=
        if regime_changed then window_reset (c_acquisitions self) else c_acquisitions self in
      self <| c_acquisitions :=
                window_observe acquisitions (ss_bytes sample) (ss_total_fetch_us sample)
                  (ss_active_fetch_us sample) (ss_media_duration_ms sample) |>
    else self in
  self <| c_last_window :=
            observed_readout (c_acquisitions self) (be_buffered_ms (c_buffer self)) |>.

Definition begin_sample (self : Controller) (rollback_media_ms : option Z) (now_ms : Z)
  : Controller :=
  self <| c_now_ms := now_ms |>
       <| c_rollback_media_ms := d ← rollback_media_ms; if 0 <? d then Some d else None |>
       <| c_last_reason := None |>.

Definition publish_budget (self : Controller) : Controller :=
  self <| c_last_safe_budget_kbps := hls_safe_budget (c_delivery self) |>.

Definition take_evidence (self : Controller) (sample : SegmentSample)
    (rollback_media_ms : option Z) (now_ms : Z) (session_boundary : bool) : Controller :=
  let self := begin_sample self rollback_media_ms now_ms in
  let regime_changed :=
    ss_completed sample && is_collapse (sample_observation self sample) (c_delivery self) in
  let self := take_delivery self sample in
  let self := take_reserve self sample now_ms in
  let self := publish_budget self in
  take_acquisition self sample regime_changed session_boundary.

(** [if !completed]: an abandoned fetch. *)
Definition decide_abandoned (self : Controller) : Decision * Controller :=
  let target :=
    default (recovery_floor self) (or_else (c_recovery_target self) (c_rollback_rung self)) in
  if rung_lt target (c_current self)
  then prime (with_reason self DeadlineRollback) target Down Preserve
  else stay self LadderFloor.

(** [if let Some(pin) = self.pin]. *)
Definition decide_pinned (self : Controller) (pin : Rung) (buffered segment : Z)
  : Decision * Controller :=
  if bool_decide (c_current self = pin) then (Stay, self)
  else
    let direction := if kbps (c_current self) <? kbps pin then Up else Down in
    let required :=
      match direction with
      | Up => PIN_MIN_RESERVE_SEGMENTS
      | Down => PIN_MIN_RESERVE_SEGMENTS_DOWN
      end in
    if buffered <? i64_sat (segment * required) then (Stay, self)
    else prime self pin direction Preserve.

(** [if !current_physics.sustainable || !current_physics.survivable]. *)
Definition decide_downshift (self : Controller) (physics : Admission) (safe_budget buffered : Z)
  : Decision * Controller :=
  let target :=
    if ad_survivable physics then completed_recovery_target self safe_budget buffered
    else recovery_floor self in
  if bool_decide (target = c_current self) then stay self LadderFloor
  else
    prime
      (with_reason self
         (if negb (ad_survivable physics) then BufferConstraint else UnsafeCurrentState))
      target Down (if ad_survivable physics then Preserve else TerminalFloor).

(** No feasible rung above: refresh a response that underfills its request, or rest. *)
Definition decide_at_top (self : Controller) (exploration_budget : Z) : Decision * Controller :=
  if active_variant_needs_refresh self then
    let self := with_reason self ResponseLimited in
    if active_variant_refresh_released self
       && negb (blocks (failure self (c_current self)) (Some exploration_budget)
                  (c_delivery self))
    then
      prime (self <| c_pending_exploration_budget_ms := exploration_budget |>) (c_current self) Up
        Preserve
    else (Stay, self)
  else stay self AtBestRung.

Definition service_ceiling (self : Controller) (exploration_budget : Z) : option Rung :=
  min_by_key rung_key
    (List.filter
       (fun r => service_blocks (failure self r) (Some exploration_budget) (c_delivery self))
       (rungs_above self)).

Definition eligible (self : Controller) (exploration_budget : Z) : list Rung :=
  List.filter
    (fun r => negb (blocks (failure self r) (Some exploration_budget) (c_delivery self)))
    (rungs_above self).

(** [Option::max]: [None] is below every [Some]. *)
Definition option_max_rung (a b : option Rung) : option Rung :=
  match a, b with
  | Some x, Some y => if rung_le x y then Some y else Some x
  | Some x, None => Some x
  | None, b => b
  end.

Definition upshift_target (self : Controller) (safe_budget buffered exploration_budget : Z)
  : option Rung :=
  let eligible := eligible self exploration_budget in
  match service_ceiling self exploration_budget with
  | Some ceiling =>
      let modeled_target :=
        max_by_key rung_key
          (List.filter
             (fun r =>
                modeled_sustainable (c_catalog self) (candidate (c_catalog self) r) safe_budget
                  (c_policy self) buffered)
             eligible) in
      let eligible_below_ceiling := List.filter (fun r => rung_lt r ceiling) eligible in
      let count := length eligible_below_ceiling in
      let ordinal_target :=
        if (0 <? count)%nat then eligible_below_ceiling !! ((count - 1) / 2)%nat else None in
      option_max_rung modeled_target ordinal_target
  | None => max_by_key rung_key eligible
  end.

Definition decide_upshift (self : Controller) (safe_budget buffered : Z) : Decision * Controller :=
  match exploration_budget_ms self buffered with
  | None => stay self EvidenceWindow
  | Some exploration_budget =>
      if common_budget_blocks self (Some exploration_budget) then stay self RejectBackoff
      else
        match rungs_above self with
        | [] => decide_at_top self exploration_budget
        | _ =>
            match upshift_target self safe_budget buffered exploration_budget with
            | None => stay self RejectBackoff
            | Some target =>
                if negb (upshift_earns_its_visible_switch self target)
                then stay self SwitchCost
                else
                  prime
                    (with_reason
                       (self <| c_pending_exploration_budget_ms := exploration_budget |>)
                       SafeBudgetIncrease)
                    target Up Preserve
            end
        end
  end.

(** The decision on a controller that has taken the sample's evidence.  [None] is the panic of
    [.expect("a completed sample seeded the current acquisition bag")]. *)
Definition decide_sample (self : Controller) (sample : SegmentSample) (session_boundary : bool)
  : option (Decision * Controller) :=
  let safe_budget := c_last_safe_budget_kbps self in
  if session_boundary && ss_completed sample then Some (stay self EvidenceWindow)
  else if bool_decide (is_Some (c_pending self)) then Some (Stay, self)
  else
    match buffered_ms (ss_buffer sample) with
    | None => Some (stay self ReserveUnknown)
    | Some buffered =>
        if negb (ss_completed sample) then Some (decide_abandoned self)
        else
          match c_pin self with
          | Some pin => Some (decide_pinned self pin buffered (ss_media_duration_ms sample))
          | None =>
              let self := self <| c_last_emergency_horizon := None |> in
              current_physics ← observed_ordered_admission (c_acquisitions self) buffered;
              if negb (ad_sustainable current_physics) || negb (ad_survivable current_physics)
              then Some (decide_downshift self current_physics safe_budget buffered)
              else Some (decide_upshift self safe_budget buffered)
          end
    end.

Definition observe_inner (self : Controller) (sample : SegmentSample)
    (rollback_media_ms : option Z) (now_ms : Z) (session_boundary : bool)
  : option (Decision * Controller) :=
  decide_sample (take_evidence self sample rollback_media_ms now_ms session_boundary) sample
    session_boundary.

Definition observe_with_rollback (self : Controller) (sample : SegmentSample)
    (rollback_media_ms : option Z) (now_ms : Z) : option (Decision * Controller) :=
  observe_inner self sample rollback_media_ms now_ms false.

Definition observe_session_boundary (self : Controller) (sample : SegmentSample)
    (rollback_media_ms : option Z) (now_ms : Z) : option (Decision * Controller) :=
  observe_inner self sample rollback_media_ms now_ms true.

(** ** The candidate transaction *)

Definition pending_reserve_policy (self : Controller) (proposal : Proposal)
  : option ReservePolicy :=
  if bool_decide (c_pending self = Some proposal) then c_pending_reserve_policy self else None.

Definition set_executed_exploration_budget (self : Controller) (proposal : Proposal)
    (budget_ms : Z) : bool * Controller :=
  if negb (bool_decide (c_pending self = Some proposal))
     || negb (bool_decide (pr_direction proposal = Up)) || (budget_ms <=? 0)
  then (false, self)
  else if common_budget_blocks self (Some budget_ms)
          || blocks (failure self (pr_rung proposal)) (Some budget_ms) (c_delivery self)
  then
    (false,
     with_reason
       (self <| c_pending := None |> <| c_pending_reserve_policy := None |>
             <| c_pending_exploration_budget_ms := 0 |>) RejectBackoff)
  else (true, self <| c_pending_exploration_budget_ms := budget_ms |>).

Definition controller_on_resume (self : Controller) (paused_ms : Z) : Controller :=
  self <| c_delivery := age_ms (c_delivery self) paused_ms (c_policy self) |>
       <| c_buffer := buffer_default |> <| c_last_buffer_observation_ms := None |>
       <| c_samples_on_rung := 0 |>.

Definition candidate_verdict (self : Controller) (proposal : Proposal) (sample : SegmentSample)
    (_declared_bps : Z) : CandidateVerdict :=
  if negb (bool_decide (c_pending self = Some proposal)) || negb (ss_completed sample)
  then Incomplete
  else if bool_decide (pr_direction proposal = Down)
          && bool_decide (pr_rung proposal = recovery_floor self)
          && bool_decide (c_pending_reserve_policy self = Some TerminalFloor)
  then Ready
  else
    match buffered_ms (ss_buffer sample) with
    | None => Verdict_ReserveUnknown
    | Some buffered =>
        let segment := ss_media_duration_ms sample in
        let segment_obligation := ss_media_obligation_ms sample in
        let acquisition_us := default i64_max (i64_checked (ss_total_fetch_us sample)) in
        let duration_us := i64_sat (segment * 1000) in
        match pr_direction proposal with
        | Down =>
            if (duration_us <? acquisition_us)
               && negb (bool_decide (pr_rung proposal = recovery_floor self))
            then Unsustainable
            else if segment_obligation <=? buffered then Ready
            else Unfunded
        | Up =>
            if duration_us <? acquisition_us then Unsustainable
            else if i64_sat (buffered * 1000) <? acquisition_us then Unfunded
            else Ready
        end
    end.

Definition candidate_boundary_verdict (self : Controller) (proposal : Proposal)
    (sample : SegmentSample) (declared_bps : Z) : CandidateVerdict :=
  let verdict := candidate_verdict self proposal sample declared_bps in
  if negb (bool_decide (verdict = Unsustainable)) then verdict
  else if bool_decide (pr_direction proposal = Down) then Unsustainable
  else
    match buffered_ms (ss_buffer sample) with
    | None => Verdict_ReserveUnknown
    | Some buffered =>
        let acquisition_us := default i64_max (i64_checked (ss_total_fetch_us sample)) in
        if acquisition_us <=? i64_sat (buffered * 1000) then SetupBearing else Unfunded
    end.

Definition commit_candidate_evidence (self : Controller) (sample : SegmentSample) : Controller :=
  if negb (ss_completed sample) then self
  else
    let self :=
      self <| c_acquisitions :=
                window_observe (c_acquisitions self) (ss_bytes sample) (ss_total_fetch_us sample)
                  (ss_active_fetch_us sample) (ss_media_duration_ms sample) |> in
    self <| c_last_window :=
              observed_readout (c_acquisitions self)
                (default 0 (buffered_ms (ss_buffer sample))) |>.

Definition commit (self : Controller) (proposal : Proposal) (now_ms : Z) : bool * Controller :=
  if negb (bool_decide (c_pending self = Some proposal)) then (false, self)
  else
    let previous := c_current self in
    let self := self <| c_current := pr_rung proposal |> in
    let self :=
      if negb (bool_decide (pr_rung proposal = previous)) then
        self <| c_active_variant := None |> <| c_active_variant_evidence_kbps := None |>
             <| c_visible_switches := u32_sat (c_visible_switches self + 1) |>
             <| c_last_switch_ms := Some now_ms |>
      else self in
    let self :=
      self <| c_pending := None |> <| c_pending_reserve_policy := None |>
           <| c_pending_exploration_budget_ms := 0 |> <| c_common_budget_frontier_ms := None |>
           <| c_samples_on_rung := 0 |>
           <| c_acquisitions := window_reset (c_acquisitions self) |> in
    let self :=
      self <| c_last_window := observed_readout (c_acquisitions self) 0 |>
           <| c_buffer := rebase (c_buffer self) |> <| c_last_buffer_observation_ms := None |>
           <| c_rollback_rung :=
                if bool_decide (pr_direction proposal = Up)
                   && rung_lt previous (pr_rung proposal)
                then Some previous else None |>
           <| c_recovery_target := None |>
           <| c_now_ms := Z.max (c_now_ms self) now_ms |> in
    (true, set_failure self (pr_rung proposal) failure_default).

Definition commit_candidate (self : Controller) (proposal : Proposal) (sample : SegmentSample)
    (variant : ObservedHlsVariant) (now_ms : Z) : bool * Controller :=
  let response_improves :=
    negb (bool_decide (pr_direction proposal = Up))
    || match c_active_variant self with
       | Some active => strictly_dominates variant active
       | None => false
       end in
  if negb response_improves
     || negb (bool_decide
                (candidate_verdict self proposal sample (declared_bps variant) = Ready))
  then (false, self)
  else
    match commit self proposal now_ms with
    | (false, self) => (false, self)
    | (true, self) =>
        let self := commit_candidate_evidence self sample in
        (true, observe_active_variant self variant (network_kbps sample))
    end.

(** [Some(frontier.unwrap_or(0).max(budget))]. *)
Definition raise_frontier (frontier : option Z) (budget : Z) : option Z :=
  Some (Z.max (default 0 frontier) budget).

(** The certificate arms of [reject], for an upshift. *)
Definition reject_up (self : Controller) (rung : Rung) (cause : RejectCause) : Controller :=
  let budget := c_pending_exploration_budget_ms self in
  let f := failure self rung in
  match cause with
  | Censored | ResponseUnchanged =>
      let self :=
        self <| c_common_budget_frontier_ms :=
                  raise_frontier (c_common_budget_frontier_ms self) budget |> in
      let f := f <| deadline_budget_ms := raise_frontier (deadline_budget_ms f) budget |> in
      set_failure self rung
        (if bool_decide (cause = Censored) then f <| service_endpoint := true |> else f)
  | Candidate =>
      set_failure self rung
        (f <| deadline_budget_ms := raise_frontier (deadline_budget_ms f) budget |>
           <| service_endpoint := true |>)
  | CompletedUnsustainable =>
      set_failure self rung
        (f <| completed_unsustainable_hls_fast_kbps :=
                raise_frontier (completed_unsustainable_hls_fast_kbps f)
                  (ce_fast_kbps (c_delivery self)) |>)
  | Structural => set_failure self rung (f <| structural := true |>)
  | StructuralAtOrBelow =>
      fold_left
        (fun self r => set_failure self r ((failure self r) <| structural := true |>))
        (List.filter (fun r => rung_le r rung) LADDER) self
  | Circumstance => self
  end.

Definition reject (self : Controller) (proposal : Proposal) (cause : RejectCause) (now_ms : Z)
  : bool * Controller :=
  if negb (bool_decide (c_pending self = Some proposal)) then (false, self)
  else
    let self :=
      self <| c_pending := None |> <| c_pending_reserve_policy := None |>
           <| c_now_ms := Z.max (c_now_ms self) now_ms |> in
    if bool_decide (cause = Circumstance) then
      (true, self <| c_pending_exploration_budget_ms := 0 |>)
    else if bool_decide (pr_direction proposal = Down) then
      let self :=
        if bool_decide (cause = StructuralAtOrBelow) then self
        else
          let floor := recovery_floor self in
          self <| c_recovery_target :=
                    if rung_lt floor (c_current self) then Some floor else None |> in
      (true, self <| c_pending_exploration_budget_ms := 0 |>)
    else
      (true, (reject_up self (pr_rung proposal) cause) <| c_pending_exploration_budget_ms := 0 |>).

(** ** Well-formed controllers *)

Definition sample_ok (s : SegmentSample) : Prop :=
  sample_wf s
  /\ forall b, buffered_ms (ss_buffer s) = Some b -> 0 <= b <= RESERVE_BOUND_MS.

(** A transaction in flight carries its reserve contract; a downshift goes down, an upshift
    never does, and only a downshift may waive the reserve. *)
Definition pending_ok (current : Rung) (p : option Proposal) (rp : option ReservePolicy) : Prop :=
  match p, rp with
  | None, None => True
  | Some p, Some rp =>
      match pr_direction p with
      | Down => rung_lt (pr_rung p) current = true
      | Up => rung_le current (pr_rung p) = true /\ rp = Preserve
      end
  | _, _ => False
  end.

Record controller_wf (c : Controller) : Prop := {
  ctl_catalog : catalog_wf (c_catalog c);
  ctl_policy : c_policy c = policy_measured;
  ctl_delivery : capacity_wf (c_delivery c);
  ctl_production : production_wf (c_production c);
  ctl_buffer : buffer_wf (c_buffer c);
  ctl_failures : length (c_failures c) = length LADDER;
  ctl_window : exists l, window_holds (c_acquisitions c) l;
  ctl_pending : pending_ok (c_current c) (c_pending c) (c_pending_reserve_policy c);
  ctl_rollback : forall r, c_rollback_rung c = Some r -> rung_lt r (c_current c) = true;
  ctl_recovery : forall r, c_recovery_target c = Some r -> rung_lt r (c_current c) = true;
  ctl_history : history_wf (mk_history (c_visible_switches c) None)
}.

(** What an observation leaves alone. *)
Record framed (c c' : Controller) : Prop := {
  fr_current : c_current c' = c_current c;
  fr_catalog : c_catalog c' = c_catalog c;
  fr_policy : c_policy c' = c_policy c;
  fr_failures : c_failures c' = c_failures c;
  fr_frontier : c_common_budget_frontier_ms c' = c_common_budget_frontier_ms c;
  fr_pin : c_pin c' = c_pin c;
  fr_variant : c_active_variant c' = c_active_variant c;
  fr_evidence : c_active_variant_evidence_kbps c' = c_active_variant_evidence_kbps c;
  fr_switches : c_visible_switches c' = c_visible_switches c;
  fr_last_switch : c_last_switch_ms c' = c_last_switch_ms c
}.

Lemma framed_refl c : framed c c.
Proof. by split. Qed.

Lemma framed_trans a b c : framed a b -> framed b c -> framed a c.
Proof. intros [] []. split; congruence. Qed.

(** What the decision leaves alone besides. *)
Record measured_alike (c c' : Controller) : Prop := {
  ma_delivery : c_delivery c' = c_delivery c;
  ma_production : c_production c' = c_production c;
  ma_buffer : c_buffer c' = c_buffer c;
  ma_window : c_acquisitions c' = c_acquisitions c;
  ma_rollback : c_rollback_rung c' = c_rollback_rung c;
  ma_recovery : c_recovery_target c' = c_recovery_target c;
  ma_rollback_media : c_rollback_media_ms c' = c_rollback_media_ms c;
  ma_now : c_now_ms c' = c_now_ms c
}.

Lemma measured_alike_refl c : measured_alike c c.
Proof. by split. Qed.

(** A stage of an observation that leaves the transaction alone. *)
Record stage (c c' : Controller) : Prop := {
  sg_frame : framed c c';
  sg_pending : c_pending c' = c_pending c;
  sg_policy : c_pending_reserve_policy c' = c_pending_reserve_policy c
}.

Lemma stage_trans a b c : stage a b -> stage b c -> stage a c.
Proof. intros [Fa ? ?] [Fb ? ?]. split; [by eapply framed_trans|congruence|congruence]. Qed.

Lemma begin_sample_stage c rb now : stage c (begin_sample c rb now).
Proof. by split. Qed.

Lemma take_delivery_stage c s : stage c (take_delivery c s).
Proof. unfold take_delivery. by destruct (ss_completed s); split. Qed.

Lemma take_reserve_stage c s now : stage c (take_reserve c s now).
Proof. unfold take_reserve. by destruct (buffered_ms _); split. Qed.

Lemma publish_budget_stage c : stage c (publish_budget c).
Proof. by split. Qed.

Lemma take_acquisition_stage c s rc sb : stage c (take_acquisition c s rc sb).
Proof. unfold take_acquisition. by destruct (_ && _); split. Qed.

Lemma take_evidence_stage c s rb now sb : stage c (take_evidence c s rb now sb).
Proof.
  unfold take_evidence.
  eapply stage_trans; [|apply take_acquisition_stage].
  eapply stage_trans; [|apply publish_budget_stage].
  eapply stage_trans; [|apply take_reserve_stage].
  eapply stage_trans; [|apply take_delivery_stage]. apply begin_sample_stage.
Qed.

(** What each stage leaves of the measurements. *)
Lemma take_delivery_keeps c s :
  c_buffer (take_delivery c s) = c_buffer c
  /\ c_acquisitions (take_delivery c s) = c_acquisitions c
  /\ c_rollback_media_ms (take_delivery c s) = c_rollback_media_ms c
  /\ c_now_ms (take_delivery c s) = c_now_ms c
  /\ c_rollback_rung (take_delivery c s) = (if ss_completed s then None else c_rollback_rung c)
  /\ c_recovery_target (take_delivery c s)
     = (if ss_completed s then None else c_recovery_target c).
Proof. unfold take_delivery. by destruct (ss_completed s). Qed.

Lemma take_reserve_keeps c s now :
  c_delivery (take_reserve c s now) = c_delivery c
  /\ c_production (take_reserve c s now) = c_production c
  /\ c_acquisitions (take_reserve c s now) = c_acquisitions c
  /\ c_rollback_media_ms (take_reserve c s now) = c_rollback_media_ms c
  /\ c_now_ms (take_reserve c s now) = c_now_ms c
  /\ c_rollback_rung (take_reserve c s now) = c_rollback_rung c
  /\ c_recovery_target (take_reserve c s now) = c_recovery_target c.
Proof. unfold take_reserve. by destruct (buffered_ms _). Qed.

Lemma take_acquisition_keeps c s rc sb :
  let c' := take_acquisition c s rc sb in
  c_delivery c' = c_delivery c /\ c_production c' = c_production c /\ c_buffer c' = c_buffer c
  /\ c_rollback_media_ms c' = c_rollback_media_ms c /\ c_now_ms c' = c_now_ms c
  /\ c_rollback_rung c' = c_rollback_rung c /\ c_recovery_target c' = c_recovery_target c
  /\ c_last_safe_budget_kbps c' = c_last_safe_budget_kbps c.
Proof. unfold take_acquisition. by destruct (_ && _). Qed.

(** The evidence, each part in terms of the stage that took it. *)
Record evidence (c : Controller) (s : SegmentSample) (rb : option Z) (now : Z) (c' : Controller)
  : Prop := {
  ev_delivery : c_delivery c' = c_delivery (take_delivery (begin_sample c rb now) s);
  ev_production : c_production c' = c_production (take_delivery (begin_sample c rb now) s);
  ev_buffer :
    c_buffer c' = c_buffer (take_reserve (take_delivery (begin_sample c rb now) s) s now);
  ev_rollback_media : c_rollback_media_ms c' = (d ← rb; if 0 <? d then Some d else None);
  ev_now : c_now_ms c' = now;
  ev_rollback : c_rollback_rung c' = (if ss_completed s then None else c_rollback_rung c);
  ev_recovery : c_recovery_target c' = (if ss_completed s then None else c_recovery_target c);
  ev_budget : c_last_safe_budget_kbps c' = conservative_kbps (c_delivery c')
}.

Lemma take_evidence_evidence c s rb now sb : evidence c s rb now (take_evidence c s rb now sb).
Proof.
  unfold take_evidence. set (c0 := begin_sample c rb now).
  destruct (take_delivery_keeps c0 s) as (D1 & D2 & D3 & D4 & D5 & D6).
  destruct (take_reserve_keeps (take_delivery c0 s) s now) as (R1 & R2 & R3 & R4 & R5 & R6 & R7).
  set (c1 := take_delivery c0 s) in *. set (c2 := take_reserve c1 s now) in *.
  set (rc := ss_completed s && _). clearbody rc.
  destruct (take_acquisition_keeps (publish_budget c2) s rc sb)
    as (A1 & A2 & A3 & A4 & A5 & A6 & A7 & A8).
  set (c3 := take_acquisition (publish_budget c2) s rc sb) in *. clearbody c3.
  change (c_delivery (publish_budget c2)) with (c_delivery c2) in A1.
  change (c_production (publish_budget c2)) with (c_production c2) in A2.
  change (c_buffer (publish_budget c2)) with (c_buffer c2) in A3.
  change (c_rollback_media_ms (publish_budget c2)) with (c_rollback_media_ms c2) in A4.
  change (c_now_ms (publish_budget c2)) with (c_now_ms c2) in A5.
  change (c_rollback_rung (publish_budget c2)) with (c_rollback_rung c2) in A6.
  change (c_recovery_target (publish_budget c2)) with (c_recovery_target c2) in A7.
  change (c_last_safe_budget_kbps (publish_budget c2)) with (conservative_kbps (c_delivery c2)) in A8.
  split; [exact (eq_trans A1 R1)|exact (eq_trans A2 R2)|exact A3| | | | |congruence].
  - rewrite A4, R4, D3. done.
  - rewrite A5, R5, D4. done.
  - rewrite A6, R6, D5. done.
  - rewrite A7, R7, D6. done.
Qed.

Lemma sample_observation_wf c s :
  controller_wf c -> sample_ok s -> observation_wf (sample_observation c s).
Proof.
  intros Hc [Hs _]. unfold sample_observation, clamped_to_evidence.
  pose proof (network_kbps_range s Hs). destruct Hs as [? ? ? ? ? ?].
  destruct (_ || _); split; cbn; try done; ints.
Qed.

Lemma take_delivery_wf c s :
  controller_wf c -> sample_ok s ->
  capacity_wf (c_delivery (take_delivery c s))
  /\ production_wf (c_production (take_delivery c s)).
Proof.
  intros Hc Hs. pose proof (sample_observation_wf c s Hc Hs) as Ho. unfold take_delivery.
  destruct Hc as [Hcat _ Hd Hp _ _ _ _ _ _ _]. destruct Hs as [Hs _].
  destruct (ss_completed s); cbn [andb]; [|done]. split.
  - cbn. apply capacity_update_wf; [|done].
    destruct (is_collapse _ _); [apply collapse_wf; [done|apply Ho]|done].
  - cbn. apply production_observe_wf; [done|by apply production_ratio_range|].
    pose proof (candidate_in (c_catalog c) (c_current c) Hcat) as Hin.
    rewrite (catwf_points _ Hcat) in Hin. apply measured_points_spec in Hin. ints.
Qed.

(** The report a completed sample makes to the acquisition window. *)
Definition report_of (s : SegmentSample) : Report :=
  mk_report (ss_bytes s) (ss_total_fetch_us s) (ss_active_fetch_us s) (ss_media_duration_ms s).

Lemma report_of_ok s : sample_ok s -> report_ok (report_of s).
Proof. intros [[? ? ? ? ? ?] _]. split_and!; cbn; ints. Qed.

Lemma report_of_counts s : sample_ok s -> ss_completed s = true -> report_counts (report_of s) = true.
Proof.
  intros [[? ? ? ? ? Hc] _] E. specialize (Hc E). unfold report_counts. cbn.
  rewrite negb_true_iff, !orb_false_iff, !Z.eqb_neq, Z.leb_gt. lia.
Qed.

Lemma take_acquisition_window c s regime sb :
  sample_ok s -> (exists l, window_holds (c_acquisitions c) l) ->
  (exists l, window_holds (c_acquisitions (take_acquisition c s regime sb)) l
     /\ (ss_completed s = true -> sb = false -> l <> [])).
Proof.
  intros Hs [l Hl]. unfold take_acquisition. destruct (ss_completed s) eqn:Ec; cbn [andb].
  2: { exists l. split; [done|done]. }
  destruct sb; cbn [negb]; [exists l; split; done|].
  set (w := if regime then _ else _).
  assert (exists l', window_holds w l') as [l' Hl'].
  { subst w. destruct regime; [exists []; apply window_reset_holds|by exists l]. }
  clearbody w. pose proof (window_observe_holds w l' _ Hl' (report_of_ok s Hs)) as H.
  rewrite report_of_counts in H by done. eexists. split; [exact H|]. intros _ _ E.
  by destruct l'.
Qed.

Lemma take_evidence_window c s rb now sb :
  controller_wf c -> sample_ok s ->
  exists l, window_holds (c_acquisitions (take_evidence c s rb now sb)) l
    /\ (ss_completed s = true -> sb = false -> l <> []).
Proof.
  intros Hc Hs. destruct (ctl_window _ Hc) as [l Hl]. unfold take_evidence.
  apply take_acquisition_window; [done|]. exists l. set (c0 := begin_sample c rb now).
  destruct (take_delivery_keeps c0 s) as (_ & D2 & _).
  destruct (take_reserve_keeps (take_delivery c0 s) s now) as (_ & _ & R3 & _).
  set (c1 := take_delivery c0 s) in *. set (c2 := take_reserve c1 s now) in *.
  change (window_holds (c_acquisitions c2) l). rewrite R3, D2. exact Hl.
Qed.

Lemma take_evidence_wf c s rb now sb :
  controller_wf c -> sample_ok s -> controller_wf (take_evidence c s rb now sb).
Proof.
  intros Hc Hs. destruct (take_evidence_window c s rb now sb Hc Hs) as (l & Hl & _).
  destruct (take_evidence_stage c s rb now sb) as [Hf Hp Hrp].
  destruct (take_evidence_evidence c s rb now sb) as [Ed Ep Eb _ _ Hrb Hrt _].
  set (c0 := begin_sample c rb now) in *.
  assert (controller_wf c0) as Hc0 by (destruct Hc; by split).
  destruct (take_delivery_wf c0 s Hc0 Hs) as [Hd Hpr].
  destruct (take_delivery_keeps c0 s) as (Hb & _).
  set (c1 := take_delivery c0 s) in *. set (c' := take_evidence c s rb now sb) in *.
  clearbody c'. assert (buffer_wf (c_buffer c')) as Hbuf.
  { rewrite Eb. unfold take_reserve. destruct Hs as [_ Hs].
    destruct (buffered_ms (ss_buffer s)) as [b|] eqn:E; [|rewrite Hb; apply Hc].
    set (wall := default 0 _).
    change (buffer_wf (buffer_update (c_buffer c1) (Some b) wall)). rewrite Hb.
    apply buffer_update_wf; [apply Hc|by intros ? [= <-]; apply Hs]. }
  destruct Hf as [Fc Fcat Fpol Ffail _ _ _ _ Fsw _].
  destruct Hc as [Hcat Hpol ? ? ? Hfail ? Hpend Hroll Hrec Hh]. clear Hc0 Hb. clearbody c1.
  split.
  - by rewrite Fcat.
  - by rewrite Fpol.
  - by rewrite Ed.
  - by rewrite Ep.
  - done.
  - by rewrite Ffail.
  - by exists l.
  - by rewrite Hp, Hrp, Fc.
  - rewrite Hrb, Fc. destruct (ss_completed s); [done|]. apply Hroll.
  - rewrite Hrt, Fc. destruct (ss_completed s); [done|]. apply Hrec.
  - by rewrite Fsw.
Qed.

(** ** Targets *)

Lemma rung_lt_le a b : rung_lt a b = true -> rung_le a b = true.
Proof. unfold rung_lt, rung_le. rewrite Nat.ltb_lt, Nat.leb_le. lia. Qed.

Lemma rung_le_refl r : rung_le r r = true.
Proof. apply Nat.leb_refl. Qed.

Lemma rung_not_lt a b : rung_lt a b = false -> rung_le b a = true.
Proof. unfold rung_lt, rung_le. rewrite Nat.ltb_ge, Nat.leb_le. lia. Qed.

Lemma rung_lt_neq a b : rung_le b a = true -> a <> b -> rung_lt b a = true.
Proof.
  unfold rung_lt, rung_le. rewrite Nat.ltb_lt, Nat.leb_le. intros H Hne.
  destruct (decide (index b = index a)) as [E|]; [by apply index_inj in E; subst|lia].
Qed.

Lemma rung_key_le a b : rung_key a <= rung_key b <-> rung_le a b = true.
Proof. unfold rung_key, rung_le. rewrite Nat.leb_le. lia. Qed.

Lemma elem_of_rungs_above c r :
  r ∈ rungs_above c
  <-> rung_lt (c_current c) r = true /\ exists x, x ∈ feasible (c_catalog c) /\ cd_rung x = r.
Proof.
  unfold rungs_above. rewrite elem_of_filterb, list_elem_of_fmap.
  split; [intros [(x & -> & ?) ?]; eauto|intros (? & x & ? & <-); split; eauto].
Qed.

Lemma elem_of_rungs_below c r :
  r ∈ rungs_below c
  <-> rung_lt r (c_current c) = true /\ exists x, x ∈ feasible (c_catalog c) /\ cd_rung x = r.
Proof.
  unfold rungs_below. rewrite elem_of_filterb, list_elem_of_fmap.
  split; [intros [(x & -> & ?) ?]; eauto|intros (? & x & ? & <-); split; eauto].
Qed.

(** The recovery floor is the smallest feasible rung below the current one, or the current one
    when there is none. *)
Lemma recovery_floor_spec c :
  (rungs_below c = [] /\ recovery_floor c = c_current c)
  \/ (recovery_floor c ∈ rungs_below c
      /\ forall r, r ∈ rungs_below c -> rung_le (recovery_floor c) r = true).
Proof.
  unfold recovery_floor. destruct (min_by_key rung_key (rungs_below c)) as [r|] eqn:E.
  - right. apply min_by_key_Some in E as [Hin Hmin]. cbn. split; [done|].
    intros r' Hr'. by apply rung_key_le, Hmin.
  - left. by apply min_by_key_None in E.
Qed.

Lemma recovery_floor_below c :
  recovery_floor c <> c_current c -> rung_lt (recovery_floor c) (c_current c) = true.
Proof.
  intros Hne. destruct (recovery_floor_spec c) as [[_ ?]|[Hin _]]; [done|].
  by apply elem_of_rungs_below in Hin as [? _].
Qed.

Lemma completed_recovery_target_spec c budget buffered :
  completed_recovery_target c budget buffered = recovery_floor c
  \/ exists x, x ∈ feasible (c_catalog c)
       /\ completed_recovery_target c budget buffered = cd_rung x
       /\ rung_lt (cd_rung x) (c_current c) = true
       /\ modeled_sustainable (c_catalog c) x budget (c_policy c) buffered = true.
Proof.
  unfold completed_recovery_target.
  destruct (max_by_key _ _) as [x|] eqn:E; [right|by left].
  apply max_by_key_Some in E as [Hin _]. apply elem_of_filterb in Hin as [Hin ?].
  apply elem_of_filterb in Hin as [? ?]. by exists x.
Qed.

Lemma completed_recovery_target_below c budget buffered :
  completed_recovery_target c budget buffered <> c_current c ->
  rung_lt (completed_recovery_target c budget buffered) (c_current c) = true.
Proof.
  destruct (completed_recovery_target_spec c budget buffered) as [->|(x & _ & -> & ? & _)]; [|done].
  apply recovery_floor_below.
Qed.

Lemma eligible_spec c b r :
  r ∈ eligible c b
  <-> r ∈ rungs_above c /\ blocks (failure c r) (Some b) (c_delivery c) = false.
Proof. unfold eligible. by rewrite elem_of_filterb, negb_true_iff. Qed.

Lemma option_max_rung_in a b r : option_max_rung a b = Some r -> a = Some r \/ b = Some r.
Proof.
  destruct a, b; cbn; try (case_match; intros); intros; simplify_eq; auto.
Qed.

Lemma upshift_target_eligible c safe buffered b r :
  upshift_target c safe buffered b = Some r -> r ∈ eligible c b.
Proof.
  unfold upshift_target. destruct (service_ceiling c b) as [ceiling|].
  - intros [H|H]%option_max_rung_in.
    + apply max_by_key_Some in H as [H _]. by apply elem_of_filterb in H as [? _].
    + destruct (0 <? _)%nat; [|done]. apply list_elem_of_lookup_2 in H.
      by apply elem_of_filterb in H as [? _].
  - by intros [? _]%max_by_key_Some.
Qed.

(** With an eligible rung there is always a target: below a service endpoint the search never
    gives up while anything is left to try. *)
Lemma upshift_target_total c safe buffered b :
  (exists r, r ∈ eligible c b
     /\ forall ceiling, service_ceiling c b = Some ceiling -> rung_lt r ceiling = true) ->
  upshift_target c safe buffered b <> None.
Proof.
  intros (r & Hr & Hceil). unfold upshift_target.
  destruct (service_ceiling c b) as [ceiling|].
  - specialize (Hceil ceiling eq_refl).
    set (l := List.filter (fun r => rung_lt r ceiling) _).
    assert (r ∈ l) as Hl by by apply elem_of_filterb.
    assert (0 < length l)%nat as Hpos by (destruct l; [by apply elem_of_nil in Hl|cbn; lia]).
    rewrite (proj2 (Nat.ltb_lt _ _) Hpos).
    assert (is_Some (l !! ((length l - 1) / 2)%nat)) as [x ->].
    { apply lookup_lt_is_Some.
      pose proof (Nat.Div0.div_le_upper_bound (length l - 1) 2 (length l - 1)). lia. }
    destruct (max_by_key _ _); cbn; [case_match; done|done].
  - intros E%max_by_key_None. rewrite E in Hr. by apply elem_of_nil in Hr.
Qed.

(** ** One decision *)

Record decided (c : Controller) (d : Decision) (c' : Controller) : Prop := {
  dc_frame : framed c c';
  dc_alike : measured_alike c c';
  dc_tx :
    match d with
    | Stay =>
        c_pending c' = c_pending c
        /\ c_pending_reserve_policy c' = c_pending_reserve_policy c
        /\ c_pending_exploration_budget_ms c' = c_pending_exploration_budget_ms c
    | Prime p =>
        c_pending c' = Some p
        /\ pending_ok (c_current c) (Some p) (c_pending_reserve_policy c')
    end
}.

Lemma stay_decided c r : decided c Stay (with_reason c r).
Proof. by split. Qed.

Lemma stay_as_is c : decided c Stay c.
Proof. by split. Qed.

Lemma decide_abandoned_decided c :
  controller_wf c -> decided c (decide_abandoned c).1 (decide_abandoned c).2.
Proof.
  intros Hc. unfold decide_abandoned. destruct (rung_lt _ _) eqn:E; [|apply stay_decided].
  by split.
Qed.

Lemma decide_pinned_decided c pin buffered segment :
  decided c (decide_pinned c pin buffered segment).1 (decide_pinned c pin buffered segment).2.
Proof.
  unfold decide_pinned. case_bool_decide as E; [apply stay_as_is|].
  rewrite <- kbps_monotone. destruct (rung_lt (c_current c) pin) eqn:El.
  - destruct (buffered <? _); [apply stay_as_is|]. split; [done|done|]. cbn. split; [done|].
    split; [by apply rung_lt_le|done].
  - destruct (buffered <? _); [apply stay_as_is|]. split; [done|done|]. cbn. split; [done|].
    apply rung_lt_neq; [by apply rung_not_lt|done].
Qed.

Lemma decide_downshift_decided c a safe buffered :
  decided c (decide_downshift c a safe buffered).1 (decide_downshift c a safe buffered).2.
Proof.
  unfold decide_downshift. case_bool_decide as E; [apply stay_decided|].
  split; [done|done|]. cbn. split; [done|].
  destruct (ad_survivable a); [by apply completed_recovery_target_below|by apply recovery_floor_below].
Qed.

Lemma decide_at_top_decided c b : decided c (decide_at_top c b).1 (decide_at_top c b).2.
Proof.
  unfold decide_at_top. destruct (active_variant_needs_refresh c); [|apply stay_decided].
  destruct (_ && _); [|apply stay_decided]. split; [done|done|]. cbn. split; [done|].
  split; [apply rung_le_refl|done].
Qed.

Lemma decide_upshift_decided c safe buffered :
  decided c (decide_upshift c safe buffered).1 (decide_upshift c safe buffered).2.
Proof.
  unfold decide_upshift. destruct (exploration_budget_ms c buffered) as [b|]; [|apply stay_decided].
  destruct (common_budget_blocks _ _); [apply stay_decided|].
  destruct (rungs_above c) as [|r0 l] eqn:Ea; [apply decide_at_top_decided|].
  destruct (upshift_target c safe buffered b) as [t|] eqn:Et; [|apply stay_decided].
  destruct (negb _); [apply stay_decided|]. split; [done|done|]. cbn. split; [done|].
  apply upshift_target_eligible, eligible_spec in Et as [Ht _].
  apply elem_of_rungs_above in Ht as [? _]. split; [by apply rung_lt_le|done].
Qed.

Lemma decided_via c c1 d c' :
  framed c c1 -> measured_alike c c1 -> c_pending c1 = c_pending c ->
  c_pending_reserve_policy c1 = c_pending_reserve_policy c ->
  c_pending_exploration_budget_ms c1 = c_pending_exploration_budget_ms c ->
  decided c1 d c' -> decided c d c'.
Proof.
  intros Hf Ha H1 H2 H3 [Df Da Dt]. split.
  - by eapply framed_trans.
  - destruct Ha, Da. split; congruence.
  - destruct d; [by rewrite <- H1, <- H2, <- H3|]. by rewrite <- (fr_current _ _ Hf).
Qed.

Lemma decide_sample_decided c s sb d c' :
  controller_wf c -> decide_sample c s sb = Some (d, c') ->
  decided c d c' /\ (forall p, d = Prime p -> c_pending c = None).
Proof.
  intros Hc. unfold decide_sample.
  assert (forall x y : Decision * Controller, Some x = Some y -> x.1 = y.1 /\ x.2 = y.2) as Hinj
    by (by intros x y [= ->]).
  destruct (sb && ss_completed s).
  { intros [= <- <-]. split; [apply stay_decided|done]. }
  case_bool_decide as Hp.
  { intros [= <- <-]. split; [apply stay_as_is|done]. }
  assert (c_pending c = None) as Hnone.
  { destruct (c_pending c); [|done]. destruct Hp. by eexists. }
  destruct (buffered_ms (ss_buffer s)) as [b|].
  2: { intros [= <- <-]. split; [apply stay_decided|done]. }
  destruct (ss_completed s); cbn [negb].
  2: { intros [E1 E2]%Hinj. cbn in E1, E2. subst. split; [|done]. by apply decide_abandoned_decided. }
  destruct (c_pin c) as [pin|].
  { intros [E1 E2]%Hinj. cbn in E1, E2. subst. split; [|done]. apply decide_pinned_decided. }
  set (c1 := c <| c_last_emergency_horizon := None |>).
  destruct (observed_ordered_admission (c_acquisitions c1) b) as [a|]; [|done].
  cbn [mbind option_bind]. intros E. split; [|done].
  apply (decided_via c c1); try done.
  destruct (negb (ad_sustainable a) || negb (ad_survivable a));
    apply Hinj in E as [E1 E2]; cbn in E1, E2; subst;
    [apply decide_downshift_decided|apply decide_upshift_decided].
Qed.

(** ** Every operation keeps the controller well formed *)

Lemma decided_wf c d c' :
  controller_wf c -> decided c d c' -> controller_wf c'.
Proof.
  intros [? ? ? ? ? ? ? Hp Hr Hrec Hh] [[Fc Fcat Fpol Ffail _ _ _ _ Fsw _] [? ? ? Hw Hrr Hrt _ _] Htx].
  split; try congruence.
  - by rewrite Hw.
  - rewrite Fc. destruct d; [by destruct Htx as (-> & -> & _)|]. by destruct Htx as [-> ?].
  - rewrite Hrr, Fc. done.
  - rewrite Hrt, Fc. done.
Qed.

Lemma observe_inner_decided c s rb now sb d c' :
  controller_wf c -> sample_ok s -> observe_inner c s rb now sb = Some (d, c') ->
  controller_wf c'
  /\ framed c c'
  /\ decided (take_evidence c s rb now sb) d c'
  /\ (forall p, d = Prime p -> c_pending c = None).
Proof.
  intros Hc Hs E. pose proof (take_evidence_wf c s rb now sb Hc Hs) as Hw.
  destruct (take_evidence_stage c s rb now sb) as [Hf Hp _].
  unfold observe_inner in E. set (c1 := take_evidence c s rb now sb) in *. clearbody c1.
  apply decide_sample_decided in E as [Hd Hpr]; [|done]. split_and!.
  - by eapply decided_wf.
  - eapply framed_trans; [done|]. apply Hd.
  - done.
  - intros p ->. rewrite <- Hp. by eapply Hpr.
Qed.

Lemma window_admission_total w l reserve ordered :
  window_holds w l -> l <> [] -> is_Some (summary_admission (aw_summary w) reserve ordered).
Proof.
  intros [_ _ _ _ Hs Hok] Hne.
  destruct (summary_admission_spec _ _ reserve ordered Hs (costs_ok_of _ Hok)) as [_ H].
  destruct H as (a & -> & _); [|by eexists]. by destruct l.
Qed.

Lemma observe_inner_total c s rb now sb :
  controller_wf c -> sample_ok s -> is_Some (observe_inner c s rb now sb).
Proof.
  intros Hc Hs. destruct (take_evidence_window c s rb now sb Hc Hs) as (l & Hl & Hne).
  unfold observe_inner. set (c1 := take_evidence c s rb now sb) in *. clearbody c1.
  unfold decide_sample. destruct sb; destruct (ss_completed s) eqn:Ec; cbn [andb negb];
    try (by eexists); destruct (bool_decide _); try (by eexists);
    destruct (buffered_ms (ss_buffer s)) as [b|]; try (by eexists).
  destruct (c_pin c1); [by eexists|]. set (c2 := c1 <| c_last_emergency_horizon := None |>).
  change (c_acquisitions c2) with (c_acquisitions c1). unfold observed_ordered_admission.
  destruct (window_admission_total _ l b true Hl) as [a ->]; [by apply Hne|].
  cbn [mbind option_bind]. destruct (_ || _); by eexists.
Qed.

Lemma pending_clear_wf c (c' : Controller) :
  controller_wf c -> framed c c' -> measured_alike c c' ->
  c_pending c' = None -> c_pending_reserve_policy c' = None -> controller_wf c'.
Proof.
  intros [? ? ? ? ? ? ? Hp Hr Hrec Hh] [Fc Fcat Fpol Ffail _ _ _ _ Fsw _]
    [? ? ? Hw Hrr Hrt _ _] Hn Hrp.
  split; try congruence.
  - by rewrite Hw.
  - by rewrite Hn, Hrp.
  - by rewrite Hrr, Fc.
  - by rewrite Hrt, Fc.
Qed.

Lemma set_executed_wf c p b :
  controller_wf c -> controller_wf (set_executed_exploration_budget c p b).2.
Proof.
  intros Hc. unfold set_executed_exploration_budget.
  destruct (_ || _ || _); [done|]. destruct (_ || _).
  - apply (pending_clear_wf c); [done|by split|by split|done|done].
  - destruct Hc. by split.
Qed.

Lemma controller_on_resume_wf c paused :
  controller_wf c -> is_u64 paused -> controller_wf (controller_on_resume c paused).
Proof.
  intros [? ? ? ? ? ? ? ? ? ? ?] Ht. split; cbn; auto with plx.
  apply age_ms_wf; [done|ints].
Qed.

Lemma set_failure_wf c r f : controller_wf c -> controller_wf (set_failure c r f).
Proof.
  intros [? ? ? ? ? Hf ? ? ? ? ?]. split; try done.
  change (length (<[index r := f]> (c_failures c)) = length LADDER). by rewrite length_insert.
Qed.

Lemma fold_set_failure_wf (g : Controller -> Rung -> FailureCertificate) l : forall c,
  controller_wf c -> controller_wf (fold_left (fun c r => set_failure c r (g c r)) l c).
Proof. induction l as [|r l IH]; intros c Hc; cbn; [done|]. by apply IH, set_failure_wf. Qed.

Lemma reject_up_wf c r cause : controller_wf c -> controller_wf (reject_up c r cause).
Proof.
  intros Hc. destruct cause; cbn -[bool_decide]; try by apply set_failure_wf.
  - apply set_failure_wf. destruct Hc. by split.
  - apply set_failure_wf. destruct Hc. by split.
  - by apply (fold_set_failure_wf (fun c r => (failure c r) <| structural := true |>)).
  - done.
Qed.

Lemma forget_pending_wf c now :
  controller_wf c ->
  controller_wf (c <| c_pending := None |> <| c_pending_reserve_policy := None |>
                   <| c_now_ms := Z.max (c_now_ms c) now |>).
Proof. intros [? ? ? ? ? ? ? ? ? ? ?]. by split. Qed.

Lemma clear_budget_wf c : controller_wf c -> controller_wf (c <| c_pending_exploration_budget_ms := 0 |>).
Proof. intros [? ? ? ? ? ? ? ? ? ? ?]. by split. Qed.

Lemma recovery_target_wf c o :
  controller_wf c -> (forall r, o = Some r -> rung_lt r (c_current c) = true) ->
  controller_wf (c <| c_recovery_target := o |>).
Proof. intros [? ? ? ? ? ? ? ? ? ? ?] ?. by split. Qed.

Lemma reject_wf c p cause now : controller_wf c -> controller_wf (reject c p cause now).2.
Proof.
  intros Hc. unfold reject. case_bool_decide; cbn [negb]; [|done].
  pose proof (forget_pending_wf c now Hc) as Hc1. set (c1 := c <| c_pending := None |> <| _ := _ |> <| _ := _ |>) in *.
  case_bool_decide; [by apply clear_budget_wf|]. case_bool_decide; cbn [snd].
  - apply clear_budget_wf. case_bool_decide; [done|]. apply recovery_target_wf; [done|].
    intros r. destruct (rung_lt _ _) eqn:E; [|done]. by intros [= <-].
  - by apply clear_budget_wf, reject_up_wf.
Qed.

(** What a commit leaves, in one place. *)
Record committed (c : Controller) (p : Proposal) (now : Z) (c' : Controller) : Prop := {
  cm_current : c_current c' = pr_rung p;
  cm_pending : c_pending c' = None;
  cm_policy : c_pending_reserve_policy c' = None;
  cm_budget : c_pending_exploration_budget_ms c' = 0;
  cm_frontier : c_common_budget_frontier_ms c' = None;
  cm_failures : c_failures c' = <[index (pr_rung p) := failure_default]> (c_failures c);
  cm_delivery : c_delivery c' = c_delivery c;
  cm_production : c_production c' = c_production c;
  cm_catalog : c_catalog c' = c_catalog c;
  cm_cpolicy : c_policy c' = c_policy c;
  cm_pin : c_pin c' = c_pin c;
  cm_buffer : c_buffer c' = rebase (c_buffer c);
  cm_rollback :
    c_rollback_rung c'
    = (if bool_decide (pr_direction p = Up) && rung_lt (c_current c) (pr_rung p)
       then Some (c_current c) else None);
  cm_recovery : c_recovery_target c' = None;
  cm_switches :
    c_visible_switches c'
    = (if bool_decide (pr_rung p = c_current c) then c_visible_switches c
       else u32_sat (c_visible_switches c + 1));
  cm_last_switch :
    c_last_switch_ms c'
    = (if bool_decide (pr_rung p = c_current c) then c_last_switch_ms c else Some now)
}.

Lemma commit_spec c p now :
  match commit c p now with
  | (false, c') => c' = c /\ c_pending c <> Some p
  | (true, c') =>
      c_pending c = Some p /\ committed c p now c'
      /\ c_acquisitions c' = window_reset (c_acquisitions c)
      /\ c_active_variant c'
         = (if bool_decide (pr_rung p = c_current c) then c_active_variant c else None)
  end.
Proof.
  unfold commit. case_bool_decide as Hp; cbn [negb]; [|done].
  split; [done|]. case_bool_decide as Hr; cbn [negb].
  - split; [|done]. split; try done; by rewrite (bool_decide_true (pr_rung p = c_current c)).
  - split; [|done]. split; try done; by rewrite (bool_decide_false (pr_rung p = c_current c)).
Qed.

Lemma committed_wf c p now c' :
  controller_wf c -> c_pending c = Some p -> committed c p now c' ->
  (exists l, window_holds (c_acquisitions c') l) -> controller_wf c'.
Proof.
  intros [? ? ? ? ? Hf ? Hp ? ? [Hsw _]] E [Cc Cp Crp _ _ Cf Cd Cpr Ccat Cpol _ Cb Crb Crt Csw _] Hw.
  split; try congruence.
  - rewrite Cb. by apply rebase_wf.
  - by rewrite Cf, length_insert.
  - by rewrite Cp, Crp.
  - rewrite Crb, Cc. intros r. destruct (_ && _) eqn:Eb; [|done].
    apply andb_true_iff in Eb as [_ Eb]. by intros [= <-].
  - split; [|done]. cbn. rewrite Csw. case_bool_decide; [done|apply u32_sat_range].
Qed.

Lemma commit_wf c p now : controller_wf c -> controller_wf (commit c p now).2.
Proof.
  intros Hc. pose proof (commit_spec c p now) as H. destruct (commit c p now) as [[] c'].
  - destruct H as (E & Hcm & Ew & _). apply (committed_wf c p now c' Hc E Hcm).
    exists []. rewrite Ew. apply window_reset_holds.
  - by destruct H as [-> _].
Qed.

Lemma commit_candidate_evidence_wf c s :
  controller_wf c -> sample_ok s -> controller_wf (commit_candidate_evidence c s).
Proof.
  intros [? ? ? ? ? ? [l Hl] ? ? ? ?] Hs. unfold commit_candidate_evidence.
  destruct (ss_completed s); cbn [negb]; [|by split; try exists l].
  split; try done. eexists.
  exact (window_observe_holds _ _ _ Hl (report_of_ok s Hs)).
Qed.

Lemma observe_active_variant_wf c v k :
  controller_wf c -> controller_wf (observe_active_variant c v k).
Proof.
  intros Hc. unfold observe_active_variant. case_bool_decide; [done|]. destruct Hc. by split.
Qed.

Lemma commit_candidate_wf c p s v now :
  controller_wf c -> sample_ok s -> controller_wf (commit_candidate c p s v now).2.
Proof.
  intros Hc Hs. unfold commit_candidate. destruct (_ || _); [done|].
  pose proof (commit_wf c p now Hc) as H. destruct (commit c p now) as [[] c']; cbn in *; [|done].
  by apply observe_active_variant_wf, commit_candidate_evidence_wf.
Qed.

Lemma starting_at_wf r prior cat :
  catalog_wf cat -> (forall e, prior = Some e -> capacity_wf e) ->
  controller_wf (starting_at r prior cat).
Proof.
  intros Hcat Hp. split; try done.
  - cbn. destruct prior; cbn; auto with plx.
  - exists []. apply window_default_holds.
Qed.

Lemma pinned_to_wf c pin : controller_wf c -> controller_wf (pinned_to c pin).
Proof. intros [? ? ? ? ? ? ? ? ? ? ?]. by split. Qed.

(** ** Certificates *)

Lemma lookup_set_failure c r r' f :
  controller_wf c ->
  failure (set_failure c r f) r' = if decide (r = r') then f else failure c r'.
Proof.
  intros Hc. unfold failure, set_failure.
  change (<[index r := f]> (c_failures c) !!! index r' = if decide (r = r') then f else c_failures c !!! index r').
  case_decide as E.
  - subst. apply list_lookup_total_insert_eq. rewrite (ctl_failures _ Hc). apply index_range.
  - apply list_lookup_total_insert_ne. intros Ei. by apply index_inj in Ei.
Qed.

Lemma failure_eq c c' r : c_failures c' = c_failures c -> failure c' r = failure c r.
Proof. unfold failure. by intros ->. Qed.
