(* ===== verification/Transactions.v ===== *)
(** * What the controller's transactions guarantee

    Histories of the operations of [Controller.v] as a step relation, and the theorems about
    them: totality, when it moves down, what funds a move up, what a failure rules out, and what
    a commit leaves. *)

From S2P Require Import Prelude Vocabulary Estimate Window Ladder Plant Catalog Viability Mode.
From S2P Require Import Controller.
From stdpp Require Import relations.
#[local] Open Scope Z_scope.

(** ** Histories *)

(** One operation that commits nothing. *)
Inductive step (c : Controller) : Controller -> Prop :=
| step_observe s rb now sb d c' :
    sample_ok s -> observe_inner c s rb now sb = Some (d, c') -> step c c'
| step_executed p budget : step c (set_executed_exploration_budget c p budget).2
| step_reject p cause now : step c (reject c p cause now).2
| step_resume paused : is_u64 paused -> step c (controller_on_resume c paused)
| step_variant v evidence : step c (observe_active_variant c v evidence)
| step_refused p s v now :
    (commit_candidate c p s v now).1 = false -> step c (commit_candidate c p s v now).2.

(** Any operation. *)
Inductive any_step (c : Controller) : Controller -> Prop :=
| any_uncommitted c' : step c c' -> any_step c c'
| any_commit p s v now c' :
    sample_ok s -> commit_candidate c p s v now = (true, c') -> any_step c c'.

Lemma refused_unchanged c p s v now :
  (commit_candidate c p s v now).1 = false -> (commit_candidate c p s v now).2 = c.
Proof.
  unfold commit_candidate. destruct (_ || _); [done|].
  pose proof (commit_spec c p now) as H. destruct (commit c p now) as [[] c']; [done|].
  by destruct H as [-> _].
Qed.

Lemma step_wf c c' : controller_wf c -> step c c' -> controller_wf c'.
Proof.
  intros Hc [s rb now sb d c'' Hs E|p b|p cause now|t Ht|v k|p s v now E].
  - by apply observe_inner_decided in E as (? & _).
  - by apply set_executed_wf.
  - by apply reject_wf.
  - by apply controller_on_resume_wf.
  - by apply observe_active_variant_wf.
  - by rewrite refused_unchanged.
Qed.

Lemma steps_wf c c' : controller_wf c -> rtc step c c' -> controller_wf c'.
Proof. intros Hc H. revert Hc. induction H; eauto using step_wf. Qed.

Lemma any_step_wf c c' : controller_wf c -> any_step c c' -> controller_wf c'.
Proof.
  intros Hc [? H|p s v now c'' Hs E]; [by eapply step_wf|].
  pose proof (commit_candidate_wf c p s v now Hc Hs) as H. by rewrite E in H.
Qed.

Lemma any_steps_wf c c' : controller_wf c -> rtc any_step c c' -> controller_wf c'.
Proof. intros Hc H. revert Hc. induction H; eauto using any_step_wf. Qed.

(** ** What a failure rules out only ever grows *)

Definition opt_le (a b : option Z) : Prop :=
  match a with None => True | Some x => exists y, b = Some y /\ x <= y end.

#[export] Instance opt_le_preorder : PreOrder opt_le.
Proof.
  split.
  - intros [x|]; cbn; [by exists x|done].
  - intros [x|] b c; cbn; [|done]. intros (y & -> & ?) (z & -> & ?). exists z. split; [done|lia].
Qed.

Record certificate_le (f f' : FailureCertificate) : Prop := {
  cle_deadline : opt_le (deadline_budget_ms f) (deadline_budget_ms f');
  cle_service :
    opt_le (completed_unsustainable_hls_fast_kbps f) (completed_unsustainable_hls_fast_kbps f');
  cle_structural : structural f = true -> structural f' = true
}.

#[export] Instance certificate_le_preorder : PreOrder certificate_le.
Proof.
  split.
  - intros f. by split.
  - intros a b c [] []. split; [by etransitivity|by etransitivity|auto].
Qed.

(** The refusals of [c] are refusals of [c']. *)
Record refuses_more (c c' : Controller) : Prop := {
  rm_frontier : opt_le (c_common_budget_frontier_ms c) (c_common_budget_frontier_ms c');
  rm_failures : forall r, certificate_le (failure c r) (failure c' r)
}.

#[export] Instance refuses_more_preorder : PreOrder refuses_more.
Proof.
  split.
  - intros c. split; [reflexivity|]. intros r. reflexivity.
  - intros a b c [? Hab] [? Hbc]. split; [by etransitivity|].
    intros r. etransitivity; [apply Hab|apply Hbc].
Qed.

Lemma raise_frontier_le o b : opt_le o (raise_frontier o b).
Proof.
  destruct o as [x|]; [|done]. exists (Z.max x b). split; [done|apply Z.le_max_l].
Qed.

Lemma raise_frontier_reaches o b : opt_le (Some b) (raise_frontier o b).
Proof. eexists. split; [done|apply Z.le_max_r]. Qed.

Lemma refuses_more_same c c' :
  c_common_budget_frontier_ms c' = c_common_budget_frontier_ms c ->
  c_failures c' = c_failures c -> refuses_more c c'.
Proof. intros E1 E2. split; [by rewrite E1|]. intros r. rewrite (failure_eq _ _ _ E2). reflexivity. Qed.

Lemma set_failure_refuses_more c r f :
  controller_wf c -> certificate_le (failure c r) f -> refuses_more c (set_failure c r f).
Proof.
  intros Hc Hf. split; [reflexivity|]. intros r'. rewrite lookup_set_failure by done.
  case_decide; [by subst|reflexivity].
Qed.

Lemma fold_structural c l :
  controller_wf c ->
  let c' :=
    fold_left (fun c r => set_failure c r ((failure c r) <| structural := true |>)) l c in
  refuses_more c c' /\ forall r, r ∈ l -> structural (failure c' r) = true.
Proof.
  revert c. induction l as [|r l IH]; intros c Hc; cbn.
  - split; [reflexivity|]. intros r Hr. by apply elem_of_nil in Hr.
  - set (f := (failure c r) <| structural := true |>).
    assert (certificate_le (failure c r) f) as Hf by (split; [reflexivity|reflexivity|done]).
    pose proof (set_failure_refuses_more c r f Hc Hf) as H1.
    destruct (IH _ (set_failure_wf c r f Hc)) as [H2 H3]. split; [by etransitivity|].
    intros r' [->|Hr']%elem_of_cons; [|by apply H3].
    apply (rm_failures _ _ H2 r). by rewrite lookup_set_failure, decide_True.
Qed.

(** A premise about another cause of rejection. *)
Ltac absurd_cause :=
  solve [intros; repeat match goal with H : _ \/ _ |- _ => destruct H end; discriminate].

(** Everything a rejected upshift adds. *)
Lemma reject_up_refuses c r cause :
  controller_wf c ->
  let c' := reject_up c r cause in
  let budget := c_pending_exploration_budget_ms c in
  refuses_more c c'
  /\ (cause = Censored \/ cause = ResponseUnchanged ->
      opt_le (Some budget) (c_common_budget_frontier_ms c'))
  /\ (cause = Censored \/ cause = ResponseUnchanged \/ cause = Candidate ->
      opt_le (Some budget) (deadline_budget_ms (failure c' r)))
  /\ (cause = CompletedUnsustainable ->
      opt_le (Some (ce_fast_kbps (c_delivery c)))
        (completed_unsustainable_hls_fast_kbps (failure c' r)))
  /\ (cause = Structural -> structural (failure c' r) = true)
  /\ (cause = StructuralAtOrBelow ->
      forall r', rung_le r' r = true -> structural (failure c' r') = true).
Proof.
  intros Hc c' budget. subst c'. unfold reject_up. cbv zeta. fold budget.
  assert (forall f, failure (set_failure c r f) r = f) as Hset
    by (intros f; by rewrite lookup_set_failure, decide_True).
  set (c1 := c <| c_common_budget_frontier_ms := raise_frontier (c_common_budget_frontier_ms c) budget |>).
  assert (controller_wf c1) as Hc1 by (destruct Hc; by split).
  assert (forall f, failure (set_failure c1 r f) r = f) as Hset1
    by (intros f; by rewrite lookup_set_failure, decide_True).
  assert (refuses_more c c1) as H01 by (split; [apply raise_frontier_le|intros r'; reflexivity]).
  destruct cause; cbn [bool_decide]; rewrite ?Hset, ?Hset1.
  - rewrite bool_decide_true by done. split_and!; try absurd_cause; intros.
    + etransitivity; [exact H01|]. apply set_failure_refuses_more; [done|].
      split; [apply raise_frontier_le|done|done].
    + apply raise_frontier_reaches.
    + apply raise_frontier_reaches.
  - split_and!; try absurd_cause; intros.
    + apply set_failure_refuses_more; [done|]. split; [apply raise_frontier_le|done|done].
    + apply raise_frontier_reaches.
  - split_and!; try absurd_cause; intros.
    + apply set_failure_refuses_more; [done|]. split; [done|apply raise_frontier_le|done].
    + apply raise_frontier_reaches.
  - split_and!; try absurd_cause; intros; [by apply set_failure_refuses_more|done].
  - rewrite bool_decide_false by done. split_and!; try absurd_cause; intros.
    + etransitivity; [exact H01|]. apply set_failure_refuses_more; [done|].
      split; [apply raise_frontier_le|done|done].
    + apply raise_frontier_reaches.
    + apply raise_frontier_reaches.
  - destruct (fold_structural c (List.filter (fun r' => rung_le r' r) LADDER) Hc) as [H1 H2].
    split_and!; try absurd_cause; [done|].
    intros _ r' Hr'. apply H2, elem_of_filterb. split; [apply rung_in_ladder|done].
  - split_and!; try absurd_cause. reflexivity.
Qed.

Lemma step_refuses_more c c' : controller_wf c -> step c c' -> refuses_more c c'.
Proof.
  intros Hc [s rb now sb d c'' Hs E|p b|p cause now|t Ht|v k|p s v now E].
  - apply observe_inner_decided in E as (_ & [] & _); [|done..]. by apply refuses_more_same.
  - unfold set_executed_exploration_budget. destruct (_ || _ || _); [reflexivity|].
    destruct (_ || _); by apply refuses_more_same.
  - unfold reject. destruct (negb _); [reflexivity|].
    pose proof (forget_pending_wf c now Hc) as Hc1.
    set (c1 := c <| c_pending := None |> <| c_pending_reserve_policy := None |> <| _ := _ |>) in *.
    assert (refuses_more c c1) as H1 by by apply refuses_more_same.
    etransitivity; [exact H1|]. clear H1.
    destruct (bool_decide _); [by apply refuses_more_same|].
    destruct (bool_decide _); cbn [snd].
    + destruct (bool_decide _); by apply refuses_more_same.
    + destruct (reject_up_refuses c1 (pr_rung p) cause Hc1) as [H _].
      etransitivity; [exact H|]. by apply refuses_more_same.
  - by apply refuses_more_same.
  - unfold observe_active_variant. destruct (bool_decide _); by apply refuses_more_same.
  - by rewrite refused_unchanged.
Qed.

Lemma steps_refuse_more c c' : controller_wf c -> rtc step c c' -> refuses_more c c'.
Proof.
  intros Hc H. revert Hc. induction H as [|c c1 c2 H1 _ IH]; intros Hc; [reflexivity|].
  etransitivity; [by apply step_refuses_more|]. by apply IH, (step_wf c).
Qed.

(** The rung, the pin and the picture history move only on a commit. *)
Record same_point (c c' : Controller) : Prop := {
  sp_current : c_current c' = c_current c;
  sp_pin : c_pin c' = c_pin c;
  sp_catalog : c_catalog c' = c_catalog c;
  sp_switches : c_visible_switches c' = c_visible_switches c
}.

Lemma same_point_trans a b c : same_point a b -> same_point b c -> same_point a c.
Proof. intros [] []. split; congruence. Qed.

Lemma fold_set_failure_point (g : Controller -> Rung -> FailureCertificate) l : forall c,
  same_point c (fold_left (fun c r => set_failure c r (g c r)) l c).
Proof.
  induction l as [|r l IH]; intros c; cbn; [done|].
  eapply same_point_trans; [|apply IH]. by split.
Qed.

Lemma step_same_point c c' : controller_wf c -> step c c' -> same_point c c'.
Proof.
  intros Hc [s rb now sb d c'' Hs E|p b|p cause now|t Ht|v k|p s v now E].
  - apply observe_inner_decided in E as (_ & [] & _); [|done..]. by split.
  - unfold set_executed_exploration_budget. destruct (_ || _ || _); [done|].
    by destruct (_ || _).
  - unfold reject. destruct (negb _); [done|]. destruct (bool_decide _); [done|].
    destruct (bool_decide (pr_direction p = Down)); cbn [snd]; [by destruct (bool_decide _)|].
    set (c1 := c <| c_pending := None |> <| c_pending_reserve_policy := None |> <| _ := _ |>).
    assert (same_point c1 (reject_up c1 (pr_rung p) cause)) as H1.
    { destruct cause; try done.
      apply (fold_set_failure_point (fun c r => (failure c r) <| structural := true |>)). }
    destruct H1. by split.
  - by split.
  - unfold observe_active_variant. by destruct (bool_decide _).
  - by rewrite refused_unchanged.
Qed.

Lemma steps_same_point c c' : controller_wf c -> rtc step c c' -> same_point c c'.
Proof.
  intros Hc H. revert Hc. induction H as [|c c1 c2 H1 _ IH]; intros Hc; [done|].
  eapply same_point_trans; [by apply step_same_point|]. by apply IH, (step_wf c).
Qed.

(** ** What a proposal was concluded from *)

(** A sustainable answer was given on totals that fit. *)
Lemma sustainable_fits s l reserve ordered a :
  summary_models s l -> costs_ok l -> summary_admission s reserve ordered = Some a ->
  ad_sustainable a = true ->
  l <> [] /\ ~ overflows l
  /\ ad_runway_us a = (if ordered then ordered_runway l else stress_runway l)
  /\ sum_acquisition l <= sum_duration l.
Proof.
  intros Hm Hok E Hs. destruct (summary_admission_spec s l reserve ordered Hm Hok) as [Hnil Hne].
  assert (l <> []) as Hl by (intros El; rewrite (Hnil El) in E; done).
  destruct (Hne Hl) as (a' & E' & _ & Hsus & _ & Hex). rewrite E in E'. injection E' as <-.
  assert (~ overflows l) as Hno.
  { unfold summary_admission in E. destruct (as_n s =? 0); [done|].
    destruct (as_overflowed s) eqn:Eo; [by simplify_eq|]. destruct Hm as (_ & _ & Hx).
    by destruct (Hx Eo). }
  split_and!; [done|done|by apply Hex|by apply Hsus].
Qed.

Lemma ceil_ms_bounds us : 0 <= us -> us <= ceil_ms us * 1000 < us + 1000.
Proof.
  intros H. unfold ceil_ms. rewrite Z.quot_div_nonneg, Z.rem_mod_nonneg by lia.
  pose proof (Z.div_mod us 1000 ltac:(lia)). pose proof (Z.mod_pos_bound us 1000 ltac:(lia)).
  destruct (Z.eqb_spec (us mod 1000) 0); lia.
Qed.

(** An exploration budget is what the reserve holds beyond the worst replay of the episode and
    beyond the next object of the live cursor. *)
Lemma exploration_budget_spec c l b e :
  window_holds (c_acquisitions c) l -> 0 <= b <= RESERVE_BOUND_MS ->
  (forall d, c_rollback_media_ms c = Some d -> is_u32 d) ->
  exploration_budget_ms c b = Some e ->
  0 < e
  /\ stress_runway (cost_of <$> l) <= (b - e) * 1000
  /\ (exists d, c_rollback_media_ms c = Some d /\ 0 < d /\ d <= b - e)
  /\ sum_acquisition (cost_of <$> l) <= sum_duration (cost_of <$> l).
Proof.
  intros [_ _ _ _ Hm Hok] Hb Hd. unfold exploration_budget_ms, exploration_budget_ms_for.
  unfold observed_admission.
  destruct (summary_admission _ b false) as [a|] eqn:Ea; [|done]. cbn [mbind option_bind].
  destruct (ad_sustainable a) eqn:Es; [|done]. cbn [negb].
  destruct (c_rollback_media_ms c) as [d|] eqn:Ed; [|done]. specialize (Hd d eq_refl).
  cbn [mbind option_bind]. destruct (Z.ltb_spec 0 d); [|done]. cbn [negb].
  destruct (sustainable_fits _ _ _ _ _ Hm (costs_ok_of _ Hok) Ea Es) as (_ & Hno & Hr & Hsum).
  pose proof (stress_bounds _ (costs_ok_of _ Hok)) as Hst. rewrite Hr.
  assert (0 <= stress_runway (cost_of <$> l)) as Hpos by (unfold stress_runway; lia).
  pose proof (ceil_ms_bounds _ Hpos) as Hc. set (r := ceil_ms _) in *. clearbody r.
  assert (0 <= r <= i64_max) as Hrb by (unfold overflows, stress_runway in *; ints).
  rewrite i64_sat_small by (unfold RESERVE_BOUND_MS in *; ints).
  destruct (Z.ltb_spec 0 (b - Z.max r d)); [|done]. intros [= <-].
  split_and!; [done|lia| |done]. exists d. split_and!; [done|done|lia].
Qed.

Record up_justified (c : Controller) (s : SegmentSample) (p : Proposal) (c' : Controller)
    (b e : Z) (a : Admission) : Prop := {
  uj_reserve : buffered_ms (ss_buffer s) = Some b;
  uj_completed : ss_completed s = true;
  uj_physics : observed_ordered_admission (c_acquisitions c) b = Some a;
  uj_admitted : ad_sustainable a = true /\ ad_survivable a = true;
  uj_budget : exploration_budget_ms c b = Some e;
  uj_armed : c_pending_exploration_budget_ms c' = e;
  uj_common : common_budget_blocks c (Some e) = false;
  uj_failure : blocks (failure c (pr_rung p)) (Some e) (c_delivery c) = false;
  uj_target :
    (pr_rung p ∈ rungs_above c /\ upshift_earns_its_visible_switch c (pr_rung p) = true)
    \/ (rungs_above c = [] /\ pr_rung p = c_current c /\ active_variant_needs_refresh c = true
        /\ active_variant_refresh_released c = true)
}.

Lemma decide_upshift_inv c safe b p c' :
  decide_upshift c safe b = (Prime p, c') ->
  pr_direction p = Up
  /\ exists e, exploration_budget_ms c b = Some e /\ c_pending_exploration_budget_ms c' = e
     /\ common_budget_blocks c (Some e) = false
     /\ blocks (failure c (pr_rung p)) (Some e) (c_delivery c) = false
     /\ ((pr_rung p ∈ rungs_above c /\ upshift_earns_its_visible_switch c (pr_rung p) = true)
         \/ (rungs_above c = [] /\ pr_rung p = c_current c /\ active_variant_needs_refresh c = true
             /\ active_variant_refresh_released c = true)).
Proof.
  unfold decide_upshift. destruct (exploration_budget_ms c b) as [e|]; [|done].
  destruct (common_budget_blocks c (Some e)) eqn:Ec; [done|].
  destruct (rungs_above c) as [|r0 l] eqn:Ea.
  - unfold decide_at_top. destruct (active_variant_needs_refresh c) eqn:En; [|done].
    set (c1 := with_reason c ResponseLimited).
    change (active_variant_refresh_released c1) with (active_variant_refresh_released c).
    change (failure c1 (c_current c1)) with (failure c (c_current c)).
    change (c_delivery c1) with (c_delivery c).
    destruct (_ && _) eqn:Eb; [|done]. apply andb_true_iff in Eb as [Er Eb%negb_true_iff].
    intros [= <- <-]. split; [done|]. exists e. split_and!; try done. by right.
  - destruct (upshift_target c safe b e) as [t|] eqn:Et; [|done].
    destruct (upshift_earns_its_visible_switch c t) eqn:Ew; [|done]. cbn [negb].
    apply upshift_target_eligible, eligible_spec in Et as [Ht Hbl]. rewrite Ea in Ht.
    intros [= <- <-]. split; [done|]. exists e. split_and!; try done. by left.
Qed.

Lemma decide_downshift_inv c a safe b p c' :
  decide_downshift c a safe b = (Prime p, c') ->
  pr_direction p = Down
  /\ (ad_survivable a = false ->
      pr_rung p = recovery_floor c /\ c_pending_reserve_policy c' = Some TerminalFloor)
  /\ (ad_survivable a = true ->
      pr_rung p = completed_recovery_target c safe b
      /\ c_pending_reserve_policy c' = Some Preserve).
Proof.
  unfold decide_downshift. case_bool_decide; [done|]. intros [= <- <-].
  by destruct (ad_survivable a).
Qed.

Lemma decide_sample_up_inv c s sb p c' :
  c_pin c = None -> decide_sample c s sb = Some (Prime p, c') -> pr_direction p = Up ->
  sb = false /\ exists b e a, up_justified c s p c' b e a.
Proof.
  intros Hpin. unfold decide_sample. destruct (sb && ss_completed s) eqn:Esb; [done|].
  case_bool_decide; [done|]. destruct (buffered_ms (ss_buffer s)) as [b|] eqn:Eb; [|done].
  destruct (ss_completed s) eqn:Ec; cbn [negb].
  2: { unfold decide_abandoned. destruct (rung_lt _ _); [|done]. by intros [= <- _] ?. }
  rewrite andb_true_r in Esb. rewrite Hpin. set (c1 := c <| c_last_emergency_horizon := None |>).
  change (c_acquisitions c1) with (c_acquisitions c).
  destruct (observed_ordered_admission (c_acquisitions c) b) as [a|] eqn:Ea; [|done].
  cbn [mbind option_bind]. destruct (_ || _) eqn:Ebad.
  { intros E Hup. apply Some_inj, decide_downshift_inv in E as [Hd _]. congruence. }
  apply orb_false_iff in Ebad as [Hs%negb_false_iff Hv%negb_false_iff].
  intros E _. apply Some_inj, decide_upshift_inv in E as (_ & e & H1 & H2 & H3 & H4 & H5).
  split; [done|]. exists b, e, a. by split.
Qed.

(** Passing the certificates bounds the budget from below. *)
Lemma budget_within_false f e x :
  budget_within f (Some e) = false -> opt_le (Some x) f -> x < e.
Proof.
  intros Hb (y & -> & Hxy). cbn in Hb. apply Z.leb_gt in Hb. lia.
Qed.

Lemma not_blocked f e delivery :
  blocks f (Some e) delivery = false ->
  structural f = false
  /\ budget_within (deadline_budget_ms f) (Some e) = false
  /\ (forall x, opt_le (Some x) (completed_unsustainable_hls_fast_kbps f) ->
        x < conservative_kbps delivery).
Proof.
  unfold blocks. rewrite !orb_false_iff. intros [[? Hu] ?]. split_and!; [done|done|].
  intros x (y & E & Hxy). unfold completed_unsustainable_blocks in Hu. rewrite E in Hu.
  apply Z.leb_gt in Hu. lia.
Qed.

(** ** Properties *)

(** C1. Whatever happened to a controller since it was created -- samples, abandoned fetches, pauses,
    rejections and commits in any order -- observing a sample never hits the [expect] on an
    empty bag and decides.  The decision itself moves nothing: the rung stays, at most one
    transaction is in flight, a downshift goes strictly down and an upshift never does. *)
Theorem controller_never_panics r prior cat c s rb now sb :
  catalog_wf cat -> (forall e, prior = Some e -> capacity_wf e) ->
  rtc any_step (starting_at r prior cat) c -> sample_ok s ->
  exists d c', observe_inner c s rb now sb = Some (d, c')
    /\ controller_wf c'
    /\ c_current c' = c_current c
    /\ match d with
       | Stay => c_pending c' = c_pending c
       | Prime p =>
           c_pending c = None /\ c_pending c' = Some p
           /\ (pr_direction p = Down -> rung_lt (pr_rung p) (c_current c) = true)
           /\ (pr_direction p = Up -> rung_le (c_current c) (pr_rung p) = true)
       end.
Proof.
  intros Hcat Hprior Hsteps Hs.
  pose proof (any_steps_wf _ _ (starting_at_wf r prior cat Hcat Hprior) Hsteps) as Hc.
  destruct (observe_inner_total c s rb now sb Hc Hs) as [[d c'] E]. exists d, c'.
  destruct (observe_inner_decided _ _ _ _ _ _ _ Hc Hs E) as (Hw & Hf & Hd & Hp).
  pose proof (fr_current _ _ Hf). split_and!; [done|done|done|].
  destruct (take_evidence_stage c s rb now sb) as [Hf1 Ep _]. destruct Hd as [_ _ Htx].
  destruct d as [|p].
  - destruct Htx as (-> & _). exact Ep.
  - destruct Htx as [-> Hok]. rewrite (fr_current _ _ Hf1) in Hok. unfold pending_ok in Hok.
    destruct (c_pending_reserve_policy c'); [|done]. split_and!; [by eapply Hp|done| |];
      intros Hdir; rewrite Hdir in Hok; [done|by destruct Hok].
Qed.

(** Recovery is guaranteed and minimal.  When the completed episode cannot be replayed from the
    reserve at hand, the controller at once proposes the smallest feasible rung below -- or says
    it is at the floor -- under the no-rollback contract; when the episode can be replayed but
    does not replenish itself it proposes some feasible rung below that keeps the reserve; and a
    sustainable, survivable episode never triggers a downshift. *)
Theorem unsafe_episode_recovers c s rb now d c' a b :
  controller_wf c -> sample_ok s -> c_pin c = None -> c_pending c = None ->
  ss_completed s = true -> buffered_ms (ss_buffer s) = Some b ->
  observe_inner c s rb now false = Some (d, c') ->
  observed_ordered_admission (c_acquisitions (take_evidence c s rb now false)) b = Some a ->
  (ad_survivable a = false ->
     (rungs_below c = [] /\ d = Stay /\ c_last_reason c' = Some (Reason_Hls LadderFloor))
     \/ exists p, d = Prime p /\ pr_direction p = Down /\ pr_rung p ∈ rungs_below c
          /\ (forall r, r ∈ rungs_below c -> rung_le (pr_rung p) r = true)
          /\ c_pending_reserve_policy c' = Some TerminalFloor)
  /\ (ad_survivable a = true -> ad_sustainable a = false ->
     (rungs_below c = [] /\ d = Stay)
     \/ exists p, d = Prime p /\ pr_direction p = Down /\ pr_rung p ∈ rungs_below c
          /\ c_pending_reserve_policy c' = Some Preserve)
  /\ (ad_survivable a = true -> ad_sustainable a = true ->
     forall p, d = Prime p -> pr_direction p = Up).
Proof.
  intros Hc Hs Hpin Hpend Hcompl Hb E Ha. unfold observe_inner in E.
  destruct (take_evidence_stage c s rb now false) as [Hf Ep _].
  set (c1 := take_evidence c s rb now false) in *. clearbody c1.
  assert (rungs_below c1 = rungs_below c) as Erb.
  { unfold rungs_below. by rewrite (fr_current _ _ Hf), (fr_catalog _ _ Hf). }
  assert (c_current c1 = c_current c) as Ecur by apply (fr_current _ _ Hf).
  unfold decide_sample in E. rewrite Hcompl, Hb, Ep, Hpend, (fr_pin _ _ Hf), Hpin in E.
  cbn [andb negb bool_decide] in E. rewrite bool_decide_false in E by (by intros []).
  set (c2 := c1 <| c_last_emergency_horizon := None |>) in E.
  change (c_acquisitions c2) with (c_acquisitions c1) in E. rewrite Ha in E.
  cbn [mbind option_bind] in E.
  destruct (recovery_floor_spec c2) as [Hnone|[Hin Hmin]];
    change (rungs_below c2) with (rungs_below c1) in *; rewrite Erb in *.
  - destruct Hnone as [Hnone Hfl].
    assert (completed_recovery_target c2 (c_last_safe_budget_kbps c1) b = c_current c2) as Ht.
    { destruct (completed_recovery_target_spec c2 (c_last_safe_budget_kbps c1) b)
        as [->|(x & Hx & _ & Hlt & _)]; [done|]. exfalso.
      assert (cd_rung x ∈ rungs_below c2) as Hb2 by (apply elem_of_rungs_below; eauto).
      change (rungs_below c2) with (rungs_below c1) in Hb2. rewrite Erb, Hnone in Hb2.
      by apply elem_of_nil in Hb2. }
    unfold decide_downshift in E. rewrite Ht, Hfl in E.
    destruct (ad_survivable a), (ad_sustainable a); cbn [negb orb] in E;
      rewrite ?bool_decide_true in E by done; split_and!; intros; try done;
      try (unfold stay in E; injection E as <- <-; by left).
    apply Some_inj in E. subst d. by apply decide_upshift_inv in E as [? _].
  - assert (recovery_floor c2 <> c_current c2) as Hne.
    { intros Eq. rewrite <- Erb in Hin. apply elem_of_rungs_below in Hin as [Hlt _].
      change (c_current c2) with (c_current c1) in Eq. rewrite Eq, rung_lt_irrefl in Hlt. done. }
    assert (completed_recovery_target c2 (c_last_safe_budget_kbps c1) b ∈ rungs_below c) as Ht.
    { destruct (completed_recovery_target_spec c2 (c_last_safe_budget_kbps c1) b)
        as [->|(x & Hx & -> & Hlt & _)]; [done|]. rewrite <- Erb.
      change (rungs_below c1) with (rungs_below c2). apply elem_of_rungs_below. eauto. }
    assert (completed_recovery_target c2 (c_last_safe_budget_kbps c1) b <> c_current c2) as Htne.
    { intros Eq. rewrite Eq, <- Erb in Ht. apply elem_of_rungs_below in Ht as [Hlt _].
      change (c_current c2) with (c_current c1) in Hlt. rewrite rung_lt_irrefl in Hlt. done. }
    unfold decide_downshift in E.
    destruct (ad_survivable a), (ad_sustainable a); cbn [negb orb] in E;
      rewrite ?bool_decide_false in E by done; split_and!; intros; try done;
      try (unfold prime in E; injection E as <- <-; right; eexists; by split_and!).
    apply Some_inj in E. subst d. by apply decide_upshift_inv in E as [? _].
Qed.

(** An upshift proposed is past every refusal that stood before the sample. *)
Lemma upshift_is_not_refused c s rb now sb q c' :
  controller_wf c -> sample_ok s -> c_pin c = None ->
  observe_inner c s rb now sb = Some (Prime q, c') -> pr_direction q = Up ->
  budget_within (c_common_budget_frontier_ms c) (Some (c_pending_exploration_budget_ms c')) = false
  /\ blocks (failure c (pr_rung q)) (Some (c_pending_exploration_budget_ms c')) (c_delivery c')
     = false.
Proof.
  intros Hc Hs Hpin E Hup.
  destruct (observe_inner_decided _ _ _ _ _ _ _ Hc Hs E) as (_ & _ & [_ Hm _] & _).
  destruct (take_evidence_stage c s rb now sb) as [Hf _ _]. unfold observe_inner in E.
  set (e := take_evidence c s rb now sb) in *. clearbody e.
  apply decide_sample_up_inv in E as (-> & b & budget & a & [_ _ _ _ _ Harm Hcom Hfail _]);
    [|by rewrite (fr_pin _ _ Hf)|done].
  unfold common_budget_blocks in Hcom. rewrite (fr_frontier _ _ Hf) in Hcom.
  rewrite (failure_eq _ _ _ (fr_failures _ _ Hf)) in Hfail.
  rewrite Harm, (ma_delivery _ _ Hm). done.
Qed.

(** The episode an upshift is proposed on, at the physics of the decision. *)
Lemma upshift_is_admitted c s rb now sb q c' b :
  controller_wf c -> sample_ok s -> c_pin c = None ->
  observe_inner c s rb now sb = Some (Prime q, c') -> pr_direction q = Up ->
  buffered_ms (ss_buffer s) = Some b ->
  exists a, observed_ordered_admission (c_acquisitions c') b = Some a
    /\ ad_sustainable a = true /\ ad_survivable a = true.
Proof.
  intros Hc Hs Hpin E Hup Hb.
  destruct (observe_inner_decided _ _ _ _ _ _ _ Hc Hs E) as (_ & _ & [_ Hm _] & _).
  destruct (take_evidence_stage c s rb now sb) as [Hf _ _]. unfold observe_inner in E.
  set (e := take_evidence c s rb now sb) in *. clearbody e.
  apply decide_sample_up_inv in E as (_ & b' & budget & a & [Hb' _ Ha [? ?] _ _ _ _ _]);
    [|by rewrite (fr_pin _ _ Hf)|done].
  rewrite Hb in Hb'. injection Hb' as <-. exists a. by rewrite (ma_window _ _ Hm).
Qed.

(** C5. An upshift is bought only with reserve nothing else needs.  While the viewer has pinned no
    quality, it is proposed only on a completed object of an episode that the ordered admission
    finds sustainable and survivable at the reserve at hand; after spending the whole granted
    budget the reserve still covers every order of replaying the episode and the next object of
    the current stream; neither the common frontier nor any certificate of the rung blocks it at
    that budget; and the rung is either feasible, above the current one and worth the visible
    switch, or the current one again when the response underfills it. *)
Theorem upshift_is_funded c s rb now sb p c' :
  controller_wf c -> sample_ok s -> c_pin c = None ->
  (forall d, rb = Some d -> is_u32 d) ->
  observe_inner c s rb now sb = Some (Prime p, c') -> pr_direction p = Up ->
  exists b l,
    buffered_ms (ss_buffer s) = Some b
    /\ window_holds (c_acquisitions c') l
    /\ let e := c_pending_exploration_budget_ms c' in
       0 < e
       /\ (forall l', l' ≡ₚ cost_of <$> l -> is_Some (replay ((b - e) * 1000) l'))
       /\ (exists d, rb = Some d /\ 0 < d /\ d <= b - e)
       /\ ss_completed s = true
       /\ (exists a, observed_ordered_admission (c_acquisitions c') b = Some a
            /\ ad_sustainable a = true /\ ad_survivable a = true)
       /\ budget_within (c_common_budget_frontier_ms c) (Some e) = false
       /\ blocks (failure c (pr_rung p)) (Some e) (c_delivery c') = false
       /\ (pr_rung p = c_current c /\ active_variant_needs_refresh c = true
           \/ rung_lt (c_current c) (pr_rung p) = true
              /\ (exists x, x ∈ feasible (c_catalog c) /\ cd_rung x = pr_rung p)
              /\ upshift_earns_its_visible_switch c' (pr_rung p) = true).
Proof.
  intros Hc Hs Hpin Hrb E Hup.
  destruct (upshift_is_not_refused _ _ _ _ _ _ _ Hc Hs Hpin E Hup) as [Hcommon Hblocks].
  pose proof (fun b => upshift_is_admitted _ _ _ _ _ _ _ b Hc Hs Hpin E Hup) as Hadmitted.
  destruct (observe_inner_decided _ _ _ _ _ _ _ Hc Hs E) as (_ & Hf & Hd & _).
  destruct (take_evidence_window c s rb now sb Hc Hs) as (l & Hl & _).
  destruct (take_evidence_stage c s rb now sb) as [Hf1 _ _].
  destruct (take_evidence_evidence c s rb now sb) as [_ _ _ Erbm _ _ _ _].
  unfold observe_inner in E. set (c1 := take_evidence c s rb now sb) in *. clearbody c1.
  apply decide_sample_up_inv in E as (-> & b & e & a & [Hb Hcompl _ _ Hbud Harm _ _ Ht]);
    [|by rewrite (fr_pin _ _ Hf1)|done].
  destruct Hs as [_ Hs]. specialize (Hs b Hb).
  assert (forall d, c_rollback_media_ms c1 = Some d -> rb = Some d /\ is_u32 d) as Hd1.
  { rewrite Erbm. destruct rb as [d|]; cbn; [|done]. destruct (0 <? d); [|done].
    intros ? [= <-]. split; [done|]. by apply Hrb. }
  destruct (exploration_budget_spec c1 l b e Hl Hs (fun d H => proj2 (Hd1 d H)) Hbud)
    as (He & Hst & (d & Ed & Hd0 & Hdb) & _).
  destruct Hd as [_ Hm _]. specialize (Hadmitted b Hb). exists b, l.
  rewrite (ma_window _ _ Hm) in *. rewrite Harm in *.
  split; [done|]. split; [done|]. cbv zeta. split_and!.
  - done.
  - intros l' Hp. destruct Hl as [_ _ _ _ _ Hok]. pose proof (costs_ok_of _ Hok) as Hok'.
    assert (costs_ok l') as Hokl by (unfold costs_ok; by rewrite Hp).
    apply replay_ordered_runway; [done|]. right.
    pose proof (stress_covers_every_order l' Hokl) as Hcov.
    rewrite (stress_runway_perm _ _ Hp) in Hcov. lia.
  - exists d. split; [by apply Hd1|done].
  - done.
  - done.
  - done.
  - done.
  - destruct Ht as [[Hin Hw]|(_ & Heq & Hn & _)].
    + right. apply elem_of_rungs_above in Hin as [Hlt Hx].
      rewrite (fr_current _ _ Hf1) in Hlt. rewrite (fr_catalog _ _ Hf1) in Hx.
      split_and!; [done|done|]. revert Hw. unfold upshift_earns_its_visible_switch, visible_switch_history.
      destruct Hf as [-> -> -> _ _ _ _ _ -> ->], Hf1 as [-> -> -> _ _ _ _ _ -> ->].
      by rewrite (ma_now _ _ Hm).
    + left. rewrite <- (fr_current _ _ Hf1). split; [done|]. revert Hn.
      unfold active_variant_needs_refresh.
      by rewrite (fr_variant _ _ Hf1), (fr_current _ _ Hf1), (fr_catalog _ _ Hf1).
Qed.

(** What a rejected upshift leaves behind is still refused by any controller that came from it. *)
Lemma rejection_stands c p cause now c2 :
  controller_wf c -> c_pending c = Some p -> pr_direction p = Up -> cause <> Circumstance ->
  rtc step (reject c p cause now).2 c2 ->
  exists c0,
    c_pending_exploration_budget_ms c0 = c_pending_exploration_budget_ms c
    /\ c_delivery c0 = c_delivery c /\ controller_wf c0
    /\ refuses_more (reject_up c0 (pr_rung p) cause) c2.
Proof.
  intros Hc Hpend Hup Hne Hsteps. pose proof (forget_pending_wf c now Hc) as Hc0.
  exists (c <| c_pending := None |> <| c_pending_reserve_policy := None |>
            <| c_now_ms := Z.max (c_now_ms c) now |>).
  split_and!; [done|done|done|].
  etransitivity; [|by apply (steps_refuse_more _ _ (reject_wf c p cause now Hc) Hsteps)].
  unfold reject. rewrite (bool_decide_true (c_pending c = Some p)) by done. cbn [negb].
  rewrite (bool_decide_false (cause = Circumstance)) by done.
  rewrite (bool_decide_false (pr_direction p = Down)) by congruence.
  cbn [snd]. by apply refuses_more_same.
Qed.

(** C2. A failure is paid for once.  After an upshift is rejected, until something commits, whatever
    else happens: a transaction that produced no endpoint rules out every upshift, and a
    candidate that could not be funded rules out its own rung, until a strictly larger budget is
    granted; a rung that acquired slower than it played needs a service bound strictly above the
    rate it failed at, however large the reserve; and a structural refusal is final, for every
    smaller box too when it was the raster. *)
Theorem failed_budget_is_never_retried c p cause now c2 s rb now' sb q c3 :
  controller_wf c -> c_pin c = None -> c_pending c = Some p -> pr_direction p = Up ->
  rtc step (reject c p cause now).2 c2 -> sample_ok s ->
  observe_inner c2 s rb now' sb = Some (Prime q, c3) -> pr_direction q = Up ->
  (cause = Censored \/ cause = ResponseUnchanged ->
     c_pending_exploration_budget_ms c < c_pending_exploration_budget_ms c3)
  /\ (cause = Candidate -> pr_rung q = pr_rung p ->
     c_pending_exploration_budget_ms c < c_pending_exploration_budget_ms c3)
  /\ (cause = CompletedUnsustainable -> pr_rung q = pr_rung p ->
     ce_fast_kbps (c_delivery c) < conservative_kbps (c_delivery c3))
  /\ (cause = Structural -> pr_rung q <> pr_rung p)
  /\ (cause = StructuralAtOrBelow -> rung_lt (pr_rung p) (pr_rung q) = true).
Proof.
  intros Hc Hpin Hpend Hup Hsteps Hs E Hqup.
  pose proof (reject_wf c p cause now Hc) as Hw1.
  pose proof (sp_pin _ _ (steps_same_point _ c2 Hw1 Hsteps)) as Hpin2.
  rewrite (sp_pin c _ (step_same_point c _ Hc (step_reject c p cause now))), Hpin in Hpin2.
  destruct (upshift_is_not_refused c2 s rb now' sb q c3 (steps_wf _ c2 Hw1 Hsteps) Hs Hpin2 E Hqup)
    as [Hcom Hfail].
  apply not_blocked in Hfail as (Hns & Hdl & Hun).
  pose proof (fun Hne => rejection_stands c p cause now c2 Hc Hpend Hup Hne Hsteps) as Hrej2.
  clear Hsteps Hpin2. split_and!.
  - intros Hcause. destruct Hrej2 as (c0 & Eb & _ & Hw0 & Hr); [by destruct Hcause; subst|].
    destruct (reject_up_refuses c0 (pr_rung p) cause Hw0) as (_ & H & _).
    rewrite <- Eb. eapply budget_within_false; [exact Hcom|].
    etransitivity; [by apply H|]. apply Hr.
  - intros -> Eq. destruct Hrej2 as (c0 & Eb & _ & Hw0 & Hr); [done|].
    destruct (reject_up_refuses c0 (pr_rung p) Candidate Hw0) as (_ & _ & H & _).
    rewrite <- Eb. eapply budget_within_false; [exact Hdl|]. rewrite Eq.
    etransitivity; [apply H; by right; right|]. apply (rm_failures _ _ Hr).
  - intros -> Eq. destruct Hrej2 as (c0 & _ & Ed & Hw0 & Hr); [done|].
    destruct (reject_up_refuses c0 (pr_rung p) CompletedUnsustainable Hw0) as (_ & _ & _ & H & _).
    rewrite <- Ed. apply Hun. rewrite Eq.
    etransitivity; [by apply H|]. apply (rm_failures _ _ Hr).
  - intros -> Eq. destruct Hrej2 as (c0 & _ & _ & Hw0 & Hr); [done|].
    destruct (reject_up_refuses c0 (pr_rung p) Structural Hw0) as (_ & _ & _ & _ & H & _).
    rewrite Eq in Hns. rewrite (cle_structural _ _ (rm_failures _ _ Hr _) (H eq_refl)) in Hns. done.
  - intros ->. destruct Hrej2 as (c0 & _ & _ & Hw0 & Hr); [done|].
    destruct (reject_up_refuses c0 (pr_rung p) StructuralAtOrBelow Hw0) as (_ & _ & _ & _ & _ & H).
    destruct (rung_lt (pr_rung p) (pr_rung q)) eqn:El; [done|]. apply rung_not_lt in El.
    rewrite (cle_structural _ _ (rm_failures _ _ Hr _) (H eq_refl _ El)) in Hns. done.
Qed.

(** The budget the worker arms is checked again at the moment it is armed: it is accepted only
    for the upshift in flight and only past every refusal standing at that budget; refused, the
    proposal is withdrawn and nothing about the current stream has moved. *)
Theorem executed_budget_is_rechecked c p budget ok c' :
  controller_wf c -> set_executed_exploration_budget c p budget = (ok, c') ->
  c_current c' = c_current c /\ c_failures c' = c_failures c
  /\ c_common_budget_frontier_ms c' = c_common_budget_frontier_ms c
  /\ c_acquisitions c' = c_acquisitions c
  /\ (ok = true <->
      c_pending c = Some p /\ pr_direction p = Up /\ 0 < budget
      /\ common_budget_blocks c (Some budget) = false
      /\ blocks (failure c (pr_rung p)) (Some budget) (c_delivery c) = false)
  /\ (ok = true -> c_pending c' = Some p /\ c_pending_exploration_budget_ms c' = budget)
  /\ (ok = false -> c_pending c = Some p -> pr_direction p = Up -> 0 < budget ->
      c_pending c' = None /\ c_pending_reserve_policy c' = None
      /\ c_last_reason c' = Some (Reason_Hls RejectBackoff)).
Proof.
  intros Hc. unfold set_executed_exploration_budget.
  set (guard := negb _ || negb _ || _).
  assert (guard = false <-> c_pending c = Some p /\ pr_direction p = Up /\ 0 < budget) as Hg.
  { subst guard. rewrite !orb_false_iff, !negb_false_iff, !bool_decide_eq_true, Z.leb_gt. tauto. }
  clearbody guard. destruct guard.
  { intros [= <- <-]. split_and!; try done.
    - split; [done|]. intros (? & ? & ? & _). discriminate (proj2 Hg ltac:(auto)).
    - intros. discriminate (proj2 Hg ltac:(auto)). }
  destruct (proj1 Hg eq_refl) as (Hp & Hd & Hb).
  destruct (common_budget_blocks c (Some budget)) eqn:Ec; cbn [orb];
    [|destruct (blocks _ _ _) eqn:Eb]; intros [= <- <-]; split_and!; try done;
    split; try done; by intros (_ & _ & _ & ? & ?).
Qed.

(** The verdict on a candidate is conservation of media, on the object that candidate itself
    delivered: an upshift is ready exactly when it acquired no slower than it plays and the
    reserve left covers one more acquisition like it; a downshift when the reserve left covers
    the object it owes, unless it still loses media and is not the floor; and under the
    no-rollback contract the floor is ready as soon as it completes. *)
Theorem candidate_verdict_is_conservation c p s bps b :
  controller_wf c -> sample_ok s -> c_pending c = Some p -> ss_completed s = true ->
  buffered_ms (ss_buffer s) = Some b -> ss_total_fetch_us s <= i64_max ->
  let A := ss_total_fetch_us s in
  let D := ss_media_duration_ms s * 1000 in
  (pr_direction p = Up ->
     (candidate_verdict c p s bps = Ready <-> A <= D /\ A <= b * 1000)
     /\ (candidate_verdict c p s bps = Unsustainable <-> D < A)
     /\ (candidate_boundary_verdict c p s bps = SetupBearing <-> D < A /\ A <= b * 1000)
     /\ (candidate_boundary_verdict c p s bps = Ready <-> A <= D /\ A <= b * 1000))
  /\ (pr_direction p = Down -> c_pending_reserve_policy c = Some Preserve ->
      candidate_verdict c p s bps = Ready
      <-> ss_media_obligation_ms s <= b /\ (A <= D \/ pr_rung p = recovery_floor c))
  /\ (pr_direction p = Down -> c_pending_reserve_policy c = Some TerminalFloor ->
      pr_rung p = recovery_floor c -> candidate_verdict c p s bps = Ready).
Proof.
  intros Hc [Hs Hres] Hp Hcompl Hb HA A D. specialize (Hres b Hb).
  destruct Hs as [_ Ha Ht Hd Ho _]. unfold RESERVE_BOUND_MS in Hres.
  assert (i64_checked (ss_total_fetch_us s) = Some A) as EA.
  { apply i64_checked_Some. split; [done|]. subst A. ints. }
  assert (i64_sat (ss_media_duration_ms s * 1000) = D) as ED by (subst D; ints).
  assert (i64_sat (b * 1000) = b * 1000) as EB by ints.
  unfold candidate_boundary_verdict, candidate_verdict. rewrite Hcompl, Hb, EA, ED, EB.
  cbv [default id from_option].
  rewrite (bool_decide_true (c_pending c = Some p)) by done. cbn [negb orb].
  clearbody A D. clear EA ED EB HA Ha Ht Hd Ho.
  split_and!.
  - intros Hdir. rewrite Hdir. rewrite (bool_decide_false (Up = Down)) by done. cbn [andb].
    destruct (Z.ltb_spec D A); [|destruct (Z.ltb_spec (b * 1000) A)];
      rewrite ?bool_decide_true by done; rewrite ?bool_decide_false by done; cbn [negb];
      repeat match goal with |- context [?x <=? ?y] => destruct (Z.leb_spec x y) end;
      split_and!; split; intros; try done; try lia; split; lia.
  - intros Hdir Hpol. rewrite Hdir, Hpol. rewrite (bool_decide_false (Some Preserve = _)) by done.
    rewrite andb_false_r.
    destruct (Z.ltb_spec D A), (Z.leb_spec (ss_media_obligation_ms s) b);
      case_bool_decide as Ef; cbn [negb andb]; split; intros H'; try done; try lia;
      try (split; [done|tauto]); exfalso; destruct H' as [? [?|?]]; (lia || done).
  - intros Hdir Hpol Hfl. rewrite Hdir, Hpol.
    rewrite (bool_decide_true (pr_rung p = recovery_floor c)) by done. done.
Qed.

(** The response has to improve on the one on screen, upward only. *)
Lemma response_improves_iff p v (active : option ObservedHlsVariant) :
  negb (bool_decide (pr_direction p = Up))
    || match active with Some a => strictly_dominates v a | None => false end = true
  <-> (pr_direction p = Up -> exists a, active = Some a /\ strictly_dominates v a = true).
Proof.
  rewrite orb_true_iff, negb_true_iff, bool_decide_eq_false.
  destruct active as [x|]; split.
  - intros [?|?] ?; [done|by exists x].
  - intros H. destruct (decide (pr_direction p = Up)) as [E|]; [|by left].
    destruct (H E) as (? & [= <-] & ?). by right.
  - by intros [?|?] ?.
  - intros H. left. intros E. by destruct (H E) as (? & ? & _).
Qed.

(** The two steps after the commit proper record the candidate's acquisition and its picture. *)
Lemma seat_candidate_frame c s v k :
  ss_completed s = true ->
  let c' := observe_active_variant (commit_candidate_evidence c s) v k in
  c_current c' = c_current c /\ c_pending c' = c_pending c
  /\ c_common_budget_frontier_ms c' = c_common_budget_frontier_ms c
  /\ c_failures c' = c_failures c /\ c_active_variant c' = Some v
  /\ c_visible_switches c' = c_visible_switches c
  /\ c_acquisitions c' = observe_report (c_acquisitions c) (report_of s).
Proof.
  intros Hs. unfold commit_candidate_evidence, observe_active_variant. rewrite Hs. cbn [negb].
  destruct (bool_decide _) eqn:Ev; [|done]. by apply bool_decide_eq_true in Ev.
Qed.

Lemma candidate_ready_completed c p s bps : candidate_verdict c p s bps = Ready -> ss_completed s = true.
Proof. unfold candidate_verdict. destruct (ss_completed s); [done|]. by rewrite orb_true_r. Qed.

(** A commit is one transition: it happens exactly for the pending proposal whose own completed
    object was graded ready -- and, upward, only when the picture that came back dominates the
    one on screen -- and it leaves the new rung with nothing of the old one: no pending
    transaction, no common refusal, no refusal of the rung just proved, and an episode that
    holds exactly the candidate's acquisition.  A commit that is refused changes nothing. *)
Theorem commit_is_exact c p s v now ok c' :
  controller_wf c -> sample_ok s -> commit_candidate c p s v now = (ok, c') ->
  (ok = true <->
     c_pending c = Some p /\ candidate_verdict c p s (declared_bps v) = Ready
     /\ (pr_direction p = Up ->
         exists active, c_active_variant c = Some active /\ strictly_dominates v active = true))
  /\ (ok = false -> c' = c)
  /\ (ok = true ->
      c_current c' = pr_rung p /\ c_pending c' = None
      /\ c_common_budget_frontier_ms c' = None
      /\ (forall r, failure c' r = if decide (r = pr_rung p) then failure_default else failure c r)
      /\ c_active_variant c' = Some v
      /\ c_visible_switches c'
         = (if decide (pr_rung p = c_current c) then c_visible_switches c
            else Z.min u32_max (c_visible_switches c + 1))
      /\ window_holds (c_acquisitions c') [report_sample (report_of s)]).
Proof.
  intros Hc Hs. unfold commit_candidate.
  pose proof (commit_spec c p now) as Hspec.
  set (better := negb (bool_decide (pr_direction p = Up)) || _).
  pose proof (response_improves_iff p v (c_active_variant c) : better = true <-> _) as Hbetter.
  clearbody better. destruct better; cbn [negb orb].
  2: { intros [= <- <-]. split_and!; [|done|done]. split; [done|]. intros (_ & _ & H).
       by apply Hbetter in H. }
  destruct (bool_decide (candidate_verdict c p s (declared_bps v) = Ready)) eqn:Hv; cbn [negb];
    [apply bool_decide_eq_true in Hv|apply bool_decide_eq_false in Hv].
  2: { intros [= <- <-]. split_and!; [|done|done]. split; [done|]. by intros (_ & ? & _). }
  pose proof (candidate_ready_completed _ _ _ _ Hv) as Hcompl.
  destruct (commit c p now) as [[] c1].
  2: { destruct Hspec as [-> Hn]. intros [= <- <-]. split_and!; [|done|done]. split; [done|].
       by intros (? & _). }
  destruct Hspec as (Hp & [Cc Cp _ _ Cf Cfail _ _ _ _ _ _ _ _ Csw _] & Cw & Cv).
  intros [= <- <-]. split_and!; [|done|intros _].
  { split; [|done]. intros _. split_and!; [done|done|by apply Hbetter]. }
  destruct (seat_candidate_frame c1 s v (network_kbps s) Hcompl) as (F1 & F2 & F3 & F4 & F5 & F6 & F7).
  set (c3 := observe_active_variant _ v _) in *. clearbody c3.
  rewrite F1, F2, F3, F5, F6, F7, Cc, Cp, Cf, Csw, Cw.
  split_and!; try done.
  - intros r. rewrite (failure_eq _ _ _ F4). unfold failure.
    rewrite Cfail. destruct (decide (r = pr_rung p)) as [->|Er].
    + apply list_lookup_total_insert_eq. rewrite (ctl_failures _ Hc). apply index_range.
    + apply list_lookup_total_insert_ne. intros Ei. by apply index_inj in Ei.
  - destruct (ctl_history _ Hc) as [Hsw _]. cbn in Hsw.
    destruct (decide (pr_rung p = c_current c)); [by rewrite bool_decide_true|].
    rewrite bool_decide_false by done. ints.
  - pose proof (window_observe_holds _ _ _ (window_reset_holds (c_acquisitions c)) (report_of_ok s Hs)) as H.
    by rewrite report_of_counts in H.
Qed.

(** The anti-flap history counts what the viewer saw: between commits it stands still, and over
    any history it never exceeds the number of commits. *)
Theorem only_commits_move_the_picture c c' :
  controller_wf c -> any_step c c' ->
  (c_current c' <> c_current c ->
     c_visible_switches c' = Z.min u32_max (c_visible_switches c + 1)
     /\ exists p s v now, commit_candidate c p s v now = (true, c')
          /\ pr_rung p = c_current c' /\ candidate_verdict c p s (declared_bps v) = Ready)
  /\ (c_current c' = c_current c -> c_visible_switches c' = c_visible_switches c).
Proof.
  intros Hc [c'' H|p s v now c'' Hs E].
  - apply step_same_point in H as [Ecur _ _ Esw]; [|done]. by split.
  - unfold commit_candidate in E.
    assert (exists c1, c_pending c = Some p /\ candidate_verdict c p s (declared_bps v) = Ready
              /\ committed c p now c1 /\ c_current c'' = c_current c1
              /\ c_visible_switches c'' = c_visible_switches c1) as (c1 & Hp & Hv & Hcm & E1 & E2).
    { destruct (negb _ || negb _) eqn:Eb; [done|]. apply orb_false_iff in Eb as [_ Hv].
      apply negb_false_iff, bool_decide_eq_true in Hv.
      pose proof (commit_spec c p now) as Hspec. destruct (commit c p now) as [[] c1]; [|done].
      destruct Hspec as (Hp & Hcm & _). exists c1. injection E as <-.
      split_and!; try done; unfold observe_active_variant, commit_candidate_evidence;
        destruct (ss_completed s); by destruct (bool_decide _). }
    destruct Hcm as [Cc _ _ _ _ _ _ _ _ _ _ _ _ _ Csw _]. rewrite E1, E2, Cc, Csw.
    destruct (ctl_history _ Hc) as [Hsw _]. cbn in Hsw. split; intros Hne.
    + rewrite bool_decide_false by done. split; [ints|]. exists p, s, v, now.
      split_and!; [|by rewrite ?E1, ?Cc|done]. exact E.
    + by rewrite bool_decide_true.
Qed.
