(* ===== verification/HlsClock.v ===== *)
(** * The HLS clock

    [play-feed/src/shared.rs]: the native media clock of a queued stream and the actuators that
    stop and start it -- the viewer, a seek, the starvation controller -- together with the leases
    of the automatic quality transitions and the publication of a candidate rung.

    Everything here runs under the mutex [hls_clock], so an operation is one step of the machine;
    the native Pause or Play it reserves happens between two steps, which is why it is split in
    [prepare] or [reserve] and [complete].  The atomics written under that mutex are fields of the
    same state.  [None] is a panic (an exhausted counter), and for
    [begin_hls_candidate_transition] also the wait on [hls_clock_changed]. *)

From S2P Require Import Prelude.

#[local] Open Scope Z_scope.

(** ** Recovery certificates *)

Record HlsRecoveryEpoch := mk_epoch {
  re_active : bool;
  re_completed : Z;
  re_debt_us : Z;
  re_runway_us : Z
}.
#[export] Instance HlsRecoveryEpoch_eq_dec : EqDecision HlsRecoveryEpoch.
Proof. solve_decision. Defined.

Definition epoch_idle : HlsRecoveryEpoch := mk_epoch false 0 0 0.
Definition epoch_begin : HlsRecoveryEpoch := mk_epoch true 0 0 0.

(** [media_ns]: a [Duration], in nanoseconds. *)
Definition epoch_observe (e : HlsRecoveryEpoch) (acquisition_us media_ns : Z) : HlsRecoveryEpoch :=
  if re_active e then
    let acquisition_us := Z.min acquisition_us i64_max in
    let media_us := Z.min (media_ns / 1000) i64_max in
    mk_epoch (re_active e)
      (u64_sat (re_completed e + 1))
      (i64_sat (i64_sat (re_debt_us e + acquisition_us) - media_us))
      (Z.max (re_runway_us e) (i64_sat (re_debt_us e + acquisition_us)))
  else e.

Definition epoch_ready (e : HlsRecoveryEpoch) (playable_ns : Z) : bool :=
  re_active e && (0 <? re_completed e) && (re_debt_us e <=? 0)
  && (re_runway_us e <=? Z.max playable_ns 0 / 1000).

(** ** State *)

Inductive ClockHold := Initial | Seek | Rebuffer | User | ResumePrime.
#[export] Instance ClockHold_eq_dec : EqDecision ClockHold.
Proof. solve_decision. Defined.

Inductive HlsPrimeKind := Prime_Fresh | Prime_Rebuffer | Prime_Resume.
#[export] Instance HlsPrimeKind_eq_dec : EqDecision HlsPrimeKind.
Proof. solve_decision. Defined.

Definition prime_kind (h : ClockHold) : option HlsPrimeKind :=
  match h with
  | Initial | Seek => Some Prime_Fresh
  | Rebuffer => Some Prime_Rebuffer
  | ResumePrime => Some Prime_Resume
  | User => None
  end.

Inductive HlsClockPhase :=
  | Running
  | PauseIssuing (token : Z) (hold : ClockHold)
  | Held (hold : ClockHold)
  | PlayIssuing (token : Z) (hold : ClockHold) (resume_acb : bool)
  | Stopping.
#[export] Instance HlsClockPhase_eq_dec : EqDecision HlsClockPhase.
Proof. solve_decision. Defined.

Inductive HlsAutomaticTransition := QualityUp | QualityDown | Transition_Original.
Inductive HlsAutomaticPhase := Working | CommitAuthorized.
#[export] Instance HlsAutomaticPhase_eq_dec : EqDecision HlsAutomaticPhase.
Proof. solve_decision. Defined.

Record HlsAutomaticOwner := mk_owner {
  ao_token : Z;
  ao_kind : HlsAutomaticTransition;
  ao_phase : HlsAutomaticPhase;
  ao_user_sequence : Z
}.

(** [HlsClockState], then the atomics of [Shared] that are written under its mutex;
    [hc_rebuffer_requested] is written outside it, by any thread.  [hc_wakeups] counts the
    [notify_all]s of [hls_clock_changed]. *)
Record HlsClock := mk_clock {
  hc_phase : HlsClockPhase;
  hc_next_token : Z;
  hc_recovery : HlsRecoveryEpoch;
  hc_user_held : bool;
  hc_user_sequence : Z;
  hc_resume_acb : bool;
  hc_automatic : option HlsAutomaticOwner;
  hc_rebuffering : bool;
  hc_hold_epoch : Z;
  hc_trial_reserve : Z;
  hc_candidate : Z;
  hc_rebuffer_requested : bool;
  hc_wakeups : nat
}.
#[export] Instance eta_clock : Eta HlsClock := fun s =>
  mk_clock (hc_phase s) (hc_next_token s) (hc_recovery s) (hc_user_held s) (hc_user_sequence s)
    (hc_resume_acb s) (hc_automatic s) (hc_rebuffering s) (hc_hold_epoch s) (hc_trial_reserve s)
    (hc_candidate s) (hc_rebuffer_requested s) (hc_wakeups s).

Definition clock_new : HlsClock :=
  mk_clock Running 0 epoch_idle false 0 false None false 0 (-1) 0 false 0.

Definition token (s : HlsClock) : option (Z * HlsClock) :=
  t ← u64_checked (hc_next_token s + 1); Some (t, s <| hc_next_token := t |>).

Definition advance_user_sequence (s : HlsClock) : option HlsClock :=
  n ← u64_checked (hc_user_sequence s + 1); Some (s <| hc_user_sequence := n |>).

Definition notify_all (s : HlsClock) : HlsClock := s <| hc_wakeups := S (hc_wakeups s) |>.

(** [& 1 != 0]: a candidate publication is in flight. *)
Definition fenced (generation : Z) : bool := negb (Z.land generation 1 =? 0).

Definition is_phase (s : HlsClock) (p : HlsClockPhase) : bool := bool_decide (hc_phase s = p).

(** ** The operations *)

Inductive HlsPauseCompletion := Pause_Accepted | Pause_Refused | Pause_Stale.
Inductive HlsUserPause := UserPause_Issue (token : Z) | UserPause_AlreadyHeld.
Inductive HlsUserResume := Resume_Issue (token : Z) | Resume_Deferred | Resume_Prime.
Inductive HlsPlayCompletion := Play_Accepted (resume_acb : bool) | Play_Refused | Play_Stale.
Inductive HlsSeekPause := SeekPause_Issue (token : Z) | SeekPause_AlreadyHeld.
Inductive HlsClockFenceError := Fence_Stopping | Fence_Overlap | Fence_Exhausted | Fence_Superseded.

Definition observe_hls_recovery (acquisition_us media_ns : Z) (s : HlsClock) : HlsClock :=
  s <| hc_recovery := epoch_observe (hc_recovery s) acquisition_us media_ns |>.

Definition arm_initial_clock_hold (user_held seek_preroll : bool) (s : HlsClock)
  : bool * HlsClock :=
  if negb (is_phase s Running) || (0 <=? hc_trial_reserve s) || fenced (hc_candidate s)
  then (false, s)
  else (true, s <| hc_phase := Held Initial |>
                <| hc_user_held := user_held && negb seek_preroll |>
                <| hc_resume_acb := user_held && seek_preroll |>).

Definition prepare_hls_rebuffer_pause (s : HlsClock) : option (option Z * HlsClock) :=
  if negb (is_phase s Running) || (0 <=? hc_trial_reserve s) then Some (None, s)
  else
    '(t, s) ← token s;
    Some (Some t, s <| hc_recovery := epoch_begin |> <| hc_phase := PauseIssuing t Rebuffer |>).

Definition complete_hls_rebuffer_pause (t : Z) (accepted : bool) (s : HlsClock)
  : HlsPauseCompletion * HlsClock :=
  if negb (is_phase s (PauseIssuing t Rebuffer)) then (Pause_Stale, s)
  else if accepted then
    (Pause_Accepted,
     notify_all (s <| hc_phase := Held Rebuffer |> <| hc_rebuffering := true |>
                   <| hc_hold_epoch := u64_wrap (hc_hold_epoch s + 1) |>))
  else
    (Pause_Refused, notify_all (s <| hc_phase := Running |> <| hc_recovery := epoch_idle |>)).

Definition prepare_hls_user_pause (s : HlsClock) : option (option HlsUserPause * HlsClock) :=
  if is_phase s Stopping then Some (None, s)
  else if hc_user_held s then Some (Some UserPause_AlreadyHeld, s)
  else
    match hc_phase s with
    | Held _ =>
        s ← advance_user_sequence (s <| hc_user_held := true |> <| hc_resume_acb := false |>);
        Some (Some UserPause_AlreadyHeld, s)
    | Running =>
        '(t, s) ← token s;
        Some (Some (UserPause_Issue t), s <| hc_phase := PauseIssuing t User |>)
    | _ => Some (None, s)
    end.

Definition complete_hls_user_pause (t : Z) (accepted : bool) (s : HlsClock)
  : option (HlsPauseCompletion * HlsClock) :=
  if negb (is_phase s (PauseIssuing t User)) then Some (Pause_Stale, s)
  else if accepted then
    s ← advance_user_sequence
          (s <| hc_phase := Held User |> <| hc_user_held := true |> <| hc_resume_acb := false |>);
    Some (Pause_Accepted, notify_all s)
  else Some (Pause_Refused, notify_all (s <| hc_phase := Running |>)).

(** A hold the viewer's pause is laid on is handed to the seek. *)
Definition hold_for_seek (s : HlsClock) : HlsClock :=
  let s := if hc_user_held s then s <| hc_user_held := false |> <| hc_resume_acb := true |> else s in
  s <| hc_phase := Held Seek |>.

Definition prepare_seek_pause (s : HlsClock) : option (option HlsSeekPause * HlsClock) :=
  match hc_phase s with
  | Running =>
      '(t, s) ← token s;
      Some (Some (SeekPause_Issue t), s <| hc_phase := PauseIssuing t Seek |>)
  | Held (User | Initial | Seek | ResumePrime) =>
      Some (Some SeekPause_AlreadyHeld, hold_for_seek s)
  | _ => Some (None, s)
  end.

Definition hand_hold_to_seek_prime (s : HlsClock) : bool * HlsClock :=
  match hc_phase s with
  | Held (User | Initial | Seek | ResumePrime) => (true, hold_for_seek s)
  | _ => (false, s)
  end.

Definition complete_seek_pause (t : Z) (accepted : bool) (s : HlsClock)
  : HlsPauseCompletion * HlsClock :=
  if negb (is_phase s (PauseIssuing t Seek)) then (Pause_Stale, s)
  else
    (if accepted then Pause_Accepted else Pause_Refused,
     notify_all (s <| hc_phase := if accepted then Held Seek else Running |>)).

Definition prepare_hls_user_resume (queued_stream : bool) (s : HlsClock)
  : option (option HlsUserResume * HlsClock) :=
  if is_phase s Stopping || negb (hc_user_held s) then Some (None, s)
  else
    match hc_phase s with
    | Held hold =>
        if negb (bool_decide (hold = User)) then
          s ← advance_user_sequence (s <| hc_user_held := false |> <| hc_resume_acb := true |>);
          Some (Some Resume_Deferred, s)
        else if queued_stream then
          s ← advance_user_sequence
                (s <| hc_phase := Held ResumePrime |> <| hc_user_held := false |>
                   <| hc_resume_acb := true |>);
          Some (Some Resume_Prime, s)
        else
          '(t, s) ← token s;
          Some (Some (Resume_Issue t), s <| hc_phase := PlayIssuing t hold true |>)
    | _ => Some (None, s)
    end.

Definition hls_prime_kind (s : HlsClock) : option HlsPrimeKind :=
  match hc_phase s with Held hold => prime_kind hold | _ => None end.

Definition reserve_hls_prime_play (expected_kind : HlsPrimeKind) (expected_candidate : Z)
    (expected_recovery : HlsRecoveryEpoch) (s : HlsClock)
  : option (option (Z * HlsRecoveryEpoch) * HlsClock) :=
  if (0 <=? hc_trial_reserve s) || bool_decide (is_Some (hc_automatic s))
     || negb (hc_candidate s =? expected_candidate) || fenced expected_candidate
     || (bool_decide (expected_kind = Prime_Rebuffer)
         && negb (bool_decide (hc_recovery s = expected_recovery)))
     || hc_user_held s
  then Some (None, s)
  else
    match hc_phase s with
    | Held hold =>
        if negb (bool_decide (prime_kind hold = Some expected_kind)) then Some (None, s)
        else
          '(t, s) ← token s;
          Some (Some (t, hc_recovery s),
                s <| hc_phase := PlayIssuing t hold (hc_resume_acb s) |>)
    | _ => Some (None, s)
    end.

Definition complete_hls_prime_play (t : Z) (accepted : bool) (s : HlsClock)
  : option (HlsPlayCompletion * HlsClock) :=
  match hc_phase s with
  | PlayIssuing active hold resume_acb =>
      if negb (active =? t) then Some (Play_Stale, s)
      else if accepted then
        let s := s <| hc_phase := Running |> <| hc_recovery := epoch_idle |>
                   <| hc_user_held := false |> <| hc_resume_acb := false |> in
        s ← if bool_decide (hold = User) then advance_user_sequence s else Some s;
        let s := if bool_decide (hold = Rebuffer) then s <| hc_rebuffering := false |> else s in
        Some (Play_Accepted resume_acb, notify_all s)
      else
        let s := s <| hc_phase := Held hold |> in
        let s := if bool_decide (hold = User) then s <| hc_user_held := true |> else s in
        Some (Play_Refused, notify_all s)
  | _ => Some (Play_Stale, s)
  end.

(** The phases an automatic transition may own; a downshift also helps a starving clock. *)
Definition transition_phase_ok (kind : HlsAutomaticTransition) (s : HlsClock) : bool :=
  match kind with
  | QualityUp | Transition_Original => is_phase s Running && negb (hc_rebuffer_requested s)
  | QualityDown =>
      match hc_phase s with
      | Running | PauseIssuing _ Rebuffer | Held Rebuffer => true
      | _ => false
      end
  end.

Definition authorized (o : HlsAutomaticOwner) : HlsAutomaticOwner :=
  mk_owner (ao_token o) (ao_kind o) CommitAuthorized (ao_user_sequence o).

(** The lease that a candidate publication names, validated and consumed. *)
Definition consume_lease (expected_automatic : option Z) (s : HlsClock)
  : HlsClock + HlsClockFenceError :=
  match expected_automatic with
  | None => inl s
  | Some expected =>
      match hc_automatic s with
      | None => inr Fence_Superseded
      | Some owner =>
          if negb (ao_token owner =? expected) || negb (bool_decide (ao_phase owner = Working))
             || negb (ao_user_sequence owner =? hc_user_sequence s) || hc_user_held s
             || negb (transition_phase_ok (ao_kind owner) s)
          then inr Fence_Superseded
          else inl (s <| hc_automatic := Some (authorized owner) |>)
      end
  end.

(** The exchange cannot fail: the generation is written under the mutex only. *)
Definition begin_hls_candidate_transition (expected_automatic : option Z) (s : HlsClock)
  : option ((Z + HlsClockFenceError) * HlsClock) :=
  match hc_phase s with
  | PlayIssuing _ _ _ => None
  | Stopping => Some (inr Fence_Stopping, s)
  | _ =>
      match consume_lease expected_automatic s with
      | inr e => Some (inr e, s)
      | inl s =>
          let stable := hc_candidate s in
          if fenced stable then Some (inr Fence_Overlap, s)
          else
            match u64_checked (stable + 1) with
            | None => Some (inr Fence_Exhausted, s)
            | Some generation => Some (inl generation, s <| hc_candidate := generation |>)
            end
      end
  end.

Definition settle_hls_candidate_transition (generation : Z) (s : HlsClock) : bool * HlsClock :=
  let s :=
    match hc_phase s with
    | PauseIssuing _ Rebuffer | Held Rebuffer => s <| hc_recovery := epoch_begin |>
    | _ => s
    end in
  match u64_checked (generation + 1) with
  | None => (false, s)
  | Some settled =>
      if hc_candidate s =? generation
      then (true, notify_all (s <| hc_candidate := settled |>))
      else (false, s)
  end.

Definition arm_hls_trial_at (runway_ms expected_user_sequence : Z) (s : HlsClock)
  : option (option Z * HlsClock) :=
  if negb (is_phase s Running) || hc_user_held s
     || negb (hc_user_sequence s =? expected_user_sequence)
     || bool_decide (is_Some (hc_automatic s)) || hc_rebuffer_requested s
     || fenced (hc_candidate s)
  then Some (None, s)
  else
    '(t, s) ← token s;
    Some (Some t,
          s <| hc_automatic := Some (mk_owner t QualityUp Working (hc_user_sequence s)) |>
            <| hc_trial_reserve := Z.max runway_ms 0 |>).

Definition finish_hls_trial (t : Z) (s : HlsClock) : bool * HlsClock :=
  match hc_automatic s with
  | Some (mk_owner active QualityUp _ _) =>
      if active =? t
      then (true, notify_all (s <| hc_automatic := None |> <| hc_trial_reserve := -1 |>))
      else (false, s)
  | _ => (false, s)
  end.

Definition begin_hls_automatic_transition_at (kind : HlsAutomaticTransition)
    (expected_user_sequence : Z) (s : HlsClock) : option (option Z * HlsClock) :=
  if bool_decide (is_Some (hc_automatic s)) || hc_user_held s
     || negb (hc_user_sequence s =? expected_user_sequence)
     || fenced (hc_candidate s) || (0 <=? hc_trial_reserve s)
     || negb (transition_phase_ok kind s)
  then Some (None, s)
  else
    '(t, s) ← token s;
    Some (Some t, s <| hc_automatic := Some (mk_owner t kind Working (hc_user_sequence s)) |>).

Definition authorize_hls_automatic_transition_commit (t : Z) (s : HlsClock) : bool * HlsClock :=
  if hc_user_held s || negb (is_phase s Running) then (false, s)
  else
    match hc_automatic s with
    | None => (false, s)
    | Some owner =>
        if negb (ao_token owner =? t) || negb (bool_decide (ao_phase owner = Working))
           || negb (ao_user_sequence owner =? hc_user_sequence s)
        then (false, s)
        else (true, s <| hc_automatic := Some (authorized owner) |>)
    end.

Definition finish_hls_automatic_transition (t : Z) (s : HlsClock) : bool * HlsClock :=
  match hc_automatic s with
  | Some owner =>
      if ao_token owner =? t then (true, notify_all (s <| hc_automatic := None |>)) else (false, s)
  | None => (false, s)
  end.

Definition hls_automatic_transition_permitted (kind : HlsAutomaticTransition) (s : HlsClock)
  : bool :=
  if hc_user_held s || bool_decide (is_Some (hc_automatic s)) || fenced (hc_candidate s)
     || (0 <=? hc_trial_reserve s)
  then false else transition_phase_ok kind s.

Definition stop_hls_clock (s : HlsClock) : HlsClock :=
  notify_all (s <| hc_phase := Stopping |> <| hc_recovery := epoch_idle |>
                <| hc_user_held := false |> <| hc_resume_acb := false |>
                <| hc_automatic := None |> <| hc_rebuffering := false |>).

(** [checked_add(..).unwrap_or(MAX)]: the next even generation above [current]. *)
Definition retired_generation (current : Z) : Z :=
  default u64_max (u64_checked (if fenced current then current + 1 else current + 2)).

(** [reset_hls_clock], and [cancel_clock_session_start]. *)
Definition reset_hls_clock (s : HlsClock) : HlsClock :=
  notify_all
    (mk_clock Running (hc_next_token s) epoch_idle false (hc_user_sequence s) false None false
       (u64_wrap (hc_hold_epoch s + 1)) (-1) (retired_generation (hc_candidate s))
       (hc_rebuffer_requested s) (hc_wakeups s)).

(** ** The machine: one label per operation, with its answer *)

Inductive ClockEvent :=
  | EvObserve (acquisition_us media_ns : Z)
  | EvRequest (requested : bool)
  | EvArmInitial (user_held seek_preroll armed : bool)
  | EvPrepareRebuffer (answer : option Z)
  | EvCompleteRebuffer (t : Z) (accepted : bool) (answer : HlsPauseCompletion)
  | EvPrepareUserPause (answer : option HlsUserPause)
  | EvCompleteUserPause (t : Z) (accepted : bool) (answer : HlsPauseCompletion)
  | EvPrepareSeek (answer : option HlsSeekPause)
  | EvHandToSeek (answer : bool)
  | EvCompleteSeek (t : Z) (accepted : bool) (answer : HlsPauseCompletion)
  | EvUserResume (queued : bool) (answer : option HlsUserResume)
  | EvReservePlay (kind : HlsPrimeKind) (candidate : Z) (recovery : HlsRecoveryEpoch)
      (answer : option (Z * HlsRecoveryEpoch))
  | EvCompletePlay (t : Z) (accepted : bool) (answer : HlsPlayCompletion)
  | EvBeginCandidate (lease : option Z) (answer : Z + HlsClockFenceError)
  | EvSettleCandidate (generation : Z) (settled : bool)
  | EvArmTrial (runway_ms sequence : Z) (answer : option Z)
  | EvFinishTrial (t : Z) (finished : bool)
  | EvBeginAutomatic (kind : HlsAutomaticTransition) (sequence : Z) (answer : option Z)
  | EvAuthorize (t : Z) (authorized : bool)
  | EvFinishAutomatic (t : Z) (finished : bool)
  | EvStop
  | EvReset.

Inductive clock_step (s : HlsClock) : ClockEvent -> HlsClock -> Prop :=
  | St_observe a m : clock_step s (EvObserve a m) (observe_hls_recovery a m s)
  | St_request b : clock_step s (EvRequest b) (s <| hc_rebuffer_requested := b |>)
  | St_arm_initial u p b s' :
      arm_initial_clock_hold u p s = (b, s') -> clock_step s (EvArmInitial u p b) s'
  | St_prepare_rebuffer r s' :
      prepare_hls_rebuffer_pause s = Some (r, s') -> clock_step s (EvPrepareRebuffer r) s'
  | St_complete_rebuffer t b r s' :
      complete_hls_rebuffer_pause t b s = (r, s') -> clock_step s (EvCompleteRebuffer t b r) s'
  | St_prepare_user_pause r s' :
      prepare_hls_user_pause s = Some (r, s') -> clock_step s (EvPrepareUserPause r) s'
  | St_complete_user_pause t b r s' :
      complete_hls_user_pause t b s = Some (r, s') -> clock_step s (EvCompleteUserPause t b r) s'
  | St_prepare_seek r s' :
      prepare_seek_pause s = Some (r, s') -> clock_step s (EvPrepareSeek r) s'
  | St_hand_to_seek b s' :
      hand_hold_to_seek_prime s = (b, s') -> clock_step s (EvHandToSeek b) s'
  | St_complete_seek t b r s' :
      complete_seek_pause t b s = (r, s') -> clock_step s (EvCompleteSeek t b r) s'
  | St_user_resume q r s' :
      prepare_hls_user_resume q s = Some (r, s') -> clock_step s (EvUserResume q r) s'
  | St_reserve_play k g e r s' :
      reserve_hls_prime_play k g e s = Some (r, s') -> clock_step s (EvReservePlay k g e r) s'
  | St_complete_play t b r s' :
      complete_hls_prime_play t b s = Some (r, s') -> clock_step s (EvCompletePlay t b r) s'
  | St_begin_candidate l r s' :
      begin_hls_candidate_transition l s = Some (r, s') -> clock_step s (EvBeginCandidate l r) s'
  | St_settle_candidate g b s' :
      settle_hls_candidate_transition g s = (b, s') -> clock_step s (EvSettleCandidate g b) s'
  | St_arm_trial m q r s' :
      arm_hls_trial_at m q s = Some (r, s') -> clock_step s (EvArmTrial m q r) s'
  | St_finish_trial t b s' :
      finish_hls_trial t s = (b, s') -> clock_step s (EvFinishTrial t b) s'
  | St_begin_automatic k q r s' :
      begin_hls_automatic_transition_at k q s = Some (r, s') ->
      clock_step s (EvBeginAutomatic k q r) s'
  | St_authorize t b s' :
      authorize_hls_automatic_transition_commit t s = (b, s') -> clock_step s (EvAuthorize t b) s'
  | St_finish_automatic t b s' :
      finish_hls_automatic_transition t s = (b, s') -> clock_step s (EvFinishAutomatic t b) s'
  | St_stop : clock_step s EvStop (stop_hls_clock s)
  | St_reset : clock_step s EvReset (reset_hls_clock s).

Inductive clock_steps : HlsClock -> list ClockEvent -> HlsClock -> Prop :=
  | steps_nil s : clock_steps s [] s
  | steps_cons s e s1 l s' : clock_step s e s1 -> clock_steps s1 l s' -> clock_steps s (e :: l) s'.

(** ** The invariant *)

Definition rebuffer_phase (p : HlsClockPhase) : bool :=
  match p with
  | PauseIssuing _ Rebuffer | Held Rebuffer | PlayIssuing _ Rebuffer _ => true
  | _ => false
  end.
Definition held_rebuffer (p : HlsClockPhase) : bool :=
  match p with Held Rebuffer | PlayIssuing _ Rebuffer _ => true | _ => false end.

Definition phase_token (p : HlsClockPhase) : option Z :=
  match p with PauseIssuing t _ | PlayIssuing t _ _ => Some t | _ => None end.


(** The phases in which the viewer's pause, and a resume the sink still has to be told about, may
    stand. *)
Definition holds_user (p : HlsClockPhase) : bool :=
  match p with Held _ | PlayIssuing _ User true => true | _ => false end.
Definition owes_resume (p : HlsClockPhase) : bool :=
  match p with Held _ | PlayIssuing _ _ true => true | _ => false end.

Definition user_play (p : HlsClockPhase) : bool :=
  match p with PlayIssuing _ User _ => true | _ => false end.

Record clock_ok (s : HlsClock) : Prop := {
  co_next_token : 0 <= hc_next_token s <= u64_max;
  co_sequence : 0 <= hc_user_sequence s <= u64_max;
  co_candidate : 0 <= hc_candidate s <= u64_max;
  co_phase_token : forall t, phase_token (hc_phase s) = Some t -> 1 <= t <= hc_next_token s;
  co_owner_token : forall o, hc_automatic s = Some o -> 1 <= ao_token o <= hc_next_token s;
  co_owner_sequence : forall o, hc_automatic s = Some o -> ao_user_sequence o <= hc_user_sequence s;
  co_distinct : forall o, hc_automatic s = Some o -> phase_token (hc_phase s) <> Some (ao_token o);
  co_user_held : hc_user_held s = true -> holds_user (hc_phase s) = true;
  co_user_play : user_play (hc_phase s) = true -> hc_user_held s = true;
  co_exclusive : hc_user_held s && hc_resume_acb s = false;
  co_resume_acb : hc_resume_acb s = true -> owes_resume (hc_phase s) = true;
  co_mirror : hc_rebuffering s = held_rebuffer (hc_phase s);
  co_recovery : re_active (hc_recovery s) = rebuffer_phase (hc_phase s)
}.

Ltac unfold_clock :=
  unfold observe_hls_recovery, arm_initial_clock_hold, prepare_hls_rebuffer_pause,
    complete_hls_rebuffer_pause, prepare_hls_user_pause, complete_hls_user_pause,
    prepare_seek_pause, hand_hold_to_seek_prime, hold_for_seek, complete_seek_pause,
    prepare_hls_user_resume, reserve_hls_prime_play, complete_hls_prime_play,
    begin_hls_candidate_transition, consume_lease,
    settle_hls_candidate_transition, arm_hls_trial_at, finish_hls_trial,
    begin_hls_automatic_transition_at, transition_phase_ok, authorize_hls_automatic_transition_commit,
    finish_hls_automatic_transition, stop_hls_clock, reset_hls_clock, notify_all,
    token, advance_user_sequence, is_phase in *.

Ltac clock_bools :=
  repeat match goal with
  | H : _ || _ = false |- _ => apply orb_false_iff in H as [? ?]
  | H : negb _ = false |- _ => apply negb_false_iff in H
  | H : negb _ = true |- _ => apply negb_true_iff in H
  | H : bool_decide _ = true |- _ => apply bool_decide_eq_true in H
  | H : bool_decide _ = false |- _ => apply bool_decide_eq_false in H
  | H : (_ =? _)%Z = true |- _ => apply Z.eqb_eq in H
  | H : (_ =? _)%Z = false |- _ => apply Z.eqb_neq in H
  | H : _ && _ = true |- _ => apply andb_true_iff in H as [? ?]
  end.

Ltac clock_match l :=
  lazymatch l with
  | context [match ?x with _ => _ end] =>
      lazymatch x with
      | context [match _ with _ => _ end] => clock_match x
      | _ => destruct x eqn:?
      end
  end.

Ltac clock_cases Hstep :=
  destruct Hstep; unfold_clock;
  repeat first
    [ progress simplify_eq/=
    | match goal with
      | H : ?l = Some (_, _) |- _ => clock_match l
      | H : ?l = (_, _) |- _ => clock_match l
      | H : context [u64_checked ?x] |- _ =>
          lazymatch type of H with
          | u64_checked _ = _ => fail
          | _ => destruct (u64_checked x) eqn:?
          end
      | |- context [if ?b then _ else _] => destruct b eqn:?
      | |- context [match ?p with Running => _ | _ => _ end] => destruct p eqn:?
      | |- context [match ?h with Initial => _ | _ => _ end] => destruct h eqn:?
      end ].

Lemma fenced_odd g : fenced g = Z.odd g.
Proof.
  unfold fenced. change (Z.land g 1) with (Z.land g (Z.ones 1)).
  rewrite Z.land_ones by lia. change (2 ^ 1) with 2. rewrite Zmod_odd. by destruct (Z.odd g).
Qed.

Lemma retired_generation_spec g : 0 <= g <= u64_max ->
  g <= retired_generation g <= u64_max /\ (g < u64_max -> g < retired_generation g).
Proof.
  intros Hg. unfold retired_generation.
  destruct (u64_checked _) as [r|] eqn:E; cbn [default]; cbv [default id].
  - apply checked_Some in E as [-> ?]. destruct (fenced g); lia.
  - apply checked_None in E. destruct (fenced g); ints.
Qed.

Lemma epoch_observe_active e a m : re_active (epoch_observe e a m) = re_active e.
Proof. unfold epoch_observe. by destruct (re_active e) eqn:E. Qed.

Ltac clock_checked :=
  repeat match goal with H : u64_checked _ = Some _ |- _ => apply checked_Some in H as [-> ?] end.





(** [use_owner]: instantiate what the invariant says of the current owner. *)
Ltac use_owner :=
  repeat match goal with
  | H : forall o, Some _ = Some o -> _ |- _ => specialize (H _ eq_refl)
  | H : forall o, ?a = Some o -> _, H' : ?a = Some _ |- _ => specialize (H _ H')
  | H : true = true -> _ |- _ => specialize (H eq_refl)
  end.

Lemma clock_ok_step s e s' : clock_ok s -> clock_step s e s' -> clock_ok s'.
Proof.
  intros Hok Hstep. destruct s as [ph nt rc uh us ra au rb he tr ca rq wk].
  clock_cases Hstep.
  all: clock_bools; clock_checked; subst.
  all: destruct Hok as [Hnt Hsq Hca Hpt Hot Hos Hd Huh Hup Hex Hra Hmi Hre]; cbn in *.
  all: split; cbn; intros; simplify_eq/=; rewrite ?epoch_observe_active; try done; try lia.
  all: try (use_owner; simplify_eq/=; done || lia || (intros [=]; lia)).
  all: try (by auto).
  - by destruct u, p.
  - by destruct hold.
  - by destruct hold.
  - pose proof (retired_generation_spec ca Hca). lia.
Qed.

Lemma clock_new_ok : clock_ok clock_new.
Proof. split; cbn; intros; simplify_eq; try done; ints. Qed.

Lemma clock_ok_steps s l s' : clock_ok s -> clock_steps s l s' -> clock_ok s'.
Proof. intros Hok. induction 1; eauto using clock_ok_step. Qed.
