(* ===== verification/ClockTraces.v ===== *)
(** * Histories of the HLS clock

    What holds along every interleaving of the operations of [HlsClock]: whoever owns the clock, in
    whatever order the threads take its mutex. *)

From S2P Require Import Prelude HlsClock.

#[local] Open Scope Z_scope.

(** ** The viewer's pause *)

(** The operations that hand a clock the viewer holds to somebody else. *)
Definition hands_over (e : ClockEvent) : bool :=
  match e with
  | EvUserResume _ (Some _) | EvPrepareSeek (Some _) | EvHandToSeek true | EvStop | EvReset => true
  | _ => false
  end.

Definition reserves_play (e : ClockEvent) : bool :=
  match e with EvReservePlay _ _ _ (Some _) | EvCompletePlay _ _ (Play_Accepted _) => true | _ => false end.

(** A viewer's pause that is granted: the native Pause is accepted, or the clock is held already
    and the pause is laid on the hold of the prime, the seek or the starvation controller. *)
Definition viewer_pauses (e : ClockEvent) : bool :=
  match e with
  | EvCompleteUserPause _ _ Pause_Accepted | EvPrepareUserPause (Some UserPause_AlreadyHeld) => true
  | _ => false
  end.

Definition viewer_holds (s : HlsClock) : Prop :=
  hc_user_held s = true /\ exists h, hc_phase s = Held h.

Lemma viewer_holds_step s e s' :
  viewer_holds s -> clock_step s e s' -> hands_over e = false ->
  viewer_holds s' /\ reserves_play e = false.
Proof.
  intros [Hu [h Hh]] Hstep. destruct s as [ph nt rc uh us ra au rb he tr ca rq wk]. cbn in *. subst.
  clock_cases Hstep; clock_bools; intros ?; simplify_eq/=; try (split; [split; cbn; eauto|done]).
Qed.

Lemma viewer_pauses_holds s e s' :
  clock_ok s -> clock_step s e s' -> viewer_pauses e = true -> user_play (hc_phase s) = false ->
  viewer_holds s'.
Proof.
  intros Hok Hstep. destruct s as [ph nt rc uh us ra au rb he tr ca rq wk]. unfold viewer_holds.
  pose proof (co_user_held _ Hok) as Huh. cbn in *.
  clock_cases Hstep; clock_bools; intros ? Hup; simplify_eq/=; try (split; cbn; by eauto).
  specialize (Huh eq_refl). split; [done|]. cbn. destruct ph as [| |h|? h ?|]; try done; [by eauto|].
  by destruct h.
Qed.

Lemma viewer_holds_steps s l s' :
  clock_steps s l s' -> viewer_holds s -> Forall (fun e => hands_over e = false) l ->
  viewer_holds s' /\ Forall (fun e => reserves_play e = false) l.
Proof.
  induction 1 as [|s e s1 l s' He Hl IH]; intros Hs Hh; [done|].
  apply Forall_cons in Hh as [Hhe Hh].
  destruct (viewer_holds_step _ _ _ Hs He Hhe) as [H1 Hr]. destruct (IH H1 Hh). auto.
Qed.

(** [A]: a step that ends a resume owed to the sink. *)
Definition cancels_resume (e : ClockEvent) : bool :=
  match e with
  | EvPrepareUserPause (Some UserPause_AlreadyHeld) | EvCompletePlay _ _ (Play_Accepted _)
  | EvStop | EvReset => true
  | _ => false
  end.

Definition owes_sink (s : HlsClock) : Prop :=
  hc_resume_acb s = true /\ owes_resume (hc_phase s) = true.

Lemma owes_sink_step s e s' :
  owes_sink s -> clock_step s e s' -> cancels_resume e = false -> owes_sink s'.
Proof.
  intros [Hr Ho] Hstep. destruct s as [ph nt rc uh us ra au rb he tr ca rq wk]. cbn in *. subst.
  clock_cases Hstep; clock_bools; intros ?; simplify_eq/=; done.
Qed.

Lemma owes_sink_play s t b a s' :
  owes_sink s -> clock_step s (EvCompletePlay t b (Play_Accepted a)) s' -> a = true.
Proof.
  intros [_ Ho] Hstep. destruct s as [ph nt rc uh us ra au rb he tr ca rq wk]. cbn in *. subst.
  inversion Hstep as [| | | | | | | | | | | |? ? ? ? Hop| | | | | | | | |]; subst.
  unfold complete_hls_prime_play in Hop. cbn in Hop.
  destruct ph as [| | |active hold acb|]; try done.
  destruct (negb (active =? t)); [done|]. destruct b; [|done]. 
  destruct (bool_decide (hold = User)); cbn in Hop.
  - unfold advance_user_sequence in Hop. cbn in Hop. destruct (u64_checked (us + 1)); [|done].
    cbn in Hop. simplify_eq/=. by destruct a.
  - simplify_eq/=. by destruct a.
Qed.

Lemma clock_steps_ind_safe (I : HlsClock -> Prop) (stop : ClockEvent -> bool) :
  (forall s e s', I s -> clock_step s e s' -> stop e = false -> I s') ->
  forall s l s', clock_steps s l s' -> I s -> Forall (fun e => stop e = false) l -> I s'.
Proof.
  intros Hstep s l s' Hs. induction Hs as [|s e s1 l s' He _ IH]; intros HI Hl; [done|].
  apply Forall_cons in Hl as [Hse Hl]. eauto.
Qed.

(** A resume the sink must be told about is never lost.  When a viewer's resume only takes the
    viewer's hold off, because a prime still owns the clock, then whatever happens until the viewer
    pauses again or the session ends, the first Play that is accepted is reported with the sink's
    half to be resumed. *)
Theorem deferred_resume_reaches_the_sink s queued answer s1 l s2 t b a s3 :
  clock_step s (EvUserResume queued (Some answer)) s1 ->
  answer = Resume_Deferred \/ answer = Resume_Prime ->
  clock_steps s1 l s2 -> Forall (fun e => cancels_resume e = false) l ->
  clock_step s2 (EvCompletePlay t b (Play_Accepted a)) s3 ->
  a = true.
Proof.
  intros Hres Hans Hl Hc Hplay. apply (owes_sink_play s2 t b a s3); [|done].
  apply (clock_steps_ind_safe owes_sink cancels_resume owes_sink_step s1 l s2 Hl); [|done].
  inversion Hres as [| | | | | | | | | |? ? ? Hop| | | | | | | | | | |]; subst.
  destruct s as [ph nt rc uh us ra au rb he tr ca rq wk].
  unfold prepare_hls_user_resume in Hop. cbn in Hop. destruct (_ || _); [done|].
  destruct ph as [| |hold| |]; try done. unfold advance_user_sequence, token in Hop. cbn in Hop.
  destruct (negb _).
  { destruct (u64_checked _); [|done]. by simplify_eq/=. }
  destruct queued; destruct (u64_checked _); cbn in Hop; try done; simplify_eq/=; [done|].
  by destruct Hans.
Qed.

(** ** Tokens *)

Definition issued (e : ClockEvent) : option Z :=
  match e with
  | EvPrepareRebuffer (Some t) | EvPrepareUserPause (Some (UserPause_Issue t))
  | EvPrepareSeek (Some (SeekPause_Issue t)) | EvUserResume _ (Some (Resume_Issue t))
  | EvReservePlay _ _ _ (Some (t, _)) | EvArmTrial _ _ (Some t) | EvBeginAutomatic _ _ (Some t) =>
      Some t
  | _ => None
  end.

(** The token of an operation that was accepted as the end of what the token began. *)
Definition settled (e : ClockEvent) : option Z :=
  match e with
  | EvCompleteRebuffer t _ (Pause_Accepted | Pause_Refused)
  | EvCompleteUserPause t _ (Pause_Accepted | Pause_Refused)
  | EvCompleteSeek t _ (Pause_Accepted | Pause_Refused)
  | EvCompletePlay t _ (Play_Accepted _ | Play_Refused)
  | EvFinishTrial t true | EvFinishAutomatic t true => Some t
  | _ => None
  end.

Definition stale (e : ClockEvent) : bool :=
  match e with
  | EvCompleteRebuffer _ _ Pause_Stale | EvCompleteUserPause _ _ Pause_Stale
  | EvCompleteSeek _ _ Pause_Stale | EvCompletePlay _ _ Play_Stale
  | EvFinishTrial _ false | EvFinishAutomatic _ false => true
  | _ => false
  end.

Lemma stale_inert s e s' : clock_step s e s' -> stale e = true -> s' = s.
Proof.
  intros Hstep. destruct s as [ph nt rc uh us ra au rb he tr ca rq wk].
  clock_cases Hstep; done.
Qed.

Definition owns (s : HlsClock) (t : Z) : Prop :=
  phase_token (hc_phase s) = Some t
  \/ exists o, hc_automatic s = Some o /\ ao_token o = t.

Lemma issued_step s e s' : clock_step s e s' ->
  match issued e with
  | Some t => t = hc_next_token s + 1 /\ hc_next_token s' = t
  | None => hc_next_token s' = hc_next_token s
  end.
Proof.
  intros Hstep. destruct s as [ph nt rc uh us ra au rb he tr ca rq wk].
  clock_cases Hstep; clock_checked; subst; done.
Qed.

Lemma owns_step s e s' t : clock_step s e s' -> owns s' t -> owns s t \/ issued e = Some t.
Proof.
  intros Hstep. destruct s as [ph nt rc uh us ra au rb he tr ca rq wk]. unfold owns.
  clock_cases Hstep; clock_checked; subst; try (by left);
    intros [?|(o & ? & ?)]; simplify_eq/=; eauto.
Qed.

Lemma settled_step s e s' t : clock_ok s -> clock_step s e s' -> settled e = Some t ->
  owns s t /\ ~ owns s' t /\ issued e = None.
Proof.
  intros Hok Hstep. destruct s as [ph nt rc uh us ra au rb he tr ca rq wk]. unfold owns.
  destruct Hok as [_ _ _ _ _ _ Hd _ _ _ _ _ _]. cbn in *.
  clock_cases Hstep; clock_bools; intros ?; simplify_eq/=;
    (split; [eauto|]); (split; [|done]); intros [?|(o & ? & ?)]; simplify_eq/=;
    try (use_owner; congruence).
  by apply (Hd _ eq_refl).
Qed.

(** The histories of a clock, newest operation last. *)
Inductive clock_history : list ClockEvent -> HlsClock -> Prop :=
  | history_new : clock_history [] clock_new
  | history_step l s e s' :
      clock_history l s -> clock_step s e s' -> clock_history (l ++ [e]) s'.

Lemma clock_history_ok l s : clock_history l s -> clock_ok s.
Proof. induction 1; eauto using clock_new_ok, clock_ok_step. Qed.

(** C3. The viewer's pause stands.  Along any history of the clock, once a viewer's pause is
    granted (accepted by the native player, or laid on a clock that a prime, a seek or a rebuffer
    already holds; not one asked again while the viewer's own resume is being issued) the clock
    stays held for the viewer, and no Play is reserved or completed, whatever the seek, the
    starvation controller and the quality transitions do, until the viewer resumes, a seek takes
    the hold over or the session is stopped or reset. *)
Theorem viewer_pause_stands before s e s1 l s2 :
  clock_history before s -> clock_step s e s1 -> viewer_pauses e = true ->
  user_play (hc_phase s) = false -> clock_steps s1 l s2 ->
  Forall (fun e => hands_over e = false) l ->
  hc_user_held s2 = true /\ (exists h, hc_phase s2 = Held h)
  /\ Forall (fun e => reserves_play e = false) l.
Proof.
  intros Hb He Hp Hup Hl Hh. apply clock_history_ok in Hb.
  destruct (viewer_holds_steps _ _ _ Hl (viewer_pauses_holds _ _ _ Hb He Hp Hup) Hh) as [[? ?] ?].
  auto.
Qed.

Record tokens_ok (l : list ClockEvent) (s : HlsClock) : Prop := {
  to_sorted : StronglySorted Z.lt (omap issued l);
  to_bound : Forall (fun t => 1 <= t <= hc_next_token s) (omap issued l);
  to_settled : NoDup (omap settled l);
  to_issued : omap settled l ⊆ omap issued l;
  to_owned : forall t, owns s t -> t ∈ omap issued l /\ t ∉ omap settled l
}.

Lemma StronglySorted_snoc (l : list Z) x :
  StronglySorted Z.lt l -> Forall (fun y => y < x) l -> StronglySorted Z.lt (l ++ [x]).
Proof.
  induction 1 as [|y l Hl IH Hy]; intros Hx; simpl; [repeat constructor|].
  apply Forall_cons in Hx as [? Hx]. constructor; [auto|]. apply Forall_app. auto.
Qed.

Lemma omap_snoc {A B} (f : A -> option B) l x :
  omap f (l ++ [x]) = omap f l ++ match f x with Some y => [y] | None => [] end.
Proof. rewrite omap_app. simpl. by destruct (f x). Qed.

Lemma tokens_ok_step l s e s' :
  clock_ok s -> tokens_ok l s -> clock_step s e s' -> tokens_ok (l ++ [e]) s'.
Proof.
  intros Hok [Hso Hb Hse His How] Hstep. pose proof (issued_step _ _ _ Hstep) as Hi.
  pose proof (co_next_token _ Hok) as Hnt.
  split; rewrite ?omap_snoc.
  - destruct (issued e) as [t|]; [|by rewrite app_nil_r]. destruct Hi as [-> _].
    apply StronglySorted_snoc; [done|]. eapply Forall_impl; [done|]. simpl. lia.
  - destruct (issued e) as [t|].
    + destruct Hi as [-> ->]. apply Forall_app. split; [|repeat constructor; lia].
      eapply Forall_impl; [done|]. simpl. lia.
    + rewrite Hi, app_nil_r. done.
  - destruct (settled e) as [t|] eqn:Es; [|by rewrite app_nil_r].
    destruct (settled_step _ _ _ _ Hok Hstep Es) as (Ho & _ & _). apply NoDup_app.
    split; [done|]. split; [|apply NoDup_singleton]. intros x Hx ->%list_elem_of_singleton.
    by apply (How t Ho).
  - destruct (settled e) as [t|] eqn:Es; [|set_solver].
    destruct (settled_step _ _ _ _ Hok Hstep Es) as (Ho & _ & _). pose proof (How t Ho). set_solver.
  - intros t Ht. destruct (owns_step _ _ _ _ Hstep Ht) as [Ho|Hn].
    + destruct (How t Ho) as [? Hns]. split; [set_solver|]. apply not_elem_of_app.
      split; [done|]. destruct (settled e) as [t'|] eqn:Es; [|set_solver].
      destruct (settled_step _ _ _ _ Hok Hstep Es) as (_ & Hno & _).
      intros ->%list_elem_of_singleton. done.
    + rewrite Hn in *. destruct Hi as [-> _]. split; [set_solver|]. apply not_elem_of_app.
      rewrite Forall_forall in Hb.
      split; [intros Hin; apply His, Hb in Hin; lia|].
      destruct (settled e) as [t'|] eqn:Es; [|set_solver].
      destruct (settled_step _ _ _ _ Hok Hstep Es) as (_ & _ & Hni). congruence.
Qed.

(** C22. Every token settles at most once.  Along any history, resets included, tokens are issued in
    strictly increasing order; every pause, Play, trial or automatic transition is settled with a
    token that was issued, and never twice and a stale completion, from a retired session or sent twice,
    changes nothing; the token in force has been issued and not settled. *)
Theorem tokens_settle_once l s :
  clock_history l s ->
  StronglySorted Z.lt (omap issued l)
  /\ NoDup (omap settled l) /\ omap settled l ⊆ omap issued l
  /\ (forall t, owns s t -> t ∈ omap issued l /\ t ∉ omap settled l)
  /\ (forall e s', clock_step s e s' -> stale e = true -> s' = s).
Proof.
  intros Hh. assert (Ht : tokens_ok l s).
  { induction Hh as [|l s e s' Hh IH Hstep].
    - split; [constructor|constructor|constructor|set_solver|]. by intros t [?|(? & ? & _)].
    - by apply (tokens_ok_step l s); [eapply clock_history_ok|..]. }
  destruct Ht. eauto 8 using stale_inert.
Qed.

(** ** Leases *)

Definition begins (e : ClockEvent) : bool :=
  match e with EvArmTrial _ _ (Some _) | EvBeginAutomatic _ _ (Some _) => true | _ => false end.

(** The operations that commit the lease [t]. *)
Definition commits (t : Z) (e : ClockEvent) : bool :=
  match e with
  | EvAuthorize t' true => t' =? t
  | EvBeginCandidate (Some t') (inl _) => t' =? t
  | _ => false
  end.

(** An accepted transition of the viewer: a pause, a resume. *)
Definition viewer_moves (e : ClockEvent) : bool :=
  match e with
  | EvCompleteUserPause _ _ Pause_Accepted
  | EvUserResume _ (Some (Resume_Deferred | Resume_Prime)) => true
  | _ => false
  end.

Definition ends_lease (t : Z) (e : ClockEvent) : bool :=
  match e with
  | EvFinishTrial t' true | EvFinishAutomatic t' true => t' =? t
  | EvStop | EvReset => true
  | _ => false
  end.

Definition disturbs (t : Z) (e : ClockEvent) : bool :=
  begins e || commits t e || viewer_moves e || ends_lease t e.

(** The lease [t] may still be committed. *)
Definition live (t : Z) (s : HlsClock) : Prop :=
  exists o, hc_automatic s = Some o /\ ao_token o = t /\ ao_phase o = Working
            /\ ao_user_sequence o = hc_user_sequence s.

Lemma live_back s e s' t :
  clock_ok s -> t <= hc_next_token s -> clock_step s e s' -> live t s' ->
  live t s /\ hc_user_sequence s' = hc_user_sequence s /\ disturbs t e = false.
Proof.
  intros Hok Ht Hstep (o & Ho & Hto & Hph & Hseq).
  destruct s as [ph nt rc uh us ra au rb he tr ca rq wk]. unfold live, disturbs.
  destruct Hok as [_ _ _ _ Hot Hos _ _ _ _ _ _ _]. cbn in *.
  assert (Hge : hc_user_sequence s' <= ao_user_sequence o) by lia.
  assert (Hle : ao_user_sequence o <= hc_user_sequence s') by lia. clear Hseq.
  clock_cases Hstep; clock_bools; clock_checked; subst; simplify_eq/=; try lia;
    repeat match goal with H : ?a = Some _ |- _ => is_var a; subst a end; use_owner; try lia.
  all: split; [|split]; cbn; try lia; try done.
  all: try (eexists; split; [reflexivity|]; cbn in *; split_and!; (done || lia)).
  all: bools; try done; subst; try congruence.
Qed.

Lemma commit_live s e s' t :
  clock_step s e s' -> commits t e = true -> live t s /\ hc_user_held s = false.
Proof.
  intros Hstep. destruct s as [ph nt rc uh us ra au rb he tr ca rq wk]. unfold live.
  clock_cases Hstep; clock_bools; intros ?; bools; simplify_eq/=; try done.
  all: split; [eexists; split; [reflexivity|by split_and!]|done].
Qed.

Lemma live_back_steps t s l s' :
  clock_steps s l s' -> clock_ok s -> t <= hc_next_token s -> live t s' ->
  hc_user_sequence s' = hc_user_sequence s /\ Forall (fun e => disturbs t e = false) l.
Proof.
  induction 1 as [s|s e s1 l s' Hstep Hl IH]; intros Hok Ht Hlive; [done|].
  pose proof (clock_ok_step _ _ _ Hok Hstep) as Hok1. pose proof (issued_step _ _ _ Hstep) as Hi.
  assert (Ht1 : t <= hc_next_token s1) by (destruct (issued e); lia).
  assert (Hlive1 : live t s1).
  { clear IH Hstep Hi. induction Hl as [s1|s1 e1 s2 l s' Hstep Hl IH]; [done|].
    pose proof (clock_ok_step _ _ _ Hok1 Hstep) as Hok2. pose proof (issued_step _ _ _ Hstep) as Hi.
    assert (Ht2 : t <= hc_next_token s2) by (destruct (issued e1); lia).
    by eapply live_back; [..|apply IH]. }
  destruct (IH Hok1 Ht1 Hlive) as [-> Hall].
  destruct (live_back _ _ _ _ Hok Ht Hstep Hlive1) as (_ & ? & ?). auto.
Qed.

(** C6. A quality transition commits only on the boundary it was planned on.  Whenever a lease is
    committed -- authorised, or consumed by the publication of a candidate -- then since it was
    taken no other lease was, it was neither committed nor ended, the session was not stopped or
    reset, and the viewer neither paused nor resumed, not even once each; and the viewer is not
    holding the clock now. *)
Theorem commit_on_the_planned_boundary s0 b s1 t l s2 c s3 :
  clock_ok s0 -> clock_step s0 b s1 -> begins b = true -> issued b = Some t ->
  clock_steps s1 l s2 -> clock_step s2 c s3 -> commits t c = true ->
  Forall (fun e => disturbs t e = false) l
  /\ hc_user_sequence s2 = hc_user_sequence s1 /\ hc_user_held s2 = false.
Proof.
  intros Hok Hb _ Ht Hl Hc Hct. destruct (commit_live _ _ _ _ Hc Hct) as [Hlive Hu].
  pose proof (issued_step _ _ _ Hb) as Hi. rewrite Ht in Hi.
  destruct (live_back_steps t s1 l s2 Hl) as [Hseq Hall];
    [by eapply clock_ok_step|lia|done|]. auto.
Qed.

(** ** Candidate publications *)

Definition publishes (e : ClockEvent) : bool :=
  match e with EvBeginCandidate _ (inl _) | EvSettleCandidate _ true | EvReset => true | _ => false end.

(** What may not begin while a publication is in flight. *)
Definition starts (e : ClockEvent) : bool :=
  match e with
  | EvReservePlay _ _ _ (Some _) | EvArmTrial _ _ (Some _) | EvBeginAutomatic _ _ (Some _)
  | EvBeginCandidate _ (inl _) | EvArmInitial _ _ true => true
  | _ => false
  end.

Lemma candidate_step s e s' : clock_ok s -> clock_step s e s' ->
  if publishes e
  then hc_candidate s <= hc_candidate s'
       /\ (hc_candidate s < u64_max -> hc_candidate s < hc_candidate s')
  else hc_candidate s' = hc_candidate s.
Proof.
  intros Hok Hstep. destruct s as [ph nt rc uh us ra au rb he tr ca rq wk].
  destruct Hok as [_ _ Hca _ _ _ _ _ _ _ _ _ _]. cbn in *.
  clock_cases Hstep; clock_bools; clock_checked; subst; cbn in *; try done; try (split; lia).
  split; by apply retired_generation_spec.
Qed.

Lemma fenced_succ g : fenced g = false -> fenced (g + 1) = true.
Proof. rewrite !fenced_odd, Z.odd_add. by intros ->. Qed.

Lemma fenced_step s e s' : clock_step s e s' -> fenced (hc_candidate s) = true ->
  starts e = false /\ (forall g, e = EvSettleCandidate g true -> g = hc_candidate s).
Proof.
  intros Hstep Hf. destruct s as [ph nt rc uh us ra au rb he tr ca rq wk]. cbn in *.
  clock_cases Hstep; clock_bools; subst; (split; [try congruence|intros; simplify_eq]); try done.
Qed.

Lemma begin_candidate_spec s lease g s' :
  clock_step s (EvBeginCandidate lease (inl g)) s' -> hc_candidate s' = g /\ fenced g = true.
Proof.
  intros Hstep. inversion Hstep as [| | | | | | | | | | | | |? ? ? Hop| | | | | | | |]; subst.
  assert (Hc : match consume_lease lease s with
               | inr e => Some (inr e, s)
               | inl s =>
                   if fenced (hc_candidate s) then Some (inr Fence_Overlap, s)
                   else match u64_checked (hc_candidate s + 1) with
                        | None => Some (inr Fence_Exhausted, s)
                        | Some g => Some (inl g, s <| hc_candidate := g |>)
                        end
               end = Some (inl g, s')).
  { unfold begin_hls_candidate_transition in Hop. by destruct (hc_phase s). }
  clear Hop. destruct (consume_lease lease s) as [s1|]; [|done].
  destruct (fenced (hc_candidate s1)) eqn:Hf; [done|].
  destruct (u64_checked _) as [g'|] eqn:E; [|done]. apply checked_Some in E as [-> _].
  simplify_eq. split; [done|]. by apply fenced_succ.
Qed.

(** A publication fences the clock.  While a candidate is being published, no Play is reserved,
    no hold armed, no trial or automatic transition begun and no other publication; only settling
    this very one, or a session reset, ends it. *)
Theorem publication_fences_the_clock s lease g s1 l s2 :
  clock_ok s -> clock_step s (EvBeginCandidate lease (inl g)) s1 -> clock_steps s1 l s2 ->
  EvReset ∉ l -> EvSettleCandidate g true ∉ l ->
  hc_candidate s2 = g /\ fenced g = true
  /\ Forall (fun e => starts e = false /\ publishes e = false) l.
Proof.
  intros Hok Hb Hl. destruct (begin_candidate_spec _ _ _ _ Hb) as [Hg Hf].
  apply clock_ok_step in Hb; [|done]. clear Hok s.
  induction Hl as [s1|s1 e s' l s2 Hstep Hl IH]; intros Hr Hs; [done|].
  apply not_elem_of_cons in Hr as [Hr Hrl], Hs as [Hs Hsl].
  assert (Hfs : fenced (hc_candidate s1) = true) by by rewrite Hg.
  destruct (fenced_step _ _ _ Hstep Hfs) as [Hst Hse].
  assert (Hp : publishes e = false).
  { destruct (publishes e) eqn:Hp; [|done].
    destruct e as [| | | | | | | | | | | | |lease' [g'|err]|g' []| | | | | | |]; try done.
    exfalso. apply Hs. by rewrite (Hse g' eq_refl), Hg. }
  pose proof (candidate_step _ _ _ Hb Hstep) as Hc. rewrite Hp in Hc.
  destruct IH as (? & ? & ?); [by eapply clock_ok_step|congruence|done|done|]. auto.
Qed.

Lemma candidate_steps s l s' : clock_steps s l s' -> clock_ok s ->
  hc_candidate s <= hc_candidate s'
  /\ (hc_candidate s < u64_max -> hc_candidate s' = hc_candidate s ->
      Forall (fun e => publishes e = false) l).
Proof.
  induction 1 as [s|s e s1 l s' Hstep Hl IH]; intros Hok; [split; [lia|by constructor]|].
  destruct (IH (clock_ok_step _ _ _ Hok Hstep)) as [Hle Hall].
  pose proof (candidate_step _ _ _ Hok Hstep) as Hc. destruct (publishes e) eqn:Hp.
  - split; [lia|]. intros. lia.
  - rewrite Hc in *. split; [done|]. intros. constructor; auto.
Qed.

(** A prime plays only on what it measured.  A Play reserved on a snapshot of the candidate
    generation is reserved with no publication begun, settled or retired since the snapshot, nobody
    holding a lease or a trial, the viewer not holding the clock; and, after starvation, on exactly
    the recovery certificate it measured. *)
Theorem prime_plays_on_its_snapshot s l s2 k r t r' s3 :
  clock_ok s -> clock_steps s l s2 ->
  clock_step s2 (EvReservePlay k (hc_candidate s) r (Some (t, r'))) s3 ->
  Forall (fun e => publishes e = false) l
  /\ hc_automatic s2 = None /\ hc_trial_reserve s2 < 0 /\ hc_user_held s2 = false
  /\ (exists h, hc_phase s2 = Held h /\ prime_kind h = Some k
        /\ hc_phase s3 = PlayIssuing t h (hc_resume_acb s2))
  /\ (k = Prime_Rebuffer -> hc_recovery s2 = r) /\ r' = hc_recovery s2.
Proof.
  intros Hok Hl Hplay. inversion Hplay as [| | | | | | | | | | |? ? ? ? ? Hop| | | | | | | | | |]; subst.
  destruct (candidate_steps _ _ _ Hl Hok) as [_ Hall].
  pose proof (co_candidate _ Hok) as Hca.
  unfold reserve_hls_prime_play in Hop.
  destruct (_ || _) eqn:Hg in Hop; [done|]. clock_bools.
  destruct (hc_phase s2) as [| |h| |]; try done. destruct (negb _) eqn:Hk in Hop; [done|].
  destruct (token s2) as [[t' s2']|] eqn:Et; [|done]. cbn in Hop. clock_bools.
  unfold token in Et. destruct (u64_checked _); [|done]. cbn in Et. simplify_eq/=.
  assert (hc_candidate s < u64_max).
  { destruct (decide (hc_candidate s = u64_max)) as [E|]; [|lia]. by rewrite E in *. }
  split; [auto|]. split; [by destruct (hc_automatic s2); [exfalso; eauto|]|].
  split; [by apply Z.leb_gt|]. split; [done|]. split; [eauto|]. split; [|done].
  intros ->.
  match goal with H : bool_decide (_ = Prime_Rebuffer) && _ = false |- _ =>
    rewrite bool_decide_true in H by done; simpl in H;
    by apply negb_false_iff, bool_decide_eq_true in H end.
Qed.

(** ** Recovery *)

(** Media that holds [reserve_us] of playback survives fetching the acquisitions in order, each
    playing its cost and then adding its media. *)
Fixpoint survives (reserve_us : Z) (l : list (Z * Z)) : bool :=
  match l with
  | [] => true
  | (a, m) :: l => (a <=? reserve_us) && survives (reserve_us - a + m / 1000) l
  end.

Definition acquired (l : list (Z * Z)) : Z := foldr (fun p acc => p.1 + acc) 0 l.
Definition delivered (l : list (Z * Z)) : Z := foldr (fun p acc => p.2 / 1000 + acc) 0 l.

Definition observed_epoch (l : list (Z * Z)) : HlsRecoveryEpoch :=
  fold_left (fun e p => epoch_observe e p.1 p.2) l epoch_begin.

Lemma observed_epoch_snoc l p :
  observed_epoch (l ++ [p]) = epoch_observe (observed_epoch l) p.1 p.2.
Proof. apply fold_left_app. Qed.

Lemma acquired_snoc l p : acquired (l ++ [p]) = acquired l + p.1.
Proof. induction l; simpl in *; lia. Qed.

Lemma delivered_snoc l p : delivered (l ++ [p]) = delivered l + p.2 / 1000.
Proof. induction l; simpl in *; lia. Qed.

Lemma survives_snoc l a m : forall R,
  survives R (l ++ [(a, m)]) = survives R l && (a <=? R - acquired l + delivered l).
Proof.
  induction l as [|[a' m'] l IH]; intros R; simpl; [by rewrite andb_true_r, Z.sub_0_r, Z.add_0_r|].
  rewrite IH, andb_assoc. do 2 f_equal. lia.
Qed.

Lemma sums_nonneg l :
  Forall (fun p => 0 <= p.1 /\ 0 <= p.2) l -> 0 <= acquired l /\ 0 <= delivered l.
Proof.
  induction 1 as [|[a m] l [Ha Hm] _ [IHa IHd]]; simpl in *; [lia|].
  pose proof (Z.div_pos m 1000 Hm eq_refl). lia.
Qed.

Lemma observed_epoch_spec l :
  Forall (fun p => 0 <= p.1 /\ 0 <= p.2) l -> acquired l + delivered l <= i64_max ->
  let e := observed_epoch l in
  re_active e = true /\ (0 < re_completed e <-> l <> []) /\ 0 <= re_completed e
  /\ re_debt_us e = acquired l - delivered l
  /\ forall R, 0 <= R -> re_runway_us e <= R <-> survives R l = true.
Proof.
  intros Hl. induction l as [|[a m] l IH] using rev_ind; intros Hsum; cbv zeta.
  { cbn. split_and!; try done; lia. }
  apply Forall_app in Hl as [Hl [[Ha Hm] _]%Forall_cons]. cbn in Ha, Hm.
  rewrite acquired_snoc, delivered_snoc in *. cbn in Hsum. 
  pose proof (sums_nonneg _ Hl) as [Hacq Hdel]. pose proof (Z.div_pos m 1000 Hm eq_refl).
  destruct (IH Hl ltac:(lia)) as (Hact & Hcomp & Hpos & Hdebt & Hrun).
  rewrite observed_epoch_snoc. unfold epoch_observe. rewrite Hact. cbn. rewrite Hdebt.
  split; [done|]. split; [|split; [ints|split; [ints|]]].
  - split; [by intros _ []%app_nil|]. intros _. ints.
  - intros R HR. rewrite survives_snoc, andb_true_iff, <- Hrun, Z.leb_le by done.
    rewrite Z.max_lub_iff. f_equiv. ints.
Qed.

(** What starts the certificate anew, or drops it. *)
Definition restarts (e : ClockEvent) : bool :=
  match e with
  | EvPrepareRebuffer (Some _) | EvCompleteRebuffer _ _ Pause_Refused
  | EvCompletePlay _ _ (Play_Accepted _) | EvSettleCandidate _ _ | EvStop | EvReset => true
  | _ => false
  end.

Definition observation (e : ClockEvent) : option (Z * Z) :=
  match e with EvObserve a m => Some (a, m) | _ => None end.

Lemma recovery_step s e s' : clock_step s e s' -> restarts e = false ->
  hc_recovery s' = match observation e with
                   | Some (a, m) => epoch_observe (hc_recovery s) a m
                   | None => hc_recovery s
                   end.
Proof.
  intros Hstep. destruct s as [ph nt rc uh us ra au rb he tr ca rq wk].
  clock_cases Hstep; done.
Qed.

Lemma recovery_steps s l s' : clock_steps s l s' -> Forall (fun e => restarts e = false) l ->
  hc_recovery s'
  = fold_left (fun e p => epoch_observe e p.1 p.2) (omap observation l) (hc_recovery s).
Proof.
  induction 1 as [|s e s1 l s' Hstep _ IH]; intros Hl; [done|]. apply Forall_cons in Hl as [He Hl].
  rewrite (IH Hl), (recovery_step _ _ _ Hstep He). simpl. by destruct (observation e) as [[a m]|].
Qed.

(** A starved clock restarts exactly when a replay would survive.  From the moment an internal
    pause is reserved, the certificate is ready at a playable reserve exactly when some object was
    acquired during this hold, the objects brought at least as much media as fetching them took,
    and that reserve would survive fetching them all again, each one's media arriving only when it
    is complete.  Objects of earlier holds never count. *)
Theorem hold_ends_on_a_replay s0 t s1 l s2 playable_ns :
  clock_step s0 (EvPrepareRebuffer (Some t)) s1 -> clock_steps s1 l s2 ->
  Forall (fun e => restarts e = false) l ->
  let objects := omap observation l in
  Forall (fun p => 0 <= p.1 /\ 0 <= p.2) objects ->
  acquired objects + delivered objects <= i64_max ->
  epoch_ready (hc_recovery s2) playable_ns = true <->
    objects <> [] /\ acquired objects <= delivered objects
    /\ survives (Z.max playable_ns 0 / 1000) objects = true.
Proof.
  intros Hp Hl Hr objects Hpos Hsum.
  assert (H1 : hc_recovery s1 = epoch_begin).
  { inversion Hp as [| | |? ? Hop| | | | | | | | | | | | | | | | | |]; subst.
    unfold prepare_hls_rebuffer_pause in Hop. destruct (_ || _); [done|].
    destruct (token s0) as [[]|]; [|done]. cbn in Hop. by simplify_eq/=. }
  assert (Hrec : hc_recovery s2 = observed_epoch objects)
    by by rewrite (recovery_steps _ _ _ Hl Hr), H1.
  destruct (observed_epoch_spec objects Hpos Hsum) as (Hact & Hcomp & _ & Hdebt & Hrun).
  rewrite Hrec. unfold epoch_ready.
  rewrite Hact, !andb_true_iff, Z.ltb_lt, !Z.leb_le, Hcomp, Hdebt, Hrun by (apply Z.div_pos; lia).
  intuition lia.
Qed.

(** ** The wait of a publication *)

Lemma begin_candidate_waits lease s :
  begin_hls_candidate_transition lease s = None <-> exists t h a, hc_phase s = PlayIssuing t h a.
Proof.
  unfold begin_hls_candidate_transition. destruct (hc_phase s) eqn:E; split; try done;
    try (by intros (? & ? & ? & ?)); try (intros; eauto; fail);
    destruct (consume_lease lease s) as [s1|]; try done;
    destruct (fenced _); try done; by destruct (u64_checked _).
Qed.

(** A waiting publication is woken.  A publication waits exactly while a native Play is in flight,
    and every operation after which it need not wait any more notifies it; at the latest the
    completion of that Play does. *)
Theorem waiting_publication_is_woken lease s :
  begin_hls_candidate_transition lease s = None ->
  (forall e s', clock_step s e s' -> begin_hls_candidate_transition lease s' <> None ->
     (hc_wakeups s < hc_wakeups s')%nat)
  /\ exists t, phase_token (hc_phase s) = Some t
     /\ forall accepted r s', clock_step s (EvCompletePlay t accepted r) s' ->
          r <> Play_Stale /\ begin_hls_candidate_transition lease s' <> None
          /\ (hc_wakeups s < hc_wakeups s')%nat.
Proof.
  rewrite begin_candidate_waits. intros (t & h & a & Hph).
  assert (Hend : forall e s', clock_step s e s' -> ~ (exists t h a, hc_phase s' = PlayIssuing t h a) ->
            (hc_wakeups s < hc_wakeups s')%nat).
  { intros e s' Hstep. destruct s as [ph nt rc uh us ra au rb he tr ca rq wk]. cbn in *. subst.
    clock_cases Hstep; try (intros _; lia); intros []; eauto. }
  split; [intros e s' Hstep; rewrite begin_candidate_waits; eauto|].
  exists t. rewrite Hph. split; [done|]. intros b r s' Hstep.
  assert (Hr : r <> Play_Stale /\ ~ (exists t h a, hc_phase s' = PlayIssuing t h a)).
  { inversion Hstep as [| | | | | | | | | | | |? ? ? ? Hop| | | | | | | | |]; subst.
    unfold complete_hls_prime_play in Hop. rewrite Hph, Z.eqb_refl in Hop. cbn in Hop.
    destruct b; [|simplify_eq/=; split; [done|]; destruct (bool_decide _); by intros (? & ? & ? & ?)].
    destruct (bool_decide (h = User)); cbn in Hop;
      [unfold advance_user_sequence in Hop; cbn in Hop; destruct (u64_checked _); [cbn in Hop|done]|];
      simplify_eq/=; (split; [done|]); destruct (bool_decide _); by intros (? & ? & ? & ?). }
  destruct Hr as [Hr Hn]. rewrite begin_candidate_waits. eauto.
Qed.
