(* ===== verification/Transport.v ===== *)
(** * The transport of the feed

    [play-feed/src/shared.rs], [Transport]: the viewer's pause as the workers see it, and the
    preroll of a seek made while paused.  Durations are in nanoseconds. *)

From S2P Require Import Prelude.

#[local] Open Scope Z_scope.

(** ** The pause clock *)

Record UserPauseClock := mk_pause_clock {
  pc_completed : Z;
  pc_active_since : option Z;
  pc_sequence : Z
}.

Definition pause_clock_new : UserPauseClock := mk_pause_clock 0 None 0.

Definition elapsed_at (c : UserPauseClock) (now : Z) : Z :=
  duration_sat (pc_completed c
                + match pc_active_since c with Some since => duration_sat (now - since) | None => 0 end).

Record UserPauseSnapshot := mk_pause_snapshot {
  ps_now : Z;
  ps_elapsed : Z;
  ps_paused : bool;
  ps_sequence : Z
}.

Record UserPauseCursor := mk_cursor { cu_sequence : Z; cu_elapsed : Z }.

Definition cursor_new (snapshot : UserPauseSnapshot) : UserPauseCursor :=
  mk_cursor (ps_sequence snapshot) (ps_elapsed snapshot).

Definition consume_completed (c : UserPauseCursor) (snapshot : UserPauseSnapshot)
  : option Z * UserPauseCursor :=
  if ps_paused snapshot || (ps_sequence snapshot =? cu_sequence c) then (None, c)
  else
    let elapsed := duration_sat (ps_elapsed snapshot - cu_elapsed c) in
    (if elapsed =? 0 then None else Some elapsed,
     mk_cursor (ps_sequence snapshot) (ps_elapsed snapshot)).

(** ** The transport *)

Definition PREROLL_VOLUME_NONE : Z := i32_min.

Record Transport := mk_transport {
  tx_started : bool;
  tx_paused : bool;
  tx_pause_clock : UserPauseClock;
  tx_seek_preroll : bool;
  tx_seek_preroll_owned : Z;
  tx_preroll_volume : Z;
  tx_seek_to_ns : Z
}.
#[export] Instance eta_transport : Eta Transport := fun t =>
  mk_transport (tx_started t) (tx_paused t) (tx_pause_clock t) (tx_seek_preroll t)
    (tx_seek_preroll_owned t) (tx_preroll_volume t) (tx_seek_to_ns t).

Definition transport_new : Transport :=
  mk_transport false false pause_clock_new false (-1) PREROLL_VOLUME_NONE (-1).

(** The transition of the pause clock; [None]: the sequence is exhausted. *)
Definition pause_clock_commit (paused : bool) (now : Z) (c : UserPauseClock)
  : option UserPauseClock :=
  match pc_active_since c, paused with
  | None, true =>
      n ← u64_checked (pc_sequence c + 1);
      Some (mk_pause_clock (pc_completed c) (Some now) n)
  | Some since, false =>
      n ← u64_checked (pc_sequence c + 1);
      Some (mk_pause_clock (duration_sat (pc_completed c + duration_sat (now - since))) None n)
  | _, _ => Some c
  end.

Definition commit_paused (paused : bool) (now : Z) (t : Transport) : option Transport :=
  c ← pause_clock_commit paused now (tx_pause_clock t);
  Some (t <| tx_pause_clock := c |> <| tx_paused := paused |>).

Definition pause_state_sample (now : Z) (t : Transport) : UserPauseSnapshot :=
  let c := tx_pause_clock t in
  mk_pause_snapshot now (elapsed_at c now) (bool_decide (is_Some (pc_active_since c))) (pc_sequence c).

Definition begin_paused_seek (t : Transport) : bool * Transport :=
  if negb (tx_paused t) then (false, t) else (true, t <| tx_seek_preroll := true |>).

Definition feed_allowed (t : Transport) : bool := negb (tx_paused t) || tx_seek_preroll t.

Definition own_paused_seek (target_ns : Z) (t : Transport) : bool * Transport :=
  if 0 <=? tx_seek_preroll_owned t
  then (true, t <| tx_seek_preroll_owned := Z.max target_ns 0 |>)
  else if tx_seek_preroll t then (false, t)
  else
    let '(begun, t) := begin_paused_seek t in
    if begun then (true, t <| tx_seek_preroll_owned := Z.max target_ns 0 |>) else (false, t).

Definition owned_paused_seek (t : Transport) : option Z :=
  let target := tx_seek_preroll_owned t in
  if (0 <=? target) && tx_seek_preroll t then Some target else None.

Definition finish_seek_preroll (t : Transport) : Transport :=
  t <| tx_seek_preroll := false |> <| tx_seek_preroll_owned := -1 |>.

Definition note_preroll_muted (saved : Z) (t : Transport) : Transport :=
  if tx_preroll_volume t =? PREROLL_VOLUME_NONE
  then t <| tx_preroll_volume := Z.max 0 (Z.min saved 100) |> else t.

Definition preroll_muted (t : Transport) : bool :=
  negb (tx_preroll_volume t =? PREROLL_VOLUME_NONE).

Definition take_preroll_volume (t : Transport) : option Z * Transport :=
  (if tx_preroll_volume t =? PREROLL_VOLUME_NONE then None else Some (tx_preroll_volume t),
   t <| tx_preroll_volume := PREROLL_VOLUME_NONE |>).

Definition reset_for_reload (t : Transport) : Transport :=
  t <| tx_started := false |> <| tx_seek_to_ns := -1 |>.

Definition transport_reset (t : Transport) : Transport :=
  mk_transport false false pause_clock_new false (-1) PREROLL_VOLUME_NONE (-1).

(** ** Film time and the pipeline's time *)

Definition RATE_NORMAL : Z := 1000.

(** [as i128], and [as i64] on the way back. *)
Definition scale_ns (ns num den : Z) : Z :=
  if (num =? den) || (den <=? 0) then ns else i64_wrap (Z.quot (ns * num) den).

Definition to_sink_ns (applied_rate_permille ns : Z) : Z :=
  scale_ns ns RATE_NORMAL applied_rate_permille.
Definition from_sink_ns (applied_rate_permille ns : Z) : Z :=
  scale_ns ns applied_rate_permille RATE_NORMAL.

(** ** One worker and the viewer *)

(** What happens at an instant: the transport commits a pause or a resume, or the worker samples. *)
Inductive Beat := Commit (paused : bool) | Sample.

(** The worker's cursor, and what it has consumed so far. *)
Record Watch := mk_watch { wa_transport : Transport; wa_cursor : UserPauseCursor; wa_consumed : Z }.

Definition watch_beat (now : Z) (b : Beat) (w : Watch) : option Watch :=
  match b with
  | Commit paused =>
      t ← commit_paused paused now (wa_transport w);
      Some (mk_watch t (wa_cursor w) (wa_consumed w))
  | Sample =>
      let '(spent, cursor) :=
        consume_completed (wa_cursor w) (pause_state_sample now (wa_transport w)) in
      Some (mk_watch (wa_transport w) cursor (wa_consumed w + default 0 spent))
  end.

Fixpoint watch_run (l : list (Z * Beat)) (w : Watch) : option Watch :=
  match l with
  | [] => Some w
  | (now, b) :: l => w ← watch_beat now b w; watch_run l w
  end.

(** The time a history spends paused, read off the commits alone, from [since] on. *)
Fixpoint paused_time (paused : bool) (since : Z) (l : list (Z * Beat)) : Z :=
  match l with
  | [] => 0
  | (now, b) :: l =>
      (if paused then now - since else 0)
      + paused_time (match b with Commit p => p | Sample => paused end) now l
  end.

(** Instants do not decrease. *)
Fixpoint in_order (since : Z) (l : list (Z * Beat)) : Prop :=
  match l with [] => True | (now, _) :: l => since <= now /\ in_order now l end.


Definition active (t : Transport) : bool := bool_decide (is_Some (pc_active_since (tx_pause_clock t))).

(** A pause clock at [now] that is nowhere near the end of [Duration]: [bound] is the last instant
    the history reaches. *)
Definition clock_at (c : UserPauseClock) (now bound : Z) : Prop :=
  0 <= pc_completed c
  /\ match pc_active_since c with
     | Some since => since <= now /\ pc_completed c + (bound - since) <= duration_max
     | None => pc_completed c + (bound - now) <= duration_max
     end.

Fixpoint last_instant (since : Z) (l : list (Z * Beat)) : Z :=
  match l with [] => since | (now, _) :: l => last_instant now l end.

Lemma in_order_last now l : in_order now l -> now <= last_instant now l.
Proof.
  revert now. induction l as [|[n b] l IH]; cbn; intros now H; [lia|]. destruct H as [H1 H2].
  specialize (IH n H2). lia.
Qed.

Lemma duration_sat_id z : 0 <= z <= duration_max -> duration_sat z = z.
Proof. unfold duration_sat. lia. Qed.

(** The clock read without its saturations. *)
Lemma elapsed_at_exact c now bound : clock_at c now bound -> now <= bound ->
  elapsed_at c now
  = pc_completed c + match pc_active_since c with Some since => now - since | None => 0 end.
Proof.
  intros [Hc Ha] Hn. unfold elapsed_at. destruct (pc_active_since c) as [since|].
  - rewrite (duration_sat_id (now - since)) by lia. apply duration_sat_id. lia.
  - apply duration_sat_id. lia.
Qed.

Lemma clock_at_later c now now' bound : clock_at c now bound -> now <= now' <= bound ->
  clock_at c now' bound.
Proof. intros [Hc Ha] Hn. split; [done|]. destruct (pc_active_since c); lia. Qed.

Lemma elapsed_at_later c now now' bound : clock_at c now bound -> now <= now' <= bound ->
  elapsed_at c now' = elapsed_at c now + (if bool_decide (is_Some (pc_active_since c)) then now' - now else 0).
Proof.
  intros Hc Hn. rewrite (elapsed_at_exact _ now bound), (elapsed_at_exact _ now' bound)
    by (eauto using clock_at_later; lia).
  destruct (pc_active_since c); [rewrite bool_decide_true by eauto; lia|].
  rewrite bool_decide_false by (intros [? [=]]). lia.
Qed.

(** A commit leaves the reading of its own instant alone, and numbers what it changes. *)
Lemma pause_clock_commit_spec p now bound c c' :
  clock_at c now bound -> now <= bound -> pause_clock_commit p now c = Some c' ->
  clock_at c' now bound /\ elapsed_at c' now = elapsed_at c now
  /\ bool_decide (is_Some (pc_active_since c')) = p
  /\ (c' = c \/ pc_sequence c < pc_sequence c').
Proof.
  intros Hc Hn H. pose proof Hc as [Hc0 Ha]. unfold pause_clock_commit in H.
  destruct (pc_active_since c) as [since|] eqn:Ea, p;
    try (simplify_eq; rewrite Ea; split_and!; auto; fail).
  - destruct (u64_checked _) as [n|] eqn:En; [|done]. cbn in H. simplify_eq.
    apply checked_Some in En as [-> _].
    assert (Hs : duration_sat (pc_completed c + duration_sat (now - since))
                 = pc_completed c + (now - since))
      by (rewrite (duration_sat_id (now - since)) by lia; apply duration_sat_id; lia).
    assert (Hc' : clock_at (mk_pause_clock (duration_sat (pc_completed c + duration_sat (now - since)))
                              None (pc_sequence c + 1)) now bound)
      by (split; cbn; rewrite Hs; lia).
    split_and!; [done| |done|right; cbn; lia].
    rewrite (elapsed_at_exact _ now bound) by done. cbn. rewrite Hs.
    rewrite (elapsed_at_exact c now bound), Ea by done. lia.
  - destruct (u64_checked _) as [n|] eqn:En; [|done]. cbn in H. simplify_eq.
    apply checked_Some in En as [-> _].
    assert (Hc' : clock_at (mk_pause_clock (pc_completed c) (Some now) (pc_sequence c + 1)) now bound)
      by (split; cbn; lia).
    split_and!; [done| |by apply bool_decide_true; eauto|right; cbn; lia].
    rewrite !(elapsed_at_exact _ now bound), Ea by done. cbn. lia.
Qed.

(** The conservation a worker keeps: what it consumed and what the clock still holds for it make the
    paused time [total]. *)
Record watch_ok (now bound total : Z) (w : Watch) : Prop := {
  wk_clock : clock_at (tx_pause_clock (wa_transport w)) now bound;
  wk_sequence : cu_sequence (wa_cursor w) <= pc_sequence (tx_pause_clock (wa_transport w));
  wk_settled : active (wa_transport w) = false ->
    cu_sequence (wa_cursor w) = pc_sequence (tx_pause_clock (wa_transport w)) ->
    elapsed_at (tx_pause_clock (wa_transport w)) now = cu_elapsed (wa_cursor w);
  wk_pending : cu_elapsed (wa_cursor w) <= elapsed_at (tx_pause_clock (wa_transport w)) now;
  wk_cursor : 0 <= cu_elapsed (wa_cursor w);
  wk_total : wa_consumed w + (elapsed_at (tx_pause_clock (wa_transport w)) now
                              - cu_elapsed (wa_cursor w)) = total
}.

Lemma watch_ok_later now now' bound total w :
  watch_ok now bound total w -> now <= now' <= bound ->
  watch_ok now' bound (total + (if active (wa_transport w) then now' - now else 0)) w.
Proof.
  intros [Hc Hs He Hp Hcu Ht] Hn.
  pose proof (elapsed_at_later _ _ _ _ Hc Hn) as Hl. unfold active in *.
  split; unfold active; eauto using clock_at_later; rewrite Hl; destruct (bool_decide _); try done;
    try lia.
Qed.

Lemma watch_beat_active now b w w' : watch_beat now b w = Some w' ->
  active (wa_transport w') = match b with Commit p => p | Sample => active (wa_transport w) end.
Proof.
  destruct b as [p|]; cbn; unfold active.
  - unfold commit_paused, pause_clock_commit.
    destruct (pc_active_since _) as [since|] eqn:Ea, p; cbn;
      try (destruct (u64_checked _); cbn); intros; simplify_eq/=; rewrite ?Ea; done.
  - destruct (consume_completed _ _). intros. by simplify_eq/=.
Qed.

Lemma watch_ok_beat now bound total b w w' :
  watch_ok now bound total w -> now <= bound -> watch_beat now b w = Some w' ->
  watch_ok now bound total w'
  /\ active (wa_transport w') = match b with Commit p => p | Sample => active (wa_transport w) end
  /\ (b = Sample -> active (wa_transport w') = false ->
      elapsed_at (tx_pause_clock (wa_transport w')) now = cu_elapsed (wa_cursor w')).
Proof.
  intros Hok Hn H. pose proof Hok as [Hc Hs He Hp Hcu Ht].
  destruct w as [t cu k]; cbn in *. destruct b as [p|]; cbn in H.
  - unfold commit_paused in H.
    destruct (pause_clock_commit _ _ _) as [c'|] eqn:Ec; [|done]. cbn in H. simplify_eq.
    destruct (pause_clock_commit_spec _ _ _ _ _ Hc Hn Ec) as (Hc' & Hel & Hact & Hq).
    unfold active. cbn. split_and!; [|done|done].
    split; cbn; rewrite ?Hel; [done| |unfold active; cbn|done|done|done].
    + destruct Hq as [->|?]; lia.
    + intros Hf Heq. destruct Hq as [->|?]; [by apply He|lia].
  - unfold consume_completed in H. cbn in H. fold (active t) in H.
    pose proof Hc as [Hc0 Hca].
    destruct (active t) eqn:Ea; cbn in H;
      [simplify_eq/=; rewrite Z.add_0_r; split_and!; [done|done|by rewrite Ea]|].
    destruct (Z.eqb_spec (pc_sequence (tx_pause_clock t)) (cu_sequence cu))
      as [Heq|Hne]; simplify_eq/=.
    + rewrite Z.add_0_r. split_and!; [done|done|]. intros _ _. by apply He.
    + assert (Hsat : duration_sat (elapsed_at (tx_pause_clock t) now
                                   - cu_elapsed cu)
                     = elapsed_at (tx_pause_clock t) now - cu_elapsed cu).
      { apply duration_sat_id. split; [lia|].
        enough (elapsed_at (tx_pause_clock t) now <= duration_max) by lia.
        unfold elapsed_at, duration_sat. unfold duration_max, u64_max. lia. }
      rewrite Hsat.
      split_and!; [|done|done]. split; cbn; try done; try lia.
      destruct (Z.eqb_spec (elapsed_at (tx_pause_clock t) now
                            - cu_elapsed cu) 0); cbn; lia.
Qed.

Lemma watch_ok_run l now bound total w w' :
  watch_ok now bound total w -> in_order now l -> last_instant now l <= bound ->
  watch_run l w = Some w' ->
  watch_ok (last_instant now l) bound (total + paused_time (active (wa_transport w)) now l) w'.
Proof.
  revert now total w. induction l as [|[n b] l IH]; intros now total w Hok Ho Hb H; cbn in *.
  - simplify_eq. by rewrite Z.add_0_r.
  - destruct Ho as [Hn Ho]. destruct (watch_beat n b w) as [w1|] eqn:Eb; [|done]. cbn in H.
    pose proof (in_order_last _ _ Ho) as Hl.
    apply (watch_ok_later _ n) in Hok; [|lia].
    destruct (watch_ok_beat _ _ _ _ _ _ Hok ltac:(lia) Eb) as (Hok1 & Hact & _).
    specialize (IH _ _ _ Hok1 Ho Hb H). rewrite Hact in IH. by rewrite Z.add_assoc.
Qed.

Lemma watch_run_app l1 l2 w : watch_run (l1 ++ l2) w = (w ← watch_run l1 w; watch_run l2 w).
Proof. revert w. induction l1 as [|[n b] l1 IH]; intros w; [done|]. cbn. destruct (watch_beat n b w); cbn; auto. Qed.

Lemma last_instant_app now l n b : last_instant now (l ++ [(n, b)]) = n.
Proof. revert now. induction l as [|[m c] l IH]; intros; cbn; auto. Qed.

Lemma in_order_app now l n b : in_order now (l ++ [(n, b)]) ->
  in_order now l /\ last_instant now l <= n.
Proof.
  revert now. induction l as [|[m c] l IH]; intros now; cbn; [intuition lia|].
  intros [? H]. apply IH in H. intuition.
Qed.

Lemma watch_run_paused l now n w w' : watch_run l w = Some w' ->
  forall b, paused_time (active (wa_transport w)) now (l ++ [(n, b)])
  = paused_time (active (wa_transport w)) now l
    + (if active (wa_transport w') then n - last_instant now l else 0).
Proof.
  revert now w. induction l as [|[m c] l IH]; intros now w H b; cbn in *; [simplify_eq; lia|].
  destruct (watch_beat m c w) as [w1|] eqn:E; [|done]. cbn in H.
  rewrite <- (watch_beat_active _ _ _ _ E), (IH _ _ H). lia.
Qed.

(** Every viewer pause is discounted exactly once.  However the viewer's pauses and resumes and a
    worker's samples interleave, what the worker has subtracted never exceeds the time playback was
    paused since its cursor was made, and at every sample taken while playing it is exactly that
    time: no pause is lost when several happen between two samples, none is counted twice, and one
    already under way when the cursor was made counts from that moment only. *)
Theorem pauses_are_discounted_once t now0 l now w :
  clock_at (tx_pause_clock t) now0 now ->
  in_order now0 (l ++ [(now, Sample)]) ->
  watch_run (l ++ [(now, Sample)])
    (mk_watch t (cursor_new (pause_state_sample now0 t)) 0) = Some w ->
  let paused := paused_time (active t) now0 (l ++ [(now, Sample)]) in
  wa_consumed w <= paused /\ (active (wa_transport w) = false -> wa_consumed w = paused).
Proof.
  intros Hc Ho H paused.
  pose proof (in_order_last _ _ Ho) as Hl. rewrite last_instant_app in Hl.
  assert (Hok : watch_ok now0 now 0 (mk_watch t (cursor_new (pause_state_sample now0 t)) 0)).
  { split; cbn; try done; try lia. unfold elapsed_at, duration_sat. unfold duration_max, u64_max. lia. }
  apply in_order_app in Ho as [Ho Hn]. rewrite watch_run_app in H.
  destruct (watch_run l _) as [w1|] eqn:E1; [|done]. cbn [mbind option_bind watch_run] in H.
  destruct (watch_beat now Sample w1) as [w2|] eqn:E2; cbn [mbind option_bind] in H; [|done].
  injection H as <-.
  pose proof (watch_ok_run _ _ _ _ _ _ Hok Ho Hn E1) as H1.
  apply (watch_ok_later _ now) in H1; [|lia].
  destruct (watch_ok_beat _ _ _ _ _ _ H1 ltac:(lia) E2) as (H2 & Hact & Hset).
  assert (Hp : paused = paused_time (active t) now0 l
                        + (if active (wa_transport w1) then now - last_instant now0 l else 0)).
  { subst paused. rewrite (watch_run_paused _ _ _ _ _ E1). cbn. lia. }
  pose proof (wk_total _ _ _ _ H2). pose proof (wk_pending _ _ _ _ H2). cbn [wa_transport] in *.
  split; [lia|]. intros Ha. specialize (Hset eq_refl Ha). lia.
Qed.

(** ** Film time through the pipeline and back *)

(** At any speed from a thousandth up, a film time handed to the pipeline and reported back loses
    less than two steps of the rate, is never later, and nothing at 1x. *)
Lemma sink_time_round_trip rate ns :
  1 <= rate <= i32_max -> 0 <= ns -> ns * RATE_NORMAL <= i64_max -> ns * rate <= i64_max ->
  ns - (rate / RATE_NORMAL + 1) <= from_sink_ns rate (to_sink_ns rate ns) <= ns
  /\ (rate = RATE_NORMAL -> from_sink_ns rate (to_sink_ns rate ns) = ns).
Proof.
  intros Hr Hn Hb1 Hb2. unfold from_sink_ns, to_sink_ns, scale_ns, RATE_NORMAL in *.
  destruct (Z.eqb_spec 1000 rate) as [<-|Hne]; [change (1000 =? 1000) with true; change (1000 / 1000) with 1; cbn [orb]; lia|].
  rewrite (proj2 (Z.eqb_neq rate 1000)), (proj2 (Z.leb_gt rate 0)) by lia. cbn [orb].
  rewrite Z.quot_div_nonneg by lia.
  set (q := ns * 1000 / rate).
  assert (Hq : q * rate <= ns * 1000 < q * rate + rate) by (subst q; Z.div_mod_to_equations; nia).
  assert (0 <= q) by (subst q; apply Z.div_pos; lia).
  rewrite (i64_wrap_small q) by (ints || nia).
  change (1000 <=? 0) with false. cbn iota.
  rewrite Z.quot_div_nonneg by nia.
  assert (Hback : ns - (rate / 1000 + 1) <= q * rate / 1000 <= ns) by (Z.div_mod_to_equations; lia).
  pose proof (Z.div_pos (q * rate) 1000 ltac:(nia) ltac:(lia)).
  rewrite i64_wrap_small by ints.
  split; [done|]. lia.
Qed.
