(* ===== verification/HlsUri.v ===== *)
(** * HLS resources and their credential

    [play-feed/src/hls.rs]: the errors of the playlist reader, the resources a playlist names and
    their resolution on the origin of the server, and the credential taken from the master URL. *)

From Stdlib Require Import String.
From S2P Require Import Prelude Bytes Origin Redirect.

#[local] Open Scope Z_scope.

(** ** Errors *)

Inductive HlsError :=
  | MissingHeader
  | Malformed (line : nat) (reason : string)
  | InvalidUri (reason : string)
  | CrossOrigin
  | UnsupportedTag (tag : bytes)
  | UnsupportedFeature (feature : string)
  | MissingVariant
  | MultipleVariants
  | MissingTargetDuration
  | MissingMediaSequence
  | ChildIsNotPlaylist
  | SegmentIsNotMpegTs
  | SequenceOverflow
  | RefreshSourceChanged
  | SequenceGap (expected found : Z)
  | SegmentChanged (sequence : Z)
  | UnknownOldSegment (sequence : Z)
  | SegmentAfterEndList (sequence : Z)
  | StaleEndList
  | MissingCredential
  | MultipleCredentials
  | CredentialChanged
  | DurationOverflow.

(** The answers of the reader. *)
Abbreviation Answer := (Outcome HlsError).

(** ** Text checks *)

Definition is_ascii_control (b : Z) : bool := (b <? 32) || (b =? 127).
Definition is_ascii_whitespace (b : Z) : bool :=
  (b =? 32) || (b =? 9) || (b =? 10) || (b =? 12) || (b =? 13).
Definition is_upper (b : Z) : bool := (65 <=? b) && (b <=? 90).
Definition is_alpha (b : Z) : bool := is_upper b || ((97 <=? b) && (b <=? 122)).
Definition is_hexdigit (b : Z) : bool :=
  is_digit b || ((65 <=? b) && (b <=? 70)) || ((97 <=? b) && (b <=? 102)).

Definition BACKSLASH : Z := 92.
Definition PERCENT : Z := 37.
Definition DOT : Z := 46.

(** The escapes: [%] and two hexadecimal digits. *)
Fixpoint escapes_ok (s : bytes) : bool :=
  match s with
  | [] => true
  | b :: s =>
      if b =? PERCENT then
        match s with
        | h :: l :: s => is_hexdigit h && is_hexdigit l && escapes_ok s
        | _ => false
        end
      else escapes_ok s
  end.

Definition uri_byte (b : Z) : bool :=
  (b <? 128) && negb (is_ascii_control b) && negb (is_ascii_whitespace b).

Definition validate_uri_text (uri : bytes) : Answer unit :=
  _ ← refuse (InvalidUri "fragments are unsupported") (contains HASH uri);
  _ ← refuse (InvalidUri "backslash in URI") (contains BACKSLASH uri);
  _ ← refuse (InvalidUri "non-ASCII or whitespace byte") (negb (forallb uri_byte uri));
  refuse (InvalidUri "malformed percent escape") (negb (escapes_ok uri)).

Definition has_scheme (uri : bytes) : bool :=
  match find_byte (Z.eqb COLON) uri with
  | None => false
  | Some colon =>
      let first_delimiter := find_or_end (fun b => (b =? SLASH) || (b =? QUESTION)) uri in
      if ((first_delimiter <? colon)%nat || (colon =? 0)%nat) then false
      else
        let scheme := take colon uri in
        match scheme with b :: _ => is_alpha b | [] => false end
        && forallb (fun b => is_alpha b || is_digit b || (b =? 43) || (b =? 45) || (b =? DOT)) scheme
  end.

(** ** Paths *)

Fixpoint push_components (root : bool) (components segs : list bytes) : Answer (list bytes) :=
  match segs with
  | [] => Ok components
  | s :: segs =>
      if bool_decide (s = []) then
        if root then push_components root components segs
        else Err (InvalidUri "empty path component")
      else if bool_decide (s = lit ".") then push_components root components segs
      else if bool_decide (s = lit "..") then
        match components with
        | [] => Err (InvalidUri "path escapes origin root")
        | _ => push_components root (removelast components) segs
        end
      else push_components root (components ++ [s]) segs
  end.

Definition normalize_absolute_path (path : bytes) : Answer bytes :=
  _ ← validate_uri_text path;
  _ ← refuse (InvalidUri "path is not origin-relative")
         (negb (starts_with [SLASH] path) || starts_with [SLASH; SLASH] path);
  let '(raw_path, query) := cut_query path in
  _ ← refuse (InvalidUri "URI has no path") (bool_decide (raw_path = []));
  components ← push_components (bool_decide (raw_path = [SLASH])) [] (split SLASH (drop 1 raw_path));
  let normalized := SLASH :: join SLASH components in
  match query with
  | None => Ok normalized
  | Some query =>
      _ ← refuse (InvalidUri "empty query") (bool_decide (query = []));
      Ok (normalized ++ QUESTION :: query)
  end.

Definition path_without_query (path : bytes) : bytes := (cut_query path).1.

(** ** Resources *)

Record Resource := mk_resource { res_origin : Origin; res_path : bytes }.
#[export] Instance Resource_eq_dec : EqDecision Resource.
Proof. solve_decision. Defined.

Definition resource_new (origin : Origin) (path : bytes) : Answer Resource :=
  path ← normalize_absolute_path path; Ok (mk_resource origin path).

Definition resolve (base : Resource) (reference : bytes) : Answer Resource :=
  _ ← validate_uri_text reference;
  _ ← refuse (InvalidUri "URI has no path")
         (bool_decide (reference = []) || starts_with [QUESTION] reference);
  _ ← refuse CrossOrigin (starts_with [SLASH; SLASH] reference);
  if has_scheme reference then
    _ ← refuse (InvalidUri "unsupported URI scheme")
           (negb (starts_with (lit "http://") reference || starts_with (lit "https://") reference));
    child_origin ← ok_or (InvalidUri "malformed absolute URI") (origin_parse reference);
    _ ← refuse CrossOrigin (negb (bool_decide (child_origin = res_origin base)));
    let path := (url_split reference).2 in
    resource_new child_origin (if bool_decide (path = []) then [SLASH] else path)
  else if starts_with [SLASH] reference then resource_new (res_origin base) reference
  else
    let base_path := path_without_query (res_path base) in
    slash ← ok_or (InvalidUri "base URI has no directory") (rfind_byte SLASH base_path);
    resource_new (res_origin base) (take (S slash) base_path ++ reference).

(** ** The credential *)

Definition is_token_pair (pair : bytes) : bool :=
  match split_once EQUALS pair with
  | Some (name, _) => eq_ignore_ascii_case name (lit "X-Plex-Token")
  | None => false
  end.

Record InheritedAuth := mk_auth { auth_token_pair : bytes }.

Definition capture (master : Resource) : Answer InheritedAuth :=
  '(_, query) ← ok_or MissingCredential (split_once QUESTION (res_path master));
  let found := List.filter is_token_pair (split AMP query) in
  token_pair ← ok_or MissingCredential
     (p ← head found;
      if (List.length (lit "X-Plex-Token=") <? List.length p)%nat then Some p else None);
  _ ← refuse MultipleCredentials (negb (bool_decide (tail found = [])));
  Ok (mk_auth token_pair).

Definition request_path (auth : InheritedAuth) (resource : Resource) : Answer bytes :=
  let added (separator : Z) := Ok (res_path resource ++ separator :: auth_token_pair auth) in
  match split_once QUESTION (res_path resource) with
  | Some (_, query) =>
      match List.filter is_token_pair (split AMP query) with
      | first :: rest =>
          _ ← refuse CredentialChanged (negb (bool_decide (first = auth_token_pair auth)));
          _ ← refuse MultipleCredentials (negb (bool_decide (rest = [])));
          Ok (res_path resource)
      | [] => added AMP
      end
  | None => added QUESTION
  end.

Definition from_request_path (origin : Origin) (request_path : bytes) : Answer Resource :=
  let path :=
    match split_once QUESTION request_path with
    | None => request_path
    | Some (path, query) =>
        match List.filter (fun pair => negb (is_token_pair pair)) (split AMP query) with
        | [] => path
        | kept => path ++ QUESTION :: join AMP kept
        end
    end in
  resource_new origin path.

(** ** Normal paths *)

(** What every resource's path is made of. *)
Definition path_byte (b : Z) : Prop := uri_byte b = true /\ b <> HASH /\ b <> BACKSLASH.
Definition text_ok (s : bytes) : Prop := Forall path_byte s /\ escapes_ok s = true.

Lemma validate_uri_text_Ok s u : validate_uri_text s = Ok u <-> text_ok s.
Proof.
  unfold validate_uri_text, text_ok. split.
  - intros H. outcomes. rewrite contains_false in *.
    apply negb_false_iff in H1, H2. rewrite forallb_forall in H1. split; [|done].
    apply Forall_forall. intros b Hb. rewrite Forall_forall in H, H0.
    split; [apply H1; by apply list_elem_of_In|]. auto.
  - intros [Hb He].
    assert (contains HASH s = false) as ->
      by (apply contains_false; eapply Forall_impl; [exact Hb|]; by intros ? (? & ? & ?)).
    assert (contains BACKSLASH s = false) as ->
      by (apply contains_false; eapply Forall_impl; [exact Hb|]; by intros ? (? & ? & ?)).
    assert (forallb uri_byte s = true) as ->.
    { apply forallb_forall. intros b Hin. rewrite Forall_forall in Hb. apply Hb.
      by apply list_elem_of_In. }
    rewrite He. by destruct u.
Qed.

(** An escape never spans a byte that is neither [%] nor a hexadecimal digit. *)
Lemma escapes_ok_app a c b : c <> PERCENT -> is_hexdigit c = false ->
  escapes_ok (a ++ c :: b) = escapes_ok a && escapes_ok b.
Proof.
  intros Hc Hh. apply Z.eqb_neq in Hc.
  induction a as [a IH] using (induction_ltof1 _ (@List.length Z)).
  destruct a as [|x a]; cbn; [by rewrite Hc|].
  destruct (x =? PERCENT); [|apply IH; unfold ltof; cbn; lia].
  destruct a as [|h a]; cbn; [destruct b; by rewrite ?Hh|].
  destruct a as [|l a]; cbn; [by rewrite Hh, andb_false_r|].
  rewrite IH by (unfold ltof; cbn; lia). by rewrite andb_assoc.
Qed.

Lemma text_ok_app a c b : path_byte c -> c <> PERCENT -> is_hexdigit c = false ->
  text_ok (a ++ c :: b) <-> text_ok a /\ text_ok b.
Proof.
  intros Hc Hp Hh. unfold text_ok. rewrite escapes_ok_app, Forall_app, Forall_cons, andb_true_iff by done.
  intuition.
Qed.

Lemma slash_ok : path_byte SLASH /\ SLASH <> PERCENT /\ is_hexdigit SLASH = false.
Proof. done. Qed.
Lemma question_ok : path_byte QUESTION /\ QUESTION <> PERCENT /\ is_hexdigit QUESTION = false.
Proof. done. Qed.
Lemma amp_ok : path_byte AMP /\ AMP <> PERCENT /\ is_hexdigit AMP = false.
Proof. done. Qed.

Lemma text_ok_nil : text_ok [].
Proof. by split. Qed.

Section Separator.
  Context (c : Z) (Hc : path_byte c /\ c <> PERCENT /\ is_hexdigit c = false).

Lemma text_ok_cut a b : text_ok (a ++ c :: b) <-> text_ok a /\ text_ok b.
Proof. apply text_ok_app; apply Hc. Qed.

Lemma text_ok_cons b : text_ok (c :: b) <-> text_ok b.
Proof. rewrite (text_ok_cut [] b). split; [by intros []|]. split; [apply text_ok_nil|done]. Qed.

Lemma text_ok_join l : Forall text_ok l -> text_ok (join c l).
Proof.
  induction 1 as [|h t Hh Ht IH]; [apply text_ok_nil|]. destruct t as [|h' t]; [done|].
  change (join c (h :: h' :: t)) with (h ++ c :: join c (h' :: t)). by apply text_ok_cut.
Qed.

Lemma text_ok_split s : text_ok s -> Forall text_ok (split c s).
Proof.
  destruct (split_once c s) as [[l r]|] eqn:E.
  - revert s l E. induction r as [r IH] using (induction_ltof1 _ (@List.length Z)).
    intros s l E Hs. apply split_once_Some in E as [-> Hl].
    apply text_ok_cut in Hs as [Hl' Hr]. rewrite split_app_sep by done. constructor; [done|].
    destruct (split_once c r) as [[l' r']|] eqn:E'.
    + eapply (IH r'); [|exact E'|done]. apply split_once_Some in E' as [-> _].
      unfold ltof. rewrite length_app. cbn. lia.
    + apply split_once_None in E'. rewrite split_no_sep by done. by constructor.
  - apply split_once_None in E. intros Hs. rewrite split_no_sep by done. by constructor.
Qed.
End Separator.

Definition component_ok (s : bytes) : Prop :=
  s <> [] /\ s <> lit "." /\ s <> lit ".." /\ text_ok s
  /\ Forall (fun b => b <> SLASH) s /\ Forall (fun b => b <> QUESTION) s.

(** A path in normal form: its components, and the query it may have. *)
Definition spell_path (components : list bytes) (query : option bytes) : bytes :=
  SLASH :: join SLASH components ++ match query with Some q => QUESTION :: q | None => [] end.

Definition path_ok (path : bytes) : Prop :=
  exists components query, path = spell_path components query
    /\ Forall component_ok components
    /\ match query with Some q => q <> [] /\ text_ok q | None => True end.

Lemma push_components_spec (P : bytes -> Prop) root segs : forall components out,
  Forall P segs ->
  Forall (fun s => P s /\ s <> [] /\ s <> lit "." /\ s <> lit "..") components ->
  push_components root components segs = Ok out ->
  Forall (fun s => P s /\ s <> [] /\ s <> lit "." /\ s <> lit "..") out.
Proof.
  induction segs as [|s segs IH]; intros components out Hs Hc H; cbn [push_components] in H; [by simplify_eq|].
  apply Forall_cons in Hs as [Hs Hsegs].
  destruct (bool_decide_reflect (s = [])); [destruct root; [exact (IH _ _ Hsegs Hc H)|done]|].
  destruct (bool_decide_reflect (s = lit ".")); [exact (IH _ _ Hsegs Hc H)|].
  destruct (bool_decide_reflect (s = lit "..")).
  - destruct components as [|x l]; [done|]. eapply IH; [done| |exact H]. by apply removelast_Forall.
  - eapply IH; [done| |exact H]. apply Forall_app. split; [done|]. by repeat constructor.
Qed.

Lemma push_components_id root segs : forall components,
  Forall (fun s => s <> [] /\ s <> lit "." /\ s <> lit "..") segs ->
  push_components root components segs = Ok (components ++ segs).
Proof.
  induction segs as [|s segs IH]; intros components H; cbn [push_components]; [by rewrite app_nil_r|].
  apply Forall_cons in H as [(H1 & H2 & H3) H].
  rewrite !bool_decide_false by done. rewrite IH by done. by rewrite <- app_assoc.
Qed.

Lemma join_no_question l : Forall component_ok l -> Forall (fun b => b <> QUESTION) (SLASH :: join SLASH l).
Proof.
  intros Hl. constructor; [done|]. apply join_Forall; [done|].
  eapply Forall_impl; [exact Hl|]. by intros s (_ & _ & _ & _ & _ & ?).
Qed.

Lemma spell_path_cut l q : Forall component_ok l ->
  cut_query (spell_path l q) = (SLASH :: join SLASH l, q).
Proof.
  intros Hl. unfold cut_query, spell_path. pose proof (join_no_question l Hl) as Hn.
  destruct q as [q|].
  - rewrite app_comm_cons, split_once_app by done. done.
  - rewrite app_nil_r. assert (split_once QUESTION (SLASH :: join SLASH l) = None) as ->
      by by apply split_once_None.
    done.
Qed.

Lemma path_ok_text p : path_ok p -> text_ok p.
Proof.
  intros (l & q & -> & Hl & Hq). unfold spell_path. apply (text_ok_cons _ slash_ok).
  assert (Hj : text_ok (join SLASH l)).
  { apply (text_ok_join _ slash_ok). eapply Forall_impl; [exact Hl|]. by intros s (_ & _ & _ & ? & _). }
  destruct q as [q|]; [|by rewrite app_nil_r]. apply (text_ok_cut _ question_ok). by destruct Hq.
Qed.

Lemma cut_query_app p : p = (cut_query p).1 ++ match (cut_query p).2 with Some q => QUESTION :: q | None => [] end.
Proof.
  unfold cut_query. destruct (split_once QUESTION p) as [[l r]|] eqn:E; cbn; [|by rewrite app_nil_r].
  by apply split_once_Some in E as [? _].
Qed.

Lemma starts_with_spec p s : starts_with p s = true <-> exists r, s = p ++ r.
Proof.
  unfold starts_with. split.
  - destruct (strip_prefix p s) as [r|] eqn:E; [|done]. intros _. exists r. by apply strip_prefix_Some.
  - intros [r ->]. by rewrite strip_prefix_app.
Qed.

(** Normalising leaves the query alone. *)
Lemma normalize_absolute_path_spec p p' : normalize_absolute_path p = Ok p' ->
  exists l, p' = spell_path l (cut_query p).2 /\ Forall component_ok l
    /\ match (cut_query p).2 with Some q => q <> [] /\ text_ok q | None => True end.
Proof.
  unfold normalize_absolute_path. intros H. outcomes.
  destruct x. apply validate_uri_text_Ok in H. pose proof (cut_query_app p) as Hcut.
  destruct (cut_query p) as [raw query] eqn:Ecut. cbn [fst snd] in *. outcomes.
  apply orb_false_iff in H0 as [Hs _]. apply negb_false_iff, starts_with_spec in Hs as [r Hs].
  assert (Hq : Forall (fun b => b <> QUESTION) raw).
  { unfold cut_query in Ecut. destruct (split_once QUESTION p) as [[]|] eqn:E; simplify_eq.
    - by apply split_once_Some in E as [_ ?].
    - by apply split_once_None in E. }
  assert (Htext : text_ok raw /\ match query with Some q => text_ok q | None => True end).
  { rewrite Hcut in H. destruct query as [q|]; [by apply (text_ok_cut _ question_ok)|].
    by rewrite app_nil_r in H. }
  destruct Htext as [Hraw Hquery].
  assert (Hrest : exists rest, raw = SLASH :: rest).
  { rewrite Hcut in Hs. destruct raw as [|b raw]; [by apply bool_decide_eq_false in H1|].
    cbn in Hs. injection Hs as -> _. by eexists. }
  destruct Hrest as [rest ->]. change (drop 1 (SLASH :: rest)) with rest in H2.
  rewrite (text_ok_cons _ slash_ok) in Hraw.
  apply Forall_cons in Hq as [_ Hq].
  eapply (push_components_spec (fun s => text_ok s /\ Forall (fun b => b <> SLASH) s
            /\ Forall (fun b => b <> QUESTION) s)) in H2; [| |constructor].
  2:{ pose proof (text_ok_split _ slash_ok _ Hraw) as Ht.
      pose proof (split_parts SLASH rest _ Hq) as Hp. rewrite Forall_forall in *.
      intros s Hin. specialize (Ht s Hin). specialize (Hp s Hin). by destruct Hp. }
  assert (Hc : Forall component_ok x1).
  { eapply Forall_impl; [exact H2|]. intros s ((? & ? & ?) & ? & ? & ?).
    by do 5 (split; [done|]). }
  exists x1. destruct query as [q|]; outcomes; simplify_eq/=.
  - split; [done|]. split; [done|]. by split; [apply bool_decide_eq_false in H0|].
  - unfold spell_path. by rewrite app_nil_r.
Qed.

Lemma normalize_absolute_path_Ok p p' : normalize_absolute_path p = Ok p' -> path_ok p'.
Proof. intros H. apply normalize_absolute_path_spec in H as (l & ? & ? & ?). by exists l, (cut_query p).2. Qed.

Lemma normalize_query p p' : normalize_absolute_path p = Ok p' -> (cut_query p').2 = (cut_query p).2.
Proof.
  intros H. apply normalize_absolute_path_spec in H as (l & -> & Hl & _). by rewrite spell_path_cut.
Qed.

(** A normal path is absolute, and does not start with two slashes. *)
Lemma path_ok_starts p : path_ok p ->
  exists r, p = SLASH :: r /\ starts_with [SLASH; SLASH] p = false.
Proof.
  intros (l & q & -> & Hl & _). eexists. split; [done|].
  apply not_true_iff_false. rewrite starts_with_spec. intros [r Hr].
  unfold spell_path in Hr. cbn in Hr. injection Hr as Hr.
  destruct Hl as [|s l (Hs & _ & _ & _ & Hs' & _) Hl]; cbn in Hr; [by destruct q|].
  destruct s as [|b s]; [done|]. apply Forall_cons in Hs' as [Hb _].
  destruct l; cbn in Hr; congruence.
Qed.

Lemma normalize_absolute_path_id p : path_ok p -> normalize_absolute_path p = Ok p.
Proof.
  intros Hp. pose proof (path_ok_text p Hp) as Ht. destruct Hp as (l & q & -> & Hl & Hq).
  unfold normalize_absolute_path. apply (validate_uri_text_Ok _ tt) in Ht. rewrite Ht, spell_path_cut by done.
  cbn [mbind outcome_bind].
  destruct (path_ok_starts (spell_path l q)) as (r & _ & Hroot); [by exists l, q|].
  assert (Hslash : starts_with [SLASH] (spell_path l q) = true) by (apply starts_with_spec; by eexists).
  rewrite Hroot, Hslash, (bool_decide_false (SLASH :: _ = [])) by done.
  cbn [negb orb refuse mbind outcome_bind].
  change (drop 1 (SLASH :: join SLASH l)) with (join SLASH l).
  assert (push_components (bool_decide (SLASH :: join SLASH l = [SLASH])) [] (split SLASH (join SLASH l))
          = Ok l) as ->.
  { destruct Hl as [|s l Hs Hl]; [done|]. rewrite split_join; [|done|].
    - rewrite push_components_id; [done|]. constructor; [by destruct Hs as (? & ? & ? & _)|].
      eapply Forall_impl; [exact Hl|]. by intros ? (? & ? & ? & _).
    - constructor; [by destruct Hs as (_ & _ & _ & _ & ? & _)|].
      eapply Forall_impl; [exact Hl|]. by intros ? (_ & _ & _ & _ & ? & _). }
  cbn [mbind outcome_bind]. destruct q as [q|]; [|unfold spell_path; by rewrite app_nil_r].
  rewrite bool_decide_false by apply Hq. done.
Qed.

Lemma resource_new_Ok o p r : resource_new o p = Ok r -> res_origin r = o /\ path_ok (res_path r).
Proof.
  unfold resource_new. intros H. outcomes. simplify_eq/=. split; [done|].
  by eapply normalize_absolute_path_Ok.
Qed.

Lemma resource_new_id o p : path_ok p -> resource_new o p = Ok (mk_resource o p).
Proof. intros Hp. unfold resource_new. by rewrite normalize_absolute_path_id. Qed.

Lemma push_components_not_Panics root segs : forall l, push_components root l segs <> Panics.
Proof.
  induction segs as [|s segs IH]; intros l; cbn [push_components]; [done|].
  repeat case_bool_decide; try done; [by destruct root|]. by destruct l.
Qed.
#[export] Hint Resolve push_components_not_Panics : panics.

Lemma resource_new_not_Panics o p : resource_new o p <> Panics.
Proof.
  unfold resource_new, normalize_absolute_path, validate_uri_text.
  destruct (cut_query p) as [raw [q|]]; no_panic.
Qed.
#[export] Hint Resolve resource_new_not_Panics : panics.

(** ** Properties of the resolution *)

Lemma first_slash_no_scheme r : has_scheme (SLASH :: r) = false.
Proof.
  unfold has_scheme. cbn. destruct (find_byte _ r) as [i|]; [|done]. cbn. done.
Qed.

Lemma resolve_path source p : path_ok p -> resolve source p = Ok (mk_resource (res_origin source) p).
Proof.
  intros Hp. unfold resolve. rewrite (proj2 (validate_uri_text_Ok p tt)) by by apply path_ok_text.
  destruct (path_ok_starts p Hp) as (r & -> & H2). rewrite H2, first_slash_no_scheme.
  rewrite bool_decide_false by done. by apply resource_new_id.
Qed.

Lemma resolve_url source p : path_ok p -> origin_wf (res_origin source) ->
  text_ok (base (res_origin source)) ->
  resolve source (base (res_origin source) ++ p) = Ok (mk_resource (res_origin source) p).
Proof.
  intros Hp Hwf Hb. destruct (path_ok_starts p Hp) as (r & Hr & _).
  assert (Ht : text_ok (base (res_origin source) ++ p)).
  { rewrite Hr. apply (text_ok_cut _ slash_ok). split; [done|]. apply (text_ok_cons _ slash_ok).
    rewrite <- Hr. by apply path_ok_text. }
  unfold resolve. rewrite (proj2 (validate_uri_text_Ok _ tt)) by done.
  assert (Hparts := parts_of_base (res_origin source) p Hwf (or_intror (ex_intro _ r Hr))).
  assert (Hparse : origin_parse (base (res_origin source) ++ p) = Some (res_origin source)
                   /\ url_split (base (res_origin source) ++ p) = (res_origin source, p)).
  { assert (Hnew : origin_new (origin_scheme (res_origin source)) (origin_host (res_origin source))
              (origin_port (res_origin source)) = res_origin source).
    { unfold origin_new. rewrite unbracket_id by apply Hwf. by destruct (res_origin source). }
    unfold origin_parse, url_split. rewrite Hparts. cbn -[origin_new].
    rewrite bool_decide_false by apply Hwf. cbn -[origin_new]. by rewrite Hnew. }
  destruct Hparse as [Hparse Hsplit]. rewrite Hparse, Hsplit. cbn [snd].
  assert (Hu : bool_decide (base (res_origin source) ++ p = []) = false
             /\ starts_with [QUESTION] (base (res_origin source) ++ p) = false
             /\ starts_with [SLASH; SLASH] (base (res_origin source) ++ p) = false
             /\ has_scheme (base (res_origin source) ++ p) = true
             /\ starts_with (lit "http://") (base (res_origin source) ++ p)
                || starts_with (lit "https://") (base (res_origin source) ++ p) = true)
    by (unfold base; rewrite <- !app_assoc; by destruct (origin_scheme (res_origin source))).
  destruct Hu as (-> & -> & -> & -> & ->). cbn [orb negb refuse ok_or mbind outcome_bind].
  rewrite (bool_decide_true (_ = res_origin source)) by done.
  rewrite (bool_decide_false (p = [])) by (by rewrite Hr).
  apply resource_new_id, Hp.
Qed.

Lemma resolve_Ok source reference child : resolve source reference = Ok child ->
  res_origin child = res_origin source /\ path_ok (res_path child).
Proof.
  unfold resolve. intros H. outcomes. destruct (has_scheme reference); outcomes.
  - rewrite negb_false_iff, bool_decide_eq_true in *. subst. eapply resource_new_Ok; eassumption.
  - destruct (starts_with [SLASH] reference); outcomes; eapply resource_new_Ok; eassumption.
Qed.

Lemma resolve_not_Panics source reference : resolve source reference <> Panics.
Proof.
  unfold resolve, validate_uri_text. no_panic.
  destruct (has_scheme reference); [|destruct (starts_with [SLASH] reference)]; no_panic.
Qed.
#[export] Hint Resolve resolve_not_Panics : panics.

(** C23. A playlist cannot turn the media worker elsewhere.  Whatever a playlist writes, resolving it
    answers, without a panic, an error or a resource on the origin of the playlist, whose path is
    absolute, free of empty and dot components, and printable ASCII without fragment, backslash or
    broken escape; and resolving that path once more, alone or as a full URL on the origin, is the
    identity. *)
Theorem playlist_uris_stay_on_origin source reference :
  resolve source reference <> Panics
  /\ forall child, resolve source reference = Ok child ->
     res_origin child = res_origin source
     /\ path_ok (res_path child)
     /\ resolve source (res_path child) = Ok child
     /\ (origin_wf (res_origin source) -> text_ok (base (res_origin source)) ->
         resolve source (base (res_origin source) ++ res_path child) = Ok child).
Proof.
  split; [apply resolve_not_Panics|]. intros child H.
  destruct (resolve_Ok _ _ _ H) as [Ho Hp]. split; [done|]. split; [done|].
  assert (Hchild : @Ok HlsError _ (mk_resource (res_origin source) (res_path child)) = Ok child)
    by (rewrite <- Ho; by destruct child).
  split; [by rewrite resolve_path|]. intros Hwf Ht. by rewrite resolve_url.
Qed.

(** ** Properties of the credential *)

(** The credentials a request path carries. *)
Definition tokens (path : bytes) : list bytes :=
  match (cut_query path).2 with
  | Some query => List.filter is_token_pair (split AMP query)
  | None => []
  end.

Lemma cut_query_some path l q : split_once QUESTION path = Some (l, q) -> cut_query path = (l, Some q).
Proof. unfold cut_query. by intros ->. Qed.

Lemma filter_nil_negb {A} (f : A -> bool) l :
  List.filter f l = [] -> List.filter (fun x => negb (f x)) l = l.
Proof. induction l as [|x l IH]; simpl; [done|]. destruct (f x); simpl; [done|]. intros. by rewrite IH. Qed.

Lemma filter_negb_nil {A} (f : A -> bool) l : List.filter f (List.filter (fun x => negb (f x)) l) = [].
Proof. induction l as [|x l IH]; simpl; [done|]. destruct (f x) eqn:E; simpl; [done|]. by rewrite E. Qed.

(** What [capture] takes is one pair of the query, and a credential. *)
Lemma capture_Ok master auth : path_ok (res_path master) -> capture master = Ok auth ->
  is_token_pair (auth_token_pair auth) = true
  /\ Forall (fun b => b <> AMP) (auth_token_pair auth) /\ text_ok (auth_token_pair auth)
  /\ auth_token_pair auth <> [] /\ tokens (res_path master) = [auth_token_pair auth].
Proof.
  intros Hp H. unfold capture in H. outcomes. destruct x as [l q]. outcomes. simplify_eq/=.
  rewrite negb_false_iff, bool_decide_eq_true in *.
  unfold tokens. rewrite (cut_query_some _ _ _ H). cbn [snd].
  destruct (List.filter is_token_pair (split AMP q)) as [|p rest] eqn:E; [done|].
  cbn [head mbind option_bind] in *. destruct (_ <? _)%nat eqn:El; [|done]. simplify_eq/=.
  assert (Hin : In x (List.filter is_token_pair (split AMP q))) by (rewrite E; by left).
  apply filter_In in Hin as [Hin Ht]. apply list_elem_of_In in Hin.
  assert (Hq : text_ok q).
  { apply path_ok_text in Hp. apply split_once_Some in H as [Hr _]. rewrite Hr in Hp.
    rewrite (text_ok_cut _ question_ok) in Hp. by destruct Hp. }
  pose proof (text_ok_split _ amp_ok _ Hq) as Hs. pose proof (split_parts AMP q _ (proj1 Hq)) as Hs'.
  rewrite Forall_forall in Hs, Hs'. split_and!; [done|by apply Hs'|by apply Hs| |done].
  intros ->. by apply Nat.ltb_lt in El.
Qed.

Lemma from_request_path_tokens o landed r' :
  from_request_path o landed = Ok r' -> tokens (res_path r') = [].
Proof.
  unfold from_request_path, resource_new, tokens. intros H. outcomes.
  simplify_eq/=. rewrite (normalize_query _ _ H).
  destruct (split_once QUESTION landed) as [[path query]|] eqn:E.
  - apply split_once_Some in E as [-> Hpath].
    destruct (List.filter _ _) as [|k kept] eqn:Ek; unfold cut_query.
    + by rewrite (proj2 (split_once_None QUESTION path) Hpath).
    + rewrite split_once_app by done. cbn [snd].
      change (List.filter is_token_pair (split AMP (join AMP (k :: kept))) = []).
      rewrite split_join; [|done|].
      * rewrite <- Ek. apply filter_negb_nil.
      * rewrite <- Ek. apply filter_Forall.
        eapply Forall_impl; [apply (split_parts AMP query (fun _ => True))|]; [|by intros ? []].
        by apply Forall_forall.
  - unfold cut_query. by rewrite E.
Qed.

(** The credential is added once and taken back out.  A request path carries exactly one credential,
    the one captured from the master URL, on a path that is still in normal form; when the resource
    did not repeat it, reading the request path back gives the resource; and whatever path a
    response lands on, the resource read from it holds no credential. *)
Theorem credential_round_trips master auth r p :
  path_ok (res_path master) -> path_ok (res_path r) ->
  capture master = Ok auth -> request_path auth r = Ok p ->
  tokens p = [auth_token_pair auth]
  /\ path_ok p
  /\ (tokens (res_path r) = [] -> from_request_path (res_origin r) p = Ok r)
  /\ forall o landed r', from_request_path o landed = Ok r' -> tokens (res_path r') = [].
Proof.
  intros Hm Hr Hc H. destruct (capture_Ok _ _ Hm Hc) as (Ht & Hamp & Htext & Hne & _).
  set (T := auth_token_pair auth) in *.
  assert (Hnew : forall path, res_path r = path -> resource_new (res_origin r) path = Ok r).
  { intros path <-. rewrite resource_new_id by done. by destruct r. }
  assert (Hgoal : tokens p = [T] /\ path_ok p
            /\ (tokens (res_path r) = [] -> from_request_path (res_origin r) p = Ok r));
    [|by destruct Hgoal as (? & ? & ?); eauto 8 using from_request_path_tokens].
  destruct Hr as (l & q & Hr & Hl & Hq). unfold request_path in H. fold T in H.
  pose proof (spell_path_cut l q Hl) as Hcut. rewrite <- Hr in Hcut.
  destruct (split_once QUESTION (res_path r)) as [[path query]|] eqn:E.
  - rewrite (cut_query_some _ _ _ E) in Hcut. injection Hcut as Hpath <-.
    pose proof (split_once_Some _ _ _ _ E) as [Hr' Hpq].
    unfold tokens. rewrite (cut_query_some _ _ _ E). cbn [snd].
    destruct (List.filter is_token_pair (split AMP query)) as [|first rest] eqn:Ef.
    + injection H as <-.
      assert (Hp : res_path r ++ AMP :: T = path ++ QUESTION :: query ++ AMP :: T)
        by (rewrite Hr'; by rewrite <- app_assoc).
      rewrite Hp. unfold cut_query. rewrite split_once_app by done. cbn [snd].
      rewrite split_app, List.filter_app, Ef, (split_no_sep AMP T) by done. cbn [List.filter app].
      rewrite Ht. split; [done|]. split.
      * exists l, (Some (query ++ AMP :: T)). split; [rewrite Hpath; unfold spell_path; done|].
        split; [done|]. split; [by destruct query|]. apply (text_ok_cut _ amp_ok). by destruct Hq.
      * intros _. unfold from_request_path. rewrite split_once_app by done.
        rewrite split_app, List.filter_app, (filter_nil_negb _ _ Ef), (split_no_sep AMP T) by done.
        cbn [List.filter]. rewrite Ht. cbn [negb]. rewrite app_nil_r.
        destruct (split AMP query) as [|h t] eqn:Es; [by apply split_nonempty in Es|].
        rewrite <- Es, join_split. by apply Hnew.
    + outcomes. rewrite negb_false_iff, bool_decide_eq_true in *. simplify_eq.
      rewrite (cut_query_some _ _ _ E). cbn [snd]. rewrite Ef. split; [done|].
      split; [|done]. by exists l, (Some query).
  - injection H as <-. apply split_once_None in E.
    assert (q = None) as -> by (unfold cut_query in Hcut; rewrite (proj2 (split_once_None _ _) E) in Hcut;
                                by simplify_eq).
    unfold tokens at 1. unfold cut_query. rewrite split_once_app by done. cbn [snd].
    rewrite split_no_sep by done. cbn [List.filter]. rewrite Ht. split; [done|]. split.
    + exists l, (Some T). split; [rewrite Hr; unfold spell_path; by rewrite app_nil_r|]. done.
    + intros _. unfold from_request_path. rewrite split_once_app, split_no_sep by done.
      cbn [List.filter]. rewrite Ht. by apply Hnew.
Qed.
