(* ===== verification/HlsPlaylist.v ===== *)
(** * HLS playlists

    [play-feed/src/hls.rs]: the strict readers of the master and of the media playlists.  One line
    is one step on a record of the reader's locals. *)

From Stdlib Require Import String.
From S2P Require Import Prelude Bytes Origin Redirect HlsUri.

#[local] Open Scope Z_scope.

(** ** Data *)

Record Variant := mk_variant { va_resource : Resource; va_bandwidth : Z }.

Record MasterPlaylist := mk_master {
  ma_source : Resource;
  ma_version : option Z;
  ma_variant : Variant
}.

Inductive PlaylistType := Type_Event | Type_Vod.
#[export] Instance PlaylistType_eq_dec : EqDecision PlaylistType.
Proof. solve_decision. Defined.

(** A [Duration] is its nanoseconds. *)
Record Segment := mk_segment { sg_sequence : Z; sg_duration : Z; sg_resource : Resource }.
#[export] Instance Segment_eq_dec : EqDecision Segment.
Proof. solve_decision. Defined.

Record MediaPlaylist := mk_media {
  mp_source : Resource;
  mp_version : option Z;
  mp_target_duration_secs : Z;
  mp_start_offset_micros : option Z;
  mp_media_sequence : Z;
  mp_playlist_type : option PlaylistType;
  mp_segments : list Segment;
  mp_end_list : bool
}.

Definition malformed {A} (line : nat) (reason : string) : Answer A := Err (Malformed line reason).

Definition set_once {A} (slot : option A) (value : A) (line : nat) (reason : string)
  : Answer (option A) :=
  match slot with Some _ => malformed line reason | None => Ok (Some value) end.

(** ** Lines *)

(** [line == line.trim()]. *)
Definition is_trimmed (line : bytes) : bool :=
  negb (existsb (fun w => starts_with w line || ends_with w line) white_space).

Fixpoint read_lines (line_no : nat) (raws : list bytes) : Answer (list (nat * bytes)) :=
  match raws with
  | [] => Ok []
  | raw :: raws =>
      let line := default raw (strip_suffix [CR] raw) in
      if contains CR line || contains 0 line then malformed line_no "control character in line"
      else if negb (is_trimmed line) then malformed line_no "leading or trailing whitespace"
      else lines ← read_lines (S line_no) raws; Ok ((line_no, line) :: lines)
  end.

Definition playlist_lines (text : bytes) : Answer (list (nat * bytes)) :=
  lines ← read_lines 1 (split LF text);
  _ ← refuse MissingHeader (negb (bool_decide (snd <$> head lines = Some (lit "#EXTM3U"))));
  Ok lines.

(** The loop over the lines. *)
Fixpoint each_line {S} (step : nat -> bytes -> S -> Answer S) (lines : list (nat * bytes)) (s : S)
  : Answer S :=
  match lines with
  | [] => Ok s
  | (line_no, line) :: lines => s ← step line_no line s; each_line step lines s
  end.

Definition tag_name (line : bytes) : bytes :=
  match split_once COLON line with Some (name, _) => name | None => line end.

Definition forbidden_feature (line : bytes) : option string :=
  let tag := tag_name line in
  if bool_decide (tag = lit "#EXT-X-KEY") || bool_decide (tag = lit "#EXT-X-SESSION-KEY")
  then Some "encrypted segments"%string
  else if bool_decide (tag = lit "#EXT-X-BYTERANGE") then Some "byte-range segments"%string
  else if bool_decide (tag = lit "#EXT-X-MAP") then Some "fMP4 initialization map"%string
  else if bool_decide (tag = lit "#EXT-X-DISCONTINUITY")
          || bool_decide (tag = lit "#EXT-X-DISCONTINUITY-SEQUENCE")
  then Some "discontinuities"%string
  else None.

(** ** Numbers *)

(** [parse::<u32>] reads a sign. *)
Definition parse_positive_u32 (value : bytes) (line : nat) : Answer Z :=
  value ← ok_or (Malformed line "invalid version")
            (parse_digits u32_max (default value (strip_prefix [43] value)));
  if value =? 0 then malformed line "version must be positive" else Ok value.

Definition parse_u64 (value : bytes) (line : nat) (reason : string) : Answer Z :=
  _ ← refuse (Malformed line reason) (bool_decide (value = []) || negb (forallb is_digit value));
  ok_or (Malformed line reason) (parse_digits u64_max value).

Definition parse_positive_u64 (value : bytes) (line : nat) (reason : string) : Answer Z :=
  value ← parse_u64 value line reason;
  if value =? 0 then malformed line reason else Ok value.

(** [split_once('.')], the fraction apart. *)
Definition cut_fraction (number : bytes) : bytes * option bytes :=
  match split_once DOT number with
  | Some (seconds, fraction) => (seconds, Some fraction)
  | None => (number, None)
  end.

Definition fraction_bad (digits : nat) (fraction : bytes) : bool :=
  bool_decide (fraction = []) || (digits <? List.length fraction)%nat
  || negb (forallb is_digit fraction).

Definition parse_extinf (value : bytes) (line : nat) : Answer Z :=
  '(number, _) ← ok_or (Malformed line "EXTINF has no comma") (split_once COMMA value);
  let '(seconds, fraction) := cut_fraction number in
  _ ← refuse (Malformed line "invalid EXTINF duration")
         (bool_decide (seconds = []) || negb (forallb is_digit seconds));
  seconds ← ok_or (Malformed line "EXTINF duration overflows") (parse_digits u64_max seconds);
  nanos ←
    match fraction with
    | Some fraction =>
        _ ← refuse (Malformed line "invalid EXTINF fraction") (fraction_bad 9 fraction);
        value ← ok_or (Malformed line "invalid EXTINF fraction") (parse_digits u32_max fraction);
        Ok (u32_wrap (value * 10 ^ Z.of_nat (9 - List.length fraction)))
    | None => Ok 0
    end;
  if (seconds =? 0) && (nanos =? 0) then malformed line "zero EXTINF duration"
  else Ok (seconds * 1000000000 + nanos).

Definition parse_signed_decimal_micros (value : bytes) (line : nat) : Answer Z :=
  let overflows := Malformed line "start time offset overflows" in
  let invalid := Malformed line "invalid start time offset" in
  let '(negative, value) :=
    match strip_prefix [45] value with Some value => (true, value) | None => (false, value) end in
  let '(seconds, fraction) := cut_fraction value in
  _ ← refuse invalid (bool_decide (seconds = []) || negb (forallb is_digit seconds));
  seconds ← ok_or overflows (parse_digits i64_max seconds);
  micros ← ok_or overflows (i64_checked (seconds * 1000000));
  micros ←
    match fraction with
    | Some fraction =>
        _ ← refuse invalid (fraction_bad 6 fraction);
        value ← ok_or invalid (parse_digits i64_max fraction);
        ok_or overflows
          (i64_checked (micros + i64_wrap (value * 10 ^ Z.of_nat (6 - List.length fraction))))
    | None => Ok micros
    end;
  if negative then ok_or overflows (i64_checked (- micros)) else Ok micros.

(** ** The variant attributes *)

(** The list is cut at the commas outside quotes; [None]: a quote is left open. *)
Fixpoint attribute_items (quoted : bool) (value : bytes) : option (list bytes) :=
  match value with
  | [] => if quoted then None else Some [[]]
  | b :: value =>
      if (b =? COMMA) && negb quoted then cons [] <$> attribute_items quoted value
      else
        items ← attribute_items (if b =? QUOTE then negb quoted else quoted) value;
        Some (match items with h :: t => (b :: h) :: t | [] => [[b]] end)
  end.

Definition key_bad (key : bytes) : bool :=
  bool_decide (key = [])
  || negb (forallb (fun b => is_upper b || is_digit b || (b =? 45)) key).

Fixpoint read_attributes (line : nat) (items keys : list bytes) (bandwidth : option Z)
  : Answer (option Z) :=
  match items with
  | [] => Ok bandwidth
  | item :: items =>
      '(key, raw_value) ←
        ok_or (Malformed line "variant attribute has no value") (split_once EQUALS item);
      _ ← refuse (Malformed line "invalid or duplicate variant attribute")
             (key_bad key || bool_decide (raw_value = []) || bool_decide (key ∈ keys));
      let quoted_value := starts_with [QUOTE] raw_value in
      _ ← (if quoted_value then
             refuse (Malformed line "malformed quoted variant attribute")
               ((List.length raw_value <? 2)%nat || negb (ends_with [QUOTE] raw_value)
                || contains QUOTE (removelast (drop 1 raw_value)))
           else
             refuse (Malformed line "malformed variant attribute value")
               (contains QUOTE raw_value || existsb is_ascii_whitespace raw_value));
      bandwidth ←
        (if bool_decide (key = lit "BANDWIDTH") then
           _ ← refuse (Malformed line "bandwidth must be an integer") quoted_value;
           Some <$> parse_positive_u64 raw_value line "invalid bandwidth"
         else Ok bandwidth);
      read_attributes line items (keys ++ [key]) bandwidth
  end.

Definition parse_variant_bandwidth (value : bytes) (line : nat) : Answer Z :=
  _ ← refuse (Malformed line "empty variant attribute list") (bool_decide (value = []));
  items ← ok_or (Malformed line "unterminated quoted variant attribute") (attribute_items false value);
  bandwidth ← read_attributes line items [] None;
  ok_or (Malformed line "variant has no bandwidth") bandwidth.

(** ** The master playlist *)

Record MasterState := mk_master_state {
  ms_version : option Z;
  ms_independent : bool;
  ms_bandwidth : option Z;
  ms_variant : option Variant
}.
#[export] Instance eta_master_state : Eta MasterState := fun s =>
  mk_master_state (ms_version s) (ms_independent s) (ms_bandwidth s) (ms_variant s).

Definition allow_cache_ok (value : bytes) : bool :=
  bool_decide (value = lit "YES") || bool_decide (value = lit "NO").

(** The tags no reader knows, and the ones both refuse. *)
Definition other_tag {S} (line_no : nat) (line : bytes) (s : S) : Answer S :=
  if bool_decide (line = lit "#EXTM3U") then malformed line_no "duplicate header"
  else
    match forbidden_feature line with
    | Some feature => Err (UnsupportedFeature feature)
    | None =>
        if starts_with (lit "#EXT") line then Err (UnsupportedTag (tag_name line)) else Ok s
    end.

Definition master_tag (line_no : nat) (line : bytes) (s : MasterState) : Answer MasterState :=
  match strip_prefix (lit "#EXT-X-STREAM-INF:") line with
  | Some value =>
      _ ← refuse MultipleVariants (is_some (ms_variant s));
      bandwidth ← parse_variant_bandwidth value line_no;
      Ok (s <| ms_bandwidth := Some bandwidth |>)
  | None =>
  match strip_prefix (lit "#EXT-X-VERSION:") line with
  | Some value =>
      value ← parse_positive_u32 value line_no;
      version ← set_once (ms_version s) value line_no "duplicate version";
      Ok (s <| ms_version := version |>)
  | None =>
  if bool_decide (line = lit "#EXT-X-INDEPENDENT-SEGMENTS") then
    if ms_independent s then malformed line_no "duplicate independent-segments tag"
    else Ok (s <| ms_independent := true |>)
  else
  match strip_prefix (lit "#EXT-X-ALLOW-CACHE:") line with
  | Some value =>
      if allow_cache_ok value then Ok s else malformed line_no "invalid allow-cache value"
  | None => other_tag line_no line s
  end end end.

Definition variant_missing (line_no : nat) (s : MasterState) : Answer unit :=
  match ms_bandwidth s with
  | Some _ => malformed line_no "variant URI must immediately follow EXT-X-STREAM-INF"
  | None => Ok tt
  end.

Definition master_line (source : Resource) (line_no : nat) (line : bytes) (s : MasterState)
  : Answer MasterState :=
  match line with
  | [] => _ ← variant_missing line_no s; Ok s
  | b :: _ =>
      if b =? HASH then _ ← variant_missing line_no s; master_tag line_no line s
      else
        bandwidth ← ok_or (Malformed line_no "URI has no EXT-X-STREAM-INF") (ms_bandwidth s);
        _ ← refuse MultipleVariants (is_some (ms_variant s));
        resource ← resolve source line;
        _ ← refuse ChildIsNotPlaylist
               (negb (ends_with (lit ".m3u8") (path_without_query (res_path resource))));
        Ok (s <| ms_bandwidth := None |> <| ms_variant := Some (mk_variant resource bandwidth) |>)
  end.

Definition parse_master (source : Resource) (text : bytes) : Answer MasterPlaylist :=
  lines ← playlist_lines text;
  s ← each_line (master_line source) (drop 1 lines) (mk_master_state None false None None);
  _ ← refuse (Malformed 0 "EXT-X-STREAM-INF has no URI") (is_some (ms_bandwidth s));
  variant ← ok_or MissingVariant (ms_variant s);
  Ok (mk_master source (ms_version s) variant).

(** ** The media playlist *)

Record MediaState := mk_media_state {
  md_version : option Z;
  md_target_duration : option Z;
  md_start_offset : option Z;
  md_media_sequence : option Z;
  md_playlist_type : option PlaylistType;
  md_independent : bool;
  md_pending_duration : option Z;
  md_pending_program_time : bool;
  md_segments : list Segment;
  md_end_list : bool
}.
#[export] Instance eta_media_state : Eta MediaState := fun s =>
  mk_media_state (md_version s) (md_target_duration s) (md_start_offset s) (md_media_sequence s)
    (md_playlist_type s) (md_independent s) (md_pending_duration s) (md_pending_program_time s)
    (md_segments s) (md_end_list s).

Definition media_state_new : MediaState :=
  mk_media_state None None None None None false None false [] false.

Definition segment_missing (line_no : nat) (s : MediaState) : Answer unit :=
  match md_pending_duration s with
  | Some _ => malformed line_no "segment URI must immediately follow EXTINF"
  | None => Ok tt
  end.

Definition playlist_type_of (value : bytes) (line_no : nat) : Answer PlaylistType :=
  if bool_decide (value = lit "EVENT") then Ok Type_Event
  else if bool_decide (value = lit "VOD") then Ok Type_Vod
  else malformed line_no "invalid playlist type".

(** The tags of the media playlist, in the order of the source's tests. *)
Definition media_tag (line_no : nat) (line : bytes) (s : MediaState) : Answer MediaState :=
  match strip_prefix (lit "#EXT-X-VERSION:") line with
  | Some value =>
      value ← parse_positive_u32 value line_no;
      version ← set_once (md_version s) value line_no "duplicate version";
      Ok (s <| md_version := version |>)
  | None =>
  match strip_prefix (lit "#EXT-X-TARGETDURATION:") line with
  | Some value =>
      value ← parse_positive_u64 value line_no "invalid target duration";
      target ← set_once (md_target_duration s) value line_no "duplicate target duration";
      Ok (s <| md_target_duration := target |>)
  | None =>
  match strip_prefix (lit "#EXT-X-START:") line with
  | Some value =>
      value ← ok_or (Malformed line_no "invalid start attributes")
                (strip_prefix (lit "TIME-OFFSET=") value);
      value ← parse_signed_decimal_micros value line_no;
      start ← set_once (md_start_offset s) value line_no "duplicate start tag";
      Ok (s <| md_start_offset := start |>)
  | None =>
  match strip_prefix (lit "#EXT-X-MEDIA-SEQUENCE:") line with
  | Some value =>
      value ← parse_u64 value line_no "invalid media sequence";
      sequence ← set_once (md_media_sequence s) value line_no "duplicate media sequence";
      Ok (s <| md_media_sequence := sequence |>)
  | None =>
  match strip_prefix (lit "#EXT-X-PLAYLIST-TYPE:") line with
  | Some value =>
      value ← playlist_type_of value line_no;
      type ← set_once (md_playlist_type s) value line_no "duplicate playlist type";
      Ok (s <| md_playlist_type := type |>)
  | None =>
  match strip_prefix (lit "#EXT-X-PROGRAM-DATE-TIME:") line with
  | Some value =>
      _ ← refuse (Malformed line_no "invalid program date-time")
             (bool_decide (value = [])
              || existsb (fun b => is_ascii_whitespace b || is_ascii_control b) value);
      if md_pending_program_time s
      then malformed line_no "two program date-times precede one segment"
      else Ok (s <| md_pending_program_time := true |>)
  | None =>
  match strip_prefix (lit "#EXTINF:") line with
  | Some value =>
      _ ← refuse (Malformed line_no "target duration and media sequence must precede segments")
             (negb (is_some (md_target_duration s)) || negb (is_some (md_media_sequence s)));
      duration ← parse_extinf value line_no;
      Ok (s <| md_pending_duration := Some duration |>)
  | None =>
  if bool_decide (line = lit "#EXT-X-INDEPENDENT-SEGMENTS") then
    if md_independent s then malformed line_no "duplicate independent-segments tag"
    else Ok (s <| md_independent := true |>)
  else
  match strip_prefix (lit "#EXT-X-ALLOW-CACHE:") line with
  | Some value =>
      if allow_cache_ok value then Ok s else malformed line_no "invalid allow-cache value"
  | None =>
  if bool_decide (line = lit "#EXT-X-ENDLIST") then
    if md_pending_program_time s then malformed line_no "program date-time has no segment"
    else Ok (s <| md_end_list := true |>)
  else other_tag line_no line s
  end end end end end end end end.

(** A URI line: the [expect] is the one on the media sequence. *)
Definition media_segment (source : Resource) (line_no : nat) (line : bytes) (s : MediaState)
  : Answer MediaState :=
  duration ← ok_or (Malformed line_no "segment URI has no EXTINF") (md_pending_duration s);
  media_sequence ← expect (md_media_sequence s);
  sequence ← ok_or SequenceOverflow
               (u64_checked (media_sequence + Z.of_nat (List.length (md_segments s))));
  resource ← resolve source line;
  _ ← refuse SegmentIsNotMpegTs
         (negb (ends_with (lit ".ts") (to_ascii_lowercase (path_without_query (res_path resource)))));
  Ok (s <| md_pending_duration := None |>
        <| md_segments := md_segments s ++ [mk_segment sequence duration resource] |>
        <| md_pending_program_time := false |>).

Definition media_line (source : Resource) (line_no : nat) (line : bytes) (s : MediaState)
  : Answer MediaState :=
  match line with
  | [] => _ ← segment_missing line_no s; Ok s
  | b :: _ =>
      if md_end_list s then
        if (b =? HASH) && negb (starts_with (lit "#EXT") line) then Ok s
        else malformed line_no "content follows EXT-X-ENDLIST"
      else if b =? HASH then _ ← segment_missing line_no s; media_tag line_no line s
      else media_segment source line_no line s
  end.

Definition parse_media (source : Resource) (text : bytes) : Answer MediaPlaylist :=
  lines ← playlist_lines text;
  s ← each_line (media_line source) (drop 1 lines) media_state_new;
  _ ← refuse (Malformed 0 "EXTINF has no segment URI") (is_some (md_pending_duration s));
  _ ← refuse (Malformed 0 "program date-time has no segment") (md_pending_program_time s);
  target ← ok_or MissingTargetDuration (md_target_duration s);
  media_sequence ← ok_or MissingMediaSequence (md_media_sequence s);
  _ ← ok_or SequenceOverflow
         (u64_checked (media_sequence + Z.of_nat (List.length (md_segments s))));
  Ok (mk_media source (md_version s) target (md_start_offset s) media_sequence
        (md_playlist_type s) (md_segments s) (md_end_list s)).

(** ** What the readers accept *)

Lemma parse_digits_nonneg max s n : parse_digits max s = Some n -> 0 <= n <= max.
Proof.
  unfold parse_digits. destruct s as [|b s]; [done|].
  destruct (forallb is_digit (b :: s)) eqn:Hd; [|done].
  destruct (Z.leb_spec (digits_value (b :: s)) max); [|done]. intros [= <-]. split; [|done].
  unfold digits_value. revert Hd. generalize (b :: s) as l.
  assert (Hf : forall l acc, 0 <= acc -> forallb is_digit l = true ->
            0 <= fold_left (fun acc b => acc * 10 + (b - 48)) l acc).
  { induction l as [|c l IH]; intros acc Hacc Hd; cbn in *; [done|].
    apply andb_true_iff in Hd as [Hc Hl]. unfold is_digit in Hc.
    apply andb_true_iff in Hc as [?%Z.leb_le _]. apply IH; [lia|done]. }
  intros l Hl. by apply Hf.
Qed.

Lemma parse_positive_u32_Ok s n v : parse_positive_u32 s n = Ok v -> 1 <= v <= u32_max.
Proof.
  unfold parse_positive_u32. intros H. outcomes. apply parse_digits_nonneg in H.
  destruct (Z.eqb_spec x 0); [done|]. injection H0 as <-. lia.
Qed.

Lemma parse_u64_Ok s n r v : parse_u64 s n r = Ok v -> 0 <= v <= u64_max.
Proof. unfold parse_u64. intros H. outcomes. by eapply parse_digits_nonneg. Qed.

Lemma parse_positive_u64_Ok s n r v : parse_positive_u64 s n r = Ok v -> 1 <= v <= u64_max.
Proof.
  unfold parse_positive_u64. intros H. outcomes. apply parse_u64_Ok in H.
  destruct (Z.eqb_spec x 0); [done|]. injection H0 as <-. lia.
Qed.

Lemma forallb_digits s : forallb is_digit s = true -> Forall (fun b => 48 <= b <= 57) s.
Proof.
  intros H. rewrite forallb_forall in H. apply Forall_forall. intros b Hb.
  apply list_elem_of_In, H in Hb. unfold is_digit in Hb.
  by apply andb_true_iff in Hb as [?%Z.leb_le ?%Z.leb_le].
Qed.

Lemma digits_value_bound s : Forall (fun b => 48 <= b <= 57) s ->
  0 <= digits_value s < 10 ^ Z.of_nat (List.length s).
Proof.
  induction s as [|b s IH] using rev_ind; [done|]. rewrite Forall_app. intros [Hs Hb].
  apply Forall_inv in Hb. specialize (IH Hs).
  rewrite digits_value_snoc, length_app. cbn [List.length].
  rewrite Nat2Z.inj_add, Z.pow_add_r by lia. change (10 ^ Z.of_nat 1) with 10. lia.
Qed.

(** A fraction of at most [k] digits, scaled to [k] places, is below one. *)
Lemma fraction_scaled k s n max : fraction_bad k s = false -> parse_digits max s = Some n ->
  0 <= n * 10 ^ Z.of_nat (k - List.length s) < 10 ^ Z.of_nat k.
Proof.
  unfold fraction_bad. rewrite !orb_false_iff, negb_false_iff. intros [[_ Hlen%Nat.ltb_ge] Hd] H.
  assert (n = digits_value s) as ->.
  { unfold parse_digits in H. destruct s; [done|]. rewrite Hd in H. destruct (_ <=? _); by simplify_eq. }
  pose proof (digits_value_bound s (forallb_digits s Hd)) as Hb.
  replace (10 ^ Z.of_nat k) with (10 ^ Z.of_nat (List.length s) * 10 ^ Z.of_nat (k - List.length s))
    by (rewrite <- Z.pow_add_r by lia; f_equal; lia).
  assert (0 < 10 ^ Z.of_nat (k - List.length s)) by (apply Z.pow_pos_nonneg; lia). nia.
Qed.

(** The duration of an EXTINF: positive, and within [Duration]. *)
Lemma parse_extinf_Ok s n d : parse_extinf s n = Ok d -> 0 < d <= u64_max * 1000000000 + 999999999.
Proof.
  unfold parse_extinf. intros H. outcomes. destruct x as [number rest].
  destruct (cut_fraction number) as [seconds fraction]. outcomes.
  match goal with H : parse_digits _ _ = Some x0 |- _ => apply parse_digits_nonneg in H end.
  assert (Hn : 0 <= x1 < 1000000000).
  { destruct fraction as [f|]; outcomes; simplify_eq; [|lia].
    match goal with Hf : fraction_bad _ _ = false, Hd : parse_digits u32_max _ = Some _ |- _ =>
      pose proof (fraction_scaled _ _ _ _ Hf Hd) as Hs end.
    change (10 ^ Z.of_nat 9) with 1000000000 in Hs. rewrite u32_wrap_small by ints. lia. }
  destruct (Z.eqb_spec x0 0), (Z.eqb_spec x1 0); cbn in *; simplify_eq; lia.
Qed.

Lemma parse_signed_decimal_micros_Ok s n m : parse_signed_decimal_micros s n = Ok m -> is_i64 m.
Proof.
  unfold parse_signed_decimal_micros. intros H.
  destruct (match strip_prefix [45] s with Some v => (true, v) | None => (false, s) end) as [neg v].
  destruct (cut_fraction v) as [seconds fraction]. outcomes.
  rewrite i64_checked_Some in *. destruct neg, fraction as [f|]; outcomes; simplify_eq;
    rewrite ?i64_checked_Some in *; intuition congruence.
Qed.

(** A segment as the reader accepts it. *)
Record segment_ok (source : Resource) (media_sequence : Z) (index : nat) (s : Segment) : Prop := {
  so_sequence : sg_sequence s = media_sequence + Z.of_nat index;
  so_bound : sg_sequence s <= u64_max;
  so_duration : 0 < sg_duration s <= u64_max * 1000000000 + 999999999;
  so_origin : res_origin (sg_resource s) = res_origin source;
  so_path : path_ok (res_path (sg_resource s));
  so_ts : ends_with (lit ".ts") (to_ascii_lowercase (path_without_query (res_path (sg_resource s)))) = true
}.

Record media_state_ok (source : Resource) (s : MediaState) : Prop := {
  mo_version : forall v, md_version s = Some v -> 1 <= v <= u32_max;
  mo_target : forall v, md_target_duration s = Some v -> 1 <= v <= u64_max;
  mo_start : forall v, md_start_offset s = Some v -> is_i64 v;
  mo_sequence : forall v, md_media_sequence s = Some v -> 0 <= v <= u64_max;
  mo_pending : forall d, md_pending_duration s = Some d ->
    0 < d <= u64_max * 1000000000 + 999999999 /\ is_Some (md_media_sequence s);
  mo_segments : forall i g, md_segments s !! i = Some g ->
    exists q, md_media_sequence s = Some q /\ segment_ok source q i g
}.

Lemma set_once_Ok {A} (slot : option A) v n r slot' :
  set_once slot v n r = Ok slot' -> slot = None /\ slot' = Some v.
Proof. destruct slot; cbn; intros; by simplify_eq. Qed.

Lemma set_once_not_Panics {A} (slot : option A) v n r : set_once slot v n r <> Panics.
Proof. by destruct slot. Qed.

Lemma parse_extinf_not_Panics s n : parse_extinf s n <> Panics.
Proof.
  unfold parse_extinf. no_panic. destruct a as [number rest].
  destruct (cut_fraction number) as [sec [f|]]; no_panic; by destruct (_ && _).
Qed.

Lemma parse_u64_not_Panics s n r : parse_u64 s n r <> Panics.
Proof. unfold parse_u64. no_panic. Qed.

Lemma parse_signed_decimal_micros_not_Panics s n : parse_signed_decimal_micros s n <> Panics.
Proof.
  unfold parse_signed_decimal_micros. destruct (strip_prefix [45] s); destruct (cut_fraction _) as [? [|]];
    no_panic.
Qed.

Lemma parse_positive_u64_not_Panics s n r : parse_positive_u64 s n r <> Panics.
Proof. unfold parse_positive_u64. apply bind_Panics; [apply parse_u64_not_Panics|]. intros a _. by destruct (a =? 0). Qed.

Lemma parse_positive_u32_not_Panics s n : parse_positive_u32 s n <> Panics.
Proof. unfold parse_positive_u32. no_panic. by destruct (a =? 0). Qed.

Lemma other_tag_not_Panics {S} n l (s : S) : other_tag n l s <> Panics.
Proof.
  unfold other_tag. case_bool_decide; [done|]. destruct (forbidden_feature l); [done|].
  by destruct (starts_with _ l).
Qed.

Lemma other_tag_Ok {S} n l (s s' : S) : other_tag n l s = Ok s' -> s' = s /\ forbidden_feature l = None.
Proof.
  unfold other_tag. case_bool_decide; [done|]. destruct (forbidden_feature l); [done|].
  destruct (starts_with _ l); [done|]. by intros [= <-].
Qed.

Lemma playlist_type_of_not_Panics v n : playlist_type_of v n <> Panics.
Proof. unfold playlist_type_of. by repeat case_bool_decide. Qed.

#[export] Hint Resolve set_once_not_Panics parse_extinf_not_Panics parse_u64_not_Panics
  parse_signed_decimal_micros_not_Panics parse_positive_u64_not_Panics parse_positive_u32_not_Panics
  other_tag_not_Panics playlist_type_of_not_Panics : panics.

(** [tags H]: the branches of a tag dispatch. *)
Ltac tags H :=
  repeat lazymatch type of H with
  | match strip_prefix ?p ?l with _ => _ end = _ =>
      destruct (strip_prefix p l) as [?value|] eqn:?
  | (if ?b then _ else _) = _ => destruct b eqn:?
  end.

Ltac forget_tags :=
  repeat match goal with
  | H : strip_prefix _ _ = _ |- _ => clear H
  | H : bool_decide (_ = lit _) = _ |- _ => clear H
  end.

Lemma media_tag_not_Panics n l s : media_tag n l s <> Panics.
Proof.
  intros H. unfold media_tag in H. tags H; revert H; no_panic;
    [by destruct (md_pending_program_time s)|apply other_tag_not_Panics].
Qed.

Lemma media_tag_ok source n l s s' :
  media_state_ok source s -> media_tag n l s = Ok s' -> media_state_ok source s'.
Proof.
  intros Hok H. unfold media_tag in H. tags H; forget_tags; outcomes;
    try (destruct (md_pending_program_time s); [done|]);
    repeat match goal with H : set_once _ _ _ _ = Ok _ |- _ => apply set_once_Ok in H as [? ->] end;
    try (apply other_tag_Ok in H as [-> _]); simplify_eq; try done;
    destruct Hok as [Hv Ht Hst Hsq Hpd Hsg]; split; cbn; try done; try (intros ? [= <-]).
  - by eapply parse_positive_u32_Ok.
  - by eapply parse_positive_u64_Ok.
  - by eapply parse_signed_decimal_micros_Ok.
  - by eapply parse_u64_Ok.
  - intros d Hd. destruct (Hpd d Hd) as [? [? Hq]]. congruence.
  - intros i g Hg. destruct (Hsg i g Hg) as (? & ? & ?). congruence.
  - split; [by eapply parse_extinf_Ok|]. rewrite orb_false_iff, !negb_false_iff in *.
    destruct (md_media_sequence s); [done|]. by destruct H.
Qed.

Lemma media_segment_ok source n l s s' :
  media_state_ok source s -> media_segment source n l s = Ok s' -> media_state_ok source s'.
Proof.
  intros [Hv Ht Hst Hsq Hpd Hsg] H. unfold media_segment in H. outcomes. simplify_eq.
  match goal with H : u64_checked _ = Some _ |- _ => apply checked_Some in H as [-> Hsum] end.
  match goal with H : negb _ = false |- _ => apply negb_false_iff in H end.
  match goal with H : resolve _ _ = Ok _ |- _ => apply resolve_Ok in H as [Ho Hp] end.
  destruct (Hpd _ H) as [Hd _].
  split; cbn; try done; try (intros ? [= <-]). intros i g Hg.
  apply lookup_app_Some in Hg as [Hg|[Hlen Hg]]; [by apply Hsg|].
  apply list_lookup_singleton_Some in Hg as [Hi <-]. exists x0. split; [done|].
  assert (i = List.length (md_segments s)) as -> by lia. by split; cbn; [| |destruct Hd| | |]; try lia.
Qed.

Lemma media_segment_not_Panics source n l s :
  media_state_ok source s -> media_segment source n l s <> Panics.
Proof.
  intros Hok. unfold media_segment. apply bind_Panics; [auto with panics|]. intros d Hd. outcomes.
  destruct (mo_pending _ _ Hok d Hd) as [_ [q Hq]]. rewrite Hq. cbn [expect mbind outcome_bind].
  no_panic.
Qed.

Lemma media_line_ok source n l s :
  media_state_ok source s ->
  media_line source n l s <> Panics
  /\ forall s', media_line source n l s = Ok s' -> media_state_ok source s'.
Proof.
  intros Hok. unfold media_line, segment_missing. destruct l as [|b l].
  - destruct (md_pending_duration s); cbn; [done|]. split; [done|]. by intros s' [= <-].
  - destruct (md_end_list s); [destruct (_ && _); [split; [done|]; by intros s' [= <-]|done]|].
    destruct (b =? HASH).
    + destruct (md_pending_duration s); cbn [mbind outcome_bind]; [done|].
      split; [apply media_tag_not_Panics|]. intros s'. by apply media_tag_ok.
    + split; [by apply media_segment_not_Panics|]. intros s'. by apply media_segment_ok.
Qed.

(** The loop keeps what every step keeps. *)
Lemma each_line_ok {S} (I : S -> Prop) step :
  (forall n l s, I s -> step n l s <> Panics /\ forall s', step n l s = Ok s' -> I s') ->
  forall lines s, I s ->
  each_line step lines s <> Panics /\ forall s', each_line step lines s = Ok s' -> I s'.
Proof.
  intros Hstep lines. induction lines as [|[n l] lines IH]; intros s Hs; cbn.
  - split; [done|]. by intros s' [= <-].
  - destruct (Hstep n l s Hs) as [Hp Ho].
    destruct (step n l s) as [s1| |]; cbn; [|done|done]. by apply IH, Ho.
Qed.

Lemma read_lines_not_Panics raws : forall n, read_lines n raws <> Panics.
Proof.
  induction raws as [|raw raws IH]; intros n; cbn [read_lines]; [done|].
  destruct (_ || _); [done|]. destruct (negb _); [done|]. apply bind_Panics; [apply IH|done].
Qed.

Lemma playlist_lines_not_Panics text : playlist_lines text <> Panics.
Proof. unfold playlist_lines. apply bind_Panics; [apply read_lines_not_Panics|]. intros. no_panic. Qed.
#[export] Hint Resolve playlist_lines_not_Panics : panics.

Lemma media_state_new_ok source : media_state_ok source media_state_new.
Proof. split; cbn; try done. Qed.

Lemma parse_media_not_Panics source text : parse_media source text <> Panics.
Proof.
  unfold parse_media. apply bind_Panics; [auto with panics|]. intros lines _.
  apply bind_Panics; [|intros; no_panic].
  exact (proj1 (each_line_ok _ _ (media_line_ok source) _ _ (media_state_new_ok source))).
Qed.

(** C38. What the media reader accepts.  On any text it answers without a panic, and a playlist it
    accepts is what the worker relies on: its segments are numbered without a gap from the media
    sequence and the number after the last one is a 64-bit integer, each lasts a positive time and
    is a [.ts] resource in normal form on the origin of the playlist, and the target duration, the
    version and the start offset are in the range of their types. *)
Theorem accepted_media_is_well_formed source text :
  parse_media source text <> Panics
  /\ forall p, parse_media source text = Ok p ->
     mp_source p = source
     /\ 1 <= mp_target_duration_secs p <= u64_max
     /\ (forall v, mp_version p = Some v -> 1 <= v <= u32_max)
     /\ (forall v, mp_start_offset_micros p = Some v -> is_i64 v)
     /\ 0 <= mp_media_sequence p
     /\ mp_media_sequence p + Z.of_nat (List.length (mp_segments p)) <= u64_max
     /\ forall i s, mp_segments p !! i = Some s -> segment_ok source (mp_media_sequence p) i s.
Proof.
  split; [apply parse_media_not_Panics|]. unfold parse_media.
  pose proof (each_line_ok (media_state_ok source) (media_line source) (media_line_ok source)) as Hloop.
  intros p H. outcomes. simplify_eq.
  apply (proj2 (Hloop _ _ (media_state_new_ok source))) in H0 as [Hv Ht Hst Hsq Hpd Hsg].
  cbn. apply checked_Some in H5 as [-> Hsum]. specialize (Ht _ H3). specialize (Hsq _ H4).
  split_and!; try done; try lia. intros i g Hg. destruct (Hsg i g Hg) as (q & Hq & Hok). congruence.
Qed.

(** ** What the readers refuse *)

(** A line of the text, as the readers see it. *)
Definition chomp (raw : bytes) : bytes := default raw (strip_suffix [CR] raw).

Definition common_tags : list bytes :=
  lit <$> ["#EXTM3U"; "#EXT-X-VERSION"; "#EXT-X-INDEPENDENT-SEGMENTS"; "#EXT-X-ALLOW-CACHE"]%string.
Definition master_tags : list bytes := common_tags ++ (lit <$> ["#EXT-X-STREAM-INF"]%string).
Definition media_tags : list bytes :=
  common_tags
  ++ (lit <$> ["#EXT-X-TARGETDURATION"; "#EXT-X-START"; "#EXT-X-MEDIA-SEQUENCE";
               "#EXT-X-PLAYLIST-TYPE"; "#EXT-X-PROGRAM-DATE-TIME"; "#EXTINF"; "#EXT-X-ENDLIST"]%string).

Definition is_tag (line : bytes) : Prop := starts_with (lit "#EXT") line = true.

Lemma is_tag_cons l : is_tag l -> exists r, l = HASH :: r.
Proof. intros [r ->]%starts_with_spec. by eexists. Qed.

Lemma read_lines_Ok raws : forall n lines, read_lines n raws = Ok lines ->
  snd <$> lines = chomp <$> raws.
Proof.
  induction raws as [|raw raws IH]; intros n lines; cbn [read_lines]; [by intros [= <-]|].
  destruct (_ || _); [done|]. destruct (negb _); [done|]. intros H. outcomes. simplify_eq.
  cbn. f_equal. eauto.
Qed.

Lemma playlist_lines_Ok text lines : playlist_lines text = Ok lines ->
  snd <$> lines = chomp <$> split LF text /\ snd <$> head lines = Some (lit "#EXTM3U").
Proof.
  unfold playlist_lines. intros H. outcomes. simplify_eq. split; [by eapply read_lines_Ok|].
  match goal with H : negb _ = false |- _ => by apply negb_false_iff, bool_decide_eq_true in H end.
Qed.

Lemma each_line_refuses {S} (step : nat -> bytes -> S -> Answer S) lines l :
  l ∈ snd <$> lines -> (forall n s s', step n l s <> Ok s') ->
  forall s s', each_line step lines s <> Ok s'.
Proof.
  intros Hin Hstep. induction lines as [|[n x] lines IH]; intros s s'; cbn in *; [by apply elem_of_nil in Hin|].
  intros H. outcomes. apply elem_of_cons in Hin as [->|Hin]; [by eapply Hstep|]. by eapply IH.
Qed.

(** [decided]: a closed decidable proposition, by computation. *)
Ltac decided := apply (bool_decide_unpack _); vm_compute; exact I.

Lemma media_tag_known n l s s' : is_tag l -> media_tag n l s = Ok s' -> tag_name l ∈ media_tags.
Proof.
  intros Ht H. unfold media_tag in H. tags H.
  all: try match goal with
    | H : strip_prefix _ _ = Some _ |- _ => apply strip_prefix_Some in H as ->; decided
    | H : bool_decide _ = true |- _ => apply bool_decide_eq_true in H as ->; decided
    end.
  unfold other_tag in H. case_bool_decide; [done|]. destruct (forbidden_feature l); [done|].
  unfold is_tag in Ht. by rewrite Ht in H.
Qed.

Lemma master_tag_known n l s s' : is_tag l -> master_tag n l s = Ok s' -> tag_name l ∈ master_tags.
Proof.
  intros Ht H. unfold master_tag in H. tags H.
  all: try match goal with
    | H : strip_prefix _ _ = Some _ |- _ => apply strip_prefix_Some in H as ->; decided
    | H : bool_decide _ = true |- _ => apply bool_decide_eq_true in H as ->; decided
    end.
  unfold other_tag in H. case_bool_decide; [done|]. destruct (forbidden_feature l); [done|].
  unfold is_tag in Ht. by rewrite Ht in H.
Qed.

Lemma media_line_refuses source n l s s' :
  is_tag l -> tag_name l ∉ media_tags -> media_line source n l s <> Ok s'.
Proof.
  intros Ht Hl H. destruct (is_tag_cons l Ht) as [r Hr]. unfold media_line in H. rewrite Hr in H.
  rewrite Z.eqb_refl, <- Hr in H. unfold is_tag in Ht. rewrite Ht in H. cbn [andb negb] in H.
  destruct (md_end_list s); [done|]. outcomes. by apply media_tag_known in H0.
Qed.

Lemma master_line_refuses source n l s s' :
  is_tag l -> tag_name l ∉ master_tags -> master_line source n l s <> Ok s'.
Proof.
  intros Ht Hl H. destruct (is_tag_cons l Ht) as [r Hr]. unfold master_line in H. rewrite Hr in H.
  rewrite Z.eqb_refl, <- Hr in H. outcomes. by apply master_tag_known in H0.
Qed.

Lemma master_line_not_Panics source n l s : master_line source n l s <> Panics.
Proof.
  unfold master_line, variant_missing. destruct l as [|b l]; [by destruct (ms_bandwidth s)|].
  destruct (b =? HASH); [|no_panic]. destruct (ms_bandwidth s); cbn [mbind outcome_bind]; [done|].
  intros H. unfold master_tag in H. tags H; revert H; no_panic; [|apply other_tag_not_Panics].
  unfold parse_variant_bandwidth. no_panic.
  assert (Ha : forall items keys bw, read_attributes n items keys bw <> Panics); [|apply Ha].
  induction items as [|item items IH]; intros keys bw; cbn [read_attributes]; [done|].
  apply bind_Panics; [auto with panics|]. intros [key raw_value] _.
  apply bind_Panics; [auto with panics|]. intros _ _.
  apply bind_Panics; [destruct (starts_with _ _); auto with panics|]. intros _ _.
  apply bind_Panics; [|intros; apply IH].
  destruct (bool_decide (key = lit "BANDWIDTH")); [|done].
  apply bind_Panics; [auto with panics|]. intros _ _.
  pose proof (parse_positive_u64_not_Panics raw_value n "invalid bandwidth").
  by destruct (parse_positive_u64 _ _ _).
Qed.

Lemma parse_master_not_Panics source text : parse_master source text <> Panics.
Proof.
  unfold parse_master. apply bind_Panics; [auto with panics|]. intros lines _.
  apply bind_Panics; [|intros; no_panic].
  apply (each_line_ok (fun _ => True)); [|done]. intros. split; [apply master_line_not_Panics|done].
Qed.

(** A line after the header that every step refuses leaves no accepted playlist. *)
Lemma refused_line {S A} (step : nat -> bytes -> S -> Answer S) s (k : S -> Answer A) text raw :
  raw ∈ split LF text -> chomp raw <> lit "#EXTM3U" ->
  (forall n s s', step n (chomp raw) s <> Ok s') ->
  forall a, (lines ← playlist_lines text; s ← each_line step (drop 1 lines) s; k s) <> Ok a.
Proof.
  intros Hraw Hhead Hstep a H. outcomes. destruct (playlist_lines_Ok _ _ H) as [Hlines Hfirst].
  assert (Hin : chomp raw ∈ snd <$> x) by (rewrite Hlines; by apply list_elem_of_fmap_2).
  destruct x as [|[n l] lines]; [done|]. cbn in Hin, Hfirst. injection Hfirst as ->.
  apply elem_of_cons in Hin as [Hin|Hin]; [done|]. exact (each_line_refuses _ _ _ Hin Hstep _ _ H0).
Qed.

(** What changes how bytes are assembled is refused.  A text with a tag the reader does not know,
    whatever stands before it, is an error and never a playlist: for the media reader that covers
    keys, byte ranges, initialization maps and discontinuities, whose tags are not among the
    known ones, and for the master reader the same. *)
Theorem unknown_tags_are_refused source text raw :
  raw ∈ split LF text -> is_tag (chomp raw) ->
  (tag_name (chomp raw) ∉ media_tags -> exists e, parse_media source text = Err e)
  /\ (tag_name (chomp raw) ∉ master_tags -> exists e, parse_master source text = Err e)
  /\ (forbidden_feature (chomp raw) <> None ->
      (tag_name (chomp raw) ∉ media_tags) /\ (tag_name (chomp raw) ∉ master_tags)).
Proof.
  intros Hraw Ht.
  assert (Hhead : forall tags : list bytes, lit "#EXTM3U" ∈ tags -> tag_name (chomp raw) ∉ tags ->
            chomp raw <> lit "#EXTM3U").
  { intros tags Hin Hout Heq. apply Hout. by rewrite Heq. }
  split; [|split].
  - intros Hn. destruct (parse_media source text) as [p|e|] eqn:E; [|by eauto|].
    + exfalso. revert E. unfold parse_media. eapply refused_line; [exact Hraw| |].
      * exact (Hhead media_tags ltac:(decided) Hn).
      * intros. by apply media_line_refuses.
    + by apply parse_media_not_Panics in E.
  - intros Hn. destruct (parse_master source text) as [p|e|] eqn:E; [|by eauto|].
    + exfalso. revert E. unfold parse_master. eapply refused_line; [exact Hraw| |].
      * exact (Hhead master_tags ltac:(decided) Hn).
      * intros. by apply master_line_refuses.
    + by apply parse_master_not_Panics in E.
  - unfold forbidden_feature. repeat case_bool_decide; cbn [orb]; try done;
      match goal with H : tag_name _ = _ |- _ => rewrite H end; intros _;
      split; decided.
Qed.
