(* ===== verification/HlsTracker.v ===== *)
(** * The use of a media playlist

    [play-feed/src/hls.rs]: the timeline the segments are laid on, the segment a session starts at,
    and the tracker that turns refreshes of a growing playlist into segments delivered once. *)

From Stdlib Require Import String.
From stdpp Require Import gmap.
From S2P Require Import Prelude Bytes Origin HlsUri HlsPlaylist.

#[local] Open Scope Z_scope.

(** ** The timeline *)

(** A segment's clock; the timeline itself is the start of the next segment. *)
Record SegmentClock := mk_segment_clock {
  sc_base_ns : Z;
  sc_next_start_ns : Z;
  sc_video_origin_ns : option Z;
  sc_audio_origin_ns : option Z
}.

Definition timeline_begin (next_start_ns duration : Z) : Answer SegmentClock :=
  duration_ns ← ok_or DurationOverflow (i64_checked duration);
  next ← ok_or DurationOverflow (i64_checked (next_start_ns + duration_ns));
  Ok (mk_segment_clock next_start_ns next None None).

Definition timeline_commit (clock : SegmentClock) : Z := sc_next_start_ns clock.

Definition segment_clock_end (clock : SegmentClock) : Z := Z.quot (sc_next_start_ns clock) 1000000.

(** The content time in milliseconds, and the origin the lane keeps. *)
Definition normalize_from (base_ns : Z) (origin : option Z) (raw_ns : Z) : Z * option Z :=
  let origin := default raw_ns origin in
  let relative := Z.max (i64_sat (raw_ns - origin)) 0 in
  (Z.quot (i64_sat (base_ns + relative)) 1000000, Some origin).

Definition normalize_video (raw_ns : Z) (c : SegmentClock) : Z * SegmentClock :=
  let '(t, origin) := normalize_from (sc_base_ns c) (sc_video_origin_ns c) raw_ns in
  (t, mk_segment_clock (sc_base_ns c) (sc_next_start_ns c) origin (sc_audio_origin_ns c)).

Definition normalize_audio (raw_ns : Z) (c : SegmentClock) : Z * SegmentClock :=
  let '(t, origin) := normalize_from (sc_base_ns c) (sc_audio_origin_ns c) raw_ns in
  (t, mk_segment_clock (sc_base_ns c) (sc_next_start_ns c) (sc_video_origin_ns c) origin).

(** ** The start of a session *)

Fixpoint try_total (total : Z) (segments : list Segment) : Answer Z :=
  match segments with
  | [] => Ok total
  | s :: segments =>
      total ← ok_or DurationOverflow (checked 0 duration_max (total + sg_duration s));
      try_total total segments
  end.

Definition total_duration (p : MediaPlaylist) : Answer Z := try_total 0 (mp_segments p).

Fixpoint start_search (target_ns elapsed_ns : Z) (index : nat) (segments : list Segment)
  : Answer nat :=
  match segments with
  | [] => Ok index
  | s :: segments =>
      elapsed_ns ← ok_or DurationOverflow (checked 0 u128_max (elapsed_ns + sg_duration s));
      if target_ns <? elapsed_ns then Ok index else start_search target_ns elapsed_ns (S index) segments
  end.

Definition preferred_start_index (p : MediaPlaylist) : Answer nat :=
  match mp_start_offset_micros p with
  | None => Ok 0%nat
  | Some offset_micros =>
      total_ns ← total_duration p;
      let magnitude_ns := u128_sat (Z.abs offset_micros * 1000) in
      let target_ns :=
        if offset_micros <? 0 then u128_sat (total_ns - magnitude_ns) else Z.min magnitude_ns total_ns in
      start_search target_ns 0 0 (mp_segments p)
  end.

(** ** The tracker *)

Record Refresh := mk_refresh { rf_new_segments : list Segment; rf_end_list : bool }.

(** The [BTreeMap] is only looked up and inserted into. *)
Record MediaTracker := mk_tracker {
  mt_source : option Resource;
  mt_next_sequence : option Z;
  mt_seen : gmap Z Segment;
  mt_ended : bool
}.

Definition tracker_new : MediaTracker := mk_tracker None None ∅ false.

(** The loop of validation: the segments not yet seen, and the next number expected. *)
Fixpoint find_additions (t : MediaTracker) (segments additions : list Segment) (expected : Z)
  : Answer (list Segment * Z) :=
  match segments with
  | [] => Ok (additions, expected)
  | s :: segments =>
      if sg_sequence s <? expected then
        match mt_seen t !! sg_sequence s with
        | Some previous =>
            if bool_decide (previous = s) then find_additions t segments additions expected
            else Err (SegmentChanged (sg_sequence s))
        | None => Err (UnknownOldSegment (sg_sequence s))
        end
      else if expected <? sg_sequence s then Err (SequenceGap expected (sg_sequence s))
      else if mt_ended t then Err (SegmentAfterEndList (sg_sequence s))
      else
        expected ← ok_or SequenceOverflow (u64_checked (expected + 1));
        find_additions t segments (additions ++ [s]) expected
  end.

Definition validate_refresh (t : MediaTracker) (p : MediaPlaylist) : Answer (list Segment * Z) :=
  _ ← refuse RefreshSourceChanged
         (match mt_source t with Some source => negb (bool_decide (source = mp_source p)) | None => false end);
  let expected := default (mp_media_sequence p) (mt_next_sequence t) in
  _ ← refuse (SequenceGap expected (mp_media_sequence p)) (expected <? mp_media_sequence p);
  '(additions, expected) ← find_additions t (mp_segments p) [] expected;
  playlist_next ← ok_or SequenceOverflow
                    (u64_checked (mp_media_sequence p + Z.of_nat (List.length (mp_segments p))));
  _ ← refuse StaleEndList (mp_end_list p && (playlist_next <? expected));
  Ok (additions, expected).

Definition insert_segment (seen : gmap Z Segment) (s : Segment) : gmap Z Segment :=
  <[sg_sequence s := s]> seen.

(** [&mut self]: the answer and the tracker after the call. *)
Definition tracker_apply (p : MediaPlaylist) (t : MediaTracker) : Answer Refresh * MediaTracker :=
  match validate_refresh t p with
  | Ok (additions, expected) =>
      let ended := mt_ended t || mp_end_list p in
      (Ok (mk_refresh additions ended),
       mk_tracker (Some (default (mp_source p) (mt_source t))) (Some expected)
         (fold_left insert_segment additions (mt_seen t)) ended)
  | Err e => (Err e, t)
  | Panics => (Panics, t)
  end.

(** ** The abstract tracker: one growing list of segments *)

Record Log := mk_log {
  lg_source : Resource;
  lg_first : Z;
  lg_segments : list Segment;
  lg_ended : bool
}.

Definition log_next (l : Log) : Z := lg_first l + Z.of_nat (List.length (lg_segments l)).

(** Segments numbered one by one. *)
Definition numbered (first : Z) (segments : list Segment) : Prop :=
  forall i s, segments !! i = Some s -> sg_sequence s = first + Z.of_nat i.

(** The log after a first playlist, before any of its segments. *)
Definition log_of (o : option Log) (p : MediaPlaylist) : Log :=
  default (mk_log (mp_source p) (mp_media_sequence p) [] false) o.

(** The part of a playlist behind the end of the log. *)
Definition fresh (l : Log) (p : MediaPlaylist) : list Segment :=
  drop (Z.to_nat (log_next l - mp_media_sequence p)) (mp_segments p).

(** A playlist continues a log: the same playlist, starting no later than the log ends, repeating
    what the log has, adding nothing once the stream ended, and not ending it before the log. *)
Record continues (l : Log) (p : MediaPlaylist) : Prop := {
  ct_source : lg_source l = mp_source p;
  ct_start : mp_media_sequence p <= log_next l;
  ct_repeats : forall i s, mp_segments p !! i = Some s ->
    mp_media_sequence p + Z.of_nat i < log_next l ->
    lg_first l <= mp_media_sequence p + Z.of_nat i
    /\ lg_segments l !! Z.to_nat (mp_media_sequence p + Z.of_nat i - lg_first l) = Some s;
  ct_over : lg_ended l = true -> fresh l p = [];
  ct_end : mp_end_list p = true ->
    log_next l <= mp_media_sequence p + Z.of_nat (List.length (mp_segments p))
}.

Definition log_apply (l : Log) (p : MediaPlaylist) : Log :=
  mk_log (lg_source l) (lg_first l) (lg_segments l ++ fresh l p) (lg_ended l || mp_end_list p).

(** The playlists the media reader accepts, as far as the tracker relies on them. *)
Record playlist_ok (p : MediaPlaylist) : Prop := {
  pl_sequence : 0 <= mp_media_sequence p;
  pl_numbered : numbered (mp_media_sequence p) (mp_segments p);
  pl_bound : mp_media_sequence p + Z.of_nat (List.length (mp_segments p)) <= u64_max
}.

(** A tracker represents a log, or nothing yet. *)
Definition represents (t : MediaTracker) (o : option Log) : Prop :=
  match o with
  | None => t = tracker_new
  | Some l =>
      mt_source t = Some (lg_source l)
      /\ mt_next_sequence t = Some (log_next l)
      /\ mt_ended t = lg_ended l
      /\ numbered (lg_first l) (lg_segments l)
      /\ 0 <= lg_first l /\ log_next l <= u64_max
      /\ forall k, mt_seen t !! k =
           if k <? lg_first l then None else lg_segments l !! Z.to_nat (k - lg_first l)
  end.

Lemma numbered_cons n s l : numbered n (s :: l) <-> sg_sequence s = n /\ numbered (n + 1) l.
Proof.
  split.
  - intros H. split; [specialize (H 0%nat s eq_refl); lia|]. intros i x Hx.
    specialize (H (S i) x Hx). lia.
  - intros [H1 H2] [|i] x Hx; cbn in Hx; [simplify_eq; lia|]. specialize (H2 i x Hx). lia.
Qed.

Lemma numbered_app n a b :
  numbered n (a ++ b) <-> numbered n a /\ numbered (n + Z.of_nat (List.length a)) b.
Proof.
  revert n. induction a as [|s a IH]; intros n; cbn [app List.length].
  - rewrite Z.add_0_r. split; [|by intros []]. intros H. split; [|done]. intros i s Hs.
    by rewrite lookup_nil in Hs.
  - rewrite !numbered_cons, IH, Nat2Z.inj_succ.
    replace (n + 1 + Z.of_nat (List.length a)) with (n + Z.succ (Z.of_nat (List.length a))) by lia.
    intuition.
Qed.

Lemma numbered_drop n k l : numbered n l -> numbered (n + Z.of_nat k) (drop k l).
Proof. intros H i s Hs. rewrite lookup_drop in Hs. specialize (H _ _ Hs). lia. Qed.

Lemma find_additions_spec t segments : forall n additions expected additions' expected',
  numbered n segments -> 0 <= n <= expected -> n + Z.of_nat (List.length segments) <= u64_max ->
  find_additions t segments additions expected = Ok (additions', expected') <->
  (forall i s, segments !! i = Some s -> n + Z.of_nat i < expected ->
     mt_seen t !! (n + Z.of_nat i) = Some s)
  /\ (mt_ended t = true -> drop (Z.to_nat (expected - n)) segments = [])
  /\ additions' = additions ++ drop (Z.to_nat (expected - n)) segments
  /\ expected' = Z.max expected (n + Z.of_nat (List.length segments)).
Proof.
  induction segments as [|s segments IH]; intros n additions expected additions' expected' Hn Hle Hb;
    cbn [find_additions List.length] in *.
  - rewrite drop_nil, app_nil_r, Z.add_0_r, Z.max_l by lia.
    split; [intros [= <- <-]; split_and!; done|intros (_ & _ & -> & ->); done].
  - apply numbered_cons in Hn as [Hs Hn]. rewrite Hs. destruct (Z.ltb_spec n expected) as [Hlt|Hge].
    + assert (Hdrop : drop (Z.to_nat (expected - n)) (s :: segments)
                      = drop (Z.to_nat (expected - (n + 1))) segments).
      { replace (Z.to_nat (expected - n)) with (S (Z.to_nat (expected - (n + 1)))) by lia. done. }
      rewrite Hdrop.
      replace (n + Z.of_nat (S (List.length segments)))
        with (n + 1 + Z.of_nat (List.length segments)) by lia.
      assert (Hsplit : (forall i x, (s :: segments) !! i = Some x -> n + Z.of_nat i < expected ->
                          mt_seen t !! (n + Z.of_nat i) = Some x)
                <-> mt_seen t !! n = Some s
                    /\ forall i x, segments !! i = Some x -> n + 1 + Z.of_nat i < expected ->
                         mt_seen t !! (n + 1 + Z.of_nat i) = Some x).
      { split.
        - intros H. split; [specialize (H 0%nat s eq_refl); rewrite Z.add_0_r in H; apply H; lia|].
          intros i x Hx Hi. specialize (H (S i) x Hx).
          replace (n + 1 + Z.of_nat i) with (n + Z.of_nat (S i)) by lia. apply H. lia.
        - intros [H0 H] [|i] x Hx Hi; cbn in Hx; [simplify_eq; by rewrite Z.add_0_r|].
          replace (n + Z.of_nat (S i)) with (n + 1 + Z.of_nat i) by lia. apply H; [done|lia]. }
      rewrite Hsplit. destruct (mt_seen t !! n) as [previous|]; [|split; [done|by intros [[? _] _]]].
      case_bool_decide as Heq; [subst|split; [done|intros [[? _] _]; by simplify_eq]].
      rewrite IH by (done || lia). intuition.
    + assert (n = expected) as -> by lia. rewrite (proj2 (Z.ltb_ge expected expected)) by lia.
      rewrite Z.sub_diag. cbn [Z.to_nat drop].
      destruct (mt_ended t) eqn:He; [split; [done|intros (_ & H & _); by specialize (H eq_refl)]|].
      unfold u64_checked at 1. rewrite (proj2 (checked_Some _ _ _ (expected + 1))) by lia.
      cbn [ok_or mbind outcome_bind]. rewrite IH by (done || lia).
      rewrite Z.sub_diag. cbn [Z.to_nat drop]. rewrite <- app_assoc. cbn [app].
      replace (Z.max (expected + 1) (expected + 1 + Z.of_nat (List.length segments)))
        with (Z.max expected (expected + Z.of_nat (S (List.length segments)))) by lia.
      split; intros (H1 & H2 & H3 & H4); (split; [intros i x Hx Hi; exfalso; lia|]); done.
Qed.

(** A tracker seen through the log a playlist meets. *)
Record meets (t : MediaTracker) (l : Log) (p : MediaPlaylist) : Prop := {
  me_changed : match mt_source t with Some s => negb (bool_decide (s = mp_source p)) | None => false end
               = negb (bool_decide (lg_source l = mp_source p));
  me_source : default (mp_source p) (mt_source t) = lg_source l;
  me_next : default (mp_media_sequence p) (mt_next_sequence t) = log_next l;
  me_ended : mt_ended t = lg_ended l;
  me_numbered : numbered (lg_first l) (lg_segments l);
  me_first : 0 <= lg_first l;
  me_bound : log_next l <= u64_max;
  me_seen : forall k, mt_seen t !! k =
    if k <? lg_first l then None else lg_segments l !! Z.to_nat (k - lg_first l)
}.

Lemma represents_meets t o p : playlist_ok p -> represents t o -> meets t (log_of o p) p.
Proof.
  intros [Hm Hn Hb]. destruct o as [l|]; cbn.
  - intros (Hs & Hx & He & Hl & Hf & Hu & Hseen). split; try done; rewrite ?Hs, ?Hx; done.
  - intros ->. split; cbn; try done; unfold log_next; cbn; try lia.
    + by rewrite bool_decide_true.
    + intros k. rewrite lookup_empty. by destruct (_ <? _).
Qed.

Lemma seen_iff t l p k s : meets t l p ->
  mt_seen t !! k = Some s <-> lg_first l <= k /\ lg_segments l !! Z.to_nat (k - lg_first l) = Some s.
Proof.
  intros Hm. rewrite (me_seen _ _ _ Hm). destruct (Z.ltb_spec k (lg_first l)); [|intuition].
  split; [done|]. lia.
Qed.

Lemma validate_refresh_spec t l p additions expected : playlist_ok p -> meets t l p ->
  validate_refresh t p = Ok (additions, expected) <->
  continues l p /\ additions = fresh l p
  /\ expected = log_next l + Z.of_nat (List.length (fresh l p)).
Proof.
  intros [Hm0 Hnum Hb] Hm. unfold validate_refresh. rewrite (me_changed _ _ _ Hm), (me_next _ _ _ Hm).
  assert (Hlen : forall e, mp_media_sequence p <= log_next l ->
            e = Z.max (log_next l) (mp_media_sequence p + Z.of_nat (List.length (mp_segments p))) <->
            e = log_next l + Z.of_nat (List.length (fresh l p))).
  { intros e He. unfold fresh. rewrite length_drop. lia. }
  unfold u64_checked. rewrite (proj2 (checked_Some 0 u64_max _ _)) by (split; [done|lia]).
  cbn [ok_or]. rewrite bind_Ok. split.
  - intros (u & Hs & H). outcomes. destruct x0 as [adds exp]. outcomes. simplify_eq.
    apply Z.ltb_ge in H. apply negb_false_iff, bool_decide_eq_true in Hs.
    apply (find_additions_spec t _ (mp_media_sequence p)) in H0 as (Hrep & Hend & Hadd & Hexp);
      [|done|lia|done].
    cbn [app] in Hadd. fold (fresh l p) in Hend, Hadd. rewrite (me_ended _ _ _ Hm) in Hend.
    split; [|by rewrite <- Hlen by lia]. split; try done.
    + intros i s Hi Hlt. apply (seen_iff t l p); [done|]. by apply Hrep.
    + intros He. rewrite He in *. cbn [andb] in *. rewrite Z.ltb_ge in *. lia.
  - intros ([Hsrc Hst Hrep Hover Hend] & -> & Hexp). exists tt. rewrite bool_decide_true by done.
    split; [done|]. rewrite (proj2 (Z.ltb_ge (log_next l) _)) by done. cbn [refuse mbind outcome_bind].
    rewrite (proj2 (find_additions_spec t _ (mp_media_sequence p) [] (log_next l)
                      (fresh l p) expected Hnum ltac:(lia) Hb)).
    + cbn [mbind outcome_bind]. destruct (mp_end_list p); cbn [andb]; [|done].
      specialize (Hend eq_refl). apply Hlen in Hexp; [|done].
      rewrite (proj2 (Z.ltb_ge _ expected)) by lia. done.
    + rewrite (me_ended _ _ _ Hm). split; [|split; [done|split; [done|by apply Hlen]]].
      intros i s Hi Hlt. apply (seen_iff t l p); [done|]. by apply Hrep.
Qed.

Lemma insert_segments_lookup l : forall seen n k, numbered n l ->
  fold_left insert_segment l seen !! k =
  if (n <=? k) && (k <? n + Z.of_nat (List.length l)) then l !! Z.to_nat (k - n) else seen !! k.
Proof.
  induction l as [|s l IH]; intros seen n k Hn; cbn [fold_left List.length].
  - destruct (Z.leb_spec n k), (Z.ltb_spec k (n + Z.of_nat 0)); cbn; try done; lia.
  - apply numbered_cons in Hn as [Hs Hn]. rewrite (IH _ (n + 1) k Hn). unfold insert_segment. rewrite Hs.
    destruct (decide (k = n)) as [->|Hk].
    + rewrite lookup_insert_eq. rewrite (proj2 (Z.leb_gt (n + 1) n)) by lia. cbn [andb].
      rewrite (proj2 (Z.leb_le n n)), (proj2 (Z.ltb_lt n _)) by lia. by rewrite Z.sub_diag.
    + rewrite lookup_insert_ne by done.
      destruct (Z.leb_spec (n + 1) k), (Z.leb_spec n k); cbn [andb]; try lia; try done.
      replace (n + Z.of_nat (S (List.length l))) with (n + 1 + Z.of_nat (List.length l)) by lia.
      destruct (k <? _); [|done].
      by replace (Z.to_nat (k - n)) with (S (Z.to_nat (k - (n + 1)))) by lia.
Qed.

Lemma fresh_numbered l p : playlist_ok p -> continues l p -> numbered (log_next l) (fresh l p).
Proof.
  intros [Hm0 Hnum Hb] Hc. pose proof (ct_start _ _ Hc).
  pose proof (numbered_drop _ (Z.to_nat (log_next l - mp_media_sequence p)) _ Hnum) as H'.
  by replace (mp_media_sequence p + _) with (log_next l) in H' by lia.
Qed.

Lemma represents_apply t l p : playlist_ok p -> meets t l p -> continues l p ->
  represents
    (mk_tracker (Some (default (mp_source p) (mt_source t)))
       (Some (log_next l + Z.of_nat (List.length (fresh l p))))
       (fold_left insert_segment (fresh l p) (mt_seen t)) (mt_ended t || mp_end_list p))
    (Some (log_apply l p)).
Proof.
  intros Hp Hm Hc. pose proof (fresh_numbered l p Hp Hc) as Hf. pose proof (me_bound _ _ _ Hm).
  pose proof (me_first _ _ _ Hm). pose proof (pl_bound _ Hp). pose proof (ct_start _ _ Hc).
  assert (Hlen : log_next (log_apply l p) = log_next l + Z.of_nat (List.length (fresh l p)))
    by (unfold log_next, log_apply; cbn; rewrite length_app; lia).
  cbn [represents mt_source mt_next_sequence mt_ended mt_seen].
  split; [by rewrite (me_source _ _ _ Hm)|]. split; [by rewrite Hlen|].
  split; [by rewrite (me_ended _ _ _ Hm)|].
  split; [apply numbered_app; split; [apply Hm|exact Hf]|].
  split; [done|]. split; [rewrite Hlen; unfold fresh; rewrite length_drop; lia|].
  intros k. rewrite (insert_segments_lookup _ _ (log_next l)) by done.
  rewrite (me_seen _ _ _ Hm). cbn [log_apply lg_first lg_segments].
  assert (Hnx : log_next l = lg_first l + Z.of_nat (List.length (lg_segments l))) by done.
  destruct (Z.leb_spec (log_next l) k), (Z.ltb_spec k (log_next l + Z.of_nat (List.length (fresh l p))));
    cbn [andb]; destruct (Z.ltb_spec k (lg_first l)); try lia; try done.
  - rewrite lookup_app_r by lia. f_equal. lia.
  - rewrite !lookup_ge_None_2; [done| |]; rewrite ?length_app; lia.
  - by rewrite lookup_app_l by lia.
Qed.

Lemma find_additions_not_Panics t segments : forall additions expected,
  find_additions t segments additions expected <> Panics.
Proof.
  induction segments as [|s segments IH]; intros additions expected; cbn [find_additions]; [done|].
  destruct (sg_sequence s <? expected).
  - destruct (mt_seen t !! sg_sequence s) as [previous|]; [|done].
    destruct (bool_decide (previous = s)); [apply IH|done].
  - destruct (expected <? sg_sequence s); [done|]. destruct (mt_ended t); [done|]. no_panic.
Qed.
#[export] Hint Resolve find_additions_not_Panics : panics.

Lemma validate_refresh_not_Panics t p : validate_refresh t p <> Panics.
Proof. unfold validate_refresh. no_panic. destruct a1 as [additions expected]. no_panic. Qed.

(** C4. The tracker is an append-only list.  Whatever well-formed playlist arrives, a tracker that
    represents a list of segments accepts it exactly when it continues that list -- same playlist,
    no gap, the old part repeated, nothing new after ENDLIST and no early ENDLIST -- then answers
    the segments behind its end and represents the longer list; any other playlist is an error
    that leaves the tracker as it was. *)
Theorem tracker_refines_the_log t o p :
  playlist_ok p -> represents t o ->
  let l := log_of o p in
  (continues l p -> exists t',
     tracker_apply p t = (Ok (mk_refresh (fresh l p) (lg_ended l || mp_end_list p)), t')
     /\ represents t' (Some (log_apply l p)))
  /\ (~ continues l p -> exists e, tracker_apply p t = (Err e, t)).
Proof.
  intros Hp Hr l. pose proof (represents_meets t o p Hp Hr) as Hm. fold l in Hm.
  unfold tracker_apply. split.
  - intros Hc. rewrite (proj2 (validate_refresh_spec t l p _ _ Hp Hm) (conj Hc (conj eq_refl eq_refl))).
    eexists. rewrite (me_ended _ _ _ Hm) at 1. split; [done|]. by apply represents_apply.
  - intros Hc. destruct (validate_refresh t p) as [[a e]|e|] eqn:E; [|by eauto|].
    + by apply (validate_refresh_spec t l p _ _ Hp Hm) in E as [? _].
    + by apply validate_refresh_not_Panics in E.
Qed.

(** ** Histories of refreshes *)

(** What a series of refreshes delivers, and the tracker after it. *)
Fixpoint track (ps : list MediaPlaylist) (t : MediaTracker) : list Segment * MediaTracker :=
  match ps with
  | [] => ([], t)
  | p :: ps =>
      let '(answer, t) := tracker_apply p t in
      let '(delivered, t) := track ps t in
      (match answer with Ok r => rf_new_segments r ++ delivered | _ => delivered end, t)
  end.

Definition log_segments (o : option Log) : list Segment :=
  match o with Some l => lg_segments l | None => [] end.

Lemma continues_dec_apply t o p : playlist_ok p -> represents t o ->
  (exists e, tracker_apply p t = (Err e, t))
  \/ exists l t', tracker_apply p t
       = (Ok (mk_refresh (fresh (log_of o p) p) (lg_ended (log_of o p) || mp_end_list p)), t')
       /\ continues (log_of o p) p /\ l = log_apply (log_of o p) p /\ represents t' (Some l).
Proof.
  intros Hp Hr. pose proof (represents_meets t o p Hp Hr) as Hm. unfold tracker_apply.
  destruct (validate_refresh t p) as [[a e]|e|] eqn:E; [right|left; by eauto|].
  - apply (validate_refresh_spec t _ p _ _ Hp Hm) in E as (Hc & -> & ->).
    eexists _, _. rewrite (me_ended _ _ _ Hm) at 1. split; [done|]. split; [done|]. split; [done|].
    by apply represents_apply.
  - by apply validate_refresh_not_Panics in E.
Qed.

Lemma playlist_in_log l p s : continues l p -> mp_media_sequence p <= log_next l ->
  s ∈ mp_segments p -> s ∈ lg_segments (log_apply l p).
Proof.
  intros Hc Hst Hs. apply list_elem_of_lookup in Hs as [i Hi]. cbn. apply elem_of_app.
  destruct (decide (mp_media_sequence p + Z.of_nat i < log_next l)) as [Hlt|Hge].
  - left. destruct (ct_repeats _ _ Hc i s Hi Hlt) as [_ H]. by eapply list_elem_of_lookup_2.
  - right. unfold fresh. apply (list_elem_of_lookup_2 _ (i - Z.to_nat (log_next l - mp_media_sequence p))).
    rewrite lookup_drop. rewrite <- Hi. f_equal. lia.
Qed.

(** The log only grows, by what is delivered. *)
Lemma track_represents ps : forall t o delivered t', Forall playlist_ok ps -> represents t o ->
  track ps t = (delivered, t') ->
  exists o', represents t' o' /\ log_segments o' = log_segments o ++ delivered
    /\ forall l, o = Some l -> exists l', o' = Some l' /\ lg_first l' = lg_first l.
Proof.
  induction ps as [|p ps IH]; intros t o delivered t' Hps Hr H; cbn [track] in H.
  - simplify_eq. exists o. rewrite app_nil_r. eauto.
  - apply Forall_cons in Hps as [Hp Hps].
    destruct (continues_dec_apply t o p Hp Hr) as [[e He]|(l & t1 & Ha & Hc & -> & Hr1)].
    + rewrite He in H. destruct (track ps t) as [d t2] eqn:Et. simplify_eq. by apply (IH t o).
    + rewrite Ha in H. destruct (track ps t1) as [d t2] eqn:Et. simplify_eq.
      destruct (IH _ _ _ _ Hps Hr1 Et) as (o' & Hr' & Hl' & Hf'). exists o'. split; [done|].
      split.
      * rewrite Hl'. cbn [log_segments log_apply rf_new_segments lg_segments]. rewrite app_assoc.
        f_equal. by destruct o.
      * intros l ->. destruct (Hf' _ eq_refl) as (l' & ? & ?). by exists l'.
Qed.

Lemma track_app a b t : track (a ++ b) t =
  ((track a t).1 ++ (track b (track a t).2).1, (track b (track a t).2).2).
Proof.
  revert t. induction a as [|p a IH]; intros t; cbn [app track fst snd].
  - by destruct (track b t).
  - destruct (tracker_apply p t) as [r t1]. rewrite IH. destruct (track a t1) as [d t2]. cbn [fst snd].
    destruct r; [by rewrite app_assoc|done|done].
Qed.

(** Every segment is delivered once, in order.  Over any series of playlists, accepted or refused,
    what the tracker delivers is one list numbered without gap or repetition, and it holds every
    segment of every playlist the tracker accepted. *)
Theorem segments_are_delivered_once ps : Forall playlist_ok ps ->
  (exists first, numbered first (track ps tracker_new).1)
  /\ forall a p b r t', ps = a ++ p :: b ->
     tracker_apply p (track a tracker_new).2 = (Ok r, t') ->
     forall s, s ∈ mp_segments p -> s ∈ (track ps tracker_new).1.
Proof.
  intros Hps. split.
  - destruct (track ps tracker_new) as [d t'] eqn:E.
    destruct (track_represents _ tracker_new None _ _ Hps eq_refl E) as (o' & Hr & Hd & _).
    cbn in Hd |- *. rewrite <- Hd. destruct o' as [l|]; [|by exists 0].
    exists (lg_first l). apply Hr.
  - intros a p b r t' -> Ha s Hs. apply Forall_app in Hps as [Hpa [Hp Hpb]%Forall_cons].
    destruct (track a tracker_new) as [d1 t1] eqn:E1. cbn [snd] in Ha.
    destruct (track_represents _ tracker_new None _ _ Hpa eq_refl E1) as (o1 & Hr1 & Hd1 & _).
    destruct (continues_dec_apply t1 o1 p Hp Hr1) as [[e He]|(l & t2 & Ha2 & Hc & -> & Hr2)]; [congruence|].
    pose proof (playlist_in_log _ _ s Hc (ct_start _ _ Hc) Hs) as Hin. cbn in Hd1.
    rewrite track_app, E1. cbn [fst snd track]. rewrite Ha2.
    destruct (track b t2) as [d2 t3]. cbn [fst rf_new_segments]. rewrite app_assoc. apply elem_of_app. left.
    rewrite <- Hd1. cbn in Hin. by destruct o1.
Qed.

(** ** The content timeline *)

Inductive Packet := Video (raw_ns : Z) | Audio (raw_ns : Z).

(** The packets of one segment in the order the demuxer meets them, each with its content time. *)
Fixpoint normalize_packets (packets : list Packet) (c : SegmentClock) : list (Packet * Z) :=
  match packets with
  | [] => []
  | p :: packets =>
      let '(time, c) :=
        match p with Video raw => normalize_video raw c | Audio raw => normalize_audio raw c end in
      (p, time) :: normalize_packets packets c
  end.

Definition video_of (p : Packet) : option Z := match p with Video raw => Some raw | Audio _ => None end.
Definition audio_of (p : Packet) : option Z := match p with Audio raw => Some raw | Video _ => None end.

(** What one lane alone reads: its distance from its own first packet, from the boundary on. *)
Definition lane_time (base_ns first raw : Z) : Z :=
  Z.quot (i64_sat (base_ns + Z.max (i64_sat (raw - first)) 0)) 1000000.

Definition lane_times (base_ns : Z) (origin : option Z) (raws : list Z) : list Z :=
  match raws with
  | [] => []
  | first :: _ => lane_time base_ns (default first origin) <$> raws
  end.

Lemma lane_times_cons base origin r rs :
  lane_times base origin (r :: rs)
  = lane_time base (default r origin) r :: lane_times base (Some (default r origin)) rs.
Proof. unfold lane_times. destruct rs; done. Qed.

Lemma lanes_of_packets packets : forall c,
  omap (fun pt => (fun _ => pt.2) <$> video_of pt.1) (normalize_packets packets c)
  = lane_times (sc_base_ns c) (sc_video_origin_ns c) (omap video_of packets)
  /\ omap (fun pt => (fun _ => pt.2) <$> audio_of pt.1) (normalize_packets packets c)
  = lane_times (sc_base_ns c) (sc_audio_origin_ns c) (omap audio_of packets).
Proof.
  induction packets as [|p packets IH]; intros c; [done|].
  destruct p as [raw|raw]; cbn [normalize_packets normalize_video normalize_audio normalize_from];
    (match goal with |- context [normalize_packets packets ?c1] => destruct (IH c1) as [IHv IHa] end);
    cbn -[lane_times] in IHv, IHa |- *; rewrite IHv, IHa, lane_times_cons; done.
Qed.

Lemma lane_time_first base first : lane_time base first first = Z.quot (i64_sat base) 1000000.
Proof. unfold lane_time. rewrite Z.sub_diag. f_equal. ints. Qed.

Lemma quot_mono a b : a <= b -> Z.quot a 1000000 <= Z.quot b 1000000.
Proof. apply Z.quot_le_mono. lia. Qed.

(** The segments committed one after another: the start of each, and the end. *)
Fixpoint lay (next_start_ns : Z) (durations : list Z) : Answer (list Z * Z) :=
  match durations with
  | [] => Ok ([], next_start_ns)
  | d :: durations =>
      clock ← timeline_begin next_start_ns d;
      '(starts, stop) ← lay (timeline_commit clock) durations;
      Ok (sc_base_ns clock :: starts, stop)
  end.

Definition sum (l : list Z) : Z := fold_right Z.add 0 l.

Lemma lay_Ok durations : forall start starts stop, lay start durations = Ok (starts, stop) ->
  stop = start + sum durations
  /\ forall i s, starts !! i = Some s -> s = start + sum (take i durations).
Proof.
  induction durations as [|d durations IH]; intros start starts stop H; cbn [lay] in H.
  - simplify_eq. cbn. split; [lia|]. intros i s Hs. by rewrite lookup_nil in Hs.
  - unfold timeline_begin in H. outcomes. destruct x0 as [starts' stop']. simplify_eq.
    rewrite i64_checked_Some in *. destruct H as [-> _]. destruct H2 as [-> _].
    destruct (IH _ _ _ H0) as [-> Hs]. unfold sum in *; cbn in *. split; [lia|].
    intros [|i] s Hi; cbn in *; [simplify_eq; lia|]. rewrite (Hs i s Hi). lia.
Qed.

(** One content timeline for every demux context.  Laying segments end to end, each starts exactly at
    the sum of the announced durations before it, whatever its packets say; within a segment the
    times of the video packets depend on the video packets alone and those of the audio packets on
    the audio packets alone, however the two are interleaved; and the first packet of either lane
    lies on the boundary. *)
Theorem content_timeline_is_exact start durations starts stop base duration c packets :
  lay start durations = Ok (starts, stop) ->
  is_i64 base -> timeline_begin base duration = Ok c ->
  let times := normalize_packets packets c in
  let boundary := Z.quot base 1000000 in
  stop = start + sum durations
  /\ (forall i s, starts !! i = Some s -> s = start + sum (take i durations))
  /\ omap (fun pt => (fun _ => pt.2) <$> video_of pt.1) times
     = lane_times base None (omap video_of packets)
  /\ omap (fun pt => (fun _ => pt.2) <$> audio_of pt.1) times
     = lane_times base None (omap audio_of packets)
  /\ (forall raws t, head (lane_times base None raws) = Some t -> t = boundary)
  /\ forall raws, Forall (fun t => boundary <= t) (lane_times base None raws).
Proof.
  intros Hl Hb Hc times boundary. destruct (lay_Ok _ _ _ _ Hl) as [H1 H2].
  unfold timeline_begin in Hc. outcomes. simplify_eq.
  destruct (lanes_of_packets packets (mk_segment_clock base x0 None None)) as [H3 H4].
  split_and!; try done.
  - intros [|r raws] t; [done|]. rewrite lane_times_cons. cbn. rewrite lane_time_first.
    rewrite i64_sat_small by done. by intros [= <-].
  - intros [|r raws]; [constructor|]. apply Forall_fmap, Forall_forall. intros x1 _. cbn.
    apply quot_mono. ints.
Qed.

(** ** The start of a session *)

Definition media_end (segments : list Segment) (i : nat) : Z := sum (sg_duration <$> take i segments).

Lemma sum_cons z l : sum (z :: l) = z + sum l.
Proof. done. Qed.

Lemma sum_durations_nonneg segments : Forall (fun s => 0 < sg_duration s) segments ->
  0 <= sum (sg_duration <$> segments).
Proof. induction 1; cbn [fmap list_fmap]; rewrite ?sum_cons; [done|]. unfold fmap in *. lia. Qed.

Lemma try_total_eq segments : forall total, Forall (fun s => 0 < sg_duration s) segments ->
  0 <= total <= duration_max ->
  try_total total segments
  = if total + sum (sg_duration <$> segments) <=? duration_max
    then Ok (total + sum (sg_duration <$> segments)) else Err DurationOverflow.
Proof.
  induction segments as [|s segments IH]; intros total Hpos Ht; cbn [try_total fmap list_fmap].
  - cbn [sum fold_right]. rewrite Z.add_0_r. by rewrite (proj2 (Z.leb_le _ _)) by lia.
  - apply Forall_cons in Hpos as [Hs Hpos]. pose proof (sum_durations_nonneg _ Hpos).
    rewrite sum_cons. unfold fmap in *.
    destruct (checked 0 duration_max (total + sg_duration s)) as [t|] eqn:E; cbn [ok_or mbind outcome_bind].
    + apply checked_Some in E as [-> E]. rewrite IH by done. by rewrite <- Z.add_assoc.
    + apply checked_None in E. by rewrite (proj2 (Z.leb_gt _ _)) by lia.
Qed.

Lemma start_search_Ok segments target : forall elapsed index,
  Forall (fun s => 0 < sg_duration s) segments -> 0 <= elapsed ->
  elapsed + sum (sg_duration <$> segments) <= u128_max ->
  elapsed <= target <= elapsed + sum (sg_duration <$> segments) ->
  exists i, start_search target elapsed index segments = Ok (index + i)%nat
    /\ (i <= List.length segments)%nat
    /\ elapsed + media_end segments i <= target
    /\ (forall s, segments !! i = Some s -> target < elapsed + media_end segments (S i))
    /\ (i = List.length segments -> target = elapsed + media_end segments i).
Proof.
  induction segments as [|s segments IH]; intros elapsed index Hpos He Hb Ht; cbn [start_search].
  - exists 0%nat. rewrite Nat.add_0_r. unfold media_end. cbn in *. split_and!; try done; lia.
  - apply Forall_cons in Hpos as [Hs Hpos]. cbn [fmap list_fmap] in Hb, Ht.
    rewrite sum_cons in *. pose proof (sum_durations_nonneg _ Hpos) as Hsum.
    rewrite (proj2 (checked_Some 0 u128_max _ _)) by (split; [done|lia]).
    cbn [ok_or mbind outcome_bind]. destruct (Z.ltb_spec target (elapsed + sg_duration s)).
    + exists 0%nat. rewrite Nat.add_0_r. unfold media_end. cbn. split_and!; try done; try lia.
      rewrite take_0. cbn. intros; lia.
    + destruct (IH (elapsed + sg_duration s) (S index)) as (i & H1 & H2 & H3 & H4 & H5);
        try done; try lia.
      exists (S i). rewrite H1.
      assert (Hend : forall k, media_end (s :: segments) (S k) = sg_duration s + media_end segments k)
        by done.
      rewrite !Hend. split_and!; [f_equal; lia|cbn; lia|lia| |].
      * intros x Hx. specialize (H4 x Hx). lia.
      * cbn. intros [= Hi]. rewrite H5 by done. lia.
Qed.

(** Where EXT-X-START points: from the head, or back from the tail, within the playlist. *)
Definition start_target (p : MediaPlaylist) (offset_micros : Z) : Z :=
  let total := sum (sg_duration <$> mp_segments p) in
  if offset_micros <? 0 then Z.max 0 (total + offset_micros * 1000)
  else Z.min (offset_micros * 1000) total.

(** A session starts at the segment that holds the asked time.  Without a start tag it is the first
    segment; with one, it is the segment whose span contains the asked time, counted from the head
    or back from the tail and clamped to the playlist, and one past the last exactly at the end;
    the only failure is a playlist longer than a [Duration]. *)
Theorem start_index_holds_the_asked_time p :
  Forall (fun s => 0 < sg_duration s) (mp_segments p) ->
  (mp_start_offset_micros p = None -> preferred_start_index p = Ok 0%nat)
  /\ forall offset, mp_start_offset_micros p = Some offset -> is_i64 offset ->
     let total := sum (sg_duration <$> mp_segments p) in
     let target := start_target p offset in
     (duration_max < total -> preferred_start_index p = Err DurationOverflow)
     /\ (total <= duration_max -> exists i, preferred_start_index p = Ok i
         /\ (i <= List.length (mp_segments p))%nat
         /\ media_end (mp_segments p) i <= target
         /\ (forall s, mp_segments p !! i = Some s -> target < media_end (mp_segments p) (S i))
         /\ (i = List.length (mp_segments p) -> target = total)).
Proof.
  intros Hpos. unfold preferred_start_index.
  split; [by intros ->|].
  intros offset Hof Hoff. rewrite Hof. set (total := sum _).
  set (target := start_target p offset). unfold total_duration.
  pose proof (sum_durations_nonneg _ Hpos) as Hsum. fold total in Hsum.
  rewrite try_total_eq by (done || unfold duration_max, u64_max; lia). fold total. rewrite Z.add_0_l.
  split; intros Hle; [by rewrite (proj2 (Z.leb_gt _ _)) by lia|].
  rewrite (proj2 (Z.leb_le _ _)) by lia.
  cbn [mbind outcome_bind].
  assert (Hmax : duration_max <= u128_max) by (unfold duration_max; ints).
  assert (Htarget : (if offset <? 0 then u128_sat (total - u128_sat (Z.abs offset * 1000))
                     else Z.min (u128_sat (Z.abs offset * 1000)) total) = target).
  { unfold target, start_target. fold total.
    assert (0 <= Z.abs offset * 1000 <= u128_max) by ints.
    assert (u128_sat (Z.abs offset * 1000) = Z.abs offset * 1000) as -> by ints.
    destruct (Z.ltb_spec offset 0); ints. }
  rewrite Htarget.
  assert (Hrange : 0 <= target <= total).
  { unfold target, start_target. fold total. destruct (Z.ltb_spec offset 0); lia. }
  destruct (start_search_Ok (mp_segments p) target 0 0 Hpos) as (i & H1 & H2 & H3 & H4 & H5);
    fold total; try lia.
  exists i. split_and!; try done. intros Hi. rewrite H5 by done. unfold media_end.
  rewrite Hi, firstn_all. done.
Qed.
