(* ===== verification/Digest.v ===== *)
(** * Digests and key names of the stored state

    [platform/src/storage/state.rs]: SHA-256 as the source computes it, its hexadecimal form, and
    the name of a generation's key. *)

From Stdlib Require Import String ZifyNat.
From S2P Require Import Prelude Bytes.

#[local] Open Scope Z_scope.

(** ** Hexadecimal *)

Definition valid_digest (digest : bytes) : bool :=
  (List.length digest =? 64)%nat
  && forallb (fun b => is_digit b || ((97 <=? b) && (b <=? 102))) digest.

Definition hex_digit (n : Z) : Z := if n <? 10 then 48 + n else 87 + n.

(** [{byte:02x}]. *)
Definition show_hex_byte (b : Z) : bytes := [hex_digit (b / 16); hex_digit (b mod 16)].

(** ** SHA-256 *)

(** The [n] words of a row of constants, its first word the most significant. *)
Definition row_words (n : nat) (row : Z) : list Z :=
  (fun i => u32_wrap (Z.shiftr row (32 * Z.of_nat i))) <$> rev (seq 0 n).

(** The rows of the source's table. *)
Definition sha_k : list Z :=
  concat (row_words 7 <$>
    [0x428a2f98_71374491_b5c0fbcf_e9b5dba5_3956c25b_59f111f1_923f82a4;
     0xab1c5ed5_d807aa98_12835b01_243185be_550c7dc3_72be5d74_80deb1fe;
     0x9bdc06a7_c19bf174_e49b69c1_efbe4786_0fc19dc6_240ca1cc_2de92c6f;
     0x4a7484aa_5cb0a9dc_76f988da_983e5152_a831c66d_b00327c8_bf597fc7;
     0xc6e00bf3_d5a79147_06ca6351_14292967_27b70a85_2e1b2138_4d2c6dfc;
     0x53380d13_650a7354_766a0abb_81c2c92e_92722c85_a2bfe8a1_a81a664b;
     0xc24b8b70_c76c51a3_d192e819_d6990624_f40e3585_106aa070_19a4c116;
     0x1e376c08_2748774c_34b0bcb5_391c0cb3_4ed8aa4a_5b9cca4f_682e6ff3;
     0x748f82ee_78a5636f_84c87814_8cc70208_90befffa_a4506ceb_bef9a3f7])
  ++ row_words 1 0xc67178f2.

Record Sha := mk_sha {
  sha_a : Z; sha_b : Z; sha_c : Z; sha_d : Z; sha_e : Z; sha_f : Z; sha_g : Z; sha_h : Z
}.

Definition sha_init : Sha :=
  mk_sha 0x6a09e667 0xbb67ae85 0x3c6ef372 0xa54ff53a 0x510e527f 0x9b05688c 0x1f83d9ab 0x5be0cd19.

(** A 32-bit word is between 0 and [u32_max]. *)
Definition rotate_right (x n : Z) : Z := Z.lor (Z.shiftr x n) (u32_wrap (Z.shiftl x (32 - n))).
Definition wrapping_add (x y : Z) : Z := u32_wrap (x + y).
Definition word_not (x : Z) : Z := u32_max - x.

(** [while padded.len() % 64 != 56 { padded.push(0) }]: 64 rounds are enough. *)
Fixpoint pad_zeros (fuel : nat) (padded : bytes) : bytes :=
  match fuel with
  | O => padded
  | S fuel =>
      if (List.length padded mod 64 =? 56)%nat then padded else pad_zeros fuel (padded ++ [0])
  end.

(** [to_be_bytes] of [n] bytes. *)
Fixpoint be_bytes (n : nat) (z : Z) : bytes :=
  match n with O => [] | S n => be_bytes n (z / 256) ++ [z mod 256] end.

Definition pad (input : bytes) : bytes :=
  pad_zeros 64 (input ++ [0x80]) ++ be_bytes 8 (u64_wrap (Z.of_nat (List.length input) * 8)).

(** [chunks_exact(n)]: the whole chunks. *)
Fixpoint chunks_exact (fuel n : nat) (s : bytes) : list bytes :=
  match fuel with
  | O => []
  | S fuel =>
      if (List.length s <? n)%nat then [] else take n s :: chunks_exact fuel n (drop n s)
  end.

Definition from_be_bytes (s : bytes) : Z := fold_left (fun acc b => acc * 256 + b) s 0.

(** The next word of the schedule, from the words before it. *)
Definition schedule_word (w : list Z) : Z :=
  let i := List.length w in
  let x := default 0 (w !! (i - 15)%nat) in
  let y := default 0 (w !! (i - 2)%nat) in
  let s0 := Z.lxor (Z.lxor (rotate_right x 7) (rotate_right x 18)) (Z.shiftr x 3) in
  let s1 := Z.lxor (Z.lxor (rotate_right y 17) (rotate_right y 19)) (Z.shiftr y 10) in
  wrapping_add (wrapping_add (wrapping_add (default 0 (w !! (i - 16)%nat)) s0)
                  (default 0 (w !! (i - 7)%nat))) s1.

Fixpoint schedule (n : nat) (w : list Z) : list Z :=
  match n with O => w | S n => schedule n (w ++ [schedule_word w]) end.

Definition sha_round (s : Sha) (kw : Z * Z) : Sha :=
  let '(k, w) := kw in
  let '(mk_sha a b c d e f g hh) := s in
  let s1 := Z.lxor (Z.lxor (rotate_right e 6) (rotate_right e 11)) (rotate_right e 25) in
  let choice := Z.lxor (Z.land e f) (Z.land (word_not e) g) in
  let t1 := wrapping_add (wrapping_add (wrapping_add (wrapping_add hh s1) choice) k) w in
  let s0 := Z.lxor (Z.lxor (rotate_right a 2) (rotate_right a 13)) (rotate_right a 22) in
  let majority := Z.lxor (Z.lxor (Z.land a b) (Z.land a c)) (Z.land b c) in
  let t2 := wrapping_add s0 majority in
  mk_sha (wrapping_add t1 t2) a b c (wrapping_add d t1) e f g.

Definition sha_block (h : Sha) (block : bytes) : Sha :=
  let w := schedule 48 (from_be_bytes <$> chunks_exact 16 4 block) in
  let '(mk_sha a b c d e f g hh) := fold_left sha_round (combine sha_k w) h in
  mk_sha (wrapping_add (sha_a h) a) (wrapping_add (sha_b h) b) (wrapping_add (sha_c h) c)
    (wrapping_add (sha_d h) d) (wrapping_add (sha_e h) e) (wrapping_add (sha_f h) f)
    (wrapping_add (sha_g h) g) (wrapping_add (sha_h h) hh).

Definition sha_words (h : Sha) : list Z :=
  [sha_a h; sha_b h; sha_c h; sha_d h; sha_e h; sha_f h; sha_g h; sha_h h].

Definition sha256 (input : bytes) : bytes :=
  let padded := pad input in
  let h := fold_left sha_block (chunks_exact (List.length padded) 64 padded) sha_init in
  flat_map (be_bytes 4) (sha_words h).

Definition digest_bytes (input : bytes) : bytes := flat_map show_hex_byte (sha256 input).

(** The vectors of FIPS 180-4. *)
Example digest_empty :
  digest_bytes [] = lit "e3b0c44298fc1c149afbf4c8996fb92427ae41e4649b934ca495991b7852b855".
Proof. vm_compute. reflexivity. Qed.
Example digest_abc :
  digest_bytes (lit "abc") = lit "ba7816bf8f01cfea414140de5dae2223b00361a396177a9cb410ff61f20015ad".
Proof. vm_compute. reflexivity. Qed.
Example digest_two_blocks :
  digest_bytes (lit "abcdbcdecdefdefgefghfghighijhijkijkljklmklmnlmnomnopnopq")
  = lit "248d6a61d20638b8e5c026930c3e6039a33ce45964ff2167f6ecedd419db06c1".
Proof. vm_compute. reflexivity. Qed.

(** ** Key names *)

(** A generation: sixteen bytes. *)
Definition Generation : Type := bytes.
#[export] Typeclasses Transparent Generation.

Definition ALPHABET : bytes :=
  lit "ABCDEFGHIJKLMNOPQRSTUVWXYZabcdefghijklmnopqrstuvwxyz0123456789-_".

(** The letters of one chunk of up to three bytes, four for a whole one. *)
Definition key_chunk (chunk : bytes) : bytes :=
  let byte i := default 0 (chunk !! i) in
  let bits := Z.lor (Z.lor (Z.shiftl (byte 0%nat) 16) (Z.shiftl (byte 1%nat) 8)) (byte 2%nat) in
  (fun shift => default 0 (ALPHABET !! Z.to_nat (Z.land (Z.shiftr bits shift) 63)))
  <$> take (List.length chunk + 1) [18; 12; 6; 0].

(** [chunks(3)]: the last one may be shorter. *)
Fixpoint chunks (fuel n : nat) (s : bytes) : list bytes :=
  match fuel, s with
  | O, _ | _, [] => []
  | S fuel, _ => take n s :: chunks fuel n (drop n s)
  end.

Definition key_name (g : Generation) : bytes := lit "a." ++ flat_map key_chunk (chunks 16 3 g).

(** The reading of a key name back into bytes. *)
Definition letter_value (b : Z) : Z := Z.of_nat (default 0%nat (find_byte (Z.eqb b) ALPHABET)).

Definition read_key_chunk (letters : bytes) : bytes :=
  let bits := fold_left (fun acc b => acc * 64 + letter_value b) letters 0 in
  match letters with
  | [_; _] => [bits / 16]
  | [_; _; _] => [bits / 1024; bits / 4 mod 256]
  | _ => [bits / 65536; bits / 256 mod 256; bits mod 256]
  end.

Definition read_key_name (name : bytes) : option Generation :=
  flat_map read_key_chunk <$> (chunks 16 4 <$> strip_prefix (lit "a.") name).

(** ** Lemmas *)

Lemma lor_shiftl a b n : 0 <= n -> 0 <= b < 2 ^ n -> Z.lor (Z.shiftl a n) b = a * 2 ^ n + b.
Proof.
  intros Hn Hb. assert (Hz : Z.land (Z.shiftl a n) b = 0).
  { apply Z.bits_inj'. intros i Hi. rewrite Z.land_spec, Z.bits_0, andb_false_iff.
    destruct (Z.lt_ge_cases i n); [left; by apply Z.shiftl_spec_low|right].
    destruct (Z.eq_dec b 0) as [->|]; [apply Z.bits_0|]. apply Z.bits_above_log2; [lia|].
    apply Z.log2_lt_pow2; [lia|]. apply Z.lt_le_trans with (2 ^ n); [lia|]. apply Z.pow_le_mono_r; lia. }
  rewrite <- Z.lxor_lor, <- Z.add_nocarry_lxor by done. by rewrite Z.shiftl_mul_pow2.
Qed.

Lemma length_flat_map {A B} (f : A -> list B) l k :
  (forall x, List.length (f x) = k) -> List.length (flat_map f l) = (List.length l * k)%nat.
Proof. intros Hf. induction l as [|x l IH]; cbn; [done|]. rewrite length_app, Hf, IH. lia. Qed.

Lemma flat_map_Forall {A B} (P : B -> Prop) (f : A -> list B) l :
  (forall x, x ∈ l -> Forall P (f x)) -> Forall P (flat_map f l).
Proof.
  induction l as [|x l IH]; intros Hf; cbn; [constructor|].
  apply Forall_app. split; [apply Hf; left|]. apply IH. intros y Hy. apply Hf. by right.
Qed.

Lemma length_be_bytes n : forall z, List.length (be_bytes n z) = n.
Proof. induction n as [|n IH]; intros z; cbn; [done|]. rewrite length_app, IH. cbn. lia. Qed.

Lemma be_bytes_range n : forall z, Forall (fun b => 0 <= b < 256) (be_bytes n z).
Proof.
  induction n as [|n IH]; intros z; cbn; [constructor|]. apply Forall_app. split; [apply IH|].
  repeat constructor; apply (Z.mod_pos_bound z 256); lia.
Qed.

Lemma be_bytes_inj n : forall y z, 0 <= y < 256 ^ Z.of_nat n -> 0 <= z < 256 ^ Z.of_nat n ->
  be_bytes n y = be_bytes n z -> y = z.
Proof.
  induction n as [|n IH]; intros y z Hy Hz H; [cbn in *; lia|]. cbn [be_bytes] in H.
  apply app_inj_2 in H as [H1 H2]; [|done]. injection H2 as H2.
  rewrite Nat2Z.inj_succ, Z.pow_succ_r in Hy, Hz by lia.
  apply IH in H1; [|split; [apply Z.div_pos; lia|apply Z.div_lt_upper_bound; lia]..].
  rewrite (Z.div_mod y 256), (Z.div_mod z 256) by lia. congruence.
Qed.

(** The loop runs at most 63 times. *)
Lemma pad_zeros_spec fuel : forall l,
  ((120 - List.length l mod 64) mod 64 < fuel)%nat ->
  exists k, pad_zeros fuel l = l ++ repeat 0 k /\ (List.length (pad_zeros fuel l) mod 64 = 56)%nat.
Proof.
  induction fuel as [|fuel IH]; intros l Hf; [lia|]. cbn [pad_zeros].
  destruct (Nat.eqb_spec (List.length l mod 64) 56) as [He|Hne].
  - exists 0%nat. by rewrite app_nil_r.
  - assert (Hl : List.length (l ++ [0]) = S (List.length l)) by (rewrite length_app; cbn; lia).
    destruct (IH (l ++ [0])) as (k & Hk & Hm).
    + rewrite Hl. clear IH Hl. zify; Z.div_mod_to_equations; lia.
    + exists (S k). rewrite Hk at 1. split; [by rewrite <- app_assoc|done].
Qed.

Lemma pad_spec input : exists k,
  pad input = input ++ [0x80] ++ repeat 0 k ++ be_bytes 8 (u64_wrap (Z.of_nat (List.length input) * 8))
  /\ (List.length (pad input) mod 64 = 0)%nat.
Proof.
  destruct (pad_zeros_spec 64 (input ++ [0x80])) as (k & Hk & Hm).
  { apply Nat.mod_upper_bound. lia. }
  exists k. unfold pad. rewrite length_app, length_be_bytes, Nat.Div0.add_mod, Hm. split; [|done].
  rewrite Hk. by rewrite <- !app_assoc.
Qed.

Lemma hex_digit_ok n : 0 <= n < 16 ->
  (is_digit (hex_digit n) || ((97 <=? hex_digit n) && (hex_digit n <=? 102))) = true.
Proof. intros Hn. unfold hex_digit, is_digit. bools; try done; lia. Qed.

Lemma sha256_bytes input : List.length (sha256 input) = 32%nat /\ Forall (fun b => 0 <= b < 256) (sha256 input).
Proof.
  unfold sha256. split; [by rewrite (length_flat_map _ _ 4) by apply length_be_bytes|].
  apply flat_map_Forall. intros w _. apply be_bytes_range.
Qed.

(** What a digest is.  The digest of any input is 64 lower-case hexadecimal digits; the padded message
    is the input and a terminator, whole blocks, so that no byte of it is dropped; and two inputs
    shorter than 2^61 bytes with the same padded message are the same. *)
Theorem digest_covers_its_input input :
  valid_digest (digest_bytes input) = true
  /\ (exists rest, pad input = input ++ 0x80 :: rest)
  /\ concat (chunks_exact (List.length (pad input)) 64 (pad input)) = pad input
  /\ forall other, Z.of_nat (List.length input) < 2 ^ 61 -> Z.of_nat (List.length other) < 2 ^ 61 ->
     pad other = pad input -> other = input.
Proof.
  destruct (pad_spec input) as (k & Hk & Hm). split_and!.
  - destruct (sha256_bytes input) as [Hlen Hb]. unfold valid_digest, digest_bytes.
    rewrite (length_flat_map _ _ 2), Hlen by done. cbn [Nat.eqb Nat.mul andb].
    apply forallb_forall. intros c Hc. apply list_elem_of_In in Hc.
    assert (Hall : Forall (fun b => (is_digit b || ((97 <=? b) && (b <=? 102))) = true)
                     (flat_map show_hex_byte (sha256 input))); [|by apply (proj1 (Forall_forall _ _) Hall)].
    apply flat_map_Forall. intros b Hin. rewrite Forall_forall in Hb. specialize (Hb b Hin). cbn in Hb.
    repeat constructor; apply hex_digit_ok;
      [split; [apply Z.div_pos; lia|apply Z.div_lt_upper_bound; lia]|apply Z.mod_pos_bound; lia].
  - rewrite Hk. by eexists.
  - revert Hm. generalize (pad input). clear. intros l.
    assert (Hgen : forall fuel l, (List.length l <= fuel)%nat -> (List.length l mod 64 = 0)%nat ->
              concat (chunks_exact fuel 64 l) = l); [|by apply Hgen].
    induction fuel as [|fuel IH]; intros s Hs Hm; cbn [chunks_exact]; [by destruct s; cbn in *; [|lia]|].
    destruct (Nat.ltb_spec (List.length s) 64) as [Hlt|Hge].
    + rewrite Nat.mod_small in Hm by done. by destruct s.
    + cbn [concat]. rewrite IH, take_drop; [done|rewrite length_drop; lia|].
      rewrite length_drop. zify; Z.div_mod_to_equations; lia.
  - intros other Hi Ho Heq. destruct (pad_spec other) as (k' & Hk' & _). rewrite Hk, Hk' in Heq.
    rewrite !app_assoc in Heq. apply app_inj_2 in Heq as [Heq Hlen]; [|by rewrite !length_be_bytes].
    rewrite !u64_wrap_small in Hlen by ints.
    apply be_bytes_inj in Hlen; [|cbn; lia..].
    rewrite <- !app_assoc in Heq. by apply app_inj_1 in Heq as [? _]; [|lia].
Qed.

(** *** Key names *)

Lemma letter_value_at n : 0 <= n < 64 -> letter_value (default 0 (ALPHABET !! Z.to_nat n)) = n.
Proof.
  intros Hn.
  assert (Hall : forallb (fun i => letter_value (default 0 (ALPHABET !! i)) =? Z.of_nat i) (seq 0 64) = true)
    by by vm_compute.
  rewrite forallb_forall in Hall. specialize (Hall (Z.to_nat n)).
  rewrite Z.eqb_eq, Z2Nat.id in Hall by lia. apply Hall. apply in_seq. lia.
Qed.

Lemma letter_of_bits bits shift : 0 <= shift ->
  letter_value (default 0 (ALPHABET !! Z.to_nat (Z.land (Z.shiftr bits shift) 63)))
  = bits / 2 ^ shift mod 64.
Proof.
  intros Hs. change 63 with (Z.ones 6). rewrite Z.land_ones, Z.shiftr_div_pow2 by lia.
  change (2 ^ 6) with 64. rewrite letter_value_at; [done|]. apply Z.mod_pos_bound. lia.
Qed.

Lemma chunk_bits a b c : 0 <= a < 256 -> 0 <= b < 256 -> 0 <= c < 256 ->
  Z.lor (Z.lor (Z.shiftl a 16) (Z.shiftl b 8)) c = a * 65536 + b * 256 + c.
Proof.
  intros Ha Hb Hc.
  replace (Z.shiftl a 16) with (Z.shiftl (a * 256) 8)
    by (rewrite !Z.shiftl_mul_pow2 by lia; change (2 ^ 16) with 65536; change (2 ^ 8) with 256; lia).
  rewrite <- Z.shiftl_lor. rewrite lor_shiftl by (change (2 ^ 8) with 256; lia).
  replace (a * 256) with (Z.shiftl a 8) by (rewrite Z.shiftl_mul_pow2 by lia; done).
  rewrite lor_shiftl by (change (2 ^ 8) with 256; lia). change (2 ^ 8) with 256. lia.
Qed.

Lemma key_chunk_three a b c : 0 <= a < 256 -> 0 <= b < 256 -> 0 <= c < 256 ->
  read_key_chunk (key_chunk [a; b; c]) = [a; b; c] /\ List.length (key_chunk [a; b; c]) = 4%nat.
Proof.
  intros Ha Hb Hc. split; [|done]. unfold key_chunk. cbn [List.length Nat.add take fmap list_fmap lookup list_lookup default].
  cbn. rewrite chunk_bits by done. unfold read_key_chunk. cbn [fold_left]. rewrite !letter_of_bits by lia.
  change (2 ^ 18) with 262144. change (2 ^ 12) with 4096. change (2 ^ 6) with 64. change (2 ^ 0) with 1.
  set (x := a * 65536 + b * 256 + c).
  assert (Hx : ((0 * 64 + x / 262144 mod 64) * 64 + x / 4096 mod 64) * 64 + x / 64 mod 64 = x / 64)
    by (subst x; Z.div_mod_to_equations; lia).
  rewrite Hx, Z.div_1_r. replace (x / 64 * 64 + x mod 64) with x by (Z.div_mod_to_equations; lia).
  subst x. f_equal; [|f_equal; [|f_equal]]; Z.div_mod_to_equations; lia.
Qed.

Lemma key_chunk_one a : 0 <= a < 256 ->
  read_key_chunk (key_chunk [a]) = [a] /\ List.length (key_chunk [a]) = 2%nat.
Proof.
  intros Ha. split; [|done]. unfold key_chunk. cbn [List.length Nat.add take fmap list_fmap].
  cbn. rewrite !Z.lor_0_r. unfold read_key_chunk. cbn [fold_left]. rewrite !letter_of_bits by lia.
  rewrite Z.shiftl_mul_pow2 by lia.
  change (2 ^ 18) with 262144. change (2 ^ 12) with 4096. change (2 ^ 16) with 65536.
  f_equal. Z.div_mod_to_equations; lia.
Qed.

Lemma length_four {A} (l : list A) : List.length l = 4%nat -> exists a b c d, l = [a; b; c; d].
Proof. destruct l as [|a [|b [|c [|d [|e l]]]]]; try done. by eauto. Qed.
Lemma length_two {A} (l : list A) : List.length l = 2%nat -> exists a b, l = [a; b].
Proof. destruct l as [|a [|b [|c l]]]; try done. by eauto. Qed.

Lemma read_key_name_of x : List.length x = 16%nat -> Forall (fun b => 0 <= b < 256) x ->
  read_key_name (key_name x) = Some x /\ List.length (key_name x) = 24%nat.
Proof.
  intros Hl Hb. do 16 (destruct x as [|? x]; [done|]). destruct x; [|done].
  repeat match goal with H : Forall _ (_ :: _) |- _ => apply Forall_cons in H as [? H] end.
  unfold read_key_name, key_name. rewrite strip_prefix_app.
  cbn [chunks take drop flat_map fmap option_fmap option_map].
  rewrite !length_app.
  repeat match goal with
  | |- context [key_chunk [?a; ?b; ?c]] =>
      let l := fresh "l" in let Hr := fresh in let Hn := fresh in
      destruct (key_chunk_three a b c) as [Hr Hn]; [done..|];
      set (l := key_chunk [a; b; c]) in *; clearbody l
  | |- context [key_chunk [?a]] =>
      let l := fresh "l" in let Hr := fresh in let Hn := fresh in
      destruct (key_chunk_one a) as [Hr Hn]; [done|];
      set (l := key_chunk [a]) in *; clearbody l
  end.
  rewrite app_nil_r. split; [|cbn; lia].
  repeat match goal with
  | H : List.length _ = 4%nat |- _ => apply length_four in H as (? & ? & ? & ? & ->)
  | H : List.length _ = 2%nat |- _ => apply length_two in H as (? & ? & ->)
  end.
  cbn [app take drop chunks flat_map].
  repeat match goal with H : read_key_chunk _ = _ |- _ => rewrite H; clear H end. done.
Qed.

(** A generation is found again under its key name.  The name of a generation of sixteen bytes is
    [a.] and twenty-two letters of the URL-safe alphabet, and determines the generation: reading
    the letters back gives its bytes, so two generations never share a key. *)
Theorem key_name_round_trips g :
  List.length g = 16%nat -> Forall (fun b => 0 <= b < 256) g ->
  read_key_name (key_name g) = Some g
  /\ List.length (key_name g) = 24%nat
  /\ Forall (fun b => contains b (46 :: ALPHABET) = true) (key_name g)
  /\ forall g', List.length g' = 16%nat -> Forall (fun b => 0 <= b < 256) g' ->
     key_name g' = key_name g -> g' = g.
Proof.
  intros Hl Hb. destruct (read_key_name_of g Hl Hb) as [Hr Hn]. split_and!; [done|done| |].
  - unfold key_name. apply Forall_app. split; [by repeat constructor|].
    apply flat_map_Forall. intros chunk _. unfold key_chunk. apply Forall_fmap, Forall_forall.
    intros shift _. cbn. change 63 with (Z.ones 6). rewrite Z.land_ones by lia.
    set (n := Z.shiftr _ shift mod 2 ^ 6).
    assert (Hall : forallb (fun i => contains (default 0 (ALPHABET !! i)) (46 :: ALPHABET))
                     (seq 0 64) = true) by by vm_compute.
    rewrite forallb_forall in Hall. apply (Hall (Z.to_nat n)), in_seq.
    pose proof (Z.mod_pos_bound (Z.shiftr (Z.lor (Z.lor (Z.shiftl (default 0 (chunk !! 0%nat)) 16)
      (Z.shiftl (default 0 (chunk !! 1%nat)) 8)) (default 0 (chunk !! 2%nat))) shift) (2 ^ 6) eq_refl).
    change (2 ^ 6) with 64 in *. lia.
  - intros g' Hl' Hb' Heq. destruct (read_key_name_of g' Hl' Hb') as [Hr' _]. rewrite Heq, Hr in Hr'.
    by simplify_eq.
Qed.
