(* ===== verification/StorageState.v ===== *)
(** * The canonical stored state

    [platform/src/storage/state.rs]: the document in the television's database and its transitions.
    A transition is a candidate for a compare-and-swap write; the operation ledger reconciles
    uncertain writes.

    The JSON library and the code the build generates are the classes [JsonNumber], [Identities] and
    [StateCodec].  An object of the JSON library is its entries in the order of their keys. *)

From Stdlib Require Import String.
From S2P Require Import Prelude Bytes Digest.

#[local] Open Scope Z_scope.

(** ** JSON values *)

(** Numbers of [serde_json]: compared and printed only. *)
Class JsonNumber := {
  Number : Type;
  number_eq_dec :: EqDecision Number;
  number_text : Number -> bytes
}.

(** The install identities, generated from the packaging manifest. *)
Class Identities := {
  Flavor : Type;
  flavor_eq_dec :: EqDecision Flavor;
  object_id : Flavor -> bytes
}.

Inductive Value `{JsonNumber} :=
  | VNull
  | VBool (b : bool)
  | VNumber (n : Number)
  | VString (s : bytes)
  | VArray (values : list Value)
  | VObject (entries : list (bytes * Value)).

#[export] Instance Value_eq_dec `{JsonNumber} : EqDecision Value.
Proof.
  refine (
    fix go (v w : Value) : Decision (v = w) := let _ : EqDecision Value := @go in
    match v, w with
    | VNull, VNull => left _
    | VBool a, VBool b => cast_if (decide (a = b))
    | VNumber a, VNumber b => cast_if (decide (a = b))
    | VString a, VString b => cast_if (decide (a = b))
    | VArray a, VArray b => cast_if (decide (a = b))
    | VObject a, VObject b => cast_if (decide (a = b))
    | _, _ => right _
    end); abstract congruence.
Defined.

Definition is_null `{JsonNumber} (v : Value) : bool := match v with VNull => true | _ => false end.

(** [remove] of an object, and whether the key was present. *)
Definition remove_key `{JsonNumber} (key : bytes) (entries : list (bytes * Value))
  : list (bytes * Value) :=
  List.filter (fun e => negb (bool_decide (e.1 = key))) entries.
Definition has_key `{JsonNumber} (key : bytes) (entries : list (bytes * Value)) : bool :=
  existsb (fun e => bool_decide (e.1 = key)) entries.

Definition sum_sizes (l : list Z) : Z := fold_left (fun acc n => u32_wrap (acc + n)) l 0.

(** [usize]: 32 bits. *)
Fixpoint logical_size `{JsonNumber} (v : Value) : Z :=
  match v with
  | VNull => 4
  | VBool b => if b then 4 else 5
  | VNumber n => Z.of_nat (List.length (number_text n))
  | VString s => u32_wrap (2 + Z.of_nat (List.length s))
  | VArray values =>
      u32_wrap (2 + Z.of_nat (List.length values - 1) + sum_sizes (map logical_size values))
  | VObject entries =>
      u32_wrap (2 + Z.of_nat (List.length entries - 1)
                + sum_sizes (map (fun e => u32_wrap (3 + Z.of_nat (List.length e.1) + logical_size e.2))
                               entries))
  end.

(** ** The document *)

Definition FORMAT : bytes := lit "plxnative-state".
Definition SCHEMA : Z := 1.
Definition MAX_LOGICAL_BYTES : Z := 262144.
Definition MAX_ENCODED_BYTES : Z := 524288.
Definition LEDGER_CAPACITY : nat := 16.

Definition ACCOUNT_BOUND_PREFERENCES : list bytes :=
  lit <$> ["server_key_pins"; "plaintext_consent"; "track_memory"; "profile_prefs";
           "subtitle_offsets"; "library_sorts"; "last_library"]%string.

Inductive StateError :=
  | Invalid | UnsupportedFormat | UnsupportedSchema | FlavorMismatch | IdCollision
  | LogicalTooLarge | EncodedTooLarge | Conflict | Exhausted | RandomUnavailable.

Abbreviation Checked := (Outcome StateError).

Record Expected := mk_expected { ex_epoch : Z; ex_auth_generation : Generation }.
#[export] Instance Expected_eq_dec : EqDecision Expected.
Proof. solve_decision. Defined.

Inductive Status := Active | Cleared.
#[export] Instance Status_eq_dec : EqDecision Status.
Proof. solve_decision. Defined.

Inductive MigrationDomain := Domain_Session | Domain_Consent.
#[export] Instance MigrationDomain_eq_dec : EqDecision MigrationDomain.
Proof. solve_decision. Defined.

Inductive MigrationProgress := Progress_Pending | Progress_Complete.
#[export] Instance MigrationProgress_eq_dec : EqDecision MigrationProgress.
Proof. solve_decision. Defined.

Record DomainMigration := mk_migration { dm_progress : MigrationProgress; dm_pending_import : option bytes }.
Record Migrations := mk_migrations { mg_session : DomainMigration; mg_consent : DomainMigration }.

Definition migration_complete : DomainMigration := mk_migration Progress_Complete None.

Record Applied := mk_applied { ap_revision : Z; ap_epoch : Z; ap_auth_generation : Generation }.

Inductive ReceiptVerification := Receipt_Public | Receipt_Auth (plaintext_digest : option bytes).

Record LedgerEntry := mk_entry {
  le_id : Generation;
  le_digest : bytes;
  le_result : Applied;
  le_verification : option ReceiptVerification
}.

Section Data.
  Context `{JsonNumber}.

Record PublicPayload := mk_public {
  pp_preferences : Value;
  pp_client_id : option bytes;
  pp_profile : Value;
  pp_pins : Value;
  pp_recents : Value;
  pp_consent : Value;
  pp_scopes : Value;
  pp_ids : Value;
  pp_account_extensions : Value
}.
#[export] Instance PublicPayload_eq_dec : EqDecision PublicPayload.
Proof. solve_decision. Defined.
#[export] Instance eta_public : Eta PublicPayload := fun p =>
  mk_public (pp_preferences p) (pp_client_id p) (pp_profile p) (pp_pins p) (pp_recents p)
    (pp_consent p) (pp_scopes p) (pp_ids p) (pp_account_extensions p).

Definition public_default : PublicPayload :=
  mk_public VNull None VNull VNull VNull VNull VNull VNull VNull.

Record ConsentPayload := mk_consent { cp_consent : Value; cp_scopes : Value; cp_ids : Value }.
Record ProtectedAuth := mk_protected { pa_auth_generation : Generation; pa_envelope : bytes }.

Inductive MigrationAdvance :=
  | SessionPending (opaque_envelope : bytes)
  | SessionComplete (public : PublicPayload) (auth : ProtectedAuth)
  | ConsentComplete (consent : ConsentPayload)
  | CompleteEmpty (domain : MigrationDomain).

Inductive Mutation :=
  | UpdatePreferences (public : PublicPayload)
  | UpdateConsent (consent scopes ids : Value)
  | ReplaceAuth (auth_generation : Generation) (auth_envelope : bytes) (public : PublicPayload)
  | AdvanceMigration (domain : MigrationDomain) (payload : MigrationAdvance)
  | ClearTenure (auth_generation : Generation).

Record Operation := mk_operation {
  op_id : Generation;
  op_digest : bytes;
  op_expected : Expected;
  op_mutation : Mutation
}.

Record PendingAuth := mk_pending { pe_operation : Operation; pe_plaintext_digest : bytes }.

Context `{Identities}.

Record CanonicalState := mk_state {
  cs_format : bytes;
  cs_schema : Z;
  cs_flavor : Flavor;
  cs_id : bytes;
  cs_revision : Z;
  cs_epoch : Z;
  cs_auth_generation : Generation;
  cs_status : Status;
  cs_public : PublicPayload;
  cs_auth_envelope : option bytes;
  cs_migrations : Migrations;
  cs_operations : list LedgerEntry;
  cs_pending_auth : option PendingAuth
}.
#[export] Instance eta_state : Eta CanonicalState := fun s =>
  mk_state (cs_format s) (cs_schema s) (cs_flavor s) (cs_id s) (cs_revision s) (cs_epoch s)
    (cs_auth_generation s) (cs_status s) (cs_public s) (cs_auth_envelope s) (cs_migrations s)
    (cs_operations s) (cs_pending_auth s).
End Data.

(** What [serde] derives for the document, and [serde_json] makes of it. *)
Class StateCodec `{JsonNumber, Identities} := {
  state_value : CanonicalState -> option Value;
  state_text : CanonicalState -> option bytes;
  state_of_text : bytes -> option CanonicalState;
  request_value : Generation -> Expected -> Mutation -> option Value;
  value_text : Value -> option bytes
}.

Inductive OperationStatus := Status_Applied (result : Applied) | Status_Unknown.

Section Operations.
  Context `{StateCodec}.

(** [sorted_json]: entries by key, those of a later equal key winning, as [BTreeMap] collects them. *)
Fixpoint bytes_le (a b : bytes) : bool :=
  match a, b with
  | [], _ => true
  | _ :: _, [] => false
  | x :: a, y :: b => if x =? y then bytes_le a b else x <? y
  end.

Fixpoint insert_entry (e : bytes * Value) (l : list (bytes * Value)) : list (bytes * Value) :=
  match l with
  | [] => [e]
  | x :: l =>
      if bool_decide (x.1 = e.1) then e :: l
      else if bytes_le (e.1) (x.1) then e :: x :: l else x :: insert_entry e l
  end.

Fixpoint sorted_json (v : Value) : Value :=
  match v with
  | VObject entries =>
      VObject (fold_left (fun acc e => insert_entry e acc)
                 (map (fun e => (e.1, sorted_json e.2)) entries) [])
  | VArray values => VArray (map sorted_json values)
  | v => v
  end.

Definition check_logical_size (v : Value) : Checked unit :=
  refuse LogicalTooLarge (MAX_LOGICAL_BYTES <? logical_size v).

Definition computed_digest (o : Operation) : Checked bytes :=
  value ← ok_or Invalid (request_value (op_id o) (op_expected o) (op_mutation o));
  _ ← check_logical_size value;
  text ← ok_or Invalid (value_text (sorted_json value));
  _ ← refuse EncodedTooLarge (MAX_ENCODED_BYTES <? Z.of_nat (List.length text));
  Ok (digest_bytes text).

Definition operation_new (id : Generation) (expected : Expected) (mutation : Mutation)
  : Checked Operation :=
  digest ← computed_digest (mk_operation id [] expected mutation);
  Ok (mk_operation id digest expected mutation).

Definition state_new (flavor : Flavor) (auth_generation : Generation) : CanonicalState :=
  mk_state FORMAT SCHEMA flavor (object_id flavor) 0 0 auth_generation Active public_default None
    (mk_migrations (mk_migration Progress_Pending None) (mk_migration Progress_Pending None)) [] None.

Definition expected_of (s : CanonicalState) : Expected := mk_expected (cs_epoch s) (cs_auth_generation s).

(** *** Validation *)

Definition entry_bad (s : CanonicalState) (older : list LedgerEntry) (e : LedgerEntry) : bool :=
  negb (valid_digest (le_digest e))
  || (ap_revision (le_result e) =? 0)
  || (cs_revision s <? ap_revision (le_result e))
  || (cs_epoch s <? ap_epoch (le_result e))
  || existsb (fun o => bool_decide (le_id o = le_id e)) older
  || match last older with
     | Some o => ap_revision (le_result e) <=? ap_revision (le_result o)
     | None => false
     end.

Definition receipt_bad (e : LedgerEntry) : bool :=
  match le_verification e with
  | Some (Receipt_Auth (Some digest)) => negb (valid_digest digest)
  | _ => false
  end.

Fixpoint validate_entries (s : CanonicalState) (older rest : list LedgerEntry) : Checked unit :=
  match rest with
  | [] => Ok tt
  | e :: rest =>
      _ ← refuse Invalid (entry_bad s older e);
      _ ← refuse Invalid (receipt_bad e);
      validate_entries s (older ++ [e]) rest
  end.

Definition migration_bad (m : DomainMigration) : bool :=
  bool_decide (dm_progress m = Progress_Complete) && bool_decide (is_Some (dm_pending_import m)).

Definition cleared_bad (s : CanonicalState) : bool :=
  let p := cs_public s in
  bool_decide (cs_status s = Cleared)
  && (bool_decide (is_Some (cs_auth_envelope s)) || bool_decide (is_Some (pp_client_id p))
      || negb (is_null (pp_profile p)) || negb (is_null (pp_pins p)) || negb (is_null (pp_recents p))
      || negb (is_null (pp_consent p)) || negb (is_null (pp_scopes p)) || negb (is_null (pp_ids p))
      || negb (is_null (pp_account_extensions p))
      || negb (bool_decide (dm_progress (mg_session (cs_migrations s)) = Progress_Complete))
      || negb (bool_decide (dm_progress (mg_consent (cs_migrations s)) = Progress_Complete))).

(** The recursion of [validate] through [pending_candidate] is the argument. *)
Definition validate_with (pending : CanonicalState -> Checked unit) (s : CanonicalState)
  : Checked unit :=
  _ ← refuse UnsupportedFormat (negb (bool_decide (cs_format s = FORMAT)));
  _ ← refuse UnsupportedSchema (negb (cs_schema s =? SCHEMA));
  _ ← refuse IdCollision (negb (bool_decide (cs_id s = object_id (cs_flavor s))));
  _ ← refuse Invalid (LEDGER_CAPACITY <? List.length (cs_operations s))%nat;
  _ ← match cs_pending_auth s with
      | Some _ => _ ← refuse Invalid (bool_decide (cs_status s = Cleared)); pending s
      | None => Ok tt
      end;
  _ ← validate_entries s [] (cs_operations s);
  _ ← refuse Invalid (migration_bad (mg_session (cs_migrations s)));
  _ ← refuse Invalid (migration_bad (mg_consent (cs_migrations s)));
  _ ← refuse Invalid (cleared_bad s);
  value ← ok_or Invalid (state_value s);
  check_logical_size value.

Definition find_entry (id : Generation) (l : list LedgerEntry) : option LedgerEntry :=
  List.find (fun e => bool_decide (le_id e = id)) l.

Definition operation_status_with (validate : CanonicalState -> Checked unit) (s : CanonicalState)
    (id : Generation) (digest : bytes) : Checked OperationStatus :=
  _ ← validate s;
  _ ← refuse Invalid (negb (valid_digest digest));
  match find_entry id (cs_operations s) with
  | Some e => if bool_decide (le_digest e = digest) then Ok (Status_Applied (le_result e)) else Err Invalid
  | None => Ok Status_Unknown
  end.

Definition encode_with (validate : CanonicalState -> Checked unit) (s : CanonicalState) : Checked bytes :=
  _ ← validate s;
  text ← ok_or Invalid (state_text s);
  _ ← refuse EncodedTooLarge (MAX_ENCODED_BYTES <? Z.of_nat (List.length text));
  Ok text.

(** *** The transitions *)

Definition pending_generation (s : CanonicalState) : option Generation :=
  p ← cs_pending_auth s;
  match op_mutation (pe_operation p) with
  | ReplaceAuth g _ _ => Some g
  | _ => None
  end.

Definition check_fresh_generation (s : CanonicalState) (g : Generation) : Checked unit :=
  refuse Invalid
    (bool_decide (g = cs_auth_generation s)
     || bool_decide (pending_generation s = Some g)
     || existsb (fun e => bool_decide (ap_auth_generation (le_result e) = g)) (cs_operations s)).

Definition allowed_over_pending (m : Mutation) : bool :=
  match m with AdvanceMigration _ _ => false | _ => true end.

Definition cleared_language_reset (s : CanonicalState) (m : Mutation) : bool :=
  bool_decide (cs_status s = Cleared)
  && match m with
     | UpdatePreferences public =>
         match pp_preferences (cs_public s) with
         | VObject entries =>
             has_key (lit "language") entries
             && bool_decide
                  (public = (cs_public s) <| pp_preferences := VObject (remove_key (lit "language") entries) |>)
         | _ => false
         end
     | _ => false
     end.

(** The refusals that do not depend on the mutation's own payload. *)
Definition admission (s : CanonicalState) (o : Operation) : Checked unit :=
  _ ← refuse Conflict (negb (bool_decide (op_expected o = expected_of s)));
  _ ← refuse Invalid
         (match cs_pending_auth s with
          | Some p => bool_decide (op_id (pe_operation p) = op_id o)
          | None => false
          end);
  _ ← refuse Conflict
         (bool_decide (is_Some (cs_pending_auth s)) && negb (allowed_over_pending (op_mutation o)));
  let reset := cleared_language_reset s (op_mutation o) in
  _ ← refuse Conflict
         (match op_mutation o with UpdatePreferences _ => true | _ => false end && negb reset
          && (negb (bool_decide (dm_progress (mg_session (cs_migrations s)) = Progress_Complete))
              || bool_decide (cs_auth_envelope s = None)));
  refuse Conflict
    (bool_decide (cs_status s = Cleared) && negb reset
     && negb (match op_mutation o with ReplaceAuth _ _ _ | ClearTenure _ => true | _ => false end)).

(** Public data with the consent of another: consent is committed on its own. *)
Definition keep_consent (own : PublicPayload) (public : PublicPayload) : PublicPayload :=
  public <| pp_consent := pp_consent own |> <| pp_scopes := pp_scopes own |> <| pp_ids := pp_ids own |>.

Definition current_migration (s : CanonicalState) (d : MigrationDomain) : DomainMigration :=
  match d with Domain_Session => mg_session (cs_migrations s) | Domain_Consent => mg_consent (cs_migrations s) end.

Definition set_migration (d : MigrationDomain) (m : DomainMigration) (s : CanonicalState) : CanonicalState :=
  s <| cs_migrations :=
    match d with
    | Domain_Session => mk_migrations m (mg_consent (cs_migrations s))
    | Domain_Consent => mk_migrations (mg_session (cs_migrations s)) m
    end |>.

Definition with_consent (consent scopes ids : Value) (s : CanonicalState) : CanonicalState :=
  s <| cs_public := (cs_public s) <| pp_consent := consent |> <| pp_scopes := scopes |> <| pp_ids := ids |> |>.

(** [next] starts as the state with the pending refresh cancelled. *)
Definition advance_migration (s : CanonicalState) (d : MigrationDomain) (payload : MigrationAdvance)
    (next : CanonicalState) : Checked CanonicalState :=
  _ ← refuse Invalid (bool_decide (dm_progress (current_migration s d) = Progress_Complete));
  match d, payload with
  | Domain_Session, SessionPending envelope =>
      _ ← refuse Invalid (bool_decide (envelope = []));
      Ok (set_migration Domain_Session
            (mk_migration (dm_progress (mg_session (cs_migrations next))) (Some envelope)) next)
  | Domain_Session, SessionComplete public auth =>
      _ ← check_fresh_generation s (pa_auth_generation auth);
      _ ← refuse Invalid (bool_decide (pa_envelope auth = []));
      Ok (set_migration d migration_complete
            (next <| cs_public := keep_consent (cs_public s) public |>
                  <| cs_auth_generation := pa_auth_generation auth |>
                  <| cs_auth_envelope := Some (pa_envelope auth) |>
                  <| cs_status := Active |>))
  | Domain_Consent, ConsentComplete c =>
      Ok (set_migration d migration_complete (with_consent (cp_consent c) (cp_scopes c) (cp_ids c) next))
  | actual, CompleteEmpty payload_domain =>
      if bool_decide (actual = payload_domain) then Ok (set_migration d migration_complete next)
      else Err Invalid
  | _, _ => Err Invalid
  end.

Definition cleared_preferences (v : Value) : Value :=
  match v with
  | VObject entries => VObject (fold_left (fun l k => remove_key k l) ACCOUNT_BOUND_PREFERENCES entries)
  | v => v
  end.

Definition mutate (s : CanonicalState) (m : Mutation) : Checked CanonicalState :=
  let next := s <| cs_pending_auth := None |> in
  match m with
  | UpdatePreferences public =>
      Ok (next <| cs_public := keep_consent (cs_public next) public |>)
  | UpdateConsent consent scopes ids =>
      Ok (set_migration Domain_Consent migration_complete (with_consent consent scopes ids next))
  | ReplaceAuth g envelope public =>
      _ ← check_fresh_generation s g;
      _ ← refuse Invalid (bool_decide (envelope = []));
      Ok (set_migration Domain_Session migration_complete
            (next <| cs_auth_generation := g |> <| cs_auth_envelope := Some envelope |>
                  <| cs_public := keep_consent (cs_public s) public |> <| cs_status := Active |>))
  | AdvanceMigration d payload => advance_migration s d payload next
  | ClearTenure g =>
      _ ← check_fresh_generation s g;
      epoch ← ok_or Exhausted (u64_checked (cs_epoch next + 1));
      Ok (next <| cs_epoch := epoch |> <| cs_auth_generation := g |> <| cs_status := Cleared |>
               <| cs_auth_envelope := None |>
               <| cs_public := public_default
                    <| pp_preferences := cleared_preferences (pp_preferences (cs_public s)) |> |>
               <| cs_migrations := mk_migrations migration_complete migration_complete |>)
  end.

Definition receipt_of (m : Mutation) : ReceiptVerification :=
  match m with
  | ReplaceAuth _ _ _ | AdvanceMigration _ (SessionComplete _ _) => Receipt_Auth None
  | _ => Receipt_Public
  end.

(** [push], and [remove(0)] past the capacity. *)
Definition push_entry (l : list LedgerEntry) (e : LedgerEntry) : list LedgerEntry :=
  let l := l ++ [e] in if (LEDGER_CAPACITY <? List.length l)%nat then tail l else l.

Definition apply_verified_digest_with (validate : CanonicalState -> Checked unit) (s : CanonicalState)
    (o : Operation) : Checked (CanonicalState * Applied) :=
  _ ← validate s;
  _ ← refuse Invalid (negb (valid_digest (op_digest o)));
  status ← operation_status_with validate s (op_id o) (op_digest o);
  match status with
  | Status_Applied result => Ok (s, result)
  | Status_Unknown =>
      _ ← admission s o;
      next ← mutate s (op_mutation o);
      revision ← ok_or Exhausted (u64_checked (cs_revision next + 1));
      let result := mk_applied revision (cs_epoch next) (cs_auth_generation next) in
      let next :=
        next <| cs_revision := revision |>
             <| cs_operations := push_entry (cs_operations next)
                  (mk_entry (op_id o) (op_digest o) result (Some (receipt_of (op_mutation o)))) |> in
      _ ← encode_with validate next;
      Ok (next, result)
  end.

(** *** The pending refresh: a state without one is validated without recursion *)

Definition validate_settled : CanonicalState -> Checked unit := validate_with (fun _ => Ok tt).

Definition set_verification (v : ReceiptVerification) (e : LedgerEntry) : LedgerEntry :=
  mk_entry (le_id e) (le_digest e) (le_result e) (Some v).

Definition pending_candidate_with
    (apply : CanonicalState -> Operation -> Checked (CanonicalState * Applied)) (s : CanonicalState)
  : Checked (option (CanonicalState * Applied)) :=
  match cs_pending_auth s with
  | None => Ok None
  | Some pending =>
      let o := pe_operation pending in
      _ ← refuse Invalid
             (negb (valid_digest (pe_plaintext_digest pending))
              || negb (match op_mutation o with ReplaceAuth _ _ _ => true | _ => false end)
              || existsb (fun e => bool_decide (le_id e = op_id o)) (cs_operations s));
      '(candidate, applied) ← apply (s <| cs_pending_auth := None |>) o;
      last_entry ← ok_or Invalid (last (cs_operations candidate));
      Ok (Some (candidate <| cs_operations :=
                  removelast (cs_operations candidate)
                  ++ [set_verification (Receipt_Auth (Some (pe_plaintext_digest pending))) last_entry] |>,
                applied))
  end.

Definition pending_candidate : CanonicalState -> Checked (option (CanonicalState * Applied)) :=
  pending_candidate_with (apply_verified_digest_with validate_settled).

Definition validate (s : CanonicalState) : Checked unit :=
  validate_with (fun s => _ ← pending_candidate s; Ok tt) s.

Definition operation_status : CanonicalState -> Generation -> bytes -> Checked OperationStatus :=
  operation_status_with validate.
Definition encode : CanonicalState -> Checked bytes := encode_with validate.

Definition decode (text : bytes) (flavor : Flavor) : Checked CanonicalState :=
  _ ← refuse EncodedTooLarge (MAX_ENCODED_BYTES <? Z.of_nat (List.length text));
  s ← ok_or Invalid (state_of_text text);
  _ ← refuse FlavorMismatch (negb (bool_decide (cs_flavor s = flavor)));
  _ ← validate s;
  Ok s.

Definition apply_verified_digest : CanonicalState -> Operation -> Checked (CanonicalState * Applied) :=
  apply_verified_digest_with validate.

Definition apply (s : CanonicalState) (o : Operation) : Checked (CanonicalState * Applied) :=
  digest ← computed_digest o;
  _ ← refuse Invalid (negb (bool_decide (digest = op_digest o)));
  apply_verified_digest s o.

End Operations.
