(* ===== verification/StorageHistory.v ===== *)
(** * Histories of the canonical stored state

    What the transitions of [StorageState] keep, one by one and in sequence: validity, receipts,
    compare-and-swap across a sign-out, the independence of consent, and the prepared refresh. *)

From Stdlib Require Import String.
From S2P Require Import Prelude Bytes Digest StorageState.

#[local] Open Scope Z_scope.

Section History.
  Context `{StateCodec}.

(** ** The recursion of the source *)

Lemma validate_with_settled f g s : cs_pending_auth s = None -> validate_with f s = validate_with g s.
Proof. intros Hp. unfold validate_with. by rewrite Hp. Qed.

Lemma set_migration_pending d m s : cs_pending_auth (set_migration d m s) = cs_pending_auth s.
Proof. by destruct d. Qed.

(** [mutations H]: the branches of a mutation that succeed. *)
Ltac mutations H :=
  unfold mutate, advance_migration in H;
  repeat match type of H with
  | match ?m with UpdatePreferences _ => _ | _ => _ end = _ => destruct m
  end; outcomes;
  repeat match goal with
  | H : match ?d with Domain_Session => _ | Domain_Consent => _ end = Ok _ |- _ => destruct d
  | H : match ?p with SessionPending _ => _ | _ => _ end = Ok _ |- _ => destruct p
  | H : (if bool_decide ?P then _ else _) = Ok _ |- _ => destruct (bool_decide_reflect P); [|done]
  end; outcomes; simplify_eq.

Lemma mutate_pending s m next : mutate s m = Ok next -> cs_pending_auth next = None.
Proof. intros Hm. mutations Hm; by rewrite ?set_migration_pending. Qed.

Lemma apply_with_settled f g s o : cs_pending_auth s = None ->
  apply_verified_digest_with (validate_with f) s o = apply_verified_digest_with (validate_with g) s o.
Proof.
  intros Hp. unfold apply_verified_digest_with, operation_status_with.
  rewrite (validate_with_settled f g s Hp).
  destruct (validate_with g s); cbn [mbind outcome_bind]; [|done|done].
  destruct (refuse Invalid _); cbn [mbind outcome_bind]; [|done|done].
  destruct (match find_entry _ _ with Some _ => _ | None => _ end) as [[r|]| |]; cbn [mbind outcome_bind];
    try done.
  destruct (admission s o); cbn [mbind outcome_bind]; [|done|done].
  destruct (mutate s (op_mutation o)) as [next| |] eqn:Em; cbn [mbind outcome_bind]; [|done|done].
  destruct (u64_checked _); cbn [ok_or mbind outcome_bind]; [|done].
  apply mutate_pending in Em. unfold encode_with.
  by rewrite (validate_with_settled f g) by done.
Qed.

(** The definitions satisfy the recursive equation of the source. *)
Lemma pending_candidate_eq s : pending_candidate s = pending_candidate_with apply_verified_digest s.
Proof.
  unfold pending_candidate, pending_candidate_with. destruct (cs_pending_auth s) as [p|]; [|done].
  destruct (refuse Invalid _); cbn [mbind outcome_bind]; [|done|done].
  unfold apply_verified_digest, validate, validate_settled.
  by rewrite (apply_with_settled _ (fun s => _ ← pending_candidate s; Ok tt)).
Qed.

(** ** One transition *)

Inductive Transition (s : CanonicalState) (o : Operation) : CanonicalState -> Applied -> Prop :=
  | Replayed e :
      validate s = Ok tt -> find_entry (op_id o) (cs_operations s) = Some e ->
      le_digest e = op_digest o -> Transition s o s (le_result e)
  | Advanced next revision :
      validate s = Ok tt ->
      find_entry (op_id o) (cs_operations s) = None ->
      op_expected o = expected_of s ->
      admission s o = Ok tt ->
      mutate s (op_mutation o) = Ok next ->
      revision = cs_revision next + 1 ->
      0 <= revision <= u64_max ->
      let result := mk_applied revision (cs_epoch next) (cs_auth_generation next) in
      let next' :=
        next <| cs_revision := revision |>
             <| cs_operations := push_entry (cs_operations next)
                  (mk_entry (op_id o) (op_digest o) result (Some (receipt_of (op_mutation o)))) |> in
      (exists text, encode next' = Ok text) ->
      Transition s o next' result.

Ltac units := repeat match goal with x : unit |- _ => destruct x end.

Lemma apply_transition s o n r : apply_verified_digest s o = Ok (n, r) ->
  Transition s o n r /\ valid_digest (op_digest o) = true.
Proof.
  unfold apply_verified_digest, apply_verified_digest_with, operation_status_with. intros Ha. outcomes.
  rewrite negb_false_iff in *. split; [|done].
  units.
  destruct (find_entry (op_id o) (cs_operations s)) as [e|] eqn:Ef.
  - destruct (bool_decide_reflect (le_digest e = op_digest o)); [|done]. simplify_eq. by constructor.
  - simplify_eq. outcomes.
    units.
    match goal with H : u64_checked _ = Some _ |- _ => apply checked_Some in H as [-> ?] end.
    simplify_eq. eapply Advanced; try done; [|by eexists].
    match goal with H : admission s o = Ok tt |- _ => unfold admission in H end. outcomes.
    match goal with H : negb (bool_decide (op_expected o = _)) = false |- _ =>
      by apply negb_false_iff, bool_decide_eq_true in H end.
Qed.

Lemma transition_apply s o n r : Transition s o n r -> valid_digest (op_digest o) = true ->
  apply_verified_digest s o = Ok (n, r).
Proof.
  intros [e Hv Hf Hd|next revision Hv Hf He Ha Hm Hr Hb result next' [text Ht]] Hdig;
    unfold apply_verified_digest, apply_verified_digest_with, operation_status_with;
    rewrite Hv, Hdig; cbn [negb refuse mbind outcome_bind]; rewrite Hf.
  - by rewrite bool_decide_true.
  - cbn [mbind outcome_bind]. rewrite Ha, Hm. cbn [mbind outcome_bind].
    assert (u64_checked (cs_revision next + 1) = Some revision) as ->
      by (apply checked_Some; by rewrite <- Hr).
    cbn [ok_or mbind outcome_bind]. unfold encode in Ht. fold result next'. by rewrite Ht.
Qed.

(** What every mutation leaves alone. *)
Lemma mutate_frame s m next : mutate s m = Ok next ->
  cs_format next = cs_format s /\ cs_schema next = cs_schema s /\ cs_flavor next = cs_flavor s
  /\ cs_id next = cs_id s /\ cs_revision next = cs_revision s /\ cs_operations next = cs_operations s
  /\ cs_epoch s <= cs_epoch next
  /\ (cs_epoch next = cs_epoch s \/ cs_epoch next = cs_epoch s + 1).
Proof.
  intros Hm. mutations Hm; cbn; split_and!; try done; try lia; auto;
    match goal with H : u64_checked _ = Some _ |- _ => apply checked_Some in H as [-> ?] end; cbn in *; lia || auto.
Qed.

Lemma encode_validate s text : encode s = Ok text -> validate s = Ok tt.
Proof.
  unfold encode, encode_with. intros He. outcomes. units. done.
Qed.

Lemma push_entry_last l e : last (push_entry l e) = Some e.
Proof.
  unfold push_entry. destruct (_ <? _)%nat eqn:E; [|by rewrite last_snoc].
  destruct l as [|x l]; [by cbn in E|]. cbn [app tail]. by rewrite last_snoc.
Qed.

Lemma push_entry_length l e : (List.length l <= LEDGER_CAPACITY)%nat ->
  (List.length (push_entry l e) <= LEDGER_CAPACITY)%nat.
Proof.
  unfold push_entry, LEDGER_CAPACITY. intros Hl. rewrite length_app. cbn [List.length].
  destruct (Nat.ltb_spec 16 (List.length l + 1)); [|rewrite length_app; cbn; lia].
  destruct l as [|x l]; cbn in *; [lia|]. rewrite length_app. cbn. lia.
Qed.

(** C25. A transition gives a valid document.  A successful call either replays a receipt of the ledger and
    changes nothing, or moves the revision up by exactly one, cancels a prepared refresh, records
    the operation with the receipt it answers as the newest ledger entry, never lowers the epoch
    and keeps format, schema, flavor and object id; in both cases the result passes the whole
    validation again, with a ledger of at most sixteen entries. *)
Theorem transitions_keep_the_document_valid s o n r : apply_verified_digest s o = Ok (n, r) ->
  validate n = Ok tt
  /\ (List.length (cs_operations n) <= LEDGER_CAPACITY)%nat
  /\ cs_format n = cs_format s /\ cs_schema n = cs_schema s /\ cs_flavor n = cs_flavor s
  /\ cs_id n = cs_id s /\ cs_epoch s <= cs_epoch n
  /\ ((n = s /\ exists e, find_entry (op_id o) (cs_operations s) = Some e
                /\ le_digest e = op_digest o /\ le_result e = r)
      \/ (cs_revision n = cs_revision s + 1 /\ cs_pending_auth n = None
          /\ r = mk_applied (cs_revision n) (cs_epoch n) (cs_auth_generation n)
          /\ last (cs_operations n)
             = Some (mk_entry (op_id o) (op_digest o) r (Some (receipt_of (op_mutation o)))))).
Proof.
  intros Ha. apply apply_transition in Ha as [Ht _].
  assert (Hlen : forall x, validate x = Ok tt -> (List.length (cs_operations x) <= LEDGER_CAPACITY)%nat).
  { intros x Hv. unfold validate, validate_with in Hv. outcomes.
    match goal with H : (_ <? _)%nat = false |- _ => by apply Nat.ltb_ge in H end. }
  destruct Ht as [e Hv Hf Hd|next revision Hv Hf He Ha Hm Hr Hb result next' [text Ht]].
  - split_and!; try done; try (by apply Hlen). left. split; [done|]. by exists e.
  - destruct (mutate_frame _ _ _ Hm) as (H1' & H2' & H3' & H4' & H5' & H6' & H7' & _).
    apply encode_validate in Ht. split_and!; try done; [by apply Hlen|].
    right. cbn. split_and!; [lia|by eapply mutate_pending|done|]. apply push_entry_last.
Qed.

(** ** Sequences of transitions *)

Inductive runs : CanonicalState -> list Operation -> CanonicalState -> Prop :=
  | runs_nil s : runs s [] s
  | runs_cons s o n r ops m :
      apply_verified_digest s o = Ok (n, r) -> runs n ops m -> runs s (o :: ops) m.


Lemma transition_valid s o n r : Transition s o n r -> validate n = Ok tt.
Proof. intros [|next revision _ _ _ _ _ _ _ result next' [text Ht]]; [done|]. by eapply encode_validate. Qed.

Lemma runs_valid s ops m : validate s = Ok tt -> runs s ops m -> validate m = Ok tt.
Proof.
  induction 2 as [|s o n r ops m Ha _ IH]; [done|]. apply IH.
  apply apply_transition in Ha as [Ht _]. by eapply transition_valid.
Qed.

(** *** Receipts *)

(** The ledger holds the receipt, with at most [k] entries behind it. *)
Definition receipt_at (id : Generation) (digest : bytes) (r : Applied) (k : nat)
    (l : list LedgerEntry) : Prop :=
  exists a e b, l = a ++ e :: b /\ Forall (fun x => le_id x <> id) a
    /\ le_id e = id /\ le_digest e = digest /\ le_result e = r /\ (List.length b <= k)%nat.

Lemma find_entry_None id l : find_entry id l = None <-> Forall (fun x => le_id x <> id) l.
Proof.
  unfold find_entry. induction l as [|x l IH]; cbn; [by split|].
  rewrite Forall_cons. destruct (bool_decide_reflect (le_id x = id)); [by split; [|intros [? _]]|].
  rewrite IH. intuition.
Qed.

Lemma receipt_found id digest r k l : receipt_at id digest r k l ->
  exists e, find_entry id l = Some e /\ le_digest e = digest /\ le_result e = r.
Proof.
  intros (a & e & b & -> & Ha & Hid & Hd & Hr & _). exists e. split; [|done].
  unfold find_entry. induction Ha as [|x a Hx Ha IH]; cbn.
  - by rewrite bool_decide_true.
  - by rewrite bool_decide_false.
Qed.

Lemma receipt_at_push id digest r k l e' : (k < 15)%nat ->
  receipt_at id digest r k l -> receipt_at id digest r (S k) (push_entry l e').
Proof.
  intros Hk (a & e & b & -> & Ha & He & Hd & Hr & Hb). unfold push_entry, LEDGER_CAPACITY.
  assert (Hsnoc : (a ++ e :: b) ++ [e'] = a ++ e :: b ++ [e']) by (by rewrite <- app_assoc).
  rewrite Hsnoc. destruct (Nat.ltb_spec 16 (List.length (a ++ e :: b ++ [e']))) as [Hlt|Hge].
  - rewrite length_app in Hlt. cbn in Hlt. rewrite length_app in Hlt. cbn in Hlt.
    destruct a as [|x a]; [cbn in Hlt; lia|]. apply Forall_cons in Ha as [_ Ha].
    exists a, e, (b ++ [e']). cbn [app tail]. rewrite length_app. cbn. split_and!; try done. lia.
  - exists a, e, (b ++ [e']). rewrite length_app. cbn. split_and!; try done. lia.
Qed.

Lemma receipt_at_runs id digest r s ops m : runs s ops m -> forall k,
  (k + List.length ops <= 15)%nat -> receipt_at id digest r k (cs_operations s) ->
  receipt_at id digest r (k + List.length ops) (cs_operations m).
Proof.
  induction 1 as [|s o n x ops m Ha _ IH]; intros k Hk Hr; cbn in *; [by rewrite Nat.add_0_r|].
  replace (k + S (List.length ops))%nat with (S k + List.length ops)%nat by lia. apply IH; [lia|].
  apply apply_transition in Ha as [[e Hv Hf Hd|next revision Hv Hf He Ha Hm Hrev Hb result next' Ht] _].
  - destruct Hr as (a & y & b & ? & ? & ? & ? & ? & ?). exists a, y, b. split_and!; try done. lia.
  - destruct (mutate_frame _ _ _ Hm) as (_ & _ & _ & _ & _ & Hops & _). cbn. rewrite Hops.
    apply receipt_at_push; [lia|done].
Qed.

(** A repeated operation is answered, not repeated.  Once an operation has been applied, applying the
    same operation again, at once or after up to fifteen further successful operations of any kind,
    a sign-out among them, leaves the document as it is and answers the original receipt. *)
Theorem replay_returns_the_receipt s o n r ops m :
  find_entry (op_id o) (cs_operations s) = None ->
  apply s o = Ok (n, r) -> runs n ops m -> (List.length ops <= 15)%nat ->
  apply m o = Ok (m, r).
Proof.
  intros Hnew Ha Hruns Hlen. unfold apply in *. outcomes. rewrite H2. cbn [mbind outcome_bind].
  rewrite negb_false_iff, bool_decide_eq_true in H3. rewrite bool_decide_true by done.
  cbn [negb refuse mbind outcome_bind].
  apply apply_transition in H4 as [Ht Hdig].
  assert (Hv : validate m = Ok tt) by (eapply runs_valid; [by eapply transition_valid|done]).
  destruct Ht as [e Hvs Hf Hd|next revision Hvs Hf He Ha Hm Hrev Hb result next' Ht]; [congruence|].
  assert (Hat : receipt_at (op_id o) (op_digest o) result 0 (cs_operations next')).
  { destruct (mutate_frame _ _ _ Hm) as (_ & _ & _ & _ & _ & Hops & _). subst next'. cbn. rewrite Hops.
    unfold push_entry. apply find_entry_None in Hf.
    destruct (_ <? _)%nat eqn:El.
    - destruct (cs_operations s) as [|y l] eqn:Es; [by cbn in El|]. cbn [app tail].
      apply Forall_cons in Hf as [_ Hf]. by eexists l, _, [].
    - by eexists (cs_operations s), _, []. }
  destruct (receipt_found _ _ _ _ _ (receipt_at_runs _ _ _ _ _ _ Hruns 0 ltac:(lia) Hat))
    as (e & Hfe & Hde & Hre).
  apply transition_apply; [|done]. rewrite <- Hre. by constructor.
Qed.

(** *** Across a sign-out *)

Lemma transition_epoch s o n r : Transition s o n r -> cs_epoch s <= cs_epoch n.
Proof.
  intros [e|next revision _ _ _ _ Hm _ _ result next' _]; [lia|].
  destruct (mutate_frame _ _ _ Hm) as (_ & _ & _ & _ & _ & _ & ? & _). done.
Qed.

Lemma runs_epoch s ops m : runs s ops m -> cs_epoch s <= cs_epoch m.
Proof.
  induction 1 as [|s o n r ops m Ha _ IH]; [lia|].
  apply apply_transition in Ha as [Ht _]. apply transition_epoch in Ht. lia.
Qed.

Lemma clear_transition s o n r g : op_mutation o = ClearTenure g ->
  find_entry (op_id o) (cs_operations s) = None -> Transition s o n r ->
  check_fresh_generation s g = Ok tt
  /\ cs_epoch n = cs_epoch s + 1 /\ cs_status n = Cleared /\ cs_auth_generation n = g
  /\ cs_auth_envelope n = None
  /\ cs_public n = public_default <| pp_preferences := cleared_preferences (pp_preferences (cs_public s)) |>
  /\ cs_migrations n = mk_migrations migration_complete migration_complete.
Proof.
  intros Hm Hf Ht. destruct Ht as [e|next revision _ _ _ _ Hmut _ _ result next' _]; [congruence|].
  rewrite Hm in Hmut. unfold mutate in Hmut. outcomes. units. simplify_eq.
  match goal with H : u64_checked _ = Some _ |- _ => apply checked_Some in H as [-> ?] end. done.
Qed.

(** C24. A write prepared before a sign-out never lands.  After a tenure has been cleared, and whatever
    happened since, a new operation that expects the document as it was before is refused with a
    conflict; the only answer an old operation can still get is the receipt of its own
    application, and that changes nothing. *)
Theorem old_writes_conflict_after_a_clear s o g n r ops m late :
  op_mutation o = ClearTenure g -> find_entry (op_id o) (cs_operations s) = None ->
  apply_verified_digest s o = Ok (n, r) -> runs n ops m ->
  ex_epoch (op_expected late) <= cs_epoch s -> valid_digest (op_digest late) = true ->
  (find_entry (op_id late) (cs_operations m) = None -> apply_verified_digest m late = Err Conflict)
  /\ forall n' r', apply_verified_digest m late = Ok (n', r') -> n' = m.
Proof.
  intros Hm Hf Ha Hr Hex Hdig. apply apply_transition in Ha as [Ht _].
  assert (Hv : validate m = Ok tt) by (eapply runs_valid; [by eapply transition_valid|done]).
  destruct (clear_transition _ _ _ _ _ Hm Hf Ht) as (_ & He & _). apply runs_epoch in Hr.
  assert (Hne : op_expected late <> expected_of m) by (intros Heq; rewrite Heq in Hex; cbn in Hex; lia).
  split.
  - intros Hnone. unfold apply_verified_digest, apply_verified_digest_with, operation_status_with.
    rewrite Hv, Hdig. cbn [negb refuse mbind outcome_bind]. rewrite Hnone. cbn [mbind outcome_bind].
    unfold admission. by rewrite (bool_decide_false (op_expected late = _)) by done.
  - intros n' r' Hl. apply apply_transition in Hl as [Hl _]. by destruct Hl.
Qed.

(** *** Signed out *)

Definition entries_of (v : Value) : list (bytes * Value) :=
  match v with VObject entries => entries | _ => [] end.

Definition is_sign_in (o : Operation) : bool :=
  match op_mutation o with ReplaceAuth _ _ _ => true | _ => false end.

Lemma remove_key_incl k l e : e ∈ remove_key k l -> e ∈ l /\ e.1 <> k.
Proof.
  unfold remove_key. intros He%list_elem_of_In. apply filter_In in He as [He Hk].
  apply negb_true_iff, bool_decide_eq_false in Hk. by apply list_elem_of_In in He.
Qed.

Lemma cleared_preferences_incl v e : e ∈ entries_of (cleared_preferences v) ->
  e ∈ entries_of v /\ (e.1 ∉ ACCOUNT_BOUND_PREFERENCES).
Proof.
  destruct v; cbn [cleared_preferences entries_of]; try (by intros ?%elem_of_nil).
  generalize ACCOUNT_BOUND_PREFERENCES as keys. intros keys. revert entries.
  induction keys as [|k keys IH]; intros l He; cbn [fold_left] in He; [split; [done|apply not_elem_of_nil]|].
  apply IH in He as [He Hk]. apply remove_key_incl in He as [He Hne]. split; [done|].
  by rewrite not_elem_of_cons.
Qed.

(** A cleared document holds the preferences [P] allows and nothing else. *)
Definition signed_out (P : bytes * Value -> Prop) (s : CanonicalState) : Prop :=
  cs_status s = Cleared /\ cs_auth_envelope s = None
  /\ cs_public s = public_default <| pp_preferences := pp_preferences (cs_public s) |>
  /\ forall e, e ∈ entries_of (pp_preferences (cs_public s)) -> P e.

Lemma cleared_language_reset_spec s m : cleared_language_reset s m = true ->
  exists entries, pp_preferences (cs_public s) = VObject entries
    /\ m = UpdatePreferences
             ((cs_public s) <| pp_preferences := VObject (remove_key (lit "language") entries) |>).
Proof.
  unfold cleared_language_reset. intros [_ Hr]%andb_true_iff. destruct m as [public| | | |]; try done.
  destruct (pp_preferences (cs_public s)) as [| | | | |entries]; try done.
  apply andb_true_iff in Hr as [_ ->%bool_decide_eq_true]. by exists entries.
Qed.

(** What a cleared document admits. *)
Lemma admission_cleared s o u : admission s o = Ok u -> cs_status s = Cleared -> is_sign_in o = false ->
  cleared_language_reset s (op_mutation o) = true \/ exists g, op_mutation o = ClearTenure g.
Proof.
  intros Hadm Hst Hsign. unfold admission in Hadm. outcomes.
  rewrite (bool_decide_true (cs_status s = Cleared)) in * by done.
  destruct (cleared_language_reset s (op_mutation o)); [by left|right].
  unfold is_sign_in in Hsign. destruct (op_mutation o); try done. by eexists.
Qed.

Lemma signed_out_transition P s o n r :
  signed_out P s -> is_sign_in o = false -> Transition s o n r -> signed_out P n.
Proof.
  intros (Hst & Henv & Hpub & HP) Hsign Ht.
  destruct Ht as [e|next revision _ _ _ Hadm Hmut _ _ result next' _]; [done|].
  destruct (admission_cleared _ _ _ Hadm Hst Hsign) as [Hr|[g Em]].
  - apply cleared_language_reset_spec in Hr as (entries & Ep & Em). rewrite Em in Hmut.
    unfold mutate in Hmut. injection Hmut as <-. unfold signed_out, next'. cbn -[remove_key lit].
    rewrite Hpub. cbn -[remove_key lit]. split_and!; try done.
    intros e He. apply HP. rewrite Ep. by apply remove_key_incl in He as [? _].
  - rewrite Em in Hmut. unfold mutate in Hmut. outcomes. units. simplify_eq.
    unfold signed_out, next'. cbn -[cleared_preferences]. split_and!; try done.
    intros e He. apply HP. by apply cleared_preferences_incl in He as [? _].
Qed.

Lemma signed_out_runs P s ops m : signed_out P s -> Forall (fun o => is_sign_in o = false) ops ->
  runs s ops m -> signed_out P m.
Proof.
  intros Hs Hops Hr. induction Hr as [|s o n r ops m Ha _ IH]; [done|].
  apply Forall_cons in Hops as [Ho Hops]. apply IH; [|done].
  apply apply_transition in Ha as [Ht _]. by eapply signed_out_transition.
Qed.

(** A sign-out forgets the account, and only a sign-in ends it.  Clearing a tenure, and any operations
    after it short of a new sign-in, leave a document without credential, client id, profile,
    pins, recents, consent or account extensions; every preference still there was there before
    and is none of the account-bound ones. *)
Theorem sign_out_forgets_the_account s o g n r ops m :
  op_mutation o = ClearTenure g -> find_entry (op_id o) (cs_operations s) = None ->
  apply_verified_digest s o = Ok (n, r) -> runs n ops m ->
  Forall (fun o => is_sign_in o = false) ops ->
  signed_out (fun e => e ∈ entries_of (pp_preferences (cs_public s))
                       /\ (e.1 ∉ ACCOUNT_BOUND_PREFERENCES)) m
  /\ check_fresh_generation s (cs_auth_generation n) = Ok tt.
Proof.
  intros Hm Hf Ha Hr Hops. apply apply_transition in Ha as [Ht _].
  destruct (clear_transition _ _ _ _ _ Hm Hf Ht) as (Hfresh & _ & Hst & -> & Henv & Hpub & _).
  split; [|done]. apply (signed_out_runs _ n ops m); [|done|done].
  unfold signed_out. rewrite Hpub. cbn. split_and!; try done. intros e. apply cleared_preferences_incl.
Qed.

(** *** Consent and session *)

Definition consent_part (s : CanonicalState) :=
  (pp_consent (cs_public s), pp_scopes (cs_public s), pp_ids (cs_public s), mg_consent (cs_migrations s)).
Definition session_part (s : CanonicalState) :=
  (pp_preferences (cs_public s), pp_client_id (cs_public s), pp_profile (cs_public s),
   pp_pins (cs_public s), pp_recents (cs_public s), pp_account_extensions (cs_public s),
   (cs_auth_envelope s, cs_auth_generation s, cs_status s, mg_session (cs_migrations s))).

Definition consent_only (m : Mutation) : bool :=
  match m with UpdateConsent _ _ _ | AdvanceMigration Domain_Consent _ => true | _ => false end.
Definition session_only (m : Mutation) : bool :=
  match m with
  | UpdatePreferences _ | ReplaceAuth _ _ _ | AdvanceMigration Domain_Session _ => true
  | _ => false
  end.

(** Consent and session never overwrite each other.  An operation on the consent leaves preferences,
    profile, credential, generation and status as they are, an operation on the session leaves the
    consent as it is even when its own payload carries another one, and every operation except a
    sign-out is one or the other. *)
Theorem consent_and_session_are_independent s o n r : apply_verified_digest s o = Ok (n, r) ->
  (consent_only (op_mutation o) = true -> session_part n = session_part s)
  /\ (session_only (op_mutation o) = true -> consent_part n = consent_part s)
  /\ (xorb (consent_only (op_mutation o)) (session_only (op_mutation o)) = false ->
      exists g, op_mutation o = ClearTenure g).
Proof.
  intros Ha. apply apply_transition in Ha as [Ht _]. split_and!.
  - destruct Ht as [e|next revision _ _ _ _ Hmut _ _ result next' _]; [done|]. intros Hc.
    destruct (op_mutation o) as [| | |[] ?|]; try done; mutations Hmut; done.
  - destruct Ht as [e|next revision _ _ _ _ Hmut _ _ result next' _]; [done|]. intros Hc.
    destruct (op_mutation o) as [| | |[] ?|]; try done; mutations Hmut; done.
  - destruct (op_mutation o) as [| | |[] ?|]; try done. by eexists.
Qed.

(** *** The prepared refresh *)

(** A prepared refresh is the transition it stands for.  A valid document with a prepared sign-in has
    exactly one candidate: what applying the prepared operation to the document without it gives,
    one revision on, active, with the prepared credential and the document's own consent, whose
    newest receipt alone is changed, to carry the plaintext digest; until it is promoted the
    prepared credential's generation cannot be taken by another operation, and any other operation that
    advances the document cancels it. *)
Theorem prepared_refresh_is_the_transition s p : validate s = Ok tt -> cs_pending_auth s = Some p ->
  exists c0 c r g envelope public e,
    op_mutation (pe_operation p) = ReplaceAuth g envelope public
    /\ apply_verified_digest (s <| cs_pending_auth := None |>) (pe_operation p) = Ok (c0, r)
    /\ pending_candidate s = Ok (Some (c, r))
    /\ last (cs_operations c0) = Some e
    /\ c = c0 <| cs_operations := removelast (cs_operations c0)
             ++ [set_verification (Receipt_Auth (Some (pe_plaintext_digest p))) e] |>
    /\ cs_revision c = cs_revision s + 1 /\ cs_status c = Active
    /\ cs_auth_envelope c = Some envelope /\ cs_auth_generation c = g
    /\ consent_part c = consent_part s
    /\ check_fresh_generation s g = Err Invalid
    /\ forall o n r', apply_verified_digest s o = Ok (n, r') -> n = s \/ cs_pending_auth n = None.
Proof.
  intros Hv Hp.
  assert (Hc : exists x, pending_candidate s = Ok x).
  { unfold validate, validate_with in Hv. rewrite Hp in Hv. outcomes. by eexists. }
  destruct Hc as [x Hc]. pose proof Hc as Hc'. rewrite pending_candidate_eq in Hc'.
  unfold pending_candidate_with in Hc'. rewrite Hp in Hc'. outcomes. units.
  destruct x1 as [c0 r]. outcomes. simplify_eq.
  rewrite !orb_false_iff in *. destruct H2 as [[_ Hm] Hid]. apply negb_false_iff in Hm.
  destruct (op_mutation (pe_operation p)) as [| |g envelope public| |] eqn:Em; try done.
  assert (Hnone : find_entry (op_id (pe_operation p)) (cs_operations s) = None).
  { apply find_entry_None, Forall_forall. intros e He Heq.
    apply not_true_iff_false in Hid. apply Hid, existsb_exists. exists e.
    split; [by apply list_elem_of_In|by apply bool_decide_eq_true]. }
  pose proof H3 as Ha. apply apply_transition in Ha as [Ht _].
  eexists c0, _, r, g, envelope, public, _. split; [done|]. split; [done|]. split; [done|].
  split; [done|]. split; [done|].
  destruct Ht as [e _ Hf _|next revision _ _ _ _ Hmut Hrev _ result next' _];
    [assert (None = Some e) by (rewrite <- Hf; symmetry; exact Hnone); done|].
  rewrite Em in Hmut. unfold mutate in Hmut. outcomes. units. simplify_eq.
  split_and!; try done.
  - unfold check_fresh_generation, pending_generation. rewrite Hp. cbn [mbind option_bind]. rewrite Em.
    rewrite (bool_decide_true (Some g = Some g)) by done. by rewrite orb_true_r.
  - intros o n r' Ho. apply apply_transition in Ho as [Ho _].
    destruct Ho as [|next2 revision2 _ _ _ _ Hmut2 _ _ result2 next2' _]; [by left|right].
    cbn. by eapply mutate_pending.
Qed.

End History.
