(* ===== verification/Landing.v ===== *)
(** * The mailbox between workers and the main thread (machine/src/landing.rs)

    [Landing] is the record behind the mutex with its limits, one function per operation; an
    operation is one critical section.  [Mailbox] is what the source promises: one queue in arrival
    order and a reservation per operation.  [represents] relates the two, and [landing_step] is one
    operation as an event of a history.  The hashed form ([write]) is not modelled. *)

From stdpp Require Import gmap fin_maps fin_map_dom.
From S2P Require Import Prelude.

#[local] Open Scope Z_scope.

(** ** Addresses *)

Inductive MachineId :=
  | Machine_Session | Machine_Consent | Machine_Input | Machine_Present | Machine_Nav
  | Machine_Player | Machine_Store (ord : Z) | Machine_Instance (id : Z)
  | Machine_Cache | Machine_Huds.

#[export] Instance MachineId_eq_dec : EqDecision MachineId.
Proof. solve_decision. Defined.

#[export] Instance MachineId_countable : Countable MachineId.
Proof.
  refine (inj_countable'
    (fun m => match m with
      | Machine_Session => (0, 0) | Machine_Consent => (1, 0) | Machine_Input => (2, 0)
      | Machine_Present => (3, 0) | Machine_Nav => (4, 0) | Machine_Player => (5, 0)
      | Machine_Store ord => (6, ord) | Machine_Instance id => (7, id)
      | Machine_Cache => (8, 0) | Machine_Huds => (9, 0)
      end)
    (fun p =>
      if p.1 =? 0 then Machine_Session else if p.1 =? 1 then Machine_Consent
      else if p.1 =? 2 then Machine_Input else if p.1 =? 3 then Machine_Present
      else if p.1 =? 4 then Machine_Nav else if p.1 =? 5 then Machine_Player
      else if p.1 =? 6 then Machine_Store p.2 else if p.1 =? 7 then Machine_Instance p.2
      else if p.1 =? 8 then Machine_Cache else Machine_Huds) _).
  by intros [].
Defined.

(** The key of a reservation, [(addr.to, addr.req.0)], is the address itself. *)
Record Addr := mk_addr { ad_to : MachineId; ad_req : Z }.

#[export] Instance Addr_eq_dec : EqDecision Addr.
Proof. solve_decision. Defined.

#[export] Instance Addr_countable : Countable Addr.
Proof. refine (inj_countable' (fun a => (ad_to a, ad_req a)) (fun p => mk_addr p.1 p.2) _). by intros []. Defined.

(** ** Records and reservations *)

Inductive AdmissionError := Duplicate | Capacity.
Inductive PublishError := Full | Unknown | AlreadyTerminal | NotStream | Cancelled.

Inductive Reservation :=
  | Reserved_Running (cancelled stream : bool)
  | Reserved_Terminal (cancelled : bool).

#[export] Instance Reservation_eq_dec : EqDecision Reservation.
Proof. solve_decision. Defined.

Definition INFLIGHT_CAP : Z := 4.

Section Mail.
  Context {K V : Type}.

Inductive Lane :=
  | Lane_Data (key : K) (value : V)
  | Lane_Dropped (req : Z)
  | Lane_Refused (req : Z).

Record Landed := mk_landed {
  ld_seq : Z;
  ld_addr : Addr;
  ld_lane : Lane;
  ld_terminal : bool
}.

Record Landing := mk_landing {
  la_data : list Landed;
  la_control : list Landed;
  la_seq : Z;
  la_dropped : Z;
  la_inflight : gmap Addr Reservation;
  la_dropped_for : gmap MachineId Z;
  la_cap : Z;
  la_inflight_cap : Z;
  la_total_cap : Z
}.

#[export] Instance eta_Landing : Eta Landing := fun l =>
  mk_landing (la_data l) (la_control l) (la_seq l) (la_dropped l) (la_inflight l)
    (la_dropped_for l) (la_cap l) (la_inflight_cap l) (la_total_cap l).

(** ** Operations *)

Definition with_limits (cap inflight_cap total_cap : Z) : Landing :=
  mk_landing [] [] 0 0 ∅ ∅ cap inflight_cap total_cap.
Definition with_inflight (cap inflight_cap : Z) : Landing := with_limits cap inflight_cap inflight_cap.
Definition landing_new (cap : Z) : Landing := with_inflight cap INFLIGHT_CAP.

Definition is_data (lane : Lane) : bool := match lane with Lane_Data _ _ => true | _ => false end.

(** Requests out for [to]. *)
Definition out_for (to : MachineId) (m : gmap Addr Reservation) : nat :=
  size (filter (fun e => ad_to e.1 = to) m).
Definition inflight (to : MachineId) (l : Landing) : Z := u32_wrap (Z.of_nat (out_for to (la_inflight l))).

Definition dropped_for (to : MachineId) (l : Landing) : Z := default 0 (la_dropped_for l !! to).
Definition dropped_count (l : Landing) : Z := la_dropped l.
Definition len (l : Landing) : nat := (List.length (la_data l) + List.length (la_control l))%nat.
Definition is_empty (l : Landing) : bool := (len l =? 0)%nat.

Definition admit_mode (addr : Addr) (stream : bool) (l : Landing)
  : Outcome AdmissionError unit * Landing :=
  match la_inflight l !! addr with
  | Some _ => (Err Duplicate, l)
  | None =>
      if (la_total_cap l <=? Z.of_nat (size (la_inflight l)))
         || (la_inflight_cap l <=? Z.of_nat (out_for (ad_to addr) (la_inflight l)))
      then (Err Capacity, l)
      else (Ok tt, l <| la_inflight := <[addr := Reserved_Running false stream]> (la_inflight l) |>)
  end.

Definition admit_once (addr : Addr) : Landing -> Outcome AdmissionError unit * Landing :=
  admit_mode addr false.
Definition admit_stream (addr : Addr) : Landing -> Outcome AdmissionError unit * Landing :=
  admit_mode addr true.

Definition count_drop (to : MachineId) (l : Landing) : Landing :=
  l <| la_dropped := u32_wrap (la_dropped l + 1) |>
    <| la_dropped_for := <[to := u32_wrap (default 0 (la_dropped_for l !! to) + 1)]> (la_dropped_for l) |>.

Definition complete_locked (addr : Addr) (lane : Lane) (l : Landing)
  : Outcome PublishError unit * Landing :=
  match la_inflight l !! addr with
  | None => (Err Unknown, l)
  | Some (Reserved_Terminal _) => (Err AlreadyTerminal, l)
  | Some (Reserved_Running cancelled stream) =>
      let full := negb cancelled && negb stream && is_data lane
                  && (la_cap l <=? Z.of_nat (List.length (la_data l))) in
      let l := if full then count_drop (ad_to addr) l else l in
      let lane := if full || cancelled then Lane_Dropped (ad_req addr) else lane in
      let l := l <| la_inflight := <[addr := Reserved_Terminal cancelled]> (la_inflight l) |>
                 <| la_seq := u64_wrap (la_seq l + 1) |> in
      let record := mk_landed (la_seq l) addr lane true in
      let l := if negb stream && is_data lane then l <| la_data := la_data l ++ [record] |>
               else l <| la_control := la_control l ++ [record] |> in
      (if full then Err Full else Ok tt, l)
  end.

Definition put (addr : Addr) (key : K) (value : V) : Landing -> Outcome PublishError unit * Landing :=
  complete_locked addr (Lane_Data key value).
Definition dropped (addr : Addr) : Landing -> Outcome PublishError unit * Landing :=
  complete_locked addr (Lane_Dropped (ad_req addr)).
Definition refused (addr : Addr) : Landing -> Outcome PublishError unit * Landing :=
  complete_locked addr (Lane_Refused (ad_req addr)).

Definition progress (addr : Addr) (key : K) (value : V) (l : Landing)
  : Outcome PublishError unit * Landing :=
  match la_inflight l !! addr with
  | None => (Err Unknown, l)
  | Some (Reserved_Terminal _) => (Err AlreadyTerminal, l)
  | Some (Reserved_Running _ false) => (Err NotStream, l)
  | Some (Reserved_Running true _) => (Err Cancelled, l)
  | Some (Reserved_Running _ _) =>
      if la_cap l <=? Z.of_nat (List.length (la_data l)) then
        let '(r, l) := complete_locked addr (Lane_Dropped (ad_req addr)) (count_drop (ad_to addr) l) in
        (_ ← r; Err Full, l)
      else
        let l := l <| la_seq := u64_wrap (la_seq l + 1) |> in
        (Ok tt, l <| la_data := la_data l ++ [mk_landed (la_seq l) addr (Lane_Data key value) false] |>)
  end.

(** The guard a worker holds while it runs is its address; dropping it is [dropped]. *)
Definition completion_guard (addr : Addr) (l : Landing) : Outcome PublishError Addr :=
  match la_inflight l !! addr with
  | None => Err Unknown
  | Some (Reserved_Terminal _) => Err AlreadyTerminal
  | Some (Reserved_Running _ _) => Ok addr
  end.
Definition guard_drop (guard : Addr) (l : Landing) : Landing := (dropped guard l).2.

Definition is_cancelled (r : option Reservation) : bool :=
  match r with
  | Some (Reserved_Terminal true) | Some (Reserved_Running true _) => true
  | _ => false
  end.

Definition wanted (want : K -> bool) (lane : Lane) : bool :=
  match lane with Lane_Data k _ => want k | _ => true end.

(** One turn of the drain. *)
Definition take_one (is_deliverable : Addr -> bool) (want : K -> bool)
    (acc : list Landed * Landing) (rec : Landed) : list Landed * Landing :=
  let '(out, l) := acc in
  let cancelled := is_cancelled (la_inflight l !! ld_addr rec) in
  let l := if ld_terminal rec then l <| la_inflight := delete (ld_addr rec) (la_inflight l) |> else l in
  if cancelled || negb (is_deliverable (ld_addr rec)) then (out, count_drop (ad_to (ld_addr rec)) l)
  else if wanted want (ld_lane rec) then (out ++ [rec], l)
  else (out, count_drop (ad_to (ld_addr rec)) l).

Definition take_for (is_deliverable : Addr -> bool) (want : K -> bool) (l : Landing)
  : list Landed * Landing :=
  let merged := sort_by_key ld_seq (la_data l ++ la_control l) in
  fold_left (take_one is_deliverable want) merged
    ([], l <| la_data := [] |> <| la_control := [] |>).

Definition is_addr (addr : Addr) (rec : Landed) : bool := bool_decide (ld_addr rec = addr).

Definition cancel_locked (addr : Addr) (l : Landing) : bool * Landing :=
  match la_inflight l !! addr with
  | None => (false, l)
  | Some state =>
      let discarded := List.filter (is_addr addr) (la_data l ++ la_control l) in
      let keep rec := negb (is_addr addr rec) in
      let l := l <| la_data := List.filter keep (la_data l) |>
                 <| la_control := List.filter keep (la_control l) |> in
      let l := Nat.iter (List.length discarded) (count_drop (ad_to addr)) l in
      (true, l <| la_inflight :=
                match state with
                | Reserved_Terminal _ => delete addr (la_inflight l)
                | Reserved_Running _ stream => <[addr := Reserved_Running true stream]> (la_inflight l)
                end |>)
  end.

Definition cancel (addr : Addr) : Landing -> bool * Landing := cancel_locked addr.

Definition clear (l : Landing) : Landing :=
  fold_left (fun l addr => (cancel_locked addr l).2) ((map_to_list (la_inflight l)).*1) l.

(** ** Histories *)

Inductive Event :=
  | EvAdmit (addr : Addr) (stream : bool)
  | EvProgress (addr : Addr) (key : K) (value : V)
  | EvPut (addr : Addr) (key : K) (value : V)
  | EvDropped (addr : Addr)
  | EvRefused (addr : Addr)
  | EvTake (is_deliverable : Addr -> bool) (want : K -> bool)
  | EvCancel (addr : Addr)
  | EvClear.

Inductive Answer :=
  | Answer_Admit (r : Outcome AdmissionError unit)
  | Answer_Publish (r : Outcome PublishError unit)
  | Answer_Taken (out : list Landed)
  | Answer_Cancel (found : bool)
  | Answer_Done.

Definition landing_step (e : Event) (l : Landing) : Answer * Landing :=
  match e with
  | EvAdmit a stream => let '(r, l) := admit_mode a stream l in (Answer_Admit r, l)
  | EvProgress a k v => let '(r, l) := progress a k v l in (Answer_Publish r, l)
  | EvPut a k v => let '(r, l) := put a k v l in (Answer_Publish r, l)
  | EvDropped a => let '(r, l) := dropped a l in (Answer_Publish r, l)
  | EvRefused a => let '(r, l) := refused a l in (Answer_Publish r, l)
  | EvTake is_deliverable want =>
      let '(out, l) := take_for is_deliverable want l in (Answer_Taken out, l)
  | EvCancel a => let '(b, l) := cancel a l in (Answer_Cancel b, l)
  | EvClear => (Answer_Done, clear l)
  end.

(** A history from a state: the answers, in order, and the state it ends in. *)
Fixpoint play {S} (step : Event -> S -> Answer * S) (events : list Event) (s : S) : list Answer * S :=
  match events with
  | [] => ([], s)
  | e :: events =>
      let '(answer, s) := step e s in
      let '(answers, s) := play step events s in (answer :: answers, s)
  end.

Definition taken (answer : Answer) : list Landed :=
  match answer with Answer_Taken out => out | _ => [] end.
(** What a history handed out. *)
Definition delivered (answers : list Answer) : list Landed := concat (taken <$> answers).

(** ** One queue: what the mailbox promises

    An entry of the queue says whether it counts against the data cap. *)

Record Mailbox := mk_mailbox {
  mb_queue : list (bool * Landed);
  mb_seq : Z;
  mb_inflight : gmap Addr Reservation;
  mb_drops : list MachineId;
  mb_cap : Z;
  mb_inflight_cap : Z;
  mb_total_cap : Z
}.

#[export] Instance eta_Mailbox : Eta Mailbox := fun m =>
  mk_mailbox (mb_queue m) (mb_seq m) (mb_inflight m) (mb_drops m) (mb_cap m) (mb_inflight_cap m)
    (mb_total_cap m).

Definition mailbox_new (cap inflight_cap total_cap : Z) : Mailbox :=
  mk_mailbox [] 0 ∅ [] cap inflight_cap total_cap.

Definition counted (m : Mailbox) : list (bool * Landed) := List.filter fst (mb_queue m).
Definition mb_full (m : Mailbox) : bool := mb_cap m <=? Z.of_nat (List.length (counted m)).

Definition post (counts terminal : bool) (addr : Addr) (lane : Lane) (m : Mailbox) : Mailbox :=
  m <| mb_seq := mb_seq m + 1 |>
    <| mb_queue := mb_queue m ++ [(counts, mk_landed (mb_seq m + 1) addr lane terminal)] |>.

Definition lose (to : list MachineId) (m : Mailbox) : Mailbox := m <| mb_drops := mb_drops m ++ to |>.

Definition finish (addr : Addr) (cancelled : bool) (m : Mailbox) : Mailbox :=
  m <| mb_inflight := <[addr := Reserved_Terminal cancelled]> (mb_inflight m) |>.

(** A worker ends its operation: [lane] is its last word. *)
Definition mb_complete (addr : Addr) (lane : Lane) (m : Mailbox)
  : Outcome PublishError unit * Mailbox :=
  let over := Lane_Dropped (ad_req addr) in
  match mb_inflight m !! addr with
  | None => (Err Unknown, m)
  | Some (Reserved_Terminal _) => (Err AlreadyTerminal, m)
  | Some (Reserved_Running true _) => (Ok tt, post false true addr over (finish addr true m))
  | Some (Reserved_Running false true) => (Ok tt, post false true addr lane (finish addr false m))
  | Some (Reserved_Running false false) =>
      if is_data lane && mb_full m
      then (Err Full, post false true addr over (finish addr false (lose [ad_to addr] m)))
      else (Ok tt, post (is_data lane) true addr lane (finish addr false m))
  end.

Definition mb_progress (addr : Addr) (key : K) (value : V) (m : Mailbox)
  : Outcome PublishError unit * Mailbox :=
  match mb_inflight m !! addr with
  | None => (Err Unknown, m)
  | Some (Reserved_Terminal _) => (Err AlreadyTerminal, m)
  | Some (Reserved_Running _ false) => (Err NotStream, m)
  | Some (Reserved_Running true true) => (Err Cancelled, m)
  | Some (Reserved_Running false true) =>
      if mb_full m
      then (Err Full, post false true addr (Lane_Dropped (ad_req addr))
                        (finish addr false (lose [ad_to addr] m)))
      else (Ok tt, post true false addr (Lane_Data key value) m)
  end.

Definition mb_admit (addr : Addr) (stream : bool) (m : Mailbox) : Outcome AdmissionError unit * Mailbox :=
  if bool_decide (is_Some (mb_inflight m !! addr)) then (Err Duplicate, m)
  else if (mb_total_cap m <=? Z.of_nat (size (mb_inflight m)))
          || (mb_inflight_cap m <=? Z.of_nat (out_for (ad_to addr) (mb_inflight m)))
  then (Err Capacity, m)
  else (Ok tt, m <| mb_inflight := <[addr := Reserved_Running false stream]> (mb_inflight m) |>).

Definition still_running (e : Addr * Reservation) : Prop :=
  match e.2 with Reserved_Running _ _ => True | Reserved_Terminal _ => False end.
#[export] Instance still_running_dec e : Decision (still_running e).
Proof. destruct e as [a []]; apply _. Defined.

Definition deliverable (is_deliverable : Addr -> bool) (want : K -> bool) (m : Mailbox) (r : Landed) : bool :=
  negb (is_cancelled (mb_inflight m !! ld_addr r)) && is_deliverable (ld_addr r) && wanted want (ld_lane r).

(** A drain empties the queue and retires exactly the finished operations. *)
Definition mb_take (is_deliverable : Addr -> bool) (want : K -> bool) (m : Mailbox)
  : list Landed * Mailbox :=
  let records := (mb_queue m).*2 in
  let mine := deliverable is_deliverable want m in
  (List.filter mine records,
   lose (ad_to ∘ ld_addr <$> List.filter (negb ∘ mine) records) m
     <| mb_queue := [] |> <| mb_inflight := filter still_running (mb_inflight m) |>).

Definition mb_cancel (addr : Addr) (m : Mailbox) : bool * Mailbox :=
  match mb_inflight m !! addr with
  | None => (false, m)
  | Some state =>
      (true,
       lose (ad_to ∘ ld_addr ∘ snd <$> List.filter (is_addr addr ∘ snd) (mb_queue m)) m
         <| mb_queue := List.filter (negb ∘ is_addr addr ∘ snd) (mb_queue m) |>
         <| mb_inflight :=
              match state with
              | Reserved_Terminal _ => delete addr (mb_inflight m)
              | Reserved_Running _ stream => <[addr := Reserved_Running true stream]> (mb_inflight m)
              end |>)
  end.

Definition mark_cancelled (r : Reservation) : Reservation :=
  match r with
  | Reserved_Running _ stream => Reserved_Running true stream
  | Reserved_Terminal _ => Reserved_Terminal true
  end.

Definition mb_clear (m : Mailbox) : Mailbox :=
  lose (ad_to ∘ ld_addr ∘ snd <$> mb_queue m) m
    <| mb_queue := [] |>
    <| mb_inflight := mark_cancelled <$> filter still_running (mb_inflight m) |>.

Definition mailbox_step (e : Event) (m : Mailbox) : Answer * Mailbox :=
  match e with
  | EvAdmit a stream => let '(r, m) := mb_admit a stream m in (Answer_Admit r, m)
  | EvProgress a k v => let '(r, m) := mb_progress a k v m in (Answer_Publish r, m)
  | EvPut a k v => let '(r, m) := mb_complete a (Lane_Data k v) m in (Answer_Publish r, m)
  | EvDropped a => let '(r, m) := mb_complete a (Lane_Dropped (ad_req a)) m in (Answer_Publish r, m)
  | EvRefused a => let '(r, m) := mb_complete a (Lane_Refused (ad_req a)) m in (Answer_Publish r, m)
  | EvTake is_deliverable want =>
      let '(out, m) := mb_take is_deliverable want m in (Answer_Taken out, m)
  | EvCancel a => let '(b, m) := mb_cancel a m in (Answer_Cancel b, m)
  | EvClear => (Answer_Done, mb_clear m)
  end.

(** The records the machine [to] lost. *)
Definition lost (to : MachineId) (m : Mailbox) : Z :=
  Z.of_nat (List.length (List.filter (fun t => bool_decide (t = to)) (mb_drops m))).

Record represents (l : Landing) (m : Mailbox) : Prop := {
  rep_data : la_data l = (counted m).*2;
  rep_control : la_control l = (List.filter (negb ∘ fst) (mb_queue m)).*2;
  rep_seq : la_seq l = mb_seq m;
  rep_inflight : la_inflight l = mb_inflight m;
  rep_dropped : la_dropped l = u32_wrap (Z.of_nat (List.length (mb_drops m)));
  rep_dropped_for to : dropped_for to l = u32_wrap (lost to m);
  rep_cap : la_cap l = mb_cap m;
  rep_inflight_cap : la_inflight_cap l = mb_inflight_cap m;
  rep_total_cap : la_total_cap l = mb_total_cap m
}.

(** What the queue holds for an operation, by its reservation: progress while it runs, and one last
    record once it has ended, nothing of a cancelled one but the end of its worker. *)
Definition of_addr (a : Addr) (m : Mailbox) : list Landed := List.filter (is_addr a) (mb_queue m).*2.

Definition is_progress (r : Landed) : Prop := ld_terminal r = false /\ is_data (ld_lane r) = true.

Definition ok_at (a : Addr) (r : option Reservation) (records : list Landed) : Prop :=
  match r with
  | Some (Reserved_Running false true) => Forall is_progress records
  | Some (Reserved_Terminal cancelled) =>
      exists before last, records = before ++ [last] /\ Forall is_progress before
        /\ ld_terminal last = true
        /\ (cancelled = true -> before = [] /\ ld_lane last = Lane_Dropped (ad_req a))
  | _ => records = []
  end.

Record mailbox_ok (m : Mailbox) : Prop := {
  ok_sorted : StronglySorted (fun r s => ld_seq r < ld_seq s) (mb_queue m).*2;
  ok_seq : Forall (fun r => 0 < ld_seq r <= mb_seq m) (mb_queue m).*2;
  ok_seq_nonneg : 0 <= mb_seq m;
  ok_records a : ok_at a (mb_inflight m !! a) (of_addr a m);
  ok_control : Forall (fun e => e.1 = false -> ld_terminal e.2 = true) (mb_queue m);
  ok_cap : Z.of_nat (List.length (counted m)) <= mb_cap m;
  ok_total : Z.of_nat (size (mb_inflight m)) <= mb_total_cap m;
  ok_each to : Z.of_nat (out_for to (mb_inflight m)) <= mb_inflight_cap m
}.

(** ** The queue keeps its invariant *)

Lemma of_addr_post a counts terminal b lane m :
  of_addr a (post counts terminal b lane m)
  = of_addr a m
    ++ if decide (b = a) then [mk_landed (mb_seq m + 1) b lane terminal] else [].
Proof.
  unfold of_addr, post. simpl. rewrite fmap_app, List.filter_app. f_equal. simpl.
  unfold is_addr. simpl. case_bool_decide; by case_decide.
Qed.

Lemma filter_addr_other a b (l : list Landed) :
  List.filter (is_addr a) (List.filter (negb ∘ is_addr b) l)
  = if decide (a = b) then [] else List.filter (is_addr a) l.
Proof.
  unfold is_addr, compose. induction l as [|r l IH]; simpl; [by case_decide|].
  destruct (decide (ld_addr r = b)) as [->|Hb].
  - rewrite (bool_decide_true (b = b)) by done. simpl. rewrite IH.
    case_decide; [done|]. by rewrite bool_decide_false.
  - rewrite (bool_decide_false (ld_addr r = b)) by done. simpl. rewrite IH.
    case_decide; simplify_eq; [by rewrite bool_decide_false|done].
Qed.

Lemma out_for_insert_running to a r m : m !! a <> None -> out_for to (<[a := r]> m) = out_for to m.
Proof.
  intros Ha. unfold out_for. destruct (m !! a) as [r0|] eqn:E; [|done]. rewrite map_filter_insert.
  case_decide; simpl in *.
  - apply map_size_insert_Some. exists r0. by apply map_lookup_filter_Some.
  - f_equal. rewrite map_filter_delete, delete_id; [done|].
    apply map_lookup_filter_None. right. naive_solver.
Qed.

Lemma out_for_le to (m m' : gmap Addr Reservation) :
  (forall a r, m !! a = Some r -> exists r', m' !! a = Some r') -> (out_for to m <= out_for to m')%nat.
Proof.
  intros H. unfold out_for. rewrite <-!(size_dom (D := gset Addr)). apply subseteq_size.
  intros a (r & [Hr ?]%map_lookup_filter_Some)%elem_of_dom. apply elem_of_dom.
  destruct (H _ _ Hr) as [r' Hr']. exists r'. by apply map_lookup_filter_Some.
Qed.

Lemma seq_ok_post counts terminal a lane m :
  StronglySorted (fun r s => ld_seq r < ld_seq s) (mb_queue m).*2 ->
  Forall (fun r => 0 < ld_seq r <= mb_seq m) (mb_queue m).*2 -> 0 <= mb_seq m ->
  let m' := post counts terminal a lane m in
  StronglySorted (fun r s => ld_seq r < ld_seq s) (mb_queue m').*2
  /\ Forall (fun r => 0 < ld_seq r <= mb_seq m') (mb_queue m').*2 /\ 0 <= mb_seq m'.
Proof.
  intros Hs Hq Hn. simpl. rewrite fmap_app. simpl. split; [|split; [|lia]].
  - apply StronglySorted_app. split; [|split; [done|by repeat constructor]].
    intros r s Hr ->%list_elem_of_singleton. rewrite Forall_forall in Hq. specialize (Hq _ Hr).
    simpl in *. lia.
  - apply Forall_app. split; [|by repeat constructor; simpl; lia].
    eapply Forall_impl; [exact Hq|]. simpl. lia.
Qed.

Lemma ok_post a r r' counts terminal lane drops m :
  mailbox_ok m -> mb_inflight m !! a = Some r ->
  (counts = true -> mb_full m = false) -> (counts = false -> terminal = true) ->
  ok_at a (Some r') (of_addr a m ++ [mk_landed (mb_seq m + 1) a lane terminal]) ->
  mailbox_ok (post counts terminal a lane
    (m <| mb_inflight := <[a := r']> (mb_inflight m) |> <| mb_drops := drops |>)).
Proof.
  intros [Hs Hq Hn Hr Hc Hcap Ht He] Ha Hfull Hterm Hat.
  destruct (seq_ok_post counts terminal a lane m Hs Hq Hn) as (Hs' & Hq' & Hn').
  split; [exact Hs'|exact Hq'|exact Hn'| | | | |].
  - intros b. rewrite of_addr_post. simpl. destruct (decide (a = b)) as [<-|Hb].
    + by rewrite lookup_insert_eq.
    + rewrite lookup_insert_ne, app_nil_r by done. apply Hr.
  - simpl. apply Forall_app. split; [done|]. by repeat constructor.
  - unfold mb_full in Hfull. unfold counted in *. simpl. rewrite List.filter_app, length_app. simpl.
    destruct counts; simpl; [|lia]. specialize (Hfull eq_refl). apply Z.leb_gt in Hfull. lia.
  - simpl. by rewrite (map_size_insert_Some _ _ _ (ex_intro _ r Ha)).
  - intros to. simpl. rewrite out_for_insert_running by (by rewrite Ha). apply He.
Qed.

Lemma ok_admit a stream m : mailbox_ok m -> mailbox_ok (mb_admit a stream m).2.
Proof.
  intros Hok. unfold mb_admit. case_bool_decide as Ha; [done|].
  apply eq_None_not_Some in Ha.
  destruct (_ || _) eqn:E; [done|]. apply orb_false_iff in E as [Et%Z.leb_gt Ee%Z.leb_gt].
  destruct Hok as [Hs Hq Hn Hr Hc Hcap Ht He]. split; simpl; try done.
  - intros b. destruct (decide (a = b)) as [<-|Hb].
    + rewrite lookup_insert_eq. specialize (Hr a). rewrite Ha in Hr. simpl in Hr.
      unfold of_addr in *. simpl in *. rewrite Hr. by destruct stream.
    + rewrite lookup_insert_ne by done. apply Hr.
  - rewrite map_size_insert_None by done. lia.
  - intros to. unfold out_for in *. rewrite map_filter_insert. case_decide as Hto; simpl in Hto.
    + rewrite map_size_insert_None; [subst to; lia|]. apply map_lookup_filter_None. by left.
    + rewrite map_filter_delete, delete_id; [apply He|]. apply map_lookup_filter_None. by left.
Qed.

Lemma ok_complete a lane m : mailbox_ok m -> mailbox_ok (mb_complete a lane m).2.
Proof.
  intros Hok. pose proof (ok_records m Hok a) as Ha. unfold mb_complete.
  destruct (mb_inflight m !! a) as [[[] stream|c]|] eqn:E; simpl in *; [| |done|done].
  - apply (ok_post a _ (Reserved_Terminal true) false true _ (mb_drops m) m Hok E); [done|done|].
    rewrite Ha. exists [], (mk_landed (mb_seq m + 1) a (Lane_Dropped (ad_req a)) true). naive_solver.
  - assert (forall counts lane drops, (counts = true -> mb_full m = false) ->
      mailbox_ok (post counts true a lane
        (m <| mb_inflight := <[a := Reserved_Terminal false]> (mb_inflight m) |> <| mb_drops := drops |>)))
      as Hpost.
    { intros counts lane' drops Hf.
      apply (ok_post a _ (Reserved_Terminal false) counts true _ drops m Hok E); [done|done|].
      exists (of_addr a m), (mk_landed (mb_seq m + 1) a lane' true). split; [done|].
      split; [|done]. destruct stream; [done|]. by rewrite Ha. }
    destruct stream; [by apply (Hpost false lane (mb_drops m))|].
    destruct (is_data lane && mb_full m) eqn:Ef; [by apply Hpost|].
    apply (Hpost (is_data lane) lane (mb_drops m)). intros Hd. by rewrite Hd in Ef.
Qed.

Lemma ok_progress a k v m : mailbox_ok m -> mailbox_ok (mb_progress a k v m).2.
Proof.
  intros Hok. pose proof (ok_records m Hok a) as Ha. unfold mb_progress.
  destruct (mb_inflight m !! a) as [[[] []|c]|] eqn:E; simpl in *; try done.
  destruct (mb_full m) eqn:Ef; simpl.
  - apply (ok_post a _ (Reserved_Terminal false) false true _ _ m Hok E); [done|done|].
    exists (of_addr a m), (mk_landed (mb_seq m + 1) a (Lane_Dropped (ad_req a)) true). done.
  - pose proof (ok_post a _ (Reserved_Running false true) true false (Lane_Data k v) (mb_drops m) m
      Hok E) as H. rewrite insert_id in H by done. apply H; [done|done|].
    apply Forall_app. split; [done|]. by repeat constructor.
Qed.

(** Retiring reservations keeps the bounds. *)
Lemma fewer_reservations (i i' : gmap Addr Reservation) total each :
  (forall a r, i' !! a = Some r -> is_Some (i !! a)) ->
  Z.of_nat (size i) <= total -> (forall to, Z.of_nat (out_for to i) <= each) ->
  Z.of_nat (size i') <= total /\ forall to, Z.of_nat (out_for to i') <= each.
Proof.
  intros Hi Ht He. split.
  - assert (size i' <= size i)%nat; [|lia]. rewrite <-!(size_dom (D := gset Addr)).
    apply subseteq_size. intros a [r Hr]%elem_of_dom. apply elem_of_dom. by eapply Hi.
  - intros to. specialize (He to). pose proof (out_for_le to i' i). assert (out_for to i' <= out_for to i)%nat;
      [|lia]. apply H. intros a r Hr. destruct (Hi _ _ Hr) as [r' ?]. by exists r'.
Qed.

Lemma still_running_lookup (i : gmap Addr Reservation) a :
  filter still_running i !! a
  = match i !! a with Some (Reserved_Running c s) => Some (Reserved_Running c s) | _ => None end.
Proof.
  rewrite map_lookup_filter. destruct (i !! a) as [[]|]; simpl; [|done|done];
    by rewrite ?option_guard_True, ?option_guard_False.
Qed.

Lemma ok_emptied (f : Reservation -> Reservation) drops m :
  (forall c s, exists c' s', f (Reserved_Running c s) = Reserved_Running c' s') ->
  mailbox_ok m ->
  mailbox_ok (m <| mb_drops := drops |> <| mb_queue := [] |>
                <| mb_inflight := f <$> filter still_running (mb_inflight m) |>).
Proof.
  intros Hf [Hs Hq Hn Hr Hc Hcap Ht He].
  destruct (fewer_reservations (mb_inflight m) (f <$> filter still_running (mb_inflight m)) (mb_total_cap m) (mb_inflight_cap m)) as [Ht' He'];
    [|exact Ht|exact He|].
  { intros a r. rewrite lookup_fmap, still_running_lookup. destruct (mb_inflight m !! a); by eauto. }
  split; simpl; try done; [constructor| |unfold counted in *; simpl; lia].
  intros a. rewrite lookup_fmap, still_running_lookup.
  destruct (mb_inflight m !! a) as [[c stream|]|]; simpl; try done.
  destruct (Hf c stream) as (c' & s' & ->). by destruct c', s'; simpl.
Qed.

Lemma ok_take is_deliverable want m : mailbox_ok m -> mailbox_ok (mb_take is_deliverable want m).2.
Proof.
  intros Hok. pose proof (ok_emptied id (mb_drops (mb_take is_deliverable want m).2) m) as H.
  rewrite map_fmap_id in H. apply H; [by eauto|done].
Qed.

Lemma ok_clear m : mailbox_ok m -> mailbox_ok (mb_clear m).
Proof. intros Hok. apply (ok_emptied mark_cancelled _ m); [simpl; by eauto|done]. Qed.

Lemma ok_cancel a m : mailbox_ok m -> mailbox_ok (mb_cancel a m).2.
Proof.
  intros Hok. unfold mb_cancel. destruct (mb_inflight m !! a) as [state|] eqn:E; [|done]. simpl.
  destruct Hok as [Hs Hq Hn Hr Hc Hcap Ht He].
  set (i' := match state with Reserved_Running _ _ => _ | Reserved_Terminal _ => _ end).
  destruct (fewer_reservations (mb_inflight m) i' (mb_total_cap m) (mb_inflight_cap m)) as [Ht' He']; [|exact Ht|exact He|].
  { intros b r. destruct (decide (a = b)) as [<-|Hb]; [by rewrite E|].
    subst i'. destruct state; rewrite ?lookup_insert_ne, ?lookup_delete_ne by done; by eauto. }
  split; simpl; try done.
  - rewrite filter_snd. by apply filter_sorted.
  - rewrite filter_snd. by apply filter_Forall.
  - intros b. unfold of_addr. simpl. rewrite filter_snd, filter_addr_other. case_decide as Hb.
    + subst b i'. destruct state; [by rewrite lookup_insert_eq|by rewrite lookup_delete_eq].
    + specialize (Hr b). unfold of_addr in Hr. subst i'.
      destruct state; rewrite ?lookup_insert_ne, ?lookup_delete_ne by done; exact Hr.
  - by apply filter_Forall.
  - unfold counted in *. simpl. pose proof (filter_length_incl fst (negb ∘ is_addr a ∘ snd) (mb_queue m)). lia.
Qed.

Lemma ok_step e m : mailbox_ok m -> mailbox_ok (mailbox_step e m).2.
Proof.
  intros Hok. destruct e as [a stream|a k v|a k v|a|a|d w|a|]; simpl.
  - pose proof (ok_admit a stream m Hok). by destruct (mb_admit a stream m).
  - pose proof (ok_progress a k v m Hok). by destruct (mb_progress a k v m).
  - pose proof (ok_complete a (Lane_Data k v) m Hok). by destruct (mb_complete a _ m).
  - pose proof (ok_complete a (Lane_Dropped (ad_req a)) m Hok). by destruct (mb_complete a _ m).
  - pose proof (ok_complete a (Lane_Refused (ad_req a)) m Hok). by destruct (mb_complete a _ m).
  - by apply (ok_take d w).
  - pose proof (ok_cancel a m Hok). by destruct (mb_cancel a m).
  - by apply ok_clear.
Qed.

Lemma ok_new cap inflight_cap total_cap :
  0 <= cap -> 0 <= inflight_cap -> 0 <= total_cap -> mailbox_ok (mailbox_new cap inflight_cap total_cap).
Proof. split; simpl; try done; by constructor. Qed.

Lemma ok_play events m : mailbox_ok m -> mailbox_ok (play mailbox_step events m).2.
Proof.
  revert m. induction events as [|e events IH]; simpl; [done|]. intros m Hok.
  pose proof (ok_step e m Hok) as Hs. destruct (mailbox_step e m) as [answer m'].
  specialize (IH m' Hs). by destruct (play mailbox_step events m').
Qed.

(** ** The two lanes represent the queue *)

Lemma u32_wrap_succ z : u32_wrap (u32_wrap z + 1) = u32_wrap (z + 1).
Proof. unfold u32_wrap. apply Z.add_mod_idemp_l. lia. Qed.

Lemma rep_count_drop to l m : represents l m -> represents (count_drop to l) (lose [to] m).
Proof.
  intros [Hd Hc Hs Hi Hn Hf H1 H2 H3]. split; simpl; try done.
  - rewrite Hn, u32_wrap_succ, length_app, Nat2Z.inj_add. done.
  - intros t. unfold dropped_for, lost, lose in *. simpl. rewrite List.filter_app, length_app. simpl.
    case_bool_decide as Ht.
    + subst t. rewrite lookup_insert_eq. simpl. rewrite Hf, u32_wrap_succ. simpl. f_equal. lia.
    + rewrite lookup_insert_ne by done. rewrite Hf. simpl. f_equal. lia.
Qed.

Lemma rep_iter_drop to n : forall l m, represents l m ->
  represents (Nat.iter n (count_drop to) l) (lose (replicate n to) m).
Proof.
  induction n as [|n IH]; intros l m Hr; simpl.
  - destruct m. unfold lose. simpl. rewrite app_nil_r. exact Hr.
  - apply IH, (rep_count_drop to) in Hr. unfold lose in *. simpl in *.
    assert ((to :: replicate n to) = replicate n to ++ [to]) as ->
      by apply replicate_cons_app.
    rewrite app_assoc. exact Hr.
Qed.

Lemma rep_full l m : represents l m -> (la_cap l <=? Z.of_nat (List.length (la_data l))) = mb_full m.
Proof. intros Hr. unfold mb_full. by rewrite (rep_cap _ _ Hr), (rep_data _ _ Hr), length_fmap. Qed.

(** A record is queued in the lane of its entry. *)
Lemma rep_post counts terminal a lane i l m :
  represents l m -> mb_seq m < u64_max ->
  let record := mk_landed (u64_wrap (la_seq l + 1)) a lane terminal in
  let l := l <| la_inflight := i |> <| la_seq := u64_wrap (la_seq l + 1) |> in
  0 <= mb_seq m ->
  represents
    (if counts : bool then l <| la_data := la_data l ++ [record] |>
     else l <| la_control := la_control l ++ [record] |>)
    (post counts terminal a lane (m <| mb_inflight := i |>)).
Proof.
  intros [Hd Hc Hs Hi Hn Hf H1 H2 H3] Hlt record l' Hpos. subst record l'.
  assert (u64_wrap (la_seq l + 1) = mb_seq m + 1) as Hw by (rewrite Hs; apply u64_wrap_small; ints).
  rewrite Hw. unfold post, counted in *.
  destruct counts; split; simpl; try done; unfold counted; simpl;
    rewrite List.filter_app, fmap_app; simpl; by rewrite ?Hd, ?Hc, ?app_nil_r.
Qed.

Lemma rep_admit a stream l m : represents l m ->
  (admit_mode a stream l).1 = (mb_admit a stream m).1
  /\ represents (admit_mode a stream l).2 (mb_admit a stream m).2.
Proof.
  intros Hr. unfold admit_mode, mb_admit.
  rewrite (rep_inflight _ _ Hr), (rep_total_cap _ _ Hr), (rep_inflight_cap _ _ Hr).
  destruct (mb_inflight m !! a) eqn:E; simpl; [done|].
  destruct (_ || _); simpl; [done|]. split; [done|].
  destruct Hr as [Hd Hc Hs Hi Hn Hf H1 H2 H3]. by split.
Qed.

Lemma rep_complete a lane l m : mailbox_ok m -> represents l m -> mb_seq m < u64_max ->
  (complete_locked a lane l).1 = (mb_complete a lane m).1
  /\ represents (complete_locked a lane l).2 (mb_complete a lane m).2.
Proof.
  intros Hok Hr Hlt. pose proof (ok_seq_nonneg m Hok) as Hpos. unfold complete_locked, mb_complete.
  rewrite (rep_inflight _ _ Hr), (rep_full _ _ Hr).
  destruct (mb_inflight m !! a) as [[[] stream|c]|] eqn:E; [| |done|done]; simpl.
  - split; [done|]. rewrite (rep_inflight _ _ Hr), andb_false_r.
    exact (rep_post false true a (Lane_Dropped (ad_req a)) _ l m Hr Hlt Hpos).
  - destruct stream; simpl.
    + split; [done|]. rewrite (rep_inflight _ _ Hr).
      exact (rep_post false true a lane _ l m Hr Hlt Hpos).
    + destruct (is_data lane && mb_full m) eqn:Ef; simpl.
      * split; [done|]. pose proof (rep_count_drop (ad_to a) l m Hr) as Hr'.
        rewrite (rep_inflight _ _ Hr).
        exact (rep_post false true a (Lane_Dropped (ad_req a)) _ _ _ Hr' Hlt Hpos).
      * split; [done|]. rewrite (rep_inflight _ _ Hr).
        exact (rep_post (is_data lane) true a lane _ l m Hr Hlt Hpos).
Qed.

Lemma rep_progress a k v l m : mailbox_ok m -> represents l m -> mb_seq m < u64_max ->
  (progress a k v l).1 = (mb_progress a k v m).1
  /\ represents (progress a k v l).2 (mb_progress a k v m).2.
Proof.
  intros Hok Hr Hlt. pose proof (ok_seq_nonneg m Hok) as Hpos. unfold progress, mb_progress.
  rewrite (rep_inflight _ _ Hr), (rep_full _ _ Hr).
  destruct (mb_inflight m !! a) as [[[] []|c]|] eqn:E; try done.
  destruct (mb_full m) eqn:Ef; simpl.
  - pose proof (rep_count_drop (ad_to a) l m Hr) as Hr'.
    unfold complete_locked. simpl. rewrite (rep_inflight _ _ Hr), E. simpl. split; [done|].
    rewrite (rep_inflight _ _ Hr).
    exact (rep_post false true a (Lane_Dropped (ad_req a)) _ _ _ Hr' Hlt Hpos).
  - split; [done|].
    pose proof (rep_post true false a (Lane_Data k v) (la_inflight l) l m Hr Hlt Hpos) as H.
    pose proof (rep_inflight _ _ Hr) as Hi. destruct l, m. simpl in *. subst. exact H.
Qed.

(** [represents] reads the drops of the queue up to their order. *)
Lemma rep_drops l m drops :
  represents l m -> mb_drops m ≡ₚ drops -> represents l (m <| mb_drops := drops |>).
Proof.
  intros [Hd Hc Hs Hi Hn Hf H1 H2 H3] Hp. split; simpl; try done.
  - by rewrite Hn, Hp.
  - intros to. rewrite Hf. unfold lost. simpl. do 2 f_equal.
    clear -Hp. induction Hp; simpl; [done| | |lia]; repeat case_bool_decide; simpl; lia.
Qed.

Lemma rep_merged l m : mailbox_ok m -> represents l m ->
  sort_by_key ld_seq (la_data l ++ la_control l) = (mb_queue m).*2.
Proof.
  intros Hok Hr. apply sort_by_key_unique; [|by apply ok_sorted].
  rewrite (rep_data _ _ Hr), (rep_control _ _ Hr). unfold counted.
  by rewrite <-fmap_app, filter_split_perm.
Qed.

(** Of each operation, only the last record may be its end. *)
Fixpoint ends_last (q : list Landed) : Prop :=
  match q with
  | [] => True
  | r :: q => (ld_terminal r = true -> Forall (fun s => ld_addr s <> ld_addr r) q) /\ ends_last q
  end.

Definition one_end (q : list Landed) : Prop :=
  exists before rest, q = before ++ rest /\ Forall (fun r => ld_terminal r = false) before
    /\ (List.length rest <= 1)%nat.

Lemma one_end_nil : one_end [].
Proof. exists [], []. repeat split; [constructor|simpl; lia]. Qed.

Lemma ok_at_one_end a r records : ok_at a r records -> one_end records.
Proof.
  destruct r as [[[] []|c]|]; simpl; try (intros ->; apply one_end_nil).
  - intros H. exists records, []. rewrite app_nil_r. split; [done|]. split; [|simpl; lia].
    eapply Forall_impl; [exact H|]. by intros x [? _].
  - intros (before & last & -> & H & _). exists before, [last]. split; [done|]. split; [|simpl; lia].
    eapply Forall_impl; [exact H|]. by intros x [? _].
Qed.

Lemma one_end_cons r q : one_end (r :: q) -> one_end q /\ (ld_terminal r = true -> q = []).
Proof.
  intros ([|x before] & rest & E & Hb & Hl); simpl in E.
  - subst rest. destruct q; simpl in Hl; [|lia]. split; [apply one_end_nil|done].
  - injection E as <- ->. apply Forall_cons in Hb as [Hr Hb]. split; [by exists before, rest|congruence].
Qed.

Lemma ends_last_of q : (forall a, one_end (List.filter (is_addr a) q)) -> ends_last q.
Proof.
  induction q as [|r q IH]; intros H; [done|].
  assert (forall a, one_end (List.filter (is_addr a) q)) as Hq.
  { intros a. specialize (H a). simpl in H. destruct (is_addr a r); [by apply one_end_cons in H as [? _]|done]. }
  split; [|by apply IH]. intros Ht. specialize (H (ld_addr r)). simpl in H.
  unfold is_addr in H at 1. rewrite bool_decide_true in H by done.
  apply one_end_cons in H as [_ H]. specialize (H Ht). apply Forall_forall. intros s Hs E.
  assert (s ∈ List.filter (is_addr (ld_addr r)) q) as Hin; [|rewrite H in Hin; by apply elem_of_nil in Hin].
  apply list_elem_of_In, List.filter_In. split; [by apply list_elem_of_In|].
  unfold is_addr. by rewrite bool_decide_true.
Qed.

Definition retire (i : gmap Addr Reservation) (r : Landed) : gmap Addr Reservation :=
  if ld_terminal r then delete (ld_addr r) i else i.

Lemma retire_lookup q : forall i a,
  foldl retire i q !! a
  = if existsb (fun r => is_addr a r && ld_terminal r) q then None else i !! a.
Proof.
  induction q as [|r q IH]; intros i a; simpl; [done|]. rewrite IH. unfold retire, is_addr.
  destruct (ld_terminal r) eqn:E; [|by rewrite andb_false_r].
  case_bool_decide as Ha; simpl; [|by rewrite lookup_delete_ne].
  subst a. rewrite lookup_delete_eq. by case_match.
Qed.

Lemma retire_all m : mailbox_ok m ->
  foldl retire (mb_inflight m) (mb_queue m).*2 = filter still_running (mb_inflight m).
Proof.
  intros Hok. apply map_eq. intros a. rewrite retire_lookup, still_running_lookup.
  pose proof (ok_records m Hok a) as Ha. unfold of_addr in Ha.
  destruct (existsb _ _) eqn:E.
  - apply existsb_exists in E as (r & Hin & [Hr Ht]%andb_true_iff).
    assert (r ∈ List.filter (is_addr a) (mb_queue m).*2) as Hr'
      by (by apply list_elem_of_In, List.filter_In).
    destruct (mb_inflight m !! a) as [[[] []|c]|]; simpl in Ha; try done;
      try (rewrite Ha in Hr'; by apply elem_of_nil in Hr').
    rewrite Forall_forall in Ha. destruct (Ha _ Hr'). congruence.
  - destruct (mb_inflight m !! a) as [[c s|c]|]; [done| |done].
    destruct Ha as (before & last & Hq & _ & Ht & _). exfalso.
    assert (last ∈ List.filter (is_addr a) (mb_queue m).*2) as Hl by (rewrite Hq; set_solver).
    apply list_elem_of_In, List.filter_In in Hl as [Hin Hl].
    eapply eq_true_false_abs; [|exact E]. apply existsb_exists. exists last. by rewrite Hl, Ht.
Qed.

Lemma rep_set_inflight i l m :
  represents l m -> represents (l <| la_inflight := i |>) (m <| mb_inflight := i |>).
Proof. intros [Hd Hc Hs Hi Hn Hf H1 H2 H3]. by split. Qed.

Lemma rep_take_one d w m r out l m0 :
  represents l m0 ->
  is_cancelled (mb_inflight m0 !! ld_addr r) = is_cancelled (mb_inflight m !! ld_addr r) ->
  let mine := deliverable d w m in
  (take_one d w (out, l) r).1 = out ++ List.filter mine [r]
  /\ represents (take_one d w (out, l) r).2
       (lose (ad_to ∘ ld_addr <$> List.filter (negb ∘ mine) [r]) m0
          <| mb_inflight := retire (mb_inflight m0) r |>).
Proof.
  intros Hr Hc mine. unfold take_one. rewrite (rep_inflight _ _ Hr), Hc.
  assert (represents (if ld_terminal r then l <| la_inflight := delete (ld_addr r) (mb_inflight m0) |> else l)
            (m0 <| mb_inflight := retire (mb_inflight m0) r |>)) as Hr'.
  { unfold retire. destruct (ld_terminal r); [by apply rep_set_inflight|]. by destruct m0. }
  pose proof (rep_count_drop (ad_to (ld_addr r)) _ _ Hr') as Hd.
  subst mine. unfold deliverable, compose. simpl.
  destruct (is_cancelled (mb_inflight m !! ld_addr r)), (d (ld_addr r)), (wanted w (ld_lane r)); simpl;
    rewrite ?app_nil_r; (split; [done|]); try exact Hd.
  destruct m0. unfold lose. simpl. rewrite app_nil_r. exact Hr'.
Qed.

Lemma rep_take_fold d w m q : forall out l m0,
  represents l m0 -> ends_last q ->
  Forall (fun r => is_cancelled (mb_inflight m0 !! ld_addr r)
                   = is_cancelled (mb_inflight m !! ld_addr r)) q ->
  let mine := deliverable d w m in
  (fold_left (take_one d w) q (out, l)).1 = out ++ List.filter mine q
  /\ represents (fold_left (take_one d w) q (out, l)).2
       (lose (ad_to ∘ ld_addr <$> List.filter (negb ∘ mine) q) m0
          <| mb_inflight := foldl retire (mb_inflight m0) q |>).
Proof.
  induction q as [|r q IH]; intros out l m0 Hr He Hc mine.
  - split; [by rewrite app_nil_r|]. destruct m0. unfold lose. simpl. by rewrite app_nil_r.
  - destruct He as [Hlast He]. apply Forall_cons in Hc as [Hc Hcs].
    destruct (rep_take_one d w m r out l m0 Hr Hc) as [Ho Hr1]. fold mine in Ho, Hr1.
    cbn [fold_left]. destruct (take_one d w (out, l) r) as [out1 l1]. cbn [fst snd] in Ho, Hr1.
    destruct (IH out1 l1 _ Hr1 He) as [Ho' Hr'].
    { apply Forall_forall. intros s Hs. rewrite Forall_forall in Hcs. rewrite <-(Hcs _ Hs).
      simpl. unfold retire. destruct (ld_terminal r) eqn:E; [|done].
      specialize (Hlast eq_refl). rewrite Forall_forall in Hlast. specialize (Hlast _ Hs).
      by rewrite lookup_delete_ne by congruence. }
    split.
    + rewrite Ho', Ho, <-app_assoc, <-List.filter_app. done.
    + unfold lose in *. simpl in Hr'. cbn [foldl].
      assert (List.filter (negb ∘ mine) (r :: q) = List.filter (negb ∘ mine) [r] ++ List.filter (negb ∘ mine) q)
        as -> by (by rewrite <-List.filter_app).
      rewrite fmap_app, app_assoc. exact Hr'.
Qed.

Lemma rep_take d w l m : mailbox_ok m -> represents l m ->
  (take_for d w l).1 = (mb_take d w m).1 /\ represents (take_for d w l).2 (mb_take d w m).2.
Proof.
  intros Hok Hr. unfold take_for, mb_take. rewrite (rep_merged l m Hok Hr).
  destruct (rep_take_fold d w m (mb_queue m).*2 [] (l <| la_data := [] |> <| la_control := [] |>)
              (m <| mb_queue := [] |>)) as [Ho Hr'].
  - destruct Hr as [Hd Hc Hs Hi Hn Hf H1 H2 H3]. by split.
  - apply ends_last_of. intros a. eapply ok_at_one_end, (ok_records m Hok a).
  - by apply Forall_forall.
  - split; [exact Ho|]. simpl in Hr'. rewrite retire_all in Hr' by done. exact Hr'.
Qed.

Lemma addr_drops a (q : list (bool * Landed)) :
  ad_to ∘ ld_addr ∘ snd <$> List.filter (is_addr a ∘ snd) q
  = replicate (List.length (List.filter (is_addr a) q.*2)) (ad_to a).
Proof.
  unfold compose, is_addr. induction q as [|[c r] q IH]; csimpl; [done|].
  case_bool_decide as E; csimpl; [|done]. by rewrite IH, E.
Qed.

Lemma rep_cancel a l m : represents l m ->
  (cancel a l).1 = (mb_cancel a m).1 /\ represents (cancel a l).2 (mb_cancel a m).2.
Proof.
  intros Hr. unfold cancel, cancel_locked, mb_cancel. rewrite (rep_inflight _ _ Hr).
  destruct (mb_inflight m !! a) as [state|] eqn:E; [|done]. cbn [fst snd]. split; [done|].
  set (q := List.filter (negb ∘ is_addr a ∘ snd) (mb_queue m)).
  assert (represents (l <| la_data := List.filter (fun r => negb (is_addr a r)) (la_data l) |>
                        <| la_control := List.filter (fun r => negb (is_addr a r)) (la_control l) |>)
            (m <| mb_queue := q |>)) as Hq.
  { destruct Hr as [Hd Hc Hs Hi Hn Hf H1 H2 H3]. split; simpl; try done; unfold counted in *; simpl; subst q.
    - by rewrite Hd, filter_comm, filter_snd.
    - by rewrite Hc, filter_comm, filter_snd. }
  apply (rep_iter_drop (ad_to a)
           (List.length (List.filter (is_addr a) (la_data l ++ la_control l)))) in Hq.
  set (l1 := Nat.iter _ _ _) in *. rewrite (rep_inflight _ _ Hq).
  apply (rep_set_inflight
    (match state with
     | Reserved_Running _ stream => <[a:=Reserved_Running true stream]> (mb_inflight m)
     | Reserved_Terminal _ => delete a (mb_inflight m) end)) in Hq.
  rewrite addr_drops.
  assert (List.length (List.filter (is_addr a) (la_data l ++ la_control l))
          = List.length (List.filter (is_addr a) (mb_queue m).*2)) as Hlen.
  { assert (la_data l ++ la_control l ≡ₚ (mb_queue m).*2) as Hp.
    { rewrite (rep_data _ _ Hr), (rep_control _ _ Hr). unfold counted.
      by rewrite <-fmap_app, filter_split_perm. }
    clear -Hp. induction Hp; simpl; repeat case_match; simpl; lia. }
  rewrite Hlen in Hq. exact Hq.
Qed.

Definition mb_cancels (ks : list Addr) (m : Mailbox) : Mailbox :=
  fold_left (fun m a => (mb_cancel a m).2) ks m.

Lemma rep_cancels ks : forall l m, represents l m ->
  represents (fold_left (fun l a => (cancel_locked a l).2) ks l) (mb_cancels ks m).
Proof.
  induction ks as [|a ks IH]; intros l m Hr; [done|]. apply IH. by apply (rep_cancel a) in Hr as [_ Hr].
Qed.

Definition among (ks : list Addr) (e : bool * Landed) : bool := bool_decide (ld_addr e.2 ∈ ks).

Definition cancelled_at (r : option Reservation) : option Reservation :=
  match r with Some (Reserved_Running _ s) => Some (Reserved_Running true s) | _ => None end.

(** Cancelling a list of different operations, all of them reserved. *)
Lemma mb_cancels_spec ks : NoDup ks -> forall m, (forall a, a ∈ ks -> is_Some (mb_inflight m !! a)) ->
  let m' := mb_cancels ks m in
  mb_queue m' = List.filter (negb ∘ among ks) (mb_queue m)
  /\ (forall a, mb_inflight m' !! a
        = if decide (a ∈ ks) then cancelled_at (mb_inflight m !! a) else mb_inflight m !! a)
  /\ (exists gone, mb_drops m' = mb_drops m ++ gone
        /\ gone ≡ₚ ad_to ∘ ld_addr ∘ snd <$> List.filter (among ks) (mb_queue m))
  /\ mb_seq m' = mb_seq m /\ mb_cap m' = mb_cap m
  /\ mb_inflight_cap m' = mb_inflight_cap m /\ mb_total_cap m' = mb_total_cap m.
Proof.
  induction 1 as [|a ks Ha Hks IH]; intros m Hin m'.
  - subst m'. unfold mb_cancels. cbn [fold_left]. split; [|split; [|split; [|done]]].
    + induction (mb_queue m) as [|e q Hq]; simpl; [done|]. by rewrite <-Hq.
    + intros a. by rewrite decide_False by apply not_elem_of_nil.
    + exists []. rewrite app_nil_r. split; [done|]. induction (mb_queue m); simpl; [done|assumption].
  - destruct (Hin a) as [state E]; [by left|].
    set (m1 := (mb_cancel a m).2).
    assert (mb_queue m1 = List.filter (negb ∘ is_addr a ∘ snd) (mb_queue m)
            /\ (forall b, mb_inflight m1 !! b = if decide (b = a) then cancelled_at (Some state) else mb_inflight m !! b)
            /\ mb_drops m1 = mb_drops m ++ (ad_to ∘ ld_addr ∘ snd <$> List.filter (is_addr a ∘ snd) (mb_queue m))
            /\ mb_seq m1 = mb_seq m /\ mb_cap m1 = mb_cap m
            /\ mb_inflight_cap m1 = mb_inflight_cap m /\ mb_total_cap m1 = mb_total_cap m)
      as (Hq1 & Hi1 & Hd1 & Hs1 & Hc1 & He1 & Ht1).
    { subst m1. unfold mb_cancel. rewrite E. simpl. repeat split; try done. intros b.
      case_decide as Hb; [subst b; destruct state; by rewrite ?lookup_insert_eq, ?lookup_delete_eq|].
      destruct state; by rewrite ?lookup_insert_ne, ?lookup_delete_ne by done. }
    destruct (IH m1) as (Hq & Hi & (gone & Hd & Hp) & Hs & Hc & He & Ht).
    { intros b Hb. rewrite Hi1, decide_False by (by intros ->). apply Hin. by right. }
    change m' with (mb_cancels ks m1). split; [|split; [|split; [|by rewrite Hs, Hc, He, Ht]]].
    + rewrite Hq, Hq1. clear. unfold compose, among, is_addr.
      induction (mb_queue m) as [|[c r] q IH]; simpl; [done|].
      destruct (decide (ld_addr r = a)) as [Hr|Hr]; simpl.
      * by rewrite !bool_decide_true by (rewrite ?elem_of_cons; tauto).
      * rewrite (bool_decide_false (ld_addr r = a)) by done. simpl.
        destruct (decide (ld_addr r ∈ ks)).
        -- by rewrite !bool_decide_true by (rewrite ?elem_of_cons; tauto).
        -- rewrite !bool_decide_false by (rewrite ?elem_of_cons; tauto). simpl. by rewrite IH.
    + intros b. rewrite Hi, Hi1. destruct (decide (b = a)) as [->|Hb].
      * by rewrite decide_False, decide_True, E by (rewrite ?elem_of_cons; tauto).
      * destruct (decide (b ∈ ks)).
        -- by rewrite decide_True by (rewrite ?elem_of_cons; tauto).
        -- by rewrite decide_False by (rewrite ?elem_of_cons; tauto).
    + exists ((ad_to ∘ ld_addr ∘ snd <$> List.filter (is_addr a ∘ snd) (mb_queue m)) ++ gone).
      rewrite Hd, Hd1, <-app_assoc. split; [done|]. rewrite Hp, Hq1, <-fmap_app. apply fmap_Permutation.
      clear -Ha. unfold compose, among, is_addr.
      induction (mb_queue m) as [|[c r] q IH]; simpl; [done|].
      destruct (decide (ld_addr r = a)) as [Hr|Hr]; simpl.
      * rewrite !bool_decide_true by (rewrite ?elem_of_cons; tauto). csimpl. by rewrite <-IH.
      * rewrite (bool_decide_false (ld_addr r = a)) by done. simpl.
        destruct (decide (ld_addr r ∈ ks)).
        -- rewrite !bool_decide_true by (rewrite ?elem_of_cons; tauto).
           by rewrite <-IH, Permutation_middle.
        -- by rewrite !bool_decide_false by (rewrite ?elem_of_cons; tauto).
Qed.

Lemma rep_clear l m : mailbox_ok m -> represents l m -> represents (clear l) (mb_clear m).
Proof.
  intros Hok Hr. unfold clear. rewrite (rep_inflight _ _ Hr).
  set (ks := (map_to_list (mb_inflight m)).*1).
  assert (forall a, a ∈ ks <-> is_Some (mb_inflight m !! a)) as Hks.
  { intros a. subst ks. rewrite list_elem_of_fmap. split.
    - intros ([b r] & -> & H). apply elem_of_map_to_list in H. by exists r.
    - intros [r Hr']. exists (a, r). split; [done|]. by apply elem_of_map_to_list. }
  apply (rep_cancels ks) in Hr. set (l' := fold_left _ ks l) in *.
  destruct (mb_cancels_spec ks) with (m := m) as (Hq & Hi & (gone & Hd & Hp) & Hs & Hc & He & Ht);
    [apply NoDup_fst_map_to_list|by intros a; apply Hks|].
  assert (forall e, e ∈ mb_queue m -> among ks e = true) as Hall.
  { intros [c r] Hin. apply bool_decide_eq_true. apply Hks. simpl.
    destruct (mb_inflight m !! ld_addr r) eqn:E; [by eexists|].
    pose proof (ok_records m Hok (ld_addr r)) as Hat. rewrite E in Hat. simpl in Hat.
    assert (r ∈ of_addr (ld_addr r) m) as Hr'; [|rewrite Hat in Hr'; by apply elem_of_nil in Hr'].
    apply list_elem_of_In, List.filter_In. split; [|unfold is_addr; by rewrite bool_decide_true].
    apply list_elem_of_In, list_elem_of_fmap. by exists (c, r). }
  assert (List.filter (among ks) (mb_queue m) = mb_queue m) as Hyes
    by (apply forallb_filter_id, forallb_forall; intros e He'; by apply Hall, list_elem_of_In).
  assert (List.filter (negb ∘ among ks) (mb_queue m) = []) as Hno.
  { clear -Hall. induction (mb_queue m) as [|e q IH]; [done|]. simpl.
    rewrite Hall by set_solver. simpl. apply IH. set_solver. }
  rewrite Hyes in Hp. rewrite Hno in Hq.
  assert (mb_inflight (mb_cancels ks m) = mark_cancelled <$> filter still_running (mb_inflight m)) as Hinf.
  { apply map_eq. intros a. rewrite Hi, lookup_fmap, still_running_lookup.
    case_decide as Ha; rewrite Hks in Ha.
    - by destruct (mb_inflight m !! a) as [[]|].
    - apply eq_None_not_Some in Ha. by rewrite Ha. }
  pose proof (rep_drops _ _ (mb_drops m ++ (ad_to ∘ ld_addr ∘ snd <$> mb_queue m)) Hr) as Hfin.
  specialize (Hfin ltac:(by rewrite Hd, Hp)).
  destruct (mb_cancels ks m), m. unfold mb_clear, lose. simpl in *. subst. exact Hfin.
Qed.

Lemma rep_step e l m : mailbox_ok m -> represents l m -> mb_seq m < u64_max ->
  (landing_step e l).1 = (mailbox_step e m).1 /\ represents (landing_step e l).2 (mailbox_step e m).2.
Proof.
  intros Hok Hr Hlt. destruct e as [a stream|a k v|a k v|a|a|d w|a|]; simpl.
  - destruct (rep_admit a stream l m Hr). destruct (admit_mode a stream l), (mb_admit a stream m). naive_solver.
  - destruct (rep_progress a k v l m Hok Hr Hlt). destruct (progress a k v l), (mb_progress a k v m). naive_solver.
  - destruct (rep_complete a (Lane_Data k v) l m Hok Hr Hlt). unfold put.
    destruct (complete_locked _ _ l), (mb_complete _ _ m). naive_solver.
  - destruct (rep_complete a (Lane_Dropped (ad_req a)) l m Hok Hr Hlt). unfold dropped.
    destruct (complete_locked _ _ l), (mb_complete _ _ m). naive_solver.
  - destruct (rep_complete a (Lane_Refused (ad_req a)) l m Hok Hr Hlt). unfold refused.
    destruct (complete_locked _ _ l), (mb_complete _ _ m). naive_solver.
  - destruct (rep_take d w l m Hok Hr) as [Ho Hr']. destruct (take_for d w l). simpl in *. by subst.
  - destruct (rep_cancel a l m Hr). destruct (cancel a l), (mb_cancel a m). naive_solver.
  - split; [done|]. by apply rep_clear.
Qed.

Lemma seq_step e m : mb_seq m <= mb_seq (mailbox_step e m).2 <= mb_seq m + 1.
Proof.
  destruct e as [a stream|a k v|a k v|a|a|d w|a|]; simpl;
    unfold mb_admit, mb_progress, mb_complete, mb_cancel; repeat case_match; simplify_eq/=; lia.
Qed.

Lemma rep_new cap inflight_cap total_cap :
  represents (with_limits cap inflight_cap total_cap) (mailbox_new cap inflight_cap total_cap).
Proof. by split. Qed.

Lemma rep_play events : forall l m, mailbox_ok m -> represents l m ->
  mb_seq m + Z.of_nat (List.length events) <= u64_max ->
  (play landing_step events l).1 = (play mailbox_step events m).1
  /\ represents (play landing_step events l).2 (play mailbox_step events m).2
  /\ mailbox_ok (play mailbox_step events m).2.
Proof.
  induction events as [|e events IH]; intros l m Hok Hr Hb; [done|]. simpl in Hb.
  destruct (rep_step e l m Hok Hr) as [Ha Hr']; [lia|]. pose proof (ok_step e m Hok) as Hok'.
  pose proof (seq_step e m) as Hseq. simpl.
  destruct (landing_step e l) as [al l1], (mailbox_step e m) as [am m1]. simpl in *. subst am.
  destruct (IH l1 m1 Hok' Hr') as (Has & Hr1 & Hok1); [lia|].
  destruct (play landing_step events l1), (play mailbox_step events m1). simpl in *. by subst.
Qed.

End Mail.
