(* ===== verification/LandingTraces.v ===== *)
(** * Histories of the mailbox

    The properties of [Landing] over any history of operations: it is one queue, every operation has
    one end, a cancelled one is silent, storage is bounded and losses are counted.  Each is proved of
    the one queue [Mailbox] and carried over by [rep_play]. *)

From stdpp Require Import gmap fin_maps fin_map_dom.
From S2P Require Import Prelude Landing.

#[local] Open Scope Z_scope.

Section Histories.
  Context {K V : Type}.

Abbreviation Landed := (Landed (K := K) (V := V)).
Abbreviation Event := (Event (K := K) (V := V)).
Abbreviation Answer := (Answer (K := K) (V := V)).
Abbreviation Mailbox := (Mailbox (K := K) (V := V)).
Abbreviation Landing := (Landing (K := K) (V := V)).
Implicit Types (m : Mailbox) (e : Event) (events : list Event) (out q : list Landed).
Implicit Types (answers : list Answer).

(** ** Histories of one landing *)

Definition of_operation (a : Addr) (records : list Landed) : list Landed :=
  List.filter (is_addr a) records.
Definition terminals (records : list Landed) : nat := List.length (List.filter ld_terminal records).

(** How often [a] was admitted, and how often a publication found the data lane full. *)
Definition admissions (a : Addr) (events : list Event) (answers : list Answer) : nat :=
  List.length (List.filter
    (fun p => match p with
              | (EvAdmit b _, Answer_Admit (Ok _)) => bool_decide (b = a)
              | _ => false
              end) (combine events answers)).
Definition overflows (answers : list Answer) : nat :=
  List.length (List.filter
    (fun answer => match answer with Answer_Publish (Err Full) => true | _ => false end) answers).

Definition reserved (a : Addr) (i : gmap Addr Reservation) : nat :=
  match i !! a with Some _ => 1 | None => 0 end.

(** Progress, and at most one end. *)
Definition operation_log (records : list Landed) : Prop :=
  exists before rest, records = before ++ rest /\ Forall is_progress before
    /\ (rest = [] \/ exists last, rest = [last] /\ ld_terminal last = true).

(** *** Steps seen from one operation *)

Lemma taken_step e m :
  taken (mailbox_step e m).1
  = match e with EvTake d w => List.filter (deliverable d w m) (mb_queue m).*2 | _ => [] end.
Proof. destruct e; simpl; by repeat case_match. Qed.

Definition admits (a : Addr) (e : Event) (answer : Answer) : bool :=
  match e, answer with
  | EvAdmit b _, Answer_Admit (Ok _) => bool_decide (b = a)
  | _, _ => false
  end.

Ltac per_operation a b :=
  destruct (decide (b = a)) as [->|];
  rewrite ?lookup_insert_eq, ?lookup_delete_eq, ?lookup_insert_ne, ?lookup_delete_ne by done.

Lemma reserved_step a e m :
  (reserved a (mb_inflight (mailbox_step e m).2)
   <= reserved a (mb_inflight m) + if admits a e (mailbox_step e m).1 then 1 else 0)%nat.
Proof.
  unfold reserved. destruct e as [b stream|b k v|b k v|b|b|d w|b|]; simpl.
  - unfold mb_admit. case_bool_decide; simpl; [lia|]. destruct (_ || _); simpl; [lia|].
    per_operation a b; [rewrite bool_decide_true by done|]; repeat case_match; lia.
  - unfold mb_progress. repeat case_match; simplify_eq/=; try lia; per_operation a b; by simplify_map_eq.
  - unfold mb_complete. repeat case_match; simplify_eq/=; try lia; per_operation a b; by simplify_map_eq.
  - unfold mb_complete. repeat case_match; simplify_eq/=; try lia; per_operation a b; by simplify_map_eq.
  - unfold mb_complete. repeat case_match; simplify_eq/=; try lia; per_operation a b; by simplify_map_eq.
  - rewrite still_running_lookup. repeat case_match; simplify_eq; lia.
  - unfold mb_cancel. repeat case_match; simplify_eq/=; try lia; per_operation a b; by simplify_map_eq.
  - rewrite lookup_fmap, still_running_lookup. destruct (mb_inflight m !! a) as [[]|]; simpl; lia.
Qed.

(** What a drain hands to [a]. *)
Definition handed (a : Addr) (d : Addr -> bool) (w : K -> bool) (m : Mailbox) : list Landed :=
  List.filter (fun r => negb (is_cancelled (mb_inflight m !! a)) && d a && wanted w (ld_lane r))
    (of_addr a m).

Lemma handed_spec a d w m :
  of_operation a (List.filter (deliverable d w m) (mb_queue m).*2) = handed a d w m.
Proof.
  unfold handed, of_operation, of_addr, deliverable, is_addr.
  induction ((mb_queue m).*2) as [|r q IH]; simpl; [done|].
  destruct (decide (ld_addr r = a)) as [Hr|Hr].
  - rewrite (bool_decide_true (ld_addr r = a)) by done. simpl. rewrite Hr. destruct (_ && _ && _); simpl.
    + by rewrite bool_decide_true, IH.
    + by rewrite IH.
  - rewrite (bool_decide_false (ld_addr r = a)) by done. destruct (_ && _ && _); simpl; [|done].
    by rewrite bool_decide_false.
Qed.

Lemma progress_terminals before : Forall is_progress before -> terminals before = 0%nat.
Proof. unfold terminals. induction 1 as [|r l [Hr _] _ IH]; simpl; [done|]. by rewrite Hr. Qed.

Lemma terminals_app l l' : terminals (l ++ l') = (terminals l + terminals l')%nat.
Proof. unfold terminals. by rewrite List.filter_app, length_app. Qed.

(** A part of what is queued for [a]: no end of an operation that still runs, and an end last. *)
Lemma handed_log a d w m : mailbox_ok m ->
  operation_log (handed a d w m)
  /\ (terminals (handed a d w m) + reserved a (filter still_running (mb_inflight m))
      <= reserved a (mb_inflight m))%nat
  /\ (reserved a (mb_inflight m) = 0%nat -> handed a d w m = []).
Proof.
  intros Hok. pose proof (ok_records m Hok a) as Ha. unfold handed, reserved.
  rewrite still_running_lookup. set (keep := fun r => _).
  assert (operation_log []) as Hnil by (exists [], []; repeat split; [constructor|by left]).
  assert (forall l, Forall is_progress l -> operation_log (List.filter keep l)) as Hprog.
  { intros l Hl. exists (List.filter keep l), []. rewrite app_nil_r.
    split; [done|]. split; [by apply filter_Forall|by left]. }
  destruct (mb_inflight m !! a) as [[[] []|c]|] eqn:E; simpl in Ha; try (rewrite Ha; simpl; done).
  - split; [by apply Hprog|]. split; [|done]. rewrite progress_terminals by (by apply filter_Forall). lia.
  - destruct Ha as (before & last & -> & Hb & Ht & _). rewrite List.filter_app. split; [|split; [|done]].
    + exists (List.filter keep before), (List.filter keep [last]). split; [done|].
      split; [by apply filter_Forall|]. simpl. destruct (keep last); [right; by exists last|by left].
    + rewrite terminals_app, progress_terminals by (by apply filter_Forall). unfold terminals. simpl.
      destruct (keep last); simpl; rewrite ?Ht; simpl; lia.
Qed.

Definition log_inv (a : Addr) (m : Mailbox) (out : list Landed) (admitted : nat) : Prop :=
  (terminals (of_operation a out) + reserved a (mb_inflight m) <= admitted)%nat
  /\ ((admitted <= 1)%nat -> operation_log (of_operation a out)).

Lemma log_inv_step a e m out n : mailbox_ok m -> log_inv a m out n ->
  log_inv a (mailbox_step e m).2 (out ++ taken (mailbox_step e m).1)
    (n + if admits a e (mailbox_step e m).1 then 1 else 0)%nat.
Proof.
  intros Hok [Hn Hl]. pose proof (reserved_step a e m) as Hr. rewrite taken_step.
  assert ((exists d w, e = EvTake d w) \/ forall d w, e <> EvTake d w) as [(d & w & ->)|Hne]
    by (destruct e; naive_solver).
  - simpl. unfold log_inv, of_operation. rewrite List.filter_app, terminals_app.
    fold (of_operation a out). fold (of_operation a (List.filter (deliverable d w m) (mb_queue m).*2)).
    rewrite handed_spec. destruct (handed_log a d w m Hok) as (Hh & Ht & Hz). cbn in Ht |- *.
    split; [lia|]. intros H1. specialize (Hl ltac:(lia)). destruct Hl as (before & rest & Ho & Hb & Hrest).
    rewrite Ho in *. destruct Hrest as [->|(last & -> & Hlast)].
    + rewrite app_nil_r. destruct Hh as (before' & rest' & -> & Hb' & Hrest').
      exists (before ++ before'), rest'. rewrite app_assoc. split; [done|]. split; [by apply Forall_app|done].
    + rewrite terminals_app in Hn. unfold terminals in Hn at 2. simpl in Hn. rewrite Hlast in Hn. simpl in Hn.
      rewrite Hz by lia. rewrite app_nil_r. exists before, [last]. split; [done|]. split; [done|]. right. by exists last.
  - assert (match e with EvTake d w => List.filter (deliverable d w m) (mb_queue m).*2 | _ => [] end = []) as ->
      by (destruct e; try done; by destruct (Hne is_deliverable want)).
    rewrite app_nil_r. split; [lia|]. intros H1. apply Hl. lia.
Qed.

Lemma log_inv_new a cap inflight_cap total_cap : log_inv a (mailbox_new cap inflight_cap total_cap) [] 0.
Proof.
  split.
  - unfold reserved. simpl. by rewrite lookup_empty.
  - intros _. exists [], []. repeat split; [constructor|by left].
Qed.

Lemma admissions_cons a e answer events answers :
  admissions a (e :: events) (answer :: answers)
  = ((if admits a e answer then 1 else 0) + admissions a events answers)%nat.
Proof.
  unfold admissions, admits. simpl. destruct e; try done. destruct answer as [[]| | | |]; try done.
  by case_match.
Qed.

Lemma log_inv_play a events : forall m out n, mailbox_ok m -> log_inv a m out n ->
  let r := play mailbox_step events m in
  log_inv a r.2 (out ++ delivered r.1) (n + admissions a events r.1)%nat.
Proof.
  induction events as [|e events IH]; intros m out n Hok Hi.
  - unfold admissions. simpl. by rewrite app_nil_r, Nat.add_0_r.
  - pose proof (log_inv_step a e m out n Hok Hi) as Hs. pose proof (ok_step e m Hok) as Hok'. simpl.
    destruct (mailbox_step e m) as [answer m1]. simpl in *. specialize (IH m1 _ _ Hok' Hs).
    destruct (play mailbox_step events m1) as [answers m2]. simpl in *.
    rewrite admissions_cons. unfold delivered in *. simpl. rewrite app_assoc, Nat.add_assoc. exact IH.
Qed.

Lemma delivered_cons answer answers : delivered (answer :: answers) = taken answer ++ delivered answers.
Proof. done. Qed.

(** *** Cancelled operations *)

Definition silenced (r : option Reservation) : bool :=
  match r with None => true | Some _ => is_cancelled r end.

Ltac looked_up a :=
  repeat match goal with
  | E : ?i !! a = Some _, H : context [?i !! a] |- _ =>
      lazymatch H with E => fail | _ => rewrite E in H end
  end; simpl in *.

Lemma silenced_step a e m :
  (forall stream, e <> EvAdmit a stream) -> silenced (mb_inflight m !! a) = true ->
  silenced (mb_inflight (mailbox_step e m).2 !! a) = true.
Proof.
  intros Hne Hs. destruct e as [b stream|b k v|b k v|b|b|d w|b|]; simpl.
  - unfold mb_admit. case_bool_decide; simpl; [done|]. destruct (_ || _); simpl; [done|].
    rewrite lookup_insert_ne; [done|]. intros ->. by destruct (Hne stream).
  - unfold mb_progress. repeat case_match; simplify_eq/=; try done; per_operation a b; simplify_map_eq; by looked_up a.
  - unfold mb_complete. repeat case_match; simplify_eq/=; try done; per_operation a b; simplify_map_eq; by looked_up a.
  - unfold mb_complete. repeat case_match; simplify_eq/=; try done; per_operation a b; simplify_map_eq; by looked_up a.
  - unfold mb_complete. repeat case_match; simplify_eq/=; try done; per_operation a b; simplify_map_eq; by looked_up a.
  - rewrite still_running_lookup. by destruct (mb_inflight m !! a) as [[]|].
  - unfold mb_cancel. repeat case_match; simplify_eq/=; try done; per_operation a b; simplify_map_eq; by looked_up a.
  - rewrite lookup_fmap, still_running_lookup. by destruct (mb_inflight m !! a) as [[]|].
Qed.

Lemma silenced_handed a d w m : mailbox_ok m -> silenced (mb_inflight m !! a) = true ->
  handed a d w m = [].
Proof.
  intros Hok Hs. pose proof (ok_records m Hok a) as Ha. unfold handed.
  destruct (mb_inflight m !! a) as [r|]; simpl in *.
  - rewrite Hs. simpl. clear; by induction (of_addr a m).
  - by rewrite Ha.
Qed.

(** The events that end the work of [a]. *)
Definition ends (a : Addr) (e : Event) : bool :=
  match e with
  | EvPut b _ _ | EvDropped b | EvRefused b => bool_decide (b = a)
  | _ => false
  end.

Lemma running_kept a e stream m : ends a e = false ->
  mb_inflight m !! a = Some (Reserved_Running true stream) ->
  mb_inflight (mailbox_step e m).2 !! a = Some (Reserved_Running true stream).
Proof.
  intros He Ha. destruct e as [b s|b k v|b k v|b|b|d w|b|]; simpl in *.
  - unfold mb_admit. case_bool_decide as Hb; simpl; [done|]. destruct (_ || _); simpl; [done|].
    rewrite lookup_insert_ne; [done|]. intros ->. by rewrite Ha in Hb; destruct Hb.
  - unfold mb_progress. repeat case_match; simplify_eq/=; try done; per_operation a b; by simplify_map_eq.
  - apply bool_decide_eq_false in He.
    unfold mb_complete. repeat case_match; simplify_eq/=; try done; by rewrite lookup_insert_ne.
  - apply bool_decide_eq_false in He.
    unfold mb_complete. repeat case_match; simplify_eq/=; try done; by rewrite lookup_insert_ne.
  - apply bool_decide_eq_false in He.
    unfold mb_complete. repeat case_match; simplify_eq/=; try done; by rewrite lookup_insert_ne.
  - by rewrite still_running_lookup, Ha.
  - unfold mb_cancel. repeat case_match; simplify_eq/=; try done; per_operation a b; by simplify_map_eq.
  - by rewrite lookup_fmap, still_running_lookup, Ha.
Qed.

Lemma silenced_play a events : forall m, mailbox_ok m ->
  Forall (fun e => forall stream, e <> EvAdmit a stream) events ->
  silenced (mb_inflight m !! a) = true ->
  of_operation a (delivered (play mailbox_step events m).1) = [].
Proof.
  induction events as [|e events IH]; intros m Hok Hne Hs; [done|].
  apply Forall_cons in Hne as [He Hne].
  pose proof (silenced_step a e m He Hs) as Hs'. pose proof (ok_step e m Hok) as Hok'.
  pose proof (taken_step e m) as Ht. simpl.
  destruct (mailbox_step e m) as [answer m1]. simpl in *. specialize (IH m1 Hok' Hne Hs').
  destruct (play mailbox_step events m1) as [answers m2]. cbn [fst] in *. rewrite delivered_cons.
  unfold of_operation in *. rewrite List.filter_app, IH, app_nil_r, Ht. destruct e; try done.
  fold (of_operation a (List.filter (deliverable is_deliverable want m) (mb_queue m).*2)).
  rewrite handed_spec. by apply silenced_handed.
Qed.

Lemma running_play a stream events : forall m,
  Forall (fun e => ends a e = false) events ->
  mb_inflight m !! a = Some (Reserved_Running true stream) ->
  mb_inflight (play mailbox_step events m).2 !! a = Some (Reserved_Running true stream).
Proof.
  induction events as [|e events IH]; intros m He Ha; [done|]. apply Forall_cons in He as [He Hes].
  pose proof (running_kept a e stream m He Ha) as Ha'. simpl.
  destruct (mailbox_step e m) as [answer m1]. simpl in *. specialize (IH m1 Hes Ha').
  by destruct (play mailbox_step events m1).
Qed.

(** *** Losses and bounds *)

Definition overflow (answer : Answer) : Z :=
  match answer with Answer_Publish (Err Full) => 1 | _ => 0 end.

Lemma overflows_cons answer answers :
  Z.of_nat (overflows (answer :: answers)) = overflow answer + Z.of_nat (overflows answers).
Proof. unfold overflows. simpl. destruct answer as [|[|[]|]| | |]; simpl; lia. Qed.

(** A record is handed out, lost, or still queued; an overflow loses its payload as well. *)
Lemma losses_step e m :
  let r := mailbox_step e m in
  Z.of_nat (List.length (mb_drops r.2)) + Z.of_nat (List.length (taken r.1))
    + Z.of_nat (List.length (mb_queue r.2)) - mb_seq r.2
  = Z.of_nat (List.length (mb_drops m)) + Z.of_nat (List.length (mb_queue m)) - mb_seq m + overflow r.1.
Proof.
  destruct e as [a stream|a k v|a k v|a|a|d w|a|]; simpl.
  - unfold mb_admit. repeat case_match; simplify_eq/=; lia.
  - unfold mb_progress. repeat case_match; simplify_eq/=; rewrite ?length_app; simpl; lia.
  - unfold mb_complete. repeat case_match; simplify_eq/=; rewrite ?length_app; simpl; lia.
  - unfold mb_complete. repeat case_match; simplify_eq/=; rewrite ?length_app; simpl; lia.
  - unfold mb_complete. repeat case_match; simplify_eq/=; rewrite ?length_app; simpl; lia.
  - rewrite length_app, length_fmap.
    pose proof (Permutation_length (filter_split_perm (deliverable d w m) (mb_queue m).*2)) as H.
    rewrite length_app, length_fmap in H. unfold compose in *. lia.
  - unfold mb_cancel. destruct (mb_inflight m !! a); simpl; [|lia].
    rewrite length_app, length_fmap.
    pose proof (Permutation_length (filter_split_perm (is_addr a ∘ snd) (mb_queue m))) as H.
    rewrite length_app in H. unfold compose in *. lia.
  - rewrite length_app, length_fmap. lia.
Qed.

Lemma losses_play events : forall m,
  let r := play mailbox_step events m in
  Z.of_nat (List.length (mb_drops r.2)) + Z.of_nat (List.length (delivered r.1))
    + Z.of_nat (List.length (mb_queue r.2)) - mb_seq r.2
  = Z.of_nat (List.length (mb_drops m)) + Z.of_nat (List.length (mb_queue m)) - mb_seq m
    + Z.of_nat (overflows r.1).
Proof.
  induction events as [|e events IH]; intros m; [unfold overflows, delivered; simpl; lia|].
  pose proof (losses_step e m) as Hs. simpl. destruct (mailbox_step e m) as [answer m1].
  specialize (IH m1). destruct (play mailbox_step events m1) as [answers m2]. simpl in *.
  rewrite delivered_cons, length_app, overflows_cons. lia.
Qed.

Lemma ends_last_NoDup q : ends_last q -> NoDup (ld_addr <$> List.filter ld_terminal q).
Proof.
  induction q as [|r q IH]; simpl; [constructor|]. intros [Hr Hq]. destruct (ld_terminal r); [|by apply IH].
  csimpl. constructor; [|by apply IH]. specialize (Hr eq_refl). rewrite Forall_forall in Hr.
  intros (s & E & [Hs _]%list_elem_of_In%List.filter_In)%list_elem_of_fmap.
  by apply (Hr s); [apply list_elem_of_In|].
Qed.

(** The records beside the data lane are the ends of reserved operations. *)
Lemma control_bound m : mailbox_ok m ->
  (List.length (List.filter (negb ∘ fst) (mb_queue m)) <= size (mb_inflight m))%nat.
Proof.
  intros Hok.
  assert (List.length (List.filter (negb ∘ fst) (mb_queue m)) <= terminals (mb_queue m).*2)%nat as Hle.
  { pose proof (ok_control m Hok) as Hc. unfold terminals, compose.
    induction Hc as [|[c r] q Hr _ IH]; csimpl; [lia|]. simpl in Hr.
    destruct c; simpl; [|rewrite Hr by done; simpl; lia]. case_match; simpl; lia. }
  assert (NoDup (ld_addr <$> List.filter ld_terminal (mb_queue m).*2)) as Hnd.
  { apply ends_last_NoDup, ends_last_of. intros a. eapply ok_at_one_end, (ok_records m Hok a). }
  etransitivity; [exact Hle|]. unfold terminals.
  rewrite <-(length_fmap ld_addr), <-(size_list_to_set (C := gset Addr)) by done.
  rewrite <-(size_dom (D := gset Addr)). apply subseteq_size.
  intros a (r & -> & [Hr _]%list_elem_of_In%List.filter_In)%elem_of_list_to_set%list_elem_of_fmap.
  apply elem_of_dom. destruct (mb_inflight m !! ld_addr r) eqn:E; [by eexists|].
  pose proof (ok_records m Hok (ld_addr r)) as Ha. rewrite E in Ha. simpl in Ha.
  assert (r ∈ of_addr (ld_addr r) m) as Hin; [|rewrite Ha in Hin; by apply elem_of_nil in Hin].
  apply list_elem_of_In, List.filter_In. split; [done|]. unfold is_addr. by rewrite bool_decide_true.
Qed.

(** *** Arrival order *)

Definition in_order (records : list Landed) : Prop :=
  StronglySorted (fun r s => ld_seq r < ld_seq s) records.

Lemma in_order_app_filter keep out q : in_order (out ++ q) -> in_order (out ++ List.filter keep q).
Proof.
  unfold in_order. rewrite !StronglySorted_app. intros (H & Ho & Hq). split; [|split; [done|by apply filter_sorted]].
  intros r s Hr [Hs _]%list_elem_of_In%List.filter_In. apply H; [done|by apply list_elem_of_In].
Qed.

Lemma in_order_post out counts terminal a lane m :
  in_order (out ++ (mb_queue m).*2) -> Forall (fun r => ld_seq r <= mb_seq m) (out ++ (mb_queue m).*2) ->
  in_order (out ++ (mb_queue (post counts terminal a lane m)).*2)
  /\ Forall (fun r => ld_seq r <= mb_seq m + 1) (out ++ (mb_queue (post counts terminal a lane m)).*2).
Proof.
  intros Ho Hf. simpl. rewrite fmap_app, app_assoc. simpl. split.
  - apply StronglySorted_app. split; [|split; [done|by repeat constructor]].
    intros r s Hr ->%list_elem_of_singleton. rewrite Forall_forall in Hf. specialize (Hf _ Hr). simpl in *. lia.
  - apply Forall_app. split; [|by repeat constructor; simpl; lia].
    eapply Forall_impl; [exact Hf|]. simpl. lia.
Qed.

Definition order_inv (out : list Landed) (m : Mailbox) : Prop :=
  in_order (out ++ (mb_queue m).*2) /\ Forall (fun r => ld_seq r <= mb_seq m) (out ++ (mb_queue m).*2).

Lemma order_keep keep out q n :
  in_order (out ++ q) /\ Forall (fun r => ld_seq r <= n) (out ++ q) ->
  in_order (out ++ List.filter keep q) /\ Forall (fun r => ld_seq r <= n) (out ++ List.filter keep q).
Proof.
  intros [Ho Hf]. split; [by apply in_order_app_filter|]. apply Forall_app in Hf as [? ?].
  apply Forall_app. split; [done|by apply filter_Forall].
Qed.

Lemma order_step e out m : order_inv out m ->
  order_inv (out ++ taken (mailbox_step e m).1) (mailbox_step e m).2.
Proof.
  intros Hi. assert (forall c t a lane, order_inv out (post c t a lane m)) as Hpost
    by (intros c t a lane; destruct Hi; by apply in_order_post).
  unfold order_inv in *. destruct e as [a stream|a k v|a k v|a|a|d w|a|]; simpl.
  - unfold mb_admit. repeat case_match; simplify_eq/=; by rewrite app_nil_r.
  - unfold mb_progress. repeat case_match; simplify_eq/=; rewrite app_nil_r; done || apply Hpost.
  - unfold mb_complete. repeat case_match; simplify_eq/=; rewrite app_nil_r; done || apply Hpost.
  - unfold mb_complete. repeat case_match; simplify_eq/=; rewrite app_nil_r; done || apply Hpost.
  - unfold mb_complete. repeat case_match; simplify_eq/=; rewrite app_nil_r; done || apply Hpost.
  - rewrite app_nil_r. by apply order_keep.
  - unfold mb_cancel. destruct (mb_inflight m !! a); simpl; rewrite app_nil_r; [|done].
    rewrite filter_snd. by apply order_keep.
  - rewrite !app_nil_r. destruct Hi as [Ho Hf]. apply StronglySorted_app in Ho as (_ & Ho & _).
    by apply Forall_app in Hf as [Hf _].
Qed.

Lemma order_play events : forall out m, order_inv out m ->
  order_inv (out ++ delivered (play mailbox_step events m).1) (play mailbox_step events m).2.
Proof.
  induction events as [|e events IH]; intros out m Hi; [by rewrite app_nil_r|].
  pose proof (order_step e out m Hi) as Hs. simpl. destruct (mailbox_step e m) as [answer m1].
  specialize (IH _ m1 Hs). destruct (play mailbox_step events m1). cbn [fst snd] in *.
  by rewrite delivered_cons, app_assoc.
Qed.

(** ** Properties *)

Lemma reached cap inflight_cap total_cap events :
  0 <= cap -> 0 <= inflight_cap -> 0 <= total_cap -> Z.of_nat (List.length events) <= u64_max ->
  let l := play landing_step events (with_limits cap inflight_cap total_cap) in
  let m := play mailbox_step events (mailbox_new cap inflight_cap total_cap) in
  l.1 = m.1 /\ represents l.2 m.2 /\ mailbox_ok m.2.
Proof. intros. apply rep_play; [by apply ok_new|apply rep_new|simpl; lia]. Qed.

Lemma seq_play events : forall m, mb_seq (play mailbox_step events m).2 <= mb_seq m + Z.of_nat (List.length events).
Proof.
  induction events as [|e events IH]; intros m; [simpl; lia|]. pose proof (seq_step e m). simpl.
  destruct (mailbox_step e m) as [answer m1]. specialize (IH m1).
  destruct (play mailbox_step events m1). simpl in *. lia.
Qed.

Lemma caps_step e m :
  mb_cap (mailbox_step e m).2 = mb_cap m /\ mb_inflight_cap (mailbox_step e m).2 = mb_inflight_cap m
  /\ mb_total_cap (mailbox_step e m).2 = mb_total_cap m.
Proof.
  destruct e; simpl; unfold mb_admit, mb_progress, mb_complete, mb_cancel;
    repeat case_match; by simplify_eq/=.
Qed.

Lemma caps_play events : forall m,
  mb_cap (play mailbox_step events m).2 = mb_cap m
  /\ mb_inflight_cap (play mailbox_step events m).2 = mb_inflight_cap m
  /\ mb_total_cap (play mailbox_step events m).2 = mb_total_cap m.
Proof.
  induction events as [|e events IH]; intros m; [done|]. pose proof (caps_step e m) as Hs. simpl.
  destruct (mailbox_step e m) as [answer m1]. specialize (IH m1).
  destruct (play mailbox_step events m1). simpl in *. intuition congruence.
Qed.

(** C7. The mailbox is one queue.  Whatever workers and the main thread do, in any order, the two lanes
    with their counters answer exactly as one queue in arrival order with a reservation per
    operation would: a publication is queued at the end, a drain takes everything that is
    wanted and retires exactly the finished operations, a cancellation takes one operation's
    records out; and over the whole history records are handed out in the order they arrived. *)
Theorem landing_refines_one_queue cap inflight_cap total_cap events :
  0 <= cap -> 0 <= inflight_cap -> 0 <= total_cap -> Z.of_nat (List.length events) <= u64_max ->
  let l := play landing_step events (with_limits cap inflight_cap total_cap) in
  let m := play mailbox_step events (mailbox_new cap inflight_cap total_cap) in
  l.1 = m.1 /\ represents l.2 m.2 /\ in_order (delivered l.1).
Proof.
  intros H1 H2 H3 Hb l m. destruct (reached cap inflight_cap total_cap events H1 H2 H3 Hb) as (Ha & Hr & _).
  split; [done|]. split; [done|]. subst l. rewrite Ha.
  destruct (order_play events [] (mailbox_new cap inflight_cap total_cap)) as [Ho _]; [by split; constructor|].
  by apply StronglySorted_app in Ho as (_ & Ho & _).
Qed.

(** One end per operation.  Each admission of an operation accounts for at most one end, and while
    the operation holds its reservation for none; an operation admitted once is handed its progress
    in order and then at most its one end, nothing after it.  And the end is never missing: whatever
    happened before, once the worker's guard is dropped, the next drain frees the reservation and
    hands the end out, last, unless the operation was cancelled. *)
Theorem one_end_per_operation cap inflight_cap total_cap events a :
  0 <= cap -> 0 <= inflight_cap -> 0 <= total_cap -> Z.of_nat (List.length events) < u64_max ->
  let r := play landing_step events (with_limits cap inflight_cap total_cap) in
  (terminals (of_operation a (delivered r.1)) + reserved a (la_inflight r.2)
   <= admissions a events r.1)%nat
  /\ ((admissions a events r.1 <= 1)%nat -> operation_log (of_operation a (delivered r.1)))
  /\ forall reservation d w,
     la_inflight r.2 !! a = Some reservation -> d a = true -> (forall k, w k = true) ->
     let t := take_for d w (guard_drop a r.2) in
     la_inflight t.2 !! a = None
     /\ if is_cancelled (Some reservation) then of_operation a t.1 = []
        else exists before last, of_operation a t.1 = before ++ [last]
             /\ Forall is_progress before /\ ld_terminal last = true.
Proof.
  intros H1 H2 H3 Hb r.
  destruct (reached cap inflight_cap total_cap events) as (Ha & Hr & Hok); [done|done|done|lia|].
  pose proof (log_inv_play a events (mailbox_new cap inflight_cap total_cap) [] 0) as [Hn Hl];
    [by apply ok_new|apply log_inv_new|].
  fold r in Ha, Hr. rewrite <-Ha in Hn, Hl. rewrite (rep_inflight _ _ Hr). split; [exact Hn|]. split; [exact Hl|].
  intros res d w Hres Hd Hw t. pose proof (seq_play events (mailbox_new cap inflight_cap total_cap)) as Hseq.
  set (m := (play mailbox_step events _).2) in *. simpl in Hseq.
  destruct (rep_complete a (Lane_Dropped (ad_req a)) r.2 m Hok Hr) as [_ Hr1]; [lia|].
  pose proof (ok_complete a (Lane_Dropped (ad_req a)) m Hok) as Hok1.
  destruct (rep_take d w _ _ Hok1 Hr1) as [Ho Ht]. fold (dropped a r.2) in Ho, Ht. fold (guard_drop a r.2) in Ho, Ht.
  fold t in Ho, Ht. set (m1 := (mb_complete a _ m).2) in *.
  assert (mb_inflight m1 !! a = Some (Reserved_Terminal (is_cancelled (Some res)))) as Hm1.
  { subst m1. unfold mb_complete. rewrite Hres. destruct res as [[] []|[]]; simpl; try exact Hres;
      by rewrite lookup_insert_eq. }
  rewrite (rep_inflight _ _ Ht), Ho.
  change (mb_inflight (mb_take d w m1).2) with (filter still_running (mb_inflight m1)).
  split; [by rewrite still_running_lookup, Hm1|].
  change (mb_take d w m1).1 with (List.filter (deliverable d w m1) (mb_queue m1).*2).
  rewrite handed_spec. unfold handed. rewrite Hm1.
  pose proof (ok_records m1 Hok1 a) as Hat. rewrite Hm1 in Hat.
  destruct Hat as (before & last & Hq & Hbf & Hlast & _).
  destruct (is_cancelled (Some res)); cbn [is_cancelled negb andb].
  - clear. by induction (of_addr a m1).
  - exists before, last. split; [|done]. rewrite Hq, Hd. apply forallb_filter_id.
    apply forallb_forall. intros x _. unfold wanted. simpl. by destruct (ld_lane x).
Qed.

(** A cancelled operation is silent, and its slot stays taken while its worker runs.  After an
    operation has been cancelled, no drain hands out anything of it until it is admitted again,
    whatever its worker still publishes; and if the worker was running, the reservation counts
    against the limits until the worker itself has ended. *)
Theorem cancelled_operation_is_silent cap inflight_cap total_cap events a l1 after :
  0 <= cap -> 0 <= inflight_cap -> 0 <= total_cap ->
  Z.of_nat (List.length events) + Z.of_nat (List.length after) <= u64_max ->
  let l := (play landing_step events (with_limits cap inflight_cap total_cap)).2 in
  cancel a l = (true, l1) ->
  Forall (fun e => forall stream, e <> EvAdmit a stream) after ->
  of_operation a (delivered (play landing_step after l1).1) = []
  /\ forall cancelled stream,
     la_inflight l !! a = Some (Reserved_Running cancelled stream) ->
     Forall (fun e => ends a e = false) after ->
     la_inflight (play landing_step after l1).2 !! a = Some (Reserved_Running true stream).
Proof.
  intros H1 H2 H3 Hb l Hc Hafter.
  destruct (reached cap inflight_cap total_cap events) as (_ & Hr & Hok); [done|done|done|lia|].
  pose proof (seq_play events (mailbox_new cap inflight_cap total_cap)) as Hseq.
  fold l in Hr. set (m := (play mailbox_step events _).2) in *. simpl in Hseq.
  destruct (rep_cancel a l m Hr) as [Hf Hr1]. rewrite Hc in Hf, Hr1. simpl in Hf, Hr1.
  pose proof (ok_cancel a m Hok) as Hok1. pose proof (seq_step (EvCancel a) m) as Hs1.
  pose proof (eq_refl (mb_cancel a m)) as Hm1. unfold mb_cancel in Hm1 at 2.
  destruct (mb_inflight m !! a) as [state|] eqn:E; [|by rewrite Hm1 in Hf].
  assert (mb_seq (mb_cancel a m).2 = mb_seq m) as Hsm by (by rewrite Hm1).
  destruct (rep_play after l1 _ Hok1 Hr1) as (Ha & Hr2 & _); [lia|]. rewrite Ha. split.
  - apply silenced_play; [done|done|]. rewrite Hm1. simpl.
    destruct state; by rewrite ?lookup_insert_eq, ?lookup_delete_eq.
  - intros cancelled stream Hl He. rewrite (rep_inflight _ _ Hr2). apply running_play; [done|].
    rewrite (rep_inflight _ _ Hr), E in Hl. simplify_eq. rewrite Hm1. simpl. by rewrite lookup_insert_eq.
Qed.

(** Storage is bounded and no loss is silent.  The data lane never exceeds its capacity, the other
    lane and the reservations never exceed the total limit, nor the reservations of one machine
    theirs; and the drop counter is, modulo its width, what was ever queued and is neither handed out
    nor still queued, plus the payloads refused because the lane was full. *)
Theorem storage_is_bounded_and_losses_counted cap inflight_cap total_cap events :
  0 <= cap -> 0 <= inflight_cap -> 0 <= total_cap -> Z.of_nat (List.length events) <= u64_max ->
  let r := play landing_step events (with_limits cap inflight_cap total_cap) in
  Z.of_nat (List.length (la_data r.2)) <= cap
  /\ Z.of_nat (List.length (la_control r.2)) <= total_cap
  /\ Z.of_nat (size (la_inflight r.2)) <= total_cap
  /\ (forall to, Z.of_nat (out_for to (la_inflight r.2)) <= inflight_cap)
  /\ dropped_count r.2
     = u32_wrap (Z.of_nat (overflows r.1) + la_seq r.2 - Z.of_nat (List.length (delivered r.1))
                 - Z.of_nat (len r.2)).
Proof.
  intros H1 H2 H3 Hb r.
  destruct (reached cap inflight_cap total_cap events H1 H2 H3 Hb) as (Ha & Hr & Hok). fold r in Ha, Hr.
  assert (mb_cap (play mailbox_step events (mailbox_new cap inflight_cap total_cap)).2 = cap
          /\ mb_inflight_cap (play mailbox_step events (mailbox_new cap inflight_cap total_cap)).2 = inflight_cap
          /\ mb_total_cap (play mailbox_step events (mailbox_new cap inflight_cap total_cap)).2 = total_cap)
    as (Hc & He & Ht) by apply caps_play.
  pose proof (losses_play events (mailbox_new cap inflight_cap total_cap)) as Hl. cbn zeta in Hl.
  set (m := (play mailbox_step events _).2) in *. rewrite <-Ha in Hl. simpl in Hl.
  pose proof (control_bound m Hok). pose proof (ok_cap m Hok). pose proof (ok_total m Hok).
  pose proof (Permutation_length (filter_split_perm fst (mb_queue m))) as Hp. rewrite length_app in Hp.
  unfold dropped_count, len. rewrite (rep_dropped _ _ Hr), (rep_data _ _ Hr), (rep_control _ _ Hr),
    (rep_inflight _ _ Hr), (rep_seq _ _ Hr), !length_fmap. unfold counted in *.
  split; [lia|]. split; [lia|]. split; [lia|]. split; [intros to; pose proof (ok_each m Hok to); lia|].
  f_equal. lia.
Qed.

End Histories.
