(* ===== verification/NativeGate.v ===== *)
(** * The gate between native callbacks and a playback session (play-feed/src/native_gate.rs)

    [NativeSession] is the record behind the mutex, one function per operation; an operation is one
    critical section, with the closure it runs inside.  Which closure ran, and for whom, is the
    answer of the operation; [gate_run] is a history of operations with their answers.  An [Instant]
    is its nanoseconds.  The test-only operations are not modelled. *)

From S2P Require Import Prelude.

#[local] Open Scope Z_scope.

Inductive LoadCall := InFlight | Returned (at_ns : Z) (pcm_lead_ns : option Z).

Inductive NativePresentationGate := Armed | Disarmed | PendingArm (latched : option Z).

Inductive NativeSessionPhase :=
  | Phase_Idle
  | Phase_Active (epoch : Z) (presentation_gate : NativePresentationGate) (load_call : LoadCall)
      (load_issued_at : Z)
  | Phase_Unloaded (epoch : Z)
  | Phase_Abandoned (epoch : Z)
  | Phase_Releasing (epoch : Z) (unload_completed : bool).

Record NativeSession := mk_native { nt_next_epoch : Z; nt_phase : NativeSessionPhase }.

#[export] Instance eta_NativeSession : Eta NativeSession := fun s =>
  mk_native (nt_next_epoch s) (nt_phase s).

Inductive NativeEventClass := Class_Presentation | Class_UnloadCompleted | Class_Other.
Inductive EventScope := Scope_Live | Scope_Release.

#[export] Instance NativeEventClass_eq_dec : EqDecision NativeEventClass.
Proof. solve_decision. Defined.
#[export] Instance NativePresentationGate_eq_dec : EqDecision NativePresentationGate.
Proof. solve_decision. Defined.
#[export] Instance LoadCall_eq_dec : EqDecision LoadCall.
Proof. solve_decision. Defined.
#[export] Instance NativeSessionPhase_eq_dec : EqDecision NativeSessionPhase.
Proof. solve_decision. Defined.

(** ** Operations *)

Definition native_new : NativeSession := mk_native 0 Phase_Idle.

Definition next_epoch (s : NativeSession) : option (Z * NativeSession) :=
  e ← u32_checked (nt_next_epoch s + 1); Some (e, s <| nt_next_epoch := e |>).

(** The storage is reset inside. *)
Definition reset_session_with (s : NativeSession) : NativeSession :=
  match nt_phase s with
  | Phase_Abandoned _ | Phase_Releasing _ _ => s
  | _ => s <| nt_phase := Phase_Idle |>
  end.

Definition begin_native_session (now : Z) (s : NativeSession) : option Z * NativeSession :=
  if negb (bool_decide (nt_phase s = Phase_Idle)) then (None, s)
  else
    match next_epoch s with
    | None => (None, s)
    | Some (epoch, s) => (Some epoch, s <| nt_phase := Phase_Active epoch Armed InFlight now |>)
    end.

(** [epoch != 0 && active == epoch]. *)
Definition names (epoch active : Z) : bool := negb (epoch =? 0) && (active =? epoch).

Definition elapsed (now instant : Z) : Z := duration_sat (now - instant).

Definition mark_native_load_returned (epoch : Z) (pcm_lead_ns : option Z) (now : Z) (s : NativeSession)
  : option Z * NativeSession :=
  match nt_phase s with
  | Phase_Active active gate _ issued =>
      if names epoch active
      then (Some (elapsed now issued),
            s <| nt_phase := Phase_Active active gate (Returned now pcm_lead_ns) issued |>)
      else (None, s)
  | _ => (None, s)
  end.

Definition owns_active (epoch : Z) (s : NativeSession) : bool :=
  match nt_phase s with Phase_Active active _ _ _ => names epoch active | _ => false end.

(** Whether the write ran. *)
Definition with_active_epoch (epoch : Z) (s : NativeSession) : bool := owns_active epoch s.

Definition native_load_returned (epoch : Z) (s : NativeSession) : bool :=
  match nt_phase s with Phase_Active active _ (Returned _ _) _ => names epoch active | _ => false end.

Definition native_load_pcm_lead (epoch : Z) (s : NativeSession) : option Z :=
  match nt_phase s with
  | Phase_Active active _ (Returned _ lead) _ => if names epoch active then lead else None
  | _ => None
  end.

Definition native_load_returned_elapsed (epoch now : Z) (s : NativeSession) : option Z :=
  match nt_phase s with
  | Phase_Active active _ (Returned at_ns _) _ =>
      if names epoch active then Some (elapsed now at_ns) else None
  | _ => None
  end.

Definition native_load_elapsed (epoch now : Z) (s : NativeSession) : option Z :=
  match nt_phase s with
  | Phase_Active active _ _ issued => if names epoch active then Some (elapsed now issued) else None
  | _ => None
  end.

Definition retire_native_session (epoch : Z) (s : NativeSession) : bool * NativeSession :=
  let owns := match nt_phase s with
              | Phase_Active active _ _ _ | Phase_Unloaded active | Phase_Abandoned active
              | Phase_Releasing active _ => names epoch active
              | Phase_Idle => false
              end in
  if negb owns then (false, s) else (true, s <| nt_phase := Phase_Idle |>).

Definition leave_active (epoch : Z) (to : NativeSessionPhase) (s : NativeSession) : bool * NativeSession :=
  if negb (owns_active epoch s) then (false, s) else (true, s <| nt_phase := to |>).

Definition begin_native_release (epoch : Z) : NativeSession -> bool * NativeSession :=
  leave_active epoch (Phase_Releasing epoch false).
Definition abandon_native_session (epoch : Z) : NativeSession -> bool * NativeSession :=
  leave_active epoch (Phase_Abandoned epoch).

Definition native_releasing (s : NativeSession) : bool :=
  match nt_phase s with Phase_Releasing _ _ => true | _ => false end.
Definition native_load_abandoned (s : NativeSession) : bool :=
  match nt_phase s with Phase_Abandoned _ => true | _ => false end.
Definition native_unload_completed (epoch : Z) (s : NativeSession) : bool :=
  match nt_phase s with
  | Phase_Unloaded e | Phase_Releasing e true => e =? epoch
  | _ => false
  end.

(** Sets the presentation gate of [epoch] where [admits] holds of the one it has. *)
Definition set_gate (admits : NativePresentationGate -> bool) (epoch : Z) (gate : NativePresentationGate)
    (s : NativeSession) : bool * NativeSession :=
  match nt_phase s with
  | Phase_Active active g load issued =>
      if names epoch active && admits g
      then (true, s <| nt_phase := Phase_Active active gate load issued |>)
      else (false, s)
  | _ => (false, s)
  end.

Definition is_pending (g : NativePresentationGate) : bool :=
  match g with PendingArm _ => true | _ => false end.

Definition begin_native_media_discontinuity (epoch : Z) : NativeSession -> bool * NativeSession :=
  set_gate (fun _ => true) epoch Disarmed.
Definition begin_native_presentation_probe (epoch : Z) : NativeSession -> bool * NativeSession :=
  set_gate (fun _ => true) epoch (PendingArm None).
Definition reject_native_presentation_probe (epoch : Z) : NativeSession -> bool * NativeSession :=
  set_gate is_pending epoch Disarmed.

(** Answers what is replayed when it commits. *)
Definition commit_native_presentation_probe (epoch : Z) (s : NativeSession)
  : option (option Z) * NativeSession :=
  match nt_phase s with
  | Phase_Active active (PendingArm latched) load issued =>
      if (epoch =? 0) || negb (active =? epoch) then (None, s)
      else (Some latched, s <| nt_phase := Phase_Active active Armed load issued |>)
  | _ => (None, s)
  end.

(** Answers the scope the event ran in. *)
Definition with_native_session_scoped (epoch : Z) (class : NativeEventClass) (num : Z) (s : NativeSession)
  : option EventScope * NativeSession :=
  match nt_phase s with
  | Phase_Abandoned abandoned =>
      if (epoch =? 0) || negb (abandoned =? epoch) || negb (bool_decide (class = Class_UnloadCompleted))
      then (None, s)
      else (Some Scope_Release, s <| nt_phase := Phase_Unloaded epoch |>)
  | Phase_Releasing releasing _ =>
      if (epoch =? 0) || negb (releasing =? epoch) || negb (bool_decide (class = Class_UnloadCompleted))
      then (None, s)
      else (Some Scope_Release, s <| nt_phase := Phase_Releasing releasing true |>)
  | Phase_Active active gate load issued =>
      if (epoch =? 0) || negb (active =? epoch) then (None, s)
      else
        match class, gate with
        | Class_Presentation, Disarmed => (None, s)
        | Class_Presentation, PendingArm _ =>
            (None, s <| nt_phase := Phase_Active active (PendingArm (Some num)) load issued |>)
        | _, _ =>
            (Some Scope_Live,
             if bool_decide (class = Class_UnloadCompleted)
             then s <| nt_phase := Phase_Unloaded epoch |> else s)
        end
  | _ => (None, s)
  end.
Definition with_native_session (epoch : Z) (class : NativeEventClass) (num : Z) (s : NativeSession)
  : bool * NativeSession :=
  let '(scope, s) := with_native_session_scoped epoch class num s in
  (match scope with Some _ => true | None => false end, s).

(** ** Histories *)

Inductive GateEvent :=
  | EvReset
  | EvBegin (now : Z)
  | EvLoadReturned (epoch : Z) (pcm_lead_ns : option Z) (now : Z)
  | EvRefusal (epoch : Z)
  | EvRetire (epoch : Z)
  | EvRelease (epoch : Z)
  | EvAbandon (epoch : Z)
  | EvDiscontinuity (epoch : Z)
  | EvProbe (epoch : Z)
  | EvCommit (epoch : Z)
  | EvReject (epoch : Z)
  | EvCallback (epoch : Z) (class : NativeEventClass) (num : Z).

Inductive GateAnswer :=
  | Gate_Reset
  | Gate_Epoch (epoch : option Z)
  | Gate_Elapsed (ns : option Z)
  | Gate_Done (done : bool)
  | Gate_Committed (replayed : option (option Z))
  | Gate_Ran (scope : option EventScope).

Definition gate_step (e : GateEvent) (s : NativeSession) : GateAnswer * NativeSession :=
  match e with
  | EvReset => (Gate_Reset, reset_session_with s)
  | EvBegin now => let '(r, s) := begin_native_session now s in (Gate_Epoch r, s)
  | EvLoadReturned epoch lead now =>
      let '(r, s) := mark_native_load_returned epoch lead now s in (Gate_Elapsed r, s)
  | EvRefusal epoch => (Gate_Done (with_active_epoch epoch s), s)
  | EvRetire epoch => let '(r, s) := retire_native_session epoch s in (Gate_Done r, s)
  | EvRelease epoch => let '(r, s) := begin_native_release epoch s in (Gate_Done r, s)
  | EvAbandon epoch => let '(r, s) := abandon_native_session epoch s in (Gate_Done r, s)
  | EvDiscontinuity epoch =>
      let '(r, s) := begin_native_media_discontinuity epoch s in (Gate_Done r, s)
  | EvProbe epoch => let '(r, s) := begin_native_presentation_probe epoch s in (Gate_Done r, s)
  | EvCommit epoch => let '(r, s) := commit_native_presentation_probe epoch s in (Gate_Committed r, s)
  | EvReject epoch => let '(r, s) := reject_native_presentation_probe epoch s in (Gate_Done r, s)
  | EvCallback epoch class num =>
      let '(r, s) := with_native_session_scoped epoch class num s in (Gate_Ran r, s)
  end.

Fixpoint gate_run (events : list GateEvent) (s : NativeSession)
  : list (GateEvent * GateAnswer) * NativeSession :=
  match events with
  | [] => ([], s)
  | e :: events =>
      let '(a, s) := gate_step e s in
      let '(log, s) := gate_run events s in ((e, a) :: log, s)
  end.

Abbreviation GateLog := (list (GateEvent * GateAnswer)).

(** The epochs begun, and the session whose live state an operation writes. *)
Definition begun (p : GateEvent * GateAnswer) : option Z :=
  match p with (EvBegin _, Gate_Epoch (Some e)) => Some e | _ => None end.
Definition live_write (p : GateEvent * GateAnswer) : option Z :=
  match p with
  | (EvCallback e _ _, Gate_Ran (Some Scope_Live)) => Some e
  | (EvCommit e, Gate_Committed (Some (Some _))) => Some e
  | (EvRefusal e, Gate_Done true) => Some e
  | _ => None
  end.

(** ** Invariant: the epoch of a session in any phase is the newest *)

Definition phase_epoch (p : NativeSessionPhase) : option Z :=
  match p with
  | Phase_Idle => None
  | Phase_Active e _ _ _ | Phase_Unloaded e | Phase_Abandoned e | Phase_Releasing e _ => Some e
  end.

Record gate_ok (s : NativeSession) : Prop := {
  gok_range : 0 <= nt_next_epoch s <= u32_max;
  gok_phase e : phase_epoch (nt_phase s) = Some e -> e = nt_next_epoch s /\ 0 < e
}.

Lemma gate_new_ok : gate_ok native_new.
Proof. split; [simpl; ints|done]. Qed.

Lemma names_spec e a : names e a = true <-> e = a /\ e <> 0.
Proof. unfold names. rewrite andb_true_iff, negb_true_iff, Z.eqb_neq, Z.eqb_eq. naive_solver. Qed.

Lemma next_epoch_spec s : next_epoch s = if decide (0 <= nt_next_epoch s + 1 <= u32_max)
  then Some (nt_next_epoch s + 1, s <| nt_next_epoch := nt_next_epoch s + 1 |>) else None.
Proof.
  unfold next_epoch. destruct (u32_checked _) as [e|] eqn:E; simpl.
  - apply checked_Some in E as [-> ?]. by rewrite decide_True.
  - apply checked_None in E. by rewrite decide_False.
Qed.

Lemma begin_spec now s :
  begin_native_session now s
  = if decide (nt_phase s = Phase_Idle /\ 0 <= nt_next_epoch s + 1 <= u32_max)
    then (Some (nt_next_epoch s + 1),
          mk_native (nt_next_epoch s + 1) (Phase_Active (nt_next_epoch s + 1) Armed InFlight now))
    else (None, s).
Proof.
  unfold begin_native_session. rewrite next_epoch_spec. case_bool_decide; simpl.
  - case_decide; [by rewrite decide_True by done|by rewrite decide_False by naive_solver].
  - by rewrite decide_False by naive_solver.
Qed.

(** A step by cases of the operation and of the phase it finds; beginning a session apart. *)
Ltac gate_cases e s :=
  destruct s as [n p]; destruct e as [|now|e lead now|e|e|e|e|e|e|e|e|e class num];
  cbn [gate_step];
  [ | rewrite begin_spec; cbn [nt_phase nt_next_epoch] | ..];
  unfold mark_native_load_returned, with_active_epoch, retire_native_session,
    begin_native_release, abandon_native_session, leave_active, owns_active,
    begin_native_media_discontinuity, begin_native_presentation_probe,
    reject_native_presentation_probe, set_gate, commit_native_presentation_probe,
    with_native_session_scoped, reset_session_with;
  cbn [nt_phase nt_next_epoch];
  [ | case_decide as Hbegin | ..];
  destruct p as [|active [| |latched] load issued|a|a|a unloaded];
  repeat case_match; simplify_eq/=;
  repeat match goal with
    | H : _ || _ = false |- _ => apply orb_false_iff in H as [? ?]
    | H : _ && _ = true |- _ => apply andb_true_iff in H as [? ?]
    | H : negb _ = false |- _ => apply negb_false_iff in H
    | H : names _ _ = true |- _ => apply names_spec in H as [? ?]; subst
    | H : (_ =? _) = true |- _ => apply Z.eqb_eq in H; subst
    | H : (_ =? _) = false |- _ => apply Z.eqb_neq in H
    | H : bool_decide _ = true |- _ => apply bool_decide_eq_true in H; subst
    | H : bool_decide _ = false |- _ => apply bool_decide_eq_false in H
    end.

Lemma gate_step_epoch e s :
  let r := gate_step e s in
  (nt_next_epoch r.2 = nt_next_epoch s /\ begun (e, r.1) = None
   /\ (phase_epoch (nt_phase r.2) = phase_epoch (nt_phase s) \/ nt_phase r.2 = Phase_Idle))
  \/ (nt_phase s = Phase_Idle /\ begun (e, r.1) = Some (nt_next_epoch s + 1)
      /\ nt_next_epoch r.2 = nt_next_epoch s + 1 /\ 0 <= nt_next_epoch s + 1 <= u32_max
      /\ exists now, nt_phase r.2 = Phase_Active (nt_next_epoch s + 1) Armed InFlight now).
Proof. gate_cases e s; eauto 10; right; destruct Hbegin; eauto 10. Qed.

Lemma next_epoch_mono e s : nt_next_epoch s <= nt_next_epoch (gate_step e s).2.
Proof. destruct (gate_step_epoch e s) as [(Hn & _)|(_ & _ & Hn & _)]; lia. Qed.

Lemma gate_step_ok e s : gate_ok s -> gate_ok (gate_step e s).2.
Proof.
  intros [Hr Hp]. destruct (gate_step_epoch e s) as [(Hn & _ & Hq)|(Hi & _ & Hn & Hb & now & Hq)].
  - split; [by rewrite Hn|]. intros x Hx. rewrite Hn. destruct Hq as [Hq|Hq]; rewrite Hq in Hx; [by apply Hp|done].
  - split; [by rewrite Hn|]. intros x Hx. rewrite Hq in Hx. simpl in Hx. simplify_eq. rewrite Hn. lia.
Qed.

Lemma gate_run_cons e events s :
  gate_run (e :: events) s
  = ((e, (gate_step e s).1) :: (gate_run events (gate_step e s).2).1, (gate_run events (gate_step e s).2).2).
Proof. simpl. destruct (gate_step e s). simpl. by destruct (gate_run events n). Qed.

(** A property of states that steps keep, and what it shows of each step. *)
Lemma gate_run_ind (I : NativeSession -> Prop) (Q : GateEvent * GateAnswer -> Prop)
    (guard : GateEvent * GateAnswer -> Prop) :
  (forall e s, I s -> guard (e, (gate_step e s).1) -> I (gate_step e s).2 /\ Q (e, (gate_step e s).1)) ->
  forall events s, I s -> Forall guard (gate_run events s).1 ->
  I (gate_run events s).2 /\ Forall Q (gate_run events s).1.
Proof.
  intros Hstep. induction events as [|e events IH]; intros s Hs Hg; [by split|].
  rewrite gate_run_cons in *. cbn [fst snd] in *. apply Forall_cons in Hg as [Hg Hgs].
  destruct (Hstep e s Hs Hg) as [Hs' Hq]. destruct (IH _ Hs' Hgs). split; [done|by constructor].
Qed.

Lemma gate_run_ok events s : gate_ok s -> gate_ok (gate_run events s).2.
Proof.
  intros Hs. apply (gate_run_ind gate_ok (fun _ => True) (fun _ => True)); [|done|by apply Forall_true].
  intros e t Ht _. split; [by apply gate_step_ok|done].
Qed.

Lemma live_write_owner e s x :
  gate_ok s -> live_write (e, (gate_step e s).1) = Some x ->
  exists gate load issued, nt_phase s = Phase_Active x gate load issued.
Proof.
  intros _. gate_cases e s; intros Hl; simpl in Hl; repeat case_match; simplify_eq; eauto;
    match goal with H : names _ _ = true |- _ => apply names_spec in H as [-> _] end; eauto.
Qed.

Lemma active_from e s x g l i :
  nt_phase (gate_step e s).2 = Phase_Active x g l i ->
  (exists g' l' i', nt_phase s = Phase_Active x g' l' i')
  \/ (nt_next_epoch (gate_step e s).2 = nt_next_epoch s + 1 /\ x = nt_next_epoch s + 1).
Proof. gate_cases e s; intros; simplify_eq; eauto; right; by destruct Hbegin. Qed.

Lemma omap_begun_cons p l :
  omap begun (p :: l) = match begun p with Some x => x :: omap begun l | None => omap begun l end.
Proof. done. Qed.

(** The newest epoch is the last one begun. *)
Lemma begun_newest events : forall s, gate_ok s ->
  let r := gate_run events s in
  nt_next_epoch s <= nt_next_epoch r.2
  /\ StronglySorted Z.lt (omap begun r.1)
  /\ Forall (fun e => nt_next_epoch s < e <= nt_next_epoch r.2) (omap begun r.1)
  /\ nt_next_epoch r.2 = default (nt_next_epoch s) (last (omap begun r.1)).
Proof.
  induction events as [|e events IH]; intros s Hs r.
  - split; [simpl; lia|]. repeat split; constructor.
  - subst r. rewrite gate_run_cons. cbn [fst snd]. pose proof (gate_step_ok e s Hs) as Hs1.
    destruct (IH _ Hs1) as (Hle & Hsort & Hall & Hlast). rewrite omap_begun_cons.
    destruct (gate_step_epoch e s) as [(Hn & -> & _)|(_ & -> & Hn & _)].
    + rewrite Hn in *. done.
    + split; [lia|]. split; [|split].
      * constructor; [done|]. eapply Forall_impl; [exact Hall|]. simpl. lia.
      * constructor; [lia|]. eapply Forall_impl; [exact Hall|]. simpl. lia.
      * rewrite Hlast, Hn. destruct (omap begun _) eqn:E; [done|].
        rewrite <-E. destruct (last (omap begun _)) eqn:El; [|by rewrite last_None in El; congruence].
        rewrite E in *. cbn [last]. by rewrite El.
Qed.

Lemma gate_run_app a b s :
  gate_run (a ++ b) s
  = ((gate_run a s).1 ++ (gate_run b (gate_run a s).2).1, (gate_run b (gate_run a s).2).2).
Proof.
  revert s. induction a as [|e a IH]; intros s; [by apply surjective_pairing|].
  cbn [app]. by rewrite !gate_run_cons, IH.
Qed.

(** A part of a log is the log of a part. *)
Lemma gate_run_split events : forall s a p b, (gate_run events s).1 = a ++ p :: b ->
  exists before e after, events = before ++ e :: after /\ (gate_run before s).1 = a
    /\ p = (e, (gate_step e (gate_run before s).2).1).
Proof.
  induction events as [|e events IH]; intros s a p b H; [by destruct a|].
  rewrite gate_run_cons in H. cbn [fst] in H. destruct a as [|q a]; simplify_eq/=.
  - by exists [], e, events.
  - match goal with H : (gate_run events _).1 = _ |- _ => apply IH in H as (bf & x & af & -> & Ha & ->) end.
    exists (e :: bf), x, af. rewrite gate_run_cons. cbn [fst snd]. by rewrite Ha.
Qed.

(** A callback writes its own session and no other.  Sessions get strictly increasing epochs, never
    zero and never one a second time; whatever writes live playback state -- a callback, the replay
    of a presentation, a refused load -- is addressed to the session begun last; and once the
    storage has been reset, only sessions begun after the reset write it. *)
Theorem callbacks_write_their_own_session before after :
  let s := (gate_run before native_new).2 in
  let log := (gate_run (before ++ EvReset :: after) native_new).1 in
  StronglySorted Z.lt (omap begun log)
  /\ Forall (fun e => 0 < e <= u32_max) (omap begun log)
  /\ (forall a p b e, log = a ++ p :: b -> live_write p = Some e -> last (omap begun a) = Some e)
  /\ forall p e, p ∈ (gate_run (EvReset :: after) s).1 -> live_write p = Some e ->
       Forall (fun old => old < e) (omap begun (gate_run before native_new).1).
Proof.
  intros s log.
  destruct (begun_newest (before ++ EvReset :: after) native_new gate_new_ok) as (_ & Hs & Hf & Hl).
  fold log in Hs, Hf, Hl. pose proof (gate_run_ok before native_new gate_new_ok) as Hok.
  split; [exact Hs|]. split; [|split].
  - pose proof (gate_run_ok (before ++ EvReset :: after) native_new gate_new_ok) as [Hr _].
    eapply Forall_impl; [exact Hf|]. simpl. lia.
  - intros a p b e Hsplit Hw. apply gate_run_split in Hsplit as (bf & x & af & _ & <- & ->).
    pose proof (gate_run_ok bf native_new gate_new_ok) as Hbf.
    destruct (live_write_owner _ _ _ Hbf Hw) as (g & l & i & Hp).
    destruct (gok_phase _ Hbf e) as [He Hpos]; [by rewrite Hp|].
    destruct (begun_newest bf native_new gate_new_ok) as (_ & _ & _ & Hlast).
    revert Hlast. destruct (last (omap begun (gate_run bf native_new).1)); simpl; intros Hlast; [by f_equal; congruence|lia].
  - intros p e Hin Hw.
    apply list_elem_of_split in Hin as (a & b & Hsplit).
    apply gate_run_split in Hsplit as (bf & x & af & Hev & _ & ->).
    destruct (begun_newest before native_new gate_new_ok) as (_ & _ & Hall & _). fold s in Hall.
    destruct bf as [|y bf]; injection Hev as <- ->; [done|].
    rewrite gate_run_cons in Hw. cbn [fst snd] in Hw.
    set (s1 := (gate_step EvReset s).2) in *.
    assert (gate_ok s1) as Hok1 by exact (gate_step_ok EvReset s Hok).
    destruct (gate_run_ind
      (fun t => gate_ok t /\ nt_next_epoch s <= nt_next_epoch t
                /\ forall a g l i, nt_phase t = Phase_Active a g l i -> nt_next_epoch s < a)
      (fun _ => True) (fun _ => True)) with (events := bf) (s := s1) as [(Hok2 & _ & Ha) _].
    + intros e0 t (Ht & Hle & Ha) _. split; [|done]. split; [by apply gate_step_ok|].
      pose proof (next_epoch_mono e0 t) as Hn. split; [lia|]. intros a' g l i Hp.
      apply active_from in Hp as [(g' & l' & i' & Hp)|[_ ->]]; [by eapply Ha|lia].
    + split; [done|]. subst s1. by destruct s as [n []].
    + by apply Forall_true.
    + destruct (live_write_owner _ _ _ Hok2 Hw) as (g & l & i & Hp). specialize (Ha _ _ _ _ Hp).
      eapply Forall_impl; [exact Hall|]. simpl. lia.
Qed.

(** ** The fence of a seek *)

Definition commits (e : Z) (p : GateEvent * GateAnswer) : bool :=
  match p with (EvCommit x, Gate_Committed (Some _)) => x =? e | _ => false end.
(** A presentation callback of [e] that ran. *)
Definition presents (e : Z) (p : GateEvent * GateAnswer) : bool :=
  match p with (EvCallback x Class_Presentation _, Gate_Ran (Some _)) => x =? e | _ => false end.
Definition presentation (e : Z) (ev : GateEvent) : option Z :=
  match ev with
  | EvCallback x Class_Presentation num => if x =? e then Some num else None
  | _ => None
  end.
(** The operations on the presentation gate of [e]. *)
Definition moves_gate (e : Z) (ev : GateEvent) : bool :=
  match ev with
  | EvDiscontinuity x | EvProbe x | EvCommit x | EvReject x => x =? e
  | _ => false
  end.

Lemma armed_from ev s x l i :
  nt_phase (gate_step ev s).2 = Phase_Active x Armed l i ->
  (exists l' i', nt_phase s = Phase_Active x Armed l' i')
  \/ commits x (ev, (gate_step ev s).1) = true \/ x = nt_next_epoch s + 1.
Proof.
  gate_cases ev s; intros; simplify_eq; eauto; simpl; rewrite ?Z.eqb_refl; auto; by destruct Hbegin; auto.
Qed.

Lemma presents_armed ev s x :
  presents x (ev, (gate_step ev s).1) = true -> exists l i, nt_phase s = Phase_Active x Armed l i.
Proof.
  gate_cases ev s; intros Hp; simpl in Hp; repeat case_match; simplify_eq;
    apply Z.eqb_eq in Hp; subst; eauto.
Qed.

Lemma gate_from ev s x g l i :
  x <> 0 -> moves_gate x ev = false -> nt_phase (gate_step ev s).2 = Phase_Active x g l i ->
  x = nt_next_epoch s + 1
  \/ exists g' l' i', nt_phase s = Phase_Active x g' l' i'
     /\ (g = g' /\ (forall q, g' = PendingArm q -> presentation x ev = None)
         \/ exists q num, g' = PendingArm q /\ presentation x ev = Some num /\ g = PendingArm (Some num)).
Proof.
  intros Hx. gate_cases ev s; intros Hm Hp; simplify_eq/=; rewrite ?Z.eqb_refl in *; simplify_eq;
    try (left; by destruct Hbegin); right; do 3 eexists; (split; [done|]);
    try (by left); try (right; by eauto 10); left; (split; [done|]); intros q _; try done.
  destruct class; try done. case_match; [|done].
  match goal with H : (_ =? _) = true |- _ => apply Z.eqb_eq in H; subst end.
  rewrite Z.eqb_refl, orb_false_r in *.
  by match goal with H : (_ =? 0) = true |- _ => apply Z.eqb_eq in H end.
Qed.

(** No presentation of [e] is admitted. *)
Record fenced_at (e : Z) (s : NativeSession) : Prop := {
  fe_ok : gate_ok s;
  fe_epoch : 0 < e <= nt_next_epoch s;
  fe_gate l i : nt_phase s <> Phase_Active e Armed l i
}.

Lemma seek_fenced_step e ev s :
  fenced_at e s -> commits e (ev, (gate_step ev s).1) = false ->
  fenced_at e (gate_step ev s).2 /\ presents e (ev, (gate_step ev s).1) = false.
Proof.
  intros [Hok He Hg] Hc. pose proof (next_epoch_mono ev s). split.
  - split; [by apply gate_step_ok|lia|]. intros l i Hp.
    apply armed_from in Hp as [(l' & i' & Hp)|[Hp|Hp]]; [by eapply Hg|congruence|lia].
  - destruct (presents _ _) eqn:E; [|done]. apply presents_armed in E as (l & i & Hp). by destruct (Hg l i).
Qed.

(** The newest presentation of [e] since its probe was begun is the one latched. *)
Record latched_at (e : Z) (q : option Z) (s : NativeSession) : Prop := {
  lt_ok : gate_ok s;
  lt_epoch : 0 < e <= nt_next_epoch s;
  lt_gate g l i : nt_phase s = Phase_Active e g l i -> g = PendingArm q
}.

Lemma latched_step e q ev s : latched_at e q s -> moves_gate e ev = false ->
  latched_at e (match presentation e ev with Some num => Some num | None => q end) (gate_step ev s).2.
Proof.
  intros [Hok He Hg] Hm. pose proof (next_epoch_mono ev s). split; [by apply gate_step_ok|lia|].
  intros g l i Hp. apply gate_from in Hp as [->|(g' & l' & i' & Hp & Hcase)]; [lia| |lia|done].
  apply Hg in Hp. destruct Hcase as [[-> Hn]|(q' & num & -> & -> & ->)]; [|done]. by rewrite (Hn q Hp).
Qed.

Lemma latched_run e events : forall q s, latched_at e q s ->
  Forall (fun ev => moves_gate e ev = false) events ->
  latched_at e (match last (omap (presentation e) events) with Some num => Some num | None => q end)
    (gate_run events s).2.
Proof.
  induction events as [|ev events IH]; intros q s Hs Hm; [done|].
  apply Forall_cons in Hm as [Hm Hms]. rewrite gate_run_cons. cbn [snd].
  pose proof (IH _ _ (latched_step e q ev s Hs Hm) Hms) as Hl.
  assert (omap (presentation e) (ev :: events)
          = match presentation e ev with
            | Some num => num :: omap (presentation e) events
            | None => omap (presentation e) events end) as -> by done.
  destruct (presentation e ev) as [num|]; [|exact Hl].
  destruct (omap (presentation e) events) as [|x xs] eqn:E; [exact Hl|].
  change (last (num :: x :: xs)) with (last (x :: xs)).
  destruct (last (x :: xs)) eqn:El; [exact Hl|]. by apply last_None in El.
Qed.

Lemma set_gate_active admits epoch gate s s' : set_gate admits epoch gate s = (true, s') ->
  exists g l i, nt_phase s = Phase_Active epoch g l i /\ s' = s <| nt_phase := Phase_Active epoch gate l i |>.
Proof.
  unfold set_gate. destruct s as [n []]; simpl; intros H; simplify_eq. case_match; simplify_eq.
  apply andb_true_iff in H0 as [[-> _]%names_spec _]. eauto.
Qed.

(** An operation that does not move the gate commits nothing. *)
Lemma no_commit e events : forall s, Forall (fun ev => moves_gate e ev = false) events ->
  Forall (fun p => commits e p = false) (gate_run events s).1.
Proof.
  induction events as [|ev events IH]; intros s Hm; [constructor|]. apply Forall_cons in Hm as [Hm Hms].
  rewrite gate_run_cons. constructor; [|by apply IH]. destruct ev; try done. simpl in *. by repeat case_match.
Qed.

(** C12. Frames of the old timeline are not taken for the new one.  Once a seek has fenced a session, no
    presentation callback of it runs until a probe of the new timeline is committed; and what that
    commit replays is exactly the newest presentation reported since that probe was begun, if one
    was -- nothing from before the probe or from an earlier, rejected one. *)
Theorem seek_fences_presentations before e s1 after s3 b r s4 :
  begin_native_media_discontinuity e (gate_run before native_new).2 = (true, s1) ->
  Forall (fun p => commits e p = false) (gate_run after s1).1 ->
  let s2 := (gate_run after s1).2 in
  begin_native_presentation_probe e s2 = (true, s3) ->
  Forall (fun ev => moves_gate e ev = false) b ->
  commit_native_presentation_probe e (gate_run b s3).2 = (Some r, s4) ->
  Forall (fun p => presents e p = false) (gate_run (after ++ EvProbe e :: b) s1).1
  /\ r = last (omap (presentation e) b).
Proof.
  intros Hd Hc s2 Hp Hm Hcommit. pose proof (gate_run_ok before native_new gate_new_ok) as Hok.
  set (s := (gate_run before native_new).2) in *.
  apply set_gate_active in Hd as (g & l & i & Hs & ->).
  destruct (gok_phase _ Hok e) as [He Hpos]; [by rewrite Hs|].
  assert (fenced_at e (s <| nt_phase := Phase_Active e Disarmed l i |>)) as Hf1.
  { split; [|simpl; lia|done]. destruct Hok as [Hr Hph]. split; [done|]. intros x Hx.
    apply Hph. rewrite Hs. exact Hx. }
  set (s1 := s <| nt_phase := _ |>) in *.
  destruct (gate_run_ind (fenced_at e) (fun p => presents e p = false) (fun p => commits e p = false)
              (fun ev t => seek_fenced_step e ev t) after s1 Hf1 Hc) as [Hf2 Hq2]. fold s2 in Hf2.
  assert (Hp' := Hp). apply set_gate_active in Hp' as (g' & l' & i' & Hs2 & ->).
  set (s3 := s2 <| nt_phase := _ |>) in *.
  assert (gate_ok s3) as Hok3.
  { destruct Hf2 as [[Hr Hph] _ _]. split; [done|]. intros x Hx. apply Hph. rewrite Hs2. exact Hx. }
  assert (latched_at e None s3) as Hl3.
  { split; [done|apply (fe_epoch _ _ Hf2)|]. intros g0 l0 i0 H. simpl in H. by simplify_eq. }
  assert (fenced_at e s3) as Hf3 by (split; [done|apply (fe_epoch _ _ Hf2)|done]).
  split.
  - assert (gate_run (after ++ EvProbe e :: b) s1
            = ((gate_run after s1).1 ++ (EvProbe e, Gate_Done true) :: (gate_run b s3).1, (gate_run b s3).2)) as ->.
    { rewrite gate_run_app. fold s2. rewrite gate_run_cons. cbn [gate_step]. by rewrite Hp. }
    apply Forall_app. split; [done|]. constructor; [done|].
    apply (gate_run_ind (fenced_at e) (fun p => presents e p = false) (fun p => commits e p = false)
             (fun ev t => seek_fenced_step e ev t) b s3 Hf3).
    by apply no_commit.
  - pose proof (latched_run e b None s3 Hl3 Hm) as [_ _ Hg].
    clear -Hg Hcommit. unfold commit_native_presentation_probe in Hcommit.
    destruct (nt_phase (gate_run b s3).2) as [|a [| |q] l0 i0| | |] eqn:E; simplify_eq.
    destruct ((e =? 0) || negb (a =? e)) eqn:Ea; simplify_eq.
    apply orb_false_iff in Ea as [_ Ea%negb_false_iff%Z.eqb_eq]. subst a.
    specialize (Hg _ _ _ eq_refl). simplify_eq. by destruct (last _).
Qed.

(** ** Releasing an object *)

Lemma owns_active_nonzero e s : owns_active e s = true -> e <> 0.
Proof. unfold owns_active. destruct (nt_phase s); try done. by intros [_ ?]%names_spec. Qed.

Definition unloads (e : Z) (ev : GateEvent) : bool :=
  match ev with EvCallback x Class_UnloadCompleted _ => x =? e | _ => false end.

Lemma releasing_step e done ev s : e <> 0 ->
  nt_phase s = Phase_Releasing e done -> ev <> EvRetire e ->
  nt_phase (gate_step ev s).2 = Phase_Releasing e (done || unloads e ev)
  /\ begun (ev, (gate_step ev s).1) = None /\ live_write (ev, (gate_step ev s).1) = None.
Proof.
  intros He. gate_cases ev s; intros; simplify_eq; simpl; rewrite ?orb_false_r, ?orb_true_r, ?Z.eqb_refl;
    rewrite ?orb_true_r; try done; try (by destruct Hbegin).
  match goal with H : _ || _ || _ = true |- _ => revert H end.
  destruct class; simpl; rewrite ?orb_false_r; try done. intros Hx.
  apply orb_true_iff in Hx as [Hx%Z.eqb_eq|Hx%negb_true_iff].
  - rewrite Hx. by rewrite (proj2 (Z.eqb_neq 0 e)), orb_false_r by done.
  - rewrite Z.eqb_sym in Hx. by rewrite Hx, orb_false_r.
Qed.

Lemma abandoned_step e ev s : e <> 0 ->
  nt_phase s = Phase_Abandoned e -> ev <> EvRetire e -> unloads e ev = false ->
  nt_phase (gate_step ev s).2 = Phase_Abandoned e
  /\ begun (ev, (gate_step ev s).1) = None /\ live_write (ev, (gate_step ev s).1) = None.
Proof.
  intros He. gate_cases ev s; intros; simplify_eq; simpl in *; try done; try (by destruct Hbegin).
  by rewrite Z.eqb_refl in *.
Qed.

(** An object handed to a release stays owned.  From the moment a session's object is handed to the
    off-frame release, no session begins and nothing of it writes live state until the release
    retires it, resets included; and the release then reads exactly whether the object's
    unload-complete callback came.  The same holds of an abandoned load until its own
    unload-complete callback. *)
Theorem release_keeps_the_object before e after :
  let s := (gate_run before native_new).2 in
  Forall (fun ev => ev <> EvRetire e) after ->
  (forall s1, begin_native_release e s = (true, s1) ->
     let r := gate_run after s1 in
     Forall (fun p => begun p = None /\ live_write p = None) r.1
     /\ native_releasing r.2 = true
     /\ native_unload_completed e r.2 = existsb (unloads e) after
     /\ retire_native_session e r.2 = (true, r.2 <| nt_phase := Phase_Idle |>))
  /\ forall s1, abandon_native_session e s = (true, s1) ->
     Forall (fun ev => unloads e ev = false) after ->
     let r := gate_run after s1 in
     Forall (fun p => begun p = None /\ live_write p = None) r.1
     /\ native_load_abandoned r.2 = true
     /\ retire_native_session e r.2 = (true, r.2 <| nt_phase := Phase_Idle |>).
Proof.
  intros s Hne. split.
  - intros s1 Hb r. unfold begin_native_release, leave_active in Hb.
    destruct (owns_active e s) eqn:Ho; simplify_eq/=.
    apply owns_active_nonzero in Ho as He.
    assert (forall done t, nt_phase t = Phase_Releasing e done ->
      nt_phase (gate_run after t).2 = Phase_Releasing e (done || existsb (unloads e) after)
      /\ Forall (fun p => begun p = None /\ live_write p = None) (gate_run after t).1) as Hrun.
    { clear -He Hne. induction Hne as [|ev events Hev _ IH]; intros done t Ht.
      - simpl. by rewrite orb_false_r.
      - rewrite gate_run_cons. cbn [fst snd existsb].
        destruct (releasing_step e done ev t He Ht Hev) as (Hp & Hb & Hw).
        destruct (IH _ _ Hp) as [Hp' Hf]. rewrite orb_assoc. split; [done|by constructor]. }
    destruct (Hrun false (s <| nt_phase := Phase_Releasing e false |>)) as [Hp Hf]; [done|]. fold r in Hp, Hf.
    split; [done|]. unfold native_releasing, native_unload_completed, retire_native_session. rewrite Hp. simpl.
    split; [done|]. split; [by destruct (existsb _ _); rewrite ?Z.eqb_refl|].
    unfold names. rewrite (proj2 (Z.eqb_neq e 0)), Z.eqb_refl by done. done.
  - intros s1 Hb Hu r. unfold abandon_native_session, leave_active in Hb.
    destruct (owns_active e s) eqn:Ho; simplify_eq/=.
    apply owns_active_nonzero in Ho as He.
    assert (forall t, nt_phase t = Phase_Abandoned e ->
      nt_phase (gate_run after t).2 = Phase_Abandoned e
      /\ Forall (fun p => begun p = None /\ live_write p = None) (gate_run after t).1) as Hrun.
    { clear -He Hne Hu. induction Hne as [|ev events Hev _ IH]; intros t Ht; [done|].
      apply Forall_cons in Hu as [Hu Hus]. rewrite gate_run_cons. cbn [fst snd].
      destruct (abandoned_step e ev t He Ht Hev Hu) as (Hp & Hb & Hw).
      destruct (IH Hus _ Hp) as [Hp' Hf]. split; [done|by constructor]. }
    destruct (Hrun (s <| nt_phase := Phase_Abandoned e |>)) as [Hp Hf]; [done|]. fold r in Hp, Hf.
    split; [done|]. unfold native_load_abandoned, retire_native_session. rewrite Hp. simpl. split; [done|].
    unfold names. by rewrite (proj2 (Z.eqb_neq e 0)), Z.eqb_refl by done.
Qed.
