(* ===== verification/Devcaps.v ===== *)
(** * What the television can decode

    [platform/src/devcaps.rs]: the capability value read from the device's own codec table at boot
    ([parse_table], [probe]), what takes claims away from it (the firmware exclusions, the decoder
    ranks, the refusals an install learned, the facets an attempt does without), and the questions
    the planner asks of it.  The JSON text of the table is read by a library: the class
    [TableCodec].  A [BTreeMap] is a [gmap], a [BTreeSet] a [gset]. *)

From Stdlib Require Import String SpecFloat.
From stdpp Require Import gmap fin_maps fin_sets.
From S2P Require Import Prelude Bytes.

#[local] Open Scope Z_scope.

(** ** The codec sets *)

Definition DP_AUDIO_CODECS : bytes := lit "aac,ac3,eac3,dts,opus".
Definition PIPELINE_ONLY_AUDIO : list bytes := [lit "opus"].
Definition OPUS_AUTO_MAX_CHANNELS : Z := 2.
Definition PCM_AUDIO_CODECS : bytes := lit "flac,alac,pcm".

Record AppDecoded := mk_app_decoded {
  ad_id : bytes;
  ad_codecs : list bytes;
  ad_decoders : list bytes;
  ad_lossy : bool;
  ad_measured : option bytes
}.

Definition PCM_FLAVOURS : list bytes :=
  [lit "pcm_s16le"; lit "pcm_s16be"; lit "pcm_s24le"; lit "pcm_s24be"; lit "pcm_s32le"; lit "pcm_s32be"].

Definition APP_DECODED : list AppDecoded :=
  [ mk_app_decoded (lit "flac") [lit "flac"] [lit "flac"] false None;
    mk_app_decoded (lit "alac") [lit "alac"] [lit "alac"] false None;
    mk_app_decoded (lit "pcm") PCM_FLAVOURS PCM_FLAVOURS false None;
    mk_app_decoded (lit "dts") [lit "dts"] [lit "dca"] true
      (Some (lit "U5 2026-10: DTS core decode on the dev set (webOS 4.5), whole app 13.1% of one core of four, system 25% busy, 60 fps held"));
    mk_app_decoded (lit "mp3") [lit "mp3"] [lit "mp3"] true None;
    mk_app_decoded (lit "vorbis") [lit "vorbis"] [lit "vorbis"] true None;
    mk_app_decoded (lit "truehd") [lit "truehd"] [lit "truehd"] true None ].

Inductive AppLossy := Lossy_Off | Lossy_Measured | Lossy_All.
#[export] Instance AppLossy_eq_dec : EqDecision AppLossy.
Proof. solve_decision. Defined.

Inductive DvFirstPicture := AnyIrap | IdrOnly.
#[export] Instance DvFirstPicture_eq_dec : EqDecision DvFirstPicture.
Proof. solve_decision. Defined.

Definition lossy_row_enabled (row : AppDecoded) (policy : AppLossy) : bool :=
  ad_lossy row
  && match policy with
     | Lossy_Off => false
     | Lossy_Measured => is_some (ad_measured row)
     | Lossy_All => true
     end.

Definition app_decoded_by_ffmpeg_name (name : bytes) : option AppDecoded :=
  List.find (fun c => bool_decide (name ∈ ad_codecs c)) APP_DECODED.

(** ** Codec names *)

Definition canonical_name (codec : bytes) : bytes :=
  if bool_decide (codec = lit "dca") then lit "dts"
  else if bool_decide (codec = lit "ec-3") then lit "eac3"
  else if bool_decide (codec = lit "lpcm") then lit "pcm"
  else if existsb (fun d => bool_decide (ad_id d = lit "pcm") && bool_decide (codec ∈ ad_codecs d))
            APP_DECODED
  then lit "pcm"
  else codec.

Definition is_ascii_uppercase (b : Z) : bool := (65 <=? b) && (b <=? 90).

Definition audio_codec_id (codec : bytes) : bytes :=
  if existsb is_ascii_uppercase codec then canonical_name (to_ascii_lowercase codec)
  else canonical_name codec.

Definition canon (name : bytes) : bytes :=
  to_ascii_lowercase (List.filter (fun c => negb ((c =? 46) || (c =? 45))) name).

(** ** Rates and channels *)

Definition PCM_MAX_CHANNELS : Z := 2.
Definition PCM_SAMPLE_RATES : list Z := [8000; 12000; 16000; 22050; 24000; 32000; 44100; 48000].
Definition AUDIO_RATE_CEILING : Z := 48000.

Definition pcm_load_rate (source : Z) : option Z :=
  let top := 48000 in
  if negb ((1 <=? source) && (source <=? i32_max)) then None
  else match List.find (fun r => r =? source) PCM_SAMPLE_RATES with
       | Some r => Some r
       | None =>
           if source <? top then None
           else let family := 44100 in
                Some (if source mod family =? 0 then family else top)
       end.

Definition is_pcm_codec (codec : bytes) : bool :=
  bool_decide (audio_codec_id codec ∈ split COMMA PCM_AUDIO_CODECS).

Definition audio_rate_bounded (codec : bytes) : bool :=
  let id := audio_codec_id codec in
  negb (bool_decide (id ∈ [lit "dts"; lit "truehd"]))
  && negb (bool_decide (id ∈ split COMMA PCM_AUDIO_CODECS)).

Definition audio_track_fits (codec : bytes) (channels sample_rate : Z) : bool :=
  if is_pcm_codec codec
  then (1 <=? channels) && (channels <=? PCM_MAX_CHANNELS) && is_some (pcm_load_rate sample_rate)
  else (sample_rate <=? AUDIO_RATE_CEILING) || negb (audio_rate_bounded codec).

Definition app_decode_mixes_down (channels : Z) : bool :=
  negb ((1 <=? channels) && (channels <=? PCM_MAX_CHANNELS)).

(** ** The capability value *)

Record Caps := mk_caps {
  dc_hevc : bool;
  dc_hevc_max : Z * Z;
  dc_h264_row : Z * Z * Z;
  dc_hevc_row : Z * Z * Z;
  dc_vp9 : bool;
  dc_vp9_row : Z * Z * Z;
  dc_vp9_bit_depth : Z;
  dc_av1 : bool;
  dc_av1_row : Z * Z * Z;
  dc_audio : bytes;
  dc_audio_channels : gmap bytes Z;
  dc_native_ceiling : gmap bytes Z;
  dc_video_ceiling : gmap bytes (Z * Z);
  dc_app_lossy : AppLossy;
  dc_app_lossy_in_force : gset bytes;
  dc_dv_first_picture : DvFirstPicture
}.
#[export] Instance Caps_eta : Eta Caps := fun r =>
  mk_caps (dc_hevc r) (dc_hevc_max r) (dc_h264_row r) (dc_hevc_row r) (dc_vp9 r) (dc_vp9_row r)
    (dc_vp9_bit_depth r) (dc_av1 r) (dc_av1_row r) (dc_audio r) (dc_audio_channels r)
    (dc_native_ceiling r) (dc_video_ceiling r) (dc_app_lossy r) (dc_app_lossy_in_force r)
    (dc_dv_first_picture r).
#[export] Instance Caps_eq_dec : EqDecision Caps.
Proof. solve_decision. Defined.

Definition assumed : Caps :=
  mk_caps true (3840, 2176) (0, 0, 0) (0, 0, 0) false (0, 0, 0) 8 false (0, 0, 0)
    (lit "aac,ac3,eac3") ∅ ∅ ∅ Lossy_Off ∅ AnyIrap.

(** ** What the planner asks *)

Definition audio_has (c : Caps) (codec : bytes) : bool :=
  bool_decide (audio_codec_id codec ∈ split COMMA (dc_audio c)).

Definition needs_count (id : bytes) : bool := bool_decide (id = lit "dts") || is_pcm_codec id.

Definition audio_supports (c : Caps) (codec : bytes) (channels : Z) : bool :=
  let id := audio_codec_id codec in
  audio_has c id
  && match dc_audio_channels c !! id with
     | Some limit => ((0 <? channels) || negb (needs_count id)) && (channels <=? limit)
     | None => negb (needs_count id)
     end.

Definition forced_admits_dts (c : Caps) : bool := is_some (dc_audio_channels c !! lit "dts").

Definition forced_feeds_audio (c : Caps) (codec : bytes) : bool :=
  let id := audio_codec_id codec in
  if bool_decide (id = lit "dts") then forced_admits_dts c
  else if bool_decide (id ∈ PIPELINE_ONLY_AUDIO) || is_pcm_codec id then audio_has c id
  else bool_decide (id ∈ split COMMA DP_AUDIO_CODECS).

Definition forced_feeds_audio_track (c : Caps) (codec : bytes) (channels : Z) : bool :=
  forced_feeds_audio c codec
  && match dc_native_ceiling c !! audio_codec_id codec with
     | Some max => channels <=? max
     | None => true
     end.

Definition native_audio_track (c : Caps) (codec : bytes) (channels sample_rate : Z) (forced : bool)
  : bool :=
  negb (bool_decide (audio_codec_id codec ∈ dc_app_lossy_in_force c))
  && (if forced then forced_feeds_audio_track c codec channels else audio_supports c codec channels)
  && audio_track_fits codec channels sample_rate.

Definition app_may_decode_lossy (c : Caps) (codec : bytes) : bool :=
  let id := audio_codec_id codec in
  existsb (fun r => bool_decide (ad_id r = id) && lossy_row_enabled r (dc_app_lossy c)) APP_DECODED.

Definition app_may_mix_down (c : Caps) (channels : Z) (forced : bool) : bool :=
  negb (forced && app_decode_mixes_down channels) || bool_decide (dc_app_lossy c = Lossy_All).

Definition app_decodes_lossy_track (c : Caps) (codec : bytes) (channels sample_rate : Z)
    (forced : bool) : bool :=
  let id := audio_codec_id codec in
  app_may_decode_lossy c id
  && audio_track_fits id channels sample_rate
  && app_may_mix_down c channels forced
  && (bool_decide (id ∈ dc_app_lossy_in_force c)
      || (forced && negb (native_audio_track c id channels sample_rate true))).

(** The bound of one codec's table row. *)
Definition codec_row (c : Caps) (vcodec : bytes) : Z * Z * Z :=
  if bool_decide (vcodec = lit "av1") then dc_av1_row c
  else if bool_decide (vcodec = lit "vp9") then dc_vp9_row c
  else (0, 0, 0).

Definition raster_bound (c : Caps) (vcodec : bytes) : Z * Z :=
  let '(w, h) := dc_hevc_max c in
  let '(rw, rh, _) := codec_row c vcodec in
  let w := if 0 <? rw then Z.min w rw else w in
  let h := if 0 <? rh then Z.min h rh else h in
  match dc_video_ceiling c !! vcodec with
  | Some (cw, ch) => (Z.min w cw, Z.min h ch)
  | None => (w, h)
  end.

Definition encode_vcodec (c : Caps) : bytes := if dc_hevc c then lit "hevc" else lit "h264".

(** ** Taking claims away *)

(** The list without one name. *)
Definition drop_codec (codec audio : bytes) : bytes :=
  join COMMA (List.filter (fun c => negb (bool_decide (c = codec))) (split COMMA audio)).

Definition limit_codec (c : Caps) (codec : bytes) (max : Z) : Caps * option bytes :=
  if negb (audio_has c codec) then (c, None)
  else if max =? 0 then
    (c <| dc_audio := drop_codec codec (dc_audio c) |>
       <| dc_audio_channels := delete codec (dc_audio_channels c) |>,
     Some (codec ++ lit "=none"))
  else
    let limit :=
      match dc_audio_channels c !! codec with
      | Some l => if 0 <? l then Z.min l max else max
      | None => max
      end in
    let native := match dc_native_ceiling c !! codec with Some l => Z.min l max | None => max end in
    (c <| dc_audio_channels := <[codec := limit]> (dc_audio_channels c) |>
       <| dc_native_ceiling := <[codec := native]> (dc_native_ceiling c) |>,
     Some (codec ++ lit "<=" ++ show limit)).

(** What a firmware row takes away. *)
Inductive Limit :=
  | Limit_Audio (codec : bytes) (max_channels : Z)
  | Limit_DvFirstPictureIdr.

(** The evidence of a row, a text for readers, is left out. *)
Record Exclusion := mk_exclusion { ex_codename : bytes; ex_limit : Limit }.

Definition EXCLUSIONS : list Exclusion :=
  [ mk_exclusion (lit "kisscurl-koli") (Limit_Audio (lit "opus") 2);
    mk_exclusion (lit "kisscurl-koli") (Limit_Audio (lit "vorbis") 0);
    mk_exclusion (lit "kisscurl-koli") Limit_DvFirstPictureIdr;
    mk_exclusion (lit "jhericurl-jervisbay") Limit_DvFirstPictureIdr ].

(** One row of the table, for a set that it names. *)
Definition apply_exclusion (ignore : bool) (acc : Caps * list bytes) (e : Exclusion)
  : Caps * list bytes :=
  let '(c, applied) := acc in
  match ex_limit e with
  | Limit_Audio codec max =>
      if ignore then acc
      else let '(c, said) := limit_codec c codec max in (c, applied ++ option_list said)
  | Limit_DvFirstPictureIdr =>
      (c <| dc_dv_first_picture := IdrOnly |>, applied ++ [lit "dv-first-picture=idr"])
  end.

Definition apply_exclusions (c : Caps) (codename : bytes) (ignore : bool) (table : list Exclusion)
  : Caps * list bytes :=
  match codename with
  | [] => (c, [])
  | _ =>
      fold_left (apply_exclusion ignore)
        (List.filter (fun e => eq_ignore_ascii_case (ex_codename e) codename) table) (c, [])
  end.

(** The app decodes one lossy codec itself, whatever the set's decoder says. *)
Definition with_app_lossy_for (c : Caps) (codec : bytes) : Caps :=
  if negb (app_may_decode_lossy c codec) then c
  else
    let id := audio_codec_id codec in
    let c := if negb (audio_has c id) then c <| dc_audio := dc_audio c ++ COMMA :: id |> else c in
    c <| dc_audio_channels := <[id := 8]> (dc_audio_channels c) |>
      <| dc_app_lossy_in_force := {[id]} ∪ dc_app_lossy_in_force c |>.

Definition with_app_lossy (c : Caps) : Caps :=
  fold_left (fun c r => with_app_lossy_for c (ad_id r)) (List.filter ad_lossy APP_DECODED)
    (c <| dc_app_lossy := Lossy_All |>).

(** A refusal this install watched. *)
Record Refusal := mk_refusal { rf_codec : bytes; rf_channels : Z; rf_build : bytes }.

Definition watched_on (r : Refusal) (build : bytes) : bool :=
  bool_decide (build = []) || bool_decide (rf_build r = build).

Definition refusal_ceiling (channels : Z) : Z := if channels <=? 2 then 0 else 2.

Inductive Facet :=
  | Facet_Audio (codec : bytes) (channels : Z)
  | Facet_Video (codec : bytes) (width height : Z).
#[export] Instance Facet_eq_dec : EqDecision Facet.
Proof. solve_decision. Defined.

Definition VIDEO_REFUSAL_FLOOR : Z * Z := (1920, 1088).

Definition without (c : Caps) (facet : Facet) : Caps :=
  match facet with
  | Facet_Audio codec channels =>
      fst (limit_codec c (audio_codec_id codec) (refusal_ceiling channels))
  | Facet_Video codec width height =>
      let '(floor_w, floor_h) := VIDEO_REFUSAL_FLOOR in
      if (floor_w <? width) || (floor_h <? height) then
        let codec := to_ascii_lowercase codec in
        let '(bw, bh) := raster_bound c codec in
        let tighter := (Z.min bw floor_w, Z.min bh floor_h) in
        if negb (bool_decide (tighter = (bw, bh)))
        then c <| dc_video_ceiling := <[codec := tighter]> (dc_video_ceiling c) |>
        else c
      else c
  end.

Definition minus (c : Caps) (rows : list Refusal) (build : bytes) : Caps :=
  fold_left (fun c r => fst (limit_codec c (audio_codec_id (rf_codec r)) (refusal_ceiling (rf_channels r))))
    (List.filter (fun r => watched_on r build) rows) c.

(** ** The decoder ranks of the firmware *)

Definition DECODER_ELEMENTS : list (bytes * list bytes) :=
  [ (lit "aac", [lit "aac_audiodec"; lit "avdec_aac"; lit "faad"]);
    (lit "ac3", [lit "ac3_audiodec"; lit "avdec_ac3"]);
    (lit "eac3", [lit "ac3_audiodec"; lit "avdec_eac3"]);
    (lit "dts", [lit "dts_audiodec"; lit "avdec_dca"]);
    (lit "opus", [lit "opus_audiodec"; lit "opusdec"; lit "avdec_opus"]);
    (lit "vorbis", [lit "vorbis_audiodec"; lit "vorbisdec"; lit "ivorbisdec"]) ].

(** One line of the rank file: are we in a section that counts, and the ranks so far. *)
Definition gst_line (acc : bool * gmap bytes Z) (line : bytes) : bool * gmap bytes Z :=
  let '(wanted, ranks) := acc in
  let line := trim line in
  match strip_prefix (lit "[") line ≫= strip_suffix (lit "]") with
  | Some section => (bool_decide (trim section ∈ [lit "rank"; lit "sw_decoder"]), ranks)
  | None =>
      if wanted then
        match split_once 61 line with
        | Some (name, value) =>
            match parse_i64 (trim value) with
            | Some rank => (wanted, <[trim name := rank]> ranks)
            | None => acc
            end
        | None => acc
        end
      else acc
  end.

Definition parse_gst_ranks (text : bytes) : gmap bytes Z :=
  snd (fold_left gst_line (text_lines text) (false, ∅)).

(** One codec of the table: the value, the codecs dropped, and those the file does not name. *)
Definition gst_codec (ranks : gmap bytes Z) (acc : Caps * list bytes * list bytes)
    (row : bytes * list bytes) : Caps * list bytes * list bytes :=
  let '(c, dropped, unlisted) := acc in
  let '(codec, elements) := row in
  if negb (audio_has c codec) then acc
  else
    let listed := omap (fun e => ranks !! e) elements in
    match listed with
    | [] => (c, dropped, unlisted ++ [codec])
    | _ =>
        if forallb (fun r => r <=? 0) listed then
          (c <| dc_audio := drop_codec codec (dc_audio c) |>
             <| dc_audio_channels := delete codec (dc_audio_channels c) |>,
           dropped ++ [codec], unlisted)
        else acc
    end.

Definition apply_gst_decoders (c : Caps) (conf : bytes) : Caps * list bytes * list bytes :=
  fold_left (gst_codec (parse_gst_ranks conf)) DECODER_ELEMENTS (c, [], []).

(** ** Reading the table *)

Record VideoRow := mk_video_row {
  vr_name : bytes;
  vr_max_width : Z;
  vr_max_height : Z;
  vr_max_frame_rate : spec_float
}.
Record AudioRow := mk_audio_row { ar_name : bytes; ar_channels : Z }.
Record Table := mk_table { tb_video_codecs : list VideoRow; tb_audio_codecs : list AudioRow }.

(** [serde_json::from_str::<Table>]. *)
Class TableCodec := { read_table : bytes -> option Table }.

Definition min_nz (a b : Z) : Z := if a =? 0 then b else if b =? 0 then a else Z.min a b.

(** [ceil() as u32] of a finite positive rate, saturating; anything else says nothing. *)
Definition frame_rate (f : spec_float) : Z :=
  match f with
  | S754_finite false m e =>
      Z.min u32_max (if 0 <=? e then Z.shiftl (Zpos m) e else - (- Zpos m / 2 ^ (- e)))
  | _ => 0
  end.

(** The rows of one codec so far: seen at all, its raster, its frame rate. *)
Record CodecRows := mk_codec_rows { cr_seen : bool; cr_wh : Z * Z; cr_fps : Z }.
Definition no_rows : CodecRows := mk_codec_rows false (0, 0) 0.
Definition note_row (r : CodecRows) (row : VideoRow) : CodecRows :=
  mk_codec_rows true
    (min_nz (fst (cr_wh r)) (vr_max_width row), min_nz (snd (cr_wh r)) (vr_max_height row))
    (min_nz (cr_fps r) (frame_rate (vr_max_frame_rate row))).

Inductive Decoder := Dec_H264 | Dec_Hevc | Dec_Vp9 | Dec_Av1.
#[export] Instance Decoder_eq_dec : EqDecision Decoder.
Proof. solve_decision. Defined.

Definition decoder_of (row : VideoRow) : option Decoder :=
  let name := canon (vr_name row) in
  if bool_decide (name ∈ [lit "h265"; lit "hevc"]) then Some Dec_Hevc
  else if bool_decide (name = lit "h264") then Some Dec_H264
  else if bool_decide (name = lit "vp9") then Some Dec_Vp9
  else if bool_decide (name = lit "av1") then Some Dec_Av1
  else None.

(** The loop over the video rows keeps one merged row per decoder. *)
Definition note_video (d : Decoder) (acc : CodecRows) (row : VideoRow) : CodecRows :=
  if bool_decide (decoder_of row = Some d) then note_row acc row else acc.
Definition video_rows (t : Table) (d : Decoder) : CodecRows :=
  fold_left (note_video d) (tb_video_codecs t) no_rows.

Definition row_of (r : CodecRows) : Z * Z * Z := (fst (cr_wh r), snd (cr_wh r), cr_fps r).

Definition note_audio (channels : gmap bytes Z) (row : AudioRow) : gmap bytes Z :=
  if 0 <? ar_channels row then
    let codec := canon (ar_name row) in
    <[codec := min_nz (default 0 (channels !! codec)) (ar_channels row)]> channels
  else channels.

Definition table_channels (t : Table) : gmap bytes Z := fold_left note_audio (tb_audio_codecs t) ∅.

(** The codecs of [DP_AUDIO_CODECS] with a row, in that order. *)
Definition table_audio (t : Table) : list bytes :=
  List.filter (fun c => negb (bool_decide (c = lit "dts")) || is_some (table_channels t !! lit "dts"))
    (List.filter (fun c => existsb (fun r => bool_decide (canon (ar_name r) = c)) (tb_audio_codecs t))
       (List.filter (fun c => negb (bool_decide (c ∈ PIPELINE_ONLY_AUDIO)))
          (split COMMA DP_AUDIO_CODECS))).

Definition pipeline_audio : list bytes :=
  List.filter (fun c => bool_decide (c ∈ PIPELINE_ONLY_AUDIO)) (split COMMA DP_AUDIO_CODECS).

(** The announced audio and its ceilings. *)
Definition audio_of_table (t : Table) : bytes * gmap bytes Z :=
  let channels := table_channels t in
  let '(audio, channels) :=
    match table_audio t with
    | [] => (dc_audio assumed, channels)
    | audio =>
        (join COMMA (audio ++ pipeline_audio ++ split COMMA PCM_AUDIO_CODECS),
         fold_left (fun m c => <[c := PCM_MAX_CHANNELS]> m) (split COMMA PCM_AUDIO_CODECS) channels)
    end in
  if bool_decide (lit "opus" ∈ split COMMA audio)
  then (audio, <[lit "opus" := min_nz (default 0 (channels !! lit "opus")) OPUS_AUTO_MAX_CHANNELS]> channels)
  else (audio, channels).

Definition parse_table (t : Table) : option Caps :=
  match tb_video_codecs t with
  | [] => None
  | _ =>
      let h264 := video_rows t Dec_H264 in
      let hevc := video_rows t Dec_Hevc in
      let vp9 := video_rows t Dec_Vp9 in
      let av1 := video_rows t Dec_Av1 in
      if negb (cr_seen h264) then None
      else
        let hevc_max := (min_nz (fst (cr_wh h264)) (fst (cr_wh hevc)),
                         min_nz (snd (cr_wh h264)) (snd (cr_wh hevc))) in
        if (fst hevc_max =? 0) || (snd hevc_max =? 0) then None
        else
          let '(audio, channels) := audio_of_table t in
          Some (mk_caps (cr_seen hevc) hevc_max (row_of h264)
                  (if cr_seen hevc then row_of hevc else (0, 0, 0))
                  (cr_seen vp9) (row_of vp9) 8 (cr_seen av1) (row_of av1)
                  audio channels ∅ ∅ Lossy_Measured ∅ AnyIrap)
  end.

Definition parse `{TableCodec} (s : bytes) : option Caps := read_table s ≫= parse_table.

Definition vp9_bit_depth_for (major : Z) : Z := if (1 <=? major) && (major <=? 4) then 10 else 8.

(** ** The boot snapshot and the start of a play *)

Record Boot := mk_boot {
  bt_caps : Caps;
  bt_codename : bytes;
  bt_build : bytes;
  bt_learns : bool;
  bt_forget : bool
}.

Definition ignores_learned (wide learn : bool) : bool := wide && negb learn.

Definition boot_new (c : Caps) (codename build : bytes) (wide learn forget : bool) : Boot :=
  mk_boot c codename build (negb (ignores_learned wide learn) && negb (bool_decide (codename = [])))
    forget.

(** What the set answers at boot: its files, its firmware, the debug flags of the launch. *)
Record Set_ := mk_set {
  st_table : option bytes;
  st_gst_conf : option bytes;
  st_major : Z;
  st_codename : bytes;
  st_build : bytes;
  st_wide : bool;
  st_learn : bool;
  st_forget : bool;
  st_appdecodelossy : bool;
  st_dvfirstpicture : option bytes
}.

Definition probed_caps `{TableCodec} (s : Set_) : Caps :=
  match st_table s ≫= parse with
  | Some c =>
      let c := c <| dc_vp9_bit_depth := vp9_bit_depth_for (st_major s) |> in
      match st_gst_conf s with
      | Some conf => fst (fst (apply_gst_decoders c conf))
      | None => c
      end
  | None => assumed
  end.

Definition probe `{TableCodec} (s : Set_) : Boot :=
  let c := fst (apply_exclusions (probed_caps s) (st_codename s) (st_wide s) EXCLUSIONS) in
  let c := if st_appdecodelossy s then with_app_lossy c else c in
  let c :=
    match st_dvfirstpicture s with
    | Some v =>
        if bool_decide (v = lit "idr") then c <| dc_dv_first_picture := IdrOnly |>
        else if bool_decide (v = lit "any") then c <| dc_dv_first_picture := AnyIrap |>
        else c
    | None => c
    end in
  boot_new c (st_codename s) (st_build s) (st_wide s) (st_learn s) (st_forget s).

(** [caps]: the boot answer, or the assumed value before [probe] has run. *)
Definition caps (boot : option Boot) : Caps := from_option bt_caps assumed boot.

Definition start_caps (boot : option Boot) (stored : list Refusal) : Caps :=
  match boot with
  | None => caps boot
  | Some b =>
      match stored with
      | [] => caps boot
      | _ =>
          if negb (bt_learns b && negb (bt_forget b)) then caps boot
          else
            let next := minus (caps boot) stored (bt_build b) in
            if bool_decide (next = caps boot) then caps boot else next
      end
  end.

Definition learning_firmware (boot : option Boot) : option (bytes * bytes) :=
  b ← boot; if bt_learns b then Some (bt_codename b, bt_build b) else None.

(** ** The codec a Load declares *)

Inductive LoadVideo := Load_H264 | Load_H265 | Load_Av1 | Load_Vp9.
#[export] Instance LoadVideo_eq_dec : EqDecision LoadVideo.
Proof. solve_decision. Defined.

Definition from_diag_code (code : Z) : option LoadVideo :=
  if code =? 1 then Some Load_H264
  else if code =? 2 then Some Load_H265
  else if code =? 3 then Some Load_Av1
  else if code =? 4 then Some Load_Vp9
  else None.

Definition of_stream (vcodec : bytes) : option LoadVideo :=
  let v := to_ascii_lowercase vcodec in
  if bool_decide (v ∈ [[]; lit "h264"]) then Some Load_H264
  else if bool_decide (v ∈ [lit "hevc"; lit "h265"]) then Some Load_H265
  else if bool_decide (v = lit "av1") then Some Load_Av1
  else if bool_decide (v = lit "vp9") then Some Load_Vp9
  else None.

Definition payload_name (v : LoadVideo) : bytes :=
  match v with
  | Load_H264 => lit "H264" | Load_H265 => lit "H265" | Load_Av1 => lit "AV1" | Load_Vp9 => lit "VP9"
  end.

Definition diag_code (v : LoadVideo) : Z :=
  match v with Load_H264 => 1 | Load_H265 => 2 | Load_Av1 => 3 | Load_Vp9 => 4 end.

Definition decoder_row (v : LoadVideo) (c : Caps) : Z * Z * Z :=
  match v with
  | Load_H264 => dc_h264_row c | Load_H265 => dc_hevc_row c
  | Load_Av1 => dc_av1_row c | Load_Vp9 => dc_vp9_row c
  end.

Definition refused_by (v : LoadVideo) (c : Caps) : bool :=
  match v with
  | Load_Av1 => negb (dc_av1 c)
  | Load_Vp9 => negb (dc_vp9 c)
  | Load_H264 | Load_H265 => false
  end.

(** ** The audio stack of the set, from the files it has *)

Inductive AudioStack := Liblxa | LgAudioSink | AudioSinkNew | AdecSink | Other_stack | Unknown_stack.

Definition LXAUDIOSINK_PLUGIN : bytes := lit "/usr/lib/gstreamer-1.0/libgstlxaudiosink.so".
Definition LIBLXA_SONAME_LINK : bytes := lit "/usr/lib/liblxa.so.2".
Definition LGAUDIOSINK_PLUGIN : bytes := lit "/usr/lib/gstreamer-1.0/libgstlgaudiosink.so".
Definition AUDIOSINK_NEW_PLUGIN : bytes := lit "/usr/lib/gstreamer-1.0/libgstaudiosink_new-1.0.so".
Definition ADECSINK_PLUGIN : bytes := lit "/usr/lib/gstreamer-1.0/libgstaudiosink-1.0.so".

Definition audio_stack_from (present : bytes -> bool) : AudioStack :=
  if present LXAUDIOSINK_PLUGIN then Liblxa
  else if present LGAUDIOSINK_PLUGIN then LgAudioSink
  else if present LIBLXA_SONAME_LINK then Liblxa
  else if present AUDIOSINK_NEW_PLUGIN then AudioSinkNew
  else if present ADECSINK_PLUGIN then AdecSink
  else Other_stack.

(** ** Lemmas *)

(** What a rate of the PCM path may be: a rate of the table, kept as it is when it is there, of the
    source's family otherwise. *)
Lemma pcm_load_rate_spec source r : pcm_load_rate source = Some r ->
  r ∈ PCM_SAMPLE_RATES
  /\ (source ∈ PCM_SAMPLE_RATES -> r = source)
  /\ (source ∉ PCM_SAMPLE_RATES -> 48000 < source /\ (r = 44100 <-> source mod 44100 = 0)).
Proof.
  unfold pcm_load_rate. destruct (negb _); [done|].
  destruct (List.find _ _) as [q|] eqn:E.
  - apply find_some in E as [Hq Hs]. apply Z.eqb_eq in Hs as <-. intros [= <-].
    apply list_elem_of_In in Hq. done.
  - assert (source ∉ PCM_SAMPLE_RATES) as Hn.
    { intros H. apply list_elem_of_In in H. pose proof (find_none _ _ E _ H) as F. simpl in F. lia. }
    destruct (Z.ltb_spec source 48000); [done|]. intros [= <-].
    split; [|split; [done|]].
    + destruct (source mod 44100 =? 0); unfold PCM_SAMPLE_RATES; rewrite !elem_of_cons; lia.
    + intros _. split; [|destruct (Z.eqb_spec (source mod 44100) 0); split; lia].
      assert (source <> 48000); [|lia]. intros ->. apply Hn. unfold PCM_SAMPLE_RATES. rewrite !elem_of_cons. tauto.
Qed.

Lemma diag_code_round_trip v : from_diag_code (diag_code v) = Some v.
Proof. by destruct v. Qed.

Lemma canonical_name_idem s : canonical_name (canonical_name s) = canonical_name s.
Proof.
  unfold canonical_name at 2 3. repeat case_bool_decide; subst; try by vm_compute.
  destruct (existsb _ _) eqn:E; [by vm_compute|].
  unfold canonical_name. rewrite E. by rewrite !bool_decide_eq_false_2.
Qed.

Lemma lower_not_upper s : existsb is_ascii_uppercase (to_ascii_lowercase s) = false.
Proof.
  induction s as [|b s IH]; csimpl; [done|]. rewrite IH, orb_false_r.
  unfold is_ascii_uppercase, to_lower. bools; simpl in *; bools; simpl; lia.
Qed.

Lemma canonical_not_upper s :
  existsb is_ascii_uppercase s = false -> existsb is_ascii_uppercase (canonical_name s) = false.
Proof.
  intros H. unfold canonical_name. repeat case_bool_decide; try by vm_compute.
  by destruct (existsb _ APP_DECODED).
Qed.

Lemma audio_codec_id_idem s : audio_codec_id (audio_codec_id s) = audio_codec_id s.
Proof.
  assert (H : existsb is_ascii_uppercase (audio_codec_id s) = false).
  { unfold audio_codec_id. destruct (existsb _ s) eqn:E; apply canonical_not_upper; [apply lower_not_upper|done]. }
  unfold audio_codec_id at 1. rewrite H. unfold audio_codec_id. destruct (existsb _ s); apply canonical_name_idem.
Qed.

Lemma audio_has_id c codec : audio_has c (audio_codec_id codec) = audio_has c codec.
Proof. unfold audio_has. by rewrite audio_codec_id_idem. Qed.

Lemma audio_has_spec c codec : audio_has c codec = true <-> audio_codec_id codec ∈ split COMMA (dc_audio c).
Proof. apply bool_decide_eq_true. Qed.

Lemma split_no_comma s : Forall (Forall (fun b => b <> COMMA)) (split COMMA s).
Proof.
  assert (H : Forall (fun _ => True) s) by (induction s; by constructor).
  eapply Forall_impl; [exact (split_parts COMMA s _ H)|]. by intros ? [].
Qed.

(** The list without one name: what is left, the empty name of an empty list apart. *)
Lemma drop_codec_spec codec audio x :
  x <> [] -> x ∈ split COMMA (drop_codec codec audio) <-> x ∈ split COMMA audio /\ x <> codec.
Proof.
  intros Hx. unfold drop_codec.
  assert (x ∈ List.filter (fun c => negb (bool_decide (c = codec))) (split COMMA audio)
          <-> x ∈ split COMMA audio /\ x <> codec) as E.
  { rewrite !list_elem_of_In, filter_In. by rewrite negb_true_iff, bool_decide_eq_false. }
  destruct (List.filter _ _) as [|y l] eqn:F.
  - rewrite <-E. cbn. rewrite list_elem_of_singleton. split; [done|intros []%elem_of_nil].
  - rewrite split_join; [|done|]; [done|]. rewrite <-F. apply filter_Forall, split_no_comma.
Qed.
