(* ===== verification/CapsClaims.v ===== *)
(** * What narrowing and reading the table guarantee

    A capability value is a set of claims: the tracks it plays natively and the rasters it admits.
    Everything that takes claims away from one ([without], [minus], the exclusions, the decoder
    ranks) is shown to take away only, and the table that was read is shown never to be
    exceeded. *)

From Stdlib Require Import String SpecFloat.
From stdpp Require Import gmap fin_maps fin_sets.
From S2P Require Import Prelude Bytes Devcaps.

#[local] Open Scope Z_scope.
#[local] Arguments lit : simpl never.

(** ** Well-formed values, and fewer claims *)

(** Ceilings are positive, and a codec that needs a channel count has one. *)
Record caps_ok (c : Caps) : Prop := mk_caps_ok {
  ok_limits : forall k l, dc_audio_channels c !! k = Some l -> 0 < l;
  ok_counted : forall id, id ∈ split COMMA (dc_audio c) -> needs_count id = true ->
    is_Some (dc_audio_channels c !! id)
}.

(** [c'] claims no more than [c]: every track it plays, [c] plays; no raster bound is higher; the
    decoders are the same. *)
Record narrower (c' c : Caps) : Prop := mk_narrower {
  nw_native : forall codec channels rate forced, audio_codec_id codec <> [] ->
    native_audio_track c' codec channels rate forced = true ->
    native_audio_track c codec channels rate forced = true;
  nw_raster : forall v, fst (raster_bound c' v) <= fst (raster_bound c v)
    /\ snd (raster_bound c' v) <= snd (raster_bound c v);
  nw_decoders : (dc_hevc c', dc_vp9 c', dc_av1 c') = (dc_hevc c, dc_vp9 c, dc_av1 c);
  nw_dv : dc_dv_first_picture c = IdrOnly -> dc_dv_first_picture c' = IdrOnly
}.

#[export] Instance narrower_preorder : PreOrder narrower.
Proof.
  split.
  - intros c. split; auto. intros; lia.
  - intros a b c [N1 R1 D1 V1] [N2 R2 D2 V2]. split; auto; [|congruence].
    intros v. specialize (R1 v). specialize (R2 v). lia.
Qed.

(** The audio half, before the limits of the Load: it is what the operations on the audio fields
    are compared by. *)
Record quieter (c' c : Caps) : Prop := mk_quieter {
  qu_auto : forall codec channels, audio_codec_id codec <> [] -> audio_codec_id codec ∉ dc_app_lossy_in_force c' ->
    audio_supports c' codec channels = true -> audio_supports c codec channels = true;
  qu_forced : forall codec channels, audio_codec_id codec <> [] -> audio_codec_id codec ∉ dc_app_lossy_in_force c' ->
    forced_feeds_audio_track c' codec channels = true -> forced_feeds_audio_track c codec channels = true;
  qu_force : dc_app_lossy_in_force c ⊆ dc_app_lossy_in_force c'
}.

Lemma quieter_narrower c' c : quieter c' c ->
  (forall v, raster_bound c' v = raster_bound c v) ->
  (dc_hevc c', dc_vp9 c', dc_av1 c') = (dc_hevc c, dc_vp9 c, dc_av1 c) ->
  (dc_dv_first_picture c = IdrOnly -> dc_dv_first_picture c' = IdrOnly) -> narrower c' c.
Proof.
  intros [Ha Hf Hs] Hr Hd Hv. split; [|intros v; rewrite Hr; lia|done|done].
  intros codec ch rate forced Hid. unfold native_audio_track.
  rewrite !andb_true_iff, !negb_true_iff, !bool_decide_eq_false. intros [[Hn Hc] Hfit].
  split; [split|done]; [set_solver|]. destruct forced; auto.
Qed.

(** What the questions about one codec read of the value. *)
Lemma audio_supports_mono c c' codec channels :
  (audio_has c' codec = true -> audio_has c codec = true) ->
  (audio_has c codec = true -> forall limit', dc_audio_channels c' !! audio_codec_id codec = Some limit' ->
     match dc_audio_channels c !! audio_codec_id codec with
     | Some limit => limit' <= limit
     | None => needs_count (audio_codec_id codec) = false
     end) ->
  (dc_audio_channels c' !! audio_codec_id codec = None ->
     dc_audio_channels c !! audio_codec_id codec = None \/ audio_has c' codec = false) ->
  audio_supports c' codec channels = true -> audio_supports c codec channels = true.
Proof.
  intros Hh Hs Hn. unfold audio_supports. rewrite !audio_has_id, !andb_true_iff. intros [H1 H2].
  split; [auto|]. specialize (Hs (Hh H1)).
  destruct (dc_audio_channels c' !! _) as [l'|] eqn:E'.
  - specialize (Hs _ eq_refl). destruct (dc_audio_channels c !! _) as [l|]; [|by rewrite Hs].
    apply andb_true_iff in H2 as [? ?]. apply andb_true_iff. split; [done|]. lia.
  - destruct (Hn eq_refl) as [->|Hx]; [done|congruence].
Qed.

Lemma forced_feeds_mono c c' codec channels :
  (audio_has c' codec = true -> audio_has c codec = true) ->
  (audio_codec_id codec = lit "dts" -> is_some (dc_audio_channels c' !! lit "dts") = true ->
     is_some (dc_audio_channels c !! lit "dts") = true) ->
  (forall max, dc_native_ceiling c !! audio_codec_id codec = Some max ->
     exists max', dc_native_ceiling c' !! audio_codec_id codec = Some max' /\ max' <= max) ->
  forced_feeds_audio_track c' codec channels = true -> forced_feeds_audio_track c codec channels = true.
Proof.
  intros Hh Hd Hn. unfold forced_feeds_audio_track. rewrite !andb_true_iff. intros [H1 H2]. split.
  - unfold forced_feeds_audio, forced_admits_dts in *. rewrite !audio_has_id in *.
    case_bool_decide; [auto|]. destruct (_ || _); auto.
  - destruct (dc_native_ceiling c !! _) as [max|] eqn:E; [|done].
    destruct (Hn _ eq_refl) as (max' & Hm & ?). rewrite Hm in H2. lia.
Qed.

(** ** Each operation takes away only *)

Lemma audio_has_canonical c id : audio_codec_id id = id ->
  audio_has c id = true <-> id ∈ split COMMA (dc_audio c).
Proof. intros H. by rewrite audio_has_spec, H. Qed.

(** Without one codec. *)
Definition silenced (codec : bytes) (c : Caps) : Caps :=
  c <| dc_audio := drop_codec codec (dc_audio c) |>
    <| dc_audio_channels := delete codec (dc_audio_channels c) |>.

Lemma silenced_has codec c x : audio_codec_id x <> [] ->
  audio_has (silenced codec c) x = true <-> audio_has c x = true /\ audio_codec_id x <> codec.
Proof. intros Hx. rewrite !audio_has_spec. by apply drop_codec_spec. Qed.

Lemma silenced_quieter codec c : quieter (silenced codec c) c.
Proof.
  split; [| |done]; intros x ch Hx _.
  - intros H. eapply audio_supports_mono; [| | |exact H].
    + by intros [? _]%silenced_has.
    + intros _ l'. unfold silenced. cbn. intros [_ ->]%lookup_delete_Some. lia.
    + unfold silenced. cbn. intros [E|E]%lookup_delete_None; [right|by left].
      apply not_true_iff_false. intros F. by apply (silenced_has codec c x Hx) in F as [_ []].
  - intros H. eapply forced_feeds_mono; [| | |exact H].
    + by intros [? _]%silenced_has.
    + intros _. unfold silenced. cbn. unfold is_some.
      destruct (delete _ _ !! _) eqn:E; [|done]. apply lookup_delete_Some in E as [_ ->]. done.
    + intros l Hl. exists l. split; [exact Hl|lia].
Qed.

Lemma needs_count_nil : needs_count [] = false.
Proof. by vm_compute. Qed.

Lemma silenced_ok codec c : caps_ok c -> caps_ok (silenced codec c).
Proof.
  intros [Hl Hc]. split.
  - unfold silenced. cbn. intros k l [_ H]%lookup_delete_Some. eauto.
  - intros id Hin Hneed. destruct (decide (id = [])) as [->|Hne]; [by rewrite needs_count_nil in Hneed|].
    unfold silenced in *. cbn in *. apply drop_codec_spec in Hin as [Hin Hx]; [|done].
    rewrite lookup_delete_ne by done. eauto.
Qed.

(** Held to a number of channels. *)
Definition ceiling_of (c : Caps) (codec : bytes) (max : Z) : Z :=
  match dc_audio_channels c !! codec with
  | Some l => if 0 <? l then Z.min l max else max
  | None => max
  end.
Definition native_of (c : Caps) (codec : bytes) (max : Z) : Z :=
  match dc_native_ceiling c !! codec with Some l => Z.min l max | None => max end.
Definition held (codec : bytes) (max : Z) (c : Caps) : Caps :=
  c <| dc_audio_channels := <[codec := ceiling_of c codec max]> (dc_audio_channels c) |>
    <| dc_native_ceiling := <[codec := native_of c codec max]> (dc_native_ceiling c) |>.

Lemma limit_codec_cases c codec max :
  fst (limit_codec c codec max) =
    if audio_has c codec then if max =? 0 then silenced codec c else held codec max c else c.
Proof. unfold limit_codec. destruct (audio_has c codec); [|done]. by destruct (max =? 0). Qed.

Lemma ceiling_of_bounds c codec max : caps_ok c -> 0 < max ->
  0 < ceiling_of c codec max <= max
  /\ forall l, dc_audio_channels c !! codec = Some l -> ceiling_of c codec max <= l.
Proof.
  intros [Hl _] Hm. unfold ceiling_of. destruct (dc_audio_channels c !! codec) as [l|] eqn:E.
  - pose proof (Hl _ _ E). bools; split; [lia| |lia|]; intros ? [= <-]; lia.
  - split; [lia|done].
Qed.

Lemma native_of_bounds c codec max : native_of c codec max <= max
  /\ forall l, dc_native_ceiling c !! codec = Some l -> native_of c codec max <= l.
Proof.
  unfold native_of. destruct (dc_native_ceiling c !! codec); split; intros; simplify_eq; lia.
Qed.

Lemma held_quieter codec max c : caps_ok c -> audio_codec_id codec = codec -> 0 < max ->
  audio_has c codec = true -> quieter (held codec max c) c.
Proof.
  intros Hok Hid Hm Hhas.
  destruct (ceiling_of_bounds c codec max Hok Hm) as [Hc Hc'].
  destruct (native_of_bounds c codec max) as [_ Hn].
  assert (Hcount : dc_audio_channels c !! codec = None -> needs_count codec = false).
  { intros E. apply not_true_iff_false. intros F.
    apply audio_has_canonical in Hhas; [|done].
    destruct (ok_counted c Hok _ Hhas F) as [? ?]. congruence. }
  split; [| |done]; intros x ch Hx _ H.
  - apply (audio_supports_mono c (held codec max c)); [done| | |exact H].
    + intros _ l'. unfold held. cbn. destruct (decide (codec = audio_codec_id x)) as [<-|Hne].
      * rewrite lookup_insert_eq. intros [= <-].
        destruct (dc_audio_channels c !! codec) eqn:E; [by apply Hc'|by apply Hcount].
      * rewrite lookup_insert_ne by done. intros ->. lia.
    + unfold held. cbn. intros [E _]%lookup_insert_None. by left.
  - apply (forced_feeds_mono c (held codec max c)); [done| | |exact H].
    + intros E. unfold held. cbn. destruct (decide (codec = lit "dts")) as [->|Hne].
      * intros _. destruct (dc_audio_channels c !! lit "dts") eqn:F; [done|].
        specialize (Hcount eq_refl). vm_compute in Hcount. discriminate Hcount.
      * by rewrite lookup_insert_ne.
    + unfold held. cbn. intros l Hl. destruct (decide (codec = audio_codec_id x)) as [E|Hne].
      * rewrite <-E in *. rewrite lookup_insert_eq. eexists. split; [done|]. apply Hn; exact Hl.
      * rewrite lookup_insert_ne by done. exists l. split; [done|lia].
Qed.

Lemma held_ok codec max c : caps_ok c -> 0 < max -> caps_ok (held codec max c).
Proof.
  intros Hok Hm. pose proof (ceiling_of_bounds c codec max Hok Hm) as [Hc _]. destruct Hok as [Hl Hn].
  unfold held. split; cbn.
  - intros k l [[<- <-]|[_ H]]%lookup_insert_Some; [lia|eauto].
  - intros id Hin Hneed. destruct (decide (codec = id)) as [->|?]; [by rewrite lookup_insert_eq|].
    rewrite lookup_insert_ne by done. eauto.
Qed.

Lemma limit_codec_narrower c codec max : caps_ok c -> audio_codec_id codec = codec -> 0 <= max ->
  narrower (fst (limit_codec c codec max)) c /\ caps_ok (fst (limit_codec c codec max)).
Proof.
  intros Hok Hid Hm. rewrite limit_codec_cases. destruct (audio_has c codec) eqn:Hh; [|done].
  destruct (Z.eqb_spec max 0).
  - split; [|by apply silenced_ok]. by apply quieter_narrower; [apply silenced_quieter|..].
  - split; [|apply held_ok; [done|lia]].
    by apply quieter_narrower; [apply held_quieter; [..|lia|]|..].
Qed.

(** A relation a fold of narrowing steps keeps. *)
Definition narrows (c0 c : Caps) : Prop := narrower c c0 /\ caps_ok c.

Lemma narrows_refl c : caps_ok c -> narrows c c.
Proof. by split. Qed.

Lemma narrows_step c0 c c' : narrows c0 c -> narrower c' c /\ caps_ok c' -> narrows c0 c'.
Proof. intros [H _] [H' Hok]. split; [by etrans|done]. Qed.

Lemma refusal_ceiling_nonneg ch : 0 <= refusal_ceiling ch.
Proof. unfold refusal_ceiling. destruct (ch <=? 2); lia. Qed.

Lemma minus_narrows c rows build : caps_ok c -> narrows c (minus c rows build).
Proof.
  intros Hok. unfold minus. apply fold_left_ind; [by apply narrows_refl|].
  intros c' r _ Hc. eapply narrows_step; [done|].
  apply limit_codec_narrower; [apply Hc|apply audio_codec_id_idem|apply refusal_ceiling_nonneg].
Qed.

Lemma ceiling_narrower c codec w h :
  w <= fst (raster_bound c codec) -> h <= snd (raster_bound c codec) ->
  forall v,
    let c' := c <| dc_video_ceiling := <[codec := (w, h)]> (dc_video_ceiling c) |> in
    fst (raster_bound c' v) <= fst (raster_bound c v) /\ snd (raster_bound c' v) <= snd (raster_bound c v).
Proof.
  intros Hw Hh v. unfold raster_bound, codec_row in *. cbn in *.
  destruct (dc_hevc_max c) as [mw mh]. destruct (decide (codec = v)) as [<-|Hne].
  - rewrite lookup_insert_eq.
    destruct (if bool_decide (codec = lit "av1") then _ else _) as [[rw rh] x].
    destruct (dc_video_ceiling c !! codec) as [[cw ch]|]; cbn in *; lia.
  - rewrite lookup_insert_ne by done. lia.
Qed.

Lemma without_narrows c facet : caps_ok c -> narrows c (without c facet).
Proof.
  intros Hok. destruct facet as [codec ch|codec w h]; cbn [without].
  - eapply narrows_step; [by apply narrows_refl|].
    apply limit_codec_narrower; [done|apply audio_codec_id_idem|apply refusal_ceiling_nonneg].
  - destruct VIDEO_REFUSAL_FLOOR as [fw fh]. destruct (_ || _); [|by apply narrows_refl].
    destruct (raster_bound c _) as [bw bh] eqn:E. destruct (negb _); [|by apply narrows_refl].
    split; [|by destruct Hok].
    split; [done| |done|done]. apply ceiling_narrower; rewrite E; cbn; lia.
Qed.

(** ** The firmware's rows and ranks *)

(** An exclusion row names its codec canonically and a count. *)
Definition exclusion_ok (e : Exclusion) : Prop :=
  match ex_limit e with
  | Limit_Audio codec max => audio_codec_id codec = codec /\ 0 <= max
  | Limit_DvFirstPictureIdr => True
  end.

Lemma EXCLUSIONS_ok : Forall exclusion_ok EXCLUSIONS.
Proof. repeat (constructor; [by vm_compute|]). constructor. Qed.

Lemma apply_exclusion_narrows c0 ignore acc e : exclusion_ok e ->
  narrows c0 (fst acc) -> narrows c0 (fst (apply_exclusion ignore acc e)).
Proof.
  destruct acc as [c said]. unfold exclusion_ok, apply_exclusion. cbn [fst].
  destruct (ex_limit e) as [codec max|].
  - intros [Hid Hm] Hc. destruct ignore; [done|].
    pose proof (limit_codec_narrower c codec max (proj2 Hc) Hid Hm) as H.
    destruct (limit_codec c codec max) as [c' s]. by eapply narrows_step.
  - intros _ Hc. eapply narrows_step; [done|]. destruct Hc as [_ [? ?]].
    split; [split; [done|by split; apply Z.le_refl|done|done]|by split].
Qed.

Lemma apply_exclusions_narrows c codename ignore table : caps_ok c -> Forall exclusion_ok table ->
  narrows c (fst (apply_exclusions c codename ignore table)).
Proof.
  intros Hok Ht. unfold apply_exclusions. destruct codename as [|b s]; [by apply narrows_refl|].
  apply (fold_left_ind _ (fun acc => narrows c (fst acc))); [by apply narrows_refl|].
  intros acc e He Hacc. apply apply_exclusion_narrows; [|done].
  pose proof (filter_Forall _ (fun e => eq_ignore_ascii_case (ex_codename e) (b :: s)) _ Ht) as F.
  rewrite Forall_forall in F. by apply F.
Qed.

Lemma apply_gst_decoders_narrows c conf : caps_ok c -> narrows c (fst (fst (apply_gst_decoders c conf))).
Proof.
  intros Hok. unfold apply_gst_decoders.
  apply (fold_left_ind _ (fun acc => narrows c (fst (fst acc)))); [by apply narrows_refl|].
  intros [[c' d] u] [codec elements] _ Hc. unfold gst_codec. cbn [fst].
  destruct (negb (audio_has c' codec)); [done|]. destruct (omap _ elements); [done|].
  destruct (forallb _ _); [|done]. eapply narrows_step; [done|]. change (narrows c c') in Hc.
  split; [|by apply silenced_ok, Hc]. by apply quieter_narrower; [apply silenced_quieter|..].
Qed.

(** ** Decoding in the app *)

Lemma lossy_ids c codec : app_may_decode_lossy c codec = true ->
  audio_codec_id codec ∈ ad_id <$> APP_DECODED.
Proof.
  unfold app_may_decode_lossy. intros H. apply existsb_exists in H as (r & Hr & H).
  apply andb_true_iff in H as [H _]. apply bool_decide_eq_true in H as <-.
  apply list_elem_of_fmap_2, list_elem_of_In, Hr.
Qed.

Lemma app_ids_plain id : id ∈ ad_id <$> APP_DECODED -> id <> [] /\ Forall (fun b => b <> COMMA) id.
Proof.
  assert (F : forallb (fun i => negb (bool_decide (i = [])) && forallb (fun b => negb (b =? COMMA)) i)
                (ad_id <$> APP_DECODED) = true) by by vm_compute.
  rewrite forallb_forall in F. intros H. apply list_elem_of_In, F, andb_true_iff in H as [H1 H2].
  split; [by apply negb_true_iff, bool_decide_eq_false in H1|].
  rewrite forallb_forall in H2. apply Forall_forall. intros b Hb%list_elem_of_In%H2.
  unfold COMMA in *. lia.
Qed.

(** The announced list, with one more name. *)
Lemma announced_more c id x : Forall (fun b => b <> COMMA) id ->
  x ∈ split COMMA (dc_audio c ++ COMMA :: id) <-> x ∈ split COMMA (dc_audio c) \/ x = id.
Proof. intros H. by rewrite split_app, elem_of_app, (split_no_sep COMMA id H), list_elem_of_singleton. Qed.

Lemma with_app_lossy_for_narrows c codec : caps_ok c -> narrows c (with_app_lossy_for c codec).
Proof.
  intros Hok. unfold with_app_lossy_for.
  destruct (app_may_decode_lossy c codec) eqn:Hmay; cbn [negb]; [|by apply narrows_refl].
  apply lossy_ids, app_ids_plain in Hmay as [Hne Hplain].
  set (id := audio_codec_id codec) in *.
  set (c1 := if negb (audio_has c id) then _ else c).
  assert (Haud : forall x, x ∈ split COMMA (dc_audio c1) -> x ∈ split COMMA (dc_audio c) \/ x = id).
  { intros x. subst c1. destruct (negb _); [|by left]. cbn. by rewrite announced_more. }
  assert (Hch : dc_audio_channels c1 = dc_audio_channels c) by (subst c1; by destruct (negb _)).
  assert (Hfo : dc_app_lossy_in_force c1 = dc_app_lossy_in_force c) by (subst c1; by destruct (negb _)).
  assert (Hna : dc_native_ceiling c1 = dc_native_ceiling c) by (subst c1; by destruct (negb _)).
  assert (Hra : forall v, raster_bound c1 v = raster_bound c v) by (subst c1; by destruct (negb _)).
  assert (Hde : (dc_hevc c1, dc_vp9 c1, dc_av1 c1) = (dc_hevc c, dc_vp9 c, dc_av1 c)) by (subst c1; by destruct (negb _)).
  assert (Hdv : dc_dv_first_picture c1 = dc_dv_first_picture c) by (subst c1; by destruct (negb _)).
  clearbody c1. split.
  - apply quieter_narrower; [|intros v; rewrite <-Hra; done|done|cbn; congruence].
    assert (Hhas : forall x, audio_codec_id x ∉ {[id]} ∪ dc_app_lossy_in_force c1 ->
                     audio_has c1 x = true -> audio_has c x = true).
    { intros x Hx. rewrite !audio_has_spec. intros [H|H]%Haud; [done|].
      destruct Hx. rewrite H. by apply elem_of_union_l, elem_of_singleton. }
    split; cbn; [| |rewrite Hfo; apply union_subseteq_r]; intros x ch Hx Hin H;
      assert (Hxi : id <> audio_codec_id x) by (intros E; apply Hin, elem_of_union_l, elem_of_singleton; done).
    + eapply audio_supports_mono; [| | |exact H]; cbn.
      * by apply Hhas.
      * intros Hh l'. rewrite Hch, lookup_insert_ne by set_solver. intros ->. lia.
      * rewrite Hch, lookup_insert_ne by set_solver. by left.
    + eapply forced_feeds_mono; [| | |exact H]; cbn.
      * by apply Hhas.
      * intros Hd. rewrite Hch, lookup_insert_ne; [done|]. by rewrite <-Hd.
      * rewrite Hna. eauto with lia.
  - destruct Hok as [Hl Hc]. split; cbn; rewrite Hch.
    + intros k l [[<- <-]|[_ H]]%lookup_insert_Some; [lia|eauto].
    + intros x Hx Hneed. destruct (decide (id = x)) as [->|?]; [by rewrite lookup_insert_eq|].
      rewrite lookup_insert_ne by done. apply Haud in Hx as [Hx|Hx]; [eauto|congruence].
Qed.

(** ** Refused tracks *)

(** A row of an install's record, or an attempt's facet, once applied: the codec is not announced,
    or it is held to its ceiling. *)
Definition settled (codec : bytes) (max : Z) (c : Caps) : Prop :=
  audio_has c codec = false
  \/ (0 < max
      /\ (exists l, dc_audio_channels c !! codec = Some l /\ 0 < l <= max)
      /\ exists l, dc_native_ceiling c !! codec = Some l /\ l <= max).

Lemma limit_codec_settles c codec max : caps_ok c -> audio_codec_id codec = codec -> 0 <= max ->
  codec <> [] -> settled codec max (fst (limit_codec c codec max)).
Proof.
  intros Hok Hid Hm Hne. rewrite limit_codec_cases. destruct (audio_has c codec) eqn:Hh; [|by left].
  destruct (Z.eqb_spec max 0).
  - left. apply not_true_iff_false. intros F. apply silenced_has in F as [_ []]; by rewrite ?Hid.
  - right. split; [lia|]. split.
    + exists (ceiling_of c codec max). split; [by apply lookup_insert_eq|].
      apply ceiling_of_bounds; [done|lia].
    + exists (native_of c codec max). split; [by apply lookup_insert_eq|]. apply (proj1 (native_of_bounds c codec max)).
Qed.

(** Once settled, applying the row again changes nothing... *)
Lemma settled_noop c codec max : settled codec max c -> fst (limit_codec c codec max) = c.
Proof.
  intros [H|(Hm & (l & Hl & ?) & n & Hn & ?)]; rewrite limit_codec_cases; [by rewrite H|].
  destruct (audio_has c codec); [|done]. destruct (Z.eqb_spec max 0); [lia|].
  assert (E1 : ceiling_of c codec max = l).
  { unfold ceiling_of. rewrite Hl. bools; lia. }
  assert (E2 : native_of c codec max = n) by (unfold native_of; rewrite Hn; lia).
  unfold held. rewrite E1, E2, (insert_id _ _ _ Hl), (insert_id _ _ _ Hn). by destruct c.
Qed.

(** ...and no other row undoes it. *)
Lemma settled_stays c codec max codec' max' : caps_ok c -> audio_codec_id codec = codec ->
  codec <> [] -> 0 <= max' -> settled codec max c -> settled codec max (fst (limit_codec c codec' max')).
Proof.
  intros Hok Hid Hne Hm' Hs. rewrite limit_codec_cases. destruct (audio_has c codec') eqn:Hh'; [|done].
  destruct (Z.eqb_spec max' 0); destruct (decide (codec' = codec)) as [->|Hx].
  - left. apply not_true_iff_false. intros F. apply silenced_has in F as [_ []]; by rewrite ?Hid.
  - destruct Hs as [Hs|(Hm & H1 & H2)].
    + left. apply not_true_iff_false. intros F. apply silenced_has in F as [F _]; [congruence|by rewrite Hid].
    + right. unfold silenced. cbn. by rewrite lookup_delete_ne.
  - destruct Hs as [Hs|(Hm & (l & Hl & ?) & n' & Hn & ?)]; [congruence|]. right. split; [lia|].
    split; eexists; (split; [by apply lookup_insert_eq|]).
    + destruct (ceiling_of_bounds c codec max' Hok ltac:(lia)) as [? B]. specialize (B _ Hl). lia.
    + destruct (native_of_bounds c codec max') as [? B]. specialize (B _ Hn). lia.
  - destruct Hs as [Hs|(Hm & H1 & H2)]; [by left|]. right. unfold held. cbn. by rewrite !lookup_insert_ne.
Qed.

Lemma settled_not_offered c codec max n : caps_ok c -> settled (audio_codec_id codec) max c ->
  max < n \/ max = 0 -> audio_supports c codec n = false.
Proof.
  intros Hok Hs Hn. unfold audio_supports. destruct Hs as [Hs|(Hm & (l & -> & ?) & _)]; [by rewrite Hs|].
  destruct Hn; [|lia]. apply andb_false_iff. right. apply andb_false_iff. right. lia.
Qed.

(** The rows of the record that count on this build. *)
Lemma minus_settles c rows build r : caps_ok c -> r ∈ rows -> watched_on r build = true ->
  audio_codec_id (rf_codec r) <> [] ->
  settled (audio_codec_id (rf_codec r)) (refusal_ceiling (rf_channels r)) (minus c rows build).
Proof.
  intros Hok Hin Hw Hne. unfold minus.
  assert (Hr : r ∈ List.filter (fun r => watched_on r build) rows).
  { apply list_elem_of_In, filter_In. split; [by apply list_elem_of_In|done]. }
  apply list_elem_of_split in Hr as (before & after & ->). rewrite fold_left_app. cbn [fold_left].
  assert (Hb : caps_ok (fold_left (fun c r => fst (limit_codec c (audio_codec_id (rf_codec r))
                          (refusal_ceiling (rf_channels r)))) before c)).
  { apply fold_left_ind; [done|]. intros c' x _ Hc'.
    apply limit_codec_narrower; [done|apply audio_codec_id_idem|apply refusal_ceiling_nonneg]. }
  apply (fold_left_ind _ (fun c => caps_ok c /\ settled (audio_codec_id (rf_codec r))
           (refusal_ceiling (rf_channels r)) c)).
  - split; [apply limit_codec_narrower|apply limit_codec_settles]; auto using audio_codec_id_idem, refusal_ceiling_nonneg.
  - intros c' x _ [Hc' Hs]. split.
    + apply limit_codec_narrower; [done|apply audio_codec_id_idem|apply refusal_ceiling_nonneg].
    + apply settled_stays; auto using audio_codec_id_idem, refusal_ceiling_nonneg.
Qed.

(** ** The table *)

Lemma min_nz_spec a b : 0 <= a -> 0 <= b ->
  0 <= min_nz a b /\ (0 < b -> 0 < min_nz a b <= b) /\ (0 < a -> 0 < min_nz a b <= a).
Proof. intros. unfold min_nz. bools; simpl; lia. Qed.

Lemma min_nz_comm a b : min_nz a b = min_nz b a.
Proof. unfold min_nz. bools; simpl; lia. Qed.

Lemma min_nz_assoc a b c : min_nz (min_nz a b) c = min_nz a (min_nz b c).
Proof. unfold min_nz. bools; simpl in *; bools; simpl; lia. Qed.

Lemma min_nz_swap a b c : min_nz (min_nz a b) c = min_nz (min_nz a c) b.
Proof. by rewrite min_nz_assoc, (min_nz_comm b c), <-min_nz_assoc. Qed.

(** What a table says is in range. *)
Definition video_row_ok (r : VideoRow) : Prop := is_u32 (vr_max_width r) /\ is_u32 (vr_max_height r).
Definition table_ok (t : Table) : Prop :=
  Forall video_row_ok (tb_video_codecs t) /\ Forall (fun r => is_u32 (ar_channels r)) (tb_audio_codecs t).

(** A bound folded from the rows of a codec is under each of them. *)
Definition under (bound said : Z) : Prop := 0 <= bound /\ (0 < said -> 0 < bound <= said).

Lemma under_min a b s : under a s -> 0 <= b -> under (min_nz a b) s.
Proof. intros [H1 H2] Hb. pose proof (min_nz_spec a b H1 Hb). unfold under. lia. Qed.

Lemma note_video_under d rows : Forall video_row_ok rows -> forall acc,
  0 <= fst (cr_wh acc) -> 0 <= snd (cr_wh acc) ->
  let r := fold_left (note_video d) rows acc in
  0 <= fst (cr_wh r) /\ 0 <= snd (cr_wh r)
  /\ (forall s, under (fst (cr_wh acc)) s -> under (fst (cr_wh r)) s)
  /\ (forall s, under (snd (cr_wh acc)) s -> under (snd (cr_wh r)) s)
  /\ (cr_seen r = true <-> cr_seen acc = true \/ exists row, row ∈ rows /\ decoder_of row = Some d)
  /\ forall row, row ∈ rows -> decoder_of row = Some d ->
       under (fst (cr_wh r)) (vr_max_width row) /\ under (snd (cr_wh r)) (vr_max_height row).
Proof.
  induction 1 as [|row rows [Hw Hh] Hrows IH]; intros acc H1 H2; cbn [fold_left].
  { do 4 (split; [done|]). split; [|by intros row Hrow%elem_of_nil].
    split; [by left|]. by intros [|(row & Hrow%elem_of_nil & _)]. }
  assert (Hstep : exists acc', note_video d acc row = acc' /\ 0 <= fst (cr_wh acc') /\ 0 <= snd (cr_wh acc')
            /\ (forall s, under (fst (cr_wh acc)) s -> under (fst (cr_wh acc')) s)
            /\ (forall s, under (snd (cr_wh acc)) s -> under (snd (cr_wh acc')) s)
            /\ (cr_seen acc' = true <-> cr_seen acc = true \/ decoder_of row = Some d)
            /\ (decoder_of row = Some d -> under (fst (cr_wh acc')) (vr_max_width row)
                  /\ under (snd (cr_wh acc')) (vr_max_height row))).
  { unfold note_video, is_u32 in *. eexists. split; [done|]. case_bool_decide as Hd; [|naive_solver].
    destruct (min_nz_spec (fst (cr_wh acc)) (vr_max_width row)) as (A1 & A2 & _); [lia..|].
    destruct (min_nz_spec (snd (cr_wh acc)) (vr_max_height row)) as (B1 & B2 & _); [lia..|].
    cbn -[min_nz]. do 2 (split; [done|]). split; [intros s Hs; apply under_min; [done|lia]|].
    split; [intros s Hs; apply under_min; [done|lia]|]. split; [tauto|]. intros _. by split; split. }
  destruct Hstep as (acc' & -> & P1 & P2 & Q1 & Q2 & S & A).
  destruct (IH acc' P1 P2) as (R1 & R2 & T1 & T2 & S' & A').
  do 2 (split; [done|]). do 2 (split; [auto|]). split.
  - rewrite S', S. setoid_rewrite elem_of_cons. naive_solver.
  - intros x [->|Hx]%elem_of_cons Hd; [|by apply A']. destruct (A Hd). auto.
Qed.

Lemma video_rows_spec t d : Forall video_row_ok (tb_video_codecs t) ->
  (cr_seen (video_rows t d) = true <-> exists row, row ∈ tb_video_codecs t /\ decoder_of row = Some d)
  /\ 0 <= fst (cr_wh (video_rows t d)) /\ 0 <= snd (cr_wh (video_rows t d))
  /\ forall row, row ∈ tb_video_codecs t -> decoder_of row = Some d ->
       under (fst (cr_wh (video_rows t d))) (vr_max_width row)
       /\ under (snd (cr_wh (video_rows t d))) (vr_max_height row).
Proof.
  intros H. destruct (note_video_under d _ H no_rows) as (? & ? & _ & _ & Hs & Ha); [done..|].
  split; [|done]. unfold video_rows. rewrite Hs. cbn. naive_solver.
Qed.

Lemma table_channels_spec rows : Forall (fun r => is_u32 (ar_channels r)) rows ->
  let m := fold_left note_audio rows ∅ in
  (forall k v, m !! k = Some v -> 0 < v)
  /\ forall row, row ∈ rows -> 0 < ar_channels row ->
       exists v, m !! canon (ar_name row) = Some v /\ v <= ar_channels row.
Proof.
  induction rows as [|r rows IH] using rev_ind; intros Hok; cbn zeta.
  { cbn. split; [intros k v; by rewrite lookup_empty|by intros row ?%elem_of_nil]. }
  apply Forall_app in Hok as [Hok [Hr _]%Forall_cons]. specialize (IH Hok). cbn zeta in IH.
  rewrite fold_left_app. cbn [fold_left]. set (m := fold_left note_audio rows ∅) in *.
  destruct IH as [IH1 IH2]. unfold note_audio, is_u32 in *.
  assert (Hold : 0 <= default 0 (m !! canon (ar_name r))).
  { destruct (m !! canon (ar_name r)) eqn:E; cbn; [|lia]. pose proof (IH1 _ _ E). lia. }
  destruct (Z.ltb_spec 0 (ar_channels r)) as [Hpos|Hzero].
  - destruct (min_nz_spec _ (ar_channels r) Hold ltac:(lia)) as (_ & B & C). specialize (B Hpos). split.
    + intros k v [[<- <-]|[_ H]]%lookup_insert_Some; [lia|eauto].
    + intros row [Hin| ->%list_elem_of_singleton]%elem_of_app Hp.
      * destruct (IH2 row Hin Hp) as (v & Hv & Hle).
        destruct (decide (canon (ar_name r) = canon (ar_name row))) as [E|Hne].
        -- rewrite E in *. rewrite lookup_insert_eq. eexists. split; [done|].
           rewrite Hv in C. cbn in C. pose proof (IH1 _ _ Hv). rewrite Hv. cbn. lia.
        -- rewrite lookup_insert_ne by done. eauto.
      * rewrite lookup_insert_eq. eexists. split; [done|]. lia.
  - split; [done|]. intros row [Hin| ->%list_elem_of_singleton]%elem_of_app Hp; [eauto|lia].
Qed.

Lemma elem_of_filter_bool {A} (p : A -> bool) l x : x ∈ List.filter p l <-> x ∈ l /\ p x = true.
Proof. by rewrite !list_elem_of_In, filter_In. Qed.

(** The names on the announced list, and the map of ceilings behind it. *)
Lemma audio_of_table_spec t audio channels : audio_of_table t = (audio, channels) ->
  let parts := split COMMA audio in
  (forall id, id ∈ parts ->
     id ∈ split COMMA PCM_AUDIO_CODECS \/ id = lit "opus"
     \/ (id ∈ table_audio t) \/ (table_audio t = [] /\ id ∈ split COMMA (dc_audio assumed)))
  /\ (table_audio t = [] -> parts = split COMMA (dc_audio assumed) /\ channels = table_channels t)
  /\ (table_audio t <> [] ->
       (forall id, id ∈ split COMMA PCM_AUDIO_CODECS -> channels !! id = Some PCM_MAX_CHANNELS)
       /\ channels !! lit "opus" = Some (min_nz (default 0 (table_channels t !! lit "opus")) 2)
       /\ forall id, id ∉ split COMMA PCM_AUDIO_CODECS -> id <> lit "opus" ->
            channels !! id = table_channels t !! id).
Proof.
  assert (Epcm : split COMMA PCM_AUDIO_CODECS = [lit "flac"; lit "alac"; lit "pcm"]) by by vm_compute.
  assert (Epipe : pipeline_audio = [lit "opus"]) by by vm_compute.
  assert (Eass : bool_decide (lit "opus" ∈ split COMMA (dc_audio assumed)) = false) by by vm_compute.
  assert (Hplain : Forall (Forall (fun b => b <> COMMA)) (table_audio t)).
  { unfold table_audio. do 3 apply filter_Forall. apply split_no_comma. }
  unfold audio_of_table. destruct (table_audio t) as [|a l] eqn:Et.
  - rewrite Eass. intros [= <- <-]. cbn zeta. split; [|split; [done|done]]. intros id Hid. auto.
  - cbn zeta. rewrite Epcm, Epipe.
    set (J := join COMMA _).
    assert (Hs : split COMMA J
                 = (a :: l) ++ [lit "opus"] ++ [lit "flac"; lit "alac"; lit "pcm"]).
    { subst J. apply split_join; [done|]. apply Forall_app. split; [done|].
      apply Forall_app. split; [|rewrite <-Epcm; apply split_no_comma]. constructor; [|done].
      repeat (constructor; [by vm_compute|]). constructor. }
    clearbody J. rewrite bool_decide_eq_true_2.
    2:{ rewrite Hs. apply elem_of_app. right. by left. }
    intros [= <- <-]. rewrite Hs. split; [|split; [done|intros _]].
    + intros id. rewrite !elem_of_app, !list_elem_of_singleton. tauto.
    + cbn [fold_left]. change PCM_MAX_CHANNELS with 2. split; [|split].
      * intros id. rewrite !elem_of_cons.
        assert (lit "opus" <> lit "flac") by by vm_compute. assert (lit "opus" <> lit "alac") by by vm_compute.
        assert (lit "opus" <> lit "pcm") by by vm_compute. assert (lit "pcm" <> lit "flac") by by vm_compute.
        assert (lit "pcm" <> lit "alac") by by vm_compute. assert (lit "alac" <> lit "flac") by by vm_compute.
        intros [->|[->|[->|[]%elem_of_nil]]]; by simplify_map_eq.
      * rewrite lookup_insert_eq. by rewrite !lookup_insert_ne by by vm_compute.
      * intros id Hp Ho. rewrite !elem_of_cons in Hp.
        assert (id <> lit "flac" /\ id <> lit "alac" /\ id <> lit "pcm") as (? & ? & ?) by tauto.
        by rewrite !lookup_insert_ne by congruence.
Qed.

Lemma audio_of_table_ok t audio channels : table_ok t -> audio_of_table t = (audio, channels) ->
  (forall k l, channels !! k = Some l -> 0 < l)
  /\ forall id, id ∈ split COMMA audio -> needs_count id = true -> is_Some (channels !! id).
Proof.
  intros [_ Ha] E. destruct (table_channels_spec _ Ha) as [Hpos _]. fold (table_channels t) in Hpos.
  destruct (audio_of_table_spec _ _ _ E) as (Hparts & Hnil & Hcons).
  destruct (table_audio t) as [|a l] eqn:Et.
  - destruct (Hnil eq_refl) as [Hp ->]. split; [done|]. intros id. rewrite Hp. intros Hid.
    assert (F : forallb (fun i => negb (needs_count i)) (split COMMA (dc_audio assumed)) = true) by by vm_compute.
    rewrite forallb_forall in F. apply list_elem_of_In, F in Hid. destruct (needs_count id); done.
  - destruct Hcons as (Hpcm & Hopus & Hrest); [done|]. split.
    + intros k v. destruct (decide (k ∈ split COMMA PCM_AUDIO_CODECS)) as [Hk|Hk].
      { rewrite (Hpcm k Hk). intros [= <-]. done. }
      destruct (decide (k = lit "opus")) as [->|Ho]; [|rewrite Hrest by done; apply Hpos].
      rewrite Hopus. intros [= <-].
      assert (0 <= default 0 (table_channels t !! lit "opus")).
      { destruct (table_channels t !! lit "opus") eqn:F; cbn; [|lia]. pose proof (Hpos _ _ F). lia. }
      pose proof (min_nz_spec (default 0 (table_channels t !! lit "opus")) 2). lia.
    + intros id Hid Hneed. destruct (decide (id ∈ split COMMA PCM_AUDIO_CODECS)) as [Hk|Hk].
      { rewrite (Hpcm id Hk). done. }
      destruct (decide (id = lit "opus")) as [->|Ho]; [by rewrite Hopus|].
      rewrite Hrest by done. destruct (Hparts id Hid) as [?|[?|[Hin|[? _]]]]; [done..| |done].
      destruct (decide (id = lit "dts")) as [->|Hd].
      * rewrite <-Et in Hin. unfold table_audio in Hin. apply elem_of_filter_bool in Hin as [_ Hin].
        rewrite bool_decide_eq_true_2 in Hin by done. cbn in Hin.
        destruct (table_channels t !! lit "dts"); [done|by vm_compute in Hin].
      * rewrite <-Et in Hin. unfold table_audio in Hin.
        do 2 apply elem_of_filter_bool in Hin as [Hin _]. apply elem_of_filter_bool in Hin as [Hin _].
        assert (F : forallb (fun i => bool_decide (i = lit "dts") || negb (needs_count i))
                      (split COMMA DP_AUDIO_CODECS) = true) by by vm_compute.
        rewrite forallb_forall in F. apply list_elem_of_In, F in Hin.
        rewrite bool_decide_eq_false_2 in Hin by done. rewrite Hneed in Hin. done.
Qed.

(** The parts of a table that was accepted. *)
Lemma parse_table_inv t c : parse_table t = Some c ->
  cr_seen (video_rows t Dec_H264) = true
  /\ dc_hevc_max c = (min_nz (fst (cr_wh (video_rows t Dec_H264))) (fst (cr_wh (video_rows t Dec_Hevc))),
                      min_nz (snd (cr_wh (video_rows t Dec_H264))) (snd (cr_wh (video_rows t Dec_Hevc))))
  /\ (dc_hevc c, dc_vp9 c, dc_av1 c)
     = (cr_seen (video_rows t Dec_Hevc), cr_seen (video_rows t Dec_Vp9), cr_seen (video_rows t Dec_Av1))
  /\ (dc_vp9_row c, dc_av1_row c) = (row_of (video_rows t Dec_Vp9), row_of (video_rows t Dec_Av1))
  /\ audio_of_table t = (dc_audio c, dc_audio_channels c)
  /\ dc_video_ceiling c = ∅.
Proof.
  unfold parse_table. destruct (tb_video_codecs t) eqn:Ev; [done|].
  destruct (cr_seen (video_rows t Dec_H264)) eqn:Es; cbn [negb]; [|done].
  destruct ((_ =? 0) || (_ =? 0)); [done|].
  destruct (audio_of_table t) as [audio channels]. by intros [= <-].
Qed.

Lemma parse_table_ok t c : table_ok t -> parse_table t = Some c -> caps_ok c.
Proof.
  intros Ht H. destruct (parse_table_inv t c H) as (_ & _ & _ & _ & Ha & _).
  destruct (audio_of_table_ok t _ _ Ht Ha). by split.
Qed.

Lemma raster_under_max c v : dc_video_ceiling c = ∅ ->
  fst (raster_bound c v) <= fst (dc_hevc_max c) /\ snd (raster_bound c v) <= snd (dc_hevc_max c).
Proof.
  intros Hc. unfold raster_bound. rewrite Hc, lookup_empty.
  destruct (dc_hevc_max c), (codec_row c v) as [[w h] f]. cbn. bools; lia.
Qed.

(** A format the app decodes itself is admitted at one or two channels, whatever its rows say: the set is
    fed PCM. *)
Lemma pcm_channels t c codec channels : parse_table t = Some c ->
  audio_supports c codec channels = true -> is_pcm_codec codec = true -> 1 <= channels <= PCM_MAX_CHANNELS.
Proof.
  intros Hp Hs Hpcm. destruct (parse_table_inv t c Hp) as (_ & _ & _ & _ & Haud & _).
  destruct (audio_of_table_spec _ _ _ Haud) as (_ & Hnil & Hcons).
  unfold audio_supports in Hs. apply andb_true_iff in Hs as [Hh Hs]. apply audio_has_spec in Hh.
  rewrite audio_codec_id_idem in Hh. pose proof Hpcm as Hin. apply bool_decide_eq_true in Hin.
  assert (Hneed : needs_count (audio_codec_id codec) = true).
  { unfold needs_count, is_pcm_codec. rewrite audio_codec_id_idem. apply orb_true_iff. right. by apply bool_decide_eq_true. }
  destruct (decide (table_audio t = [])) as [E|E].
  - destruct (Hnil E) as [Hparts _]. rewrite Hparts in Hh. exfalso.
    assert (F : forallb (fun i => negb (bool_decide (i ∈ split COMMA PCM_AUDIO_CODECS))) (split COMMA (dc_audio assumed)) = true)
      by by vm_compute.
    rewrite forallb_forall in F. apply list_elem_of_In, F in Hh. by rewrite bool_decide_eq_true_2 in Hh.
  - destruct (Hcons E) as (Hall & _). rewrite (Hall _ Hin), Hneed in Hs. cbn [negb] in Hs. bools; change PCM_MAX_CHANNELS with 2 in *; lia.
Qed.

(** C36. The table is never exceeded.  Of every row of the H.264 and HEVC decoders the shared bound keeps
    under whatever width and height the row states, and the rows of AV1 and VP9 bound their own
    codec; a decoder is claimed exactly when it has a row.  A codec is announced only when it has an
    audio row, is Opus or one of the formats the app decodes itself, or is on the fallback list of a
    table whose audio names nothing known.  A track is admitted only at no more channels than any row
    of its codec states; the formats the app decodes itself (FLAC, ALAC and PCM) are the exception,
    since the set is fed their PCM: whatever their rows state, they are admitted at one or two. *)
Theorem table_is_never_overclaimed t c :
  table_ok t -> parse_table t = Some c ->
  (forall row, row ∈ tb_video_codecs t ->
     decoder_of row = Some Dec_H264 \/ decoder_of row = Some Dec_Hevc -> forall v,
     (0 < vr_max_width row -> fst (raster_bound c v) <= vr_max_width row)
     /\ (0 < vr_max_height row -> snd (raster_bound c v) <= vr_max_height row))
  /\ (forall row d v, row ∈ tb_video_codecs t -> decoder_of row = Some d ->
     (d, v) = (Dec_Av1, lit "av1") \/ (d, v) = (Dec_Vp9, lit "vp9") ->
     (0 < vr_max_width row -> fst (raster_bound c v) <= vr_max_width row)
     /\ (0 < vr_max_height row -> snd (raster_bound c v) <= vr_max_height row))
  /\ ((dc_hevc c = true <-> exists row, row ∈ tb_video_codecs t /\ decoder_of row = Some Dec_Hevc)
     /\ (dc_vp9 c = true <-> exists row, row ∈ tb_video_codecs t /\ decoder_of row = Some Dec_Vp9)
     /\ (dc_av1 c = true <-> exists row, row ∈ tb_video_codecs t /\ decoder_of row = Some Dec_Av1))
  /\ (forall codec, audio_has c codec = true ->
     let id := audio_codec_id codec in
     (exists row, row ∈ tb_audio_codecs t /\ canon (ar_name row) = id)
     \/ id = lit "opus" \/ is_pcm_codec codec = true
     \/ (table_audio t = [] /\ id ∈ [lit "aac"; lit "ac3"; lit "eac3"]))
  /\ (forall codec channels row, audio_supports c codec channels = true -> is_pcm_codec codec = false ->
       row ∈ tb_audio_codecs t -> canon (ar_name row) = audio_codec_id codec -> 0 < ar_channels row ->
       channels <= ar_channels row)
  /\ forall codec channels, audio_supports c codec channels = true -> is_pcm_codec codec = true ->
       1 <= channels <= PCM_MAX_CHANNELS.
Proof.
  intros Ht Hp. pose proof (fun codec channels => pcm_channels t c codec channels Hp) as Hpcmch.
  destruct (parse_table_inv t c Hp) as (_ & Hmax & Hdec & Hrows & Haud & Hceil).
  destruct Ht as [Hv Ha].
  destruct (video_rows_spec t Dec_H264 Hv) as (_ & A1 & A2 & A3).
  destruct (video_rows_spec t Dec_Hevc Hv) as (Bs & B1 & B2 & B3).
  destruct (video_rows_spec t Dec_Vp9 Hv) as (Cs & C1 & C2 & C3).
  destruct (video_rows_spec t Dec_Av1 Hv) as (Ds & D1 & D2 & D3).
  simplify_eq Hdec. simplify_eq Hrows. intros Hr1 Hr2 E1 E2 E3.
  split; [|split; [|split; [by rewrite E1, E2, E3|split; [|split; [|done]]]]].
  - intros row Hin Hd v. pose proof (raster_under_max c v Hceil) as [R1 R2]. rewrite Hmax in R1, R2.
    cbn [fst snd] in R1, R2.
    destruct (min_nz_spec _ _ A1 B1) as (_ & M1 & M1'). destruct (min_nz_spec _ _ A2 B2) as (_ & M2 & M2').
    destruct Hd as [Hd|Hd]; [destruct (A3 row Hin Hd) as [U1 U2]|destruct (B3 row Hin Hd) as [U1 U2]];
      unfold under in *; lia.
  - intros row d v Hin Hd Hdv. unfold raster_bound, codec_row. rewrite Hceil, lookup_empty.
    destruct (dc_hevc_max c) as [mw mh].
    assert (Hne : lit "vp9" <> lit "av1") by by vm_compute.
    destruct Hdv as [Hdv|Hdv]; injection Hdv as -> ->.
    + destruct (D3 row Hin Hd) as [U1 U2]. rewrite bool_decide_eq_true_2, Hr2 by done.
      unfold row_of, under in *. cbn. bools; lia.
    + destruct (C3 row Hin Hd) as [U1 U2]. rewrite bool_decide_eq_false_2, bool_decide_eq_true_2, Hr1 by done.
      unfold row_of, under in *. cbn. bools; lia.
  - intros codec Hh. apply audio_has_spec in Hh. cbn zeta.
    destruct (audio_of_table_spec _ _ _ Haud) as (Hparts & _ & _).
    destruct (Hparts _ Hh) as [?|[?|[Hin|[? Hin]]]].
    + right. right. left. by apply bool_decide_eq_true.
    + auto.
    + left. unfold table_audio in Hin. apply elem_of_filter_bool in Hin as [Hin _].
      apply elem_of_filter_bool in Hin as [_ Hin]. apply existsb_exists in Hin as (row & Hrow & Hrc).
      exists row. split; [by apply list_elem_of_In|]. by apply bool_decide_eq_true in Hrc.
    + right. right. right. split; [done|]. exact Hin.
  - intros codec ch row Hs Hpcm Hin Hc Hpos. unfold audio_supports in Hs.
    apply andb_true_iff in Hs as [_ Hs].
    destruct (table_channels_spec _ Ha) as [Hall Hrow]. fold (table_channels t) in Hall, Hrow.
    destruct (Hrow row Hin Hpos) as (v & Hvk & Hle). rewrite Hc in Hvk.
    apply bool_decide_eq_false in Hpcm.
    assert (Hkey : exists v', dc_audio_channels c !! audio_codec_id codec = Some v' /\ v' <= v).
    { destruct (audio_of_table_spec _ _ _ Haud) as (_ & Hnil & Hcons).
      destruct (decide (table_audio t = [])) as [E|E]; [destruct (Hnil E) as [_ ->]; eauto with lia|].
      destruct (Hcons E) as (_ & Hopus & Hrest).
      destruct (decide (audio_codec_id codec = lit "opus")) as [Eo|Eo]; [|rewrite Hrest by done; eauto with lia].
      rewrite Eo in *. rewrite Hopus, Hvk. eexists. split; [done|]. cbn.
      pose proof (Hall _ _ Hvk). pose proof (min_nz_spec v 2). lia. }
    destruct Hkey as (v' & Hk & ?). rewrite Hk in Hs. apply andb_true_iff in Hs as [_ Hs]. lia.
Qed.

(** ** The order of the rows *)

Lemma note_video_swap d acc r1 r2 :
  note_video d (note_video d acc r1) r2 = note_video d (note_video d acc r2) r1.
Proof.
  unfold note_video. repeat case_bool_decide; try done. unfold note_row. cbn -[min_nz].
  by rewrite (min_nz_swap (fst (cr_wh acc))), (min_nz_swap (snd (cr_wh acc))), (min_nz_swap (cr_fps acc)).
Qed.

Lemma note_audio_swap m r1 r2 : note_audio (note_audio m r1) r2 = note_audio (note_audio m r2) r1.
Proof.
  unfold note_audio. destruct (0 <? ar_channels r1), (0 <? ar_channels r2); try done.
  destruct (decide (canon (ar_name r1) = canon (ar_name r2))) as [<-|Hne].
  - rewrite !lookup_insert_eq, !insert_insert_eq. cbn. by rewrite min_nz_swap.
  - rewrite !lookup_insert_ne by done. by apply insert_insert_ne.
Qed.

Lemma existsb_perm {A} (p : A -> bool) l l' : l ≡ₚ l' -> existsb p l = existsb p l'.
Proof.
  induction 1; simpl; [done|congruence| |congruence]. rewrite !orb_assoc. f_equal. apply orb_comm.
Qed.

(** A table says the same whatever the order its rows are written in: the rows of one decoder are
    merged by the smallest bound each axis states. *)
Theorem table_order_is_irrelevant t t' :
  tb_video_codecs t ≡ₚ tb_video_codecs t' -> tb_audio_codecs t ≡ₚ tb_audio_codecs t' ->
  parse_table t = parse_table t'.
Proof.
  intros Hv Ha.
  assert (Er : forall d, video_rows t d = video_rows t' d).
  { intros d. apply fold_left_perm; [intros; apply note_video_swap|done]. }
  assert (Ec : table_channels t = table_channels t').
  { apply fold_left_perm; [intros; apply note_audio_swap|done]. }
  assert (Et : table_audio t = table_audio t').
  { unfold table_audio. rewrite Ec. f_equal. apply List.filter_ext. intros c. by apply existsb_perm. }
  unfold parse_table, audio_of_table. rewrite Et, Ec, !Er.
  destruct (tb_video_codecs t), (tb_video_codecs t'); try done;
    [by apply Permutation_nil_l in Hv|by apply Permutation_nil_r in Hv].
Qed.

(** Nothing but the table adds a claim.  The firmware's exclusions, its decoder ranks, the refusals
    of the install, the facets an attempt does without, and the app's own decode of a codec, each
    give a value that plays natively no track and admits no raster that the value before did not;
    and they can be applied in any number. *)
Theorem narrowing_takes_away c :
  caps_ok c ->
  (forall codename ignore, narrows c (fst (apply_exclusions c codename ignore EXCLUSIONS)))
  /\ (forall conf, narrows c (fst (fst (apply_gst_decoders c conf))))
  /\ (forall rows build, narrows c (minus c rows build))
  /\ (forall facet, narrows c (without c facet))
  /\ (forall codec, narrows c (with_app_lossy_for c codec)).
Proof.
  intros Hok. split; [|split; [|split; [|split]]]; intros.
  - apply apply_exclusions_narrows; [done|apply EXCLUSIONS_ok].
  - by apply apply_gst_decoders_narrows.
  - by apply minus_narrows.
  - by apply without_narrows.
  - by apply with_app_lossy_for_narrows.
Qed.

(** A play starts on the boot value less the refusals of this firmware build.  No track a refusal
    of this build names is admitted by the planner: a stereo refusal takes the codec off, a wider
    one holds it to stereo; refusals of another build change nothing, and applying the record again
    changes nothing. *)
Theorem refusals_hold_from_the_next_start b stored :
  caps_ok (bt_caps b) -> Forall (fun r => audio_codec_id (rf_codec r) <> []) stored ->
  let c := start_caps (Some b) stored in
  narrows (bt_caps b) c
  /\ (bt_learns b = true -> bt_forget b = false -> forall r codec channels,
        r ∈ stored -> watched_on r (bt_build b) = true ->
        audio_codec_id codec = audio_codec_id (rf_codec r) ->
        rf_channels r <= 2 \/ 2 < channels -> audio_supports c codec channels = false)
  /\ (Forall (fun r => watched_on r (bt_build b) = false) stored -> c = bt_caps b)
  /\ minus c stored (bt_build b) = minus (bt_caps b) stored (bt_build b)
  /\ (bt_learns b && negb (bt_forget b) = false -> c = bt_caps b).
Proof.
  intros Hok Hne. cbn zeta.
  assert (Ec : start_caps (Some b) stored
               = if bt_learns b && negb (bt_forget b) then minus (bt_caps b) stored (bt_build b) else bt_caps b).
  { unfold start_caps, caps. cbn [from_option]. destruct stored as [|r rs].
    - destruct (_ && _); [|done]. by destruct (bt_build b).
    - destruct (_ && _); cbn [negb]; [|done]. by case_bool_decide. }
  rewrite Ec. pose proof (minus_narrows (bt_caps b) stored (bt_build b) Hok) as Hn.
  assert (Hnone : Forall (fun r => watched_on r (bt_build b) = false) stored ->
                  minus (bt_caps b) stored (bt_build b) = bt_caps b).
  { intros F. unfold minus. replace (List.filter _ stored) with (@nil Refusal); [done|].
    clear -F. induction F as [|r rs Hr _ IH]; cbn; [done|]. by rewrite Hr, <-IH. }
  assert (Hidem : minus (minus (bt_caps b) stored (bt_build b)) stored (bt_build b)
                  = minus (bt_caps b) stored (bt_build b)).
  { unfold minus at 1.
    apply (fold_left_ind _ (fun c => c = minus (bt_caps b) stored (bt_build b))); [done|].
    intros c r Hin ->. apply elem_of_filter_bool in Hin as [Hin Hw]. apply settled_noop.
    rewrite Forall_forall in Hne. by apply minus_settles; auto. }
  split; [destruct (_ && _); [done|by apply narrows_refl]|].
  split; [intros Hl Hf r codec ch Hin Hw Hid Hch|].
  - rewrite Hl, Hf. cbn [negb andb].
    eapply settled_not_offered; [apply Hn| |].
    + rewrite Hid. apply minus_settles; auto. rewrite Forall_forall in Hne. by apply Hne.
    + unfold refusal_ceiling. bools; lia.
  - split; [intros F; rewrite Hnone by done; by destruct (_ && _)|]. split; [|by intros ->].
    destruct (_ && _); [exact Hidem|done].
Qed.

(** ** The boot value *)

Lemma assumed_ok : caps_ok assumed.
Proof.
  split; [intros k l; cbn; by rewrite lookup_empty|].
  assert (F : forallb (fun i => negb (needs_count i)) (split COMMA (dc_audio assumed)) = true) by by vm_compute.
  rewrite forallb_forall in F. intros id Hid%list_elem_of_In%F. by destruct (needs_count id).
Qed.

Lemma with_app_lossy_ok c : caps_ok c -> caps_ok (with_app_lossy c).
Proof.
  intros Hok. unfold with_app_lossy. apply fold_left_ind; [by destruct Hok|].
  intros c' r _ Hc. by apply with_app_lossy_for_narrows.
Qed.

(** Whatever files a set has, the boot value is well formed, and so is every start of a play. *)
Lemma probe_ok `{TableCodec} s stored :
  (forall text t, read_table text = Some t -> table_ok t) ->
  caps_ok (bt_caps (probe s)) /\ caps_ok (start_caps (Some (probe s)) stored).
Proof.
  intros Hread.
  assert (Hp : caps_ok (probed_caps s)).
  { unfold probed_caps. destruct (st_table s ≫= parse) as [c|] eqn:E; [|apply assumed_ok].
    apply bind_Some in E as (text & _ & E). unfold parse in E. apply bind_Some in E as (t & Ht & E).
    pose proof (parse_table_ok t c (Hread _ _ Ht) E) as Hc.
    assert (Hc' : caps_ok (c <| dc_vp9_bit_depth := vp9_bit_depth_for (st_major s) |>)) by by destruct Hc.
    destruct (st_gst_conf s); [by apply apply_gst_decoders_narrows|done]. }
  assert (Hb : caps_ok (bt_caps (probe s))).
  { unfold probe, boot_new. cbn [bt_caps].
    pose proof (apply_exclusions_narrows _ (st_codename s) (st_wide s) EXCLUSIONS Hp EXCLUSIONS_ok) as [_ He].
    set (c := fst _) in *. clearbody c.
    assert (Hl : caps_ok (if st_appdecodelossy s then with_app_lossy c else c))
      by (destruct (st_appdecodelossy s); [by apply with_app_lossy_ok|done]).
    set (c' := if st_appdecodelossy s then _ else _) in *. clearbody c'.
    destruct (st_dvfirstpicture s); [|done]. repeat case_bool_decide; by destruct Hl. }
  split; [done|]. unfold start_caps, caps. cbn [from_option]. destruct stored; [done|].
  destruct (negb _); [done|]. case_bool_decide; [done|]. by apply minus_narrows.
Qed.
