(* ===== verification/Recovery.v ===== *)
(** * The failed-open recovery ladder

    [media/src/player/recovery.rs]: what a play request does when the pipeline, or the source, fails
    it before the first picture.  [step] is the one writer of [OpenRecovery]; it answers whether the
    event was handled, and leaves effects the driver carries out.  The capability value it narrows
    is that of [Devcaps]. *)

From Stdlib Require Import String.
From stdpp Require Import gmap.
From S2P Require Import Prelude Bytes Devcaps.

#[local] Open Scope Z_scope.

(** ** Data *)

Definition MAX_RECOVERY_FLIGHTS : Z := 2.

Inductive LoadRefusal :=
  | Refused_num (num : Z)
  | TimedOut
  | Stalled
  | SourceFailed.
#[export] Instance LoadRefusal_eq_dec : EqDecision LoadRefusal.
Proof. solve_decision. Defined.

Definition is_numbered (r : LoadRefusal) : bool := match r with Refused_num _ => true | _ => false end.

Definition names_pipeline (r : LoadRefusal) : bool :=
  match r with Refused_num _ | Stalled => true | _ => false end.

Definition reports (r : LoadRefusal) : bool := match r with SourceFailed => false | _ => true end.

Record StreamAudio := mk_stream_audio {
  sa_codec : bytes;
  sa_channels : Z;
  sa_app_decoded_lossy : bool
}.

Inductive Lane := Lane_DirectPlay | Lane_Copy | Lane_Transcode | Lane_Unstated.
#[export] Instance Lane_eq_dec : EqDecision Lane.
Proof. solve_decision. Defined.

Definition lane_of (wire : bytes) : Lane :=
  if bool_decide (wire = lit "directplay") then Lane_DirectPlay
  else if bool_decide (wire = lit "copy") then Lane_Copy
  else if bool_decide (wire = lit "transcode") then Lane_Transcode
  else Lane_Unstated.

Record Lanes := mk_lanes { ln_video : Lane; ln_audio : Lane }.

Definition proves (facet : Facet) (lanes : option Lanes) : bool :=
  match lanes with
  | None => false
  | Some l =>
      match facet with
      | Facet_Audio _ _ =>
          bool_decide (ln_audio l = Lane_Transcode)
          && bool_decide (ln_video l ∈ [Lane_Copy; Lane_DirectPlay])
      | Facet_Video _ _ _ => false
      end
  end.

Record StreamVideo := mk_stream_video { sv_codec : bytes; sv_width : Z; sv_height : Z }.

(** ** Suspects *)

(** [option.filter]. *)
Definition keep {A} (p : A -> bool) (o : option A) : option A :=
  match o with Some a => if p a then Some a else None | None => None end.

Definition suspect_audio (audio : option StreamAudio) : option Facet :=
  match keep (fun a => negb (sa_app_decoded_lossy a)) audio with
  | None => None
  | Some a =>
      let id := audio_codec_id (sa_codec a) in
      if bool_decide (id ∈ [lit "aac"; lit "ac3"; lit "eac3"]) then None
      else Some (Facet_Audio id (sa_channels a))
  end.

Definition suspect_video (video : option StreamVideo) : option Facet :=
  match keep (fun v => (0 <? sv_width v) && (0 <? sv_height v)) video with
  | None => None
  | Some v => Some (Facet_Video (to_ascii_lowercase (sv_codec v)) (sv_width v) (sv_height v))
  end.

Definition suspect (audio : option StreamAudio) (video : option StreamVideo) : option Facet :=
  or_else (suspect_audio audio) (suspect_video video).

Record OpenFacts := mk_facts {
  of_pending_original : bool;
  of_auto_original : bool;
  of_no_frames : bool;
  of_native_audio : option Facet;
  of_forced : bool;
  of_direct : bool;
  of_audio : option StreamAudio;
  of_video : option StreamVideo
}.

Inductive RecoveryEvent :=
  | Refused (refusal : LoadRefusal) (facts : OpenFacts)
  | FlightLanded (lanes : option Lanes)
  | FlightRefused
  | FirstPicture
  | LoadStarted.

Inductive Evidence := Named | Proof_.
#[export] Instance Evidence_eq_dec : EqDecision Evidence.
Proof. solve_decision. Defined.

Inductive Rung := Rung_Rollback | Rung_Facet | Rung_Both | Rung_Encode.
#[export] Instance Rung_eq_dec : EqDecision Rung.
Proof. solve_decision. Defined.

Record Recovered := mk_recovered {
  rc_rung : Rung;
  rc_refusal : LoadRefusal;
  rc_facet : option Facet
}.

Inductive RecoveryEffect :=
  | ConfirmRefusal (facet : Facet) (evidence : Evidence)
  | Rollback
  | ConvertFacet (facet : Facet) (flight : Z)
  | ConvertBoth (flight : Z)
  | StartAutoHls
  | DecodeInApp (audio : Facet) (refusal : LoadRefusal)
  | NameRefusedAudio (codec : bytes)
  | ShowError (refusal : LoadRefusal)
  | ReportRecovered (r : Recovered).

Inductive State :=
  | Opening
  | Proving (facet : Facet) (loaded : bool)
  | Flight (rung : Rung) (cause : LoadRefusal) (facts : OpenFacts)
  | Playing
  | Failed.

Record Excluded := mk_excluded { xc_audio : option Facet; xc_video : option Facet }.
#[export] Instance Excluded_eta : Eta Excluded := fun r => mk_excluded (xc_audio r) (xc_video r).

Definition excluded_take (x : Excluded) (facet : Facet) : Excluded :=
  match facet with
  | Facet_Audio _ _ => x <| xc_audio := Some facet |>
  | Facet_Video _ _ _ => x <| xc_video := Some facet |>
  end.

Definition excluded_iter (x : Excluded) : list Facet := option_list (xc_audio x) ++ option_list (xc_video x).

Record OpenRecovery := mk_recovery {
  or_start : Caps;
  or_attempt : Caps;
  or_excluded : Excluded;
  or_flights : Z;
  or_pictured : bool;
  or_in_app : option bytes;
  or_unprovable : bool;
  or_refused : option (LoadRefusal * option Facet);
  or_rescue : option Rung;
  or_reported : bool;
  or_state : State
}.
#[export] Instance OpenRecovery_eta : Eta OpenRecovery := fun r =>
  mk_recovery (or_start r) (or_attempt r) (or_excluded r) (or_flights r) (or_pictured r) (or_in_app r)
    (or_unprovable r) (or_refused r) (or_rescue r) (or_reported r) (or_state r).

(** ** The attempt *)

Definition attempt_for (start : Caps) (excluded : Excluded) (in_app : option bytes) : Caps :=
  let narrowed := fold_left without (excluded_iter excluded) start in
  match in_app with Some codec => with_app_lossy_for narrowed codec | None => narrowed end.

Definition recovery_new (start : Caps) : OpenRecovery :=
  mk_recovery start start (mk_excluded None None) 0 false None false None None false Opening.

Definition narrow (m : OpenRecovery) : OpenRecovery :=
  m <| or_attempt := attempt_for (or_start m) (or_excluded m) (or_in_app m) |>.

(** [caps.without(facet) != caps]. *)
Definition changes (c : Caps) (facet : Facet) : bool := negb (bool_decide (without c facet = c)).

(** ** The rungs: each answers the machine and what it asked for, when it is available *)

Definition app_decode_for (m : OpenRecovery) (refusal : LoadRefusal) (facts : OpenFacts) : option Facet :=
  match keep (fun a => negb (sa_app_decoded_lossy a)) (of_audio facts) with
  | None => None
  | Some audio =>
      let id := audio_codec_id (sa_codec audio) in
      if negb (is_some (or_in_app m)) && names_pipeline refusal && of_no_frames facts && of_direct facts
         && app_may_decode_lossy (or_start m) id
         && app_may_mix_down (or_start m) (sa_channels audio) (of_forced facts)
      then Some (Facet_Audio id (sa_channels audio)) else None
  end.

Definition try_app_decode (m : OpenRecovery) (refusal : LoadRefusal) (facts : OpenFacts)
  : option (OpenRecovery * list RecoveryEffect) :=
  match app_decode_for m refusal facts with
  | None => None
  | Some audio =>
      let m := match audio with Facet_Audio codec _ => m <| or_in_app := Some codec |> | _ => m end in
      let m := m <| or_excluded := (or_excluded m) <| xc_video := None |> |> in
      Some (narrow m <| or_state := Opening |> <| or_rescue := None |>, [DecodeInApp audio refusal])
  end.

(** The failure read-out. *)
Definition read_out (m : OpenRecovery) (refusal : LoadRefusal) : OpenRecovery * list RecoveryEffect :=
  (m <| or_state := Failed |> <| or_rescue := None |>, [ShowError refusal]).

Definition app_decode_or_error (m : OpenRecovery) (refusal : LoadRefusal) (facts : OpenFacts)
  : OpenRecovery * list RecoveryEffect :=
  match try_app_decode m refusal facts with Some r => r | None => read_out m refusal end.

(** A flight leaves: the state, the rung the open will rest on. *)
Definition take_off (m : OpenRecovery) (rung : Rung) (refusal : LoadRefusal) (facts : OpenFacts)
  : OpenRecovery :=
  m <| or_state := Flight rung refusal facts |> <| or_rescue := Some rung |>.

Definition try_convert_both (m : OpenRecovery) (refusal : LoadRefusal) (facts : OpenFacts)
  : option (OpenRecovery * list RecoveryEffect) :=
  if of_auto_original facts || negb (of_no_frames facts) || negb (names_pipeline refusal)
     || (MAX_RECOVERY_FLIGHTS <=? or_flights m)
  then None
  else
    let audio := keep (changes (or_attempt m)) (suspect_audio (of_audio facts)) in
    let video :=
      keep (changes (or_attempt m)) (if is_numbered refusal then suspect_video (of_video facts) else None) in
    let new_video := is_some (suspect_video (of_video facts)) && negb (is_some (xc_video (or_excluded m))) in
    if negb new_video && negb (is_some audio) then None
    else
      let excluded := fold_left excluded_take (option_list audio ++ option_list video) (or_excluded m) in
      let m := narrow (m <| or_excluded := excluded |>) in
      let m := m <| or_flights := or_flights m + 1 |> in
      Some (take_off m Rung_Encode refusal facts, [ConvertBoth (or_flights m)]).

Definition refusal_attributable_to_audio (m : OpenRecovery) (refusal : LoadRefusal) (facts : OpenFacts)
  : option bytes :=
  if negb (names_pipeline refusal) || negb (of_no_frames facts) then None
  else
    match suspect_audio (of_audio facts), of_audio facts with
    | Some _, Some a =>
        let set_plays_it := native_audio_track (or_attempt m) (sa_codec a) (sa_channels a) 0 true in
        let video_may_be_it :=
          is_numbered refusal
          && match suspect_video (of_video facts) with Some f => changes (or_attempt m) f | None => false end in
        if negb (is_pcm_codec (sa_codec a)) && negb set_plays_it && negb video_may_be_it
        then Some (sa_codec a) else None
    | _, _ => None
    end.

Definition note_refusal (m : OpenRecovery) (refusal : LoadRefusal) (facts : OpenFacts) : OpenRecovery :=
  if is_some (or_refused m) || negb (reports refusal) then m
  else
    let facet :=
      if names_pipeline refusal
      then or_else (of_native_audio facts)
             (suspect (of_audio facts) (if is_numbered refusal then of_video facts else None))
      else None in
    m <| or_refused := Some (refusal, facet) |>.

(** ** The ladder *)

(** The rungs after the facet rung was passed over. *)
Definition decide_after_facet (m : OpenRecovery) (refusal : LoadRefusal) (facts : OpenFacts)
  : OpenRecovery * list RecoveryEffect :=
  if of_auto_original facts && of_no_frames facts && (or_flights m <? MAX_RECOVERY_FLIGHTS) then
    let audio := if names_pipeline refusal then suspect_audio (of_audio facts) else None in
    let video := if is_numbered refusal then suspect_video (of_video facts) else None in
    let named := List.filter (changes (or_start m)) (option_list audio ++ option_list video) in
    let m := narrow (m <| or_excluded := fold_left excluded_take named (or_excluded m) |>) in
    let m := m <| or_flights := or_flights m + 1 |> in
    (take_off m Rung_Both refusal facts, [StartAutoHls])
  else
    let mixes_down :=
      match of_audio facts with Some a => app_decode_mixes_down (sa_channels a) | None => false end in
    let decode := try_app_decode m refusal facts in
    match (if negb mixes_down then decode else None) with
    | Some r => r
    | None =>
        match try_convert_both m refusal facts with
        | Some r => r
        | None =>
            match (if mixes_down then decode else None) with
            | Some r => r
            | None => read_out m refusal
            end
        end
    end.

(** The facet this refusal lets the facet rung convert. *)
Definition facet_to_convert (m : OpenRecovery) (refusal : LoadRefusal) (facts : OpenFacts) : option Facet :=
  if names_pipeline refusal && of_no_frames facts && (or_flights m =? 0) then
    keep (changes (or_start m))
      (suspect (of_audio facts)
         (keep (fun _ => negb (of_auto_original facts) && is_numbered refusal) (of_video facts)))
  else None.

Definition decide (m : OpenRecovery) (refusal : LoadRefusal) (facts : OpenFacts)
  : OpenRecovery * list RecoveryEffect :=
  let m := note_refusal m refusal facts in
  if of_pending_original facts then
    let m :=
      match keep (changes (or_start m)) (of_native_audio facts) with
      | Some facet => narrow (m <| or_excluded := (or_excluded m) <| xc_audio := Some facet |> |>)
      | None => m
      end in
    (take_off m Rung_Rollback refusal facts, [Rollback])
  else if of_forced facts then
    match try_app_decode m refusal facts with
    | Some r => r
    | None =>
        let said := refusal_attributable_to_audio m refusal facts in
        let '(m, fx) := read_out m refusal in
        (m, (NameRefusedAudio <$> option_list said) ++ fx)
    end
  else
    match facet_to_convert m refusal facts with
    | Some facet =>
        let m := m <| or_unprovable :=
                   or_unprovable m
                   || match of_audio facts with Some a => sa_app_decoded_lossy a | None => false end |> in
        let m := narrow (m <| or_excluded := excluded_take (or_excluded m) facet |>) in
        let m := m <| or_flights := or_flights m + 1 |> in
        (take_off m Rung_Facet refusal facts, [ConvertFacet facet (or_flights m)])
    | None => decide_after_facet m refusal facts
    end.

Definition report_rescue (m : OpenRecovery) : OpenRecovery * list RecoveryEffect :=
  let rung := or_rescue m in
  let m := m <| or_rescue := None |> in
  if or_reported m then (m, [])
  else
    match rung, or_refused m with
    | Some rung, Some (refusal, facet) =>
        (m <| or_reported := true |>, [ReportRecovered (mk_recovered rung refusal facet)])
    | _, _ => (m, [])
    end.

(** The picture of an open. *)
Definition pictured (m : OpenRecovery) : OpenRecovery * list RecoveryEffect :=
  report_rescue (m <| or_pictured := true |> <| or_state := Playing |>).

(** [None]: not handled, and nothing changed. *)
Definition step (m : OpenRecovery) (ev : RecoveryEvent) : option (OpenRecovery * list RecoveryEffect) :=
  match ev with
  | Refused refusal facts =>
      match or_state m with
      | Opening | Proving _ _ | Playing =>
          let named := (fun f => ConfirmRefusal f Named) <$> option_list (of_native_audio facts) in
          let '(m, fx) := decide m refusal facts in
          Some (m, named ++ fx)
      | _ => None
      end
  | FlightLanded lanes =>
      match or_state m with
      | Flight rung _ _ =>
          let proven :=
            if bool_decide (rung = Rung_Facet) && negb (or_pictured m) && negb (or_unprovable m)
            then List.find (fun f => proves f lanes) (excluded_iter (or_excluded m)) else None in
          Some (m <| or_state := match proven with Some facet => Proving facet false | None => Opening end |>, [])
      | _ => None
      end
  | FlightRefused =>
      match or_state m with
      | Flight rung cause facts =>
          Some match rung with
               | Rung_Facet => decide m cause facts
               | Rung_Both | Rung_Encode => app_decode_or_error m cause facts
               | Rung_Rollback => read_out m cause
               end
      | _ => None
      end
  | FirstPicture =>
      match or_state m with
      | Opening => Some (pictured m)
      | Proving facet _ =>
          let '(m, fx) := pictured m in Some (m, ConfirmRefusal facet Proof_ :: fx)
      | _ => None
      end
  | LoadStarted =>
      match or_state m with
      | Proving facet false => Some (m <| or_state := Proving facet true |>, [])
      | Proving _ true => Some (m <| or_state := Opening |>, [])
      | Flight _ _ _ | Failed => Some (m <| or_rescue := None |> <| or_state := Opening |>, [])
      | Opening | Playing => None
      end
  end.
