(* ===== verification/RecoveryTraces.v ===== *)
(** * What the recovery ladder guarantees

    Histories of [Recovery.step]: what every failure is answered with, how often each rung can be
    taken, what the attempt claims, what a proof rests on, what is reported. *)

From Stdlib Require Import String.
From stdpp Require Import gmap.
From S2P Require Import Prelude Bytes Devcaps CapsClaims Recovery.

#[local] Open Scope Z_scope.
#[local] Arguments lit : simpl never.

(** ** Histories *)

(** One event, handled or not. *)
Definition next (m : OpenRecovery) (ev : RecoveryEvent) : OpenRecovery * list RecoveryEffect :=
  default (m, []) (step m ev).

Fixpoint run (m : OpenRecovery) (evs : list RecoveryEvent) : OpenRecovery * list RecoveryEffect :=
  match evs with
  | [] => (m, [])
  | ev :: evs =>
      let '(m, fx) := next m ev in
      let '(m, fx') := run m evs in (m, fx ++ fx')
  end.

Lemma run_app m a b :
  run m (a ++ b) = ((run (run m a).1 b).1, (run m a).2 ++ (run (run m a).1 b).2).
Proof.
  revert m. induction a as [|ev a IH]; intros m; cbn [run app fst snd]; [by destruct (run m b)|].
  destruct (next m ev) as [m' fx]. rewrite IH. destruct (run m' a) as [m1 fx1]. cbn [fst snd].
  destruct (run m1 b) as [m2 fx2]. cbn. by rewrite app_assoc.
Qed.

Lemma run_snoc m a ev :
  run m (a ++ [ev]) = ((next (run m a).1 ev).1, (run m a).2 ++ (next (run m a).1 ev).2).
Proof.
  rewrite run_app. cbn [run]. destruct (next (run m a).1 ev) as [m' fx]. cbn. by rewrite app_nil_r.
Qed.

(** An invariant of every step is one of every history. *)
Lemma run_ind (P : OpenRecovery -> list RecoveryEvent -> list RecoveryEffect -> Prop) m :
  P m [] [] ->
  (forall evs ev m1 fx1 m2 fx2, run m evs = (m1, fx1) -> P m1 evs fx1 -> next m1 ev = (m2, fx2) ->
     P m2 (evs ++ [ev]) (fx1 ++ fx2)) ->
  forall evs, P (run m evs).1 evs (run m evs).2.
Proof.
  intros H0 Hs evs. induction evs as [|ev evs IH] using rev_ind; [done|].
  rewrite run_snoc. cbn [fst snd]. destruct (run m evs) as [m1 fx1] eqn:E. cbn [fst snd] in *.
  destruct (next m1 ev) as [m2 fx2] eqn:E2. by apply (Hs evs ev m1 fx1).
Qed.

(** ** What the ladder answers a failure with *)

(** The fields no rung writes, and how the attempt is derived. *)
Record kept (m m' : OpenRecovery) : Prop := mk_kept {
  kp_start : or_start m' = or_start m;
  kp_pictured : or_pictured m' = or_pictured m;
  kp_reported : or_reported m' = or_reported m;
  kp_attempt : or_attempt m = attempt_for (or_start m) (or_excluded m) (or_in_app m) ->
    or_attempt m' = attempt_for (or_start m') (or_excluded m') (or_in_app m')
}.

(** One answer of the ladder to [refusal], with the state it leaves. *)
Inductive answer (m : OpenRecovery) (refusal : LoadRefusal) (facts : OpenFacts) (m' : OpenRecovery)
  : list RecoveryEffect -> Prop :=
  | Answer_Rollback :
      of_pending_original facts = true ->
      or_state m' = Flight Rung_Rollback refusal facts -> or_rescue m' = Some Rung_Rollback ->
      or_flights m' = or_flights m -> or_in_app m' = or_in_app m ->
      answer m refusal facts m' [Rollback]
  | Answer_ConvertFacet facet :
      of_forced facts = false -> names_pipeline refusal = true -> of_no_frames facts = true ->
      or_flights m = 0 -> changes (or_start m) facet = true ->
      or_state m' = Flight Rung_Facet refusal facts -> or_rescue m' = Some Rung_Facet ->
      or_flights m' = 1 -> or_in_app m' = or_in_app m ->
      answer m refusal facts m' [ConvertFacet facet 1]
  | Answer_StartAutoHls :
      of_forced facts = false -> of_no_frames facts = true -> of_auto_original facts = true ->
      or_flights m < MAX_RECOVERY_FLIGHTS ->
      or_state m' = Flight Rung_Both refusal facts -> or_rescue m' = Some Rung_Both ->
      or_flights m' = or_flights m + 1 -> or_in_app m' = or_in_app m ->
      answer m refusal facts m' [StartAutoHls]
  | Answer_ConvertBoth :
      of_forced facts = false -> names_pipeline refusal = true -> of_no_frames facts = true ->
      of_auto_original facts = false -> or_flights m < MAX_RECOVERY_FLIGHTS ->
      or_state m' = Flight Rung_Encode refusal facts -> or_rescue m' = Some Rung_Encode ->
      or_flights m' = or_flights m + 1 -> or_in_app m' = or_in_app m ->
      answer m refusal facts m' [ConvertBoth (or_flights m')]
  | Answer_DecodeInApp codec channels :
      names_pipeline refusal = true -> of_no_frames facts = true -> of_direct facts = true ->
      or_in_app m = None -> app_may_decode_lossy (or_start m) codec = true ->
      app_may_mix_down (or_start m) channels (of_forced facts) = true ->
      or_state m' = Opening -> or_rescue m' = None ->
      or_flights m' = or_flights m -> or_in_app m' = Some codec ->
      answer m refusal facts m' [DecodeInApp (Facet_Audio codec channels) refusal]
  | Answer_ShowError said :
      or_state m' = Failed -> or_rescue m' = None ->
      or_flights m' = or_flights m -> or_in_app m' = or_in_app m ->
      answer m refusal facts m' ((NameRefusedAudio <$> option_list said) ++ [ShowError refusal]).

(** The rungs one by one. *)
Lemma try_app_decode_spec m refusal facts m' fx :
  try_app_decode m refusal facts = Some (m', fx) ->
  kept m m' /\ or_refused m' = or_refused m /\ answer m refusal facts m' fx.
Proof.
  unfold try_app_decode, app_decode_for. destruct (keep _ (of_audio facts)) as [a|]; [|done].
  destruct (_ && _) eqn:E; [|done]. intros [= <- <-].
  rewrite !andb_true_iff, negb_true_iff in E. destruct E as (((((E1 & ?) & ?) & ?) & ?) & ?).
  split; [by split|]. split; [done|]. apply Answer_DecodeInApp; try done.
  by destruct (or_in_app m).
Qed.

Lemma read_out_spec m refusal facts m' fx : read_out m refusal = (m', fx) ->
  kept m m' /\ or_refused m' = or_refused m /\ answer m refusal facts m' fx.
Proof.
  unfold read_out. intros [= <- <-]. split; [by split|]. split; [done|].
  by apply (Answer_ShowError m refusal facts _ None).
Qed.

Lemma try_convert_both_spec m refusal facts m' fx :
  try_convert_both m refusal facts = Some (m', fx) -> of_forced facts = false ->
  kept m m' /\ or_refused m' = or_refused m /\ answer m refusal facts m' fx.
Proof.
  unfold try_convert_both. destruct (_ || _) eqn:E; [done|].
  rewrite !orb_false_iff, !negb_false_iff in E. destruct E as (((? & ?) & ?) & ?).
  destruct (_ && _); [done|]. intros [= <- <-] Hf. split; [by split|]. split; [done|].
  apply Answer_ConvertBoth; try done. lia.
Qed.

Lemma app_decode_or_error_spec m refusal facts m' fx : app_decode_or_error m refusal facts = (m', fx) ->
  kept m m' /\ or_refused m' = or_refused m /\ answer m refusal facts m' fx.
Proof.
  unfold app_decode_or_error. destruct (try_app_decode m refusal facts) as [[m1 fx1]|] eqn:E.
  - intros [= <- <-]. by apply try_app_decode_spec.
  - apply read_out_spec.
Qed.

Lemma decide_after_facet_spec m refusal facts m' fx : of_forced facts = false ->
  decide_after_facet m refusal facts = (m', fx) ->
  kept m m' /\ or_refused m' = or_refused m /\ answer m refusal facts m' fx.
Proof.
  intros Hf. unfold decide_after_facet. destruct (_ && _) eqn:E.
  { intros [= <- <-]. rewrite !andb_true_iff in E. destruct E as ((? & ?) & ?). split; [by split|].
    split; [done|]. apply Answer_StartAutoHls; try done. lia. }
  set (mixes := match of_audio facts with Some _ => _ | None => _ end). clearbody mixes.
  destruct (try_app_decode m refusal facts) as [[m1 fx1]|] eqn:Ed;
    destruct (try_convert_both m refusal facts) as [[m2 fx2]|] eqn:Ec; destruct mixes; cbn [negb];
    first [intros [= <- <-]; by apply try_app_decode_spec
          |intros [= <- <-]; by apply try_convert_both_spec
          |apply read_out_spec].
Qed.

Lemma note_refusal_fields m refusal facts :
  let n := note_refusal m refusal facts in
  or_start n = or_start m /\ or_attempt n = or_attempt m /\ or_excluded n = or_excluded m
  /\ or_flights n = or_flights m /\ or_pictured n = or_pictured m /\ or_in_app n = or_in_app m
  /\ or_unprovable n = or_unprovable m /\ or_rescue n = or_rescue m /\ or_reported n = or_reported m
  /\ or_state n = or_state m.
Proof. unfold note_refusal. by destruct (_ || _). Qed.

Lemma answer_frame m n refusal facts m' fx :
  or_start n = or_start m -> or_flights n = or_flights m -> or_in_app n = or_in_app m ->
  answer n refusal facts m' fx -> answer m refusal facts m' fx.
Proof.
  intros E1 E2 E3 H. destruct H; rewrite ?E1, ?E2, ?E3 in *; by econstructor.
Qed.

Lemma decide_spec m refusal facts m' fx : decide m refusal facts = (m', fx) ->
  kept m m' /\ or_refused m' = or_refused (note_refusal m refusal facts) /\ answer m refusal facts m' fx.
Proof.
  unfold decide. set (n := note_refusal m refusal facts).
  destruct (note_refusal_fields m refusal facts) as (F1 & F2 & F3 & F4 & F5 & F6 & _ & _ & F9 & _).
  fold n in F1, F2, F3, F4, F5, F6, F9. clearbody n. intros H.
  assert (kept n m' /\ or_refused m' = or_refused n /\ answer n refusal facts m' fx) as (K & R & A).
  { revert H. destruct (of_pending_original facts) eqn:Ep.
    { destruct (keep _ (of_native_audio facts)) as [f|]; intros [= <- <-];
        (split; [by split|split; [done|by apply Answer_Rollback]]). }
    destruct (of_forced facts) eqn:Ef.
    - destruct (try_app_decode n refusal facts) as [[m1 fx1]|] eqn:Ed.
      { intros [= <- <-]. by apply try_app_decode_spec. }
      unfold read_out. intros [= <- <-]. split; [by split|split; [done|by apply Answer_ShowError]].
    - destruct (facet_to_convert n refusal facts) as [f|] eqn:Ec; [|by apply decide_after_facet_spec].
      unfold facet_to_convert in Ec. destruct (_ && _ && _) eqn:Eg; [|done].
      rewrite !andb_true_iff in Eg. destruct Eg as ((? & ?) & Ez). apply Z.eqb_eq in Ez.
      unfold keep in Ec at 1. destruct (suspect _ _) as [x|]; [|done].
      destruct (changes (or_start n) x) eqn:Ex; [|done]. injection Ec as <-.
      intros [= <- <-]. split; [by split|]. split; [done|]. cbn -[MAX_RECOVERY_FLIGHTS]. rewrite Ez.
      apply Answer_ConvertFacet; done. }
  split; [|split; [done|by apply (answer_frame m n)]].
  destruct K as [K1 K2 K3 K4]. split; [congruence|congruence|congruence|].
  intros Hm. apply K4. by rewrite F1, F2, F3, F6.
Qed.

(** A state that a failure of the open is ruled on in. *)
Definition ruled (s : State) : bool :=
  match s with Opening | Proving _ _ | Playing => true | _ => false end.

Definition named_refusal (facts : OpenFacts) : list RecoveryEffect :=
  (fun f => ConfirmRefusal f Named) <$> option_list (of_native_audio facts).

(** One handled event, by what it does. *)
Inductive step_case (m : OpenRecovery) : RecoveryEvent -> OpenRecovery -> list RecoveryEffect -> Prop :=
  | Case_failure refusal facts m' fx :
      ruled (or_state m) = true -> kept m m' ->
      or_refused m' = or_refused (note_refusal m refusal facts) -> answer m refusal facts m' fx ->
      step_case m (Refused refusal facts) m' (named_refusal facts ++ fx)
  | Case_flight_refused rung cause facts m' fx :
      or_state m = Flight rung cause facts -> kept m m' ->
      or_refused m' = or_refused (note_refusal m cause facts) \/ or_refused m' = or_refused m ->
      answer m cause facts m' fx -> (rung = Rung_Rollback -> fx = [ShowError cause]) ->
      step_case m FlightRefused m' fx
  | Case_landed rung cause facts lanes s :
      or_state m = Flight rung cause facts ->
      s = Opening \/ (exists facet, s = Proving facet false /\ proves facet lanes = true
                     /\ facet ∈ excluded_iter (or_excluded m) /\ or_pictured m = false
                     /\ or_unprovable m = false /\ rung = Rung_Facet) ->
      step_case m (FlightLanded lanes) (m <| or_state := s |>) []
  | Case_picture m' fx :
      or_state m = Opening -> pictured m = (m', fx) -> step_case m FirstPicture m' fx
  | Case_proof facet loaded m' fx :
      or_state m = Proving facet loaded -> pictured m = (m', fx) ->
      step_case m FirstPicture m' (ConfirmRefusal facet Proof_ :: fx)
  | Case_own_load facet :
      or_state m = Proving facet false ->
      step_case m LoadStarted (m <| or_state := Proving facet true |>) []
  | Case_foreign_load facet :
      or_state m = Proving facet true ->
      step_case m LoadStarted (m <| or_state := Opening |>) []
  | Case_new_open :
      match or_state m with Flight _ _ _ | Failed => True | _ => False end ->
      step_case m LoadStarted (m <| or_rescue := None |> <| or_state := Opening |>) [].

Lemma step_cases m ev m' fx : step m ev = Some (m', fx) -> step_case m ev m' fx.
Proof.
  destruct ev as [refusal facts|lanes| | |]; cbn [step].
  - intros H. assert (Hr : ruled (or_state m) = true) by (by destruct (or_state m)).
    assert (H' : (let '(m, fx) := decide m refusal facts in Some (m, named_refusal facts ++ fx)) = Some (m', fx))
      by (by destruct (or_state m)).
    clear H. destruct (decide m refusal facts) as [m1 ans] eqn:E. injection H' as <- <-.
    apply decide_spec in E as (? & ? & ?). by constructor.
  - destruct (or_state m) as [| |rung cause facts| |] eqn:Es; try done. intros [= <- <-].
    eapply Case_landed; [done|].
    destruct (_ && _) eqn:E; [|by left]. rewrite !andb_true_iff, !negb_true_iff in E.
    destruct E as ((Er & ?) & ?). apply bool_decide_eq_true in Er.
    destruct (List.find _ _) as [f|] eqn:Ef; [right|by left].
    apply find_some in Ef as [? ?]. exists f. by rewrite list_elem_of_In.
  - destruct (or_state m) as [| |rung cause facts| |] eqn:Es; try done. intros [= H].
    assert (kept m m' /\ (or_refused m' = or_refused (note_refusal m cause facts) \/ or_refused m' = or_refused m)
            /\ answer m cause facts m' fx /\ (rung = Rung_Rollback -> fx = [ShowError cause])) as (? & ? & ? & ?).
    { destruct rung.
      - injection H as <- <-. destruct (read_out_spec m cause facts _ _ eq_refl) as (? & ? & ?). auto.
      - destruct (decide_spec _ _ _ _ _ H) as (? & ? & ?);
        (split; [done|split; [auto|split; [done|discriminate]]]).
      - destruct (app_decode_or_error_spec _ _ _ _ _ H) as (? & ? & ?);
        (split; [done|split; [auto|split; [done|discriminate]]]).
      - destruct (app_decode_or_error_spec _ _ _ _ _ H) as (? & ? & ?);
        (split; [done|split; [auto|split; [done|discriminate]]]). }
    by eapply Case_flight_refused.
  - destruct (or_state m) as [|facet loaded| | |] eqn:Es; try done.
    + intros [= H]. by constructor.
    + destruct (pictured m) as [m1 fx1] eqn:E. intros [= <- <-]. by eapply Case_proof.
  - destruct (or_state m) as [|facet [|]|? ? ?| |] eqn:Es; try done; intros [= <- <-].
    + by eapply Case_foreign_load.
    + by eapply Case_own_load.
    + apply Case_new_open. by rewrite Es.
    + apply Case_new_open. by rewrite Es.
Qed.

Lemma next_cases m ev m' fx : next m ev = (m', fx) ->
  (m' = m /\ fx = [] /\ step m ev = None) \/ step_case m ev m' fx.
Proof.
  unfold next. destruct (step m ev) as [[m1 fx1]|] eqn:E; cbn; intros [= <- <-]; [right|by left].
  by apply step_cases.
Qed.

Lemma pictured_spec m m' fx : pictured m = (m', fx) ->
  or_start m' = or_start m /\ or_attempt m' = or_attempt m /\ or_excluded m' = or_excluded m
  /\ or_flights m' = or_flights m /\ or_pictured m' = true /\ or_in_app m' = or_in_app m
  /\ or_refused m' = or_refused m /\ or_rescue m' = None /\ or_state m' = Playing
  /\ ((fx = [] /\ or_reported m' = or_reported m)
      \/ exists rung refusal facet, fx = [ReportRecovered (mk_recovered rung refusal facet)]
           /\ or_rescue m = Some rung /\ or_refused m = Some (refusal, facet)
           /\ or_reported m = false /\ or_reported m' = true).
Proof.
  unfold pictured, report_rescue. cbn. destruct (or_reported m) eqn:Er.
  { intros [= <- <-]. cbn. repeat (split; [done|]). left. by rewrite Er. }
  destruct (or_rescue m) as [rung|]; [|intros [= <- <-]; cbn; repeat (split; [done|]); left; by rewrite Er].
  destruct (or_refused m) as [[refusal facet]|] eqn:Ef; intros [= <- <-]; cbn; repeat (split; [done|]).
  - right. by exists rung, refusal, facet.
  - left. by rewrite Er.
Qed.

(** ** Every failure is answered *)

(** C26. A failure of the open is never met with silence, and neither is a flight that comes back
    refused: the ladder gives one answer, a rung whose conditions hold or the failure read-out, and
    leaves the state that answer waits in; the audio a failure names is recorded first.  A refused
    rollback is final. *)
Theorem every_failure_is_answered m :
  (forall refusal facts, ruled (or_state m) = true ->
     exists m' fx, step m (Refused refusal facts) = Some (m', named_refusal facts ++ fx)
       /\ answer m refusal facts m' fx)
  /\ (forall rung cause facts, or_state m = Flight rung cause facts ->
     exists m' fx, step m FlightRefused = Some (m', fx) /\ answer m cause facts m' fx
       /\ (rung = Rung_Rollback -> fx = [ShowError cause] /\ or_state m' = Failed)).
Proof.
  split.
  - intros refusal facts Hr. destruct (decide m refusal facts) as [m' fx] eqn:E.
    exists m', fx. split; [|by apply (decide_spec m refusal facts m' fx E)].
    cbn [step]. by destruct (or_state m); rewrite ?E.
  - intros rung cause facts Hs. destruct (step m FlightRefused) as [[m' fx]|] eqn:E.
    + exists m', fx. split; [done|]. pose proof (step_cases _ _ _ _ E) as H. inversion H; subst.
      rewrite Hs in *. simplify_eq. split; [done|]. intros Hr. split; [auto|].
      cbn [step] in E. rewrite Hs, Hr in E. by injection E as <- <-.
    + cbn [step] in E. by rewrite Hs in E.
Qed.

(** ** How often each rung is taken *)

Definition is_flight (fx : RecoveryEffect) : bool :=
  match fx with ConvertFacet _ _ | ConvertBoth _ | StartAutoHls => true | _ => false end.
Definition is_convert_facet (fx : RecoveryEffect) : bool :=
  match fx with ConvertFacet _ _ => true | _ => false end.
Definition is_decode_in_app (fx : RecoveryEffect) : bool :=
  match fx with DecodeInApp _ _ => true | _ => false end.
Definition is_report (fx : RecoveryEffect) : bool :=
  match fx with ReportRecovered _ => true | _ => false end.

Definition count (p : RecoveryEffect -> bool) (fx : list RecoveryEffect) : Z :=
  Z.of_nat (List.length (List.filter p fx)).

Lemma count_app p a b : count p (a ++ b) = count p a + count p b.
Proof. unfold count. rewrite List.filter_app, length_app. lia. Qed.

Lemma count_nonneg p a : 0 <= count p a.
Proof. unfold count. lia. Qed.

Lemma count_named p facts : (forall f, p (ConfirmRefusal f Named) = false) -> count p (named_refusal facts) = 0.
Proof. intros H. unfold named_refusal, count. destruct (of_native_audio facts); cbn; by rewrite ?H. Qed.

(** What an answer adds to each count. *)
Lemma answer_counts m refusal facts m' fx : 0 <= or_flights m <= MAX_RECOVERY_FLIGHTS ->
  answer m refusal facts m' fx ->
  count is_flight fx = or_flights m' - or_flights m /\ 0 <= or_flights m' <= MAX_RECOVERY_FLIGHTS
  /\ (count is_convert_facet fx = 0 \/ count is_convert_facet fx = 1 /\ or_flights m = 0 /\ or_flights m' = 1)
  /\ count is_decode_in_app fx
     = (if is_some (or_in_app m') then 1 else 0) - (if is_some (or_in_app m) then 1 else 0)
  /\ count is_report fx = 0.
Proof.
  intros Hm [ | | | | |said ]; unfold MAX_RECOVERY_FLIGHTS in *;
    try (unfold count; cbn [List.filter is_flight is_convert_facet is_decode_in_app is_report List.length];
         repeat match goal with H : or_in_app _ = _ |- _ => rewrite H end; cbn [is_some]; lia).
  rewrite !count_app.
  assert (Hsaid : forall p, (forall c, p (NameRefusedAudio c) = false) ->
            count p (NameRefusedAudio <$> option_list said) = 0).
  { intros p Hp. unfold count. destruct said; cbn; by rewrite ?Hp. }
  rewrite !Hsaid by done. unfold count. cbn.
  repeat match goal with H : or_in_app _ = _ |- _ => rewrite H end. lia.
Qed.

(** The counters of the machine after a history, against what it asked for. *)
Record counted (m : OpenRecovery) (fx : list RecoveryEffect) : Prop := mk_counted {
  ct_flights : count is_flight fx = or_flights m;
  ct_bound : 0 <= or_flights m <= MAX_RECOVERY_FLIGHTS;
  ct_facet : count is_convert_facet fx <= 1;
  ct_facet_first : or_flights m = 0 -> count is_convert_facet fx = 0;
  ct_decode : count is_decode_in_app fx = if is_some (or_in_app m) then 1 else 0;
  ct_report : count is_report fx = if or_reported m then 1 else 0
}.

Lemma counted_answer m fx pre refusal facts m' fx' :
  counted m fx -> (forall p, (forall f, p (ConfirmRefusal f Named) = false) -> count p pre = 0) ->
  or_reported m' = or_reported m -> answer m refusal facts m' fx' -> counted m' (fx ++ pre ++ fx').
Proof.
  intros [C1 C2 C3 C4 C5 C6] Hpre Hr Ha.
  destruct (answer_counts _ _ _ _ _ C2 Ha) as (A1 & A2 & A3 & A4 & A5).
  pose proof (count_nonneg is_flight fx').
  split; rewrite ?count_app, ?Hpre by done; [lia|lia| | |lia|rewrite Hr; lia].
  - destruct A3 as [?|(? & Az & ?)]; [lia|rewrite (C4 Az); lia].
  - intros. destruct A3 as [?|(? & ? & ?)]; [rewrite C4 by lia; lia|lia].
Qed.

Lemma counted_picture m fx pre m' fx' :
  counted m fx -> count is_flight pre = 0 -> count is_convert_facet pre = 0 ->
  count is_decode_in_app pre = 0 -> count is_report pre = 0 ->
  pictured m = (m', fx') -> counted m' (fx ++ pre ++ fx').
Proof.
  intros [C1 C2 C3 C4 C5 C6] P1 P2 P3 P4 (_ & _ & _ & E1 & _ & E2 & _ & _ & _ & R)%pictured_spec.
  assert (Hz : forall p, (forall r, p (ReportRecovered r) = false) -> count p fx' = 0).
  { intros p Hp. destruct R as [[-> _]|(? & ? & ? & -> & _)]; [done|]. unfold count. cbn. by rewrite Hp. }
  assert (Hr : count is_report fx' = (if or_reported m' then 1 else 0) - (if or_reported m then 1 else 0)).
  { destruct R as [[-> ->]|(? & ? & ? & -> & _ & _ & -> & ->)]; [change (count is_report []) with 0; lia|done]. }
  split; rewrite ?count_app, ?Hz, ?E1, ?E2 by done; try lia.
Qed.

Lemma counted_step m fx ev m' fx' : counted m fx -> next m ev = (m', fx') -> counted m' (fx ++ fx').
Proof.
  intros C H. apply next_cases in H as [(-> & -> & _)|H]; [by rewrite app_nil_r|].
  assert (Hquiet : forall m2, or_flights m2 = or_flights m -> or_in_app m2 = or_in_app m ->
            or_reported m2 = or_reported m -> counted m2 (fx ++ [])).
  { intros m2 E1 E2 E3. rewrite app_nil_r. destruct C. by split; rewrite ?E1, ?E2, ?E3. }
  inversion H; subst; try (by apply Hquiet).
  - eapply counted_answer; [done|intros p Hp; by apply count_named|apply kp_reported; done|done].
  - rewrite <-(app_nil_l fx'). eapply counted_answer; [done|done|apply kp_reported; done|done].
  - rewrite <-(app_nil_l fx'). by eapply counted_picture.
  - change (ConfirmRefusal facet Proof_ :: fx0) with ([ConfirmRefusal facet Proof_] ++ fx0).
    by eapply counted_picture.
Qed.

Lemma counted_run start evs :
  counted (run (recovery_new start) evs).1 (run (recovery_new start) evs).2.
Proof.
  apply (run_ind (fun m _ fx => counted m fx)).
  - by split.
  - intros h ev m1 fx1 m2 fx2 _ Hc Hn. by eapply counted_step.
Qed.

(** One play request converts at most twice and converts one stream at most once, decodes in the app
    at most once and reports at most one rescue, whatever fails, lands, is refused or is reloaded,
    in any order.  The flights the machine counts are the flights it asked for. *)
Theorem conversions_are_bounded start evs :
  let '(m, fx) := run (recovery_new start) evs in
  count is_flight fx = or_flights m /\ or_flights m <= MAX_RECOVERY_FLIGHTS
  /\ count is_convert_facet fx <= 1 /\ count is_decode_in_app fx <= 1 /\ count is_report fx <= 1.
Proof.
  pose proof (counted_run start evs) as [C1 C2 C3 C4 C5 C6].
  destruct (run _ evs) as [m fx]. cbn [fst snd] in *.
  split; [done|]. split; [lia|]. split; [done|]. split; [destruct (is_some _); lia|destruct (or_reported m); lia].
Qed.

(** ** Forced Direct Play *)

(** Effects a forced play may see: no conversion and no rollback, and no mixing down by the app. *)
Definition keeps_the_file (start : Caps) (fx : RecoveryEffect) : Prop :=
  match fx with
  | Rollback | ConvertFacet _ _ | ConvertBoth _ | StartAutoHls => False
  | DecodeInApp (Facet_Audio _ channels) _ =>
      app_decode_mixes_down channels = false \/ dc_app_lossy start = Lossy_All
  | DecodeInApp (Facet_Video _ _ _) _ => False
  | _ => True
  end.

(** A failure of a forced play with no rollback owed. *)
Definition forced_failure (ev : RecoveryEvent) : Prop :=
  match ev with
  | Refused _ facts => of_forced facts = true /\ of_pending_original facts = false
  | _ => True
  end.

Lemma answer_forced m refusal facts m' fx :
  of_forced facts = true -> of_pending_original facts = false -> answer m refusal facts m' fx ->
  Forall (keeps_the_file (or_start m)) fx /\ match or_state m' with Flight _ _ _ => False | _ => True end.
Proof.
  intros Hf Hp H. destruct H; try congruence.
  - match goal with H : or_state _ = _ |- _ => rewrite H end. split; [|done]. constructor; [|done]. cbn.
    match goal with H : app_may_mix_down _ _ _ = true |- _ => rename H into Hmix end.
    unfold app_may_mix_down in Hmix. rewrite Hf in Hmix. apply orb_true_iff in Hmix as [Hmix|Hmix].
    + left. by apply negb_true_iff.
    + right. by apply bool_decide_eq_true in Hmix.
  - match goal with H : or_state _ = _ |- _ => rewrite H end. split; [|done].
    destruct said; cbn; by repeat constructor.
Qed.

(** A play the viewer forced to the file is never converted: in a request whose every failure finds
    Force Direct Play on and no rollback owed, no flight is asked for, ever; and the app decodes an
    audio track itself only when that does not mix it down, short of the debug policy. *)
Theorem forced_play_is_never_converted start evs :
  Forall forced_failure evs -> Forall (keeps_the_file start) (run (recovery_new start) evs).2.
Proof.
  intros Hev.
  assert (H : (or_start (run (recovery_new start) evs).1 = start
               /\ match or_state (run (recovery_new start) evs).1 with Flight _ _ _ => False | _ => True end)
              /\ Forall (keeps_the_file start) (run (recovery_new start) evs).2); [|by apply H].
  apply (run_ind (fun m evs fx => Forall forced_failure evs ->
           (or_start m = start /\ match or_state m with Flight _ _ _ => False | _ => True end)
           /\ Forall (keeps_the_file start) fx) (recovery_new start)); [done| |exact Hev].
  clear evs Hev. intros evs ev m1 fx1 m2 fx2 _ IH Hn [Hevs [Hev _]%Forall_cons]%Forall_app.
  destruct (IH Hevs) as [[Hs Hf] Hall]. clear IH.
  apply next_cases in Hn as [(-> & -> & _)|Hc]; [by rewrite app_nil_r|].
  rewrite Forall_app. inversion Hc; subst; cbn;
    try (match goal with H : or_state _ = _ |- _ => rewrite H in Hf; done end);
    try (by split; [split|]).
  - destruct Hev as [Hfo Hp]. destruct (answer_forced _ _ _ _ _ Hfo Hp H2) as [Hk Hst].
    split; [split; [by apply kp_start|done]|]. split; [done|]. apply Forall_app. split; [|done].
    unfold named_refusal. destruct (of_native_audio facts); cbn; by repeat constructor.
  - pose proof (pictured_spec _ _ _ H0) as (E & _ & _ & _ & _ & _ & _ & _ & Es & R). rewrite E, Es.
    split; [done|]. split; [done|]. destruct R as [[-> _]|(? & ? & ? & -> & _)]; by repeat constructor.
  - pose proof (pictured_spec _ _ _ H0) as (E & _ & _ & _ & _ & _ & _ & _ & Es & R). rewrite E, Es.
    split; [done|]. split; [done|]. constructor; [done|].
    destruct R as [[-> _]|(? & ? & ? & -> & _)]; by repeat constructor.
Qed.

(** ** The attempt *)

Lemma run_attempt start evs :
  let m := (run (recovery_new start) evs).1 in
  or_start m = start /\ or_attempt m = attempt_for (or_start m) (or_excluded m) (or_in_app m).
Proof.
  cbn zeta. apply (run_ind (fun m _ _ => or_start m = start
    /\ or_attempt m = attempt_for (or_start m) (or_excluded m) (or_in_app m)) (recovery_new start)); [done|].
  clear evs. intros evs ev m1 fx1 m2 fx2 _ [Hs Ha] Hn.
  apply next_cases in Hn as [(-> & -> & _)|Hc]; [done|].
  inversion Hc; subst; try done;
    try (match goal with H : kept _ _ |- _ => destruct H as [E _ _ K] end; split; [done|by apply K]);
    match goal with H : pictured _ = _ |- _ =>
      pose proof (pictured_spec _ _ _ H) as (E1 & E2 & E3 & _ & _ & E4 & _) end;
    by rewrite E1, E2, E3, E4.
Qed.

Lemma attempt_for_narrows start excluded in_app : caps_ok start ->
  narrows start (attempt_for start excluded in_app).
Proof.
  intros Hok. unfold attempt_for.
  assert (Hn : narrows start (fold_left without (excluded_iter excluded) start)).
  { apply fold_left_ind; [by apply narrows_refl|]. intros c f _ Hc.
    eapply narrows_step; [done|]. apply without_narrows, Hc. }
  destruct in_app; [|done]. eapply narrows_step; [done|]. apply with_app_lossy_for_narrows, Hn.
Qed.

(** The attempt a request plans from never claims a track or a raster its start value does not, and
    it is derived from the start value, the facets taken out and the codec the app decodes alone:
    which rungs ran, and in what order, does not matter.  A native audio track the request gave up
    on is not played natively again in it. *)
Theorem attempt_never_claims_more start evs :
  caps_ok start ->
  let m := (run (recovery_new start) evs).1 in
  or_attempt m = attempt_for start (or_excluded m) (or_in_app m)
  /\ narrows start (or_attempt m)
  /\ forall codec channels codec' n rate,
       xc_audio (or_excluded m) = Some (Facet_Audio codec channels) ->
       audio_codec_id codec' = audio_codec_id codec -> audio_codec_id codec <> [] ->
       channels <= 2 \/ 2 < n ->
       native_audio_track (or_attempt m) codec' n rate false = false.
Proof.
  intros Hok m. destruct (run_attempt start evs) as [Es Ea]. fold m in Es, Ea. rewrite Es in Ea.
  clearbody m. rewrite Ea. split; [done|]. split; [by apply attempt_for_narrows|].
  intros codec ch codec' n rate Hx Hid Hne Hn. unfold attempt_for, excluded_iter. rewrite Hx.
  cbn [option_list app fold_left]. set (c1 := without start (Facet_Audio codec ch)).
  assert (H1 : narrows start c1) by (by apply without_narrows).
  assert (Hno : native_audio_track c1 codec' n rate false = false).
  { unfold native_audio_track. replace (audio_supports c1 codec' n) with false; [by rewrite andb_false_r|].
    symmetry. eapply settled_not_offered; [apply H1| |].
    - rewrite Hid. apply limit_codec_settles; auto using audio_codec_id_idem, refusal_ceiling_nonneg.
    - unfold refusal_ceiling. bools; lia. }
  assert (H2 : narrows c1 (fold_left without (option_list (xc_video (or_excluded m))) c1)).
  { apply fold_left_ind; [apply narrows_refl, H1|]. intros c f _ Hc.
    eapply narrows_step; [done|]. apply without_narrows, Hc. }
  assert (Hmono : forall c, narrows c1 c -> native_audio_track c codec' n rate false = false).
  { intros c [N _]. apply not_true_iff_false. intros F. apply N in F; [congruence|by rewrite Hid]. }
  destruct (or_in_app m); [|by apply Hmono]. apply Hmono. eapply narrows_step; [done|].
  apply with_app_lossy_for_narrows, H2.
Qed.

(** ** What a proof rests on *)

(** The Load that failed was fed by no decoder of the app. *)
Definition fed_native (facts : OpenFacts) : Prop :=
  match of_audio facts with Some a => sa_app_decoded_lossy a = false | None => True end.

(** A flight of the facet rung that may still prove something answers the failure of such a Load. *)
Definition flight_clean (m : OpenRecovery) : Prop :=
  forall cause facts, or_state m = Flight Rung_Facet cause facts -> or_unprovable m = false -> fed_native facts.

Lemma try_app_decode_state m refusal facts r : try_app_decode m refusal facts = Some r -> or_state r.1 = Opening.
Proof. unfold try_app_decode. destruct (app_decode_for _ _ _); [|done]. by intros [= <-]. Qed.
Lemma try_convert_both_state m refusal facts r :
  try_convert_both m refusal facts = Some r -> or_state r.1 = Flight Rung_Encode refusal facts.
Proof. unfold try_convert_both. destruct (_ || _); [done|]. destruct (_ && _); [done|]. by intros [= <-]. Qed.

Lemma app_decode_or_error_clean m refusal facts : flight_clean (app_decode_or_error m refusal facts).1.
Proof.
  intros cause facts' Hs. unfold app_decode_or_error in Hs. destruct (try_app_decode _ _ _) as [r|] eqn:E; [|done].
  apply try_app_decode_state in E. congruence.
Qed.

Lemma decide_after_facet_clean m refusal facts : flight_clean (decide_after_facet m refusal facts).1.
Proof.
  intros cause facts' Hs. unfold decide_after_facet in Hs. destruct (_ && _); [done|].
  pose proof (try_app_decode_state m refusal facts) as Hd. pose proof (try_convert_both_state m refusal facts) as Hc.
  destruct (negb _), (try_app_decode m refusal facts) as [d|], (try_convert_both m refusal facts) as [c|];
    try specialize (Hd _ eq_refl); try specialize (Hc _ eq_refl); cbn in Hs; congruence || (repeat case_match; simplify_eq/=; congruence).
Qed.

Lemma decide_clean m refusal facts : flight_clean (decide m refusal facts).1.
Proof.
  unfold decide. set (n := note_refusal m refusal facts). clearbody n.
  destruct (of_pending_original facts); [intros c f Hs _; by destruct (keep _ _)|].
  destruct (of_forced facts); [intros c f Hs _|].
  { pose proof (try_app_decode_state n refusal facts) as Hd.
    destruct (try_app_decode n refusal facts) as [r|]; [specialize (Hd _ eq_refl); congruence|done]. }
  destruct (facet_to_convert n refusal facts) as [x|]; [|apply decide_after_facet_clean].
  intros c f Hs Hu. cbn in Hs, Hu. injection Hs as _ <-. unfold fed_native.
  apply orb_false_iff in Hu as [_ Hu]. by destruct (of_audio facts).
Qed.

Lemma step_clean m ev m' fx : flight_clean m -> step m ev = Some (m', fx) -> flight_clean m'.
Proof.
  intros Hm Hs. pose proof (decide_clean m) as Hd. pose proof (app_decode_or_error_clean m) as Ha.
  destruct ev as [refusal facts|lanes| | |]; cbn [step] in Hs.
  - specialize (Hd refusal facts). destruct (decide m refusal facts) as [m1 fx1]. by destruct (or_state m); simplify_eq.
  - destruct (or_state m); try done. injection Hs as <- <-. intros c f Hs. cbn in Hs. by repeat case_match.
  - destruct (or_state m) as [| |rung cause facts| |]; try done. injection Hs as Hs. specialize (Hd cause facts). specialize (Ha cause facts).
    destruct rung; [injection Hs as <- <-; done|rewrite Hs in Hd|rewrite Hs in Ha..]; done.
  - pose proof (pictured_spec m) as Hp. destruct (pictured m) as [m1 fx1] eqn:E. destruct (Hp _ _ eq_refl) as (_ & _ & _ & _ & _ & _ & _ & _ & Es & _).
    destruct (or_state m); try done; simplify_eq; intros c f Hs; congruence.
  - destruct (or_state m) as [|facet [|]|? ? ?| |] eqn:Es; simplify_eq; done.
Qed.

Lemma run_clean start evs : flight_clean (run (recovery_new start) evs).1.
Proof.
  apply (run_ind (fun m _ _ => flight_clean m)); [done|]. intros evs' ev m1 fx1 m2 fx2 _ Hm Hn.
  unfold next in Hn. destruct (step m1 ev) as [[m3 fx3]|] eqn:E; cbn in Hn; simplify_eq; [by eapply step_clean|done].
Qed.

(** The landing a proof of [facet] rests on: a flight of the facet rung, flown for a failed Load that the
    app did not decode for, in a request that had shown no picture, landed with verdicts that prove
    [facet], which the request had taken out. *)
Definition clean_landing (start : Caps) (before : list RecoveryEvent) (lanes : option Lanes)
    (facet : Facet) : Prop :=
  let m := (run (recovery_new start) before).1 in
  (exists cause facts, or_state m = Flight Rung_Facet cause facts /\ fed_native facts)
  /\ or_pictured m = false /\ or_unprovable m = false
  /\ facet ∈ excluded_iter (or_excluded m) /\ proves facet lanes = true.

Definition is_load (ev : RecoveryEvent) : bool := match ev with LoadStarted => true | _ => false end.

(** Nothing but answers to no flight, and this many loads. *)
Definition quiet_since (loads : nat) (evs : list RecoveryEvent) : Prop :=
  Forall (fun ev => match ev with Refused _ _ | FirstPicture => False | _ => True end) evs
  /\ List.length (List.filter is_load evs) = loads.

Definition proving_history (start : Caps) (evs : list RecoveryEvent) (facet : Facet) (loaded : bool) : Prop :=
  exists before lanes since, evs = before ++ FlightLanded lanes :: since
    /\ clean_landing start before lanes facet /\ quiet_since (if loaded then 1 else 0) since.

Definition proof_history (start : Caps) (evs : list RecoveryEvent) (facet : Facet) : Prop :=
  exists opened after loaded, evs = opened ++ FirstPicture :: after /\ proving_history start opened facet loaded.

Lemma proof_history_snoc start evs ev facet :
  proof_history start evs facet -> proof_history start (evs ++ [ev]) facet.
Proof.
  intros (opened & after & loaded & -> & H). exists opened, (after ++ [ev]), loaded.
  split; [|done]. by rewrite <-app_assoc.
Qed.

Lemma proving_history_snoc start evs ev facet (loaded loaded' : bool) :
  proving_history start evs facet loaded ->
  match ev with Refused _ _ | FirstPicture => False | _ => True end ->
  ((if loaded then 1 else 0) + (if is_load ev then 1 else 0) = if loaded' then 1 else 0)%nat ->
  proving_history start (evs ++ [ev]) facet loaded'.
Proof.
  intros (before & lanes & since & -> & Hc & Hq & Hl) Hev Hn.
  exists before, lanes, (since ++ [ev]). split; [by rewrite <-app_assoc|]. split; [done|]. split.
  - apply Forall_app. split; [done|]. by constructor.
  - rewrite List.filter_app, length_app, Hl. destruct ev; cbn in *; lia.
Qed.

Lemma answer_no_proof m refusal facts m' fx facet : answer m refusal facts m' fx ->
  (ConfirmRefusal facet Proof_ ∉ fx)
  /\ match or_state m' with Proving _ _ => False | _ => True end.
Proof.
  intros H. destruct H; (split; [|by match goal with H : or_state _ = _ |- _ => rewrite H end]);
    try by intros [|?%elem_of_nil]%elem_of_cons.
  rewrite elem_of_app. intros [Hs|[|?%elem_of_nil]%elem_of_cons]; [|done|done].
  destruct said; cbn in Hs; [|by apply elem_of_nil in Hs]. by apply elem_of_cons in Hs as [|?%elem_of_nil].
Qed.

Lemma named_no_proof facts facet : ConfirmRefusal facet Proof_ ∉ named_refusal facts.
Proof.
  unfold named_refusal. destruct (of_native_audio facts); cbn.
  - by intros [|?%elem_of_nil]%elem_of_cons.
  - apply not_elem_of_nil.
Qed.

(** C27. The project's evidence that a set cannot decode a codec is earned.  A refusal is recorded as
    proved only at a picture, and only when a flight of the facet rung had landed before, in a request
    with no picture yet, with the server's verdicts saying that the audio was converted and the video was
    not; the facet is one the request had taken out, and the failed Load that the flight was flown for
    was not fed by the app's own decoder (an app decode earlier in the request is not looked at); and
    between that landing and the picture no failure came, and at most one load, the landing's own. *)
Theorem a_proof_is_a_clean_rescue start evs facet :
  ConfirmRefusal facet Proof_ ∈ (run (recovery_new start) evs).2 ->
  exists before lanes since after,
    evs = before ++ FlightLanded (Some lanes) :: since ++ FirstPicture :: after
    /\ clean_landing start before (Some lanes) facet
    /\ ln_audio lanes = Lane_Transcode /\ ln_video lanes ∈ [Lane_Copy; Lane_DirectPlay]
    /\ Forall (fun ev => match ev with Refused _ _ | FirstPicture => False | _ => True end) since
    /\ (List.length (List.filter is_load since) <= 1)%nat.
Proof.
  intros Hin.
  assert (H : (forall f loaded, or_state (run (recovery_new start) evs).1 = Proving f loaded ->
                 proving_history start evs f loaded)
              /\ forall f, ConfirmRefusal f Proof_ ∈ (run (recovery_new start) evs).2 -> proof_history start evs f).
  { clear Hin. apply (run_ind (fun m evs fx =>
      (forall f loaded, or_state m = Proving f loaded -> proving_history start evs f loaded)
      /\ forall f, ConfirmRefusal f Proof_ ∈ fx -> proof_history start evs f) (recovery_new start)).
    { split; [done|]. by intros f ?%elem_of_nil. }
    clear evs. intros evs ev m1 fx1 m2 fx2 Hrun [IH1 IH2] Hn.
    assert (Em : m1 = (run (recovery_new start) evs).1) by by rewrite Hrun.
    assert (IH2' : forall f, ConfirmRefusal f Proof_ ∈ fx1 -> proof_history start (evs ++ [ev]) f)
      by (intros; by apply proof_history_snoc, IH2).
    apply next_cases in Hn as [(-> & -> & Hnone)|Hc].
    { rewrite app_nil_r. split; [|done]. intros f loaded Hs.
      apply (proving_history_snoc _ _ _ _ loaded); [by apply IH1| |];
        destruct ev; cbn [step] in Hnone; rewrite ?Hs in Hnone;
        repeat case_match; destruct loaded; done. }
    inversion Hc; subst.
    - pose proof (fun f : Facet => answer_no_proof _ _ _ _ _ f H2) as Hno. split.
      + intros f loaded Hs. destruct (Hno f) as [_ Hst]. by rewrite Hs in Hst.
      + intros f [Hf|[Hf|Hf]%elem_of_app]%elem_of_app; [auto|by apply named_no_proof in Hf|by apply Hno in Hf].
    - pose proof (fun f : Facet => answer_no_proof _ _ _ _ _ f H2) as Hno. split.
      + intros f loaded Hs. destruct (Hno f) as [_ Hst]. by rewrite Hs in Hst.
      + intros f [Hf|Hf]%elem_of_app; [auto|by apply Hno in Hf].
    - rewrite app_nil_r. split; [|done]. cbn. intros f loaded Hs.
      destruct H0 as [->|(x & -> & Hp & Hin & Hpic & Hun & ->)]; [done|]. injection Hs as -> <-.
      exists evs, lanes, []. split; [done|]. split; [|by split].
      unfold clean_landing. pose proof (run_clean start evs cause facts) as Hfed. eauto 10.
    - pose proof (pictured_spec _ _ _ H0) as (_ & _ & _ & _ & _ & _ & _ & _ & Es & R). split.
      + intros f loaded Hs. congruence.
      + intros f [Hf|Hf]%elem_of_app; [auto|]. exfalso.
        destruct R as [[-> _]|(? & ? & ? & -> & _)]; [by apply elem_of_nil in Hf|].
        by apply elem_of_cons in Hf as [|?%elem_of_nil].
    - pose proof (pictured_spec _ _ _ H0) as (_ & _ & _ & _ & _ & _ & _ & _ & Es & R). split.
      + intros f l Hs. congruence.
      + intros f [Hf|[Hf|Hf]%elem_of_cons]%elem_of_app; [auto| |].
        * injection Hf as ->. exists evs, [], loaded. split; [done|]. by apply IH1.
        * exfalso. destruct R as [[-> _]|(? & ? & ? & -> & _)]; [by apply elem_of_nil in Hf|].
          by apply elem_of_cons in Hf as [|?%elem_of_nil].
    - rewrite app_nil_r. split; [|done]. cbn. intros f l [= <- <-].
      by apply (proving_history_snoc _ _ _ _ false); [apply IH1| |].
    - rewrite app_nil_r. by split.
    - rewrite app_nil_r. by split. }
  destruct H as [_ H]. destruct (H _ Hin) as (opened & after & loaded & -> & before & lanes & since & -> & Hc & Hq & Hl).
  destruct Hc as (? & ? & ? & ? & Hp). destruct lanes as [lanes|]; [|done].
  exists before, lanes, since, after. split; [by rewrite <-app_assoc|]. split; [done|].
  unfold proves in Hp. destruct facet; [|done]. apply andb_true_iff in Hp as [Hp1 Hp2].
  apply bool_decide_eq_true in Hp1, Hp2. split; [done|]. split; [done|]. split; [done|]. destruct loaded; lia.
Qed.

(** ** What is reported *)

Definition rung_of (fx : RecoveryEffect) : option Rung :=
  match fx with
  | Rollback => Some Rung_Rollback
  | ConvertFacet _ _ => Some Rung_Facet
  | StartAutoHls => Some Rung_Both
  | ConvertBoth _ => Some Rung_Encode
  | _ => None
  end.

(** The stream a refusal puts under suspicion. *)
Definition suspected (refusal : LoadRefusal) (facts : OpenFacts) : option Facet :=
  if names_pipeline refusal
  then or_else (of_native_audio facts)
         (suspect (of_audio facts) (if is_numbered refusal then of_video facts else None))
  else None.

(** The first failure of the request that is the television's. *)
Definition first_reportable (start : Caps) (evs : list RecoveryEvent) (refusal : LoadRefusal)
    (facet : option Facet) : Prop :=
  exists before facts after, evs = before ++ Refused refusal facts :: after
    /\ reports refusal = true /\ facet = suspected refusal facts
    /\ ruled (or_state (run (recovery_new start) before).1) = true
    /\ or_refused (run (recovery_new start) before).1 = None.

Lemma first_reportable_snoc start evs ev refusal facet :
  first_reportable start evs refusal facet -> first_reportable start (evs ++ [ev]) refusal facet.
Proof.
  intros (before & facts & after & -> & H). exists before, facts, (after ++ [ev]).
  split; [|done]. by rewrite <-app_assoc.
Qed.

Lemma note_refusal_refused m refusal facts :
  or_refused (note_refusal m refusal facts) =
    match or_refused m with
    | Some r => Some r
    | None => if reports refusal then Some (refusal, suspected refusal facts) else None
    end.
Proof.
  unfold note_refusal, suspected. destruct (or_refused m) as [r|] eqn:E; cbn; [done|].
  destruct (reports refusal); cbn; [done|by rewrite E].
Qed.

Lemma answer_rescue m refusal facts m' fx : answer m refusal facts m' fx ->
  (forall rung, or_rescue m' = Some rung -> exists e, e ∈ fx /\ rung_of e = Some rung)
  /\ (forall rung cause fs, or_state m' = Flight rung cause fs -> cause = refusal)
  /\ forall r, ReportRecovered r ∉ fx.
Proof.
  intros H. destruct H;
    repeat match goal with
    | H : or_rescue _ = _ |- _ => rewrite H; clear H
    | H : or_state _ = _ |- _ => rewrite H; clear H
    end;
    (split; [first [done|intros rung [= <-]; eexists; split; [by left|done]]
            |split; [first [done|by intros ? ? ? [= _ <- _]]|]]);
    try by intros r [|?%elem_of_nil]%elem_of_cons.
  intros r. rewrite elem_of_app. intros [Hs|[|?%elem_of_nil]%elem_of_cons]; [|done|done].
  destruct said; cbn in Hs; [|by apply elem_of_nil in Hs]. by apply elem_of_cons in Hs as [|?%elem_of_nil].
Qed.

(** What holds of the machine after a history: the refusal it remembers, the rung it rests on, the
    flight it waits for. *)
Record remembers (start : Caps) (m : OpenRecovery) (evs : list RecoveryEvent) (fx : list RecoveryEffect)
  : Prop := mk_remembers {
  rm_refused : forall refusal facet, or_refused m = Some (refusal, facet) ->
    first_reportable start evs refusal facet;
  rm_rescue : forall rung, or_rescue m = Some rung -> exists e, e ∈ fx /\ rung_of e = Some rung;
  rm_cause : forall rung cause facts, or_state m = Flight rung cause facts ->
    reports cause = true -> or_refused m <> None;
  rm_report : forall r, ReportRecovered r ∈ fx ->
    first_reportable start evs (rc_refusal r) (rc_facet r)
    /\ exists e, e ∈ fx /\ rung_of e = Some (rc_rung r)
}.

Section remember.
  Context (start : Caps) (evs : list RecoveryEvent).
  Context (m : OpenRecovery) (fx : list RecoveryEffect).
  Hypothesis Hrun : run (recovery_new start) evs = (m, fx).
  Hypothesis Hm : remembers start m evs fx.

(** The reports so far stay true, with more effects. *)
Lemma old_reports ev fx' r : ReportRecovered r ∈ fx ->
  first_reportable start (evs ++ [ev]) (rc_refusal r) (rc_facet r)
  /\ exists e, e ∈ fx ++ fx' /\ rung_of e = Some (rc_rung r).
Proof using Hm.
  intros H. destruct (rm_report _ _ _ _ Hm r H) as [Hf (e & He & Hr)].
  split; [by apply first_reportable_snoc|]. exists e. split; [by apply elem_of_app; left|done].
Qed.

(** An event that reports nothing and keeps what is remembered. *)
Lemma remembers_quiet ev m' :
  or_refused m' = or_refused m -> (or_rescue m' = or_rescue m \/ or_rescue m' = None) ->
  (forall rung cause facts, or_state m' = Flight rung cause facts -> or_state m = Flight rung cause facts) ->
  remembers start m' (evs ++ [ev]) (fx ++ []).
Proof using Hm.
  intros E1 E2 E3. split.
  - intros refusal facet H. rewrite E1 in H. by apply first_reportable_snoc, (rm_refused _ _ _ _ Hm).
  - intros rung H. rewrite app_nil_r. destruct E2 as [E2|E2]; rewrite E2 in H; [|done].
    by apply (rm_rescue _ _ _ _ Hm).
  - intros rung cause facts H. rewrite E1. eapply (rm_cause _ _ _ _ Hm). by apply E3.
  - intros r. rewrite app_nil_r at 1. apply (old_reports _ []).
Qed.

(** A failure answered by the ladder. *)
Lemma remembers_answer ev refusal facts m' pre ans :
  answer m refusal facts m' ans ->
  (forall r, ReportRecovered r ∉ pre) ->
  (or_refused m' = or_refused m /\ (reports refusal = true -> or_refused m <> None)
   \/ ev = Refused refusal facts /\ ruled (or_state m) = true
      /\ or_refused m' = or_refused (note_refusal m refusal facts)) ->
  remembers start m' (evs ++ [ev]) (fx ++ pre ++ ans).
Proof using Hm Hrun.
  intros (Hresc & Hcause & Hno)%answer_rescue Hpre Href. split.
  - intros r f H. destruct Href as [[E _]|(-> & Hru & E)]; rewrite E in H.
    + by apply first_reportable_snoc, (rm_refused _ _ _ _ Hm).
    + rewrite note_refusal_refused in H. destruct (or_refused m) as [[r0 f0]|] eqn:Er.
      * injection H as -> ->. by apply first_reportable_snoc, (rm_refused _ _ _ _ Hm).
      * destruct (reports refusal) eqn:Erep; [|done]. injection H as <- <-.
        exists evs, facts, []. by rewrite Hrun.
  - intros rung H. destruct (Hresc rung H) as (e & He & Hr). exists e.
    split; [|done]. rewrite !elem_of_app. auto.
  - intros rung cause fs H Hrep. apply Hcause in H as ->.
    destruct Href as [[E Hn]|(-> & _ & E)]; rewrite E; [by apply Hn|].
    rewrite note_refusal_refused, Hrep. by destruct (or_refused m).
  - intros r [H|[H|H]%elem_of_app]%elem_of_app; [by apply old_reports| |].
    + by apply Hpre in H.
    + by apply Hno in H.
Qed.

(** A picture. *)
Lemma remembers_picture ev m' pre fx' : pictured m = (m', fx') -> (forall r, ReportRecovered r ∉ pre) ->
  remembers start m' (evs ++ [ev]) (fx ++ pre ++ fx').
Proof using Hm.
  intros (_ & _ & _ & _ & _ & _ & E1 & E2 & E3 & R)%pictured_spec Hpre. split.
  - intros refusal facet H. rewrite E1 in H. by apply first_reportable_snoc, (rm_refused _ _ _ _ Hm).
  - congruence.
  - congruence.
  - intros r [H|[H|H]%elem_of_app]%elem_of_app; [by apply old_reports|by apply Hpre in H|].
    destruct R as [[-> _]|(rung & refusal & facet & -> & Hr & Hf & _)]; [by apply elem_of_nil in H|].
    apply elem_of_cons in H as [[= ->]|?%elem_of_nil]; [cbn|done]. split.
    + by apply first_reportable_snoc, (rm_refused _ _ _ _ Hm).
    + destruct (rm_rescue _ _ _ _ Hm rung Hr) as (e & He & Hru). exists e.
      split; [by apply elem_of_app; left|done].
Qed.

Lemma remembers_step ev m' fx' : next m ev = (m', fx') -> remembers start m' (evs ++ [ev]) (fx ++ fx').
Proof using Hm Hrun.
  intros [(-> & -> & _)|Hc]%next_cases; [by apply remembers_quiet; auto|].
  inversion Hc; subst; try (apply remembers_quiet; auto; by intros).
  - eapply remembers_answer; [done| |by right].
    intros r. unfold named_refusal. destruct (of_native_audio facts); cbn.
    + by intros [|?%elem_of_nil]%elem_of_cons.
    + apply not_elem_of_nil.
  - rewrite <-(app_nil_l fx'). eapply remembers_answer; [done|intros r; apply not_elem_of_nil|].
    left. pose proof (rm_cause _ _ _ _ Hm _ _ _ H) as Hca. split; [|done].
    destruct H1 as [E|E]; [|done]. rewrite E, note_refusal_refused.
    destruct (or_refused m) eqn:Er; [done|]. destruct (reports cause); [by destruct (Hca eq_refl)|done].
  - apply remembers_quiet; [done|by left|]. cbn. intros ? ? ? ->. by destruct H0 as [|(? & ? & _)].
  - rewrite <-(app_nil_l fx'). by apply remembers_picture; [|intros r; apply not_elem_of_nil].
  - change (ConfirmRefusal facet Proof_ :: fx0) with ([ConfirmRefusal facet Proof_] ++ fx0).
    apply remembers_picture; [done|]. by intros r [|?%elem_of_nil]%elem_of_cons.
Qed.
End remember.

(** The report of a rescued play names what went wrong first.  Whatever a request went through, the
    refusal it reports is the first failure that was the television's and was ruled on, with the
    stream that failure put under suspicion; never the failure of an attempt to rescue it; and the
    rung it names was flown. *)
Theorem rescue_report_names_the_first_refusal start evs r :
  ReportRecovered r ∈ (run (recovery_new start) evs).2 ->
  first_reportable start evs (rc_refusal r) (rc_facet r)
  /\ exists e, e ∈ (run (recovery_new start) evs).2 /\ rung_of e = Some (rc_rung r).
Proof.
  apply (rm_report start (run (recovery_new start) evs).1).
  apply (run_ind (remembers start) (recovery_new start)).
  - split; try done. by intros r' ?%elem_of_nil.
  - intros h ev m1 fx1 m2 fx2 Hrun Hm Hn. by eapply remembers_step.
Qed.
