(* ===== verification/Hashing.v ===== *)
(** * Streaming SHA-256, HMAC and PBKDF2

    [base/src/sha256.rs]: the incremental hash behind the PIN verifier and the key pins, a second
    implementation beside the one-shot hash of the stored document ([Digest]).  A buffer is always
    64 bytes long; what is past [filled] is whatever an earlier block left there. *)

From Stdlib Require Import String ZifyNat.
From S2P Require Import Prelude Bytes Digest.

#[local] Open Scope Z_scope.

(** ** The hash *)

(** The rows of the source's table, eight words each. *)
Definition K : list Z :=
  concat (row_words 8 <$>
    [0x428a2f98_71374491_b5c0fbcf_e9b5dba5_3956c25b_59f111f1_923f82a4_ab1c5ed5;
     0xd807aa98_12835b01_243185be_550c7dc3_72be5d74_80deb1fe_9bdc06a7_c19bf174;
     0xe49b69c1_efbe4786_0fc19dc6_240ca1cc_2de92c6f_4a7484aa_5cb0a9dc_76f988da;
     0x983e5152_a831c66d_b00327c8_bf597fc7_c6e00bf3_d5a79147_06ca6351_14292967;
     0x27b70a85_2e1b2138_4d2c6dfc_53380d13_650a7354_766a0abb_81c2c92e_92722c85;
     0xa2bfe8a1_a81a664b_c24b8b70_c76c51a3_d192e819_d6990624_f40e3585_106aa070;
     0x19a4c116_1e376c08_2748774c_34b0bcb5_391c0cb3_4ed8aa4a_5b9cca4f_682e6ff3;
     0x748f82ee_78a5636f_84c87814_8cc70208_90befffa_a4506ceb_bef9a3f7_c67178f2]).

Definition H0 : Sha := sha_init.

Record Sha256 := mk_sha256 {
  s2_h : Sha;
  s2_block : bytes;
  s2_filled : nat;
  s2_len : Z
}.
#[export] Instance Sha256_eta : Eta Sha256 := fun r =>
  mk_sha256 (s2_h r) (s2_block r) (s2_filled r) (s2_len r).

Definition sha256_new : Sha256 := mk_sha256 H0 (repeat 0 64) 0 0.

(** [compress]: the words of the block, the schedule, the 64 rounds with [K], and the sums. *)
Definition compress (s : Sha256) (block : bytes) : Sha256 :=
  let w := schedule 48 (from_be_bytes <$> chunks_exact 16 4 block) in
  let r := fold_left sha_round (combine K w) (s2_h s) in
  let h := s2_h s in
  s <| s2_h :=
         mk_sha (wrapping_add (sha_a h) (sha_a r)) (wrapping_add (sha_b h) (sha_b r))
           (wrapping_add (sha_c h) (sha_c r)) (wrapping_add (sha_d h) (sha_d r))
           (wrapping_add (sha_e h) (sha_e r)) (wrapping_add (sha_f h) (sha_f r))
           (wrapping_add (sha_g h) (sha_g r)) (wrapping_add (sha_h h) (sha_h r)) |>.

(** [block[at..at + data.len()].copy_from_slice(data)]. *)
Definition overlay (block : bytes) (at_ : nat) (data : bytes) : bytes :=
  take at_ block ++ data ++ drop (at_ + List.length data) block.

(** [while data.len() >= 64]: the whole blocks of the input, and what is left of it. *)
Fixpoint compress_blocks (fuel : nat) (s : Sha256) (data : bytes) : Sha256 * bytes :=
  match fuel with
  | O => (s, data)
  | S fuel =>
      if (64 <=? List.length data)%nat
      then compress_blocks fuel (compress s (take 64 data)) (drop 64 data)
      else (s, data)
  end.

(** The part of the input that fills a block begun before. *)
Definition fill_block (s : Sha256) (data : bytes) : Sha256 * bytes :=
  if (0 <? s2_filled s)%nat then
    let take_ := Nat.min (64 - s2_filled s) (List.length data) in
    let s := s <| s2_block := overlay (s2_block s) (s2_filled s) (take take_ data) |>
               <| s2_filled := (s2_filled s + take_)%nat |> in
    let data := drop take_ data in
    if (s2_filled s =? 64)%nat
    then ((compress s (s2_block s)) <| s2_filled := 0%nat |>, data) else (s, data)
  else (s, data).

Definition update (s : Sha256) (data : bytes) : Sha256 :=
  let s := s <| s2_len := u64_wrap (s2_len s + Z.of_nat (List.length data)) |> in
  let '(s, data) := fill_block s data in
  let '(s, data) := compress_blocks (List.length data) s data in
  match data with
  | [] => s
  | _ => s <| s2_block := overlay (s2_block s) 0 data |> <| s2_filled := List.length data |>
  end.

(** [while self.filled != 56 { self.update(&[0]) }]: 64 turns are enough. *)
Fixpoint fill_zeros (fuel : nat) (s : Sha256) : Sha256 :=
  match fuel with
  | O => s
  | S fuel => if (s2_filled s =? 56)%nat then s else fill_zeros fuel (update s [0])
  end.

Definition finish (s : Sha256) : bytes :=
  let bits := u64_wrap (s2_len s * 8) in
  let s := update s [0x80] in
  let s := fill_zeros 64 s in
  let s := update s (be_bytes 8 bits) in
  flat_map (be_bytes 4) (sha_words (s2_h s)).

Definition sha256_of (data : bytes) : bytes := finish (update sha256_new data).

(** ** HMAC and PBKDF2 *)

Record HmacKey := mk_hmac_key { hk_inner : Sha256; hk_outer : Sha256 }.

Definition xor_with (mask : Z) (k : bytes) : bytes := (fun b => Z.lxor b mask) <$> k.

(** The key, hashed when it is longer than a block, in a block of zeros. *)
Definition key_block (key : bytes) : bytes :=
  if (64 <? List.length key)%nat then overlay (repeat 0 64) 0 (sha256_of key)
  else overlay (repeat 0 64) 0 key.

Definition hmac_key_new (key : bytes) : HmacKey :=
  let k := key_block key in
  mk_hmac_key (update sha256_new (xor_with 0x36 k)) (update sha256_new (xor_with 0x5c k)).

Definition mac (key : HmacKey) (msg : bytes) : bytes :=
  let ih := finish (update (hk_inner key) msg) in
  finish (update (hk_outer key) ih).

Definition hmac_sha256 (key msg : bytes) : bytes := mac (hmac_key_new key) msg.

(** The turns of the PBKDF2 loop: the iterate and the sum so far. *)
Definition pbkdf2_turn (key : HmacKey) (uo : bytes * bytes) : bytes * bytes :=
  let '(u, out) := uo in
  let u := mac key u in
  (u, zip_with Z.lxor out u).

Definition pbkdf2_hmac_sha256 (password salt : bytes) (iters : Z) : bytes :=
  let key := hmac_key_new password in
  let u := mac key (salt ++ be_bytes 4 1) in
  snd (Nat.iter (Z.to_nat (Z.max iters 1 - 1)) (pbkdf2_turn key) (u, u)).

(** ** Comparison *)

Definition ct_eq (a b : bytes) : bool :=
  if negb (List.length a =? List.length b)%nat then false
  else fold_left Z.lor (zip_with Z.lxor a b) 0 =? 0.

(** The published vectors: FIPS 180-4, RFC 4231, and those of PBKDF2. *)
Example streamed_two_blocks :
  flat_map show_hex_byte
    (finish (update (update sha256_new (lit "abcdbcdecdefdefgefghfghighijhij"))
               (lit "kijkljklmklmnlmnomnopnopq")))
  = lit "248d6a61d20638b8e5c026930c3e6039a33ce45964ff2167f6ecedd419db06c1".
Proof. vm_compute. reflexivity. Qed.
Example hmac_short_key :
  flat_map show_hex_byte (hmac_sha256 (lit "Jefe") (lit "what do ya want for nothing?"))
  = lit "5bdcc146bf60754e6a042426089575c75a003f089d2739839dec58b964ec3843".
Proof. vm_compute. reflexivity. Qed.
Example hmac_long_key :
  flat_map show_hex_byte
    (hmac_sha256 (repeat 0xaa 131) (lit "Test Using Larger Than Block-Size Key - Hash Key First"))
  = lit "60e431591ee0b67f0d8a26aacbf5b77f8e0bc6213728c5140546040f0ee37f54".
Proof. vm_compute. reflexivity. Qed.
Example pbkdf2_two_turns :
  flat_map show_hex_byte (pbkdf2_hmac_sha256 (lit "password") (lit "salt") 2)
  = lit "ae4d0c95af6b46d32d0adff928f06dd02a303f8ef3c251dfd6e2d85a95474c43".
Proof. vm_compute. reflexivity. Qed.

(** ** What a state has absorbed *)

Definition whole (m : bytes) : list bytes := chunks_exact (List.length m) 64 m.
Definition hash_of (m : bytes) : Sha := fold_left sha_block (whole m) sha_init.
Definition full_part (m : bytes) : nat := (List.length m - List.length m mod 64)%nat.

(** The blocks of [m] are compressed, the rest of it waits in the buffer. *)
Record absorbed (s : Sha256) (m : bytes) : Prop := mk_absorbed {
  ab_h : s2_h s = hash_of m;
  ab_block : List.length (s2_block s) = 64%nat;
  ab_filled : s2_filled s = (List.length m mod 64)%nat;
  ab_rest : take (s2_filled s) (s2_block s) = drop (full_part m) m
}.

Definition absorbs (s : Sha256) (m : bytes) : Prop :=
  absorbed s m /\ s2_len s = u64_wrap (Z.of_nat (List.length m)).

#[local] Ltac lens := rewrite ?length_app, ?length_take, ?length_drop; cbn [List.length].
#[local] Ltac mods := zify; Z.div_mod_to_equations; lia.

Lemma mod64_room a b : (a mod 64 + b < 64 -> (a + b) mod 64 = a mod 64 + b)%nat.
Proof. mods. Qed.
Lemma mod64_full a b : (a mod 64 + b = 64 -> (a + b) mod 64 = 0)%nat.
Proof. mods. Qed.
Lemma mod64_block a : (a mod 64 = 0 -> (a + 64) mod 64 = 0)%nat.
Proof. mods. Qed.
Lemma mod64_lt a : (a mod 64 < 64 /\ a mod 64 <= a)%nat.
Proof. mods. Qed.
Lemma mod64_div a : (a mod 64 = 0 -> a = a / 64 * 64)%nat.
Proof. mods. Qed.

Lemma K_is_sha_k : K = sha_k.
Proof. by vm_compute. Qed.

Lemma compress_h s b : s2_h (compress s b) = sha_block (s2_h s) b.
Proof.
  unfold compress, sha_block. rewrite K_is_sha_k. cbn [s2_h update Eta].
  by destruct (fold_left sha_round _ (s2_h s)).
Qed.

#[local] Opaque sha_block.
#[local] Arguments compress : simpl never.
#[local] Arguments hash_of : simpl never.
#[local] Arguments overlay : simpl never.

Lemma chunks_exact_fuel n m : forall f f', (List.length m <= n)%nat -> (List.length m <= f)%nat ->
  (List.length m <= f')%nat -> chunks_exact f 64 m = chunks_exact f' 64 m.
Proof.
  revert m. induction n as [|n IH]; intros m f f' Hn Hf Hf'.
  - destruct m; [|cbn in Hn; lia]. by destruct f, f'.
  - destruct f as [|f], f' as [|f']; cbn [chunks_exact]; try (destruct m; [done|cbn in *; lia]).
    destruct (Nat.ltb_spec (List.length m) 64); [done|]. f_equal. apply IH; lens; lia.
Qed.

Lemma whole_short m : (List.length m < 64)%nat -> whole m = [].
Proof.
  intros H. unfold whole. destruct (List.length m) eqn:E; [done|]. cbn [chunks_exact].
  destruct (Nat.ltb_spec (List.length m) 64); [done|lia].
Qed.

Lemma whole_step m : (64 <= List.length m)%nat -> whole m = take 64 m :: whole (drop 64 m).
Proof.
  intros H. unfold whole at 1. destruct (List.length m) eqn:E; [lia|]. cbn [chunks_exact].
  destruct (Nat.ltb_spec (List.length m) 64); [lia|]. f_equal.
  unfold whole. apply (chunks_exact_fuel n); lens; lia.
Qed.

Lemma whole_app n a b : (List.length a = n * 64)%nat -> whole (a ++ b) = whole a ++ whole b.
Proof.
  revert a. induction n as [|n IH]; intros a Ha.
  - destruct a; [done|cbn in Ha; lia].
  - rewrite (whole_step (a ++ b)), (whole_step a) by (lens; lia).
    rewrite take_app_le, drop_app_le by lia. cbn [app]. f_equal. apply IH. lens. lia.
Qed.

Lemma hash_of_app n a b : (List.length a = n * 64)%nat ->
  hash_of (a ++ b) = fold_left sha_block (whole b) (hash_of a).
Proof. intros H. unfold hash_of. by rewrite (whole_app n), fold_left_app. Qed.

(** A message is its whole blocks and a rest shorter than a block. *)
Lemma message_parts m : exists n,
  List.length (take (full_part m) m) = (n * 64)%nat
  /\ List.length (drop (full_part m) m) = (List.length m mod 64)%nat
  /\ hash_of (take (full_part m) m) = hash_of m.
Proof.
  exists (List.length m / 64)%nat. unfold full_part.
  assert (H1 : List.length (take (List.length m - List.length m mod 64) m) = (List.length m / 64 * 64)%nat)
    by (lens; mods).
  assert (H2 : List.length (drop (List.length m - List.length m mod 64) m) = (List.length m mod 64)%nat)
    by (lens; mods).
  split; [done|]. split; [done|].
  rewrite <-(take_drop (List.length m - List.length m mod 64) m) at 4.
  rewrite (hash_of_app _ _ _ H1), (whole_short (drop _ m)); [done|]. rewrite H2. mods.
Qed.

Lemma hash_of_tail m data :
  hash_of (m ++ data) = fold_left sha_block (whole (drop (full_part m) m ++ data)) (hash_of m).
Proof.
  destruct (message_parts m) as (n & P1 & _ & P3). rewrite <-P3, <-(hash_of_app n) by done.
  by rewrite app_assoc, take_drop.
Qed.

Lemma hash_of_rest m data : (List.length m mod 64 + List.length data < 64)%nat -> hash_of (m ++ data) = hash_of m.
Proof.
  intros H. destruct (message_parts m) as (_ & _ & P2 & _).
  rewrite hash_of_tail, whole_short; [done|]. rewrite length_app. lia.
Qed.

Lemma hash_of_block m data : (List.length m mod 64 + List.length data = 64)%nat ->
  hash_of (m ++ data) = sha_block (hash_of m) (drop (full_part m) m ++ data).
Proof.
  intros H. destruct (message_parts m) as (_ & _ & P2 & _). rewrite hash_of_tail.
  assert (Hb : List.length (drop (full_part m) m ++ data) = 64%nat) by (rewrite length_app; lia).
  rewrite (whole_step _ ltac:(rewrite Hb; lia)), (whole_short (drop 64 _)) by (rewrite length_drop; lia).
  rewrite take_ge by lia. cbn [fold_left]. reflexivity.
Qed.

Lemma sha256_new_absorbs : absorbs sha256_new [].
Proof. split; [by split|done]. Qed.

(** A block on a block boundary. *)
Lemma compress_absorbed s m b : absorbed s m -> (List.length m mod 64 = 0)%nat -> List.length b = 64%nat ->
  absorbed (compress s b) (m ++ b).
Proof.
  intros [Hh Hb Hf Hr] Hm Hl.
  pose proof (mod64_div _ Hm) as Hn. pose proof (mod64_block _ Hm) as Hmb.
  split; [|exact Hb| |].
  - rewrite compress_h, Hh, (hash_of_app _ _ _ Hn), (whole_step b) by lia.
    rewrite (whole_short (drop 64 b)), take_ge by (lens; lia). cbn [fold_left]. reflexivity.
  - change (s2_filled (compress s b)) with (s2_filled s). by rewrite Hf, length_app, Hl, Hmb, Hm.
  - change (s2_filled (compress s b)) with (s2_filled s). rewrite Hf, Hm.
    rewrite drop_ge; [done|]. unfold full_part. rewrite length_app, Hl, Hmb. lia.
Qed.

Lemma compress_blocks_absorbed fuel : forall s m data s' rest,
  (List.length data <= fuel)%nat -> absorbed s m -> (List.length m mod 64 = 0)%nat ->
  compress_blocks fuel s data = (s', rest) ->
  exists done_, data = done_ ++ rest /\ absorbed s' (m ++ done_)
    /\ (List.length (m ++ done_) mod 64 = 0)%nat /\ (List.length rest < 64)%nat.
Proof.
  induction fuel as [|fuel IH]; intros s m data s' rest Hl Ha Hm; cbn [compress_blocks].
  - intros [= <- <-]. exists []. rewrite app_nil_r. cbn. repeat split; auto; try apply Ha; lia.
  - destruct (Nat.leb_spec 64 (List.length data)) as [Hge|Hlt].
    + intros H.
      assert (Hmod : (List.length (m ++ take 64 data) mod 64 = 0)%nat).
      { rewrite length_app, length_take, Nat.min_l by done. by apply mod64_block. }
      assert (Ha' : absorbed (compress s (take 64 data)) (m ++ take 64 data))
        by (apply compress_absorbed; [done|done|lens; lia]).
      assert (Hl' : (List.length (drop 64 data) <= fuel)%nat) by (lens; lia).
      destruct (IH _ _ _ _ _ Hl' Ha' Hmod H) as (d & Hd & Had & Hmd & ?).
      exists (take 64 data ++ d). rewrite <-(app_assoc _ d rest), <-Hd, take_drop.
      rewrite app_assoc in *. done.
    + intros [= <- <-]. exists []. rewrite app_nil_r. done.
Qed.

Lemma take_overlay block at_ data : (at_ <= List.length block)%nat ->
  take (at_ + List.length data) (overlay block at_ data) = take at_ block ++ data.
Proof.
  intros H. unfold overlay. rewrite app_assoc, take_app_le by (lens; lia).
  apply take_ge. lens. lia.
Qed.

Lemma length_overlay block at_ data : (at_ + List.length data <= List.length block)%nat ->
  List.length (overlay block at_ data) = List.length block.
Proof. intros H. unfold overlay. lens. lia. Qed.

(** A rest that does not fill the block. *)
Lemma buffer_absorbed s m data : absorbed s m -> (List.length m mod 64 + List.length data < 64)%nat ->
  absorbed (s <| s2_block := overlay (s2_block s) (s2_filled s) data |>
              <| s2_filled := (s2_filled s + List.length data)%nat |>) (m ++ data).
Proof.
  intros [Hh Hb Hf Hr] Hl.
  assert (Hmod : (List.length (m ++ data) mod 64 = List.length m mod 64 + List.length data)%nat)
    by (rewrite length_app; by apply mod64_room).
  pose proof (mod64_lt (List.length m)) as [Hlt Hle].
  split; cbn -[Nat.modulo].
  - by rewrite Hh, hash_of_rest.
  - rewrite length_overlay; lia.
  - rewrite Hmod. lia.
  - rewrite take_overlay by lia. rewrite Hr. unfold full_part in *. rewrite Hmod. lens.
    replace (List.length m + List.length data - (List.length m mod 64 + List.length data))%nat
      with (List.length m - List.length m mod 64)%nat by lia.
    by rewrite drop_app_le by lia.
Qed.

Lemma fill_block_absorbed s m data s' rest : absorbed s m -> fill_block s data = (s', rest) ->
  exists filled, data = filled ++ rest /\ absorbed s' (m ++ filled)
    /\ (rest = [] \/ (List.length (m ++ filled) mod 64 = 0)%nat).
Proof.
  intros Ha. unfold fill_block. destruct (Nat.ltb_spec 0 (s2_filled s)) as [Hpos|Hzero].
  2:{ intros [= <- <-]. exists []. rewrite app_nil_r. split; [done|]. split; [done|]. right.
      rewrite <-(ab_filled _ _ Ha). lia. }
  pose proof (ab_filled _ _ Ha) as Hf. pose proof (ab_block _ _ Ha) as Hb.
  set (k := Nat.min (64 - s2_filled s) (List.length data)).
  assert (Hk : List.length (take k data) = k) by (lens; lia).
  match goal with |- context [(s2_filled ?x =? 64)%nat] => change (s2_filled x) with (s2_filled s + k)%nat end.
  destruct (Nat.eqb_spec (s2_filled s + k) 64) as [Hfull|Hpart].
  - intros [= <- <-]. exists (take k data). rewrite take_drop. split; [done|].
    assert (Hmod : (List.length (m ++ take k data) mod 64 = 0)%nat) by (rewrite length_app, Hk; apply mod64_full; lia).
    split; [|by right].
    assert (Hblock : overlay (s2_block s) (s2_filled s) (take k data) = drop (full_part m) m ++ take k data).
    { rewrite <-(ab_rest _ _ Ha). unfold overlay. rewrite (drop_ge (s2_block s)), app_nil_r by lia. done. }
    split; cbn -[Nat.modulo].
    + change (s2_h (compress s (overlay (s2_block s) (s2_filled s) (take k data))) = hash_of (m ++ take k data)).
      rewrite compress_h, (ab_h _ _ Ha), Hblock, hash_of_block; [done|lia].
    + change (List.length (overlay (s2_block s) (s2_filled s) (take k data)) = 64%nat).
      rewrite length_overlay; lia.
    + by rewrite Hmod.
    + rewrite drop_ge; [done|]. unfold full_part. lia.
  - intros [= <- <-]. exists (take k data). rewrite take_drop. split; [done|].
    assert (Hk' : k = List.length data) by lia.
    split; [|left; apply drop_ge; lia].
    rewrite take_ge by lia. rewrite Hk'. apply buffer_absorbed; [done|lia].
Qed.

Lemma absorbed_len s m z : absorbed s m -> absorbed (s <| s2_len := z |>) m.
Proof. by intros []. Qed.

Lemma compress_blocks_len fuel : forall s data, s2_len (compress_blocks fuel s data).1 = s2_len s.
Proof.
  induction fuel as [|fuel IH]; intros s data; cbn [compress_blocks]; [done|].
  destruct (_ <=? _)%nat; [by rewrite IH|done].
Qed.

Lemma fill_block_len s data : s2_len (fill_block s data).1 = s2_len s.
Proof. unfold fill_block. destruct (_ <? _)%nat; [|done]. by destruct (_ =? _)%nat. Qed.

Lemma u64_wrap_add a b : u64_wrap (u64_wrap a + b) = u64_wrap (a + b).
Proof. unfold u64_wrap. apply Zplus_mod_idemp_l. Qed.

Lemma u64_wrap_mul a b : u64_wrap (u64_wrap a * b) = u64_wrap (a * b).
Proof. unfold u64_wrap. apply Zmult_mod_idemp_l. Qed.

(** Whatever its size, an input is absorbed. *)
Lemma update_absorbs s m data : absorbs s m -> absorbs (update s data) (m ++ data).
Proof.
  intros [Ha Hlen]. unfold update.
  set (s0 := s <| s2_len := _ |>).
  assert (Ha0 : absorbed s0 m) by by apply absorbed_len.
  assert (Hl0 : s2_len s0 = u64_wrap (Z.of_nat (List.length (m ++ data)))).
  { subst s0. cbn. by rewrite Hlen, u64_wrap_add, length_app, Nat2Z.inj_add. }
  clearbody s0. clear s Ha Hlen.
  pose proof (fill_block_len s0 data) as L1.
  destruct (fill_block s0 data) as [s1 d1] eqn:E1. cbn [fst] in L1.
  destruct (fill_block_absorbed _ _ _ _ _ Ha0 E1) as (f1 & -> & A1 & H1).
  pose proof (compress_blocks_len (List.length d1) s1 d1) as L2.
  destruct (compress_blocks (List.length d1) s1 d1) as [s2 d2] eqn:E2. cbn [fst] in L2.
  assert (exists f2, d1 = f2 ++ d2 /\ absorbed s2 (m ++ f1 ++ f2)
            /\ (d2 = [] \/ ((List.length (m ++ f1 ++ f2) mod 64 = 0)%nat /\ (List.length d2 < 64)%nat)))
    as (f2 & -> & A2 & H2).
  { destruct H1 as [-> | H1].
    - injection E2 as <- <-. exists []. rewrite !app_nil_r. auto.
    - destruct (compress_blocks_absorbed _ _ _ _ _ _ (le_n _) A1 H1 E2) as (f2 & ? & ? & ? & ?).
      exists f2. rewrite app_assoc. auto. }
  rewrite <-L1, <-L2 in *. destruct d2 as [|b d2].
  - rewrite app_nil_r in *. by split.
  - destruct H2 as [|[Hm Hlt]]; [done|]. split; [|done].
    pose proof (ab_filled _ _ A2) as Hf. rewrite Hm in Hf.
    pose proof (buffer_absorbed s2 (m ++ f1 ++ f2) (b :: d2) A2) as B. rewrite Hf, Hm in B.
    replace (m ++ f1 ++ f2 ++ b :: d2) with ((m ++ f1 ++ f2) ++ b :: d2) by (by rewrite <-!app_assoc).
    apply B. lia.
Qed.

Lemma updates_absorb chunks_ : absorbs (fold_left update chunks_ sha256_new) (concat chunks_).
Proof.
  induction chunks_ as [|c l IH] using rev_ind; [exact sha256_new_absorbs|].
  rewrite fold_left_app, concat_app. cbn [fold_left concat]. rewrite app_nil_r. by apply update_absorbs.
Qed.

(** The padding loop of the stream is the one of the one-shot hash. *)
Lemma fill_zeros_absorbs fuel : forall s m, absorbs s m -> absorbs (fill_zeros fuel s) (pad_zeros fuel m).
Proof.
  induction fuel as [|fuel IH]; intros s m Ha; cbn [fill_zeros pad_zeros]; [done|].
  destruct Ha as [Ha Hl]. rewrite (ab_filled _ _ Ha). destruct (_ =? _)%nat; [done|].
  by apply IH, update_absorbs.
Qed.

Lemma finish_absorbs s m : absorbs s m -> finish s = sha256 m.
Proof.
  intros Ha. unfold finish, sha256. cbn zeta.
  set (padded := update _ (be_bytes 8 _)).
  assert (Hp : absorbs padded (pad m)).
  { subst padded. unfold pad. rewrite (proj2 Ha), u64_wrap_mul.
    apply update_absorbs, fill_zeros_absorbs, update_absorbs, Ha. }
  clearbody padded. rewrite (ab_h _ _ (proj1 Hp)). reflexivity.
Qed.

(** The two SHA-256s of the program agree.  The streaming hash, fed a message in pieces of any sizes,
    gives what the one-shot hash gives on the whole message, whatever waits in the buffer between
    the pieces. *)
Theorem streaming_is_one_shot pieces :
  finish (fold_left update pieces sha256_new) = sha256 (concat pieces).
Proof. apply finish_absorbs, updates_absorb. Qed.

Lemma sha256_of_is_sha256 data : sha256_of data = sha256 data.
Proof. unfold sha256_of. apply finish_absorbs, (update_absorbs _ []), sha256_new_absorbs. Qed.

(** HMAC by the letter of RFC 2104: the key hashed when it is longer than a block, then filled with
    zeros. *)
Definition rfc_key (key : bytes) : bytes :=
  let key := if (64 <? List.length key)%nat then sha256 key else key in
  key ++ repeat 0 (64 - List.length key).
Definition rfc_hmac (key msg : bytes) : bytes :=
  sha256 (xor_with 0x5c (rfc_key key) ++ sha256 (xor_with 0x36 (rfc_key key) ++ msg)).

Lemma overlay_zeros data : (List.length data <= 64)%nat ->
  overlay (repeat 0 64) 0 data = data ++ repeat 0 (64 - List.length data).
Proof.
  intros H. unfold overlay. rewrite take_0. cbn [app Nat.add]. f_equal.
  replace (repeat 0 64) with (repeat 0 (List.length data) ++ repeat 0 (64 - List.length data))
    by (rewrite <-repeat_app; f_equal; lia).
  rewrite drop_app_ge by (rewrite repeat_length; lia). by rewrite repeat_length, Nat.sub_diag.
Qed.

Lemma key_block_rfc key : key_block key = rfc_key key.
Proof.
  unfold key_block, rfc_key. destruct (Nat.ltb_spec 64 (List.length key)).
  - rewrite sha256_of_is_sha256. apply overlay_zeros. rewrite (proj1 (sha256_bytes key)). lia.
  - by apply overlay_zeros.
Qed.

Lemma mac_is_rfc key msg : mac (hmac_key_new key) msg = rfc_hmac key msg.
Proof.
  unfold mac, hmac_key_new, rfc_hmac. cbn zeta. rewrite key_block_rfc. cbn [hk_inner hk_outer].
  assert (H : forall mask m, finish (update (update sha256_new (xor_with mask (rfc_key key))) m)
                             = sha256 (xor_with mask (rfc_key key) ++ m)).
  { intros mask m. apply finish_absorbs, update_absorbs, (update_absorbs _ []), sha256_new_absorbs. }
  by rewrite !H.
Qed.

(** The iterates of PBKDF2, RFC 8018: the salt with the block index one, then each the code of the
    one before. *)
Fixpoint rfc_iterates (n : nat) (password u : bytes) : list bytes :=
  match n with O => [] | S n => u :: rfc_iterates n password (rfc_hmac password u) end.
Definition rfc_pbkdf2 (n : nat) (password salt : bytes) : bytes :=
  let us := rfc_iterates n password (rfc_hmac password (salt ++ [0; 0; 0; 1])) in
  fold_left (zip_with Z.lxor) (drop 1 us) (hd [] us).

Lemma pbkdf2_turns n password : forall u out,
  snd (Nat.iter n (pbkdf2_turn (hmac_key_new password)) (u, out))
  = fold_left (zip_with Z.lxor) (rfc_iterates n password (rfc_hmac password u)) out.
Proof.
  induction n as [|n IH]; intros u out; [done|].
  rewrite Nat.iter_succ_r. cbn [pbkdf2_turn rfc_iterates fold_left]. cbn zeta. by rewrite IH, mac_is_rfc.
Qed.

(** The PIN verifier is built by the standards' constructions: the keyed hash is HMAC of RFC 2104 for
    a key of any length, and the derived value is the exclusive-or of the iterates of PBKDF2, one of
    them at least, even where none was asked for. *)
Theorem verifier_is_the_standard_construction key msg password salt iters :
  hmac_sha256 key msg = rfc_hmac key msg
  /\ pbkdf2_hmac_sha256 password salt iters = rfc_pbkdf2 (Z.to_nat (Z.max iters 1)) password salt
  /\ pbkdf2_hmac_sha256 password salt 0 = pbkdf2_hmac_sha256 password salt 1.
Proof.
  split; [apply mac_is_rfc|]. split; [|reflexivity].
  unfold pbkdf2_hmac_sha256, rfc_pbkdf2. cbn zeta. rewrite pbkdf2_turns, mac_is_rfc.
  replace (Z.to_nat (Z.max iters 1)) with (S (Z.to_nat (Z.max iters 1 - 1))) by lia. reflexivity.
Qed.

(** ** Comparing without an early exit *)

Lemma fold_lor_zero l : forall acc, Forall (fun z => 0 <= z) (acc :: l) ->
  fold_left Z.lor l acc = 0 <-> acc = 0 /\ Forall (fun z => z = 0) l.
Proof.
  induction l as [|x l IH]; intros acc [Ha Hl]%Forall_cons; cbn [fold_left].
  - split; [intros ->; by split|by intros [-> _]].
  - apply Forall_cons in Hl as [Hx Hl]. rewrite IH.
    + rewrite Z.lor_eq_0_iff, Forall_cons. tauto.
    + apply Forall_cons. split; [by apply Z.lor_nonneg|done].
Qed.

(** The constant-time comparison is equality: it spends its time on every byte and still answers
    exactly whether the two byte strings are the same. *)
Theorem ct_eq_is_equality a b :
  Forall is_u8 a -> Forall is_u8 b -> ct_eq a b = true <-> a = b.
Proof.
  intros Ha Hb. unfold ct_eq. destruct (Nat.eqb_spec (List.length a) (List.length b)) as [Hl|Hl]; cbn [negb].
  2:{ split; [done|congruence]. }
  rewrite Z.eqb_eq, fold_lor_zero.
  - split; [|intros ->; split; [done|]].
    + intros [_ H]. clear Ha Hb. revert b Hl H. induction a as [|x a IH]; intros [|y b] Hl H; try done.
      cbn in H. apply Forall_cons in H as [Hx%Z.lxor_eq H]. subst y. f_equal. apply IH; [by injection Hl|done].
    + clear. induction b as [|x b IH]; cbn; [constructor|]. constructor; [apply Z.lxor_nilpotent|done].
  - apply Forall_cons. split; [done|]. revert b Hb Hl. induction Ha as [|x a Hx Ha IH]; intros [|y b] Hb Hl; cbn; try constructor.
    + apply Forall_cons in Hb as [Hy _]. apply Z.lxor_nonneg. unfold is_u8 in *. lia.
    + apply Forall_cons in Hb as [_ Hb]. apply IH; [done|by injection Hl].
Qed.
