(* ===== verification/Pins.v ===== *)
(** * Base64 and public-key pins

    [base/src/b64.rs] and [base/src/spki.rs]: from the PEM text of a server's certificate to the pin
    of its public key.  The text comes off the network: every read of it is bounds-checked and a
    malformed one is [None]. *)

From Stdlib Require Import String ZifyNat.
From S2P Require Import Prelude Bytes Digest Hashing.

#[local] Open Scope Z_scope.

(** ** Base64 *)

Definition B64 : bytes := lit "ABCDEFGHIJKLMNOPQRSTUVWXYZabcdefghijklmnopqrstuvwxyz0123456789+/".
Definition EQUALS : Z := 61.

(** One chunk of one to three bytes: four characters. *)
Definition encode_chunk (chunk : bytes) : bytes :=
  let byte i := default 0 (chunk !! i) in
  let n := Z.lor (Z.lor (Z.shiftl (byte 0%nat) 16) (Z.shiftl (byte 1%nat) 8)) (byte 2%nat) in
  (fun i => if (i <=? List.length chunk)%nat
            then default 0 (B64 !! Z.to_nat (Z.land (Z.shiftr n (18 - Z.of_nat i * 6)) 63))
            else EQUALS) <$> [0; 1; 2; 3]%nat.

Definition encode (data : bytes) : bytes := flat_map encode_chunk (chunks (List.length data) 3 data).

(** The loop of [decode], from an accumulator with [bits] bits not written yet. *)
Fixpoint decode_from (acc bits : Z) (text : bytes) : option bytes :=
  match text with
  | [] => Some []
  | ch :: text =>
      if ch =? EQUALS then Some []
      else
        i ← find_byte (fun x => x =? ch) B64;
        let acc := Z.lor (u32_wrap (Z.shiftl acc 6)) (Z.of_nat i) in
        let bits := bits + 6 in
        if 8 <=? bits then
          let bits := bits - 8 in
          cons (Z.shiftr acc bits mod 256) <$> decode_from acc bits text
        else decode_from acc bits text
  end.

Definition decode (text : bytes) : option bytes :=
  if negb (List.length text mod 4 =? 0)%nat then None else decode_from 0 0 text.

(** ** DER *)

Definition TAG_INTEGER : Z := 0x02.
Definition TAG_SEQUENCE : Z := 0x30.
Definition TAG_VERSION : Z := 0xA0.

Record Tlv := mk_tlv { tl_tag : Z; tl_whole : bytes; tl_contents : bytes }.

(** [get(a..b)]. *)
Definition get_range (a b : nat) (s : bytes) : option bytes :=
  if (a <=? b)%nat && (b <=? List.length s)%nat then Some (take (b - a) (drop a s)) else None.

(** The length that starts at the second byte: the size of the header, and the length. *)
Definition read_length (first : Z) (buf : bytes) : option (nat * Z) :=
  if first <=? 0x7F then Some (2%nat, first)
  else if first =? 0x80 then None
  else if first <=? 0x84 then
    let n := Z.to_nat (Z.land first 0x7F) in
    octets ← get_range 2 (2 + n) buf;
    Some ((2 + n)%nat, fold_left (fun len b => Z.lor (u32_wrap (Z.shiftl len 8)) b) octets 0)
  else None.

Definition read_tlv (buf : bytes) : option (Tlv * bytes) :=
  tag ← head buf;
  if Z.land tag 0x1F =? 0x1F then None
  else
    first ← buf !! 1%nat;
    '(header, len) ← read_length first buf;
    stop ← usize_checked (Z.of_nat header + len);
    let stop := Z.to_nat stop in
    whole ← get_range 0 stop buf;
    contents ← get_range header stop buf;
    rest ← get_range stop (List.length buf) buf;
    Some (mk_tlv tag whole contents, rest).

Definition expect_tag (buf : bytes) (tag : Z) : option (Tlv * bytes) :=
  '(t, rest) ← read_tlv buf; if tl_tag t =? tag then Some (t, rest) else None.

(** [for _ in 0..n]: past [n] sequences. *)
Fixpoint skip_sequences (n : nat) (rest : bytes) : option bytes :=
  match n with
  | O => Some rest
  | S n => '(_, rest) ← expect_tag rest TAG_SEQUENCE; skip_sequences n rest
  end.

Definition spki_of_certificate (der : bytes) : option bytes :=
  '(cert, _) ← expect_tag der TAG_SEQUENCE;
  '(tbs, _) ← expect_tag (tl_contents cert) TAG_SEQUENCE;
  let rest := tl_contents tbs in
  rest ← (if bool_decide (head rest = Some TAG_VERSION) then snd <$> read_tlv rest else Some rest);
  '(_, rest) ← expect_tag rest TAG_INTEGER;
  rest ← skip_sequences 4 rest;
  '(spki, _) ← expect_tag rest TAG_SEQUENCE;
  Some (tl_whole spki).

(** ** PEM *)

Definition BEGIN_ : bytes := lit "-----BEGIN CERTIFICATE-----".
Definition END_ : bytes := lit "-----END CERTIFICATE-----".

(** [chars().filter(|c| !c.is_whitespace())]; the white-space characters start where a character
    does. *)
Fixpoint strip_white (fuel : nat) (s : bytes) : bytes :=
  match fuel with
  | O => s
  | S fuel =>
      match s with
      | [] => []
      | b :: s' =>
          match list_find (fun w => strip_prefix w s <> None) white_space with
          | Some (_, w) => strip_white fuel (default s' (strip_prefix w s))
          | None => b :: strip_white fuel s'
          end
      end
  end.
Definition without_white (s : bytes) : bytes := strip_white (List.length s) s.

Definition first_der (text : bytes) : option bytes :=
  '(_, after) ← split_once_str BEGIN_ text;
  '(body, _) ← split_once_str END_ after;
  decode (without_white body).

Definition pin_from_spki_der (spki : bytes) : bytes := lit "sha256//" ++ encode (sha256_of spki).

Definition pin_from_pem (pem : bytes) : option bytes :=
  der ← first_der pem;
  pin_from_spki_der <$> spki_of_certificate der.

Example b64_vectors :
  (encode ∘ lit <$> ["f"; "fo"; "foo"; "foob"; "fooba"; "foobar"]%string)
  = (lit <$> ["Zg=="; "Zm8="; "Zm9v"; "Zm9vYg=="; "Zm9vYmE="; "Zm9vYmFy"]%string).
Proof. vm_compute. reflexivity. Qed.
Example b64_reads : decode (lit "Zm9vYmE=") = Some (lit "fooba") /\ decode (lit "Zm9") = None.
Proof. vm_compute. done. Qed.

(** ** Base64 round trips *)

Definition letter (n : Z) : Z := default 0 (B64 !! Z.to_nat n).

Lemma find_letter n : 0 <= n < 64 ->
  find_byte (fun x => x =? letter n) B64 = Some (Z.to_nat n) /\ letter n <> EQUALS.
Proof.
  intros Hn. unfold letter.
  assert (Hall : forallb (fun i => bool_decide (find_byte (fun x => x =? default 0 (B64 !! i)) B64 = Some i
                                                /\ default 0 (B64 !! i) <> EQUALS)) (seq 0 64) = true)
    by by vm_compute.
  rewrite forallb_forall in Hall. specialize (Hall (Z.to_nat n)).
  rewrite bool_decide_eq_true in Hall. apply Hall. apply in_seq. lia.
Qed.

Lemma shift_in acc i : 0 <= i < 64 ->
  Z.lor (u32_wrap (Z.shiftl acc 6)) i = acc mod 67108864 * 64 + i.
Proof.
  intros Hi. replace (u32_wrap (Z.shiftl acc 6)) with (Z.shiftl (acc mod 67108864) 6).
  - by rewrite lor_shiftl by (change (2 ^ 6) with 64; lia).
  - unfold u32_wrap. rewrite !Z.shiftl_mul_pow2 by lia. change (2 ^ 6) with 64.
    Z.div_mod_to_equations; lia.
Qed.

Lemma decode_letter acc bits i text : 0 <= i < 64 ->
  decode_from acc bits (letter i :: text)
  = (let acc := acc mod 67108864 * 64 + i in
     if 8 <=? bits + 6
     then cons (acc / 2 ^ (bits - 2) mod 256) <$> decode_from acc (bits - 2) text
     else decode_from acc (bits + 6) text).
Proof.
  intros Hi. destruct (find_letter i Hi) as [Hf He]. cbn [decode_from].
  rewrite (proj2 (Z.eqb_neq _ _) He), Hf. cbn [mbind option_bind].
  rewrite Z2Nat.id, shift_in by lia. cbv zeta. replace (bits + 6 - 8) with (bits - 2) by lia.
  destruct (Z.leb_spec 8 (bits + 6)); [|done]. by rewrite Z.shiftr_div_pow2 by lia.
Qed.

Lemma sextet n shift : 0 <= shift -> Z.land (Z.shiftr n shift) 63 = n / 2 ^ shift mod 64.
Proof.
  intros Hs. change 63 with (Z.ones 6). by rewrite Z.land_ones, Z.shiftr_div_pow2 by lia.
Qed.

(** The four characters of a chunk. *)
Lemma encode_chunk_letters chunk : Forall is_u8 chunk -> (1 <= List.length chunk <= 3)%nat ->
  let byte i := default 0 (chunk !! i) in
  let n := byte 0%nat * 65536 + byte 1%nat * 256 + byte 2%nat in
  encode_chunk chunk
  = take (List.length chunk + 1)
      [letter (n / 262144 mod 64); letter (n / 4096 mod 64); letter (n / 64 mod 64); letter (n mod 64)]
    ++ repeat EQUALS (3 - List.length chunk).
Proof.
  intros Hc Hl byte n.
  assert (Hb : forall i, 0 <= byte i < 256).
  { intros i. subst byte. cbn. destruct (chunk !! i) as [b|] eqn:E; cbn; [|lia].
    pose proof (Forall_lookup_1 _ _ _ _ Hc E) as Hb. unfold is_u8, u8_max in Hb. lia. }
  unfold encode_chunk. fold (byte 0%nat) (byte 1%nat) (byte 2%nat). cbv zeta.
  rewrite chunk_bits by done. fold n.
  change (fmap (M := list) ?f [0; 1; 2; 3]%nat) with [f 0%nat; f 1%nat; f 2%nat; f 3%nat]. cbv beta.
  change (18 - Z.of_nat 0 * 6) with 18. change (18 - Z.of_nat 1 * 6) with 12.
  change (18 - Z.of_nat 2 * 6) with 6. change (18 - Z.of_nat 3 * 6) with 0.
  rewrite !sextet by lia. change (2 ^ 18) with 262144. change (2 ^ 12) with 4096.
  change (2 ^ 6) with 64. change (2 ^ 0) with 1. rewrite Z.div_1_r.
  unfold letter. clear Hb. clearbody n. clear byte.
  destruct chunk as [|? [|? [|? [|? ?]]]]; cbn [List.length] in Hl |- *; try lia; reflexivity.
Qed.

(** The decoder at one letter: with fewer than two bits pending it only takes the six bits in. *)
Lemma decode_dry acc i text : 0 <= i < 64 ->
  decode_from acc 0 (letter i :: text) = decode_from (acc mod 67108864 * 64 + i) 6 text.
Proof. intros Hi. by rewrite decode_letter. Qed.

Lemma decode_wet acc bits i text : 0 <= i < 64 -> 2 <= bits ->
  decode_from acc bits (letter i :: text)
  = cons ((acc mod 67108864 * 64 + i) / 2 ^ (bits - 2) mod 256)
      <$> decode_from (acc mod 67108864 * 64 + i) (bits - 2) text.
Proof. intros Hi Hb. rewrite decode_letter by done. cbv zeta. by rewrite (proj2 (Z.leb_le 8 (bits + 6))) by lia. Qed.

Lemma fmap_three (a b c : Z) (o : option bytes) :
  cons a <$> (cons b <$> (cons c <$> o)) = app [a; b; c] <$> o.
Proof. by destruct o. Qed.

(** Byte strings of the same length, computed by shifts and masks. *)
#[local] Ltac bytes_eq :=
  repeat (first [reflexivity | apply (f_equal2 cons); [Z.div_mod_to_equations; lia|]
                | apply (f_equal Some) | apply (f_equal app)]; cbn).

(** The decoder at a chunk's four characters, whatever its accumulator held. *)
Lemma decode_four acc i0 i1 i2 i3 rest :
  0 <= i0 < 64 -> 0 <= i1 < 64 -> 0 <= i2 < 64 -> 0 <= i3 < 64 ->
  exists acc', decode_from acc 0 (letter i0 :: letter i1 :: letter i2 :: letter i3 :: rest)
  = app [i0 * 4 + i1 / 16; i1 mod 16 * 16 + i2 / 4; i2 mod 4 * 64 + i3] <$> decode_from acc' 0 rest.
Proof.
  intros H0 H1 H2 H3. rewrite decode_dry by done. do 3 (rewrite decode_wet by lia).
  rewrite fmap_three.
  change (6 - 2) with 4. change (4 - 2) with 2. change (2 - 2) with 0.
  change (2 ^ 4) with 16. change (2 ^ 2) with 4. change (2 ^ 0) with 1. rewrite Z.div_1_r.
  eexists. f_equal. bytes_eq.
Qed.

Lemma decode_padding acc bits k rest : decode_from acc bits (repeat EQUALS (S k) ++ rest) = Some [].
Proof. reflexivity. Qed.

Lemma decode_chunk acc chunk rest : Forall is_u8 chunk -> (1 <= List.length chunk <= 3)%nat ->
  (List.length chunk = 3%nat \/ rest = []) ->
  exists acc', decode_from acc 0 (encode_chunk chunk ++ rest) = app chunk <$> decode_from acc' 0 rest.
Proof.
  intros Hu Hl Hr. rewrite encode_chunk_letters by done. cbv zeta.
  destruct chunk as [|a [|b [|c [|d chunk]]]]; cbn [List.length] in Hl, Hr; try lia;
    repeat (apply Forall_cons in Hu as [? Hu]); unfold is_u8, u8_max in *;
    cbn [List.length Nat.add Nat.sub take app default lookup list_lookup from_option];
    repeat match goal with |- context [letter (?x mod 64)] =>
      let i := fresh "i" in let Hi := fresh "Hi" in
      assert (exists i, i = x mod 64 /\ 0 <= i < 64) as (i & Hi & ?)
        by (eexists; split; [reflexivity|apply Z.mod_pos_bound; lia]); rewrite <- Hi end.
  - destruct Hr as [Hr|Hr]; [done|subst rest]. exists 0. rewrite app_nil_r, decode_dry, decode_wet by lia.
    change (2 ^ (6 - 2)) with 16. change (id a) with a in *. bytes_eq.
  - destruct Hr as [Hr|Hr]; [done|subst rest]. exists 0. rewrite app_nil_r, decode_dry, !decode_wet by lia.
    change (2 ^ (6 - 2)) with 16. change (2 ^ (6 - 2 - 2)) with 4.
    change (id a) with a in *. change (id b) with b in *. bytes_eq.
  - cbn [repeat app]. destruct (decode_four acc i i0 i1 i2 rest) as [acc' ->]; [done..|]. exists acc'.
    change (id a) with a in *. change (id b) with b in *. change (id c) with c in *.
    change (fun m => a :: b :: c :: m) with (app [a; b; c]). f_equal. bytes_eq.
Qed.

Lemma decode_chunks n data acc : (List.length data <= n)%nat -> Forall is_u8 data ->
  decode_from acc 0 (flat_map encode_chunk (chunks n 3 data)) = Some data.
Proof.
  revert data acc. induction n as [|n IH]; intros data acc Hn Hu.
  { destruct data; [done|cbn in Hn; lia]. }
  destruct data as [|b data]; [done|]. set (l := b :: data) in *.
  assert (Hl : (1 <= List.length l)%nat) by (cbn; lia).
  change (chunks (S n) 3 l) with (take 3 l :: chunks n 3 (drop 3 l)).
  change (flat_map encode_chunk (?x :: ?y)) with (encode_chunk x ++ flat_map encode_chunk y).
  edestruct (decode_chunk acc (take 3 l)) as [acc' ->].
  - by apply Forall_take.
  - rewrite length_take. lia.
  - rewrite length_take. destruct (le_lt_dec 3 (List.length l)); [left; lia|right].
    rewrite drop_ge by lia. by destruct n.
  - rewrite IH by (rewrite ?length_drop; try lia; by apply Forall_drop).
    cbn [fmap option_fmap option_map]. by rewrite take_drop.
Qed.

Lemma length_chunks n data : (List.length data <= n)%nat ->
  List.length (chunks n 3 data) = ((List.length data + 2) / 3)%nat.
Proof.
  revert data. induction n as [|n IH]; intros data Hn; [destruct data; [done|cbn in Hn; lia]|].
  destruct data as [|a [|b [|c data]]]; try done; cbn [chunks drop List.length]; [by destruct n..|].
  rewrite drop_0, IH by (cbn in Hn |- *; lia).
  replace (S (S (S (List.length data))) + 2)%nat with (List.length data + 2 + 1 * 3)%nat by lia.
  rewrite Nat.div_add by lia. lia.
Qed.

Lemma length_encode data : List.length (encode data) = ((List.length data + 2) / 3 * 4)%nat.
Proof.
  unfold encode. rewrite (length_flat_map _ _ 4) by done. by rewrite length_chunks.
Qed.

Lemma letter_in n : 0 <= n < 64 -> letter n ∈ B64.
Proof.
  intros Hn. unfold letter. destruct (B64 !! Z.to_nat n) as [b|] eqn:E; cbn; [by eapply list_elem_of_lookup_2|].
  apply lookup_ge_None_1 in E. change (List.length B64) with 64%nat in E. lia.
Qed.

Lemma base64_reads_back data : Forall is_u8 data -> decode (encode data) = Some data.
Proof. intros Hd. unfold decode. rewrite length_encode, Nat.Div0.mod_mul. by apply decode_chunks. Qed.

Lemma base64_inj a b : Forall is_u8 a -> Forall is_u8 b -> encode a = encode b -> a = b.
Proof. intros Ha%base64_reads_back Hb%base64_reads_back He. congruence. Qed.

(** Base64 round trips: decoding what was encoded gives the bytes back, four characters of the
    alphabet or padding for every started group of three bytes; so two different byte strings are
    never written the same way. *)
Theorem base64_round_trips data : Forall is_u8 data ->
  decode (encode data) = Some data
  /\ List.length (encode data) = ((List.length data + 2) / 3 * 4)%nat
  /\ Forall (fun b => b ∈ B64 \/ b = EQUALS) (encode data)
  /\ (forall data', Forall is_u8 data' -> encode data' = encode data -> data' = data).
Proof.
  intros Hu. split_and!; [by apply base64_reads_back|apply length_encode| |].
  - apply flat_map_Forall. intros chunk _. unfold encode_chunk. cbv zeta. apply Forall_fmap, Forall_forall.
    intros i _. cbn [compose]. destruct (_ <=? _)%nat; [left|by right].
    change 63 with (Z.ones 6). rewrite Z.land_ones by lia. apply letter_in.
    apply Z.mod_pos_bound. lia.
  - intros data' Hu' He. by apply base64_inj.
Qed.

(** ** The grammar of DER *)

(** The length octets of an element whose contents are [n] bytes long: one octet below 128, or the
    count of the octets and one to four octets of the number. *)
Inductive length_field : bytes -> Z -> Prop :=
| length_short n : 0 <= n <= 0x7F -> length_field [n] n
| length_long os : (1 <= List.length os <= 4)%nat ->
    length_field (0x80 + Z.of_nat (List.length os) :: os) (from_be_bytes os).

(** An element: a tag of the low form, the length of the contents, the contents. *)
Definition element (tag : Z) (contents whole : bytes) : Prop :=
  Z.land tag 0x1F <> 0x1F
  /\ exists l, length_field l (Z.of_nat (List.length contents)) /\ whole = tag :: l ++ contents.

(** A buffer of the program: bytes, not longer than the address space. *)
Definition buffer (s : bytes) : Prop := Forall is_u8 s /\ Z.of_nat (List.length s) <= usize_max.

Lemma buffer_app a b : buffer (a ++ b) -> buffer a /\ buffer b.
Proof.
  unfold buffer. rewrite Forall_app, length_app. intros ((? & ?) & ?). split_and!; try done; lia.
Qed.
Lemma element_buffer tag contents whole : element tag contents whole -> buffer whole -> buffer contents.
Proof.
  intros (_ & l & _ & ->) Hb. apply (buffer_app [tag]) in Hb as [_ Hb]. by apply buffer_app in Hb as [_ ?].
Qed.

Lemma get_range_Some a b s r :
  get_range a b s = Some r <-> (a <= b <= List.length s)%nat /\ r = take (b - a) (drop a s).
Proof.
  unfold get_range. destruct (Nat.leb_spec a b), (Nat.leb_spec b (List.length s)); cbn;
    (split; [intros [= <-]|intros [? ->]]); try done; lia.
Qed.

Lemma fold_octets os : forall acc, Forall is_u8 os -> 0 <= acc ->
  (acc + 1) * 256 ^ Z.of_nat (List.length os) <= 4294967296 ->
  fold_left (fun len b => Z.lor (u32_wrap (Z.shiftl len 8)) b) os acc
  = fold_left (fun acc b => acc * 256 + b) os acc.
Proof.
  induction os as [|o os IH]; intros acc Hu Ha Hl; [done|]. apply Forall_cons in Hu as [Ho Hu].
  unfold is_u8, u8_max in Ho. cbn [fold_left List.length] in *.
  rewrite Nat2Z.inj_succ, Z.pow_succ_r in Hl by lia.
  assert (0 < 256 ^ Z.of_nat (List.length os)) by (apply Z.pow_pos_nonneg; lia).
  assert (acc * 256 < 4294967296) by nia.
  assert (Heq : Z.lor (u32_wrap (Z.shiftl acc 8)) o = acc * 256 + o).
  { unfold u32_wrap. rewrite Z.mod_small by (rewrite Z.shiftl_mul_pow2 by lia; change (2 ^ 8) with 256; lia).
    by rewrite lor_shiftl by (change (2 ^ 8) with 256; lia). }
  rewrite Heq. apply IH; [done|lia|nia].
Qed.

Lemma octets_value os : Forall is_u8 os -> (List.length os <= 4)%nat ->
  fold_left (fun len b => Z.lor (u32_wrap (Z.shiftl len 8)) b) os 0 = from_be_bytes os
  /\ 0 <= from_be_bytes os.
Proof.
  intros Hu Hl. split.
  - apply fold_octets; [done|lia|]. transitivity (256 ^ 4); [|done].
    rewrite Z.mul_1_l. apply Z.pow_le_mono_r; lia.
  - unfold from_be_bytes. apply (fold_left_ind _ (fun z => 0 <= z)); [lia|].
    intros z b Hb Hz. rewrite Forall_forall in Hu. specialize (Hu b Hb). unfold is_u8 in Hu. lia.
Qed.

Lemma land_low_tag first n : first = 0x80 + Z.of_nat n -> (1 <= n <= 4)%nat -> Z.to_nat (Z.land first 0x7F) = n.
Proof. intros -> Hn. destruct n as [|[|[|[|[|n]]]]]; try lia; reflexivity. Qed.

(** The length octets are read as the grammar has them. *)
Lemma read_length_iff tag first r header len : buffer (tag :: first :: r) ->
  read_length first (tag :: first :: r) = Some (header, len)
  <-> exists os, length_field (first :: os) len /\ header = (2 + List.length os)%nat
                 /\ exists rest, r = os ++ rest.
Proof.
  intros [Hb _]. apply Forall_cons in Hb as [_ Hb]. apply Forall_cons in Hb as [Hf Hr].
  unfold is_u8, u8_max in Hf. unfold read_length. split.
  - destruct (Z.leb_spec first 0x7F).
    { intros [= <- <-]. exists []. split_and!; [apply length_short; lia|done|by eexists]. }
    destruct (Z.eqb_spec first 0x80) as [|Hne]; [done|]. destruct (Z.leb_spec first 0x84); [|done].
    assert (exists n, first = 0x80 + Z.of_nat n /\ (1 <= n <= 4)%nat) as (n & Hn & Hn4)
      by (exists (Z.to_nat (first - 0x80)); lia).
    rewrite (land_low_tag _ n) by done. cbv zeta.
    destruct (get_range 2 (2 + n) _) as [os|] eqn:E; [|done]. cbn [mbind option_bind]. intros [= <- <-].
    apply get_range_Some in E as [Hl ->]. cbn [List.length drop Nat.sub] in Hl |- *.
    rewrite drop_0 in *. replace (2 + n - 2)%nat with n by lia. exists (take n r).
    assert (Hlen : List.length (take n r) = n) by (rewrite length_take; lia).
    split_and!; [|lia|exists (drop n r); by rewrite take_drop].
    rewrite (proj1 (octets_value _ (Forall_take _ _ _ Hr) ltac:(rewrite Hlen; lia))).
    rewrite Hn. rewrite <- Hlen at 1. constructor. lia.
  - intros (os & Hlf & -> & rest & ->). apply Forall_app in Hr as [Ho _].
    remember (first :: os) as fo eqn:Hfo.
    destruct Hlf as [n Hn|os' Hos]; injection Hfo as <- <-; cbn [List.length Nat.add].
    { by rewrite (proj2 (Z.leb_le n 0x7F)) by lia. }
    rewrite (proj2 (Z.leb_gt _ 0x7F)), (proj2 (Z.eqb_neq _ 0x80)), (proj2 (Z.leb_le _ 0x84)) by lia.
    rewrite (land_low_tag _ (List.length os')) by (lia || done). cbv zeta.
    rewrite (proj2 (get_range_Some _ _ _ os')).
    + cbn [mbind option_bind]. do 2 f_equal. by apply octets_value; [|lia].
    + cbn [List.length drop Nat.sub]. rewrite length_app, drop_0, Nat.sub_0_r, take_app_length. split; [lia|done].
Qed.

Lemma length_field_nonneg l n : length_field l n -> buffer l -> 0 <= n.
Proof.
  intros [n' Hn|os Hos] [Hu _]; [lia|]. apply Forall_cons in Hu as [_ Hu]. by apply octets_value; [|lia].
Qed.

(** The cuts at an element whose contents are [k] bytes long. *)
Lemma cut_ranges tag first os r k :
  let buf := tag :: first :: os ++ r in
  let header := (2 + List.length os)%nat in
  if (k <=? List.length r)%nat then
    get_range 0 (header + k) buf = Some (tag :: first :: os ++ take k r)
    /\ get_range header (header + k) buf = Some (take k r)
    /\ get_range (header + k) (List.length buf) buf = Some (drop k r)
  else get_range 0 (header + k) buf = None.
Proof.
  cbv zeta. destruct (Nat.leb_spec k (List.length r)) as [Hk|Hk].
  - split_and!; apply get_range_Some; cbn [List.length Nat.add drop]; rewrite ?length_app;
      (split; [lia|]).
    + cbn [take Nat.sub]. by rewrite take_app_add.
    + rewrite drop_app_length. f_equal. lia.
    + rewrite drop_app_add. symmetry. apply take_ge. rewrite length_drop. lia.
  - unfold get_range. rewrite (proj2 (Nat.leb_gt (_ + k) _)); [done|]. cbn. rewrite length_app. lia.
Qed.

(** Reading an element is recognising one at the front. *)
Lemma read_tlv_iff buf t rest : buffer buf ->
  read_tlv buf = Some (t, rest) <-> element (tl_tag t) (tl_contents t) (tl_whole t) /\ buf = tl_whole t ++ rest.
Proof.
  intros Hb. destruct buf as [|tag [|first r]]; cbn [read_tlv head hd_error lookup list_lookup mbind option_bind].
  - split; [done|]. intros [(_ & l & _ & ->) ?]. done.
  - split; [by destruct (_ =? _)|]. intros [(_ & l & Hl & ->) Heq]. by inversion Hl; subst.
  - split.
    + destruct (Z.eqb_spec (Z.land tag 0x1F) 0x1F) as [|Htag]; [done|].
      destruct (read_length _ _) as [[header len]|] eqn:E; [|done].
      apply read_length_iff in E as (os & Hlf & -> & r' & ->); [|done].
      assert (Hlen : 0 <= len).
      { apply (length_field_nonneg _ _ Hlf). by apply (buffer_app [tag]) in Hb as [_ [Hb _]%(buffer_app (_ :: _))]. }
      cbn [mbind option_bind].
      destruct (usize_checked _) as [stop|] eqn:Es; [|done]. apply usize_checked_Some in Es as [-> _].
      apply Z_of_nat_complete in Hlen as [k ->]. cbn [mbind option_bind].
      rewrite <- Nat2Z.inj_add, Nat2Z.id. pose proof (cut_ranges tag first os r' k) as Hcut.
      cbv zeta in Hcut. destruct (Nat.leb_spec k (List.length r')) as [Hk|Hk]; [|by rewrite Hcut].
      destruct Hcut as (-> & -> & ->). cbn [mbind option_bind].
      intros [= <- <-]. cbn [tl_tag tl_contents tl_whole].
      split; [split; [done|]|by rewrite <- !app_comm_cons, <- app_assoc, take_drop].
      exists (first :: os). by rewrite length_take_le.
    + intros [(Htag & l & Hlf & Hw) Heq].
      destruct l as [|first' os]; [by inversion Hlf|]. rewrite Hw in Heq.
      cbn [app] in Heq. injection Heq as Ht <- ->. subst tag.
      rewrite (proj2 (Z.eqb_neq _ _) Htag).
      rewrite (proj2 (read_length_iff _ _ _ (2 + List.length os) (Z.of_nat (List.length (tl_contents t))) Hb))
        by (exists os; split_and!; [done..|by rewrite <- app_assoc; eexists]).
      cbn [mbind option_bind]. rewrite <- Nat2Z.inj_add.
      assert (Hz : is_usize (Z.of_nat (2 + List.length os + List.length (tl_contents t)))).
      { destruct Hb as [_ Hb]. cbn [List.length] in Hb. rewrite !length_app in Hb. unfold is_usize. lia. }
      apply (conj eq_refl), usize_checked_Some in Hz. rewrite Hz. clear Hz.
      cbn [mbind option_bind]. rewrite Nat2Z.id.
      pose proof (cut_ranges (tl_tag t) first os (tl_contents t ++ rest) (List.length (tl_contents t))) as Hcut.
      rewrite <- app_assoc. cbv zeta in Hcut. rewrite take_app_length, drop_app_length, length_app in Hcut.
      destruct (Nat.leb_spec (List.length (tl_contents t)) (List.length (tl_contents t) + List.length rest)) in Hcut;
        [|lia].
      destruct Hcut as (-> & -> & ->). cbn [mbind option_bind]. do 3 f_equal.
      destruct t as [? whole ?]. cbn in *. by subst whole.
Qed.

Lemma expect_tag_iff buf tag t rest : buffer buf ->
  expect_tag buf tag = Some (t, rest)
  <-> element tag (tl_contents t) (tl_whole t) /\ tl_tag t = tag /\ buf = tl_whole t ++ rest.
Proof.
  intros Hb. unfold expect_tag. pose proof (read_tlv_iff buf t rest Hb) as Hiff. split.
  - destruct (read_tlv buf) as [[t' rest']|]; [|done]. cbn [mbind option_bind].
    destruct (Z.eqb_spec (tl_tag t') tag) as [<-|]; [|done]. intros [= -> ->].
    destruct (proj1 Hiff eq_refl). done.
  - intros (He & <- & Hbuf). rewrite (proj2 Hiff) by done. cbn [mbind option_bind]. by rewrite Z.eqb_refl.
Qed.

(** The other direction for a given element. *)
Lemma expect_tag_at tag contents whole rest : buffer (whole ++ rest) -> element tag contents whole ->
  expect_tag (whole ++ rest) tag = Some (mk_tlv tag whole contents, rest).
Proof. intros Hb He. by apply expect_tag_iff. Qed.

Definition is_sequence (whole : bytes) : Prop := exists contents, element TAG_SEQUENCE contents whole.

Lemma skip_sequences_iff n buf rest : buffer buf ->
  skip_sequences n buf = Some rest
  <-> exists es, List.length es = n /\ Forall is_sequence es /\ buf = concat es ++ rest.
Proof.
  revert buf. induction n as [|n IH]; intros buf Hb; cbn [skip_sequences].
  - split; [intros [= ->]; by exists []|]. by intros ([|] & ? & _ & ->).
  - split.
    + destruct (expect_tag buf TAG_SEQUENCE) as [[t r]|] eqn:E; [|done]. cbn [mbind option_bind].
      apply expect_tag_iff in E as (He & _ & ->); [|done]. apply buffer_app in Hb as [_ Hb].
      rewrite IH by done. intros (es & <- & Hes & ->). exists (tl_whole t :: es).
      split_and!; [done|constructor; [by eexists|done]|cbn; by rewrite app_assoc].
    + intros ([|e es] & Hlen & Hes & ->); [done|]. apply Forall_cons in Hes as [[c He] Hes].
      cbn [concat] in *. rewrite <- app_assoc in *. rewrite (expect_tag_at _ c) by done.
      cbn [mbind option_bind]. apply buffer_app in Hb as [_ Hb]. apply IH; [done|].
      exists es. by injection Hlen.
Qed.

(** The front of a certificate, up to its key: [Certificate ::= SEQUENCE { tbsCertificate SEQUENCE
    { version OPTIONAL, serialNumber, four sequences, subjectPublicKeyInfo, .. }, .. }].  Of the
    version, the number and the sequences only the tags and the lengths matter, and what follows the
    key in either sequence, and the certificate itself, is any bytes. *)
Inductive certificate_front (spki : bytes) : bytes -> Prop :=
| certificate_of cert tbs body version serial fields more_tbs more_cert after c_serial c_spki :
    element TAG_SEQUENCE (tbs ++ more_cert) cert ->
    element TAG_SEQUENCE body tbs ->
    body = version ++ serial ++ concat fields ++ spki ++ more_tbs ->
    version = [] \/ (exists c_version, element TAG_VERSION c_version version) ->
    element TAG_INTEGER c_serial serial ->
    List.length fields = 4%nat -> Forall is_sequence fields ->
    element TAG_SEQUENCE c_spki spki ->
    certificate_front spki (cert ++ after).

Lemma element_head tag contents whole rest : element tag contents whole -> head (whole ++ rest) = Some tag.
Proof. by intros (_ & l & _ & ->). Qed.

(** The optional version at the front of the body. *)
Lemma version_iff body rest : buffer body ->
  (if bool_decide (head body = Some TAG_VERSION) then snd <$> read_tlv body else Some body) = Some rest
  <-> exists version, body = version ++ rest
      /\ ((version = [] /\ head body <> Some TAG_VERSION) \/ exists c, element TAG_VERSION c version).
Proof.
  intros Hb. case_bool_decide as Hh; split.
  - destruct (read_tlv body) as [[t r]|] eqn:E; [|done]. intros [= <-].
    apply read_tlv_iff in E as [He ->]; [|done]. exists (tl_whole t). split; [done|right].
    erewrite element_head in Hh by exact He. injection Hh as <-. by eexists.
  - intros (version & -> & [[_ ?]|[c He]]); [done|].
    by rewrite (proj2 (read_tlv_iff _ (mk_tlv TAG_VERSION version c) rest Hb)).
  - intros [= <-]. exists []. auto.
  - intros (version & -> & [[-> _]|[c He]]); [done|]. destruct Hh. by eapply element_head.
Qed.

Lemma spki_reads der spki : buffer der ->
  spki_of_certificate der = Some spki <-> certificate_front spki der.
Proof.
  intros Hb. unfold spki_of_certificate. split.
  - destruct (expect_tag der _) as [[cert after]|] eqn:E1; [|done]. cbn [mbind option_bind].
    apply expect_tag_iff in E1 as (H1 & _ & ->); [|done]. apply buffer_app in Hb as [Hb _].
    apply (element_buffer _ _ _ H1) in Hb.
    destruct (expect_tag _ _) as [[tbs more_cert]|] eqn:E2; [|done]. cbn [mbind option_bind].
    apply expect_tag_iff in E2 as (H2 & _ & Hc); [|done]. rewrite Hc in *. apply buffer_app in Hb as [Hb _].
    apply (element_buffer _ _ _ H2) in Hb.
    destruct (if bool_decide _ then _ else _) as [rest|] eqn:E3; [|done]. cbn [mbind option_bind].
    apply version_iff in E3 as (version & Hv & Hver); [|done]. rewrite Hv in Hb. apply buffer_app in Hb as [_ Hb].
    destruct (expect_tag rest _) as [[serial r4]|] eqn:E4; [|done]. cbn [mbind option_bind].
    apply expect_tag_iff in E4 as (H4 & _ & ->); [|done]. apply buffer_app in Hb as [_ Hb].
    destruct (skip_sequences 4 _) as [r5|] eqn:E5; [|done]. cbn [mbind option_bind].
    apply skip_sequences_iff in E5 as (fields & Hf & Hs & ->); [|done]. apply buffer_app in Hb as [_ Hb].
    destruct (expect_tag r5 _) as [[key more]|] eqn:E6; [|done]. cbn [mbind option_bind]. intros [= <-].
    apply expect_tag_iff in E6 as (H6 & _ & ->); [|done].
    eapply certificate_of; [exact H1|exact H2|exact Hv| |exact H4|exact Hf|exact Hs|exact H6].
    destruct Hver as [[Hver _]|Hver]; auto.
  - intros Hc. destruct Hc as
      [cert tbs body version serial fields more_tbs more_cert after c_s c_k H1 H2 Hbody Hv H4 Hf Hs H6].
    rewrite (expect_tag_at _ _ _ _ Hb H1). cbn [mbind option_bind tl_contents].
    apply buffer_app in Hb as [Hb _]. apply (element_buffer _ _ _ H1) in Hb.
    rewrite (expect_tag_at _ _ _ _ Hb H2). cbn [mbind option_bind tl_contents].
    apply buffer_app in Hb as [Hb _]. apply (element_buffer _ _ _ H2) in Hb.
    rewrite (proj2 (version_iff _ (serial ++ concat fields ++ spki ++ more_tbs) Hb)).
    2: { exists version. split; [done|]. destruct Hv as [->|Hv]; [left|by right].
         split; [done|]. subst body. cbn [app]. by rewrite (element_head _ _ _ _ H4). }
    subst body. apply buffer_app in Hb as [_ Hb]. cbn [mbind option_bind].
    rewrite (expect_tag_at _ _ _ _ Hb H4). cbn [mbind option_bind]. apply buffer_app in Hb as [_ Hb].
    rewrite (proj2 (skip_sequences_iff 4 _ (spki ++ more_tbs) Hb)) by eauto. cbn [mbind option_bind].
    apply buffer_app in Hb as [_ Hb]. by rewrite (expect_tag_at _ _ _ _ Hb H6).
Qed.

(** C28. The reader is the grammar.  On any byte string the reader finds a public key exactly when the
    string starts as a certificate does up to its key: the outer sequence, in it the signed part, in it a
    version or none, an integer and four sequences, and then the sequence that is the key, each with a
    length of the short form or of one to four octets (minimal or not) and whole within the bytes that
    hold it.  The key it gives is that complete element.  What comes after the key (the rest of the
    signed part, the signature, bytes past the certificate) is not looked at, and neither is what the
    fields before it hold. *)
Theorem spki_reader_is_the_grammar der spki : Forall is_u8 der -> Z.of_nat (List.length der) <= usize_max ->
  spki_of_certificate der = Some spki <-> certificate_front spki der.
Proof. intros Hu Hl. by apply spki_reads. Qed.

(** ** Pins *)

Lemma split_once_str_first c p a r : Forall (fun b => b <> c) a ->
  split_once_str (c :: p) (a ++ (c :: p) ++ r) = Some (a, r).
Proof.
  induction 1 as [|b a Hb _ IH]; cbn [app] in *.
  - cbn [split_once_str]. by rewrite (strip_prefix_app (c :: p) r : strip_prefix _ (c :: p ++ r) = _).
  - cbn [split_once_str strip_prefix]. by rewrite (proj2 (Z.eqb_neq c b)), IH by congruence.
Qed.

(** [p] occurs in [s]. *)
Definition mentions (p s : bytes) : Prop := exists l r, s = l ++ p ++ r.

Lemma prefix_within (p a r r0 : bytes) : (1 <= List.length a)%nat -> a ++ p ++ r = p ++ r0 ->
  exists r', a ++ take (List.length p - 1) p = p ++ r'.
Proof.
  intros Ha Heq. set (X := a ++ take (List.length p - 1) p).
  assert (take (List.length p) X = p) as Ht.
  { assert (take (List.length p) (a ++ p ++ r) = p) as Hp by (by rewrite Heq, take_app_length).
    rewrite <- Hp at 2. unfold X. rewrite !take_app. f_equal. rewrite take_take.
    rewrite (Nat.min_l _ (List.length p - 1)) by lia. rewrite (proj2 (Nat.sub_0_le _ (List.length p))) by lia. cbn [take]. by rewrite app_nil_r. }
  exists (drop (List.length p) X). transitivity (take (List.length p) X ++ drop (List.length p) X);
    [by rewrite take_drop|by rewrite Ht].
Qed.

(** The first occurrence of a text is found when it starts nowhere before. *)
Lemma split_once_str_at p a r : p <> [] -> ~ mentions p (a ++ take (List.length p - 1) p) ->
  split_once_str p (a ++ p ++ r) = Some (a, r).
Proof.
  intros Hp. induction a as [|b a IH]; cbn [app]; intros Hno.
  - destruct p as [|x p]; [done|]. cbn [split_once_str app].
    by rewrite (strip_prefix_app (x :: p) r : strip_prefix _ (x :: p ++ r) = _).
  - cbn [split_once_str]. destruct (strip_prefix p (b :: a ++ p ++ r)) as [r0|] eqn:E.
    + apply strip_prefix_Some in E. destruct (prefix_within p (b :: a) r r0) as [r' Hr]; [cbn; lia|done|].
      destruct Hno. by exists [], r'.
    + rewrite IH; [done|]. intros (l & r' & Hl). destruct Hno. exists (b :: l), r'. cbn. by rewrite <- Hl.
Qed.

Lemma first_der_block before body after :
  ~ mentions BEGIN_ (before ++ take 26 BEGIN_) -> Forall (fun b => b <> 45) body ->
  first_der (before ++ BEGIN_ ++ body ++ END_ ++ after) = decode (without_white body).
Proof.
  intros Hbef Hbody. unfold first_der.
  assert (H2 : forall r, split_once_str END_ (body ++ END_ ++ r) = Some (body, r))
    by (intros r; by apply (split_once_str_first 45 (drop 1 END_))).
  rewrite (split_once_str_at BEGIN_) by done. cbn [mbind option_bind]. by rewrite H2.
Qed.

Lemma split_once_str_Some p s l r : split_once_str p s = Some (l, r) -> s = l ++ p ++ r.
Proof.
  revert l. induction s as [|b s IH]; intros l; cbn [split_once_str];
    destruct (strip_prefix p _) as [r'|] eqn:E.
  1, 3: intros [= <- <-]; by apply strip_prefix_Some in E.
  - done.
  - destruct (split_once_str p s) as [[l' r']|]; [|done]. intros [= <- <-]. cbn. by rewrite (IH l').
Qed.

Lemma decode_from_bytes text : forall acc bits out, decode_from acc bits text = Some out ->
  Forall is_u8 out /\ (List.length out <= List.length text)%nat.
Proof.
  induction text as [|ch text IH]; intros acc bits out; cbn [decode_from]; [by intros [= <-]|].
  destruct (ch =? EQUALS); [intros [= <-]; cbn; split; [done|lia]|].
  destruct (find_byte _ _) as [i|]; [|done]. cbn [mbind option_bind]. cbv zeta.
  destruct (8 <=? bits + 6).
  - destruct (decode_from _ _ text) as [out'|] eqn:E; [|done]. intros [= <-]. apply IH in E as [Hu Hl].
    cbn [List.length]. split; [constructor; [|done]|lia]. unfold is_u8, u8_max. Z.div_mod_to_equations; lia.
  - intros [Hu Hl]%IH. cbn. split; [done|lia].
Qed.

Lemma strip_white_length fuel : forall s, (List.length (strip_white fuel s) <= List.length s)%nat.
Proof.
  induction fuel as [|fuel IH]; intros s; cbn [strip_white]; [lia|]. destruct s as [|b s]; [done|].
  destruct (list_find _ white_space) as [[i w]|] eqn:E; [|cbn; pose proof (IH s); lia].
  etransitivity; [apply IH|]. destruct (strip_prefix w (b :: s)) as [r|] eqn:Er; cbn [default]; [|cbn; lia].
  apply strip_prefix_Some in Er. rewrite Er, length_app. cbn. lia.
Qed.

(** The first certificate of a text is a byte string no longer than the text. *)
Lemma first_der_buffer pem der : Z.of_nat (List.length pem) <= usize_max -> first_der pem = Some der -> buffer der.
Proof.
  unfold first_der. intros Hl.
  destruct (split_once_str BEGIN_ pem) as [[a after]|] eqn:E; [|done]. cbn [mbind option_bind].
  apply split_once_str_Some in E as ->.
  destruct (split_once_str END_ after) as [[body b]|] eqn:E; [|done]. cbn [mbind option_bind].
  apply split_once_str_Some in E as ->. unfold decode. destruct (negb _); [done|].
  intros [Hu Hn]%decode_from_bytes. pose proof (strip_white_length (List.length body) body) as Hw.
  unfold without_white in Hn. rewrite !length_app in Hl. split; [done|lia].
Qed.

Lemma pin_from_spki_der_inj a b : pin_from_spki_der a = pin_from_spki_der b -> sha256 a = sha256 b.
Proof.
  unfold pin_from_spki_der. rewrite !sha256_of_is_sha256. intros He%app_inv_head.
  assert (Hu : forall x, Forall is_u8 (sha256 x)).
  { clear. intros x. eapply Forall_impl; [apply sha256_bytes|]. intros z Hz. cbv beta in Hz. unfold is_u8, u8_max. lia. }
  by apply base64_inj in He.
Qed.

