(* ===== verification/ViewLedger.v ===== *)
(** * Watch state: rows, edits, and the order they were published in

    [data/src/viewledger.rs], and the vocabulary of [data/src/viewstate.rs]: what became true of an
    item, which rows it reaches, and the table of published edits that a read overtaken by a press
    is patched from.  Sequence numbers are 64-bit and wrap. *)

From stdpp Require Import gmap.
From S2P Require Import Prelude Bytes.

#[local] Open Scope Z_scope.

(** ** Items and rows *)

(** A registry slot; an item is a slot and a rating key. *)
Abbreviation ServerId := Z.
Abbreviation Key := (Z * bytes)%type.

Definition same_item (a b : Key) : bool := (fst a =? fst b) && bool_decide (snd a = snd b).

Record SortInfo := mk_sort_info { si_view_count : option Z; si_last_viewed_at : option Z }.
#[export] Instance SortInfo_eta : Eta SortInfo := fun r => mk_sort_info (si_view_count r) (si_last_viewed_at r).
#[export] Instance SortInfo_eq_dec : EqDecision SortInfo.
Proof. solve_decision. Defined.

(** The fields of a catalog row that say which item it is and what its watch state is; the others
    are touched by nothing here. *)
Record PmsMovie := mk_movie {
  pm_sid : ServerId;
  pm_rk : bytes;
  pm_kind : Z;
  pm_resume_ms : Z;
  pm_show_rk : bytes;
  pm_season_index : Z;
  pm_unwatched : bool;
  pm_watched : bool;
  pm_leaf_count : option Z;
  pm_viewed_leaf_count : option Z;
  pm_sort_info : option SortInfo
}.
#[export] Instance PmsMovie_eta : Eta PmsMovie := fun r =>
  mk_movie (pm_sid r) (pm_rk r) (pm_kind r) (pm_resume_ms r) (pm_show_rk r) (pm_season_index r)
    (pm_unwatched r) (pm_watched r) (pm_leaf_count r) (pm_viewed_leaf_count r) (pm_sort_info r).

Definition KIND_SHOW : Z := 1.

Definition pm_key (m : PmsMovie) : Key := (pm_sid m, pm_rk m).

(** [pms::set_watched]. *)
Definition set_watched (m : PmsMovie) (on : bool) : PmsMovie :=
  let m := m <| pm_watched := on |> <| pm_unwatched := negb on |> <| pm_resume_ms := 0 |> in
  if (pm_kind m =? KIND_SHOW) || (pm_kind m =? 2) then
    match pm_leaf_count m with
    | Some leaves => m <| pm_viewed_leaf_count := Some (if on then leaves else 0) |>
    | None => m
    end
  else m.

(** ** Scopes, facts and edits *)

Inductive Scope :=
  | Scope_Leaf
  | Scope_Show
  | Scope_Season (show_rk : bytes) (index : Z)
  | Scope_Unknown.
#[export] Instance Scope_eq_dec : EqDecision Scope.
Proof. solve_decision. Defined.

Definition of_row (m : PmsMovie) : Scope :=
  if pm_kind m =? 1 then Scope_Show
  else if (pm_kind m =? 2) && negb (bool_decide (pm_show_rk m = []))
  then Scope_Season (pm_show_rk m) (pm_season_index m)
  else Scope_Leaf.

Record WatchSortFacts := mk_sort_facts { wf_count : option Z; wf_viewed_at : option Z }.
#[export] Instance WatchSortFacts_eq_dec : EqDecision WatchSortFacts.
Proof. solve_decision. Defined.

Definition sort_facts_of (m : PmsMovie) : option WatchSortFacts :=
  (fun f => mk_sort_facts (si_view_count f) (si_last_viewed_at f)) <$> pm_sort_info m.

Inductive ViewFact :=
  | Fact_Watched (on : bool)
  | Fact_LeftDeck
  | Fact_Facts (watched unwatched : bool) (resume_ms : Z) (sort : option WatchSortFacts)
  | Fact_Offset (ms dur_ms : Z).

Inductive ViewEdit :=
  | Edit_Watched (on : bool)
  | Edit_LeftDeck
  | Edit_Facts (watched unwatched : bool) (resume_ms : Z) (sort : option WatchSortFacts)
  | Edit_Offset (ms : Z).
#[export] Instance ViewEdit_eq_dec : EqDecision ViewEdit.
Proof. solve_decision. Defined.

Record ViewAt := mk_at { va_sid : ServerId; va_rk : bytes; va_scope : Scope }.
#[export] Instance ViewAt_eq_dec : EqDecision ViewAt.
Proof. solve_decision. Defined.

Record ViewChange := mk_change { vc_sid : ServerId; vc_rk : bytes; vc_scope : Scope; vc_fact : ViewFact }.

Definition WATCHED_PERCENT : Z := 90.

Definition past_watched_threshold (ms dur_ms : Z) : bool :=
  (0 <? dur_ms) && (i64_sat (dur_ms * WATCHED_PERCENT) <=? i64_sat (ms * 100)).

Definition at_of (c : ViewChange) : ViewAt := mk_at (vc_sid c) (vc_rk c) (vc_scope c).

Definition edit_of (c : ViewChange) : ViewEdit :=
  match vc_fact c with
  | Fact_Watched on => Edit_Watched on
  | Fact_LeftDeck => Edit_LeftDeck
  | Fact_Facts watched unwatched resume_ms sort => Edit_Facts watched unwatched resume_ms sort
  | Fact_Offset ms dur_ms => Edit_Offset (if past_watched_threshold ms dur_ms then 0 else Z.max ms 0)
  end.

Definition leaf (sid : ServerId) (rk : bytes) : ViewAt := mk_at sid rk Scope_Leaf.

Definition is_item (at_ : ViewAt) (sid : ServerId) (rk : bytes) : bool :=
  same_item (sid, rk) (va_sid at_, va_rk at_).

Definition covers_parts (at_ : ViewAt) (sid : ServerId) (rk : bytes) (kind : Z) (show_rk : bytes)
    (season_index : Z) : bool :=
  if is_item at_ sid rk then true
  else if negb (sid =? va_sid at_) || bool_decide (show_rk = []) then false
  else
    match va_scope at_ with
    | Scope_Show => ((kind =? 2) || (kind =? 3)) && bool_decide (show_rk = va_rk at_)
    | Scope_Season want index => (kind =? 3) && bool_decide (show_rk = want) && (season_index =? index)
    | Scope_Leaf | Scope_Unknown => false
    end.

Definition covers (at_ : ViewAt) (m : PmsMovie) : bool :=
  covers_parts at_ (pm_sid m) (pm_rk m) (pm_kind m) (pm_show_rk m) (pm_season_index m).

Definition changes (e : ViewEdit) (m : PmsMovie) : bool :=
  match e with
  | Edit_Facts watched unwatched resume_ms sort =>
      negb (eqb (pm_watched m) watched) || negb (eqb (pm_unwatched m) unwatched)
      || negb (pm_resume_ms m =? resume_ms)
      || match sort with Some value => negb (bool_decide (sort_facts_of m = Some value)) | None => false end
  | Edit_Offset ms => negb (pm_resume_ms m =? ms)
  | Edit_Watched _ | Edit_LeftDeck => true
  end.

Definition apply_edit (e : ViewEdit) (m : PmsMovie) : PmsMovie :=
  match e with
  | Edit_Watched on =>
      let m := set_watched m on in
      match pm_sort_info m with
      | Some facts =>
          m <| pm_sort_info := Some (facts <| si_view_count := None |> <| si_last_viewed_at := None |>) |>
      | None => m
      end
  | Edit_Facts watched unwatched resume_ms sort =>
      let m := m <| pm_watched := watched |> <| pm_unwatched := unwatched |> <| pm_resume_ms := resume_ms |> in
      match sort with
      | Some sort =>
          let facts := default (mk_sort_info None None) (pm_sort_info m) in
          m <| pm_sort_info :=
                 Some (facts <| si_view_count := wf_count sort |> <| si_last_viewed_at := wf_viewed_at sort |>) |>
      | None => m
      end
  | Edit_Offset ms => m <| pm_resume_ms := ms |>
  | Edit_LeftDeck => m
  end.

(** ** The ledger *)

Abbreviation Stamp := Z.

Record Entry := mk_entry { en_seq : Stamp; en_at : ViewAt; en_edit : ViewEdit }.
#[export] Instance Entry_eta : Eta Entry := fun r => mk_entry (en_seq r) (en_at r) (en_edit r).

Record Ledger := mk_ledger { le_seq : Stamp; le_entries : list Entry }.
#[export] Instance Ledger_eta : Eta Ledger := fun r => mk_ledger (le_seq r) (le_entries r).

Definition ledger_new : Ledger := mk_ledger 0 [].

(** [mem::discriminant]. *)
Definition discriminant (e : ViewEdit) : nat :=
  match e with Edit_Watched _ => 0 | Edit_LeftDeck => 1 | Edit_Facts _ _ _ _ => 2 | Edit_Offset _ => 3 end%nat.
Definition same_kind (a b : ViewEdit) : bool := (discriminant a =? discriminant b)%nat.

Definition replaces (at_ : ViewAt) (edit : ViewEdit) (e : Entry) : bool :=
  bool_decide (en_at e = at_) && same_kind (en_edit e) edit.

Definition record (t : Ledger) (at_ : ViewAt) (edit : ViewEdit) : Stamp * Ledger :=
  let seq := u64_wrap (le_seq t + 1) in
  (seq, mk_ledger seq (List.filter (fun e => negb (replaces at_ edit e)) (le_entries t)
                       ++ [mk_entry seq at_ edit])).

Definition landed (t : Ledger) (seq : Stamp) : Ledger :=
  match list_find (fun e => en_seq e = seq) (le_entries t) with
  | None => t
  | Some (i, entry) =>
      let next := u64_wrap (le_seq t + 1) in
      mk_ledger next (delete i (le_entries t) ++ [entry <| en_seq := next |>])
  end.

Definition retire (t : Ledger) (seq : Stamp) : Ledger :=
  t <| le_entries := List.filter (fun e => negb (en_seq e =? seq)) (le_entries t) |>.

Definition ledger_reset (t : Ledger) : Ledger := mk_ledger (u64_wrap (le_seq t + 1)) [].

Definition stamp (t : Ledger) : Stamp := le_seq t.

Definition since (t : Ledger) (st : Stamp) : list (ViewAt * ViewEdit) :=
  if le_seq t <=? st then []
  else (fun e => (en_at e, en_edit e)) <$> List.filter (fun e => st <? en_seq e) (le_entries t).

Definition is_watched_edit (e : ViewEdit) : bool := match e with Edit_Watched _ => true | _ => false end.

(** One edit made again on one row. *)
Definition patch_row (m : PmsMovie) (ae : ViewAt * ViewEdit) : PmsMovie :=
  if is_watched_edit (snd ae) && covers (fst ae) m then apply_edit (snd ae) m else m.

Definition patch (t : Ledger) (st : Stamp) (rows : list PmsMovie) : list PmsMovie :=
  match since t st with
  | [] => rows
  | edits => (fun m => fold_left patch_row edits m) <$> rows
  end.

(** ** Series of operations *)

Inductive LedgerOp :=
  | Op_record (at_ : ViewAt) (edit : ViewEdit)
  | Op_landed (seq : Stamp)
  | Op_retire (seq : Stamp)
  | Op_reset.

Definition ledger_step (t : Ledger) (op : LedgerOp) : Ledger :=
  match op with
  | Op_record at_ edit => snd (record t at_ edit)
  | Op_landed seq => landed t seq
  | Op_retire seq => retire t seq
  | Op_reset => ledger_reset t
  end.
Definition ledger_run (t : Ledger) (ops : list LedgerOp) : Ledger := fold_left ledger_step ops t.

(** The table is in order, no number is ahead of the counter, and no entry answers for another. *)
Record ledger_ok (t : Ledger) : Prop := mk_ledger_ok {
  lo_seq : 0 <= le_seq t;
  lo_bounds : Forall (fun e => 0 < en_seq e <= le_seq t) (le_entries t);
  lo_sorted : StronglySorted (fun a b => en_seq a < en_seq b) (le_entries t);
  lo_distinct : NoDup ((fun e => (en_at e, discriminant (en_edit e))) <$> le_entries t)
}.

(** The counter has room for [n] more operations. *)
Definition room (t : Ledger) (n : Z) : Prop := le_seq t + n <= u64_max.

Lemma next_seq t : ledger_ok t -> room t 1 -> u64_wrap (le_seq t + 1) = le_seq t + 1.
Proof. intros Hok Hr. apply u64_wrap_small. pose proof (lo_seq _ Hok). unfold is_u64, room in *. lia. Qed.

Lemma same_kind_spec a b : same_kind a b = true <-> discriminant a = discriminant b.
Proof. apply Nat.eqb_eq. Qed.

Lemma replaces_spec at_ edit e :
  replaces at_ edit e = true <-> (en_at e, discriminant (en_edit e)) = (at_, discriminant edit).
Proof.
  unfold replaces. rewrite andb_true_iff, bool_decide_eq_true, same_kind_spec. naive_solver.
Qed.

Lemma ledger_new_ok : ledger_ok ledger_new.
Proof. split; cbn; [lia|constructor..]. Qed.

Lemma NoDup_fmap_filter {A B} (f : A -> B) keep l : NoDup (f <$> l) -> NoDup (f <$> List.filter keep l).
Proof.
  induction l as [|x l IH]; csimpl; [done|]. intros [Hx Hl]%NoDup_cons. destruct (keep x); [|auto].
  csimpl. apply NoDup_cons. split; [|auto]. intros Hin. apply Hx.
  apply list_elem_of_fmap in Hin as (y & -> & Hy). apply list_elem_of_fmap. exists y. split; [done|].
  apply list_elem_of_In, filter_In in Hy as [Hy _]. by apply list_elem_of_In.
Qed.

Lemma sorted_snoc {A} (f : A -> Z) l e : StronglySorted (fun a b => f a < f b) l ->
  Forall (fun a => f a < f e) l -> StronglySorted (fun a b => f a < f b) (l ++ [e]).
Proof.
  induction 1 as [|x l _ IH Hx]; intros Hl; cbn; [repeat constructor|].
  apply Forall_cons in Hl as [Hxe Hl]. constructor; [auto|]. apply Forall_app. split; [done|]. by constructor.
Qed.

(** A fresh entry at the end. *)
Lemma snoc_ok l seq next e :
  0 <= seq < next -> Forall (fun e => 0 < en_seq e <= seq) l ->
  StronglySorted (fun a b => en_seq a < en_seq b) l -> en_seq e = next ->
  NoDup ((fun e => (en_at e, discriminant (en_edit e))) <$> (l ++ [e])) ->
  ledger_ok (mk_ledger next (l ++ [e])).
Proof.
  intros Hs Hb Hsort He Hnd. split; cbn; [lia| | |done].
  - apply Forall_app. split; [eapply Forall_impl; [exact Hb|cbn; lia]|]. repeat constructor; lia.
  - apply sorted_snoc; [done|]. eapply Forall_impl; [exact Hb|cbn; lia].
Qed.

Lemma record_ok t at_ edit : ledger_ok t -> room t 1 -> ledger_ok (snd (record t at_ edit)).
Proof.
  intros Hok Hr. unfold record. cbn [snd]. rewrite next_seq by done. destruct Hok as [Hs Hb Hsort Hd].
  apply (snoc_ok _ (le_seq t)); [lia|by apply filter_Forall|by apply filter_sorted|done|].
  rewrite fmap_app. apply NoDup_app. split_and!; [by apply NoDup_fmap_filter| |apply NoDup_singleton].
  csimpl. intros k Hk Hk'%list_elem_of_singleton. subst k. apply list_elem_of_fmap in Hk as (e & Heq & He).
  apply list_elem_of_In, filter_In in He as [_ He]. apply negb_true_iff in He.
  rewrite (proj2 (replaces_spec at_ edit e)) in He; [done|by symmetry].
Qed.

Lemma ledger_reset_ok t : ledger_ok t -> room t 1 -> ledger_ok (ledger_reset t).
Proof. intros Hok Hr. unfold ledger_reset. rewrite next_seq by done. pose proof (lo_seq _ Hok). split; cbn; [lia|constructor..]. Qed.

Lemma retire_ok t seq : ledger_ok t -> ledger_ok (retire t seq).
Proof.
  intros [Hs Hb Hsort Hd]. split; cbn; [done|by apply filter_Forall|by apply filter_sorted|by apply NoDup_fmap_filter].
Qed.

Lemma delete_sorted {A} (R : A -> A -> Prop) l i : StronglySorted R l -> StronglySorted R (delete i l).
Proof.
  intros H. revert i. induction H as [|x l Hl IH Hx]; intros i; [destruct i; constructor|]. destruct i as [|i]; [done|].
  change (delete (S i) (x :: l)) with (x :: delete i l). constructor; [auto|]. by apply Forall_delete.
Qed.

Lemma landed_ok t seq : ledger_ok t -> room t 1 -> ledger_ok (landed t seq).
Proof.
  intros Hok Hr. unfold landed. destruct (list_find _ _) as [[i e]|] eqn:E; [|done].
  apply list_find_Some in E as (Hi & _ & _). rewrite next_seq by done. destruct Hok as [Hs Hb Hsort Hd].
  apply (snoc_ok _ (le_seq t)); [lia|by apply Forall_delete|by apply delete_sorted|done|].
  assert (Hp : (fun e => (en_at e, discriminant (en_edit e)))
                 <$> (delete i (le_entries t) ++ [e <| en_seq := le_seq t + 1 |>])
               ≡ₚ (fun e => (en_at e, discriminant (en_edit e))) <$> le_entries t).
  { rewrite (delete_Permutation _ _ _ Hi) at 2. rewrite fmap_app. csimpl. by rewrite Permutation_app_comm. }
  by rewrite Hp.
Qed.

Lemma ledger_step_ok t op : ledger_ok t -> room t 1 ->
  ledger_ok (ledger_step t op) /\ le_seq t <= le_seq (ledger_step t op) <= le_seq t + 1.
Proof.
  intros Hok Hr. destruct op as [at_ edit|seq|seq|]; cbn [ledger_step].
  - split; [by apply record_ok|]. cbn. rewrite next_seq by done. lia.
  - split; [by apply landed_ok|]. unfold landed. destruct (list_find _ _) as [[i e]|]; [|lia].
    cbn. rewrite next_seq by done. lia.
  - split; [by apply retire_ok|]. cbn. lia.
  - split; [by apply ledger_reset_ok|]. cbn. rewrite next_seq by done. lia.
Qed.

Lemma ledger_run_ok ops : forall t, ledger_ok t -> room t (Z.of_nat (List.length ops)) ->
  ledger_ok (ledger_run t ops) /\ le_seq t <= le_seq (ledger_run t ops) <= le_seq t + Z.of_nat (List.length ops).
Proof.
  induction ops as [|op ops IH]; intros t Hok Hr; cbn [ledger_run fold_left List.length]; [split; [done|lia]|].
  unfold room in Hr. cbn [List.length] in Hr.
  destruct (ledger_step_ok t op) as [Hok' Hs]; [done|unfold room; lia|].
  destruct (IH (ledger_step t op)) as [? ?]; [done|unfold room; lia|]. unfold ledger_run in *. split; [done|lia].
Qed.

Lemma since_elem t st at_ edit : ledger_ok t ->
  (at_, edit) ∈ since t st <-> exists e, e ∈ le_entries t /\ st < en_seq e /\ en_at e = at_ /\ en_edit e = edit.
Proof.
  intros Hok. unfold since. destruct (Z.leb_spec (le_seq t) st) as [Hst|Hst].
  - split; [intros []%elem_of_nil|]. intros (e & He & Hlt & _).
    pose proof (lo_bounds _ Hok) as Hb. rewrite Forall_forall in Hb. specialize (Hb e He). cbn in Hb. lia.
  - rewrite list_elem_of_fmap. split.
    + intros (e & [= -> ->] & He). apply list_elem_of_In, filter_In in He as [He Hlt%Z.ltb_lt].
      exists e. by rewrite list_elem_of_In.
    + intros (e & He & Hlt & <- & <-). exists e. split; [done|]. apply list_elem_of_In, filter_In.
      rewrite <- list_elem_of_In. split; [done|by apply Z.ltb_lt].
Qed.

(** An entry stays where no operation speaks of it. *)
Definition keeps (at_ : ViewAt) (edit : ViewEdit) (seq : Stamp) (op : LedgerOp) : Prop :=
  match op with
  | Op_record at' edit' => ~ (at' = at_ /\ discriminant edit' = discriminant edit)
  | Op_landed seq' | Op_retire seq' => seq' <> seq
  | Op_reset => False
  end.

Lemma ledger_step_keeps t op e : e ∈ le_entries t -> keeps (en_at e) (en_edit e) (en_seq e) op ->
  e ∈ le_entries (ledger_step t op).
Proof.
  intros He Hk. destruct op as [at_ edit|seq|seq|]; cbn [ledger_step keeps] in *; [| | |done].
  - cbn. apply elem_of_app. left. apply list_elem_of_In, filter_In. rewrite <- list_elem_of_In. split; [done|].
    apply negb_true_iff, not_true_iff_false. rewrite replaces_spec. intros [= <- Hd]. by apply Hk.
  - unfold landed. destruct (list_find _ _) as [[i e']|] eqn:E; [|done]. cbn. apply elem_of_app. left.
    apply list_find_Some in E as (Hi & Hs & _). rewrite (delete_Permutation _ _ _ Hi) in He.
    apply elem_of_cons in He as [->|He]; [congruence|done].
  - cbn. apply list_elem_of_In, filter_In. rewrite <- list_elem_of_In. split; [done|].
    apply negb_true_iff, Z.eqb_neq. congruence.
Qed.

Lemma ledger_run_keeps ops : forall t e, e ∈ le_entries t ->
  Forall (keeps (en_at e) (en_edit e) (en_seq e)) ops -> e ∈ le_entries (ledger_run t ops).
Proof.
  induction ops as [|op ops IH]; intros t e He Hk; [done|]. apply Forall_cons in Hk as [Hop Hk].
  cbn. apply IH; [|done]. by apply ledger_step_keeps.
Qed.

Lemma entry_seq_inj t e e' : ledger_ok t -> e ∈ le_entries t -> e' ∈ le_entries t ->
  (en_at e, discriminant (en_edit e)) = (en_at e', discriminant (en_edit e')) -> e = e'.
Proof.
  intros Hok He He' Heq. pose proof (lo_distinct _ Hok) as Hnd.
  apply list_elem_of_lookup in He as [i Hi]. apply list_elem_of_lookup in He' as [j Hj].
  assert (i = j) as ->; [|congruence].
  eapply NoDup_lookup; [exact Hnd|rewrite list_lookup_fmap, Hi; reflexivity|].
  rewrite list_lookup_fmap, Hj. cbn. congruence.
Qed.

Lemma entry_by_seq t e e' : ledger_ok t -> e ∈ le_entries t -> e' ∈ le_entries t ->
  en_seq e = en_seq e' -> e = e'.
Proof.
  intros Hok He He' Heq. pose proof (lo_sorted _ Hok) as Hs.
  induction Hs as [|x l _ IH Hx]; [by apply elem_of_nil in He|]. rewrite Forall_forall in Hx.
  apply elem_of_cons in He as [->|He]; apply elem_of_cons in He' as [->|He']; [done| | |auto].
  - specialize (Hx e' He'). cbn in Hx. lia.
  - specialize (Hx e He). cbn in Hx. lia.
Qed.

Lemma landed_spec t e : ledger_ok t -> room t 1 -> e ∈ le_entries t ->
  e <| en_seq := le_seq t + 1 |> ∈ le_entries (landed t (en_seq e)) /\ le_seq (landed t (en_seq e)) = le_seq t + 1.
Proof.
  intros Hok Hr He. unfold landed. destruct (list_find _ _) as [[i e']|] eqn:E.
  - apply list_find_Some in E as (Hi & Hs & _). rewrite next_seq by done. cbn. split; [|done].
    rewrite (entry_by_seq t e e'); [|done|done|by eapply list_elem_of_lookup_2|done].
    apply elem_of_app. right. by apply list_elem_of_singleton.
  - apply list_find_None in E. rewrite Forall_forall in E. by destruct (E e He).
Qed.

(** A press outlives every read it overtook.  A press is recorded; as long as it is neither taken back
    nor superseded, a read requested before it is patched with it.  Its write lands: from then on
    every read requested before the landing is patched with it, also one requested after the press
    that the server may have answered without it; and no read requested after the landing is. *)
Theorem a_press_outlives_the_reads_it_overtook before between after at_ edit :
  Z.of_nat (List.length before + List.length between + List.length after) + 2 <= u64_max ->
  let '(seq, pressed) := record (ledger_run ledger_new before) at_ edit in
  let pending := ledger_run pressed between in
  let taken := landed pending seq in
  let later := ledger_run taken after in
  Forall (keeps at_ edit seq) between -> Forall (keeps at_ edit (stamp taken)) after ->
  (forall st, st < seq -> (at_, edit) ∈ since pending st)
  /\ (forall st, st <= stamp pending -> (at_, edit) ∈ since later st)
  /\ (forall st edit', stamp taken <= st -> discriminant edit' = discriminant edit ->
        (at_, edit') ∉ since later st).
Proof.
  intros Hroom. destruct (record _ at_ edit) as [seq pressed] eqn:Erec. intros pending taken later Hbet Haft.
  destruct (ledger_run_ok before ledger_new ledger_new_ok) as [Hok0 Hs0]; [unfold room; cbn in *; lia|].
  cbn [le_seq ledger_new] in Hs0. unfold record in Erec.
  assert (Hok1 : ledger_ok pressed).
  { pose proof (record_ok (ledger_run ledger_new before) at_ edit Hok0) as H. unfold record in H.
    rewrite Erec in H. apply H. unfold room. lia. }
  rewrite next_seq in Erec by (done || (unfold room; lia)). injection Erec as Hseq Hpressed.
  set (e := mk_entry seq at_ edit).
  assert (He : e ∈ le_entries pressed).
  { subst pressed e. cbn. apply elem_of_app. right. subst seq. by apply list_elem_of_singleton. }
  assert (Hseq1 : le_seq pressed = seq) by (subst pressed seq; done).
  destruct (ledger_run_ok between pressed Hok1) as [Hok2 Hs2]; [unfold room; lia|]. fold pending in Hok2, Hs2.
  assert (He2 : e ∈ le_entries pending) by (by apply ledger_run_keeps).
  destruct (landed_spec pending e Hok2) as [He3 Hs3]; [unfold room; lia|done|].
  change (en_seq e) with seq in He3, Hs3. fold taken in He3, Hs3.
  assert (Hok3 : ledger_ok taken) by (apply landed_ok; [done|unfold room; lia]).
  destruct (ledger_run_ok after taken Hok3) as [Hok4 Hs4]; [unfold room; lia|]. fold later in Hok4, Hs4.
  assert (He4 : e <| en_seq := le_seq pending + 1 |> ∈ le_entries later).
  { apply ledger_run_keeps; [done|]. cbn. by rewrite <- Hs3. }
  unfold stamp. split_and!.
  - intros st Hst. apply since_elem; [done|]. by exists e.
  - intros st Hst. apply since_elem; [done|]. eexists. split; [exact He4|]. cbn. split; [lia|done].
  - intros st edit' Hst Hd Hin. apply since_elem in Hin as (e' & He' & Hlt & Ha & Hed); [|done].
    rewrite <- (entry_seq_inj later _ e' Hok4 He4 He') in Hlt; [cbn in Hlt; lia|]. cbn. congruence.
Qed.

(** ** The table stands for the log of presses *)

(** No later press in the log answers the same question about the same item. *)
Definition stands_in (log : list Entry) (e : Entry) : bool :=
  negb (existsb (fun e' => (en_seq e <? en_seq e') && replaces (en_at e) (en_edit e) e') log).

(** The press numbered [seq], unless another has replaced it. *)
Definition standing_at (log : list Entry) (seq : Stamp) : option Entry :=
  List.find (fun e => (en_seq e =? seq) && stands_in log e) log.

(** The log of presses: a press is written at its end; so is one whose write has landed, a second
    time, if it still stands.  A refused one is struck out, with those it replaced; one that was
    replaced leaves the log as it is. *)
Definition log_step (l : Z * list Entry) (op : LedgerOp) : Z * list Entry :=
  let '(n, log) := l in
  match op with
  | Op_record at_ edit => (n + 1, log ++ [mk_entry (n + 1) at_ edit])
  | Op_landed seq =>
      match standing_at log seq with
      | Some e => (n + 1, log ++ [e <| en_seq := n + 1 |>])
      | None => (n, log)
      end
  | Op_retire seq =>
      match standing_at log seq with
      | Some e => (n, List.filter (fun e' => negb (replaces (en_at e) (en_edit e) e')) log)
      | None => (n, log)
      end
  | Op_reset => (n + 1, [])
  end.
Definition log_run (ops : list LedgerOp) : Z * list Entry := fold_left log_step ops (0, []).

(** What was written in the log after the number [st]. *)
Definition made_since (st : Z) (log : list Entry) : list (ViewAt * ViewEdit) :=
  (fun e => (en_at e, en_edit e)) <$> List.filter (fun e => st <? en_seq e) log.

Definition same_row (m m' : PmsMovie) : Prop :=
  pm_sid m = pm_sid m' /\ pm_rk m = pm_rk m' /\ pm_kind m = pm_kind m' /\ pm_show_rk m = pm_show_rk m'
  /\ pm_season_index m = pm_season_index m'.

Lemma covers_same_row at_ m m' : same_row m m' -> covers at_ m = covers at_ m'.
Proof. intros (Ha & Hb & Hc & Hd & He). unfold covers. by rewrite Ha, Hb, Hc, Hd, He. Qed.

Lemma set_watched_row m on : same_row (apply_edit (Edit_Watched on) m) m.
Proof.
  unfold apply_edit, set_watched, same_row. destruct m as [? ? k ? ? ? ? ? l v s]; cbn.
  destruct ((k =? KIND_SHOW) || (k =? 2)), l; cbn; destruct s; cbn; done.
Qed.

(** A mark overrides the mark before it. *)
Lemma watched_overrides on on' m :
  apply_edit (Edit_Watched on) (apply_edit (Edit_Watched on') m) = apply_edit (Edit_Watched on) m.
Proof.
  unfold apply_edit, set_watched. destruct m as [? ? k ? ? ? ? ? l v s]; cbn.
  destruct ((k =? KIND_SHOW) || (k =? 2)) eqn:Hk, l; cbn; rewrite ?Hk; cbn; destruct s as [[]|]; cbn; rewrite ?Hk; done.
Qed.

Section Replay.
Context (at_ : ViewAt) (on : bool).

(** Rows the mark at [at_] makes equal. *)
Definition equal_after (m m' : PmsMovie) : Prop :=
  same_row m m' /\ patch_row m (at_, Edit_Watched on) = patch_row m' (at_, Edit_Watched on).

Lemma patch_row_same_row m p : same_row (patch_row m p) m.
Proof.
  unfold patch_row. destruct p as [a [o| | |]]; cbn; try done.
  destruct (covers a m); [apply set_watched_row|done].
Qed.

Lemma patch_then m a o : a = at_ \/ covers at_ m = true ->
  patch_row (patch_row m (a, Edit_Watched o)) (at_, Edit_Watched on) = patch_row m (at_, Edit_Watched on).
Proof.
  intros Ha. unfold patch_row at 2. cbn [fst snd is_watched_edit andb].
  destruct (covers a m) eqn:Hc; [|done].
  unfold patch_row. cbn [fst snd is_watched_edit andb].
  rewrite (covers_same_row at_ _ m) by apply set_watched_row.
  assert (covers at_ m = true) as -> by (destruct Ha as [<-|]; done). apply watched_overrides.
Qed.

Lemma equal_after_both m m' p : equal_after m m' -> equal_after (patch_row m p) (patch_row m' p).
Proof.
  intros [Hr Heq]. destruct (covers at_ m) eqn:Hc.
  - split.
    + unfold same_row in *. destruct (patch_row_same_row m p) as (?&?&?&?&?), (patch_row_same_row m' p) as (?&?&?&?&?).
      destruct Hr as (?&?&?&?&?). split_and!; congruence.
    + destruct p as [a [o| | |]]; try done. rewrite !patch_then; [done|right..]; [|done].
      by rewrite <- (covers_same_row _ m m' Hr).
  - unfold patch_row in Heq. cbn [fst snd is_watched_edit andb] in Heq.
    rewrite <- (covers_same_row _ m m' Hr), Hc in Heq. by subst m'.
Qed.

Lemma equal_after_replaced m m' o : equal_after m m' -> equal_after m (patch_row m' (at_, Edit_Watched o)).
Proof.
  intros [Hr Heq]. split; [|rewrite patch_then by auto; done].
  destruct (patch_row_same_row m' (at_, Edit_Watched o)) as (?&?&?&?&?). destruct Hr as (?&?&?&?&?).
  unfold same_row. split_and!; congruence.
Qed.
End Replay.

Definition replaced_by (at_ : ViewAt) (edit : ViewEdit) (ae : ViewAt * ViewEdit) : bool :=
  bool_decide (fst ae = at_) && same_kind (snd ae) edit.

Lemma patch_row_other m a e : is_watched_edit e = false -> patch_row m (a, e) = m.
Proof. intros He. unfold patch_row. cbn [fst snd]. by rewrite He. Qed.

Lemma replay_without_replaced at_ edit es m :
  fold_left patch_row (List.filter (fun ae => negb (replaced_by at_ edit ae)) es ++ [(at_, edit)]) m
  = fold_left patch_row (es ++ [(at_, edit)]) m.
Proof.
  rewrite !fold_left_app. cbn [fold_left].
  destruct (is_watched_edit edit) eqn:Hw; [destruct edit as [on| | |]; try done|].
  2: { rewrite !(patch_row_other _ _ _ Hw). revert m.
       induction es as [|[a e] es IH]; intros m; cbn [List.filter fold_left]; [done|].
       destruct (replaced_by at_ edit (a, e)) eqn:Hr; cbn [negb fold_left]; [|apply IH].
       rewrite IH. f_equal. symmetry. unfold replaced_by in Hr. apply andb_true_iff in Hr as [_ Hk%same_kind_spec].
       rewrite patch_row_other; [done|]. by destruct e, edit. }
  assert (Hgen : forall m m', equal_after at_ on m m' ->
    equal_after at_ on (fold_left patch_row (List.filter (fun ae => negb (replaced_by at_ (Edit_Watched on) ae)) es) m)
                       (fold_left patch_row es m')).
  { induction es as [|[a e] es IH]; intros m1 m2 Hm; [done|]. cbn [List.filter fold_left].
    destruct (replaced_by at_ (Edit_Watched on) (a, e)) eqn:Hr; cbn [negb].
    - apply IH. unfold replaced_by in Hr. cbn [fst snd] in Hr. apply andb_true_iff in Hr as [->%bool_decide_eq_true Hk].
      destruct e; try done. by apply equal_after_replaced.
    - cbn [fold_left]. apply IH. by apply equal_after_both. }
  by apply Hgen.
Qed.

Lemma since_entries t st : ledger_ok t ->
  since t st = (fun e => (en_at e, en_edit e)) <$> List.filter (fun e => st <? en_seq e) (le_entries t).
Proof.
  intros Hok. unfold since. destruct (Z.leb_spec (le_seq t) st); [|done].
  pose proof (lo_bounds _ Hok) as Hb. induction Hb as [|e l He _ IH]; [done|]. cbn [List.filter].
  cbn in He. by rewrite (proj2 (Z.ltb_ge st (en_seq e))) by lia.
Qed.

Lemma fmap_filter_pull {A B} (f : A -> B) (p : B -> bool) l :
  f <$> List.filter (fun x => p (f x)) l = List.filter p (f <$> l).
Proof. induction l as [|x l IH]; csimpl; [done|]. destruct (p (f x)); csimpl; by rewrite IH. Qed.

(** The presses that stand. *)
Definition standing (log : list Entry) : list Entry := List.filter (stands_in log) log.

Lemma replaces_sym a b : replaces (en_at a) (en_edit a) b = replaces (en_at b) (en_edit b) a.
Proof. apply eq_true_iff_eq. rewrite !replaces_spec. naive_solver. Qed.

Lemma filter_ext_elem {A} (p q : A -> bool) l : (forall x, x ∈ l -> p x = q x) -> List.filter p l = List.filter q l.
Proof. intros H. apply List.filter_ext_in. intros x Hx. by apply H, list_elem_of_In. Qed.

Lemma filter_twice {A} (p q : A -> bool) l :
  List.filter p (List.filter q l) = List.filter (fun x => q x && p x) l.
Proof.
  induction l as [|x l IH]; cbn; [done|]. destruct (q x); cbn; [|done]. by destruct (p x); rewrite IH.
Qed.

Lemma standing_snoc log e : Forall (fun x => en_seq x < en_seq e) log ->
  standing (log ++ [e]) = List.filter (fun x => negb (replaces (en_at e) (en_edit e) x)) (standing log) ++ [e].
Proof.
  intros Hlt. rewrite Forall_forall in Hlt. unfold standing. rewrite List.filter_app. f_equal.
  - rewrite filter_twice. apply filter_ext_elem. intros x Hx. unfold stands_in. rewrite existsb_app. cbn.
    rewrite (proj2 (Z.ltb_lt _ _) (Hlt x Hx)), orb_false_r, negb_orb. cbn. by rewrite replaces_sym.
  - cbn. unfold stands_in. rewrite existsb_app. cbn. rewrite Z.ltb_irrefl. cbn. rewrite orb_false_r.
    destruct (existsb _ log) eqn:E; [|done]. apply existsb_exists in E as (x & Hx%list_elem_of_In & Hp).
    apply andb_true_iff in Hp as [Hp%Z.ltb_lt _]. specialize (Hlt x Hx). lia.
Qed.

(** Replaying the presses that stand is replaying them all. *)
Lemma replay_standing log : StronglySorted (fun a b => en_seq a < en_seq b) log -> forall m,
  fold_left patch_row ((fun e => (en_at e, en_edit e)) <$> standing log) m
  = fold_left patch_row ((fun e => (en_at e, en_edit e)) <$> log) m.
Proof.
  induction log as [|e log IH] using rev_ind; intros Hs m; [done|].
  apply StronglySorted_app in Hs as (Hlt & Hs & _).
  rewrite standing_snoc by (apply Forall_forall; intros x Hx; apply Hlt; [done|by apply list_elem_of_singleton]).
  rewrite !fmap_app. csimpl.
  change (fun x => negb (replaces (en_at e) (en_edit e) x))
    with (fun x => negb (replaced_by (en_at e) (en_edit e) ((fun e => (en_at e, en_edit e)) x))).
  rewrite (fmap_filter_pull (fun e => (en_at e, en_edit e))
    (fun ae => negb (replaced_by (en_at e) (en_edit e) ae))).
  rewrite replay_without_replaced, !fold_left_app, IH by done. done.
Qed.

(** The table holds the presses of the log that stand. *)
Record holds_log (n : Z) (log : list Entry) (t : Ledger) : Prop := mk_holds_log {
  hl_seq : le_seq t = n;
  hl_bounds : Forall (fun e => 0 < en_seq e <= n) log;
  hl_sorted : StronglySorted (fun a b => en_seq a < en_seq b) log;
  hl_entries : le_entries t = standing log
}.

Lemma standing_at_spec n log t seq : holds_log n log t ->
  match standing_at log seq with
  | Some e => e ∈ le_entries t /\ en_seq e = seq
  | None => Forall (fun e => en_seq e <> seq) (le_entries t)
  end.
Proof.
  intros [_ _ _ He]. rewrite He. unfold standing_at. destruct (List.find _ log) as [e|] eqn:E.
  - apply find_some in E as [Hin [<-%Z.eqb_eq Hs]%andb_true_iff]. split; [|done].
    by apply list_elem_of_In, filter_In.
  - apply Forall_forall. intros e Hin Hs. apply list_elem_of_In, filter_In in Hin as [Hin Hst].
    apply (find_none _ _ E) in Hin. cbn in Hin. by rewrite Hst, (proj2 (Z.eqb_eq _ _) Hs) in Hin.
Qed.

(** The one entry of its kind on its item is the one with its number. *)
Lemma replaces_is_seq t e : ledger_ok t -> e ∈ le_entries t -> forall x, x ∈ le_entries t ->
  replaces (en_at e) (en_edit e) x = (en_seq x =? en_seq e).
Proof.
  intros Hok He x Hx. apply eq_true_iff_eq. rewrite replaces_spec, Z.eqb_eq. split.
  - intros Hk. by rewrite (entry_seq_inj t x e Hok Hx He Hk).
  - intros Hs. by rewrite (entry_by_seq t x e Hok Hx He Hs).
Qed.

Lemma delete_is_filter l i e : NoDup ((fun e => (en_at e, discriminant (en_edit e))) <$> l) -> l !! i = Some e ->
  delete i l = List.filter (fun x => negb (replaces (en_at e) (en_edit e) x)) l.
Proof.
  revert i. induction l as [|x l IH]; intros i Hnd Hi; [done|]. csimpl in Hnd. apply NoDup_cons in Hnd as [Hx Hnd].
  destruct i as [|i]; cbn in Hi.
  - injection Hi as ->. cbn. rewrite (proj2 (replaces_spec _ _ e) eq_refl). cbn. symmetry.
    transitivity (List.filter (fun _ => true) l); [|apply List.forallb_filter_id, List.forallb_forall; done].
    apply filter_ext_elem. intros y Hy. apply negb_true_iff, not_true_iff_false. rewrite replaces_spec. intros Hk.
    apply Hx. rewrite <- Hk. apply list_elem_of_fmap. by exists y.
  - change (delete (S i) (x :: l)) with (x :: delete i l). cbn.
    assert (Hne : replaces (en_at e) (en_edit e) x = false).
    { apply not_true_iff_false. rewrite replaces_spec. intros Hk. apply Hx. rewrite Hk. apply list_elem_of_fmap.
      exists e. split; [done|]. by eapply list_elem_of_lookup_2. }
    rewrite Hne. cbn. f_equal. by apply IH.
Qed.

Lemma standing_struck log at_ edit :
  standing (List.filter (fun x => negb (replaces at_ edit x)) log)
  = List.filter (fun x => negb (replaces at_ edit x)) (standing log).
Proof.
  unfold standing. rewrite (filter_comm _ (stands_in log)). apply filter_ext_elem. intros x Hx. unfold stands_in. f_equal.
  apply list_elem_of_In, filter_In in Hx as [_ Hx%negb_true_iff]. apply eq_true_iff_eq. rewrite !existsb_exists.
  split; intros (y & Hy & Hp); exists y; (split; [|done]); apply filter_In in Hy || apply filter_In; [apply Hy|].
  split; [done|]. apply negb_true_iff, not_true_iff_false. intros Hk%replaces_spec.
  apply andb_true_iff in Hp as [_ Hp%replaces_spec]. apply not_true_iff_false in Hx. apply Hx, replaces_spec. congruence.
Qed.

(** A number is written at the end. *)
Lemma holds_snoc n log t at_ edit : holds_log n log t -> 0 <= n ->
  holds_log (n + 1) (log ++ [mk_entry (n + 1) at_ edit])
    (mk_ledger (n + 1) (List.filter (fun e => negb (replaces at_ edit e)) (le_entries t)
                        ++ [mk_entry (n + 1) at_ edit])).
Proof.
  intros [_ Hb Hs He] Hn. split; [done| | |].
  - apply Forall_app. split; [eapply Forall_impl; [exact Hb|cbn; lia]|]. repeat constructor; cbn; lia.
  - apply sorted_snoc; [done|]. eapply Forall_impl; [exact Hb|cbn; lia].
  - cbn [le_entries]. rewrite standing_snoc; [by rewrite He|]. eapply Forall_impl; [exact Hb|cbn; lia].
Qed.

Lemma log_step_holds n log t op : holds_log n log t -> ledger_ok t -> room t 1 ->
  let '(n', log') := log_step (n, log) op in holds_log n' log' (ledger_step t op).
Proof.
  intros Hl Hok Hr. pose proof (next_seq t Hok Hr) as Hnext. rewrite (hl_seq _ _ _ Hl) in Hnext.
  assert (Hn : 0 <= n) by (rewrite <- (hl_seq _ _ _ Hl); apply (lo_seq _ Hok)).
  destruct op as [at_ edit|seq|seq|]; cbn [log_step ledger_step].
  - unfold record. cbn [snd]. rewrite (hl_seq _ _ _ Hl), Hnext. by apply holds_snoc.
  - pose proof (standing_at_spec _ _ _ seq Hl) as Hs. unfold landed.
    destruct (standing_at log seq) as [e|], (list_find _ (le_entries t)) as [[i x]|] eqn:E.
    + destruct Hs as [He <-]. apply list_find_Some in E as (Hi & Hx & _).
      rewrite (entry_by_seq t x e Hok) in Hi |- * by (done || by eapply list_elem_of_lookup_2).
      rewrite (hl_seq _ _ _ Hl), Hnext, (delete_is_filter _ _ _ (lo_distinct _ Hok) Hi).
      apply (holds_snoc n log t (en_at e) (en_edit e) Hl Hn).
    + exfalso. destruct Hs as [He Hseq]. apply list_find_None in E. rewrite Forall_forall in E. by apply (E e He).
    + exfalso. apply list_find_Some in E as (Hi & Hx & _). rewrite Forall_forall in Hs.
      by apply (Hs x); [by eapply list_elem_of_lookup_2|].
    + done.
  - pose proof (standing_at_spec _ _ _ seq Hl) as Hs. destruct Hl as [Hseq Hb Hsort He].
    destruct (standing_at log seq) as [e|].
    + destruct Hs as [Hin <-]. split; [done|by apply filter_Forall|by apply filter_sorted|].
      rewrite standing_struck, <- He. cbn. apply filter_ext_elem. intros x Hx. by rewrite (replaces_is_seq t e Hok Hin x Hx).
    + split; [done..|]. rewrite <- He. cbn. rewrite Forall_forall in Hs.
      apply List.forallb_filter_id, List.forallb_forall. intros x Hx%list_elem_of_In.
      by apply negb_true_iff, Z.eqb_neq, Hs.
  - unfold ledger_reset. rewrite (hl_seq _ _ _ Hl), Hnext. split; [done|constructor..].
Qed.

Lemma log_run_holds ops : forall n log t, holds_log n log t -> ledger_ok t ->
  room t (Z.of_nat (List.length ops)) ->
  let '(n', log') := fold_left log_step ops (n, log) in holds_log n' log' (ledger_run t ops).
Proof.
  induction ops as [|op ops IH]; intros n log t Hl Hok Hr; [done|]. cbn [fold_left ledger_run].
  unfold room in Hr. cbn [List.length] in Hr.
  pose proof (log_step_holds n log t op Hl Hok ltac:(unfold room; lia)) as Hl'.
  destruct (ledger_step_ok t op Hok ltac:(unfold room; lia)) as [Hok' Hs].
  destruct (log_step (n, log) op) as [n' log']. apply IH; [done..|unfold room; lia].
Qed.

Lemma filter_sorted_above log st : StronglySorted (fun a b => en_seq a < en_seq b) log ->
  List.filter (fun e => st <? en_seq e) (standing log) = standing (List.filter (fun e => st <? en_seq e) log).
Proof.
  intros Hs. unfold standing. rewrite filter_comm. apply filter_ext_elem. intros x Hx.
  apply list_elem_of_In, filter_In in Hx as [_ Hx%Z.ltb_lt]. unfold stands_in. f_equal. apply eq_true_iff_eq.
  rewrite !existsb_exists. split; intros (y & Hy & Hp); exists y; (split; [|done]); apply filter_In in Hy || apply filter_In; [|apply Hy].
  split; [done|]. apply andb_true_iff in Hp as [Hp%Z.ltb_lt _]. apply Z.ltb_lt. lia.
Qed.

Lemma replay_since n log t st m : holds_log n log t -> ledger_ok t ->
  fold_left patch_row (since t st) m = fold_left patch_row (made_since st log) m.
Proof.
  intros [_ _ Hsort He] Hok. rewrite since_entries, He, filter_sorted_above by done.
  apply replay_standing. by apply filter_sorted.
Qed.

