(* ===== verification/ViewState.v ===== *)
(** * Watch-state writes

    [data/src/viewstate.rs] and its store [data/src/stores/viewstate.rs]: the queue that sends one
    watch-state write at a time, the worker that performs it and repeats it on the title's other
    copies, and the landing pass.  The stores the writes reach are closures in the source; what
    they are called with is the list of [Call]s, in order, and the endpoint refreshes they answer
    with belong to them.  A mailbox adapter is shared between the owner and the ports of its jobs:
    an adapter is a number, and the mailboxes are a map. *)

From stdpp Require Import gmap.
From S2P Require Import Prelude Bytes Landing ViewLedger.

#[local] Open Scope Z_scope.

(** ** Client keys *)

Record ClientKey := mk_client_key { ck_instance : Z; ck_token : Z; ck_grant : Z }.
#[export] Instance ClientKey_eq_dec : EqDecision ClientKey.
Proof. solve_decision. Defined.

Abbreviation ClientKeys := (list (ServerId * ClientKey)).

(** [ClientKeys::key]. *)
Definition key_of (keys : ClientKeys) (sid : ServerId) : option ClientKey :=
  snd <$> List.find (fun p => fst p =? sid) keys.

(** ** Writes *)

Inductive Write := Write_Watched | Write_Unwatched | Write_RemoveFromDeck.
#[export] Instance Write_eq_dec : EqDecision Write.
Proof. solve_decision. Defined.

Definition fact (w : Write) : ViewFact :=
  match w with
  | Write_Watched => Fact_Watched true
  | Write_Unwatched => Fact_Watched false
  | Write_RemoveFromDeck => Fact_LeftDeck
  end.

Definition family (w : Write) : Z := match w with Write_Watched | Write_Unwatched => 0 | Write_RemoveFromDeck => 1 end.

Definition propagates (w : Write) : bool :=
  match w with Write_Watched | Write_Unwatched => true | Write_RemoveFromDeck => false end.

Record Req := mk_req {
  rq_id : Z; rq_seq : Stamp; rq_sid : ServerId; rq_key : ClientKey; rq_profile : Z; rq_rk : bytes;
  rq_w : Write; rq_scope : Scope; rq_guid : bytes; rq_origin_done : bool
}.

Record Done := mk_done { dn_ok : bool; dn_also : list Key }.

(** [Outcome] of the write. *)
Inductive WriteOutcome := Written (d : Done) | NotStarted.

Record Completion := mk_completion { cp_id : Z; cp_outcome : WriteOutcome }.

Record ViewWriteReq := mk_write_req {
  wr_sid : ServerId; wr_key : ClientKey; wr_rk : bytes; wr_w : Write; wr_guid : bytes;
  wr_origin_done : bool; wr_keys : ClientKeys
}.

(** The mailbox adapters: what waits in each, and the next fresh one. *)
Record Adapters := mk_adapters { ap_mail : gmap nat Completion; ap_next : nat }.
#[export] Instance Adapters_eta : Eta Adapters := fun r => mk_adapters (ap_mail r) (ap_next r).

(** [StoreJob::ViewWrite]: the job and the adapter its port reaches. *)
Record ViewJob := mk_view_job { vj_addr : Addr; vj_req : ViewWriteReq; vj_port : nat }.

Definition VIEW_STATE_ORD : Z := 5.
Definition view_write_addr (id : Z) : Addr := mk_addr (Machine_Store VIEW_STATE_ORD) id.

(** [ViewWritePort::post], [done] and [refused]. *)
Definition post (port : nat) (id : Z) (outcome : WriteOutcome) (a : Adapters) : Adapters :=
  a <| ap_mail := <[port := mk_completion id outcome]> (ap_mail a) |>.
Definition port_done (port : nat) (addr : Addr) (out : Done) (a : Adapters) : Adapters :=
  post port (ad_req addr) (Written out) a.
Definition port_refused (port : nat) (addr : Addr) (a : Adapters) : Adapters :=
  post port (ad_req addr) NotStarted a.

(** [Arc::new(Default::default())]. *)
Definition new_adapter (a : Adapters) : nat * Adapters := (ap_next a, a <| ap_next := S (ap_next a) |>).

(** ** The owner *)

Record ViewStateState := mk_view_state {
  vs_ledger : Ledger;
  vs_queue : list Req;
  vs_sent : option Req;
  vs_retry_cd : Z;
  vs_want_hubs : bool;
  vs_want_reread : list Key;
  vs_next_request_id : Z;
  vs_jobs : list ViewJob;
  vs_hold_refresh : bool
}.
#[export] Instance ViewStateState_eta : Eta ViewStateState := fun r =>
  mk_view_state (vs_ledger r) (vs_queue r) (vs_sent r) (vs_retry_cd r) (vs_want_hubs r)
    (vs_want_reread r) (vs_next_request_id r) (vs_jobs r) (vs_hold_refresh r).

Definition view_state_default : ViewStateState := mk_view_state ledger_new [] None 0 false [] 1 [] false.

Definition RETRY_FRAMES : Z := 120.

(** What the other stores are told. *)
Inductive Call :=
  | Hubs_ApplyView (at_ : ViewAt) (edit : ViewEdit)
  | Browse_ApplyView (at_ : ViewAt) (edit : ViewEdit)
  | Metadata_ApplyView (at_ : ViewAt) (edit : ViewEdit)
  | Search_ApplyView (at_ : ViewAt) (edit : ViewEdit)
  | Person_ApplyView (at_ : ViewAt) (edit : ViewEdit)
  | Collection_ApplyView (at_ : ViewAt) (edit : ViewEdit)
  | Hubs_RefetchHubs
  | Browse_HubsInvalidateAll
  | Idle_invalidate.

(** An identity that has run out panics. *)
Definition mint_request_id (s : ViewStateState) : option (Z * ViewStateState) :=
  let id := vs_next_request_id s in
  next ← u32_checked (vs_next_request_id s + 1);
  Some (id, s <| vs_next_request_id := next |>).

Definition is_busy (s : ViewStateState) : bool :=
  negb (bool_decide (vs_queue s = [])) || is_some (vs_sent s).

Definition publish_view (change : ViewChange) : list Call :=
  let at_ := at_of change in
  let edit := edit_of change in
  [Hubs_ApplyView at_ edit; Browse_ApplyView at_ edit]
  ++ (if bool_decide (edit = Edit_LeftDeck) then []
      else [Metadata_ApplyView at_ edit; Search_ApplyView at_ edit; Person_ApplyView at_ edit;
            Collection_ApplyView at_ edit])
  ++ [Idle_invalidate].

Definition coalesce (s : ViewStateState) (sid : ServerId) (rk : bytes) (w : Write) : ViewStateState :=
  s <| vs_queue := List.filter
         (fun r => negb (same_item (rq_sid r, rq_rk r) (sid, rk) && (family (rq_w r) =? family w)))
         (vs_queue s) |>.

Definition retry_tick (s : ViewStateState) : bool * ViewStateState :=
  let cd := vs_retry_cd s in
  (cd <=? 1, if 0 <? cd then s <| vs_retry_cd := cd - 1 |> else s).

Definition drop_queued (s : ViewStateState) (req : Req) : ViewStateState :=
  s <| vs_ledger := retire (vs_ledger s) (rq_seq req) |>.

(** [admit]. *)
Definition admit_req (s : ViewStateState) (req : Req) (keys : ClientKeys) (profile : Z)
  : ViewStateState * option Req :=
  if negb (rq_profile req =? profile) then (drop_queued s req, None)
  else
    match key_of keys (rq_sid req) with
    | None => (drop_queued s req, None)
    | Some key => if bool_decide (key = rq_key req) then (s, Some req) else (drop_queued s req, None)
    end.

Definition job_of (req : Req) (keys : ClientKeys) (adapter : nat) : ViewJob :=
  mk_view_job (view_write_addr (rq_id req))
    (mk_write_req (rq_sid req) (rq_key req) (rq_rk req) (rq_w req) (rq_guid req) (rq_origin_done req) keys)
    adapter.

(** [while !self.queue.is_empty()]: the head is taken off; one that may go out ends the loop. *)
Fixpoint kick_loop (s : ViewStateState) (queue : list Req) (adapter : nat) (keys : ClientKeys)
    (profile : Z) : ViewStateState :=
  match queue with
  | [] => s <| vs_queue := [] |>
  | req :: queue =>
      match admit_req (s <| vs_queue := queue |>) req keys profile with
      | (s, None) => kick_loop s queue adapter keys profile
      | (s, Some req) => s <| vs_jobs := vs_jobs s ++ [job_of req keys adapter] |> <| vs_sent := Some req |>
      end
  end.

Definition kick (s : ViewStateState) (adapter : nat) (keys : ClientKeys) (profile : Z) : ViewStateState :=
  if is_some (vs_sent s) || (0 <? vs_retry_cd s) then s
  else kick_loop s (vs_queue s) adapter keys profile.

Definition request (s : ViewStateState) (adapter : nat) (sid : ServerId) (rk : bytes) (w : Write)
    (scope : Scope) (guid : bytes) (keys : ClientKeys) (profile : Z)
  : option (ViewStateState * list Call * bool) :=
  match key_of keys sid with
  | None => Some (s, [], false)
  | Some key =>
      let change := mk_change sid rk scope (fact w) in
      let '(seq, ledger) := record (vs_ledger s) (at_of change) (edit_of change) in
      let s := s <| vs_ledger := ledger |> in
      let calls := publish_view change in
      let s := coalesce s sid rk w in
      '(id, s) ← mint_request_id s;
      let s := s <| vs_queue := vs_queue s ++ [mk_req id seq sid key profile rk w scope guid false] |> in
      Some (kick s adapter keys profile, calls, true)
  end.

(** [server_ids().nth(1).is_none()] is the list of registered servers having fewer than two. *)
Definition fan_out_origin_watched (s : ViewStateState) (adapter : nat) (sid : ServerId) (rk : bytes)
    (keys : ClientKeys) (profile : Z) (server_ids : list ServerId) : option (ViewStateState * bool) :=
  match key_of keys sid with
  | None => Some (s, false)
  | Some key =>
      if (List.length server_ids <? 2)%nat
         || existsb (fun r => same_item (rq_sid r, rq_rk r) (sid, rk))
              (vs_queue s ++ match vs_sent s with Some r => [r] | None => [] end)
      then Some (s, false)
      else
        '(id, s) ← mint_request_id s;
        let s := s <| vs_queue := vs_queue s
                       ++ [mk_req id 0 sid key profile rk Write_Watched Scope_Leaf [] true] |> in
        Some (kick s adapter keys profile, true)
  end.

Definition restart_refused (s : ViewStateState) (req : Req) (keys : ClientKeys) (profile : Z)
  : ViewStateState :=
  match admit_req s req keys profile with
  | (s, None) => s
  | (s, Some req) => s <| vs_queue := req :: vs_queue s |> <| vs_retry_cd := RETRY_FRAMES |>
  end.

Definition take_jobs (s : ViewStateState) : list ViewJob * ViewStateState := (vs_jobs s, s <| vs_jobs := [] |>).

(** The take from the mailbox, when the landing gate polls it on this frame: only the answer of the
    write in flight is returned, and the mailbox is empty after it either way. *)
Definition take_completion (s : ViewStateState) (adapter : nat) (gate : bool) (a : Adapters)
  : option Completion * Adapters :=
  if negb gate then (None, a)
  else
    match ap_mail a !! adapter with
    | None => (None, a)
    | Some c =>
        let a := a <| ap_mail := delete adapter (ap_mail a) |> in
        (match vs_sent s with
         | Some r => if rq_id r =? cp_id c then Some c else None
         | None => None
         end, a)
    end.

(** The scope a copy on another server is published under. *)
Definition copy_scope (scope : Scope) : Scope :=
  match scope with
  | Scope_Show => Scope_Show
  | Scope_Leaf => Scope_Leaf
  | Scope_Season _ _ | Scope_Unknown => Scope_Unknown
  end.

(** [for (osid, ork) in &done.also]. *)
Definition publish_copy (r : Req) (sc : ViewStateState * list Call) (copy : Key) : ViewStateState * list Call :=
  let '(s, calls) := sc in
  let change := mk_change (fst copy) (snd copy) (copy_scope (rq_scope r)) (fact (rq_w r)) in
  (s <| vs_ledger := snd (record (vs_ledger s) (at_of change) (edit_of change)) |>,
   calls ++ publish_view change).

(** [want_reread], each key once. *)
Definition add_key (l : list Key) (k : Key) : list Key :=
  if existsb (fun k' => bool_decide (k' = k)) l then l else l ++ [k].

(** A write that the worker answered. *)
Definition land_written (s : ViewStateState) (r : Req) (done : Done) : ViewStateState * list Call :=
  let s := s <| vs_ledger := if dn_ok done then landed (vs_ledger s) (rq_seq r)
                             else retire (vs_ledger s) (rq_seq r) |> in
  let '(s, calls) := fold_left (publish_copy r) (dn_also done) (s, []) in
  let s := s <| vs_want_hubs :=
                  vs_want_hubs s || negb (rq_origin_done r && bool_decide (dn_also done = [])) |> in
  let s :=
    if propagates (rq_w r) then
      let origin := if rq_origin_done r then [] else [(rq_sid r, rq_rk r)] in
      s <| vs_want_reread := fold_left add_key (origin ++ dn_also done) (vs_want_reread s) |>
    else s in
  (s, calls).

Definition pump_with_gate (s : ViewStateState) (adapter : nat) (gate : bool) (keys : ClientKeys)
    (profile : Z) (a : Adapters) : option (ViewStateState * list Call * Adapters) :=
  let '(due, s) := retry_tick s in
  let '(landed, a) := take_completion s adapter gate a in
  '(s, calls) ←
    match landed with
    | None => Some (s, [])
    | Some c =>
        r ← vs_sent s;
        let s := s <| vs_sent := None |> in
        match cp_outcome c with
        | NotStarted => Some (restart_refused s r keys profile, [])
        | Written done => Some (land_written s r done)
        end
    end;
  let s := if due then kick s adapter keys profile else s in
  if is_busy s || vs_hold_refresh s then Some (s, calls, a)
  else if vs_want_hubs s
  then Some (s <| vs_want_hubs := false |>, calls ++ [Hubs_RefetchHubs; Browse_HubsInvalidateAll; Idle_invalidate], a)
  else Some (s, calls, a).

Definition take_reread (s : ViewStateState) : list Key * ViewStateState :=
  if is_busy s then ([], s) else (vs_want_reread s, s <| vs_want_reread := [] |>).

Definition reset (s : ViewStateState) : ViewStateState :=
  s <| vs_queue := [] |> <| vs_sent := None |> <| vs_retry_cd := 0 |> <| vs_want_hubs := false |>
    <| vs_want_reread := [] |> <| vs_ledger := ledger_reset (vs_ledger s) |>.

(** ** The store *)

Inductive ViewStateCmd :=
  | Cmd_Request (sid : ServerId) (rk : bytes) (w : Write) (scope : Scope) (guid : bytes)
  | Cmd_Reset.

Definition run (s : ViewStateState) (adapter : nat) (cmd : ViewStateCmd) (keys : ClientKeys) (profile : Z)
  : option (ViewStateState * list Call * bool) :=
  match cmd with
  | Cmd_Request sid rk w scope guid => request s adapter sid rk w scope guid keys profile
  | Cmd_Reset => Some (reset s, [], true)
  end.

Record ViewStateStore := mk_view_store {
  vw_state : ViewStateState; vw_adapter : nat; vw_notice_gen : Z; vw_notice_dirty : bool
}.
#[export] Instance ViewStateStore_eta : Eta ViewStateStore := fun r =>
  mk_view_store (vw_state r) (vw_adapter r) (vw_notice_gen r) (vw_notice_dirty r).

Definition bump (v : ViewStateStore) : ViewStateStore :=
  v <| vw_notice_dirty := true |> <| vw_notice_gen := u32_wrap (vw_notice_gen v + 1) |>.

Definition take_notice (v : ViewStateStore) : option Z * ViewStateStore :=
  (if vw_notice_dirty v then Some (vw_notice_gen v) else None, v <| vw_notice_dirty := false |>).

Definition store_run (v : ViewStateStore) (cmd : ViewStateCmd) (keys : ClientKeys) (profile : Z) (a : Adapters)
  : option (ViewStateStore * list Call * bool * Adapters) :=
  let '(v, a) :=
    match cmd with
    | Cmd_Reset => let '(n, a) := new_adapter a in (v <| vw_adapter := n |>, a)
    | _ => (v, a)
    end in
  '(s, calls, changed) ← run (vw_state v) (vw_adapter v) cmd keys profile;
  Some (bump (v <| vw_state := s |>), calls, changed, a).

Definition store_pump (v : ViewStateStore) (gate : bool) (keys : ClientKeys) (profile : Z) (a : Adapters)
  : option (ViewStateStore * list Call * Adapters) :=
  let busy := is_busy (vw_state v) in
  '(s, calls, a) ← pump_with_gate (vw_state v) (vw_adapter v) gate keys profile a;
  let v := v <| vw_state := s |> in
  Some (if negb (eqb busy (is_busy s)) then bump v else v, calls, a).

Definition store_fan_out (v : ViewStateStore) (sid : ServerId) (rk : bytes) (keys : ClientKeys) (profile : Z)
    (server_ids : list ServerId) : option (ViewStateStore * bool) :=
  '(s, queued) ← fan_out_origin_watched (vw_state v) (vw_adapter v) sid rk keys profile server_ids;
  let v := v <| vw_state := s |> in
  Some (if (queued : bool) then bump v else v, queued).

(** ** The worker *)

(** What the worker asks of the registry and of the servers' clients, in the world as it is then. *)
Class Servers (W Client : Type) := {
  server_ids : W -> list ServerId;
  lookup_client : W -> ServerId -> option Client;
  client_key : W -> Client -> ClientKey;
  perform : W -> Write -> Client -> bytes -> bool * W;
  metadata_guid : W -> Client -> bytes -> option bytes * W;
  find_by_guid : W -> Client -> bytes -> option (list bytes) * W
}.

Section Worker.
Context {W Client : Type} `{Servers W Client}.

(** [KeyedClients::client]. *)
Definition keyed_client (w : W) (keys : ClientKeys) (sid : ServerId) : option Client :=
  key ← key_of keys sid;
  c ← lookup_client w sid;
  if bool_decide (client_key w c = key) then Some c else None.

Definition resolved_guid (w : W) (c : Client) (rk given : bytes) : option bytes * W :=
  if negb (bool_decide (given = [])) then (Some given, w)
  else
    let '(guid, w) := metadata_guid w c rk in
    let guid := default [] guid in
    (if bool_decide (guid = []) then None else Some guid, w).

Abbreviation Answer := (ServerId * option (list bytes))%type.

Fixpoint ask_sources (w : W) (sources : list ServerId) (keys : ClientKeys) (guid : bytes)
  : list Answer * W :=
  match sources with
  | [] => ([], w)
  | id :: sources =>
      let '(held, w) :=
        match keyed_client w keys id with
        | Some c => find_by_guid w c guid
        | None => (None, w)
        end in
      let '(answers, w) := ask_sources w sources keys guid in
      ((id, held) :: answers, w)
  end.

(** One key of one answer. *)
Definition add_target (origin : Key) (out : list Key) (pair : Key) : list Key :=
  if existsb (fun e => same_item e pair) out || same_item pair origin then out else out ++ [pair].

Definition fanout_targets (origin : Key) (answers : list Answer) : list Key :=
  fold_left (fun out answer =>
    fold_left (fun out k => add_target origin out (fst answer, k)) (default [] (snd answer)) out)
    answers [].

(** [for (id, key) in fanout_targets(..)]. *)
Fixpoint write_targets (world : W) (targets : list Key) (keys : ClientKeys) (w : Write) : list Key * W :=
  match targets with
  | [] => ([], world)
  | (id, key) :: targets =>
      match keyed_client world keys id with
      | None => write_targets world targets keys w
      | Some dst =>
          let '(ok, world) := perform world w dst key in
          let '(done, world) := write_targets world targets keys w in
          (if ok then (id, key) :: done else done, world)
      end
  end.

Definition fan_out (world : W) (c : Client) (keys : ClientKeys) (sid : ServerId) (rk guid : bytes)
    (w : Write) : list Key * W :=
  let sources := server_ids world in
  if (List.length sources <? 2)%nat then ([], world)
  else
    match resolved_guid world c rk guid with
    | (None, world) => ([], world)
    | (Some guid, world) =>
        let '(answers, world) := ask_sources world sources keys guid in
        write_targets world (fanout_targets (sid, rk) answers) keys w
    end.

Definition write_job (world : W) (origin : Client) (req : ViewWriteReq) : Done * W :=
  let '(ok, world) :=
    if wr_origin_done req then (true, world) else perform world (wr_w req) origin (wr_rk req) in
  let '(also, world) :=
    if propagates (wr_w req)
    then fan_out world origin (wr_keys req) (wr_sid req) (wr_rk req) (wr_guid req) (wr_w req)
    else ([], world) in
  (mk_done ok also, world).

(** A body that panics leaves some world behind, and answers [Done::default()]. *)
Definition finish_view_write_job (world : W) (port : nat) (addr : Addr) (origin : Client)
    (req : ViewWriteReq) (panicked : option W) (a : Adapters) : Adapters * W :=
  let '(done, world) :=
    match panicked with
    | Some world => (mk_done false [], world)
    | None => write_job world origin req
    end in
  (port_done port addr done a, world).
End Worker.
