(* ===== verification/ViewReconcile.v ===== *)
(** * The read-back of watch-state writes

    [data/src/stores/viewreconcile.rs], and the methods of [Stores] ([data/src/stores/mod.rs]) that
    join it to the write queue.  What it publishes to the other stores is a list of
    [ViewChange]s, in order.  Its mailbox holds every answer posted since it was last emptied. *)

From stdpp Require Import gmap.
From S2P Require Import Prelude Bytes Landing ViewLedger ViewState.

#[local] Open Scope Z_scope.

Definition BATCH_KEYS : nat := 50.

Record Flight := mk_flight {
  fl_id : Z; fl_sid : ServerId; fl_keys : list bytes; fl_parents : list bytes; fl_stamp : Stamp
}.

Record ReadRow := mk_read_row { rr_movie : PmsMovie; rr_parent : bytes; rr_grandparent : bytes }.

(** [Outcome] of a read. *)
Inductive ReadOutcome := Read (rows : option (list ReadRow)) | Read_NotStarted.

Record ReadLanding := mk_read_landing { ra_id : Z; ra_outcome : ReadOutcome }.

Record ReconcileReq := mk_reconcile_req { rc_sid : ServerId; rc_key : ClientKey; rc_keys : list bytes }.

(** [StoreJob::ViewReconcile]. *)
Record ReadJob := mk_read_job { rj_addr : Addr; rj_req : ReconcileReq; rj_port : nat }.

Definition VIEW_RECONCILE_ORD : Z := 8.
Definition reconcile_addr (id : Z) : Addr := mk_addr (Machine_Store VIEW_RECONCILE_ORD) id.

Record ReadAdapters := mk_read_adapters { rp_mail : gmap nat (list ReadLanding); rp_next : nat }.
#[export] Instance ReadAdapters_eta : Eta ReadAdapters := fun r => mk_read_adapters (rp_mail r) (rp_next r).

Definition post_read (port : nat) (id : Z) (outcome : ReadOutcome) (a : ReadAdapters) : ReadAdapters :=
  a <| rp_mail := <[port := default [] (rp_mail a !! port) ++ [mk_read_landing id outcome]]> (rp_mail a) |>.
Definition read_done (port : nat) (addr : Addr) (rows : option (list ReadRow)) (a : ReadAdapters) : ReadAdapters :=
  post_read port (ad_req addr) (Read rows) a.
Definition read_refused (port : nat) (addr : Addr) (a : ReadAdapters) : ReadAdapters :=
  post_read port (ad_req addr) Read_NotStarted a.

Record ViewReconcileStore := mk_reconcile {
  vr_adapter : nat;
  vr_pending : list Key;
  vr_pending_parents : list Key;
  vr_flights : list Flight;
  vr_dirty : list Key;
  vr_candidates : list (Key * Z);
  vr_watched_ends : list Key;
  vr_landed : list Key;
  vr_quiet : list Key;
  vr_retry_cd : Z;
  vr_next_id : Z;
  vr_jobs : list ReadJob;
  vr_notice_gen : Z;
  vr_notice_dirty : bool
}.
#[export] Instance ViewReconcileStore_eta : Eta ViewReconcileStore := fun r =>
  mk_reconcile (vr_adapter r) (vr_pending r) (vr_pending_parents r) (vr_flights r) (vr_dirty r)
    (vr_candidates r) (vr_watched_ends r) (vr_landed r) (vr_quiet r) (vr_retry_cd r) (vr_next_id r)
    (vr_jobs r) (vr_notice_gen r) (vr_notice_dirty r).

Definition reconcile_default (adapter : nat) : ViewReconcileStore :=
  mk_reconcile adapter [] [] [] [] [] [] [] [] 0 1 [] 0 false.

Definition reconcile_bump (s : ViewReconcileStore) : ViewReconcileStore :=
  s <| vr_notice_dirty := true |> <| vr_notice_gen := u32_wrap (vr_notice_gen s + 1) |>.

Definition reconcile_busy (s : ViewReconcileStore) : bool :=
  negb (bool_decide (vr_pending s = [])) || negb (bool_decide (vr_pending_parents s = []))
  || negb (match vr_flights s with [] => true | _ => false end).

(** [list.iter().any(|k| same_item(k, key))]. *)
Definition listed (key : Key) (l : list Key) : bool := existsb (fun k => same_item k key) l.

(** Does a flight ask for this item? *)
Definition asks (f : Flight) (key : Key) : bool :=
  (fl_sid f =? fst key) && existsb (fun k => same_item (fl_sid f, k) key) (fl_keys f).

Definition is_out (s : ViewReconcileStore) (key : Key) : bool := existsb (fun f => asks f key) (vr_flights s).

Definition enqueue1 (s : ViewReconcileStore) (key : Key) : ViewReconcileStore :=
  let s := s <| vr_quiet := List.filter (fun k => negb (same_item k key)) (vr_quiet s) |> in
  if is_out s key
  then if listed key (vr_dirty s) then s else s <| vr_dirty := vr_dirty s ++ [key] |>
  else if listed key (vr_pending s) then s else s <| vr_pending := vr_pending s ++ [key] |>.

Definition enqueue (s : ViewReconcileStore) (keys : list Key) : ViewReconcileStore := fold_left enqueue1 keys s.

Definition reread1 (s : ViewReconcileStore) (key : Key) : ViewReconcileStore :=
  let fresh :=
    negb (listed key (vr_pending s ++ vr_pending_parents s ++ vr_dirty s) || is_out s key) in
  let s := enqueue1 s key in
  if fresh then s <| vr_quiet := vr_quiet s ++ [key] |> else s.

Definition enqueue_reread (s : ViewReconcileStore) (keys : list Key) : ViewReconcileStore := fold_left reread1 keys s.

(** The candidate of an item is stamped anew, or added. *)
Definition stamp_candidate (key : Key) (born : Z) (l : list (Key * Z)) : list (Key * Z) :=
  match list_find (fun c => same_item (fst c) key = true) l with
  | Some (i, (k, _)) => <[i := (k, born)]> l
  | None => l ++ [(key, born)]
  end.

Definition enqueue_stop (s : ViewReconcileStore) (key : Key) (was_watched : bool) : ViewReconcileStore :=
  let s :=
    if was_watched then s
    else s <| vr_candidates := stamp_candidate key (vr_next_id s) (vr_candidates s) |> in
  enqueue s [key].

Definition take_watched_ends (s : ViewReconcileStore) : list Key * ViewReconcileStore :=
  (vr_watched_ends s, s <| vr_watched_ends := [] |>).

Definition owe_page (s : ViewReconcileStore) (key : Key) : ViewReconcileStore :=
  if listed key (vr_landed s) then s else s <| vr_landed := vr_landed s ++ [key] |>.

Definition take_landed (s : ViewReconcileStore) : list Key * ViewReconcileStore :=
  (vr_landed s, s <| vr_landed := [] |>).

Definition reconcile_reset (s : ViewReconcileStore) (a : ReadAdapters) : ViewReconcileStore * ReadAdapters :=
  (reconcile_bump
     (s <| vr_adapter := rp_next a |> <| vr_pending := [] |> <| vr_pending_parents := [] |>
        <| vr_flights := [] |> <| vr_dirty := [] |> <| vr_candidates := [] |> <| vr_watched_ends := [] |>
        <| vr_landed := [] |> <| vr_quiet := [] |> <| vr_retry_cd := 0 |>),
   a <| rp_next := S (rp_next a) |>).

(** [pending.retain(..)]: the first keys of a server, up to a batch, and what is left. *)
Fixpoint take_batch (sid : ServerId) (keys : list bytes) (l : list Key) : list bytes * list Key :=
  match l with
  | [] => (keys, [])
  | (s, rk) :: l =>
      if (s =? sid) && (List.length keys <? BATCH_KEYS)%nat
      then take_batch sid (keys ++ [rk]) l
      else let '(keys, rest) := take_batch sid keys l in (keys, (s, rk) :: rest)
  end.

(** [pending_parents.retain(..)]: the parents that ride along. *)
Fixpoint take_parents (sid : ServerId) (keys parents : list bytes) (l : list Key)
  : list bytes * list bytes * list Key :=
  match l with
  | [] => (keys, parents, [])
  | (s, rk) :: l =>
      if negb (s =? sid) || (BATCH_KEYS <=? List.length keys)%nat
      then let '(keys, parents, rest) := take_parents sid keys parents l in (keys, parents, (s, rk) :: rest)
      else if existsb (fun k => same_item (sid, k) (sid, rk)) keys
      then take_parents sid keys parents l
      else take_parents sid (keys ++ [rk]) (parents ++ [rk]) l
  end.

(** The servers with something queued and nothing out, in the order first queued. *)
Definition add_server (flights : list Flight) (servers : list ServerId) (k : Key) : list ServerId :=
  if existsb (fun s => s =? fst k) servers || existsb (fun f => fl_sid f =? fst k) flights
  then servers else servers ++ [fst k].

Definition send_batch (clients : ClientKeys) (st : Stamp) (s : ViewReconcileStore) (sid : ServerId)
  : ViewReconcileStore :=
  let '(keys, pending) := take_batch sid [] (vr_pending s) in
  let '(keys, parents, pending_parents) := take_parents sid keys [] (vr_pending_parents s) in
  let s := s <| vr_pending := pending |> <| vr_pending_parents := pending_parents |> in
  match key_of clients sid with
  | None => s
  | Some key =>
      let id := vr_next_id s in
      s <| vr_next_id := u32_wrap (id + 1) |>
        <| vr_jobs := vr_jobs s
             ++ [mk_read_job (reconcile_addr id) (mk_reconcile_req sid key keys) (vr_adapter s)] |>
        <| vr_flights := vr_flights s ++ [mk_flight id sid keys parents st] |>
  end.

(** [kick]: [st] is the ledger's stamp. *)
Definition reconcile_kick (s : ViewReconcileStore) (clients : ClientKeys) (st : Stamp) : ViewReconcileStore :=
  if 0 <? vr_retry_cd s then s <| vr_retry_cd := vr_retry_cd s - 1 |>
  else
    let servers := fold_left (add_server (vr_flights s)) (vr_pending s ++ vr_pending_parents s) [] in
    fold_left (send_batch clients st) servers s.

Definition take_read_jobs (s : ViewReconcileStore) : list ReadJob * ViewReconcileStore :=
  (vr_jobs s, s <| vr_jobs := [] |>).

Definition asked_in (sid : ServerId) (keys : list bytes) (k : Key) : bool :=
  (fst k =? sid) && existsb (fun key => same_item (sid, key) k) keys.

Definition take_asked_again (s : ViewReconcileStore) (sid : ServerId) (keys : list bytes)
  : list Key * ViewReconcileStore :=
  (List.filter (asked_in sid keys) (vr_dirty s),
   s <| vr_dirty := List.filter (fun k => negb (asked_in sid keys k)) (vr_dirty s) |>).

(** [requeue_unstarted]: a leaf goes back to [pending]. *)
Definition requeue_leaf (sid : ServerId) (s : ViewReconcileStore) (rk : bytes) : ViewReconcileStore :=
  if listed (sid, rk) (vr_pending s) then s else s <| vr_pending := vr_pending s ++ [(sid, rk)] |>.

(** A parent goes back to the parents, unless it was also asked for as an item. *)
Definition requeue_parent (sid : ServerId) (asked_again : list Key) (s : ViewReconcileStore) (rk : bytes)
  : ViewReconcileStore :=
  if listed (sid, rk) (vr_pending s) || listed (sid, rk) (vr_pending_parents s) then s
  else if listed (sid, rk) asked_again then s <| vr_pending := vr_pending s ++ [(sid, rk)] |>
  else s <| vr_pending_parents := vr_pending_parents s ++ [(sid, rk)] |>.

Definition requeue_unstarted (s : ViewReconcileStore) (f : Flight) : ViewReconcileStore :=
  let sid := fl_sid f in
  let '(asked_again, s) := take_asked_again s sid (fl_keys f) in
  let leaves := (List.length (fl_keys f) - List.length (fl_parents f))%nat in
  let s := fold_left (requeue_leaf sid) (take leaves (fl_keys f)) s in
  let s := fold_left (requeue_parent sid asked_again) (drop leaves (fl_keys f)) s in
  s <| vr_retry_cd := RETRY_FRAMES |>.

(** The season or the show an answer names, owed a read. *)
Definition owe_parent (f : Flight) (is_quiet : bool) (s : ViewReconcileStore) (up : bytes) : ViewReconcileStore :=
  if bool_decide (up = []) || existsb (fun k => same_item (fl_sid f, k) (fl_sid f, up)) (fl_keys f) then s
  else
    let key := (fl_sid f, up) in
    if listed key (vr_pending s) || listed key (vr_pending_parents s) then s
    else
      let s := if is_quiet then s <| vr_quiet := vr_quiet s ++ [key] |> else s in
      s <| vr_pending_parents := vr_pending_parents s ++ [key] |>.

(** The stop an answer settles. *)
Definition settle_candidate (f : Flight) (m : PmsMovie) (s : ViewReconcileStore) : ViewReconcileStore :=
  match list_find (fun c => (snd c <=? fl_id f) && same_item (fst c) (pm_key m) = true) (vr_candidates s) with
  | None => s
  | Some (i, (key, _)) =>
      let s := s <| vr_candidates := delete i (vr_candidates s) |> in
      if pm_watched m then s <| vr_watched_ends := vr_watched_ends s ++ [key] |> else s
  end.

(** What a row is published as. *)
Definition facts_change (m : PmsMovie) : ViewChange :=
  mk_change (pm_sid m) (pm_rk m) Scope_Leaf
    (Fact_Facts (pm_watched m) (pm_unwatched m) (pm_resume_ms m) (sort_facts_of m)).

(** One row of an answer. *)
Definition land_row (f : Flight) (quiet : list Key) (overtaking : list ViewAt)
    (sp : ViewReconcileStore * list ViewChange) (row : ReadRow) : ViewReconcileStore * list ViewChange :=
  let '(s, published) := sp in
  let m := rr_movie row in
  if negb (existsb (fun k => same_item (fl_sid f, k) (pm_key m)) (fl_keys f)) then (s, published)
  else if existsb (fun at_ => covers at_ m) overtaking then (s, published)
  else
    let is_quiet := listed (pm_key m) quiet in
    let is_parent := existsb (fun p => same_item (fl_sid f, p) (pm_key m)) (fl_parents f) in
    let s :=
      if is_parent then s
      else fold_left (owe_parent f is_quiet) [rr_parent row; rr_grandparent row] s in
    let s := settle_candidate f m s in
    let s := if is_quiet then s else owe_page s (pm_key m) in
    (s, published ++ [facts_change m]).

(** One answered flight. *)
Definition land_read (ledger : Ledger) (s : ViewReconcileStore) (f : Flight) (rows : option (list ReadRow))
  : ViewReconcileStore * list ViewChange :=
  let quiet :=
    List.filter (fun key => existsb (fun q => same_item q key) (vr_quiet s))
      ((fun k => (fl_sid f, k)) <$> fl_keys f) in
  let s := s <| vr_quiet := List.filter (fun q => negb (existsb (fun k => bool_decide (k = q)) quiet)) (vr_quiet s) |> in
  let overtaking := fst <$> List.filter (fun ae => is_watched_edit (snd ae)) (since ledger (fl_stamp f)) in
  let '(s, published) := fold_left (land_row f quiet overtaking) (default [] rows) (s, []) in
  let s := s <| vr_candidates :=
    List.filter (fun c => (fl_id f <? snd c)
                          || negb ((fst (fst c) =? fl_sid f)
                                   && existsb (fun k => same_item (fl_sid f, k) (fst c)) (fl_keys f)))
      (vr_candidates s) |> in
  let '(again, s) := take_asked_again s (fl_sid f) (fl_keys f) in
  (s <| vr_pending := vr_pending s ++ again |>, published).

(** One landing: the store, what was published, and whether a read was answered. *)
Definition land1 (ledger : Ledger) (spc : ViewReconcileStore * list ViewChange * bool) (landing : ReadLanding)
  : ViewReconcileStore * list ViewChange * bool :=
  let '(s, published, changed) := spc in
  match list_find (fun f => fl_id f = ra_id landing) (vr_flights s) with
  | None => (s, published, changed)
  | Some (i, f) =>
      let s := s <| vr_flights := delete i (vr_flights s) |> in
      match ra_outcome landing with
      | Read_NotStarted => (requeue_unstarted s f, published, changed)
      | Read rows => let '(s, p) := land_read ledger s f rows in (s, published ++ p, true)
      end
  end.

(** [gate]: the landing gate polls the mailbox on this frame. *)
Definition reconcile_pump_with_gate (ledger : Ledger) (s : ViewReconcileStore) (gate may_send : bool)
    (clients : ClientKeys) (a : ReadAdapters) : ViewReconcileStore * list ViewChange * bool * ReadAdapters :=
  let '(landings, a) :=
    if gate
    then (default [] (rp_mail a !! vr_adapter s), a <| rp_mail := delete (vr_adapter s) (rp_mail a) |>)
    else ([], a) in
  let '(s, published, changed) := fold_left (land1 ledger) landings (s, [], false) in
  let s := if may_send then reconcile_kick s clients (stamp ledger) else s in
  (if changed then reconcile_bump s else s, published, changed, a).

(** ** The two stores together *)

Record WatchStores := mk_watch {
  ws_viewstate : ViewStateStore;
  ws_reconcile : ViewReconcileStore;
  ws_network_held : bool;
  ws_adapters : Adapters;
  ws_read_adapters : ReadAdapters
}.
#[export] Instance WatchStores_eta : Eta WatchStores := fun r =>
  mk_watch (ws_viewstate r) (ws_reconcile r) (ws_network_held r) (ws_adapters r) (ws_read_adapters r).

(** The ledger [Stores] shares with both. *)
Definition ws_ledger (w : WatchStores) : Ledger := vs_ledger (vw_state (ws_viewstate w)).

Definition watch_default : WatchStores :=
  mk_watch (mk_view_store view_state_default 0%nat 0 false) (reconcile_default 0%nat) false
    (mk_adapters ∅ 1%nat) (mk_read_adapters ∅ 1%nat).

(** [viewstate_run]; the notification stores it also resets are not modelled. *)
Definition viewstate_run (w : WatchStores) (cmd : ViewStateCmd) (clients : ClientKeys) (profile : Z)
  : option (WatchStores * list Call * bool) :=
  let '(rec, ra) :=
    match cmd with
    | Cmd_Reset => reconcile_reset (ws_reconcile w) (ws_read_adapters w)
    | _ => (ws_reconcile w, ws_read_adapters w)
    end in
  '(v, calls, changed, a) ← store_run (ws_viewstate w) cmd clients profile (ws_adapters w);
  Some (mk_watch v rec (ws_network_held w) a ra, calls, changed).

Definition viewstate_pump (w : WatchStores) (gate : bool) (clients : ClientKeys) (profile : Z)
  : option (WatchStores * list Call) :=
  '(v, calls, a) ← store_pump (ws_viewstate w) gate clients profile (ws_adapters w);
  Some (w <| ws_viewstate := v |> <| ws_adapters := a |>, calls).

Definition hold_network (w : WatchStores) (on : bool) : WatchStores :=
  let v := ws_viewstate w in
  w <| ws_network_held := on |>
    <| ws_viewstate := v <| vw_state := (vw_state v) <| vs_hold_refresh := on |> |> |>.

Record StopRecord := mk_stop {
  sp_sid : ServerId; sp_rk : bytes; sp_pos_ms : Z; sp_dur_ms : Z; sp_ok : bool; sp_was_watched : bool
}.

(** One stopped playback; the watch list it also tells is not modelled. *)
Definition stop_landed (wc : WatchStores * list Call) (stop : StopRecord) : WatchStores * list Call :=
  let '(w, calls) := wc in
  let published :=
    publish_view (mk_change (sp_sid stop) (sp_rk stop) Scope_Leaf (Fact_Offset (sp_pos_ms stop) (sp_dur_ms stop))) in
  let key := (sp_sid stop, sp_rk stop) in
  (w <| ws_reconcile := if sp_ok stop then enqueue_stop (ws_reconcile w) key (sp_was_watched stop)
                        else owe_page (ws_reconcile w) key |>,
   calls ++ published).

Definition stops_landed (w : WatchStores) (stops : list StopRecord) : WatchStores * list Call :=
  fold_left stop_landed stops (w, []).

(** [for (sid, rk) in take_watched_ends()]. *)
Fixpoint fan_out_ends (v : ViewStateStore) (ends : list Key) (clients : ClientKeys) (profile : Z)
    (servers : list ServerId) : option ViewStateStore :=
  match ends with
  | [] => Some v
  | (sid, rk) :: ends =>
      '(v, _) ← store_fan_out v sid rk clients profile servers;
      fan_out_ends v ends clients profile servers
  end.

Definition reconcile_pump (w : WatchStores) (gate : bool) (clients : ClientKeys) (profile : Z)
    (servers : list ServerId) : option (WatchStores * list Call * bool) :=
  let v := ws_viewstate w in
  let '(owed, st) := take_reread (vw_state v) in
  let v := v <| vw_state := st |> in
  let rec := enqueue (ws_reconcile w) owed in
  let idle := negb (is_busy (vw_state v)) && negb (ws_network_held w) in
  let '(rec, published, changed, ra) :=
    reconcile_pump_with_gate (vs_ledger (vw_state v)) rec gate idle clients (ws_read_adapters w) in
  let '(ends, rec) := take_watched_ends rec in
  v ← fan_out_ends v ends clients profile servers;
  Some (mk_watch v rec (ws_network_held w) (ws_adapters w) ra, flat_map publish_view published, changed).
