(* ===== verification/ViewEnds.v ===== *)
(** * Watch state: where a fanned-out end comes from

    [vr_candidates] and [vr_watched_ends] of the read-back ([data/src/stores/viewreconcile.rs]):
    every end the store hands over is the item of a stop it was told of, whose read-back a row
    answered as watched.  Proved for any account [stopped] of the stops and [answered] of the rows. *)

From stdpp Require Import gmap.
From S2P Require Import Prelude Bytes Landing ViewLedger ViewState ViewReconcile.

#[local] Open Scope Z_scope.

Lemma fold_keeps {A S} (P : S -> S -> Prop) (g : S -> A -> S) l :
  (forall s, P s s) -> (forall a b c, P a b -> P b c -> P a c) -> (forall s x, P s (g s x)) ->
  forall s, P s (fold_left g l s).
Proof. intros Hr Ht Hg. induction l as [|x l IH]; intros s; cbn; [done|]. eapply Ht; [apply Hg|apply IH]. Qed.

(** ** Operations that leave candidates and ends alone *)

Definition same_ends (a b : ViewReconcileStore) : Prop :=
  vr_candidates b = vr_candidates a /\ vr_watched_ends b = vr_watched_ends a.

#[local] Instance same_ends_preorder : PreOrder same_ends.
Proof. split; [done|]. intros a b c [? ?] [? ?]. split; congruence. Qed.

Lemma fold_same_ends {A} (g : ViewReconcileStore -> A -> ViewReconcileStore) l s :
  (forall s x, same_ends s (g s x)) -> same_ends s (fold_left g l s).
Proof. intros Hg. apply fold_keeps; [done|intros a b c; apply transitivity|done]. Qed.

Lemma enqueue_ends s keys : same_ends s (enqueue s keys).
Proof. apply fold_same_ends. intros s' k. unfold enqueue1. repeat case_match; done. Qed.

Lemma reread_ends s keys : same_ends s (enqueue_reread s keys).
Proof.
  apply fold_same_ends. intros s' k. unfold reread1. pose proof (enqueue_ends s' [k]) as [H1 H2].
  change (enqueue s' [k]) with (enqueue1 s' k) in *. by destruct (negb _).
Qed.

Lemma owe_page_ends s k : same_ends s (owe_page s k).
Proof. unfold owe_page. by destruct (listed _ _). Qed.

Lemma owe_parents_ends f q s ups : same_ends s (fold_left (owe_parent f q) ups s).
Proof. apply fold_same_ends. intros s' up. unfold owe_parent. repeat case_match; done. Qed.

Lemma requeue_ends s f : same_ends s (requeue_unstarted s f).
Proof.
  unfold requeue_unstarted. cbn [take_asked_again]. cbv zeta.
  set (s1 := s <| vr_dirty := _ |>). transitivity s1; [done|].
  transitivity (fold_left (requeue_leaf (fl_sid f)) (take (List.length (fl_keys f) - List.length (fl_parents f)) (fl_keys f)) s1).
  { apply fold_same_ends. intros s' k. unfold requeue_leaf. by case_match. }
  match goal with |- same_ends ?a (?b <| vr_retry_cd := _ |>) => transitivity b; [|done] end.
  apply fold_same_ends. intros s' k. unfold requeue_parent. repeat case_match; done.
Qed.

Lemma send_batch_ends clients st s sid : same_ends s (send_batch clients st s sid).
Proof.
  unfold send_batch. destruct (take_batch _ _ _) as [keys rest]. destruct (take_parents _ _ _ _) as [[k p] rest'].
  by destruct (key_of _ _).
Qed.

Lemma reconcile_kick_ends s clients st : same_ends s (reconcile_kick s clients st).
Proof. unfold reconcile_kick. destruct (0 <? _); [done|]. apply fold_same_ends, send_batch_ends. Qed.

(** ** Stops and answers *)

Section Ends.
Context (stopped answered : Key -> Prop).

Record ends_from (s : ViewReconcileStore) : Prop := mk_ends_from {
  ef_candidates : Forall (fun c => stopped (fst c)) (vr_candidates s);
  ef_ends : Forall (fun k => stopped k /\ answered k) (vr_watched_ends s)
}.

(** What a landing says of a watched row is true. *)
Definition landing_told (l : ReadLanding) : Prop :=
  forall rows row, ra_outcome l = Read (Some rows) -> row ∈ rows -> pm_watched (rr_movie row) = true ->
    answered (pm_key (rr_movie row)).

Lemma same_ends_from s s' : same_ends s s' -> ends_from s -> ends_from s'.
Proof. intros [Hc He] [? ?]. split; congruence. Qed.

Lemma stop_ends_from s key was : (was = false -> stopped key) -> ends_from s -> ends_from (enqueue_stop s key was).
Proof.
  intros Hk [Hc He]. unfold enqueue_stop. eapply same_ends_from; [apply enqueue_ends|].
  destruct was; [done|]. split; cbn; [|done]. unfold stamp_candidate.
  destruct (list_find _ _) as [[i [k b]]|] eqn:E.
  - apply list_find_Some in E as (Hi & _). apply Forall_insert; [done|]. by apply (Forall_lookup_1 _ _ _ _ Hc Hi).
  - apply Forall_app. split; [done|]. repeat constructor. by apply Hk.
Qed.

Lemma same_key a b : same_item a b = true -> a = b.
Proof.
  destruct a as [s k], b as [s' k']. unfold same_item. cbn. by intros [->%Z.eqb_eq ->%bool_decide_eq_true]%andb_true_iff.
Qed.

Lemma settle_ends_from f m s : (pm_watched m = true -> answered (pm_key m)) -> ends_from s ->
  ends_from (settle_candidate f m s).
Proof.
  intros Hm [Hc He]. unfold settle_candidate. destruct (list_find _ _) as [[i [k b]]|] eqn:E; [|done].
  apply list_find_Some in E as (Hi & Hp & _). apply andb_true_iff in Hp as [_ Hk%same_key]. cbn in Hk. subst k.
  destruct (pm_watched m); split; cbn; [by apply Forall_delete| |by apply Forall_delete|done].
  apply Forall_app. split; [done|]. repeat constructor; [|by apply Hm]. apply (Forall_lookup_1 _ _ _ _ Hc Hi).
Qed.

Lemma land_row_ends_from f quiet over s p row :
  (pm_watched (rr_movie row) = true -> answered (pm_key (rr_movie row))) -> ends_from s ->
  ends_from (fst (land_row f quiet over (s, p) row)).
Proof.
  intros Hrow Hs. unfold land_row. destruct (negb _); [done|]. destruct (existsb _ over); [done|]. cbv zeta. cbn [fst].
  match goal with |- ends_from (if ?b then ?x else owe_page ?y _) => assert (H : ends_from x) end.
  { apply settle_ends_from; [done|]. destruct (existsb _ (fl_parents f)); [done|].
    eapply same_ends_from; [|exact Hs]. apply owe_parents_ends. }
  destruct (listed _ quiet); [done|]. eapply same_ends_from; [apply owe_page_ends|done].
Qed.

Lemma land_read_ends_from ledger s f rows :
  (forall row, row ∈ default [] rows -> pm_watched (rr_movie row) = true -> answered (pm_key (rr_movie row))) ->
  ends_from s -> ends_from (fst (land_read ledger s f rows)).
Proof.
  intros Hrows Hs. unfold land_read. cbv zeta.
  match goal with |- context [fold_left (land_row f ?q ?o) ?r (?s0, [])] => set (quiet := q); set (over := o); set (s1 := s0) end.
  assert (H : forall rs s p, (forall row, row ∈ rs -> pm_watched (rr_movie row) = true -> answered (pm_key (rr_movie row))) ->
    ends_from s -> ends_from (fst (fold_left (land_row f quiet over) rs (s, p)))).
  { clear. induction rs as [|row rs IH]; intros s0 p Hrs Hs; cbn [fold_left]; [done|].
    pose proof (land_row_ends_from f quiet over s0 p row ltac:(apply Hrs; by left) Hs) as H1.
    destruct (land_row _ _ _ _ _) as [s2 p2]. apply IH; [|done]. intros r Hr. apply Hrs. by right. }
  specialize (H (default [] rows) s1 [] Hrows (same_ends_from s s1 ltac:(done) Hs)).
  destruct (fold_left _ _ _) as [s2 p2]. cbn in *. destruct H as [Hc He]. split; cbn; [by apply filter_Forall|done].
Qed.

Lemma lands_ends_from ledger landings : forall s p ch, Forall landing_told landings -> ends_from s ->
  ends_from (fst (fst (fold_left (land1 ledger) landings (s, p, ch)))).
Proof.
  induction landings as [|l landings IH]; intros s p ch Hl Hs; cbn [fold_left]; [done|].
  apply Forall_cons in Hl as [Hl Hls].
  assert (H : ends_from (fst (fst (land1 ledger (s, p, ch) l)))).
  { unfold land1. destruct (list_find _ _) as [[i f]|]; [|done]. cbv zeta.
    set (s1 := s <| vr_flights := _ |>). assert (H1 : ends_from s1) by (by destruct Hs).
    destruct (ra_outcome l) as [rows|] eqn:Er.
    - pose proof (land_read_ends_from ledger s1 f rows) as H. destruct (land_read _ _ _ _) as [s2 p2]. apply H; [|done].
      intros row Hrow. destruct rows as [rows|]; [|by apply elem_of_nil in Hrow]. by apply (Hl rows row).
    - cbn [fst]. eapply same_ends_from; [apply requeue_ends|done]. }
  destruct (land1 _ _ _) as [[s1 p1] c1]. by apply IH.
Qed.

Lemma reconcile_pump_ends_from ledger s gate may_send clients a s' p c a' :
  Forall landing_told (default [] (rp_mail a !! vr_adapter s)) -> ends_from s ->
  reconcile_pump_with_gate ledger s gate may_send clients a = (s', p, c, a') -> ends_from s'.
Proof.
  intros Hl Hs. unfold reconcile_pump_with_gate. destruct (if gate then _ else _) as [landings a1] eqn:Eg.
  assert (Hl' : Forall landing_told landings) by (destruct gate; injection Eg as <- _; [done|constructor]).
  pose proof (lands_ends_from ledger landings s [] false Hl' Hs) as H.
  destruct (fold_left _ _ _) as [[s1 p1] c1]. cbn [fst] in H. cbv zeta. intros [= <- _ _ _].
  assert (H2 : ends_from (if may_send then reconcile_kick s1 clients (stamp ledger) else s1)).
  { destruct may_send; [|done]. eapply same_ends_from; [apply reconcile_kick_ends|done]. }
  destruct c1; [|done]. by destruct H2.
Qed.
End Ends.

Lemma ends_from_mono (P P' Q Q' : Key -> Prop) s :
  (forall k, P k -> P' k) -> (forall k, Q k -> Q' k) -> ends_from P Q s -> ends_from P' Q' s.
Proof.
  intros HP HQ [Hc He]. split; eapply Forall_impl; [exact Hc|intros c; apply HP|exact He|intros k [? ?]; auto].
Qed.
