(* ===== verification/ViewTraces.v ===== *)
(** * Histories of the watch-state stores

    What any series of presses, landing passes, worker answers and read-backs keeps: the write queue
    against the ledger, and the read-back against the write queue. *)

From stdpp Require Import gmap sorting.
From S2P Require Import Prelude Bytes Landing ViewLedger ViewState ViewReconcile ViewEnds.

#[local] Open Scope Z_scope.

(** ** Events *)

Inductive Event :=
  | Ev_run (cmd : ViewStateCmd) (clients : ClientKeys) (profile : Z)
  | Ev_pump (gate : bool) (clients : ClientKeys) (profile : Z)
  | Ev_reconcile (gate : bool) (clients : ClientKeys) (profile : Z) (servers : list ServerId)
  | Ev_answer (port : nat) (addr : Addr) (outcome : WriteOutcome)
  | Ev_read_answer (port : nat) (addr : Addr) (outcome : ReadOutcome)
  | Ev_take_jobs
  | Ev_take_read_jobs
  | Ev_hold (on : bool)
  | Ev_stops (stops : list StopRecord)
  | Ev_read_back (quiet : bool) (keys : list Key)
  | Ev_take_landed.

Record Out := mk_out { out_jobs : list ViewJob; out_calls : list Call; out_reads : list ReadJob }.
Definition silent : Out := mk_out [] [] [].

Definition with_state (w : WatchStores) (s : ViewStateState) : WatchStores :=
  w <| ws_viewstate := (ws_viewstate w) <| vw_state := s |> |>.

Definition step (w : WatchStores) (ev : Event) : option (WatchStores * Out) :=
  match ev with
  | Ev_run cmd clients profile =>
      '(w, calls, _) ← viewstate_run w cmd clients profile; Some (w, mk_out [] calls [])
  | Ev_pump gate clients profile =>
      '(w, calls) ← viewstate_pump w gate clients profile; Some (w, mk_out [] calls [])
  | Ev_reconcile gate clients profile servers =>
      '(w, calls, _) ← reconcile_pump w gate clients profile servers; Some (w, mk_out [] calls [])
  | Ev_answer port addr outcome =>
      Some (w <| ws_adapters := post port (ad_req addr) outcome (ws_adapters w) |>, silent)
  | Ev_read_answer port addr outcome =>
      Some (w <| ws_read_adapters := post_read port (ad_req addr) outcome (ws_read_adapters w) |>, silent)
  | Ev_take_jobs =>
      let '(jobs, s) := take_jobs (vw_state (ws_viewstate w)) in Some (with_state w s, mk_out jobs [] [])
  | Ev_take_read_jobs =>
      let '(jobs, r) := take_read_jobs (ws_reconcile w) in Some (w <| ws_reconcile := r |>, mk_out [] [] jobs)
  | Ev_hold on => Some (hold_network w on, silent)
  | Ev_stops stops => let '(w, calls) := stops_landed w stops in Some (w, mk_out [] calls [])
  | Ev_read_back quiet keys =>
      Some (w <| ws_reconcile := (if quiet then enqueue_reread else enqueue) (ws_reconcile w) keys |>, silent)
  | Ev_take_landed => Some (w <| ws_reconcile := snd (take_landed (ws_reconcile w)) |>, silent)
  end.

(** The copies an answer that waits in the owner's mailbox names. *)
Definition copies_waiting (w : WatchStores) : nat :=
  match ap_mail (ws_adapters w) !! vw_adapter (ws_viewstate w) with
  | Some (mk_completion _ (Written d)) => List.length (dn_also d)
  | _ => 0%nat
  end.

(** The 64-bit publish order has not run out. *)
Definition counter_holds (w : WatchStores) : Prop :=
  le_seq (ws_ledger w) + Z.of_nat (copies_waiting w) + 1 <= u64_max.

(** A history: the events, where they led, and the jobs the runner was given. *)
Inductive history : list Event -> WatchStores -> list ViewJob -> Prop :=
  | history_start : history [] watch_default []
  | history_step evs w jobs ev w' out :
      history evs w jobs -> counter_holds w -> step w ev = Some (w', out) ->
      history (evs ++ [ev]) w' (jobs ++ out_jobs out).

(** ** The write queue and the ledger *)

Definition pending (s : ViewStateState) : list Req := option_list (vs_sent s) ++ vs_queue s.

Definition req_at (r : Req) : ViewAt := mk_at (rq_sid r) (rq_rk r) (rq_scope r).
Definition req_edit (r : Req) : ViewEdit :=
  edit_of (mk_change (rq_sid r) (rq_rk r) (rq_scope r) (fact (rq_w r))).

(** The edit of a write that has not been answered is still in the ledger, or a later one of the
    same kind on the same item is. *)
Definition stands (t : Ledger) (r : Req) : Prop :=
  rq_seq r <> 0 -> exists e, e ∈ le_entries t /\ en_at e = req_at r
    /\ discriminant (en_edit e) = discriminant (req_edit r) /\ rq_seq r <= en_seq e.

Definition before_in_queue (a b : Req) : Prop :=
  rq_id a < rq_id b /\ (rq_seq b <> 0 -> rq_seq a < rq_seq b).

Record queue_ok (t : Ledger) (next : Z) (p : list Req) : Prop := mk_queue_ok {
  qo_ledger : ledger_ok t;
  qo_order : StronglySorted before_in_queue p;
  qo_bounds : Forall (fun r => rq_id r < next /\ 0 <= rq_seq r <= le_seq t) p;
  qo_stands : Forall (stands t) p
}.

Lemma retire_stands t r0 r : ledger_ok t -> before_in_queue r0 r -> stands t r -> stands (retire t (rq_seq r0)) r.
Proof.
  intros Hok [_ Hlt] Hr Hs. destruct (Hr Hs) as (e & He & Ha & Hd & Hle). exists e. split; [|done].
  cbn. apply list_elem_of_In, filter_In. rewrite <- list_elem_of_In. split; [done|].
  apply negb_true_iff, Z.eqb_neq. specialize (Hlt Hs). lia.
Qed.

Lemma landed_stands t r0 r : ledger_ok t -> before_in_queue r0 r -> stands t r -> stands (landed t (rq_seq r0)) r.
Proof.
  intros Hok [_ Hlt] Hr Hs. destruct (Hr Hs) as (e & He & Ha & Hd & Hle). exists e. split; [|done].
  specialize (Hlt Hs). apply (ledger_step_keeps t (Op_landed (rq_seq r0)) e He). cbn. lia.
Qed.

Lemma record_stands t at_ edit r : ledger_ok t -> room t 1 -> rq_seq r <= le_seq t ->
  stands t r -> stands (snd (record t at_ edit)) r.
Proof.
  intros Hok Hr Hb Hst Hs. destruct (Hst Hs) as (e & He & Ha & Hd & Hle).
  destruct (replaces at_ edit e) eqn:Hrep.
  - apply replaces_spec in Hrep. injection Hrep as Hat Hk.
    exists (mk_entry (le_seq t + 1) at_ edit). unfold record. cbn [snd le_entries]. rewrite next_seq by done.
    split; [apply elem_of_app; right; by apply list_elem_of_singleton|]. cbn. split_and!; [congruence..|lia].
  - exists e. split; [|done]. apply (ledger_step_keeps t (Op_record at_ edit) e He). cbn. intros [Hat Hk].
    rewrite (proj2 (replaces_spec _ edit e)) in Hrep; [done|]. congruence.
Qed.

(** The head leaves the queue, its edit taken back. *)
Lemma queue_drop t next r0 p : queue_ok t next (r0 :: p) -> queue_ok (retire t (rq_seq r0)) next p.
Proof.
  intros [Hok Ho Hb Hst]. apply StronglySorted_inv in Ho as [Ho Hr0].
  apply Forall_cons in Hb as [_ Hb], Hst as [_ Hst]. split; [by apply retire_ok|done|done|].
  rewrite Forall_forall in *. intros r Hr. apply retire_stands; auto.
Qed.

Lemma queue_tail t next r0 p : queue_ok t next (r0 :: p) -> queue_ok t next p.
Proof.
  intros [Hok Ho Hb Hst]. apply StronglySorted_inv in Ho as [Ho _].
  apply Forall_cons in Hb as [_ Hb], Hst as [_ Hst]. done.
Qed.

(** The head's write landed. *)
Lemma queue_landed t next r0 p : room t 1 -> queue_ok t next (r0 :: p) -> queue_ok (landed t (rq_seq r0)) next p.
Proof.
  intros Hr [Hok Ho Hb Hst]. apply StronglySorted_inv in Ho as [Ho Hr0].
  apply Forall_cons in Hb as [_ Hb], Hst as [_ Hst].
  destruct (ledger_step_ok t (Op_landed (rq_seq r0)) Hok Hr) as [Hok' Hs']. cbn [ledger_step] in *.
  split; [done|done| |].
  - eapply Forall_impl; [exact Hb|]. cbn. lia.
  - rewrite Forall_forall in *. intros r Hrin. apply landed_stands; auto.
Qed.

Lemma queue_record t next p at_ edit : room t 1 -> queue_ok t next p -> queue_ok (snd (record t at_ edit)) next p.
Proof.
  intros Hr [Hok Ho Hb Hst]. destruct (ledger_step_ok t (Op_record at_ edit) Hok Hr) as [Hok' Hs'].
  cbn [ledger_step] in *. split; [done|done| |].
  - eapply Forall_impl; [exact Hb|]. cbn beta. lia.
  - rewrite Forall_forall in *. intros r Hrin. apply record_stands; auto. specialize (Hb r Hrin). cbn in Hb. lia.
Qed.

Lemma queue_filter t next p keep : queue_ok t next p -> queue_ok t next (List.filter keep p).
Proof.
  intros [Hok Ho Hb Hst]. split; [done|by apply filter_sorted|by apply filter_Forall|by apply filter_Forall].
Qed.

Lemma queue_filter_tail t next o p keep : queue_ok t next (option_list o ++ p) ->
  queue_ok t next (option_list o ++ List.filter keep p).
Proof.
  destruct o as [r0|]; cbn [option_list app]; [|by apply queue_filter].
  intros [Hok Ho Hb Hst]. apply StronglySorted_inv in Ho as [Ho Hr0].
  apply Forall_cons in Hb as [Hb0 Hb], Hst as [Hst0 Hst]. split; [done| | |].
  - constructor; [by apply filter_sorted|by apply filter_Forall].
  - constructor; [done|by apply filter_Forall].
  - constructor; [done|by apply filter_Forall].
Qed.

Lemma sorted_snoc_rel {A} (R : A -> A -> Prop) l e : StronglySorted R l -> Forall (fun a => R a e) l ->
  StronglySorted R (l ++ [e]).
Proof.
  induction 1 as [|x l _ IH Hx]; intros Hl; cbn; [repeat constructor|].
  apply Forall_cons in Hl as [Hxe Hl]. constructor; [auto|]. apply Forall_app. split; [done|]. by constructor.
Qed.

Lemma queue_push t next p r : queue_ok t next p -> rq_id r = next -> 0 <= rq_seq r <= le_seq t ->
  (rq_seq r <> 0 -> Forall (fun a => rq_seq a < rq_seq r) p) -> stands t r -> queue_ok t (next + 1) (p ++ [r]).
Proof.
  intros [Hok Ho Hb Hst] Hid Hs Hlt Hr. split; [done| | |].
  - apply sorted_snoc_rel; [done|]. rewrite Forall_forall in *. intros a Ha. specialize (Hb a Ha). cbn in Hb.
    split; [lia|]. intros Hnz. specialize (Hlt Hnz). auto.
  - apply Forall_app. split; [eapply Forall_impl; [exact Hb|cbn; lia]|]. repeat constructor; lia.
  - apply Forall_app. split; [done|]. by repeat constructor.
Qed.

(** A press: recorded, its rivals in the queue dropped, queued last. *)
Lemma queue_press t next o q keep r : room t 1 -> queue_ok t next (option_list o ++ q) ->
  rq_id r = next -> rq_seq r = le_seq t + 1 ->
  queue_ok (snd (record t (req_at r) (req_edit r))) (next + 1)
    (option_list o ++ List.filter keep q ++ [r]).
Proof.
  intros Hr Hq Hid Hseq.
  pose proof (queue_record _ _ _ (req_at r) (req_edit r) Hr Hq) as Hq'.
  assert (Hle : le_seq (snd (record t (req_at r) (req_edit r))) = le_seq t + 1)
    by (apply next_seq; [apply (qo_ledger _ _ _ Hq)|done]).
  rewrite app_assoc. apply queue_push; [by apply queue_filter_tail|done|pose proof (lo_seq _ (qo_ledger _ _ _ Hq)); lia| |].
  - intros _. pose proof (qo_bounds _ _ _ (queue_filter_tail _ _ _ _ keep Hq)) as Hb.
    eapply Forall_impl; [exact Hb|]. cbn. lia.
  - intros _. exists (mk_entry (le_seq t + 1) (req_at r) (req_edit r)). split_and!; [|done|done|cbn; lia].
    unfold record. cbn [snd le_entries]. rewrite next_seq by (done || apply (qo_ledger _ _ _ Hq)).
    apply elem_of_app. right. by apply list_elem_of_singleton.
Qed.

(** What a kick of the queue does: it drops a prefix, and sends the next write if one is left. *)
Definition take_back (t : Ledger) (dropped : list Req) : Ledger :=
  fold_left (fun t r => retire t (rq_seq r)) dropped t.

Definition may_go (r : Req) (keys : ClientKeys) (profile : Z) : Prop :=
  rq_profile r = profile /\ key_of keys (rq_sid r) = Some (rq_key r).

Inductive kicked (s : ViewStateState) (queue : list Req) (adapter : nat) (keys : ClientKeys) (profile : Z)
  : ViewStateState -> Prop :=
  | kicked_none :
      Forall (fun r => ~ may_go r keys profile) queue ->
      kicked s queue adapter keys profile
        (s <| vs_ledger := take_back (vs_ledger s) queue |> <| vs_queue := [] |>)
  | kicked_one dropped r q :
      queue = dropped ++ r :: q -> Forall (fun r => ~ may_go r keys profile) dropped -> may_go r keys profile ->
      kicked s queue adapter keys profile
        (s <| vs_ledger := take_back (vs_ledger s) dropped |> <| vs_queue := q |>
           <| vs_jobs := vs_jobs s ++ [job_of r keys adapter] |> <| vs_sent := Some r |>).

Lemma admit_req_spec s r keys profile :
  (may_go r keys profile /\ admit_req s r keys profile = (s, Some r))
  \/ (~ may_go r keys profile /\ admit_req s r keys profile = (drop_queued s r, None)).
Proof.
  unfold admit_req, may_go. destruct (Z.eqb_spec (rq_profile r) profile) as [Hp|Hp]; cbn [negb]; [|right; naive_solver].
  destruct (key_of keys (rq_sid r)) as [key|]; [|right; naive_solver].
  case_bool_decide as Hk; [left; by subst|right]. split; [|done]. intros [_ [= ?]]. done.
Qed.

Lemma kick_loop_kicked queue adapter keys profile : forall s,
  kicked s queue adapter keys profile (kick_loop s queue adapter keys profile).
Proof.
  induction queue as [|r queue IH]; intros s; cbn [kick_loop].
  - apply (kicked_none s [] adapter keys profile). constructor.
  - destruct (admit_req_spec (s <| vs_queue := queue |>) r keys profile) as [[Hgo ->]|[Hgo ->]].
    + apply (kicked_one s (r :: queue) adapter keys profile [] r queue); [done|constructor|done].
    + unfold drop_queued.
      pose proof (IH (s <| vs_queue := queue |> <| vs_ledger := retire (vs_ledger s) (rq_seq r) |>)) as Hk.
      inversion Hk as [Hall Heq|dropped r' q Hq Hall Hgo' Heq].
      * change (vs_ledger (s <| vs_queue := queue |>)) with (vs_ledger s). rewrite <- Heq.
        apply (kicked_none s (r :: queue)). by constructor.
      * change (vs_ledger (s <| vs_queue := queue |>)) with (vs_ledger s). rewrite <- Heq. subst queue.
        by apply (kicked_one s (r :: dropped ++ r' :: q) adapter keys profile (r :: dropped) r' q); [|constructor|].
Qed.

Lemma take_back_queue next dropped : forall t p, queue_ok t next (dropped ++ p) -> queue_ok (take_back t dropped) next p.
Proof.
  induction dropped as [|r dropped IH]; intros t p Hq; [done|]. cbn. apply IH. by apply queue_drop.
Qed.

Lemma take_back_seq dropped : forall t, le_seq (take_back t dropped) = le_seq t.
Proof. induction dropped as [|r dropped IH]; intros t; [done|]. cbn. etransitivity; [apply IH|done]. Qed.

(** ** Moves of the write queue *)

(** The item of a stop the server took, which was not watched when it began. *)
Definition stopped_in (evs : list Event) (key : Key) : Prop :=
  exists stops stop, Ev_stops stops ∈ evs /\ stop ∈ stops /\ sp_ok stop = true /\ sp_was_watched stop = false
    /\ key = (sp_sid stop, sp_rk stop).

(** The item of a row an answer brought as watched. *)
Definition answered_watched (evs : list Event) (key : Key) : Prop :=
  exists port addr rows row, Ev_read_answer port addr (Read (Some rows)) ∈ evs /\ row ∈ rows
    /\ pm_watched (rr_movie row) = true /\ key = pm_key (rr_movie row).

(** The event that made a request, and what was before it: a press, or the end of a stream that the
    item's read-back answered as watched. *)
Definition press_of (past : list Event) (r : Req) (ev : Event) : Prop :=
  match ev with
  | Ev_run (Cmd_Request sid rk w scope guid) clients profile =>
      r = mk_req (rq_id r) (rq_seq r) sid (rq_key r) profile rk w scope guid false
      /\ key_of clients sid = Some (rq_key r)
  | Ev_reconcile _ clients profile servers =>
      r = mk_req (rq_id r) 0 (rq_sid r) (rq_key r) profile (rq_rk r) Write_Watched Scope_Leaf [] true
      /\ key_of clients (rq_sid r) = Some (rq_key r) /\ (2 <= List.length servers)%nat
      /\ stopped_in past (rq_sid r, rq_rk r) /\ answered_watched past (rq_sid r, rq_rk r)
  | _ => False
  end.
Definition pressed_in (evs : list Event) (r : Req) : Prop :=
  exists past ev, (past ++ [ev]) `prefix_of` evs /\ press_of past r ev.

(** The runner said a write was not started. *)
Definition refused_in (evs : list Event) (id : Z) : Prop :=
  exists port addr, Ev_answer port addr NotStarted ∈ evs /\ ad_req addr = id.

(** The step's inputs. *)
Definition sends (ev : Event) (keys : ClientKeys) (profile : Z) : Prop :=
  match ev with
  | Ev_run _ c p | Ev_pump _ c p | Ev_reconcile _ c p _ => c = keys /\ p = profile
  | _ => False
  end.

Definition sends_now (evs : list Event) (keys : ClientKeys) (profile : Z) : Prop :=
  exists ev, last evs = Some ev /\ sends ev keys profile.

Inductive move (evs : list Event) (s : ViewStateState) : ViewStateState -> Prop :=
  | move_other s' :
      vs_ledger s' = vs_ledger s -> vs_queue s' = vs_queue s -> vs_sent s' = vs_sent s ->
      vs_next_request_id s' = vs_next_request_id s -> vs_jobs s' = vs_jobs s -> move evs s s'
  | move_press r keep :
      pressed_in evs r -> rq_id r = vs_next_request_id s -> rq_seq r = le_seq (vs_ledger s) + 1 ->
      room (vs_ledger s) 1 ->
      move evs s (s <| vs_ledger := snd (record (vs_ledger s) (req_at r) (req_edit r)) |>
                    <| vs_queue := List.filter keep (vs_queue s) ++ [r] |>
                    <| vs_next_request_id := vs_next_request_id s + 1 |>)
  | move_fan_out r :
      pressed_in evs r -> rq_id r = vs_next_request_id s -> rq_seq r = 0 ->
      move evs s (s <| vs_queue := vs_queue s ++ [r] |> <| vs_next_request_id := vs_next_request_id s + 1 |>)
  | move_kick adapter keys profile s' :
      sends_now evs keys profile -> vs_sent s = None ->
      kicked s (vs_queue s) adapter keys profile s' -> move evs s s'
  | move_back r :
      vs_sent s = Some r -> refused_in evs (rq_id r) ->
      move evs s (s <| vs_sent := None |> <| vs_queue := r :: vs_queue s |>)
  | move_drop r :
      vs_sent s = Some r ->
      move evs s (s <| vs_sent := None |> <| vs_ledger := retire (vs_ledger s) (rq_seq r) |>)
  | move_landed r :
      vs_sent s = Some r -> room (vs_ledger s) 1 ->
      move evs s (s <| vs_sent := None |> <| vs_ledger := landed (vs_ledger s) (rq_seq r) |>)
  | move_copy at_ edit :
      room (vs_ledger s) 1 -> move evs s (s <| vs_ledger := snd (record (vs_ledger s) at_ edit) |>)
  | move_reset :
      room (vs_ledger s) 1 ->
      move evs s (s <| vs_queue := [] |> <| vs_sent := None |> <| vs_ledger := ledger_reset (vs_ledger s) |>).

Abbreviation moves evs := (rtc (move evs)).

(** What every move keeps. *)
Definition state_ok (s : ViewStateState) : Prop := queue_ok (vs_ledger s) (vs_next_request_id s) (pending s).

Lemma move_ok evs s s' : move evs s s' -> state_ok s -> state_ok s'.
Proof.
  intros Hm Hok. unfold state_ok, pending in *. destruct Hm as
    [s' Hl Hq Hs Hn _|r keep _ Hid Hseq Hr|r _ Hid Hseq|adapter keys profile s' _ Hs Hk|r Hs _|r Hs|r Hs Hr|at_ edit Hr|Hr].
  - by rewrite Hl, Hq, Hs, Hn.
  - cbn. by apply queue_press.
  - cbn. rewrite app_assoc. apply queue_push; [done|done|pose proof (lo_seq _ (qo_ledger _ _ _ Hok)); lia|done|].
    intros Hnz. lia.
  - rewrite Hs in Hok. cbn [option_list app] in Hok.
    destruct Hk as [_|dropped r q Hq _ _]; cbn.
    + rewrite Hs. cbn. apply (take_back_queue _ (vs_queue s)). by rewrite app_nil_r.
    + rewrite Hq in Hok. by apply take_back_queue.
  - rewrite Hs in Hok. done.
  - rewrite Hs in Hok. cbn. by apply queue_drop.
  - rewrite Hs in Hok. cbn. by apply queue_landed.
  - cbn. by apply queue_record.
  - cbn. split; [apply ledger_reset_ok; [apply (qo_ledger _ _ _ Hok)|done]|constructor..].
Qed.

(** ** Every step is a series of moves *)

Lemma move_other_eq evs s s' :
  vs_ledger s' = vs_ledger s -> vs_queue s' = vs_queue s -> vs_sent s' = vs_sent s ->
  vs_next_request_id s' = vs_next_request_id s -> vs_jobs s' = vs_jobs s -> moves evs s s'.
Proof. intros. by apply rtc_once, move_other. Qed.

Ltac other := apply move_other_eq; reflexivity.

Lemma moves_ok evs s s' : moves evs s s' -> state_ok s -> state_ok s'.
Proof. induction 1; [done|]. intros Hok. eauto using move_ok. Qed.

Lemma kick_moves evs s adapter keys profile :
  sends_now evs keys profile -> moves evs s (kick s adapter keys profile).
Proof.
  intros Hev. unfold kick. destruct (vs_sent s) as [r|] eqn:Hs; cbn [is_some orb]; [done|].
  destruct (0 <? vs_retry_cd s); [done|]. apply rtc_once.
  eapply move_kick; [exact Hev|done|apply kick_loop_kicked].
Qed.

Lemma mint_spec s id s' : mint_request_id s = Some (id, s') ->
  id = vs_next_request_id s /\ s' = s <| vs_next_request_id := vs_next_request_id s + 1 |>.
Proof.
  unfold mint_request_id, u32_checked, checked.
  destruct ((0 <=? _) && (_ <=? u32_max)); cbn; [|done]. by intros [= <- <-].
Qed.

Lemma record_seq t at_ edit seq t' : ledger_ok t -> room t 1 -> record t at_ edit = (seq, t') ->
  seq = le_seq t + 1 /\ t' = snd (record t at_ edit).
Proof. intros Hok Hr E. rewrite E. split; [|done]. unfold record in E. rewrite next_seq in E by done. by injection E. Qed.

Lemma request_moves past s adapter sid rk w scope guid keys profile s' calls queued :
  let evs := past ++ [Ev_run (Cmd_Request sid rk w scope guid) keys profile] in
  state_ok s -> room (vs_ledger s) 1 ->
  request s adapter sid rk w scope guid keys profile = Some (s', calls, queued) -> moves evs s s'.
Proof.
  intros evs Hok Hr. unfold request. destruct (key_of keys sid) as [key|] eqn:Hk; [|by intros [= <- <- <-]].
  destruct (record _ _ _) as [seq t] eqn:Erec. apply record_seq in Erec as [-> ->]; [|apply Hok|done].
  destruct (mint_request_id _) as [[id s1]|] eqn:Em; [|done]. apply mint_spec in Em as [-> ->].
  cbv zeta. cbn [mbind option_bind]. intros [= <- _ _].
  set (r := mk_req (vs_next_request_id s) (le_seq (vs_ledger s) + 1) sid key profile rk w scope guid false).
  etransitivity; [apply rtc_once, (move_press evs s r); [|done..]|].
  - exists past, (Ev_run (Cmd_Request sid rk w scope guid) keys profile). by split.
  - apply kick_moves. exists (Ev_run (Cmd_Request sid rk w scope guid) keys profile). split; [apply last_snoc|done].
Qed.

Lemma fan_out_moves past gate s adapter sid rk keys profile servers s' queued :
  let evs := past ++ [Ev_reconcile gate keys profile servers] in
  stopped_in past (sid, rk) -> answered_watched past (sid, rk) ->
  fan_out_origin_watched s adapter sid rk keys profile servers = Some (s', queued) -> moves evs s s'.
Proof.
  intros evs Hst Han. unfold fan_out_origin_watched.
  destruct (key_of keys sid) as [key|] eqn:Hk; [|by intros [= <- <-]].
  destruct (Nat.ltb_spec (List.length servers) 2) as [|Htwo]; cbn [orb]; [by intros [= <- <-]|].
  destruct (existsb _ _); [by intros [= <- <-]|].
  destruct (mint_request_id _) as [[id s1]|] eqn:Em; [|done]. apply mint_spec in Em as [-> ->].
  cbv zeta. cbn [mbind option_bind]. intros [= <- _].
  set (r := mk_req (vs_next_request_id s) 0 sid key profile rk Write_Watched Scope_Leaf [] true).
  etransitivity; [apply rtc_once, (move_fan_out evs s r); [|done..]|].
  - exists past, (Ev_reconcile gate keys profile servers). by split.
  - apply kick_moves. exists (Ev_reconcile gate keys profile servers). split; [apply last_snoc|done].
Qed.

Lemma restart_moves evs s r keys profile :
  vs_sent s = Some r -> refused_in evs (rq_id r) ->
  moves evs s (restart_refused (s <| vs_sent := None |>) r keys profile).
Proof.
  intros Hs Hr. unfold restart_refused.
  destruct (admit_req_spec (s <| vs_sent := None |>) r keys profile) as [[_ ->]|[_ ->]].
  - etransitivity; [apply rtc_once, (move_back evs s r); done|other].
  - by apply rtc_once, (move_drop evs s r).
Qed.

Lemma room_record t at_ edit n : ledger_ok t -> 0 <= n -> room t (n + 1) -> room (snd (record t at_ edit)) n.
Proof.
  intros Hok Hn Hr. unfold room in *. cbn [record snd le_seq]. rewrite next_seq; [lia|done|unfold room; lia].
Qed.

Lemma copies_moves evs r copies : forall s calls,
  state_ok s -> room (vs_ledger s) (Z.of_nat (List.length copies)) ->
  moves evs s (fst (fold_left (publish_copy r) copies (s, calls))).
Proof.
  induction copies as [|copy copies IH]; intros s calls Hok Hr; cbn [fold_left]; [done|].
  unfold room in Hr. cbn [List.length] in Hr. unfold publish_copy at 2.
  assert (Hr1 : room (vs_ledger s) 1) by (unfold room; lia).
  pose proof (move_copy evs s (at_of (mk_change (fst copy) (snd copy) (copy_scope (rq_scope r)) (fact (rq_w r))))
                (edit_of (mk_change (fst copy) (snd copy) (copy_scope (rq_scope r)) (fact (rq_w r)))) Hr1) as Hm.
  etransitivity; [apply rtc_once, Hm|]. apply IH; [by eapply move_ok|].
  apply (room_record (vs_ledger s)); [apply Hok|lia|unfold room; lia].
Qed.

Lemma settle_move evs s r (ok : bool) : vs_sent s = Some r -> room (vs_ledger s) 1 ->
  move evs s (s <| vs_sent := None |>
                <| vs_ledger := if ok then landed (vs_ledger s) (rq_seq r) else retire (vs_ledger s) (rq_seq r) |>).
Proof. intros Hs Hr. destruct ok; [by apply move_landed|by apply move_drop]. Qed.

Lemma land_written_moves evs s r done :
  state_ok s -> vs_sent s = Some r -> room (vs_ledger s) (Z.of_nat (List.length (dn_also done)) + 1) ->
  moves evs s (fst (land_written (s <| vs_sent := None |>) r done)).
Proof.
  intros Hok Hs Hr. unfold room in Hr. assert (Hr1 : room (vs_ledger s) 1) by (unfold room; lia).
  pose proof (settle_move evs s r (dn_ok done) Hs Hr1) as Hm.
  etransitivity; [apply rtc_once, Hm|]. unfold land_written.
  destruct (fold_left _ _ _) as [s1 calls] eqn:Ef. cbn [fst].
  transitivity s1; [|destruct (propagates _); other].
  change s1 with (fst (s1, calls)). rewrite <- Ef. apply copies_moves; [by eapply move_ok|].
  unfold room. cbn [vs_ledger]. destruct (dn_ok done); [|cbn; lia].
  destruct (ledger_step_ok (vs_ledger s) (Op_landed (rq_seq r))) as [_ Hle]; [apply Hok|done|].
  cbn [ledger_step] in Hle. cbn. lia.
Qed.

(** Every answer that waits was given. *)
Definition mail_given (evs : list Event) (a : Adapters) : Prop :=
  forall port c, ap_mail a !! port = Some c ->
    exists addr, Ev_answer port addr (cp_outcome c) ∈ evs /\ ad_req addr = cp_id c.

Lemma take_completion_spec evs s adapter gate a c a' : mail_given evs a ->
  take_completion s adapter gate a = (c, a') ->
  mail_given evs a' /\ (forall c0, c = Some c0 ->
    ap_mail a !! adapter = Some c0 /\ exists r, vs_sent s = Some r /\ rq_id r = cp_id c0).
Proof.
  intros Hm. unfold take_completion. destruct gate; cbn [negb]; [|by intros [= <- <-]].
  destruct (ap_mail a !! adapter) as [c0|] eqn:E; [|by intros [= <- <-]].
  intros [= <- <-]. split.
  - intros port c' Hc. cbn in Hc. apply lookup_delete_Some in Hc as [_ Hc]. by apply Hm.
  - intros c1. destruct (vs_sent s) as [r|]; [|done]. destruct (Z.eqb_spec (rq_id r) (cp_id c0)); [|done].
    intros [= <-]. eauto.
Qed.

Lemma pump_moves evs s adapter gate keys profile a s' calls a' :
  last evs = Some (Ev_pump gate keys profile) -> mail_given evs a -> state_ok s ->
  room (vs_ledger s) (Z.of_nat match ap_mail a !! adapter with
                               | Some (mk_completion _ (Written d)) => List.length (dn_also d) | _ => 0%nat end + 1) ->
  pump_with_gate s adapter gate keys profile a = Some (s', calls, a') -> moves evs s s' /\ mail_given evs a'.
Proof.
  intros Hev Hm Hok Hr. unfold pump_with_gate.
  destruct (retry_tick s) as [due s1] eqn:Et.
  assert (Hs1 : moves evs s s1 /\ vs_sent s1 = vs_sent s /\ vs_ledger s1 = vs_ledger s).
  { unfold retry_tick in Et. injection Et as _ <-. destruct (0 <? vs_retry_cd s); split; (done || other). }
  destruct Hs1 as (Hs1 & Hsent & Hled).
  destruct (take_completion s1 adapter gate a) as [c a1] eqn:Ec.
  apply (take_completion_spec evs) in Ec as [Hm1 Hc]; [|done].
  destruct (match c with None => _ | Some _ => _ end) as [[s2 calls2]|] eqn:E2; [|done]. cbn [mbind option_bind].
  assert (Hs2 : moves evs s s2).
  { etransitivity; [exact Hs1|]. destruct c as [c0|]; [|by injection E2 as <- _].
    destruct (Hc c0 eq_refl) as (Hin & r & Hr0 & Hid). rewrite Hr0 in E2. cbn [mbind option_bind] in E2.
    destruct (cp_outcome c0) as [d|] eqn:Eo.
    - injection E2 as E2. change s2 with (fst (s2, calls2)). rewrite <- E2. rewrite <- Hled in Hr.
      apply land_written_moves; [by eapply moves_ok|done|].
      rewrite Hin in Hr. destruct c0 as [id o]. cbn in Eo. by rewrite Eo in Hr.
    - injection E2 as <- _. apply restart_moves; [done|].
      destruct (Hm _ _ Hin) as (addr & Hans & Hadr). exists adapter, addr. rewrite Eo in Hans. split; [done|congruence]. }
  set (s3 := if due then kick s2 adapter keys profile else s2).
  assert (Hs3 : moves evs s s3).
  { etransitivity; [exact Hs2|]. unfold s3. destruct due; [|done]. apply kick_moves.
    exists (Ev_pump gate keys profile). by split. }
  destruct (is_busy s3 || vs_hold_refresh s3); [intros [= <- _ <-]; by split|].
  destruct (vs_want_hubs s3); intros [= <- _ <-]; (split; [|done]); [|done].
  etransitivity; [exact Hs3|other].
Qed.

Definition ws_state (w : WatchStores) : ViewStateState := vw_state (ws_viewstate w).

Lemma run_moves past s adapter cmd keys profile s' calls queued :
  let evs := past ++ [Ev_run cmd keys profile] in
  state_ok s -> room (vs_ledger s) 1 ->
  run s adapter cmd keys profile = Some (s', calls, queued) -> moves evs s s'.
Proof.
  intros evs Hok Hr. destruct cmd as [sid rk w scope guid|]; cbn [run].
  - by apply request_moves.
  - intros [= <- _ _]. etransitivity; [by apply rtc_once, move_reset|other].
Qed.

Lemma fan_out_ends_moves past gate keys profile servers ends : forall v v',
  let evs := past ++ [Ev_reconcile gate keys profile servers] in
  Forall (fun k => stopped_in past k /\ answered_watched past k) ends ->
  fan_out_ends v ends keys profile servers = Some v' ->
  moves evs (vw_state v) (vw_state v') /\ vw_adapter v' = vw_adapter v.
Proof.
  induction ends as [|[sid rk] ends IH]; intros v v' evs He; cbn [fan_out_ends]; [by intros [= <-]|].
  apply Forall_cons in He as [[Hst Han] He].
  unfold store_fan_out. destruct (fan_out_origin_watched _ _ _ _ _ _ _) as [[s q]|] eqn:E; [|done].
  cbn [mbind option_bind]. intros Hf. apply IH in Hf as [Hm Ha]; [|done].
  apply (fan_out_moves past gate) in E; [|done..]. split.
  - etransitivity; [exact E|]. by destruct q.
  - by destruct q.
Qed.

Lemma take_reread_moves evs s : moves evs s (snd (take_reread s)).
Proof. unfold take_reread. destruct (is_busy s); [done|other]. Qed.

Lemma stops_landed_state stops : forall w calls,
  ws_viewstate (fst (fold_left stop_landed stops (w, calls))) = ws_viewstate w
  /\ ws_adapters (fst (fold_left stop_landed stops (w, calls))) = ws_adapters w.
Proof. induction stops as [|stop stops IH]; intros w calls; [done|]. cbn [fold_left stop_landed]. by rewrite !(proj1 (IH _ _)), !(proj2 (IH _ _)). Qed.

(** The ends the read-back hands over, and the answers that wait for it. *)
Record reads_ok (evs : list Event) (w : WatchStores) : Prop := mk_reads_ok {
  rk_mail : forall port l, rp_mail (ws_read_adapters w) !! port = Some l -> Forall (landing_told (answered_watched evs)) l;
  rk_ends : ends_from (stopped_in evs) (answered_watched evs) (ws_reconcile w)
}.

Lemma reads_waiting evs w port : reads_ok evs w ->
  Forall (landing_told (answered_watched evs)) (default [] (rp_mail (ws_read_adapters w) !! port)).
Proof. intros [Hm _]. destruct (rp_mail _ !! port) as [l|] eqn:E; [by eapply Hm|constructor]. Qed.

(** The ends of one pump of the read-back. *)
Lemma pump_ends evs w owed ledger gate idle clients rec p c ra : reads_ok evs w ->
  reconcile_pump_with_gate ledger (enqueue (ws_reconcile w) owed) gate idle clients (ws_read_adapters w) = (rec, p, c, ra) ->
  ends_from (stopped_in evs) (answered_watched evs) rec
  /\ forall port l, rp_mail ra !! port = Some l -> Forall (landing_told (answered_watched evs)) l.
Proof.
  intros Hok E. split.
  - eapply reconcile_pump_ends_from; [| |exact E]; [by apply reads_waiting|].
    eapply same_ends_from; [apply enqueue_ends|apply Hok].
  - intros port l. unfold reconcile_pump_with_gate in E. destruct gate.
    + destruct (fold_left _ _ _) as [[s1 p1] c1]. injection E as _ _ _ <-. cbn. intros Hl.
      apply lookup_delete_Some in Hl as [_ Hl]. by apply (rk_mail _ _ Hok port).
    + cbn [fold_left] in E. injection E as _ _ _ <-. apply (rk_mail _ _ Hok port).
Qed.

Lemma step_moves past w ev w' out :
  let evs := past ++ [ev] in
  reads_ok past w -> mail_given evs (ws_adapters w) -> state_ok (ws_state w) -> counter_holds w ->
  step w ev = Some (w', out) ->
  mail_given evs (ws_adapters w') /\ exists s', moves evs (ws_state w) s'
    /\ ((out_jobs out = [] /\ ws_state w' = s')
        \/ (out_jobs out = vs_jobs s' /\ ws_state w' = s' <| vs_jobs := [] |> /\ s' = ws_state w)).
Proof.
  intros evs Hreads Hm Hok Hc. unfold counter_holds, ws_ledger in Hc. fold (ws_state w) in Hc.
  assert (Hr1 : room (vs_ledger (ws_state w)) 1) by (unfold room; lia).
  destruct ev as [cmd keys profile|gate keys profile|gate keys profile servers|port addr o|port addr o| | |on|stops|quiet keys|];
    cbn [step].
  - unfold viewstate_run, store_run.
    destruct (match cmd with Cmd_Request _ _ _ _ _ => (ws_reconcile w, ws_read_adapters w) | Cmd_Reset => _ end) as [rec ra].
    destruct (match cmd with Cmd_Request _ _ _ _ _ => (ws_viewstate w, ws_adapters w) | Cmd_Reset => _ end) as [v a] eqn:Ev.
    assert (Hv : vw_state v = ws_state w /\ mail_given evs a) by (destruct cmd; by injection Ev as <- <-).
    destruct Hv as [Hv Ha]. rewrite Hv.
    destruct (run _ _ _ _ _) as [[[s calls] q]|] eqn:E; [|done]. cbn. intros [= <- <-].
    split; [done|]. exists s. split; [by eapply run_moves|by left].
  - unfold viewstate_pump, store_pump.
    destruct (pump_with_gate _ _ _ _ _ _) as [[[s calls] a]|] eqn:E; [|done]. cbn [mbind option_bind].
    intros [= <- <-]. apply (pump_moves evs) in E as [Hs Ha]; [|apply last_snoc|done|done|unfold room, copies_waiting, ws_state in *; lia].
    split; [done|]. exists s. split; [done|]. left. split; [done|]. unfold ws_state. cbn. by destruct (negb _).
  - unfold reconcile_pump. destruct (take_reread _) as [owed s1] eqn:E1.
    destruct (reconcile_pump_with_gate _ _ _ _ _ _) as [[[rec published] changed] ra] eqn:Ep.
    destruct (pump_ends _ _ _ _ _ _ _ _ _ _ _ Hreads Ep) as [[_ Hends] _]. unfold take_watched_ends.
    destruct (fan_out_ends _ _ _ _ _) as [v|] eqn:Ef; [|done]. cbn [mbind option_bind]. intros [= <- <-].
    split; [done|]. exists (vw_state v). split; [|by left].
    apply (fan_out_ends_moves past gate keys profile servers) in Ef as [Hf _]; [|done].
    transitivity s1; [|exact Hf]. change s1 with (snd (owed, s1)). rewrite <- E1. apply take_reread_moves.
  - intros [= <- <-]. split; [|exists (ws_state w); split; [done|by left]].
    intros p c Hp. cbn in Hp. apply lookup_insert_Some in Hp as [[<- <-]|[_ Hp]]; [|by apply Hm].
    exists addr. split; [|done]. apply elem_of_app. right. by apply list_elem_of_singleton.
  - intros [= <- <-]. split; [done|]. exists (ws_state w). split; [done|by left].
  - intros [= <- <-]. split; [done|]. exists (ws_state w). split; [done|by right].
  - intros [= <- <-]. split; [done|]. exists (ws_state w). split; [done|by left].
  - intros [= <- <-]. split; [done|]. eexists. split; [|left; split; reflexivity]. other.
  - unfold stops_landed. pose proof (stops_landed_state stops w []) as [Hv Ha].
    destruct (fold_left _ _ _) as [w1 calls]. cbn [fst] in *. intros [= <- <-]. rewrite Ha. split; [done|].
    exists (ws_state w). split; [done|]. left. split; [done|]. unfold ws_state. by rewrite Hv.
  - intros [= <- <-]. split; [done|]. exists (ws_state w). split; [done|by left].
  - intros [= <- <-]. split; [done|]. exists (ws_state w). split; [done|by left].
Qed.

(** ** What was sent *)

Definition sent_id (j : ViewJob) : Z := ad_req (vj_addr j).

(** A later write, or the same one, the runner having refused it. *)
Definition goes_after (evs : list Event) (a b : Z) : Prop := a < b \/ (a = b /\ refused_in evs a).

(** The job of a press, under the profile it was pressed under and through the client it was
    pressed for, as the step that sends it is told the registry stands. *)
Definition job_now (evs : list Event) (j : ViewJob) : Prop :=
  exists r keys adapter, j = job_of r keys adapter /\ pressed_in evs r
    /\ key_of keys (rq_sid r) = Some (rq_key r) /\ sends_now evs keys (rq_profile r).

Record sent_ok (evs : list Event) (jobs : list ViewJob) (s : ViewStateState) : Prop := mk_sent_ok {
  so_state : state_ok s;
  so_pressed : Forall (pressed_in evs) (pending s);
  so_order : StronglySorted (fun a b => goes_after evs (sent_id a) (sent_id b)) jobs;
  so_next : Forall (fun j => sent_id j < vs_next_request_id s) jobs;
  so_queue : Forall (fun j => Forall (fun r => goes_after evs (sent_id j) (rq_id r)) (vs_queue s)) jobs;
  so_sent : Forall (fun j => forall r, vs_sent s = Some r -> sent_id j <= rq_id r) jobs
}.

Lemma sorted_mono {A} (R R' : A -> A -> Prop) l : (forall a b, R a b -> R' a b) ->
  StronglySorted R l -> StronglySorted R' l.
Proof. intros HR. induction 1; constructor; [done|]. eapply Forall_impl; eauto. Qed.

Lemma refused_mono evs evs' id : evs ⊆ evs' -> refused_in evs id -> refused_in evs' id.
Proof. intros Hs (p & addr & Hin & He). exists p, addr. auto. Qed.

Lemma goes_after_mono evs evs' a b : evs ⊆ evs' -> goes_after evs a b -> goes_after evs' a b.
Proof. intros Hs [H|[H Hr]]; [by left|right]. eauto using refused_mono. Qed.

Lemma pressed_mono evs evs' r : evs `prefix_of` evs' -> pressed_in evs r -> pressed_in evs' r.
Proof. intros Hs (past & ev & Hin & Hp). exists past, ev. split; [by etransitivity|done]. Qed.

Lemma prefix_subseteq {A} (l l' : list A) : l `prefix_of` l' -> l ⊆ l'.
Proof. intros [k ->] x Hx. apply elem_of_app. by left. Qed.

Lemma sent_ok_mono evs evs' jobs s : evs `prefix_of` evs' -> sent_ok evs jobs s -> sent_ok evs' jobs s.
Proof.
  intros Hs [Hst Hp Ho Hn Hq Hse]. pose proof (prefix_subseteq _ _ Hs) as Hsub. split; [done| | |done| |done].
  - eapply Forall_impl; [exact Hp|]. eauto using pressed_mono.
  - eapply sorted_mono; [|exact Ho]. eauto using goes_after_mono.
  - eapply Forall_impl; [exact Hq|]. cbn. intros j Hjq. eapply Forall_impl; [exact Hjq|]. eauto using goes_after_mono.
Qed.

(** A move that sends nothing: what is pending was pending, or is new. *)
Lemma sent_ok_quiet evs jobs s s' :
  sent_ok evs jobs s -> state_ok s' -> vs_next_request_id s <= vs_next_request_id s' ->
  (forall r, vs_sent s' = Some r -> vs_sent s = Some r) ->
  (forall r, r ∈ vs_queue s' -> r ∈ vs_queue s \/ (pressed_in evs r /\ rq_id r = vs_next_request_id s)
     \/ (vs_sent s = Some r /\ refused_in evs (rq_id r))) ->
  sent_ok evs jobs s'.
Proof.
  intros [Hst Hp Ho Hn Hq Hse] Hst' Hnext Hsent Hqueue. unfold pending in *.
  apply Forall_app in Hp as [Hps Hpq]. rewrite !Forall_forall in *. split; [done| |done|..].
  - apply Forall_app. split.
    + destruct (vs_sent s') as [r|] eqn:E; cbn; [|done]. specialize (Hsent r eq_refl). rewrite Hsent in Hps.
      repeat constructor. apply Hps. by apply list_elem_of_singleton.
    + rewrite Forall_forall. intros r Hr. destruct (Hqueue r Hr) as [Hin|[[? _]|[Hr' _]]]; [auto|done|].
      apply Hps. rewrite Hr'. by apply list_elem_of_singleton.
  - rewrite Forall_forall. intros j Hjin. specialize (Hn j Hjin). cbn in Hn. lia.
  - rewrite Forall_forall. intros j Hjin. rewrite Forall_forall. intros r Hr.
    destruct (Hqueue r Hr) as [Hin|[[_ Hid]|[Hr' Href]]].
    + specialize (Hq j Hjin). cbn in Hq. rewrite Forall_forall in Hq. auto.
    + left. specialize (Hn j Hjin). cbn in Hn. lia.
    + specialize (Hse j Hjin r Hr'). destruct (decide (sent_id j = rq_id r)) as [He|He]; [right|left; lia].
      split; [done|by rewrite He].
  - rewrite Forall_forall. intros j Hjin r Hr. apply (Hse j Hjin). auto.
Qed.

Lemma job_sent_id r keys adapter : sent_id (job_of r keys adapter) = rq_id r.
Proof. done. Qed.

(** The head of what is left goes out. *)
Lemma sent_ok_send evs jobs s dropped r q adapter keys profile :
  sent_ok evs jobs s -> vs_sent s = None -> vs_queue s = dropped ++ r :: q -> may_go r keys profile ->
  forall s', state_ok s' -> vs_next_request_id s' = vs_next_request_id s -> vs_sent s' = Some r ->
  vs_queue s' = q -> sent_ok evs (jobs ++ [job_of r keys adapter]) s'.
Proof.
  intros [Hst Hp Ho Hn Hq Hse] Hs Hqu [Hpr Hk] s' Hst' Hn' Hs' Hq'.
  assert (Hpend : pending s = dropped ++ r :: q) by (unfold pending; by rewrite Hs, Hqu).
  unfold state_ok in Hst. rewrite Hpend in Hst, Hp. rewrite Hqu in Hq. apply Forall_app in Hp as [_ Hp]. apply Forall_cons in Hp as [Hpr0 Hpq].
  assert (Hafter : Forall (fun b => rq_id r < rq_id b) q).
  { pose proof (qo_order _ _ _ Hst) as Hord. clear -Hord. induction dropped as [|d l IH]; cbn in Hord.
    - apply StronglySorted_inv in Hord as [_ Hr]. eapply Forall_impl; [exact Hr|]. by intros b [? _].
    - apply StronglySorted_inv in Hord as [Hord _]. auto. }
  assert (Hrn : rq_id r < vs_next_request_id s).
  { pose proof (qo_bounds _ _ _ Hst) as Hb. apply Forall_app in Hb as [_ Hb]. by apply Forall_cons in Hb as [[? _] _]. }
  assert (Hjr : Forall (fun j => goes_after evs (sent_id j) (rq_id r)
                                 /\ Forall (fun b => goes_after evs (sent_id j) (rq_id b)) q) jobs).
  { eapply Forall_impl; [exact Hq|]. cbn. intros j Hjq. apply Forall_app in Hjq as [_ Hjq]. by apply Forall_cons in Hjq. }
  split; [done| | | | |].
  - unfold pending. rewrite Hs', Hq'. cbn. by constructor.
  - apply sorted_snoc_rel; [done|]. eapply Forall_impl; [exact Hjr|]. by intros j [? _].
  - rewrite Hn'. apply Forall_app. split; [done|]. by repeat constructor.
  - rewrite Hq'. apply Forall_app. split; [eapply Forall_impl; [exact Hjr|]; by intros j [_ ?]|].
    repeat constructor. eapply Forall_impl; [exact Hafter|]. intros b Hb. by left.
  - rewrite Hs'. apply Forall_app. split.
    + eapply Forall_impl; [exact Hjr|]. intros j [[Hlt|[Heq _]] _] r' [= <-]; lia.
    + repeat constructor. intros r' [= <-]. by rewrite job_sent_id.
Qed.

Lemma move_sent_ok evs taken s s' : move evs s s' -> sent_ok evs (taken ++ vs_jobs s) s ->
  sent_ok evs (taken ++ vs_jobs s') s'.
Proof.
  intros Hm Hok. pose proof (move_ok _ _ _ Hm (so_state _ _ _ Hok)) as Hst'.
  destruct Hm as [s' Hl Hq Hs Hn Hj|r keep Hp Hid Hseq Hr|r Hp Hid Hseq|adapter keys profile s' Hev Hs Hk|r Hs Href|r Hs|r Hs Hr|at_ edit Hr|Hr].
  - rewrite Hj. eapply sent_ok_quiet; [exact Hok|done|lia|by rewrite Hs|]. rewrite Hq. auto.
  - eapply sent_ok_quiet; [exact Hok|done|cbn; lia|done|]. cbn. intros r' Hr'.
    apply elem_of_app in Hr' as [Hr'|Hr']; [left|apply list_elem_of_singleton in Hr' as ->; auto].
    apply list_elem_of_In, filter_In in Hr' as [Hr' _]. by apply list_elem_of_In.
  - eapply sent_ok_quiet; [exact Hok|done|cbn; lia|done|]. cbn. intros r' Hr'.
    apply elem_of_app in Hr' as [Hr'|Hr']; [by left|apply list_elem_of_singleton in Hr' as ->; auto].
  - destruct Hk as [_|dropped r q Hq _ Hgo].
    + eapply sent_ok_quiet; [exact Hok|done|cbn; lia|done|]. cbn. intros r' []%elem_of_nil.
    + cbn. rewrite app_assoc. by eapply sent_ok_send.
  - eapply sent_ok_quiet; [exact Hok|done|cbn; lia|done|]. cbn. intros r' [->|Hr']%elem_of_cons; auto.
  - eapply sent_ok_quiet; [exact Hok|done|cbn; lia|done|]. auto.
  - eapply sent_ok_quiet; [exact Hok|done|cbn; lia|done|]. auto.
  - eapply sent_ok_quiet; [exact Hok|done|cbn; lia|done|]. auto.
  - eapply sent_ok_quiet; [exact Hok|done|cbn; lia|done|]. cbn. intros r' []%elem_of_nil.
Qed.

(** The jobs a move adds. *)
Lemma move_new_jobs evs s s' : move evs s s' -> Forall (pressed_in evs) (pending s) ->
  exists js, vs_jobs s' = vs_jobs s ++ js /\ Forall (job_now evs) js.
Proof.
  intros Hm Hp. assert (Hnone : vs_jobs s' = vs_jobs s ->
    exists js, vs_jobs s' = vs_jobs s ++ js /\ Forall (job_now evs) js) by (intros ->; exists []; by rewrite app_nil_r).
  destruct Hm as [s' Hl Hq Hs Hn Hj|r keep _ Hid Hseq Hr|r _ Hid Hseq|adapter keys profile s' Hnow Hs Hk|r Hs Href|r Hs|r Hs Hr|at_ edit Hr|Hr];
    auto.
  destruct Hk as [_|dropped r q Hq _ [Hpr Hk]]; [auto|]. eexists. split; [reflexivity|]. repeat constructor.
  exists r, keys, adapter. split_and!; [done| |done|by rewrite Hpr].
  unfold pending in Hp. rewrite Hq in Hp. apply Forall_app in Hp as [_ Hp]. apply Forall_app in Hp as [_ Hp].
  by apply Forall_cons in Hp as [Hp _].
Qed.

Lemma moves_new_jobs evs taken s s' : moves evs s s' -> sent_ok evs (taken ++ vs_jobs s) s ->
  exists js, vs_jobs s' = vs_jobs s ++ js /\ Forall (job_now evs) js.
Proof.
  induction 1 as [s|s s1 s' Hm _ IH]; intros Hok; [exists []; by rewrite app_nil_r|].
  destruct (move_new_jobs _ _ _ Hm (so_pressed _ _ _ Hok)) as (js & Hjs & Hnow).
  destruct (IH (move_sent_ok _ _ _ _ Hm Hok)) as (js' & Hjs' & Hnow').
  exists (js ++ js'). rewrite Hjs', Hjs, <- app_assoc. split; [done|by apply Forall_app].
Qed.

(** ** Reads in flight *)

(** Every read out was asked for before any press that is still pending. *)
Definition flights_behind (fl : list Flight) (s : ViewStateState) : Prop :=
  Forall (fun f => fl_stamp f <= le_seq (vs_ledger s)
                   /\ Forall (fun r => rq_seq r <> 0 -> fl_stamp f < rq_seq r) (pending s)) fl.

(** What a move leaves pending was pending, or is newer than the ledger. *)
Lemma move_pending evs s s' : move evs s s' -> state_ok s ->
  le_seq (vs_ledger s) <= le_seq (vs_ledger s')
  /\ forall r, r ∈ pending s' -> r ∈ pending s \/ rq_seq r = 0 \/ le_seq (vs_ledger s) < rq_seq r.
Proof.
  intros Hm Hok. pose proof (qo_ledger _ _ _ Hok) as Hled. unfold pending. destruct Hm as
    [s' Hl Hq Hs Hn _|r keep _ Hid Hseq Hr|r _ Hid Hseq|adapter keys profile s' _ Hs Hk|r Hs _|r Hs|r Hs Hr|at_ edit Hr|Hr];
    cbn -[record landed ledger_reset].
  - rewrite Hl, Hq, Hs. split; [lia|auto].
  - destruct (ledger_step_ok (vs_ledger s) (Op_record (req_at r) (req_edit r)) Hled Hr) as [_ Hle].
    cbn [ledger_step] in Hle. split; [lia|]. intros r' Hr'. rewrite !elem_of_app in Hr'.
    destruct Hr' as [Hr'|[Hr'|Hr']]; [left; apply elem_of_app; auto| |].
    + left. apply elem_of_app. right. apply list_elem_of_In, filter_In in Hr' as [? _]. by apply list_elem_of_In.
    + apply list_elem_of_singleton in Hr' as ->. right. right. lia.
  - split; [lia|]. intros r' Hr'. rewrite !elem_of_app in Hr'. destruct Hr' as [Hr'|[Hr'|Hr']];
      [left; apply elem_of_app; auto..|]. apply list_elem_of_singleton in Hr' as ->. auto.
  - destruct Hk as [_|dropped r q Hq _ _]; cbn; rewrite take_back_seq; (split; [lia|]); intros r'; rewrite Hs.
    + cbn. by intros []%elem_of_nil.
    + rewrite Hq. intros Hr'. left. cbn. apply elem_of_app. by right.
  - split; [lia|]. rewrite Hs. cbn. auto.
  - split; [lia|]. rewrite Hs. cbn. intros r' Hr'. left. by right.
  - destruct (ledger_step_ok (vs_ledger s) (Op_landed (rq_seq r)) Hled Hr) as [_ Hle].
    cbn [ledger_step] in Hle. split; [lia|]. rewrite Hs. intros r' Hr'. left. by right.
  - destruct (ledger_step_ok (vs_ledger s) (Op_record at_ edit) Hled Hr) as [_ Hle].
    cbn [ledger_step] in Hle. split; [lia|auto].
  - destruct (ledger_step_ok (vs_ledger s) Op_reset Hled Hr) as [_ Hle].
    cbn [ledger_step] in Hle. split; [lia|]. by intros r' []%elem_of_nil.
Qed.

Lemma move_flights evs fl s s' : move evs s s' -> state_ok s -> flights_behind fl s -> flights_behind fl s'.
Proof.
  intros Hm Hok Hf. destruct (move_pending _ _ _ Hm Hok) as [Hle Hp]. eapply Forall_impl; [exact Hf|].
  cbn. intros f [Hst Hr]. split; [lia|]. rewrite !Forall_forall in *. intros r Hin Hnz.
  destruct (Hp r Hin) as [Hin'|[?|?]]; [auto|done|lia].
Qed.

Lemma moves_flights evs fl s s' : moves evs s s' -> state_ok s -> flights_behind fl s -> flights_behind fl s'.
Proof. induction 1; [done|]. intros Hok Hf. eauto using move_ok, move_flights. Qed.

(** [fl'] holds flights of [fl], and new ones stamped [st]. *)
Definition flights_from (st : option Stamp) (fl fl' : list Flight) : Prop :=
  forall f, f ∈ fl' -> f ∈ fl \/ Some (fl_stamp f) = st.

Definition same_flights (a b : ViewReconcileStore) : Prop := vr_flights b = vr_flights a.

Lemma fold_same_flights {A} (g : ViewReconcileStore -> A -> ViewReconcileStore) l s :
  (forall s x, same_flights s (g s x)) -> same_flights s (fold_left g l s).
Proof. intros Hg. apply fold_keeps; unfold same_flights in *; [done|congruence|done]. Qed.

Lemma enqueue1_flights s k : same_flights s (enqueue1 s k).
Proof. unfold enqueue1, same_flights. repeat case_match; done. Qed.

Lemma enqueue_flights s keys : same_flights s (enqueue s keys).
Proof. apply fold_same_flights, enqueue1_flights. Qed.

Lemma reread_flights s keys : same_flights s (enqueue_reread s keys).
Proof.
  apply fold_same_flights. intros s' k. unfold reread1.
  destruct (negb _); unfold same_flights; cbn; apply enqueue1_flights.
Qed.

Lemma owe_page_flights s k : same_flights s (owe_page s k).
Proof. unfold owe_page, same_flights. by destruct (listed _ _). Qed.

Lemma stop_flights s k b : same_flights s (enqueue_stop s k b).
Proof. unfold enqueue_stop, same_flights. destruct b; rewrite enqueue_flights; done. Qed.

Lemma owe_parent_flights f q s up : same_flights s (owe_parent f q s up).
Proof. unfold owe_parent, same_flights. repeat case_match; done. Qed.

Lemma settle_flights f m s : same_flights s (settle_candidate f m s).
Proof. unfold settle_candidate, same_flights. destruct (list_find _ _) as [[i [k b]]|]; [|done]. by destruct (pm_watched m). Qed.

Lemma land_row_flights f quiet over s p row : same_flights s (fst (land_row f quiet over (s, p) row)).
Proof.
  unfold land_row. destruct (negb _); [done|]. destruct (existsb _ over); [done|]. cbv zeta. cbn [fst].
  unfold same_flights. match goal with |- vr_flights (if ?b then ?x else _) = _ => destruct b end;
    rewrite ?owe_page_flights, settle_flights; (destruct (existsb _ (fl_parents f)); [done|]);
    apply (fold_same_flights (owe_parent f _)), owe_parent_flights.
Qed.

Lemma land_rows_flights f quiet over rows : forall s p,
  same_flights s (fst (fold_left (land_row f quiet over) rows (s, p))).
Proof.
  induction rows as [|row rows IH]; intros s p; cbn [fold_left]; [done|].
  destruct (land_row f quiet over (s, p) row) as [s1 p1] eqn:E. unfold same_flights in *. rewrite IH.
  change s1 with (fst (s1, p1)). rewrite <- E. apply land_row_flights.
Qed.

Lemma land_read_flights ledger s f rows : same_flights s (fst (land_read ledger s f rows)).
Proof.
  unfold land_read. cbv zeta.
  match goal with |- context [fold_left (land_row f ?q ?o) ?r (?s0, [])] =>
    pose proof (land_rows_flights f q o r s0 []) as H; destruct (fold_left (land_row f q o) r (s0, [])) as [s1 p1] end.
  exact H.
Qed.

Lemma requeue_flights s f : same_flights s (requeue_unstarted s f).
Proof.
  unfold requeue_unstarted, same_flights. cbn.
  rewrite (fold_same_flights (requeue_parent _ _)).
  2:{ intros s' k. unfold requeue_parent, same_flights. repeat case_match; done. }
  rewrite (fold_same_flights (requeue_leaf _)); [done|].
  intros s' k. unfold requeue_leaf, same_flights. by case_match.
Qed.

Lemma land1_flights ledger s p c landing :
  vr_flights (fst (fst (land1 ledger (s, p, c) landing))) ⊆ vr_flights s.
Proof.
  unfold land1. destruct (list_find _ _) as [[i f]|] eqn:E; [|done]. cbv zeta.
  assert (Hsub : delete i (vr_flights s) ⊆ vr_flights s).
  { intros g Hg. apply list_find_Some in E as (Hi & _). rewrite (delete_Permutation _ _ _ Hi). by right. }
  destruct (ra_outcome landing) as [rows|].
  - pose proof (land_read_flights ledger (s <| vr_flights := delete i (vr_flights s) |>) f rows) as H.
    destruct (land_read _ _ _ _) as [s1 p1]. cbn [fst] in *. by rewrite H.
  - cbn [fst]. by rewrite requeue_flights.
Qed.

Lemma lands_flights ledger landings : forall s p c,
  vr_flights (fst (fst (fold_left (land1 ledger) landings (s, p, c)))) ⊆ vr_flights s.
Proof.
  induction landings as [|l landings IH]; intros s p c; cbn [fold_left]; [done|].
  pose proof (land1_flights ledger s p c l) as H. destruct (land1 _ _ _) as [[s1 p1] c1]. cbn [fst] in H.
  etransitivity; [apply IH|exact H].
Qed.

Lemma send_batch_flights clients st s sid : flights_from (Some st) (vr_flights s) (vr_flights (send_batch clients st s sid)).
Proof.
  unfold send_batch. destruct (take_batch _ _ _) as [keys rest]. destruct (take_parents _ _ _ _) as [[k p] rest'].
  destruct (key_of _ _); intros f Hf; cbn in Hf; [|by left].
  apply elem_of_app in Hf as [Hf|Hf]; [by left|]. apply list_elem_of_singleton in Hf as ->. by right.
Qed.

Lemma reconcile_kick_flights s clients st : flights_from (Some st) (vr_flights s) (vr_flights (reconcile_kick s clients st)).
Proof.
  unfold reconcile_kick. destruct (0 <? vr_retry_cd s); [intros f Hf; by left|].
  apply (fold_keeps (fun a b => flights_from (Some st) (vr_flights a) (vr_flights b))).
  - intros s' f Hf. by left.
  - intros a b c Hab Hbc f Hf. destruct (Hbc f Hf); auto.
  - intros s' sid. apply send_batch_flights.
Qed.

Lemma reconcile_pump_flights ledger s gate may_send clients a s' p c a' :
  reconcile_pump_with_gate ledger s gate may_send clients a = (s', p, c, a') ->
  flights_from (if may_send then Some (stamp ledger) else None) (vr_flights s) (vr_flights s').
Proof.
  unfold reconcile_pump_with_gate. destruct (if gate then _ else _) as [landings a1].
  pose proof (lands_flights ledger landings s [] false) as Hsub.
  destruct (fold_left _ _ _) as [[s1 p1] c1]. cbn [fst] in Hsub. cbv zeta. intros [= <- _ _ _].
  assert (H : flights_from (if may_send then Some (stamp ledger) else None) (vr_flights s)
                (vr_flights (if may_send then reconcile_kick s1 clients (stamp ledger) else s1))).
  { destruct may_send; [|intros f Hf; left; by apply Hsub].
    intros f Hf. destruct (reconcile_kick_flights _ _ _ f Hf); [left; by apply Hsub|by right]. }
  by destruct c1.
Qed.

(** A read goes out only when no write is queued or out and the network is not held. *)
Definition quiescent (w : WatchStores) : Prop := is_busy (ws_state w) = false /\ ws_network_held w = false.

Lemma stops_flights stops : forall w calls,
  vr_flights (ws_reconcile (fst (fold_left stop_landed stops (w, calls)))) = vr_flights (ws_reconcile w).
Proof.
  induction stops as [|stop stops IH]; intros w calls; [done|]. cbn [fold_left stop_landed]. rewrite IH. cbn.
  destruct (sp_ok stop); [apply stop_flights|apply owe_page_flights].
Qed.

Lemma is_busy_reread s : is_busy (snd (take_reread s)) = is_busy s /\ vs_ledger (snd (take_reread s)) = vs_ledger s.
Proof. unfold take_reread. destruct (is_busy s) eqn:E; (split; [exact E|done]). Qed.

Lemma step_new_flights w ev w' out : step w ev = Some (w', out) ->
  forall f, f ∈ vr_flights (ws_reconcile w') ->
  f ∈ vr_flights (ws_reconcile w) \/ (quiescent w /\ fl_stamp f = le_seq (ws_ledger w)).
Proof.
  destruct ev as [cmd keys profile|gate keys profile|gate keys profile servers|port addr o|port addr o| | |on|stops|quiet keys|];
    cbn [step].
  - unfold viewstate_run. destruct (match cmd with Cmd_Request _ _ _ _ _ => _ | Cmd_Reset => _ end) as [rec ra] eqn:Er.
    destruct (store_run _ _ _ _ _) as [[[[v calls] q] a]|]; [|done]. cbn. intros [= <- <-] f Hf. cbn in Hf. left.
    destruct cmd; injection Er as <- <-; [done|]. cbn in Hf. by apply elem_of_nil in Hf.
  - unfold viewstate_pump. destruct (store_pump _ _ _ _ _) as [[[v calls] a]|]; [|done]. cbn. intros [= <- <-] f Hf. by left.
  - unfold reconcile_pump. fold (ws_state w). destruct (take_reread _) as [owed s1] eqn:E1.
    destruct (is_busy_reread (ws_state w)) as [Hb Hl]. rewrite E1 in Hb, Hl. cbn [snd] in Hb, Hl.
    destruct (reconcile_pump_with_gate _ _ _ _ _ _) as [[[rec published] changed] ra] eqn:Ep.
    apply reconcile_pump_flights in Ep. cbn in Ep. rewrite Hb in Ep.
    destruct (take_watched_ends rec) as [ends rec'] eqn:Et. injection Et as _ <-.
    destruct (fan_out_ends _ _ _ _ _) as [v|]; [|done]. cbn [mbind option_bind]. intros [= <- <-] f Hf. cbn in Hf.
    destruct (Ep f Hf) as [Hin|Hst].
    + left. by rewrite enqueue_flights in Hin.
    + unfold quiescent, ws_ledger. fold (ws_state w). right. destruct (is_busy (ws_state w)), (ws_network_held w); try done.
      cbn in Hst. injection Hst as ->. by rewrite Hl.
  - intros [= <- <-] f Hf. by left.
  - intros [= <- <-] f Hf. by left.
  - intros [= <- <-] f Hf. by left.
  - intros [= <- <-] f Hf. by left.
  - intros [= <- <-] f Hf. by left.
  - unfold stops_landed. pose proof (stops_flights stops w []) as H. destruct (fold_left _ _ _) as [w1 calls].
    intros [= <- <-] f Hf. left. cbn [fst] in H. by rewrite <- H.
  - intros [= <- <-] f Hf. left. cbn in Hf. destruct quiet; [by rewrite reread_flights in Hf|by rewrite enqueue_flights in Hf].
  - intros [= <- <-] f Hf. by left.
Qed.

(** ** What every history keeps *)

(** The step [ev], after the steps [past], put the job [j] up for the runner. *)
Definition sent_by (past : list Event) (ev : Event) (j : ViewJob) : Prop :=
  exists w jobs w' out js, history past w jobs /\ step w ev = Some (w', out)
    /\ vs_jobs (ws_state w') = vs_jobs (ws_state w) ++ js /\ j ∈ js.

(** A job is the job of a press made by then, and was sent by a step that was given the profile it
    was pressed under and the client it was pressed for. *)
Definition job_sent (evs : list Event) (j : ViewJob) : Prop :=
  exists past ev r keys adapter, (past ++ [ev]) `prefix_of` evs /\ sent_by past ev j
    /\ j = job_of r keys adapter /\ pressed_in (past ++ [ev]) r
    /\ sends ev keys (rq_profile r) /\ key_of keys (rq_sid r) = Some (rq_key r).

Lemma job_sent_mono evs evs' j : evs `prefix_of` evs' -> job_sent evs j -> job_sent evs' j.
Proof. intros Hs (past & ev & r & keys & ad & Hp & H). exists past, ev, r, keys, ad. split; [by etransitivity|done]. Qed.

Lemma told_mono evs evs' l : evs ⊆ evs' -> Forall (landing_told (answered_watched evs)) l ->
  Forall (landing_told (answered_watched evs')) l.
Proof.
  intros Hs Hl. eapply Forall_impl; [exact Hl|]. intros ld Hld rows row Hr Hin Hw.
  destruct (Hld rows row Hr Hin Hw) as (p & a & rs & r & Hev & ?). exists p, a, rs, r. auto.
Qed.

Lemma reads_mono evs evs' w : evs ⊆ evs' -> reads_ok evs w -> reads_ok evs' w.
Proof.
  intros Hs [Hm He]. split; [intros port l Hl; eapply told_mono; eauto|]. eapply ends_from_mono; [..|exact He].
  - intros k (stops & stop & Hev & ?). exists stops, stop. auto.
  - intros k (p & a & rs & r & Hev & ?). exists p, a, rs, r. auto.
Qed.

Lemma stops_ends_from evs stops : forall w calls,
  Forall (fun stop => sp_ok stop = true -> sp_was_watched stop = false -> stopped_in evs (sp_sid stop, sp_rk stop)) stops ->
  ends_from (stopped_in evs) (answered_watched evs) (ws_reconcile w) ->
  let w' := fst (fold_left stop_landed stops (w, calls)) in
  ends_from (stopped_in evs) (answered_watched evs) (ws_reconcile w') /\ ws_read_adapters w' = ws_read_adapters w.
Proof.
  induction stops as [|stop stops IH]; intros w calls Hs He; [done|]. apply Forall_cons in Hs as [Hst Hs].
  cbn [fold_left stop_landed]. match goal with |- context [fold_left _ stops (?w1, ?c)] => destruct (IH w1 c Hs) as [? ?] end.
  - cbn. destruct (sp_ok stop); [by apply stop_ends_from; auto|]. eapply same_ends_from; [apply owe_page_ends|done].
  - done.
Qed.

(** The read-back's mailbox and candidates, over a step. *)
Lemma step_reads evs w ev w' out : reads_ok evs w -> step w ev = Some (w', out) -> reads_ok (evs ++ [ev]) w'.
Proof.
  intros Hok. assert (Hsub : evs ⊆ evs ++ [ev]) by (intros x Hx; apply elem_of_app; by left).
  assert (Hev : ev ∈ evs ++ [ev]) by (apply elem_of_app; right; by apply list_elem_of_singleton).
  pose proof (reads_mono _ _ w Hsub Hok) as Hok'. pose proof Hok' as [Hm He].
  destruct ev as [cmd keys profile|gate keys profile|gate keys profile servers|port addr o|port addr o| | |on|stops|quiet keys|];
    cbn [step].
  - unfold viewstate_run. destruct (match cmd with Cmd_Request _ _ _ _ _ => _ | Cmd_Reset => _ end) as [rec ra] eqn:Er.
    destruct (store_run _ _ _ _ _) as [[[[v calls] q] a]|]; [|done]. cbn. intros [= <- <-].
    destruct cmd; injection Er as <- <-; [by split|]. split; [done|]. cbn. split; constructor.
  - unfold viewstate_pump. destruct (store_pump _ _ _ _ _) as [[[v calls] a]|]; [|done]. cbn. by intros [= <- <-].
  - unfold reconcile_pump. destruct (take_reread _) as [owed s1].
    destruct (reconcile_pump_with_gate _ _ _ _ _ _) as [[[rec published] changed] ra] eqn:Ep.
    destruct (pump_ends _ _ _ _ _ _ _ _ _ _ _ Hok' Ep) as [[Hc _] Hmail]. unfold take_watched_ends.
    destruct (fan_out_ends _ _ _ _ _) as [v|]; [|done]. cbn [mbind option_bind]. intros [= <- <-].
    split; [done|]. cbn. by split.
  - by intros [= <- <-].
  - intros [= <- <-]. split; [|done]. intros p l Hl. cbn in Hl. unfold post_read in Hl. cbn in Hl.
    apply lookup_insert_Some in Hl as [[<- <-]|[_ Hl]]; [|by eapply Hm].
    apply Forall_app. split; [by apply reads_waiting|]. repeat constructor.
    intros rows row Hr Hin Hw. cbn in Hr. subst o. by exists port, addr, rows, row.
  - by intros [= <- <-].
  - intros [= <- <-]. split; [done|]. cbn. by destruct He.
  - by intros [= <- <-].
  - unfold stops_landed. pose proof (stops_ends_from (evs ++ [Ev_stops stops]) stops w []) as H.
    destruct (fold_left _ _ _) as [w1 calls]. cbn [fst] in H. intros [= <- <-].
    destruct H as [Hc Ha]; [|done|].
    + apply Forall_forall. intros stop Hin Hk Hw. by exists stops, stop.
    + split; [by rewrite Ha|done].
  - intros [= <- <-]. split; [done|]. cbn. eapply same_ends_from; [|exact He].
    destruct quiet; [apply reread_ends|apply enqueue_ends].
  - intros [= <- <-]. split; [done|]. cbn. by destruct He.
Qed.

Record history_ok (evs : list Event) (w : WatchStores) (jobs : list ViewJob) : Prop := mk_history_ok {
  ho_mail : mail_given evs (ws_adapters w);
  ho_sent : sent_ok evs (jobs ++ vs_jobs (ws_state w)) (ws_state w);
  ho_flights : flights_behind (vr_flights (ws_reconcile w)) (ws_state w);
  ho_reads : reads_ok evs w;
  ho_jobs : Forall (job_sent evs) (jobs ++ vs_jobs (ws_state w))
}.

Lemma moves_sent_ok evs taken s s' : moves evs s s' -> sent_ok evs (taken ++ vs_jobs s) s ->
  sent_ok evs (taken ++ vs_jobs s') s'.
Proof. induction 1; eauto using move_sent_ok. Qed.

Lemma not_busy_pending s : is_busy s = false -> pending s = [].
Proof.
  unfold is_busy, pending. destruct (vs_sent s); cbn; [by rewrite orb_true_r|].
  case_bool_decide as H; [by rewrite H|done].
Qed.

Lemma mail_mono evs evs' a : evs ⊆ evs' -> mail_given evs a -> mail_given evs' a.
Proof. intros Hs Hm port c Hc. destruct (Hm port c Hc) as (addr & Hin & He). exists addr. auto. Qed.

Lemma history_keeps evs w jobs : history evs w jobs -> history_ok evs w jobs.
Proof.
  induction 1 as [|evs w jobs ev w' out Hh [Hm Hs Hf Hr Hj] Hc Hstep].
  - split; [by intros port c Hc| |constructor| |constructor].
    + split; [|constructor..]. split; [apply ledger_new_ok|constructor..].
    + split; [done|]. split; constructor.
  - assert (Hpre : evs `prefix_of` evs ++ [ev]) by apply prefix_app_r, reflexivity.
    pose proof (prefix_subseteq _ _ Hpre) as Hsub.
    apply (sent_ok_mono _ _ _ _ Hpre) in Hs. apply (mail_mono _ _ _ Hsub) in Hm.
    pose proof (so_state _ _ _ Hs) as Hok.
    destruct (step_moves _ _ _ _ _ Hr Hm Hok Hc Hstep) as (Hm' & s' & Hmv & Hs').
    assert (Hf' : flights_behind (vr_flights (ws_reconcile w')) s').
    { eapply moves_flights; [exact Hmv|done|]. unfold flights_behind in *. rewrite Forall_forall in Hf |- *. intros f Hin.
      destruct (step_new_flights _ _ _ _ Hstep f Hin) as [Hin'|[[Hb _] Hst]]; [auto|].
      rewrite (not_busy_pending _ Hb). unfold ws_ledger in Hst. fold (ws_state w) in Hst. split; [lia|constructor]. }
    destruct (moves_new_jobs _ _ _ _ Hmv Hs) as (js & Hjs & Hnow).
    apply (moves_sent_ok _ _ _ _ Hmv) in Hs. pose proof (step_reads _ _ _ _ _ Hr Hstep) as Hr'.
    assert (Hold : Forall (job_sent (evs ++ [ev])) (jobs ++ vs_jobs (ws_state w)))
      by (eapply Forall_impl; [exact Hj|]; intros j; by apply job_sent_mono).
    destruct Hs' as [[Ho Hs']|(Ho & Hs' & Heq)].
    + rewrite Ho, app_nil_r. split; [done|by rewrite Hs'|by rewrite Hs'|done|].
      rewrite Hs', Hjs, app_assoc. apply Forall_app. split; [done|]. rewrite Forall_forall in Hnow |- *.
      intros j Hin. destruct (Hnow j Hin) as (r & keys & ad & -> & Hp & Hk & ev' & Hlast & Hsend).
      rewrite last_snoc in Hlast. injection Hlast as <-. exists evs, ev, r, keys, ad. split_and!; [done| |done..].
      exists w, jobs, w', out, js. split_and!; [done|done|by rewrite Hs'|done].
    + rewrite Ho. subst s'. split; [done| |by rewrite Hs'|done|].
      * rewrite Hs'. cbn. rewrite app_nil_r. by destruct Hs as [? ? ? ? ? ?].
      * rewrite Hs'. cbn. by rewrite app_nil_r.
Qed.

(** ** What a read-back publishes *)

Lemma land_rows_published f quiet over rows : forall s p c,
  c ∈ snd (fold_left (land_row f quiet over) rows (s, p)) ->
  c ∈ p \/ exists row, row ∈ rows /\ c = facts_change (rr_movie row)
             /\ existsb (fun at_ => covers at_ (rr_movie row)) over = false.
Proof.
  induction rows as [|row rows IH]; intros s p c; cbn [fold_left]; [by left|].
  destruct (land_row f quiet over (s, p) row) as [s1 p1] eqn:E. intros Hc.
  destruct (IH s1 p1 c Hc) as [Hp|(row' & Hin & Hrest)].
  - unfold land_row in E. destruct (negb _); [injection E as <- <-; by left|].
    destruct (existsb (fun at_ => covers at_ (rr_movie row)) over) eqn:Eo; [injection E as <- <-; by left|].
    injection E as _ <-. apply elem_of_app in Hp as [Hp|Hp%list_elem_of_singleton]; [by left|].
    right. exists row. split; [by left|]. by subst c.
  - right. exists row'. split; [by right|done].
Qed.

(** [c] is what a row of an answer among [landings] is published as, the row spared by every press
    published since the read, one of [fl], was asked for. *)
Definition published_from (ledger : Ledger) (fl : list Flight) (landings : list ReadLanding) (c : ViewChange) : Prop :=
  exists f id rows row, f ∈ fl /\ mk_read_landing id (Read (Some rows)) ∈ landings /\ row ∈ rows
    /\ c = facts_change (rr_movie row)
    /\ forall at_ edit, (at_, edit) ∈ since ledger (fl_stamp f) -> is_watched_edit edit = true ->
         covers at_ (rr_movie row) = false.

Lemma land_read_published ledger s f rows c : c ∈ snd (land_read ledger s f rows) ->
  exists row, row ∈ default [] rows /\ c = facts_change (rr_movie row)
    /\ forall at_ edit, (at_, edit) ∈ since ledger (fl_stamp f) -> is_watched_edit edit = true ->
         covers at_ (rr_movie row) = false.
Proof.
  unfold land_read. cbv zeta.
  match goal with |- context [fold_left (land_row f ?q ?o) ?r (?s0, [])] =>
    pose proof (land_rows_published f q o r s0 []) as H; destruct (fold_left (land_row f q o) r (s0, [])) as [s1 p1] end.
  cbn [snd] in *. intros Hc. destruct (H c Hc) as [[]%elem_of_nil|(row & Hin & -> & Hov)]. exists row.
  split_and!; [done..|]. intros at_ edit Hae He. apply not_true_iff_false. intros Hcov.
  apply not_true_iff_false in Hov. apply Hov, existsb_exists. exists at_. split; [|done].
  apply list_elem_of_In, list_elem_of_fmap. exists (at_, edit). split; [done|].
  apply list_elem_of_In, filter_In. by rewrite <- list_elem_of_In.
Qed.

Lemma land1_published ledger s p ch landing c : c ∈ snd (fst (land1 ledger (s, p, ch) landing)) ->
  c ∈ p \/ published_from ledger (vr_flights s) [landing] c.
Proof.
  unfold land1. destruct (list_find _ _) as [[i f]|] eqn:E; [|by left]. cbv zeta.
  apply list_find_Some in E as (Hi & _). destruct landing as [id [rows|]]; cbn [ra_outcome]; [|by left].
  pose proof (land_read_published ledger (s <| vr_flights := delete i (vr_flights s) |>) f rows c) as H.
  destruct (land_read _ _ _ _) as [s1 p1]. cbn [fst snd] in *. intros [Hc|Hc]%elem_of_app; [by left|right].
  destruct (H Hc) as (row & Hin & Hrest). destruct rows as [rows|]; [|by apply elem_of_nil in Hin].
  exists f, id, rows, row. split_and!; [by eapply list_elem_of_lookup_2|by left|done|apply Hrest..].
Qed.

Lemma lands_published ledger landings : forall s p ch c,
  c ∈ snd (fst (fold_left (land1 ledger) landings (s, p, ch))) ->
  c ∈ p \/ published_from ledger (vr_flights s) landings c.
Proof.
  induction landings as [|l landings IH]; intros s p ch c; cbn [fold_left]; [by left|].
  pose proof (land1_flights ledger s p ch l) as Hfl. pose proof (land1_published ledger s p ch l c) as H1.
  destruct (land1 _ _ _) as [[s1 p1] c1]. cbn [fst snd] in *. intros Hc.
  destruct (IH s1 p1 c1 c Hc) as [Hp|(f & id & rows & row & Hf & Hl & Hrest)].
  - destruct (H1 Hp) as [?|(f & id & rows & row & Hf & Hl & Hrest)]; [by left|right].
    apply list_elem_of_singleton in Hl as <-. exists f, id, rows, row. split; [done|]. split; [by left|done].
  - right. exists f, id, rows, row. split; [auto|]. split; [by right|done].
Qed.

(** The answers waiting in the read-back's mailbox. *)
Definition answers_waiting (w : WatchStores) : list ReadLanding :=
  default [] (rp_mail (ws_read_adapters w) !! vr_adapter (ws_reconcile w)).

Lemma hubs_call c at_ edit : Hubs_ApplyView at_ edit ∈ publish_view c -> at_ = at_of c /\ edit = edit_of c.
Proof.
  unfold publish_view. cbv zeta. intros Hin. apply elem_of_app in Hin as [Hin|Hin].
  - apply elem_of_cons in Hin as [[= -> ->]|Hin]; [done|]. by apply elem_of_cons in Hin as [|Hin%elem_of_nil].
  - exfalso. apply list_elem_of_In, in_app_or in Hin. destruct Hin as [Hin|[|[]]]; [|done].
    destruct (bool_decide _); [done|]. by repeat destruct Hin as [|Hin].
Qed.

Lemma reconcile_published w gate keys profile servers w' out at_ edit :
  step w (Ev_reconcile gate keys profile servers) = Some (w', out) ->
  Hubs_ApplyView at_ edit ∈ out_calls out ->
  exists c, at_ = at_of c /\ edit = edit_of c
    /\ published_from (ws_ledger w) (vr_flights (ws_reconcile w)) (answers_waiting w) c.
Proof.
  cbn [step]. unfold reconcile_pump. fold (ws_state w). destruct (take_reread _) as [owed s1] eqn:E1.
  destruct (is_busy_reread (ws_state w)) as [_ Hl]. rewrite E1 in Hl. cbn [snd] in Hl.
  destruct (reconcile_pump_with_gate _ _ _ _ _ _) as [[[rec published] changed] ra] eqn:Ep.
  destruct (take_watched_ends rec) as [ends rec'].
  destruct (fan_out_ends _ _ _ _ _) as [v|]; [|done]. cbn [mbind option_bind]. intros [= <- <-]. cbn [out_calls].
  intros Hin. apply list_elem_of_In, in_flat_map in Hin as (c & Hc & Hin). apply list_elem_of_In in Hc, Hin.
  apply hubs_call in Hin as Hat.
  exists c. split_and!; [apply Hat..|]. unfold reconcile_pump_with_gate in Ep. cbn [vw_state] in Ep.
  unfold ws_ledger. fold (ws_state w). unfold answers_waiting.
  assert (Had : vr_adapter (enqueue (ws_reconcile w) owed) = vr_adapter (ws_reconcile w)).
  { apply (fold_keeps (fun a b => vr_adapter b = vr_adapter a)); [done|congruence|].
    intros s x. unfold enqueue1. repeat case_match; done. }
  rewrite <- Hl, <- (enqueue_flights (ws_reconcile w) owed).
  destruct gate.
  - rewrite <- Had.
    pose proof (lands_published (vs_ledger s1)
      (default [] (rp_mail (ws_read_adapters w) !! vr_adapter (enqueue (ws_reconcile w) owed)))
      (enqueue (ws_reconcile w) owed) [] false c) as H.
    destruct (fold_left _ _ _) as [[s2 p2] c2]. cbn [fst snd] in H. injection Ep as _ <- _ _.
    by destruct (H Hc) as [[]%elem_of_nil|?].
  - cbn [fold_left] in Ep. injection Ep as _ <- _ _. by apply elem_of_nil in Hc.
Qed.

(** ** The properties of the histories *)

(** C31. Writes leave one after the other, in the order they were queued.  Identities are minted in that
    order; the jobs given to the runner are sorted by them, whatever is still queued comes after
    every one of them, and a write is only ever sent a second time when the runner said that it was
    not started: a press, or a failed write, is never repeated on its own. *)
Theorem writes_leave_in_press_order evs w jobs :
  history evs w jobs ->
  StronglySorted (fun a b => sent_id a < sent_id b \/ (sent_id a = sent_id b /\ refused_in evs (sent_id a))) jobs
  /\ (forall j r, j ∈ jobs -> r ∈ vs_queue (ws_state w) ->
        sent_id j < rq_id r \/ (sent_id j = rq_id r /\ refused_in evs (sent_id j)))
  /\ StronglySorted (fun a b => rq_id a < rq_id b /\ (rq_seq b <> 0 -> rq_seq a < rq_seq b)) (pending (ws_state w)).
Proof.
  intros Hh. destruct (history_keeps _ _ _ Hh) as [_ [Hst _ Ho _ Hq _] _ _ _]. split_and!.
  - by eapply StronglySorted_app_1_l.
  - intros j r Hj Hr. apply Forall_app in Hq as [Hq _]. rewrite Forall_forall in Hq. specialize (Hq j Hj).
    cbn in Hq. rewrite Forall_forall in Hq. by apply Hq.
  - apply (qo_order _ _ _ Hst).
Qed.

(** C30. A write goes out as it was pressed.  Every job the runner is given was put up by one step, and is
    the job of a press made by then, with its item, its mark and its guid: one of the user's, or the
    end of a stream, for the item of a stop the server took, not watched before, whose read-back a
    row answered as watched, with a second server registered.  The step that puts it up is given
    the profile it was pressed under, and the client the registry holds for its server there is the
    one it held when it was pressed, credential included. *)
Theorem a_write_goes_out_as_it_was_pressed evs w jobs j :
  history evs w jobs -> j ∈ jobs ->
  exists past ev r keys adapter, (past ++ [ev]) `prefix_of` evs /\ sent_by past ev j
    /\ j = job_of r keys adapter
    /\ (exists before press, (before ++ [press]) `prefix_of` (past ++ [ev]) /\ press_of before r press)
    /\ sends ev keys (rq_profile r)
    /\ key_of keys (rq_sid r) = Some (wr_key (vj_req j)).
Proof.
  intros Hh Hj. destruct (history_keeps _ _ _ Hh) as [_ _ _ _ Hjobs].
  apply Forall_app in Hjobs as [Hjobs _]. rewrite Forall_forall in Hjobs.
  destruct (Hjobs j Hj) as (past & ev & r & keys & ad & Hp & Hs & -> & Hpr & Hsend & Hk).
  by exists past, ev, r, keys, ad.
Qed.

(** C29. A read-back never undoes a press.  When the read-back publishes the facts of a row an answer
    brought, no write that is still queued or out, and marks watched or unwatched an item, a show or
    a season, covers that row: the answer may be from before the write.  And a read is only asked
    for when no write is queued or out and the network is not held. *)
Theorem read_back_never_undoes_a_press evs w jobs gate clients profile servers w' out :
  history evs w jobs -> step w (Ev_reconcile gate clients profile servers) = Some (w', out) ->
  (forall at_ edit, Hubs_ApplyView at_ edit ∈ out_calls out ->
     exists id rows row, mk_read_landing id (Read (Some rows)) ∈ answers_waiting w /\ row ∈ rows
       /\ at_ = at_of (facts_change (rr_movie row)) /\ edit = edit_of (facts_change (rr_movie row))
       /\ forall r, r ∈ pending (ws_state w) -> rq_seq r <> 0 -> propagates (rq_w r) = true ->
            covers (req_at r) (rr_movie row) = false)
  /\ (forall f, f ∈ vr_flights (ws_reconcile w') -> f ∉ vr_flights (ws_reconcile w) ->
        is_busy (ws_state w) = false /\ ws_network_held w = false).
Proof.
  intros Hh Hstep. destruct (history_keeps _ _ _ Hh) as [_ Hs Hf _ _]. pose proof (so_state _ _ _ Hs) as Hok. split.
  - intros at_ edit Hin.
    destruct (reconcile_published _ _ _ _ _ _ _ _ _ Hstep Hin) as (c & -> & -> & f & id & rows & row & Hfl & Hl & Hrow & -> & Hcov).
    exists id, rows, row. split_and!; [done..|]. intros r Hr Hnz Hw.
    pose proof (qo_stands _ _ _ Hok) as Hst. rewrite Forall_forall in Hst.
    destruct (Hst r Hr Hnz) as (e & He & Hat & Hd & Hle). rewrite <- Hat.
    unfold flights_behind in Hf. rewrite Forall_forall in Hf. destruct (Hf f Hfl) as [_ Hlt].
    rewrite Forall_forall in Hlt. specialize (Hlt r Hr Hnz).
    apply (Hcov (en_at e) (en_edit e)).
    + apply since_elem; [apply Hok|]. exists e. split_and!; [done|lia|done..].
    + destruct (rq_w r) eqn:Ew; [..|done]; unfold req_edit in Hd; rewrite Ew in Hd; by destruct (en_edit e).
  - intros f Hin Hnot. by destruct (step_new_flights _ _ _ _ Hstep f Hin) as [?|[[? ?] _]].
Qed.
