(* ===== verification/ViewProgress.v ===== *)
(** * Watch state: progress

    A burst of writes ends, a mark reaches every copy of its title once, and a read-back that is
    owed stays owed until it is answered. *)

From stdpp Require Import gmap.
From S2P Require Import Prelude Bytes Landing ViewLedger ViewState ViewReconcile ViewEnds ViewTraces.

#[local] Open Scope Z_scope.

(** ** Frames on which every write that is out is answered *)

Section Frames.
Context (keys : ClientKeys) (profile : Z).

#[local] Instance may_go_dec r : Decision (may_go r keys profile).
Proof. unfold may_go. apply _. Defined.

(** The worker answers the write that is out, if there is one, and the store pumps: the write
    answered, and what the other stores are told. *)
Definition answered_frame (w : WatchStores) (d : Done) : option (WatchStores * option (Req * Done) * list Call) :=
  w1 ← match vs_sent (ws_state w) with
       | Some r => fst <$> step w (Ev_answer (vw_adapter (ws_viewstate w)) (view_write_addr (rq_id r)) (Written d))
       | None => Some w
       end;
  '(w2, out) ← step w1 (Ev_pump true keys profile);
  Some (w2, (fun r => (r, d)) <$> vs_sent (ws_state w), out_calls out).

Fixpoint answered_frames (w : WatchStores) (ds : list Done) : option (WatchStores * list (Req * Done) * list Call) :=
  match ds with
  | [] => Some (w, [], [])
  | d :: ds =>
      '(w, answered, calls) ← answered_frame w d;
      '(w, log, calls') ← answered_frames w ds;
      Some (w, option_list answered ++ log, calls ++ calls')
  end.

(** What the burst has still to have answered: the write that is out, and those queued that may
    still go. *)
Definition outgoing (s : ViewStateState) : list Req :=
  option_list (vs_sent s) ++ filter (fun r => may_go r keys profile) (vs_queue s).

(** An answer owes the hubs a refresh, unless it is of the fan-out of a stream's end and reached no
    copy. *)
Definition owes_refresh (rd : Req * Done) : bool :=
  negb (rq_origin_done (fst rd) && bool_decide (dn_also (snd rd) = [])).

Definition is_refresh (c : Call) : bool :=
  match c with Hubs_RefetchHubs | Browse_HubsInvalidateAll => true | _ => false end.
Definition refreshes (calls : list Call) : list Call := List.filter is_refresh calls.
Definition the_refresh : list Call := [Hubs_RefetchHubs; Browse_HubsInvalidateAll].

(** Frames until the queue is empty. *)
Definition frames_left (s : ViewStateState) : Z :=
  2 * Z.of_nat (List.length (pending s)) + Z.max 0 (vs_retry_cd s) - (if is_some (vs_sent s) then 1 else 0).

Lemma pending_length s : List.length (pending s) = ((if is_some (vs_sent s) then 1 else 0) + List.length (vs_queue s))%nat.
Proof. unfold pending. rewrite length_app. by destruct (vs_sent s). Qed.

(** What the rest of a pump sees of a state. *)
Definition same_queue (s s' : ViewStateState) : Prop :=
  vs_queue s' = vs_queue s /\ vs_sent s' = vs_sent s /\ vs_retry_cd s' = vs_retry_cd s
  /\ vs_hold_refresh s' = vs_hold_refresh s.

Lemma refreshes_app a b : refreshes (a ++ b) = refreshes a ++ refreshes b.
Proof. apply List.filter_app. Qed.

Lemma publish_refreshes c : refreshes (publish_view c) = [].
Proof. unfold publish_view. cbv zeta. by destruct (bool_decide _). Qed.

Lemma copies_same_queue r copies : forall s calls,
  let '(s', calls') := fold_left (publish_copy r) copies (s, calls) in
  same_queue s s' /\ vs_want_hubs s' = vs_want_hubs s /\ refreshes calls' = refreshes calls.
Proof.
  induction copies as [|c copies IH]; intros s calls; [done|]. cbn [fold_left publish_copy].
  match goal with |- context [fold_left _ copies (?s1, ?c1)] => specialize (IH s1 c1) end.
  destruct (fold_left _ copies _) as [s' calls']. destruct IH as ((?&?&?&?) & ? & Hc).
  rewrite Hc, refreshes_app, publish_refreshes, app_nil_r. done.
Qed.

Lemma land_written_spec s r d : let '(s', calls) := land_written s r d in
  same_queue s s' /\ vs_want_hubs s' = vs_want_hubs s || owes_refresh (r, d) /\ refreshes calls = [].
Proof.
  unfold land_written. pose proof (copies_same_queue r (dn_also d)
    (s <| vs_ledger := if dn_ok d then landed (vs_ledger s) (rq_seq r) else retire (vs_ledger s) (rq_seq r) |>) []) as H.
  destruct (fold_left _ _ _) as [s1 calls]. destruct H as ((?&?&?&?) & Hw & Hc).
  destruct (propagates _); cbn; rewrite Hw; done.
Qed.

Lemma none_goes (l : list Req) : Forall (fun r => ~ may_go r keys profile) l ->
  filter (fun r => may_go r keys profile) l = [].
Proof. induction 1 as [|r l Hr _ IH]; [done|]. by rewrite filter_cons_False. Qed.

(** A kick with no write out, once the wait is over, sends the next write that may go, or empties
    the queue. *)
Lemma kick_progress s adapter : vs_sent s = None -> vs_retry_cd s <= 0 ->
  let s' := kick s adapter keys profile in
  vs_retry_cd s' = vs_retry_cd s /\ vs_hold_refresh s' = vs_hold_refresh s /\ vs_want_hubs s' = vs_want_hubs s
  /\ outgoing s' = outgoing s
  /\ ((vs_sent s' = None /\ vs_queue s' = [])
      \/ (is_some (vs_sent s') = true /\ (List.length (vs_queue s') < List.length (vs_queue s))%nat)).
Proof.
  intros Hs Hcd. unfold kick, outgoing. rewrite Hs. cbn [is_some orb]. rewrite (proj2 (Z.ltb_ge 0 _)) by lia.
  destruct (kick_loop_kicked (vs_queue s) adapter keys profile s) as [Hno|dropped r q Hq Hno Hgo]; cbn.
  - rewrite Hs, (none_goes _ Hno). split_and!; [done..|]. by left.
  - rewrite Hq, filter_app, (none_goes _ Hno), filter_cons_True by done.
    split_and!; [done..|]. right. split; [done|]. rewrite length_app. cbn. lia.
Qed.

Lemma retry_tick_spec s : let '(due, s') := retry_tick s in
  due = (vs_retry_cd s <=? 1) /\ vs_retry_cd s' = (if 0 <? vs_retry_cd s then vs_retry_cd s - 1 else vs_retry_cd s)
  /\ vs_queue s' = vs_queue s /\ vs_sent s' = vs_sent s /\ vs_hold_refresh s' = vs_hold_refresh s
  /\ vs_want_hubs s' = vs_want_hubs s.
Proof. unfold retry_tick. by destruct (0 <? vs_retry_cd s). Qed.

(** The tail of a pump: the kick, then the refresh at the end of the burst. *)
Definition pump_tail (s : ViewStateState) (due : bool) (adapter : nat) (calls : list Call)
  : ViewStateState * list Call :=
  let s := if due then kick s adapter keys profile else s in
  if is_busy s || vs_hold_refresh s then (s, calls)
  else if vs_want_hubs s
  then (s <| vs_want_hubs := false |>, calls ++ [Hubs_RefetchHubs; Browse_HubsInvalidateAll; Idle_invalidate])
  else (s, calls).

(** What a frame leaves of the refresh: told exactly when it is owed, nothing is out or queued any
    more, and the player does not hold it back; owed on otherwise. *)
Definition refreshed (owed : bool) (s' : ViewStateState) (calls : list Call) : Prop :=
  let kept := is_busy s' || vs_hold_refresh s' in
  vs_want_hubs s' = owed && kept
  /\ refreshes calls = if owed && negb kept then the_refresh else [].

Lemma pump_tail_progress s due adapter calls n :
  vs_sent s = None -> refreshes calls = [] -> (due = true -> vs_retry_cd s <= 0) ->
  (due = true -> 2 * Z.of_nat (List.length (vs_queue s)) <= n + 1) ->
  (due = false -> 2 * Z.of_nat (List.length (vs_queue s)) + Z.max 0 (vs_retry_cd s) <= n) -> 0 <= n ->
  let '(s', calls') := pump_tail s due adapter calls in
  frames_left s' <= n /\ vs_hold_refresh s' = vs_hold_refresh s /\ outgoing s' = outgoing s
  /\ (is_busy s = false -> is_busy s' = false) /\ refreshed (vs_want_hubs s) s' calls'.
Proof.
  intros Hs Hcalls Hcd Hn Hn' Hn0. unfold pump_tail. cbv zeta.
  set (s1 := if due then kick s adapter keys profile else s).
  assert (H1 : frames_left s1 <= n /\ vs_hold_refresh s1 = vs_hold_refresh s /\ outgoing s1 = outgoing s
               /\ vs_want_hubs s1 = vs_want_hubs s /\ (is_busy s = false -> is_busy s1 = false)).
  { unfold s1, frames_left. destruct due.
    - destruct (kick_progress s adapter Hs (Hcd eq_refl)) as (Hc & Hh & Hw & Ho & Hk). specialize (Hcd eq_refl).
      specialize (Hn eq_refl). split_and!; [|done..|].
      + rewrite pending_length, Hc. destruct Hk as [[-> ->]|[-> Hlt]]; cbn -[Z.mul Z.max]; lia.
      + unfold is_busy at 2. destruct Hk as [[-> ->]|[_ Hlt]]; [done|]. intros Hb.
        apply orb_false_iff in Hb as [Hb%negb_false_iff%bool_decide_eq_true _]. rewrite Hb in Hlt. cbn in Hlt. lia.
    - rewrite pending_length, Hs. specialize (Hn' eq_refl). cbn -[Z.mul Z.max]. split_and!; [lia|done..]. }
  destruct H1 as (Hf & Hh & Ho & Hw & Hbusy). rewrite <- Hw. unfold refreshed.
  destruct (is_busy s1) eqn:Eb; cbn [orb].
  { rewrite Eb. cbn. by rewrite andb_true_r, andb_false_r. }
  destruct (vs_hold_refresh s1) eqn:Eh.
  { rewrite Eb, Eh. cbn. by rewrite andb_true_r, andb_false_r. }
  destruct (vs_want_hubs s1) eqn:Ew.
  - unfold is_busy in *. cbn. rewrite Eb, Eh, refreshes_app, Hcalls. split_and!; [done|congruence|done..].
  - rewrite Eb, Eh, Ew, Hcalls. by split_and!.
Qed.

Lemma pump_progress s adapter a d :
  (forall r, vs_sent s = Some r -> ap_mail a !! adapter = Some (mk_completion (rq_id r) (Written d))) ->
  exists s' calls a', pump_with_gate s adapter true keys profile a = Some (s', calls, a')
    /\ frames_left s' <= Z.max 0 (frames_left s - 1) /\ vs_hold_refresh s' = vs_hold_refresh s
    /\ option_list (vs_sent s) ++ outgoing s' = outgoing s /\ (is_busy s = false -> is_busy s' = false)
    /\ refreshed (vs_want_hubs s || existsb owes_refresh (option_list ((fun r => (r, d)) <$> vs_sent s))) s' calls.
Proof.
  intros Hmail. unfold pump_with_gate. pose proof (retry_tick_spec s) as Ht.
  destruct (retry_tick s) as [due s1]. destruct Ht as (Hdue & Hcd & Hq & Hs & Hh & Hw).
  assert (H2 : exists c s2 calls a', take_completion s1 adapter true a = (c, a')
    /\ match c with
       | None => Some (s1, [])
       | Some c => r ← vs_sent s1;
           match cp_outcome c with
           | NotStarted => Some (restart_refused (s1 <| vs_sent := None |>) r keys profile, [])
           | Written done => Some (land_written (s1 <| vs_sent := None |>) r done)
           end
       end = Some (s2, calls)
    /\ vs_sent s2 = None /\ vs_queue s2 = vs_queue s /\ vs_retry_cd s2 = vs_retry_cd s1
    /\ vs_hold_refresh s2 = vs_hold_refresh s /\ refreshes calls = []
    /\ vs_want_hubs s2 = vs_want_hubs s || existsb owes_refresh (option_list ((fun r => (r, d)) <$> vs_sent s))).
  { unfold take_completion. cbn [negb]. rewrite Hs. destruct (vs_sent s) as [r|] eqn:Er.
    - rewrite (Hmail r eq_refl). cbn [cp_id]. rewrite Z.eqb_refl.
      pose proof (land_written_spec (s1 <| vs_sent := None |>) r d) as Hl.
      destruct (land_written _ r d) as [s2 calls] eqn:El. destruct Hl as ((Hq2 & Hs2 & Hc2 & Hh2) & Hw2 & Hcs).
      eexists _, s2, calls, _. split; [reflexivity|]. cbn [mbind option_bind cp_outcome]. rewrite El.
      split_and!; [done|done|by rewrite Hq2|done|by rewrite Hh2|done|]. rewrite Hw2. cbn. by rewrite Hw, orb_false_r.
    - destruct (ap_mail a !! adapter); (eexists None, s1, [], _; split; [reflexivity|]);
        (split_and!; [congruence..|done|cbn; by rewrite Hw, orb_false_r]). }
  destruct H2 as (c & s2 & calls & a' & -> & -> & Hs2 & Hq2 & Hc2 & Hh2 & Hcs & Hw2). cbn [mbind option_bind].
  assert (Htail : let '(s', calls') := pump_tail s2 due adapter calls in
    frames_left s' <= Z.max 0 (frames_left s - 1) /\ vs_hold_refresh s' = vs_hold_refresh s2
    /\ outgoing s' = outgoing s2 /\ (is_busy s2 = false -> is_busy s' = false)
    /\ refreshed (vs_want_hubs s2) s' calls').
  { apply pump_tail_progress; [done|done| | | |lia].
    - intros ->. symmetry in Hdue. apply Z.leb_le in Hdue. rewrite Hc2, Hcd. destruct (Z.ltb_spec 0 (vs_retry_cd s)); lia.
    - intros _. rewrite Hq2. unfold frames_left. rewrite pending_length. destruct (is_some _); lia.
    - intros ->. symmetry in Hdue. apply Z.leb_gt in Hdue. rewrite Hq2, Hc2, Hcd. unfold frames_left.
      rewrite pending_length. rewrite (proj2 (Z.ltb_lt _ _)) by lia. destruct (is_some _); lia. }
  destruct (pump_tail s2 due adapter calls) as [s' calls'] eqn:Et. destruct Htail as (Hf & Hhold & Ho & Hbusy & Hr).
  exists s', calls', a'. split.
  { unfold pump_tail in Et. cbv zeta in Et. destruct (is_busy _ || _); [by injection Et as <- <-|].
    destruct (vs_want_hubs (if due then _ else _)); by injection Et as <- <-. }
  split_and!; [done|congruence| | |by rewrite <- Hw2].
  - rewrite Ho. unfold outgoing. by rewrite Hs2, Hq2.
  - unfold is_busy at 1. intros Hb. apply Hbusy. unfold is_busy. rewrite Hs2, Hq2, orb_false_r.
    by apply orb_false_iff in Hb as [? _].
Qed.

Lemma answered_frame_progress w d : exists w' answered calls, answered_frame w d = Some (w', answered, calls)
  /\ frames_left (ws_state w') <= Z.max 0 (frames_left (ws_state w) - 1)
  /\ vs_hold_refresh (ws_state w') = vs_hold_refresh (ws_state w)
  /\ (option_list answered).*1 ++ outgoing (ws_state w') = outgoing (ws_state w)
  /\ (is_busy (ws_state w) = false -> is_busy (ws_state w') = false)
  /\ refreshed (vs_want_hubs (ws_state w) || existsb owes_refresh (option_list answered)) (ws_state w') calls.
Proof.
  unfold answered_frame.
  assert (H : exists w1, match vs_sent (ws_state w) with
      | Some r => fst <$> step w (Ev_answer (vw_adapter (ws_viewstate w)) (view_write_addr (rq_id r)) (Written d))
      | None => Some w end = Some w1 /\ ws_viewstate w1 = ws_viewstate w
    /\ forall r, vs_sent (ws_state w) = Some r ->
         ap_mail (ws_adapters w1) !! vw_adapter (ws_viewstate w) = Some (mk_completion (rq_id r) (Written d))).
  { destruct (vs_sent (ws_state w)) as [r|]; cbn; [|by eexists].
    eexists. split; [reflexivity|]. split; [done|]. intros r' [= <-]. cbn. by rewrite lookup_insert_eq. }
  destruct H as (w1 & -> & Hv & Hm). cbn [mbind option_bind step]. unfold viewstate_pump, store_pump.
  rewrite Hv. destruct (pump_progress (ws_state w) (vw_adapter (ws_viewstate w)) (ws_adapters w1) d Hm)
    as (s' & calls & a' & Hp & Hf & Hh & Ho & Hb & Hr). unfold ws_state in Hp. rewrite Hp. cbn [mbind option_bind].
  eexists _, _, _. split; [reflexivity|]. cbn [out_calls].
  match goal with |- frames_left (ws_state ?x) <= _ /\ _ =>
    assert (Hx : ws_state x = s') by (unfold ws_state; cbn; by destruct (negb _)); rewrite !Hx end.
  split_and!; [done..| |done|done]. rewrite <- Ho. by destruct (vs_sent _).
Qed.

Lemma not_busy_outgoing s : is_busy s = false -> outgoing s = [].
Proof.
  unfold is_busy, outgoing. destruct (vs_sent s); cbn; [by rewrite orb_true_r|].
  case_bool_decide as H; [by rewrite H|done].
Qed.

(** The frames of a burst: what is answered, in order, and the refresh. *)
Lemma answered_frames_progress ds : forall w, exists w' log calls,
  answered_frames w ds = Some (w', log, calls)
  /\ frames_left (ws_state w') <= Z.max 0 (frames_left (ws_state w) - Z.of_nat (List.length ds))
  /\ vs_hold_refresh (ws_state w') = vs_hold_refresh (ws_state w)
  /\ log.*1 ++ outgoing (ws_state w') = outgoing (ws_state w)
  /\ (is_busy (ws_state w) = false -> is_busy (ws_state w') = false)
  /\ let owed := vs_want_hubs (ws_state w) || existsb owes_refresh log in
     (ds <> [] -> refreshed owed (ws_state w') calls)
     /\ (ds = [] -> refreshes calls = []).
Proof.
  induction ds as [|d ds IH]; intros w; cbn [answered_frames List.length].
  - exists w, [], []. split_and!; [done|lia|done..].
  - destruct (answered_frame_progress w d) as (w1 & answered & calls1 & -> & Hf & Hh & Ho & Hb & Hw1 & Hr1). cbn [mbind option_bind].
    destruct (IH w1) as (w' & log & calls & Ha & Hf' & Hh' & Ho' & Hb' & Hrest & Hnone). rewrite Ha. cbn [mbind option_bind].
    exists w', (option_list answered ++ log), (calls1 ++ calls). split_and!; [done|lia|congruence| |auto| |done].
    { by rewrite fmap_app, <- app_assoc, Ho'. }
    intros _. rewrite existsb_app, orb_assoc.
    set (owed1 := vs_want_hubs (ws_state w) || _) in *. unfold refreshed in *. rewrite refreshes_app, Hr1.
    destruct ds as [|d' ds].
    { injection Ha as <- <- <-. cbn [existsb]. rewrite app_nil_r, orb_false_r. split; [done|done]. }
    destruct (Hrest ltac:(done)) as [Hw' ->]. rewrite Hw', Hw1. clear Hw' Hw1.
    destruct owed1; [|done]. cbn [andb orb]. rewrite Hh', Hh.
    destruct (vs_hold_refresh (ws_state w)); [by rewrite !orb_true_r|]. rewrite !orb_false_r.
    destruct (is_busy (ws_state w1)) eqn:Eb; [done|]. cbn [orb negb].
    rewrite (not_busy_outgoing _ Eb) in Ho'. apply app_nil in Ho' as [Hlog _]. apply fmap_nil_inv in Hlog as ->.
    cbn [existsb andb]. by rewrite (Hb' eq_refl).
Qed.
End Frames.

(** C34. A burst ends.  Whatever is queued or out, if the worker answers each write that goes out, taken
    or refused by the server, then after two frames per write and the retry wait no step has
    panicked and nothing is queued or out any more: the write that was out and each queued one that
    may still go were answered, once and in order.  And the hubs were asked to fetch again, once,
    exactly when a refresh was owed before or one of those answers owed it; while the player holds
    the refresh back it is not asked for, and stays owed. *)
Theorem a_burst_ends keys profile w ds :
  frames_left (ws_state w) < Z.of_nat (List.length ds) ->
  exists w' log calls, answered_frames keys profile w ds = Some (w', log, calls)
    /\ pending (ws_state w') = []
    /\ log.*1 = outgoing keys profile (ws_state w)
    /\ let owed := vs_want_hubs (ws_state w) || existsb owes_refresh log in
       if vs_hold_refresh (ws_state w)
       then vs_want_hubs (ws_state w') = owed /\ refreshes calls = []
       else vs_want_hubs (ws_state w') = false /\ refreshes calls = if owed then the_refresh else [].
Proof.
  intros Hlen.
  destruct (answered_frames_progress keys profile ds w) as (w' & log & calls & Ha & Hf & Hh & Ho & _ & Hr & _).
  assert (Hp : pending (ws_state w') = []).
  { unfold frames_left at 1 in Hf. rewrite pending_length in Hf. unfold pending.
    destruct (vs_sent (ws_state w')); cbn [is_some] in Hf; [lia|].
    destruct (vs_queue (ws_state w')); [done|]. cbn in Hf. lia. }
  assert (Hidle : is_busy (ws_state w') = false).
  { unfold pending in Hp. unfold is_busy. apply app_nil in Hp as [Hs ->]. by destruct (vs_sent (ws_state w')). }
  exists w', log, calls. split_and!; [done|done| |].
  - by rewrite (not_busy_outgoing _ _ _ Hidle), app_nil_r in Ho.
  - destruct Hr as [Hw Hc].
    { intros ->. cbn [List.length] in Hlen. unfold frames_left in Hlen. rewrite pending_length in Hlen.
      destruct (is_some _); lia. }
    cbv zeta. rewrite Hidle, Hh in Hw, Hc. cbn [orb] in Hw, Hc. rewrite Hw, Hc.
    destruct (vs_hold_refresh (ws_state w)); cbn [negb]; by rewrite ?andb_true_r, ?andb_false_r.
Qed.

(** ** The fan-out *)

Lemma same_item_spec a b : same_item a b = true <-> a = b.
Proof.
  destruct a as [s k], b as [s' k']. unfold same_item. cbn. rewrite andb_true_iff, Z.eqb_eq, bool_decide_eq_true.
  naive_solver.
Qed.

Lemma listed_spec k l : listed k l = true <-> k ∈ l.
Proof.
  unfold listed. rewrite existsb_exists. split.
  - intros (x & Hx & ->%same_item_spec). by apply list_elem_of_In.
  - intros Hk. exists k. split; [by apply list_elem_of_In|by apply same_item_spec].
Qed.

Lemma add_target_spec origin out p :
  add_target origin out p = if decide (p ∈ out \/ p = origin) then out else out ++ [p].
Proof.
  unfold add_target. assert (H : existsb (fun e => same_item e p) out || same_item p origin = true <-> p ∈ out \/ p = origin).
  { rewrite orb_true_iff, same_item_spec. apply or_iff_compat_r, listed_spec. }
  destruct (existsb _ _ || _); case_decide as Hd; [done|by destruct (Hd (proj1 H eq_refl))|by apply H in Hd|done].
Qed.

(** The targets so far, of the pairs seen so far. *)
Definition targets_of (origin : Key) (pairs : list Key) (out : list Key) : Prop :=
  NoDup out /\ forall k, k ∈ out <-> k ∈ pairs /\ k <> origin.

Lemma add_target_ok origin pairs out p : targets_of origin pairs out ->
  targets_of origin (pairs ++ [p]) (add_target origin out p).
Proof.
  intros [Hnd Hin]. rewrite add_target_spec. case_decide as Hd.
  - split; [done|]. intros k. rewrite Hin, elem_of_app, list_elem_of_singleton. split; [intuition|].
    intros [[Hk| ->] Ho]; [done|]. destruct Hd as [Hd| ->]; [by apply Hin|done].
  - split.
    + apply NoDup_app. split_and!; [done| |apply NoDup_singleton].
      intros x Hx ->%list_elem_of_singleton. naive_solver.
    + intros k. rewrite !elem_of_app, !list_elem_of_singleton, Hin. split; [|naive_solver].
      intros [[? ?]| ->]; [auto|]. naive_solver.
Qed.

Lemma targets_fold origin sid ks : forall pairs out, targets_of origin pairs out ->
  targets_of origin (pairs ++ ((fun k => (sid, k)) <$> ks)) (fold_left (fun out k => add_target origin out (sid, k)) ks out).
Proof.
  induction ks as [|k ks IH]; intros pairs out H; cbn [fold_left]; [by rewrite app_nil_r|]. csimpl.
  change ((sid, k) :: ((fun k => (sid, k)) <$> ks)) with ([(sid, k)] ++ ((fun k => (sid, k)) <$> ks)).
  rewrite app_assoc. by apply IH, add_target_ok.
Qed.

Lemma fanout_fold origin answers : forall pairs out, targets_of origin pairs out ->
  targets_of origin (pairs ++ flat_map (fun a => (fun k => (fst a, k)) <$> default [] (snd a)) answers)
    (fold_left (fun out answer => fold_left (fun out k => add_target origin out (fst answer, k)) (default [] (snd answer)) out)
       answers out).
Proof.
  induction answers as [|a answers IH]; intros pairs out H; cbn [fold_left flat_map]; [by rewrite app_nil_r|].
  rewrite app_assoc. by apply IH, targets_fold.
Qed.

(** A mark reaches every copy of its title once.  The worker asks each source which of its items
    carry the title's identity; the copies it then writes are exactly the items the sources named,
    the item that was pressed excepted, each once, whatever the sources repeat and in whatever order
    they answer; a source that did not answer adds nothing. *)
Theorem a_mark_reaches_each_copy_once origin answers :
  NoDup (fanout_targets origin answers)
  /\ forall sid rk, (sid, rk) ∈ fanout_targets origin answers <->
       (sid, rk) <> origin /\ exists ks, (sid, Some ks) ∈ answers /\ rk ∈ ks.
Proof.
  destruct (fanout_fold origin answers [] []) as [Hnd Hin].
  { split; [constructor|]. intros k. split; [by intros ?%elem_of_nil|by intros [?%elem_of_nil _]]. }
  split; [exact Hnd|]. intros sid rk. unfold fanout_targets. rewrite Hin. cbn [app].
  assert (Hex : (sid, rk) ∈ flat_map (fun a => (fun k => (fst a, k)) <$> default [] (snd a)) answers
                <-> exists ks, (sid, Some ks) ∈ answers /\ rk ∈ ks).
  { rewrite list_elem_of_In, in_flat_map. split.
    - intros ([s o] & Ha & Hk). apply list_elem_of_In in Ha, Hk.
      apply list_elem_of_fmap in Hk as (k & [= -> ->] & Hk). destruct o as [ks|]; [|by apply elem_of_nil in Hk]. by exists ks.
    - intros (ks & Ha & Hk). exists (sid, Some ks). split; [by apply list_elem_of_In|].
      apply list_elem_of_In, list_elem_of_fmap. by exists rk. }
  rewrite Hex. tauto.
Qed.

(** ** Owed reads *)

Definition in_queue (s : ViewReconcileStore) (k : Key) : Prop := k ∈ vr_pending s \/ k ∈ vr_pending_parents s.

(** A read of [k] is queued or out. *)
Definition owed (s : ViewReconcileStore) (k : Key) : Prop := in_queue s k \/ is_out s k = true.

(** One of the answers is to a read of [k]. *)
Definition answered (fl : list Flight) (landings : list ReadLanding) (k : Key) : Prop :=
  exists f rows, f ∈ fl /\ asks f k = true /\ mk_read_landing (fl_id f) (Read rows) ∈ landings.

Lemma asks_spec f k : asks f k = true <-> fl_sid f = fst k /\ snd k ∈ fl_keys f.
Proof.
  destruct k as [sid rk]. unfold asks. cbn [fst snd]. rewrite andb_true_iff, Z.eqb_eq, existsb_exists. split.
  - intros [Hs (x & Hx & [= _ ->]%same_item_spec)]. split; [done|by apply list_elem_of_In].
  - intros [<- Hk]. split; [done|]. exists rk. split; [by apply list_elem_of_In|by apply same_item_spec].
Qed.

Lemma is_out_spec s k : is_out s k = true <-> exists f, f ∈ vr_flights s /\ asks f k = true.
Proof.
  unfold is_out. rewrite existsb_exists. split; intros (f & Hf & Ha); exists f; split; try done; by apply list_elem_of_In.
Qed.

(** The queues only grow. *)
Definition grows (s s' : ViewReconcileStore) : Prop := forall k, in_queue s k -> in_queue s' k.

Lemma grows_refl s : grows s s.
Proof. by intros k. Qed.

Lemma grows_trans a b c : grows a b -> grows b c -> grows a c.
Proof. intros Hab Hbc k Hk. auto. Qed.

Lemma fold_grows {A} (g : ViewReconcileStore -> A -> ViewReconcileStore) l s :
  (forall s x, grows s (g s x)) -> grows s (fold_left g l s).
Proof. intros Hg. apply fold_keeps; eauto using grows_refl, grows_trans. Qed.

Lemma fold_adds {A} (g : ViewReconcileStore -> A -> ViewReconcileStore) (h : A -> Key) l :
  (forall s x, grows s (g s x)) -> (forall s x, in_queue (g s x) (h x)) ->
  forall s x, x ∈ l -> in_queue (fold_left g l s) (h x).
Proof.
  intros Hg Hh. induction l as [|y l IH]; intros s x Hx; [by apply elem_of_nil in Hx|]. cbn.
  apply elem_of_cons in Hx as [->|Hx]; [|auto]. apply (fold_grows g l); [done|apply Hh].
Qed.

Ltac queue_cases :=
  repeat case_match;
  repeat match goal with H : listed _ _ = true |- _ => apply listed_spec in H end;
  unfold grows, in_queue; cbn; intros; rewrite ?elem_of_app, ?list_elem_of_singleton; tauto.

Lemma requeue_leaf_grows sid s rk : grows s (requeue_leaf sid s rk).
Proof. unfold requeue_leaf. queue_cases. Qed.

Lemma requeue_leaf_adds sid s rk : in_queue (requeue_leaf sid s rk) (sid, rk).
Proof. unfold requeue_leaf. queue_cases. Qed.

Lemma requeue_parent_grows sid again s rk : grows s (requeue_parent sid again s rk).
Proof. unfold requeue_parent. queue_cases. Qed.

Lemma requeue_parent_adds sid again s rk : in_queue (requeue_parent sid again s rk) (sid, rk).
Proof.
  unfold requeue_parent. destruct (listed _ _ || listed _ _) eqn:E; [|queue_cases].
  apply orb_true_iff in E as [E|E]; apply listed_spec in E; unfold in_queue; auto.
Qed.

Lemma requeue_ok s f : grows s (requeue_unstarted s f)
  /\ forall rk, rk ∈ fl_keys f -> in_queue (requeue_unstarted s f) (fl_sid f, rk).
Proof.
  unfold requeue_unstarted. destruct (take_asked_again s (fl_sid f) (fl_keys f)) as [again s1] eqn:E.
  injection E as Hag <-. cbv zeta. set (n := (List.length (fl_keys f) - List.length (fl_parents f))%nat).
  match goal with |- context [fold_left (requeue_parent _ _) _ (fold_left (requeue_leaf _) _ ?x)] => set (s1 := x) end.
  set (s2 := fold_left (requeue_leaf (fl_sid f)) (take n (fl_keys f)) s1).
  assert (Hg2 : grows s1 s2) by (apply fold_grows, requeue_leaf_grows).
  assert (Hg3 : grows s2 (fold_left (requeue_parent (fl_sid f) again) (drop n (fl_keys f)) s2))
    by (apply fold_grows, requeue_parent_grows).
  split.
  - intros k Hk. by apply Hg3, Hg2.
  - intros rk Hrk. rewrite <- (take_drop n (fl_keys f)) in Hrk. apply elem_of_app in Hrk as [Hrk|Hrk].
    + apply Hg3. apply (fold_adds _ (fun rk => (fl_sid f, rk))); [apply requeue_leaf_grows|apply requeue_leaf_adds|done].
    + apply (fold_adds _ (fun rk => (fl_sid f, rk))); [apply requeue_parent_grows|apply requeue_parent_adds|done].
Qed.

Definition grows_dirty (s s' : ViewReconcileStore) : Prop := grows s s' /\ vr_dirty s' = vr_dirty s.

Lemma grows_dirty_refl s s' : vr_pending s' = vr_pending s -> vr_pending_parents s' = vr_pending_parents s ->
  vr_dirty s' = vr_dirty s -> grows_dirty s s'.
Proof. intros Hp Hq Hd. split; [|done]. intros k. unfold in_queue. by rewrite Hp, Hq. Qed.

Lemma owe_parent_grows f q s up : grows_dirty s (owe_parent f q s up).
Proof.
  split.
  - unfold owe_parent. cbv zeta. destruct (_ || _); [apply grows_refl|]. destruct (_ || _); [apply grows_refl|].
    destruct q; queue_cases.
  - unfold owe_parent. cbv zeta. destruct (_ || _); [done|]. destruct (_ || _); [done|]. by destruct q.
Qed.

Lemma settle_grows f m s : grows_dirty s (settle_candidate f m s).
Proof.
  unfold settle_candidate. destruct (list_find _ _) as [[i [k b]]|]; [|by apply grows_dirty_refl].
  destruct (pm_watched m); by apply grows_dirty_refl.
Qed.

Lemma owe_page_grows s k : grows_dirty s (owe_page s k).
Proof. unfold owe_page. destruct (listed _ _); by apply grows_dirty_refl. Qed.

Lemma grows_dirty_trans a b c : grows_dirty a b -> grows_dirty b c -> grows_dirty a c.
Proof. intros [Ha Hb] [Hc Hd]. split; [by eapply grows_trans|congruence]. Qed.

Lemma land_row_grows f quiet over s p row : grows_dirty s (fst (land_row f quiet over (s, p) row)).
Proof.
  unfold land_row. destruct (negb _); [by apply grows_dirty_refl|]. destruct (existsb _ over); [by apply grows_dirty_refl|]. cbv zeta. cbn [fst].
  set (s1 := if existsb _ (fl_parents f) then s else _).
  assert (H1 : grows_dirty s s1).
  { unfold s1. destruct (existsb _ _); [by apply grows_dirty_refl|].
    apply (fold_keeps grows_dirty); [intros; by apply grows_dirty_refl|apply grows_dirty_trans|intros; apply owe_parent_grows]. }
  pose proof (settle_grows f (rr_movie row) s1) as H2.
  destruct (listed _ quiet); [by eapply grows_dirty_trans|].
  eapply grows_dirty_trans; [by eapply grows_dirty_trans|apply owe_page_grows].
Qed.

Lemma land_rows_grows f quiet over rows : forall s p,
  grows_dirty s (fst (fold_left (land_row f quiet over) rows (s, p))).
Proof.
  induction rows as [|row rows IH]; intros s p; cbn [fold_left]; [by apply grows_dirty_refl|].
  pose proof (land_row_grows f quiet over s p row) as H.
  destruct (land_row f quiet over (s, p) row) as [s1 p1]. eapply grows_dirty_trans; [exact H|apply IH].
Qed.

(** A read of [k] is queued, or out; if it was asked for again meanwhile, that is remembered. *)
Definition held (again : Prop) (s : ViewReconcileStore) (k : Key) : Prop :=
  in_queue s k \/ (is_out s k = true /\ (again -> k ∈ vr_dirty s)).

Lemma asked_in_asks f k : asked_in (fl_sid f) (fl_keys f) k = asks f k.
Proof. unfold asked_in, asks. by rewrite Z.eqb_sym. Qed.

Lemma land_read_held ledger s f rows :
  let s' := fst (land_read ledger s f rows) in
  grows s s' /\ (forall k, k ∈ vr_dirty s -> if asks f k then in_queue s' k else k ∈ vr_dirty s').
Proof.
  unfold land_read. cbv zeta.
  match goal with |- context [fold_left (land_row f ?q ?o) ?r (?s0, [])] =>
    pose proof (land_rows_grows f q o r s0 []) as H; destruct (fold_left (land_row f q o) r (s0, [])) as [s1 p1] end.
  cbn [fst] in *. destruct H as [Hg Hd]. cbn in Hd. split.
  - intros k Hk. destruct (Hg k Hk) as [H|H]; [left|by right]. cbn. apply elem_of_app. by left.
  - intros k Hk. destruct (asks f k) eqn:Ea.
    + left. cbn. apply elem_of_app. right. apply list_elem_of_In, filter_In. rewrite asked_in_asks.
      split; [|done]. apply list_elem_of_In. by rewrite Hd.
    + cbn. apply list_elem_of_In, filter_In. rewrite asked_in_asks, Ea. split; [|done]. apply list_elem_of_In. by rewrite Hd.
Qed.

Lemma requeue_dirty s f k : k ∈ vr_dirty s -> asks f k = false -> k ∈ vr_dirty (requeue_unstarted s f).
Proof.
  intros Hk Ha. unfold requeue_unstarted. cbn -[fold_left requeue_leaf requeue_parent].
  match goal with |- k ∈ vr_dirty (fold_left ?g ?l (fold_left ?g' ?l' ?s0)) =>
    assert (H : vr_dirty (fold_left g l (fold_left g' l' s0)) = vr_dirty s0) end.
  { transitivity (vr_dirty (fold_left (requeue_leaf (fl_sid f))
      (take (List.length (fl_keys f) - List.length (fl_parents f)) (fl_keys f))
      (s <| vr_dirty := List.filter (fun k0 => negb (asked_in (fl_sid f) (fl_keys f) k0)) (vr_dirty s) |>))).
    - apply (fold_keeps (fun a b => vr_dirty b = vr_dirty a)); [done|congruence|].
      intros s' x. unfold requeue_parent. repeat case_match; done.
    - apply (fold_keeps (fun a b => vr_dirty b = vr_dirty a)); [done|congruence|].
      intros s' x. unfold requeue_leaf. by case_match. }
  rewrite H. cbn. apply list_elem_of_In, filter_In. rewrite asked_in_asks, Ha. split; [|done]. by apply list_elem_of_In.
Qed.

Lemma land1_held again ledger s p c landing k : (again \/ ~ again) -> held again s k ->
  held again (fst (fst (land1 ledger (s, p, c) landing))) k \/ (~ again /\ answered (vr_flights s) [landing] k).
Proof.
  intros Hdec Hk. unfold land1. destruct (list_find _ _) as [[i f]|] eqn:E; [|by left]. cbv zeta.
  apply list_find_Some in E as (Hi & Hid & _). set (s0 := s <| vr_flights := delete i (vr_flights s) |>).
  assert (Hf : f ∈ vr_flights s) by (by eapply list_elem_of_lookup_2).
  (* every read but this one is still out *)
  assert (Hout : is_out s k = true -> asks f k = true \/ (asks f k = false /\ is_out s0 k = true)).
  { rewrite !is_out_spec. intros (g & Hg & Ha). destruct (asks f k) eqn:Eq; [by left|right]. split; [done|].
    exists g. split; [|done]. cbn. rewrite (delete_Permutation _ _ _ Hi) in Hg.
    apply elem_of_cons in Hg as [->|Hg]; [congruence|done]. }
  destruct landing as [id [rows|]]; cbn [ra_outcome ra_id] in *; subst id.
  - destruct (land_read_held ledger s0 f rows) as [Hg Hd].
    pose proof (land_read_flights ledger s0 f rows) as Hfl.
    destruct (land_read ledger s0 f rows) as [s1 p1]. cbn [fst] in *.
    destruct Hk as [Hq|[Ho Hdirty]]; [left; left; by apply Hg|].
    destruct (Hout Ho) as [Ha|[Ha Ho']].
    + destruct Hdec as [Hag|Hag]; [left; left|right].
      * specialize (Hd k (Hdirty Hag)). by rewrite Ha in Hd.
      * split; [done|]. exists f, rows. split_and!; [done..|by left].
    + left. right. split.
      * rewrite is_out_spec in *. by rewrite Hfl.
      * intros Hag. specialize (Hd k (Hdirty Hag)). by rewrite Ha in Hd.
  - left. cbn [fst]. destruct (requeue_ok s0 f) as [Hg Hall].
    destruct Hk as [Hq|[Ho Hdirty]]; [left; by apply Hg|].
    destruct (Hout Ho) as [Ha|[Ha Ho']].
    + left. apply asks_spec in Ha as [Hs Hin]. destruct k as [sid rk]. cbn in Hs, Hin. subst sid. by apply Hall.
    + right. split; [|intros Hag; apply requeue_dirty; [by apply Hdirty|done]].
      rewrite is_out_spec in *. by rewrite requeue_flights.
Qed.

Lemma lands_held again ledger landings k : (again \/ ~ again) -> forall s p c, held again s k ->
  held again (fst (fst (fold_left (land1 ledger) landings (s, p, c)))) k
  \/ (~ again /\ answered (vr_flights s) landings k).
Proof.
  intros Hdec. induction landings as [|l landings IH]; intros s p c Hk; cbn [fold_left]; [by left|].
  pose proof (land1_held again ledger s p c l k Hdec Hk) as H. pose proof (land1_flights ledger s p c l) as Hfl.
  destruct (land1 _ _ _) as [[s1 p1] c1]. cbn [fst] in H, Hfl.
  destruct H as [H|[Hn (f & rows & Hf & Ha & Hl)]].
  - destruct (IH s1 p1 c1 H) as [?|[Hn (f & rows & Hf & Ha & Hl)]]; [by left|right].
    split; [done|]. exists f, rows. split_and!; [auto|done|by right].
  - right. split; [done|]. exists f, rows. apply list_elem_of_singleton in Hl. subst l. split_and!; [done..|by left].
Qed.

Lemma take_batch_keeps sid l : forall keys rk,
  rk ∈ keys -> rk ∈ fst (take_batch sid keys l).
Proof.
  induction l as [|[s r] l IH]; intros keys rk Hrk; cbn [take_batch]; [done|].
  destruct (_ && _); [apply IH, elem_of_app; by left|].
  specialize (IH keys rk Hrk). by destruct (take_batch sid keys l).
Qed.

Lemma take_batch_all sid l : forall keys k, k ∈ l ->
  k ∈ snd (take_batch sid keys l) \/ (fst k = sid /\ snd k ∈ fst (take_batch sid keys l)).
Proof.
  induction l as [|[s r] l IH]; intros keys k Hk; [by apply elem_of_nil in Hk|]. cbn [take_batch].
  destruct (Z.eqb_spec s sid) as [->|Hs]; cbn [andb]; [destruct (_ <? _)%nat|].
  - apply elem_of_cons in Hk as [->|Hk]; [|auto]. right. split; [done|].
    apply take_batch_keeps, elem_of_app. right. by apply list_elem_of_singleton.
  - specialize (IH keys). destruct (take_batch sid keys l) as [ks rest]. cbn [fst snd] in *.
    apply elem_of_cons in Hk as [->|Hk]; [left; by left|]. destruct (IH k Hk); [left; by right|by right].
  - specialize (IH keys). destruct (take_batch sid keys l) as [ks rest]. cbn [fst snd] in *.
    apply elem_of_cons in Hk as [->|Hk]; [left; by left|]. destruct (IH k Hk); [left; by right|by right].
Qed.

Lemma take_parents_keeps sid l : forall keys ps rk, rk ∈ keys -> rk ∈ fst (fst (take_parents sid keys ps l)).
Proof.
  induction l as [|[s r] l IH]; intros keys ps rk Hrk; cbn [take_parents]; [done|].
  destruct (_ || _); [|destruct (existsb _ _); [auto|apply IH, elem_of_app; by left]].
  specialize (IH keys ps rk Hrk). by destruct (take_parents sid keys ps l) as [[? ?] ?].
Qed.

Lemma take_parents_all sid l : forall keys ps k, k ∈ l ->
  k ∈ snd (take_parents sid keys ps l) \/ (fst k = sid /\ snd k ∈ fst (fst (take_parents sid keys ps l))).
Proof.
  induction l as [|[s r] l IH]; intros keys ps k Hk; [by apply elem_of_nil in Hk|]. cbn [take_parents].
  destruct (Z.eqb_spec s sid) as [->|Hs]; cbn [negb orb]; [destruct (_ <=? _)%nat|].
  - specialize (IH keys ps). destruct (take_parents sid keys ps l) as [[ks ps'] rest]. cbn [fst snd] in *.
    apply elem_of_cons in Hk as [->|Hk]; [left; by left|]. destruct (IH k Hk); [left; by right|by right].
  - destruct (existsb _ keys) eqn:E; apply elem_of_cons in Hk as [->|Hk]; auto; right; (split; [done|]); apply take_parents_keeps.
    + apply existsb_exists in E as (x & Hx & [= ->]%same_item_spec). by apply list_elem_of_In.
    + apply elem_of_app. right. by apply list_elem_of_singleton.
  - specialize (IH keys ps). destruct (take_parents sid keys ps l) as [[ks ps'] rest]. cbn [fst snd] in *.
    apply elem_of_cons in Hk as [->|Hk]; [left; by left|]. destruct (IH k Hk); [left; by right|by right].
Qed.

Lemma send_batch_owed clients st s sid k : owed s k ->
  owed (send_batch clients st s sid) k \/ key_of clients (fst k) = None.
Proof.
  intros Hk. unfold send_batch.
  pose proof (take_batch_all sid (vr_pending s) []) as Hb. destruct (take_batch _ _ _) as [keys rest]. cbn [fst snd] in Hb.
  pose proof (take_parents_all sid (vr_pending_parents s) keys []) as Hp.
  pose proof (take_parents_keeps sid (vr_pending_parents s) keys []) as Hkeep.
  destruct (take_parents _ _ _ _) as [[keys' ps] rest']. cbn [fst snd] in Hp, Hkeep. cbv zeta.
  assert (H : k ∈ rest \/ k ∈ rest' \/ is_out s k = true \/ (fst k = sid /\ snd k ∈ keys')).
  { destruct Hk as [[Hq|Hq]|Ho]; [|destruct (Hp k Hq); tauto|tauto].
    destruct (Hb k Hq) as [?|[? ?]]; [tauto|]. right. right. right. split; [done|by apply Hkeep]. }
  unfold owed, in_queue. rewrite !is_out_spec in *. destruct (key_of clients sid) as [key|] eqn:Ek.
  - left. cbn. destruct H as [H|[H|[(f & Hf & Ha)|[Hs Hin]]]]; [tauto..| |]; right.
    + exists f. split; [apply elem_of_app; by left|done].
    + eexists. split; [apply elem_of_app; right; by apply list_elem_of_singleton|]. by apply asks_spec.
  - cbn. destruct H as [H|[H|[H|[<- _]]]]; [tauto..|by right].
Qed.

Lemma kick_owed clients st s k : owed s k -> owed (reconcile_kick s clients st) k \/ key_of clients (fst k) = None.
Proof.
  intros Hk. unfold reconcile_kick. destruct (0 <? vr_retry_cd s); [by left|]. cbv zeta.
  generalize (fold_left (add_server (vr_flights s)) (vr_pending s ++ vr_pending_parents s) []) as servers.
  intros servers. revert s Hk. induction servers as [|sid servers IH]; intros s Hk; [by left|]. cbn [fold_left].
  destruct (send_batch_owed clients st s sid k Hk); [auto|by right].
Qed.

(** A read-back that is owed stays owed.  Through a pump, an item whose read is queued or out keeps
    its read queued or out, also when the runner refused it, until one of the answers taken is to a
    read of it, and if it was asked for again while that read was out, after that answer too.  The
    one read that is given up is that of an item whose server has left the registry. *)
Theorem an_owed_read_is_kept ledger s gate may_send clients a k :
  owed s k ->
  let '(s', _, _, _) := reconcile_pump_with_gate ledger s gate may_send clients a in
  owed s' k
  \/ (k ∉ vr_dirty s /\ gate = true
      /\ answered (vr_flights s) (default [] (rp_mail a !! vr_adapter s)) k)
  \/ (may_send = true /\ key_of clients (fst k) = None).
Proof.
  intros Hk. unfold reconcile_pump_with_gate.
  destruct (if gate then _ else _) as [landings a1] eqn:Eg.
  assert (Hheld : held (k ∈ vr_dirty s) s k) by (destruct Hk; [by left|by right]).
  assert (Hdec : k ∈ vr_dirty s \/ k ∉ vr_dirty s) by (destruct (decide (k ∈ vr_dirty s)); auto).
  pose proof (lands_held (k ∈ vr_dirty s) ledger landings k Hdec s [] false Hheld) as H.
  destruct (fold_left _ _ _) as [[s1 p1] c1]. cbn [fst] in H. cbv zeta.
  assert (Hs1 : owed s1 k \/ (k ∉ vr_dirty s /\ gate = true /\ answered (vr_flights s) (default [] (rp_mail a !! vr_adapter s)) k)).
  { destruct H as [[?|[? _]]|[Hn Ha]]; [left; by left|left; by right|right]. split; [done|].
    destruct gate; injection Eg as <- _; [done|]. destruct Ha as (? & ? & _ & _ & []%elem_of_nil). }
  destruct Hs1 as [Hs1|?]; [|by right; left].
  assert (Hk2 : owed (if may_send then reconcile_kick s1 clients (stamp ledger) else s1) k
                \/ (may_send = true /\ key_of clients (fst k) = None)).
  { destruct may_send; [|by left]. destruct (kick_owed clients (stamp ledger) s1 k Hs1); auto. }
  destruct Hk2 as [Hk2|?]; [left|by right; right]. by destruct c1.
Qed.
