(* ===== verification/LandGate.v ===== *)
(** * The landing gate

    [machine/src/landgate.rs]: when a store may consume what its mailbox holds.  Off, it is the
    mailbox's own answer.  Recording stamps each landing with its frame; a replay holds a landing to
    the frame it was recorded on and grades the rest; a frame dump waits for the answer a request
    owes, or paces it.  And [Fetch] of [data/src/stores/mod.rs], the claim and the mailbox a gated
    site takes from.

    A mailbox is polled in a world that other threads change: [f] takes one step of it, and so does
    a sleep.  A panic is [None].  Batches kept for a queue site are of one type [V]; a call site is
    a number. *)

From stdpp Require Import gmap.
From S2P Require Import Prelude Bytes.

#[local] Open Scope Z_scope.

Abbreviation StoreOrd := Z.

Inductive Diff := Late | Extra | Missing.
#[export] Instance Diff_eq_dec : EqDecision Diff.
Proof. solve_decision. Defined.

(** [Block] has its timeout in microseconds. *)
Inductive Dump := Block (timeout : Z) | Pace (lag : Z).

Inductive GateMode := Mode_Off | Mode_Recording | Mode_Replaying | Mode_Dumping (form : Dump).

(** A store and one call that takes from one of its mailboxes. *)
Abbreviation Site := (Z * Z)%type.

Record GateState (V : Type) := mk_gate_state {
  gs_mode : GateMode;
  gs_frame : Z;
  gs_lands : gmap Z Z;
  gs_sched : gmap Z (list (Z * Z));
  gs_waited : gset Z;
  gs_diffs : list (Z * Z * Diff);
  gs_plain : gmap Z Z;
  gs_strict : bool;
  gs_vframe : Z;
  gs_sighted : gmap Site Z;
  gs_starved : gset bytes;
  gs_lagged : gset bytes;
  gs_carry : gmap Site (list V)
}.
Arguments mk_gate_state {V}.
Arguments gs_mode {V}. Arguments gs_frame {V}. Arguments gs_lands {V}. Arguments gs_sched {V}.
Arguments gs_waited {V}. Arguments gs_diffs {V}. Arguments gs_plain {V}. Arguments gs_strict {V}.
Arguments gs_vframe {V}. Arguments gs_sighted {V}. Arguments gs_starved {V}. Arguments gs_lagged {V}.
Arguments gs_carry {V}.
#[export] Instance GateState_eta V : Eta (GateState V) := fun r =>
  mk_gate_state (gs_mode r) (gs_frame r) (gs_lands r) (gs_sched r) (gs_waited r) (gs_diffs r)
    (gs_plain r) (gs_strict r) (gs_vframe r) (gs_sighted r) (gs_starved r) (gs_lagged r) (gs_carry r).

(** [State::new]. *)
Definition state_new {V} (mode : GateMode) : GateState V :=
  mk_gate_state mode 0 ∅ ∅ ∅ [] ∅ false 0 ∅ ∅ ∅ ∅.

Definition MAX_DIFFS : nat := 64.
Definition WAIT_POLLS : nat := 400.
Definition WAIT_STEP_US : Z := 500.

Inductive GatePhase := Phase_Hold | Phase_Due | Phase_Free.

Record Gate (V : Type) := mk_gate { ga_armed : bool; ga_state : GateState V }.
Arguments mk_gate {V}. Arguments ga_armed {V}. Arguments ga_state {V}.
#[export] Instance Gate_eta V : Eta (Gate V) := fun r => mk_gate (ga_armed r) (ga_state r).

Definition gate_default {V} : Gate V := mk_gate false (state_new Mode_Off).

Section Gate.
Context {V : Type}.

(** [with]: the state changed under the lock. *)
Definition with_state (g : Gate V) (h : GateState V -> GateState V) : Gate V := g <| ga_state := h (ga_state g) |>.

Definition arm_recording (g : Gate V) : Gate V := mk_gate true (state_new Mode_Recording).

Definition arm_sparse_replay (g : Gate V) (sched : gmap Z (list (Z * Z))) : Gate V :=
  mk_gate true ((state_new Mode_Replaying) <| gs_sched := sched |>).

Definition arm_dump_with (g : Gate V) (form : Dump) (strict : bool) : option (Gate V) :=
  match gs_mode (ga_state g) with
  | Mode_Off | Mode_Dumping _ => Some (mk_gate true ((state_new (Mode_Dumping form)) <| gs_strict := strict |>))
  | _ => None
  end.

Definition arm_dump (g : Gate V) (timeout : Z) : option (Gate V) := arm_dump_with g (Block timeout) false.
Definition arm_dump_strict (g : Gate V) (timeout : Z) : option (Gate V) := arm_dump_with g (Block timeout) true.
Definition arm_dump_paced (g : Gate V) (lag : Z) : option (Gate V) := arm_dump_with g (Pace lag) true.

Definition dump_frame (g : Gate V) (v : Z) : Gate V :=
  if negb (ga_armed g) then g else with_state g (fun s => s <| gs_vframe := v |>).

Definition take_starved (g : Gate V) : gset bytes * Gate V :=
  if negb (ga_armed g) then (∅, g)
  else (gs_starved (ga_state g), with_state g (fun s => s <| gs_starved := ∅ |>)).

Definition take_lagged (g : Gate V) : gset bytes * Gate V :=
  if negb (ga_armed g) then (∅, g)
  else (gs_lagged (ga_state g), with_state g (fun s => s <| gs_lagged := ∅ |>)).

Definition unconverted_takes (g : Gate V) : gmap Z Z :=
  if negb (ga_armed g) then ∅ else gs_plain (ga_state g).

Definition note_plain_take (g : Gate V) (ord : StoreOrd) : option (Gate V) :=
  match gs_mode (ga_state g) with
  | Mode_Dumping _ =>
      let g := with_state g (fun s =>
        s <| gs_plain := <[ord := u64_wrap (default 0 (gs_plain s !! ord) + 1)]> (gs_plain s) |>) in
      if gs_strict (ga_state g) then None else Some g
  | _ => Some g
  end.

Definition dump_form (g : Gate V) : option Dump :=
  match gs_mode (ga_state g) with Mode_Dumping form => Some form | _ => None end.

Definition is_armed (g : Gate V) : bool := ga_armed g.

Definition disarm (g : Gate V) : Gate V := mk_gate false (state_new Mode_Off).

Definition begin_frame (g : Gate V) (f : Z) : Gate V :=
  if negb (ga_armed g) then g
  else with_state g (fun s => s <| gs_frame := f |> <| gs_lands := ∅ |> <| gs_waited := ∅ |>).

(** The recorded frame a store lands on next. *)
Definition next_recorded (s : GateState V) (ord : StoreOrd) : option Z :=
  fst <$> (q ← gs_sched s !! ord; head q).

Definition phase (g : Gate V) (ord : StoreOrd) : GatePhase * Gate V :=
  if negb (ga_armed g) then (Phase_Free, g)
  else
    let s := ga_state g in
    match gs_mode s with
    | Mode_Replaying =>
        match next_recorded s ord with
        | Some at_ =>
            if gs_frame s <? at_ then (Phase_Hold, g)
            else if at_ =? gs_frame s then
              if bool_decide (ord ∈ gs_waited s) then (Phase_Free, g)
              else (Phase_Due, with_state g (fun s => s <| gs_waited := {[ord]} ∪ gs_waited s |>))
            else (Phase_Free, g)
        | None => (Phase_Free, g)
        end
    | _ => (Phase_Free, g)
    end.

Definition held (g : Gate V) (ord : StoreOrd) : bool * Gate V :=
  let '(p, g) := phase g ord in (match p with Phase_Hold => true | _ => false end, g).

(** The mismatch buffer is bounded. *)
Definition push_diff (d : Z * Z * Diff) (s : GateState V) : GateState V :=
  if (List.length (gs_diffs s) <? MAX_DIFFS)%nat then s <| gs_diffs := gs_diffs s ++ [d] |> else s.

(** The replaying half of [landed]: the schedule advances by one, and the landing is graded. *)
Definition replay_landed (ord : StoreOrd) (s : GateState V) : GateState V :=
  let frame := gs_frame s in
  match gs_sched s !! ord with
  | Some ((at_, units) :: q) =>
      let late := at_ <? frame in
      let units := u32_wrap (units - 1) in
      let s := s <| gs_sched := <[ord := if units =? 0 then q else (at_, units) :: q]> (gs_sched s) |> in
      if late then push_diff (frame, ord, Late) s else s
  | _ => push_diff (frame, ord, Extra) s
  end.

Definition landed (g : Gate V) (ord : StoreOrd) : Gate V :=
  if negb (ga_armed g) then g
  else
    match gs_mode (ga_state g) with
    | Mode_Recording =>
        with_state g (fun s => s <| gs_lands := <[ord := u32_wrap (default 0 (gs_lands s !! ord) + 1)]> (gs_lands s) |>)
    | Mode_Off | Mode_Dumping _ => g
    | Mode_Replaying => with_state g (replay_landed ord)
    end.

(** The stores that landed on the frame just finished, each with how often. *)
Definition take_frame_lands (g : Gate V) : gmap Z Z * Gate V :=
  if negb (ga_armed g) then (∅, g)
  else
    (filter (fun p => 0 < snd p) (gs_lands (ga_state g)),
     with_state g (fun s => s <| gs_lands := (fun _ => 0) <$> gs_lands s |>)).

Definition take_diffs (g : Gate V) : list (Z * Z * Diff) * Gate V :=
  if negb (ga_armed g) then ([], g)
  else (gs_diffs (ga_state g), with_state g (fun s => s <| gs_diffs := [] |>)).

(** What is left of every store's schedule. *)
Definition unmatched_counts (g : Gate V) : gmap Z (list (Z * Z)) * Gate V :=
  if negb (ga_armed g) then (∅, g)
  else (gs_sched (ga_state g), with_state g (fun s => s <| gs_sched := (fun _ => []) <$> gs_sched s |>)).

(** ** The paced dump *)

Definition pace_hold (g : Gate V) (ord : StoreOrd) (at_ : Z) (name : bytes) (lag : Z) (claim_open : bool)
  : bool * Gate V :=
  if (lag =? 0) || negb claim_open then (false, g)
  else
    let s := ga_state g in
    let since := default (gs_vframe s) (gs_sighted s !! (ord, at_)) in
    let s := s <| gs_sighted := <[(ord, at_) := since]> (gs_sighted s) |> in
    let held := gs_vframe s <? u64_wrap (since + lag) in
    (held, g <| ga_state := if held then s <| gs_lagged := {[name]} ∪ gs_lagged s |> else s |>).

Definition pace_settle (g : Gate V) (ord : StoreOrd) (at_ : Z) (name : bytes) (done : bool) : Gate V :=
  with_state g (fun s =>
    if done then s <| gs_sighted := delete (ord, at_) (gs_sighted s) |>
    else s <| gs_starved := {[name]} ∪ gs_starved s |>).

Definition carried (g : Gate V) (site : Site) : list V * Gate V :=
  (default [] (gs_carry (ga_state g) !! site), with_state g (fun s => s <| gs_carry := delete site (gs_carry s) |>)).

Definition carry (g : Gate V) (site : Site) (batch : list V) : Gate V :=
  match batch with
  | [] => g
  | _ => with_state g (fun s => s <| gs_carry := <[site := batch]> (gs_carry s) |>)
  end.

(** ** Takes *)

Section Takes.
Context {W : Type} (sleep : W -> W).

Fixpoint wait_polls {T} (polls : nat) (f : W -> option T * W) (w : W) : option T * W :=
  match polls with
  | O => (None, w)
  | S polls =>
      match f w with
      | (Some v, w) => (Some v, w)
      | (None, w) => wait_polls polls f (sleep w)
      end
  end.
Definition wait_for {T} : (W -> option T * W) -> W -> option T * W := wait_polls WAIT_POLLS.

Definition take {T} (g : Gate V) (ord : StoreOrd) (f : W -> option T * W) (w : W) : option (Gate V * option T * W) :=
  if negb (ga_armed g) then let '(got, w) := f w in Some (g, got, w)
  else
    g ← note_plain_take g ord;
    let '(p, g) := phase g ord in
    match p with
    | Phase_Hold => Some (g, None, w)
    | _ =>
        let '(got, w) := match p with Phase_Due => wait_for f w | _ => f w end in
        Some (if is_some got then landed g ord else g, got, w)
    end.

(** A poll that finds nothing is not an answer. *)
Definition non_empty {T} (f : W -> list T * W) (w : W) : option (list T) * W :=
  let '(v, w) := f w in (match v with [] => None | _ => Some v end, w).

Definition take_all {T} (g : Gate V) (ord : StoreOrd) (f : W -> list T * W) (w : W)
  : option (Gate V * list T * W) :=
  if negb (ga_armed g) then let '(got, w) := f w in Some (g, got, w)
  else
    g ← note_plain_take g ord;
    let '(p, g) := phase g ord in
    match p with
    | Phase_Hold => Some (g, [], w)
    | _ =>
        let '(got, w) :=
          match p with
          | Phase_Due => let '(got, w) := wait_for (non_empty f) w in (default [] got, w)
          | _ => f w
          end in
        Some (match got with [] => g | _ => landed g ord end, got, w)
    end.

(** How often a blocking dump sleeps before it panics. *)
Definition dump_polls (timeout : Z) : nat := Z.to_nat (Z.max 1 (u64_wrap timeout / WAIT_STEP_US)).

Fixpoint block_for {T} (polls : nat) (owed : W -> bool) (f : W -> option T * W) (w : W) : option (option T * W) :=
  match f w with
  | (Some v, w) => Some (Some v, w)
  | (None, w) =>
      if negb (owed w) then Some (None, w)
      else match polls with O => None | S polls => block_for polls owed f (sleep w) end
  end.

Fixpoint block_all {T} (polls : nat) (owed : W -> list T -> bool) (f : W -> list T * W) (out : list T) (w : W)
  : option (list T * W) :=
  let '(more, w) := f w in
  let out := out ++ more in
  if negb (owed w out) then Some (out, w)
  else match polls with O => None | S polls => block_all polls owed f out (sleep w) end.

Definition take_owed {T} (g : Gate V) (ord : StoreOrd) (at_ : Z) (name : bytes) (owed : W -> bool)
    (f : W -> option T * W) (w : W) : option (Gate V * option T * W) :=
  if negb (ga_armed g) then let '(got, w) := f w in Some (g, got, w)
  else
    match dump_form g with
    | None => take g ord f w
    | Some (Pace lag) =>
        let '(hold, g) := pace_hold g ord at_ name lag (owed w) in
        if (hold : bool) then Some (g, None, w)
        else
          let '(got, w) := f w in
          Some (pace_settle g ord at_ name (is_some got || negb (owed w)), got, w)
    | Some (Block timeout) =>
        '(got, w) ← block_for (dump_polls timeout) owed f w;
        Some (g, got, w)
    end.

(** A queue site; in the paced dump its batch waits in the gate until it is whole. *)
Definition take_all_owed (g : Gate V) (ord : StoreOrd) (at_ : Z) (name : bytes) (owed : W -> list V -> bool)
    (f : W -> list V * W) (w : W) : option (Gate V * list V * W) :=
  if negb (ga_armed g) then let '(got, w) := f w in Some (g, got, w)
  else
    match dump_form g with
    | None => take_all g ord f w
    | Some (Pace lag) =>
        let '(batch, g) := carried g (ord, at_) in
        let '(hold, g) := pace_hold g ord at_ name lag (owed w batch) in
        if (hold : bool) then Some (carry g (ord, at_) batch, [], w)
        else
          let '(more, w) := f w in
          let batch := batch ++ more in
          if owed w batch
          then Some (carry (pace_settle g ord at_ name false) (ord, at_) batch, [], w)
          else Some (pace_settle g ord at_ name true, batch, w)
    | Some (Block timeout) =>
        '(got, w) ← block_all (dump_polls timeout) owed f [] w;
        Some (g, got, w)
    end.
End Takes.
End Gate.

(** ** The recorded schedule *)

(** [Recording::land_schedule] ([ui/src/rec.rs]): the stores that landed on each frame, and how often. *)
Definition schedule_frame (out : gmap Z (list (Z * Z))) (frame : Z * gmap Z Z) : gmap Z (list (Z * Z)) :=
  merge (fun q n => match n with Some n => Some (default [] q ++ [(fst frame, n)]) | None => q end) out (snd frame).
Definition land_schedule (frames : list (Z * gmap Z Z)) : gmap Z (list (Z * Z)) := fold_left schedule_frame frames ∅.

(** ** One fetch *)

Record Fetch (M : Type) := mk_fetch {
  ft_in_flight : bool;
  ft_claimed : Z;
  ft_refused : Z;
  ft_slot : option M
}.
Arguments mk_fetch {M}. Arguments ft_in_flight {M}. Arguments ft_claimed {M}. Arguments ft_refused {M}.
Arguments ft_slot {M}.
#[export] Instance Fetch_eta M : Eta (Fetch M) := fun r =>
  mk_fetch (ft_in_flight r) (ft_claimed r) (ft_refused r) (ft_slot r).

Definition NO_REFUSAL : Z := u64_max.
Definition IDLE {M} : Fetch M := mk_fetch false 0 NO_REFUSAL None.

Section Fetch.
Context {M : Type}.

Definition busy (t : Fetch M) : bool := ft_in_flight t.
Definition outstanding (t : Fetch M) : bool := busy t || is_some (ft_slot t).
Definition claim (t : Fetch M) (gen : Z) : Fetch M := t <| ft_claimed := gen |> <| ft_in_flight := true |>.
Definition release (t : Fetch M) : Fetch M := t <| ft_in_flight := false |>.
Definition holds (t : Fetch M) (gen : Z) : bool := busy t && (ft_claimed t =? gen).
Definition release_for (t : Fetch M) (gen : Z) : Fetch M := if holds t gen then release t else t.
Definition refuse_for (t : Fetch M) (gen : Z) : Fetch M :=
  if holds t gen then release (t <| ft_refused := gen |>) else t.
Definition take_refused (t : Fetch M) (gen : Z) : bool * Fetch M :=
  if ft_refused t =? gen then (true, t <| ft_refused := NO_REFUSAL |>) else (false, t).
Definition fetch_take (t : Fetch M) : option M * Fetch M :=
  match ft_slot t with
  | None => (None, t)
  | Some mail => (Some mail, release (t <| ft_slot := None |>))
  end.
Definition take_current (gen_of : M -> Z) (t : Fetch M) : option M * Fetch M :=
  match ft_slot t with
  | None => (None, t)
  | Some mail =>
      let t := t <| ft_slot := None |> in
      if busy t && negb (gen_of mail =? ft_claimed t) then (None, t) else (Some mail, release t)
  end.
Definition fetch_clear (t : Fetch M) : Fetch M := (release (t <| ft_slot := None |>)) <| ft_refused := NO_REFUSAL |>.
Definition fetch_post (t : Fetch M) (mail : M) (beats : M -> bool) : Fetch M :=
  if match ft_slot t with None => true | Some old => beats old end then t <| ft_slot := Some mail |> else t.
Definition has_mail (t : Fetch M) : bool := is_some (ft_slot t).
End Fetch.
