(* ===== verification/LandGateTraces.v ===== *)
(** * Recordings, replays and dumps of the landing gate

    A session of frames and takes through the gate, in a world that answers when it likes: what a
    recording stamps, what a replay grades, where a paced dump lands an answer, and what a claim
    protects. *)

From stdpp Require Import gmap.
From S2P Require Import Prelude Bytes LandGate.

#[local] Open Scope Z_scope.

Section Session.
Context {V W : Type} (sleep : W -> W) (poll : Z -> W -> option V * W) (poll_all : Z -> W -> list V * W).

(** What the main thread does: a frame begins, a site takes from its mailbox, or the world moves. *)
Inductive Turn :=
  | Turn_frame (f : Z)
  | Turn_take (ord site : Z)
  | Turn_take_all (ord site : Z)
  | Turn_world (h : W -> W).

(** One turn: the landings it consumed, each on the frame it was consumed on. *)
Definition turn (g : Gate V) (w : W) (t : Turn) : option (list (Z * Z) * Gate V * W) :=
  match t with
  | Turn_frame f => Some ([], begin_frame g f, w)
  | Turn_take ord site =>
      '(g', got, w) ← take sleep g ord (poll site) w;
      Some (if is_some got then [(gs_frame (ga_state g), ord)] else [], g', w)
  | Turn_take_all ord site =>
      '(g', got, w) ← take_all sleep g ord (poll_all site) w;
      Some (match got with [] => [] | _ => [(gs_frame (ga_state g), ord)] end, g', w)
  | Turn_world h => Some ([], g, h w)
  end.

Fixpoint session (g : Gate V) (w : W) (ts : list Turn) : option (list (Z * Z) * Gate V * W) :=
  match ts with
  | [] => Some ([], g, w)
  | t :: ts =>
      '(l, g, w) ← turn g w t;
      '(ls, g, w) ← session g w ts;
      Some (l ++ ls, g, w)
  end.

(** The frames a store's landings were consumed on. *)
Definition frames_of (ord : Z) (trace : list (Z * Z)) : list Z := fst <$> List.filter (fun p => snd p =? ord) trace.

(** ** Replays *)

Definition expand (q : list (Z * Z)) : list Z := flat_map (fun p => List.repeat (fst p) (Z.to_nat (snd p))) q.

(** What a replay ought to say of a series of landings, against the frames recorded for each store:
    a landing ahead of its recorded frame is not possible at all. *)
Fixpoint grade (recorded : gmap Z (list Z)) (trace : list (Z * Z))
  : option (list (Z * Z * Diff) * gmap Z (list Z)) :=
  match trace with
  | [] => Some ([], recorded)
  | (f, ord) :: trace =>
      match recorded !! ord with
      | Some (r :: rest) =>
          if f <? r then None
          else
            '(d, left_over) ← grade (<[ord := rest]> recorded) trace;
            Some ((if r <? f then [(f, ord, Late)] else []) ++ d, left_over)
      | _ =>
          '(d, left_over) ← grade recorded trace;
          Some ((f, ord, Extra) :: d, left_over)
      end
  end.

Definition units_ok (q : list (Z * Z)) : Prop := Forall (fun p => 0 < snd p <= u32_max) q.
Definition sched_ok (sched : gmap Z (list (Z * Z))) : Prop := map_Forall (fun _ => units_ok) sched.

Record replaying (g : Gate V) : Prop := mk_replaying {
  rp_armed : ga_armed g = true;
  rp_mode : gs_mode (ga_state g) = Mode_Replaying;
  rp_sched : sched_ok (gs_sched (ga_state g))
}.

Definition same_replay (g g' : Gate V) : Prop :=
  ga_armed g' = ga_armed g /\ gs_mode (ga_state g') = gs_mode (ga_state g)
  /\ gs_sched (ga_state g') = gs_sched (ga_state g) /\ gs_diffs (ga_state g') = gs_diffs (ga_state g).

Lemma same_replaying g g' : same_replay g g' -> replaying g -> replaying g'.
Proof. intros (Ha & Hm & Hs & _) [? ? ?]. split; [congruence..|by rewrite Hs]. Qed.

(** The gate's answer: hold only ahead of the recorded frame. *)
Lemma phase_replay g ord p g' : replaying g -> phase g ord = (p, g') ->
  same_replay g g' /\ gs_frame (ga_state g') = gs_frame (ga_state g)
  /\ (p <> Phase_Hold -> forall r, next_recorded (ga_state g) ord = Some r -> r <= gs_frame (ga_state g)).
Proof.
  intros [Ha Hm _]. unfold phase. rewrite Ha, Hm. cbn [negb].
  destruct (next_recorded (ga_state g) ord) as [r|]; [|intros [= <- <-]; by split].
  destruct (Z.ltb_spec (gs_frame (ga_state g)) r); [intros [= <- <-]; by split|].
  destruct (r =? _); [case_bool_decide|]; intros [= <- <-]; (split; [done|]; split; [done|]); intros _ r' [= <-]; lia.
Qed.

Lemma expand_head at_ units q : 0 < units <= u32_max ->
  expand ((at_, units) :: q) = at_ :: expand (if u32_wrap (units - 1) =? 0 then q else (at_, u32_wrap (units - 1)) :: q).
Proof.
  intros Hu. rewrite u32_wrap_small by ints. unfold expand. cbn [flat_map fst snd].
  destruct (Z.eqb_spec (units - 1) 0) as [He|He].
  - replace (Z.to_nat units) with 1%nat by lia. done.
  - replace (Z.to_nat units) with (S (Z.to_nat (units - 1))) by lia. done.
Qed.

Definition recorded_left (g : Gate V) : gmap Z (list Z) := expand <$> gs_sched (ga_state g).

Lemma push_diff_spec (d : Z * Z * Diff) (s : GateState V) :
  gs_mode (push_diff d s) = gs_mode s /\ gs_sched (push_diff d s) = gs_sched s /\ gs_frame (push_diff d s) = gs_frame s
  /\ gs_diffs (push_diff d s) = gs_diffs s ++ List.firstn (MAX_DIFFS - List.length (gs_diffs s)) [d].
Proof.
  unfold push_diff. destruct (Nat.ltb_spec (List.length (gs_diffs s)) MAX_DIFFS) as [H|H]; (split_and!; [done..|]).
  - destruct (MAX_DIFFS - List.length (gs_diffs s))%nat eqn:E; [lia|]. cbn. by rewrite firstn_nil.
  - replace (MAX_DIFFS - List.length (gs_diffs s))%nat with 0%nat by lia. by rewrite app_nil_r.
Qed.

Lemma landed_replay g ord : replaying g ->
  landed g ord = g <| ga_state := replay_landed ord (ga_state g) |>.
Proof. intros [Ha Hm _]. unfold landed. by rewrite Ha, Hm. Qed.

(** A landing the gate let through is graded as it ought to be. *)
Lemma grade_one g ord : replaying g ->
  (forall r, next_recorded (ga_state g) ord = Some r -> r <= gs_frame (ga_state g)) ->
  let g' := landed g ord in
  replaying g' /\ exists d, grade (recorded_left g) [(gs_frame (ga_state g), ord)] = Some (d, recorded_left g')
    /\ gs_diffs (ga_state g') = gs_diffs (ga_state g) ++ List.firstn (MAX_DIFFS - List.length (gs_diffs (ga_state g))) d
    /\ gs_frame (ga_state g') = gs_frame (ga_state g).
Proof.
  intros Hg Hahead g'. subst g'. rewrite landed_replay by done. destruct Hg as [Ha Hm Hs].
  unfold recorded_left, replay_landed, next_recorded in *. cbn [ga_state grade]. rewrite lookup_fmap.
  set (f := gs_frame (ga_state g)) in *.
  assert (Hextra : forall l, (expand <$> gs_sched (ga_state g)) !! ord = l -> match l with Some (_ :: _) => False | _ => True end ->
    replaying (g <| ga_state := push_diff (f, ord, Extra) (ga_state g) |>)
    /\ exists d, (match l with
         | Some (r :: rest) => if f <? r then None else
             '(d, left_over) ← grade (<[ord := rest]> (expand <$> gs_sched (ga_state g))) [];
             Some ((if r <? f then [(f, ord, Late)] else []) ++ d, left_over)
         | _ => '(d, left_over) ← grade (expand <$> gs_sched (ga_state g)) []; Some ((f, ord, Extra) :: d, left_over)
         end) = Some (d, expand <$> gs_sched (push_diff (f, ord, Extra) (ga_state g)))
      /\ gs_diffs (push_diff (f, ord, Extra) (ga_state g))
         = gs_diffs (ga_state g) ++ List.firstn (MAX_DIFFS - List.length (gs_diffs (ga_state g))) d
      /\ gs_frame (push_diff (f, ord, Extra) (ga_state g)) = f).
  { intros l _ Hl. destruct (push_diff_spec (f, ord, Extra) (ga_state g)) as (Hm' & Hs' & Hf' & Hd').
    split; [split; cbn; [done|congruence|by rewrite Hs']|]. exists [(f, ord, Extra)].
    rewrite Hs', Hd', Hf'. by destruct l as [[|]|]. }
  destruct (gs_sched (ga_state g) !! ord) as [[|[at_ units] q]|] eqn:Eq; cbn [fmap option_fmap option_map];
    [apply (Hextra (Some [])); [by rewrite lookup_fmap, Eq|done]| |apply (Hextra None); [by rewrite lookup_fmap, Eq|done]].
  destruct (Forall_cons_1 _ _ _ (Hs ord _ Eq)) as [Hu Hq]. cbn [snd] in Hu. rewrite expand_head by done.
  rewrite (proj2 (Z.ltb_ge f at_)) by (by apply Hahead). cbn [grade mbind option_bind].
  set (q' := if u32_wrap (units - 1) =? 0 then q else (at_, u32_wrap (units - 1)) :: q).
  assert (Hs' : sched_ok (<[ord := q']> (gs_sched (ga_state g)))).
  { apply map_Forall_insert_2; [|done]. unfold q'. rewrite u32_wrap_small by ints.
    destruct (Z.eqb_spec (units - 1) 0); [done|]. constructor; [cbn; lia|done]. }
  set (s1 := (ga_state g) <| gs_sched := <[ord := q']> (gs_sched (ga_state g)) |>).
  destruct (push_diff_spec (f, ord, Late) s1) as (Hm' & Hsch & Hf' & Hd').
  destruct (at_ <? f).
  - split; [split; cbn; [done|by rewrite Hm'|by rewrite Hsch]|]. exists [(f, ord, Late)].
    change (ga_state (g <| ga_state := push_diff (f, ord, Late) s1 |>)) with (push_diff (f, ord, Late) s1).
    rewrite Hsch, Hd', Hf'. by rewrite <- fmap_insert.
  - split; [by split|]. exists []. split_and!; [|by rewrite firstn_nil, app_nil_r|done].
    change (ga_state (g <| ga_state := s1 |>)) with s1. unfold s1. cbn [app gs_sched]. by rewrite <- fmap_insert.
Qed.

Lemma grade_app l : forall R t d R', grade R l = Some (d, R') ->
  grade R (l ++ t) = ('(d', R'') ← grade R' t; Some (d ++ d', R'')).
Proof.
  induction l as [|[f ord] l IH]; intros R t d R'; cbn [grade app].
  - intros [= <- <-]. by destruct (grade R t) as [[? ?]|].
  - destruct (R !! ord) as [[|r rest]|].
    + destruct (grade R l) as [[d1 R1]|] eqn:E; [|done]. cbn. intros [= <- <-]. rewrite (IH _ t _ _ E).
      by destruct (grade R1 t) as [[? ?]|].
    + destruct (f <? r); [done|]. destruct (grade _ l) as [[d1 R1]|] eqn:E; [|done]. cbn. intros [= <- <-].
      rewrite (IH _ t _ _ E). destruct (grade R1 t) as [[? ?]|]; [|done]. cbn. by rewrite app_assoc.
    + destruct (grade R l) as [[d1 R1]|] eqn:E; [|done]. cbn. intros [= <- <-]. rewrite (IH _ t _ _ E).
      by destruct (grade R1 t) as [[? ?]|].
Qed.

(** What one turn of a replay does. *)
Lemma replay_take g g' (p : GatePhase) ord (got : bool) : replaying g -> phase g ord = (p, g') -> p <> Phase_Hold ->
  let g'' := if got then landed g' ord else g' in
  replaying g'' /\ exists d, grade (recorded_left g) (if got then [(gs_frame (ga_state g), ord)] else []) = Some (d, recorded_left g'')
    /\ gs_diffs (ga_state g'') = gs_diffs (ga_state g) ++ List.firstn (MAX_DIFFS - List.length (gs_diffs (ga_state g))) d.
Proof.
  intros Hg Hp Hh. destruct (phase_replay _ _ _ _ Hg Hp) as (Hsame & Hf & Hahead). specialize (Hahead Hh).
  pose proof (same_replaying _ _ Hsame Hg) as Hg'. destruct Hsame as (_ & _ & Hs & Hd). destruct got; cbv zeta.
  - destruct (grade_one g' ord Hg') as [Hr (d & Hgr & Hdf & _)].
    { intros r. unfold next_recorded in *. rewrite Hs, Hf. apply Hahead. }
    split; [done|]. exists d. unfold recorded_left in Hgr at 1. rewrite Hs, Hf in Hgr. rewrite Hd in Hdf. by split.
  - split; [done|]. exists []. unfold recorded_left. rewrite Hs, Hd, firstn_nil, app_nil_r. by split.
Qed.

Lemma note_plain_replay g ord : replaying g -> note_plain_take g ord = Some g.
Proof. intros [_ Hm _]. unfold note_plain_take. by rewrite Hm. Qed.

Lemma turn_replay g w t l g' w' : replaying g -> turn g w t = Some (l, g', w') ->
  replaying g' /\ exists d, grade (recorded_left g) l = Some (d, recorded_left g')
    /\ gs_diffs (ga_state g') = gs_diffs (ga_state g) ++ List.firstn (MAX_DIFFS - List.length (gs_diffs (ga_state g))) d.
Proof.
  intros Hg. pose proof Hg as [Ha Hm Hs].
  assert (Hsame : forall g1, same_replay g g1 -> replaying g1 /\ exists d, grade (recorded_left g) [] = Some (d, recorded_left g1)
    /\ gs_diffs (ga_state g1) = gs_diffs (ga_state g) ++ List.firstn (MAX_DIFFS - List.length (gs_diffs (ga_state g))) d).
  { intros g1 H1. pose proof (same_replaying _ _ H1 Hg). destruct H1 as (_ & _ & Hs1 & Hd1). split; [done|].
    exists []. unfold recorded_left. rewrite Hs1, Hd1, firstn_nil, app_nil_r. by split. }
  destruct t as [f|ord site|ord site|h]; cbn [turn].
  - intros [= <- <- <-]. apply Hsame. unfold begin_frame. rewrite Ha. split_and!; done.
  - unfold take. rewrite Ha. cbn [negb]. rewrite note_plain_replay by done. cbn [mbind option_bind].
    destruct (phase g ord) as [p g1] eqn:Ep. destruct p.
    + cbn. intros [= <- <- <-]. apply Hsame. by destruct (phase_replay _ _ _ _ Hg Ep).
    + destruct (wait_for sleep (poll site) w) as [got w1]. cbn. intros [= <- <- <-].
      destruct got; apply (replay_take g g1 Phase_Due ord (is_some _)); done.
    + destruct (poll site w) as [got w1]. cbn. intros [= <- <- <-].
      by apply (replay_take g g1 Phase_Free ord (is_some got)).
  - unfold take_all. rewrite Ha. cbn [negb]. rewrite note_plain_replay by done. cbn [mbind option_bind].
    destruct (phase g ord) as [p g1] eqn:Ep. destruct p.
    + cbn. intros [= <- <- <-]. apply Hsame. by destruct (phase_replay _ _ _ _ Hg Ep).
    + destruct (wait_for sleep (non_empty (poll_all site)) w) as [got w1]. cbn.
      destruct (default [] got) as [|v l0]; intros [= <- <- <-].
      * by apply (replay_take g g1 Phase_Due ord false).
      * by apply (replay_take g g1 Phase_Due ord true).
    + destruct (poll_all site w) as [[|v l0] w1]; cbn; intros [= <- <- <-].
      * by apply (replay_take g g1 Phase_Free ord false).
      * by apply (replay_take g g1 Phase_Free ord true).
  - intros [= <- <- <-]. by apply Hsame.
Qed.

Lemma firstn_rest {A} n (l d d' : list A) :
  (l ++ List.firstn (n - List.length l) d) ++ List.firstn (n - List.length (l ++ List.firstn (n - List.length l) d)) d'
  = l ++ List.firstn (n - List.length l) (d ++ d').
Proof.
  rewrite firstn_app, <- app_assoc. f_equal. f_equal. rewrite length_app, length_firstn. f_equal. lia.
Qed.

Lemma session_replay ts : forall g w trace g' w', replaying g -> session g w ts = Some (trace, g', w') ->
  replaying g' /\ exists d, grade (recorded_left g) trace = Some (d, recorded_left g')
    /\ gs_diffs (ga_state g') = gs_diffs (ga_state g) ++ List.firstn (MAX_DIFFS - List.length (gs_diffs (ga_state g))) d.
Proof.
  induction ts as [|t ts IH]; intros g w trace g' w' Hg; cbn [session].
  - intros [= <- <- <-]. split; [done|]. exists []. by rewrite firstn_nil, app_nil_r.
  - destruct (turn g w t) as [[[l g1] w1]|] eqn:Et; [|done]. cbn [mbind option_bind].
    destruct (session g1 w1 ts) as [[[l' g2] w2]|] eqn:Es; [|done]. cbn [mbind option_bind]. intros [= <- <- <-].
    destruct (turn_replay _ _ _ _ _ _ Hg Et) as [Hg1 (d & Hd & Hf)].
    destruct (IH _ _ _ _ _ Hg1 Es) as [Hg2 (d' & Hd' & Hf')]. split; [done|].
    exists (d ++ d'). rewrite (grade_app _ _ _ _ _ Hd), Hd'. cbn. split; [done|].
    rewrite Hf', Hf. apply firstn_rest.
Qed.

(** ** Recordings *)

(** The frames of a recording, as the recorder runs them: the frame begins, its turns, and its
    landings are taken for the record. *)
Fixpoint record_session (g : Gate V) (w : W) (frames : list (Z * list Turn))
  : option (list (Z * Z) * list (Z * gmap Z Z)) :=
  match frames with
  | [] => Some ([], [])
  | (f, ts) :: frames =>
      '(l, g, w) ← session (begin_frame g f) w ts;
      let '(lands, g) := take_frame_lands g in
      '(ls, recs) ← record_session g w frames;
      Some (l ++ ls, (f, lands) :: recs)
  end.

(** Turns within a frame. *)
Definition within (t : Turn) : Prop := match t with Turn_frame _ => False | _ => True end.
Definition frame_ok (frame : Z * list Turn) : Prop :=
  Forall within (snd frame) /\ Z.of_nat (List.length (snd frame)) <= u32_max.

Record recording (g : Gate V) (f : Z) : Prop := mk_recording {
  rc_armed : ga_armed g = true;
  rc_mode : gs_mode (ga_state g) = Mode_Recording;
  rc_frame : gs_frame (ga_state g) = f
}.

Definition count (ord : Z) (trace : list (Z * Z)) : Z := Z.of_nat (List.length (frames_of ord trace)).
Definition lands_of (g : Gate V) (ord : Z) : Z := default 0 (gs_lands (ga_state g) !! ord).

Lemma landed_recording g f ord : recording g f ->
  recording (landed g ord) f
  /\ forall ord', lands_of (landed g ord) ord' = if ord' =? ord then u32_wrap (lands_of g ord + 1) else lands_of g ord'.
Proof.
  intros [Ha Hm Hf]. unfold landed. rewrite Ha, Hm. cbn [negb]. split; [by split|].
  intros ord'. unfold lands_of. cbn. destruct (Z.eqb_spec ord' ord) as [->|Hne]; [by rewrite lookup_insert_eq|].
  by rewrite lookup_insert_ne.
Qed.

Lemma turn_recording g f w t l g' w' : recording g f -> within t -> turn g w t = Some (l, g', w') ->
  recording g' f /\ ((l = [] /\ g' = g) \/ exists ord, l = [(f, ord)] /\ g' = landed g ord).
Proof.
  intros Hg Ht. pose proof Hg as [Ha Hm Hf]. destruct t as [|ord site|ord site|h]; [done|..]; cbn [turn].
  - unfold take, note_plain_take, phase. rewrite Ha, Hm. cbn [negb mbind option_bind]. rewrite Ha, Hm. cbn [negb].
    destruct (poll site w) as [got w1]. cbn. rewrite Hf. intros [= <- <- <-].
    destruct got; cbn; (split; [|eauto]); [by apply landed_recording|done].
  - unfold take_all, note_plain_take, phase. rewrite Ha, Hm. cbn [negb mbind option_bind]. rewrite Ha, Hm. cbn [negb].
    destruct (poll_all site w) as [got w1]. cbn. rewrite Hf. intros [= <- <- <-].
    destruct got; cbn; (split; [|eauto]); [done|by apply landed_recording].
  - intros [= <- <- <-]. auto.
Qed.

Lemma session_recording f ts : forall g w l g' w', recording g f -> Forall within ts ->
  (forall ord, 0 <= lands_of g ord /\ lands_of g ord + Z.of_nat (List.length ts) <= u32_max) ->
  session g w ts = Some (l, g', w') ->
  recording g' f /\ forall ord, frames_of ord l = List.repeat f (List.length (frames_of ord l))
    /\ lands_of g' ord = lands_of g ord + count ord l /\ 0 <= lands_of g' ord <= u32_max.
Proof.
  induction ts as [|t ts IH]; intros g w l g' w' Hg Hin Hb; cbn [session].
  - intros [= <- <- <-]. split; [done|]. intros ord. specialize (Hb ord). cbn in Hb |- *. split; [done|]. unfold count. cbn. lia.
  - apply Forall_cons in Hin as [Ht Hin]. cbn [List.length] in Hb.
    destruct (turn g w t) as [[[l1 g1] w1]|] eqn:Et; [|done]. cbn [mbind option_bind].
    destruct (session g1 w1 ts) as [[[l2 g2] w2]|] eqn:Es; [|done]. cbn [mbind option_bind]. intros [= <- <- <-].
    destruct (turn_recording _ _ _ _ _ _ _ Hg Ht Et) as [Hg1 Hl].
    assert (Hb1 : forall ord, 0 <= lands_of g1 ord /\ lands_of g1 ord + Z.of_nat (List.length ts) <= u32_max).
    { intros ord. destruct Hl as [[-> ->]|(o & -> & ->)]; [specialize (Hb ord); lia|].
      destruct (landed_recording g f o Hg) as [_ Hlands]. rewrite Hlands. pose proof (Hb o). specialize (Hb ord).
      destruct (ord =? o); [rewrite u32_wrap_small by ints|]; lia. }
    destruct (IH _ _ _ _ _ Hg1 Hin Hb1 Es) as [Hg2 Hords].
    split; [done|]. intros ord. destruct (Hords ord) as (Hr & Hn & Hrange).
    destruct Hl as [[-> ->]|(o & -> & ->)]; [done|].
    destruct (landed_recording g f o Hg) as [_ Hlands]. rewrite Hlands in Hn. pose proof (Hb o) as Hbo.
    unfold count, frames_of in *. cbn [app List.filter snd]. rewrite (Z.eqb_sym o ord).
    destruct (Z.eqb_spec ord o) as [->|Hne]; cbn [List.length fmap list_fmap List.repeat fst]; [|done].
    rewrite u32_wrap_small in Hn by ints. csimpl. split; [by rewrite <- Hr|]. lia.
Qed.

(** What the records say of a store. *)
Definition records_of (ord : Z) (recs : list (Z * gmap Z Z)) : list (Z * Z) :=
  flat_map (fun r => match snd r !! ord with Some n => [(fst r, n)] | None => [] end) recs.

Lemma schedule_records ord recs : forall out,
  default [] (fold_left schedule_frame recs out !! ord) = default [] (out !! ord) ++ records_of ord recs.
Proof.
  induction recs as [|[f lands] recs IH]; intros out; cbn [fold_left]; [by rewrite app_nil_r|].
  rewrite IH. unfold schedule_frame. rewrite lookup_merge. cbn [fst snd records_of flat_map].
  rewrite app_assoc. f_equal. destruct (out !! ord), (lands !! ord); cbn; by rewrite ?app_nil_r.
Qed.

Lemma record_session_schedule frames : forall g w trace recs,
  ga_armed g = true -> gs_mode (ga_state g) = Mode_Recording -> Forall frame_ok frames ->
  record_session g w frames = Some (trace, recs) ->
  forall ord, expand (records_of ord recs) = frames_of ord trace /\ units_ok (records_of ord recs).
Proof.
  induction frames as [|[f ts] frames IH]; intros g w trace recs Ha Hm Hok; cbn [record_session].
  - intros [= <- <-] ord. split; [done|constructor].
  - apply Forall_cons in Hok as [[Hin Hlen] Hok]. cbn [snd] in Hin, Hlen.
    destruct (session _ _ ts) as [[[l g1] w1]|] eqn:Es; [|done]. cbn [mbind option_bind].
    assert (Hg : recording (begin_frame g f) f) by (unfold begin_frame; rewrite Ha; by split).
    assert (Hzero : forall ord, lands_of (begin_frame g f) ord = 0).
    { intros ord. unfold begin_frame, lands_of. by rewrite Ha. }
    assert (Hb : forall ord, 0 <= lands_of (begin_frame g f) ord
                             /\ lands_of (begin_frame g f) ord + Z.of_nat (List.length ts) <= u32_max)
      by (intros ord; rewrite Hzero; lia).
    destruct (session_recording f ts _ _ _ _ _ Hg Hin Hb Es) as [Hg1 Hords].
    pose proof Hg1 as [Ha1 Hm1 Hf1]. unfold take_frame_lands. rewrite Ha1. cbn [negb].
    destruct (record_session _ w1 frames) as [[ls recs']|] eqn:Er; [|done]. cbn [mbind option_bind]. intros [= <- <-] ord.
    pose proof (fun Ha Hm => IH _ _ _ _ Ha Hm Hok Er ord) as Hih. destruct (Hih Ha1 Hm1) as [Hexp Hunits].
    destruct (Hords ord) as (Hrep & Hcount & Hrange). rewrite Hzero in Hcount. unfold lands_of in Hcount, Hrange.
    unfold records_of. cbn [flat_map fst snd]. fold (records_of ord recs').
    rewrite map_lookup_filter. unfold expand. rewrite flat_map_app. fold (expand (records_of ord recs')).
    rewrite Hexp. unfold frames_of at 2. rewrite List.filter_app, fmap_app. fold (frames_of ord l) (frames_of ord ls).
    destruct (gs_lands (ga_state g1) !! ord) as [n|] eqn:En; cbn in Hcount, Hrange; cbn [mbind option_bind].
    + unfold guard. case_decide as Hn; cbn in Hn.
      * cbn. rewrite app_nil_r. split; [|constructor; [cbn; lia|done]]. f_equal. rewrite Hrep. f_equal. unfold count in Hcount. lia.
      * cbn. split; [|done]. unfold count in Hcount. by rewrite (nil_length_inv (frames_of ord l)) by lia.
    + cbn. split; [|done]. unfold count in Hcount. by rewrite (nil_length_inv (frames_of ord l)) by lia.
Qed.

(** ** Clean replays *)

Lemma grade_clean t : forall R d R', grade R t = Some (d, R') -> d = [] ->
  forall o, default [] (R !! o) = frames_of o t ++ default [] (R' !! o).
Proof.
  induction t as [|[f ord] t IH]; intros R d R'; cbn [grade].
  - by intros [= <- <-] _ o.
  - destruct (R !! ord) as [[|r rest]|] eqn:Er.
    + by destruct (grade R t) as [[? ?]|]; [|done]; intros [= <- <-].
    + destruct (Z.ltb_spec f r); [done|]. destruct (grade _ t) as [[d1 R1]|] eqn:E; [|done]. cbn. intros [= <- <-] Hd o.
      destruct (Z.ltb_spec r f); [done|]. cbn in Hd. specialize (IH _ _ _ E Hd o).
      unfold frames_of. cbn [List.filter snd]. destruct (Z.eqb_spec ord o) as [->|Hne]; csimpl.
      * rewrite lookup_insert_eq in IH. cbn in IH. rewrite Er. cbn. rewrite IH. f_equal. lia.
      * by rewrite lookup_insert_ne in IH.
    + by destruct (grade R t) as [[? ?]|]; [|done]; intros [= <- <-].
Qed.

Lemma grade_as_recorded t : forall R d R', grade R t = Some (d, R') ->
  (forall o, default [] (R !! o) = frames_of o t) -> d = [] /\ forall o, default [] (R' !! o) = [].
Proof.
  induction t as [|[f ord] t IH]; intros R d R'; cbn [grade].
  - by intros [= <- <-] Ho.
  - intros Hg Ho. pose proof (Ho ord) as Hord. unfold frames_of in Hord. cbn [List.filter snd] in Hord.
    rewrite Z.eqb_refl in Hord. csimpl in Hord. fold (frames_of ord t) in Hord.
    destruct (R !! ord) as [[|r rest]|] eqn:Er; cbn in Hord; [done| |done]. injection Hord as -> Hrest.
    rewrite Z.ltb_irrefl in Hg. destruct (grade _ t) as [[d1 R1]|] eqn:E; [|done]. cbn in Hg. injection Hg as <- <-.
    apply (IH _ _ _ E). intros o. specialize (Ho o). unfold frames_of in Ho. cbn [List.filter snd] in Ho.
    destruct (Z.eqb_spec ord o) as [->|Hne].
    + by rewrite lookup_insert_eq.
    + by rewrite lookup_insert_ne.
Qed.

Lemma arm_replay_replaying (g : Gate V) sched : sched_ok sched -> replaying (arm_sparse_replay g sched).
Proof. intros Hs. by split. Qed.

Lemma take_diffs_replay g : replaying g -> fst (take_diffs g) = gs_diffs (ga_state g).
Proof. intros [Ha _ _]. unfold take_diffs. by rewrite Ha. Qed.

Lemma unmatched_replay g : replaying g -> expand <$> fst (unmatched_counts g) = recorded_left g.
Proof. intros [Ha _ _]. unfold unmatched_counts. by rewrite Ha. Qed.

Lemma replay_graded g sched w ts trace g' w' : sched_ok sched ->
  session (arm_sparse_replay g sched) w ts = Some (trace, g', w') ->
  exists d, grade (expand <$> sched) trace = Some (d, expand <$> fst (unmatched_counts g'))
    /\ fst (take_diffs g') = List.firstn MAX_DIFFS d.
Proof.
  intros Hs Hrun. pose proof (arm_replay_replaying g sched Hs) as Hg.
  destruct (session_replay _ _ _ _ _ _ Hg Hrun) as [Hg' (d & Hd & Hf)]. exists d.
  rewrite take_diffs_replay, unmatched_replay by done. by split.
Qed.

(** A replay grades every landing.  However the workers are timed, no result is handed over ahead of
    the frame its store has recorded next; what a replay reports is exactly the landings that came
    after their recorded frame, as late, and those the recording has none left for, as extra, in the
    order they happened and up to the bound of the buffer; and what it calls unmatched at the end is
    exactly the recorded landings that did not happen. *)
Theorem a_replay_grades_every_landing g sched w ts trace g' w' :
  sched_ok sched -> session (arm_sparse_replay g sched) w ts = Some (trace, g', w') ->
  exists d, grade (expand <$> sched) trace = Some (d, expand <$> fst (unmatched_counts g'))
    /\ fst (take_diffs g') = List.firstn MAX_DIFFS d.
Proof. apply replay_graded. Qed.

Lemma recorded_schedule frames (g : Gate V) w trace recs :
  Forall frame_ok frames -> record_session (arm_recording g) w frames = Some (trace, recs) ->
  sched_ok (land_schedule recs)
  /\ forall ord, default [] ((expand <$> land_schedule recs) !! ord) = frames_of ord trace.
Proof.
  intros Hok Hrec. pose proof (record_session_schedule frames (arm_recording g) w trace recs eq_refl eq_refl Hok Hrec) as Hall.
  assert (Hlook : forall ord, default [] (land_schedule recs !! ord) = records_of ord recs).
  { intros ord. unfold land_schedule. rewrite schedule_records. by rewrite lookup_empty. }
  split.
  - intros ord q Hq. specialize (Hlook ord). rewrite Hq in Hlook. cbn in Hlook. subst q. apply Hall.
  - intros ord. rewrite lookup_fmap. specialize (Hlook ord). rewrite <- (proj1 (Hall ord)), <- Hlook.
    by destruct (land_schedule recs !! ord).
Qed.

(** C35. A replay is clean exactly when it lands as recorded.  Let a session be recorded, and another run
    be replayed against its landing schedule, its workers as fast or slow as they like.  The replay
    reports no difference and leaves nothing unmatched if and only if every store's results were
    consumed on the very frames they were consumed on in the recording. *)
Theorem a_clean_replay_lands_as_recorded frames g w trace recs g1 w1 ts trace' g' w' :
  Forall frame_ok frames -> record_session (arm_recording g) w frames = Some (trace, recs) ->
  session (arm_sparse_replay g1 (land_schedule recs)) w1 ts = Some (trace', g', w') ->
  (fst (take_diffs g') = [] /\ (forall ord, default [] ((expand <$> fst (unmatched_counts g')) !! ord) = []))
  <-> forall ord, frames_of ord trace' = frames_of ord trace.
Proof.
  intros Hok Hrec Hrun. destruct (recorded_schedule _ _ _ _ _ Hok Hrec) as [Hs Hall].
  destruct (replay_graded _ _ _ _ _ _ _ Hs Hrun) as (d & Hd & ->). split.
  - intros [Hnil Hleft] ord. assert (d = []) by (by destruct d).
    pose proof (grade_clean _ _ _ _ Hd H ord) as Hc. rewrite Hleft, app_nil_r, Hall in Hc. done.
  - intros Hsame. destruct (grade_as_recorded _ _ _ _ Hd) as [-> Hleft]; [|done].
    intros o. by rewrite Hall, Hsame.
Qed.
End Session.

(** ** The paced dump *)

Section Paced.
Context {V : Type} (ord site : Z) (name : bytes) (answer : V) (arrived : nat -> bool).

(** The world is how many iterations have passed; the request is out until its answer was taken. *)
Definition mailbox (n : nat) : option V * nat := (if arrived n then Some answer else None, n).

(** The driver of a frame dump: each iteration runs the site on the virtual frame [v]; the picture is
    written, and the next virtual frame begun, only when no store was starved. *)
Fixpoint dump_iterations (iterations : nat) (g : Gate V) (v : Z) (n : nat) : option Z :=
  match iterations with
  | O => None
  | S iterations =>
      match take_owed S (dump_frame g v) ord site name (fun _ => true) mailbox n with
      | Some (_, Some _, _) => Some v
      | Some (g, None, n) =>
          let '(starved, g) := take_starved g in
          dump_iterations iterations g (if bool_decide (starved = ∅) then v + 1 else v) (S n)
      | None => None
      end
  end.

Context (v0 lag : Z).

Record pacing (g : Gate V) (v : Z) : Prop := mk_pacing {
  pc_armed : ga_armed g = true;
  pc_mode : gs_mode (ga_state g) = Mode_Dumping (Pace lag);
  pc_starved : gs_starved (ga_state g) = ∅;
  pc_sighted : (gs_sighted (ga_state g) !! (ord, site) = None /\ v = v0)
               \/ gs_sighted (ga_state g) !! (ord, site) = Some v0
}.

(** The frame the site's open claim was first seen on. *)
Lemma pacing_since g v : pacing g v -> default v (gs_sighted (ga_state g) !! (ord, site)) = v0.
Proof. intros [_ _ _ [[-> ->]| ->]]; done. Qed.

Lemma pacing_hold g v : pacing g v -> v0 <= v -> 0 <= v0 -> 0 <= lag -> v0 + lag <= u64_max ->
  exists g', pace_hold (dump_frame g v) ord site name lag true = (v <? v0 + lag, g')
    /\ ga_armed g' = true /\ gs_mode (ga_state g') = Mode_Dumping (Pace lag) /\ gs_starved (ga_state g') = ∅
    /\ (lag = 0 /\ gs_sighted (ga_state g') = gs_sighted (ga_state g)
        \/ gs_sighted (ga_state g') !! (ord, site) = Some v0).
Proof.
  intros Hp Hv Hv0 Hlag Hmax. pose proof (pacing_since g v Hp) as Hsince. destruct Hp as [Ha Hm Hst _].
  unfold pace_hold, dump_frame. rewrite Ha. cbn [negb]. destruct (Z.eqb_spec lag 0) as [->|Hne]; cbn [orb negb].
  - eexists. split; [f_equal; symmetry; apply Z.ltb_ge; lia|]. split_and!; [done..|]. by left.
  - set (g1 := with_state g (fun s => s <| gs_vframe := v |>)).
    change (gs_vframe (ga_state g1)) with v. change (gs_sighted (ga_state g1)) with (gs_sighted (ga_state g)).
    rewrite Hsince. rewrite u64_wrap_small by ints.
    match goal with |- context [gs_vframe ?s <? _] => change (gs_vframe s) with v end.
    eexists. split; [reflexivity|]. destruct (v <? v0 + lag); cbn; (split_and!; [done..|right; by rewrite lookup_insert_eq]).
Qed.

Lemma paced_landing (later : forall n, arrived n = true -> arrived (S n) = true) last iterations :
  arrived last = true -> 0 <= v0 -> 0 <= lag -> v0 + lag <= u64_max ->
  forall g v n, pacing g v -> v0 <= v <= v0 + lag ->
  (Z.to_nat (v0 + lag - v) + (last - n) < iterations)%nat ->
  dump_iterations iterations g v n = Some (v0 + lag).
Proof.
  intros Hlast Hv0 Hlag Hmax. induction iterations as [|k IH]; intros g v n Hp Hv Hk; [lia|].
  cbn [dump_iterations]. destruct (pacing_hold g v Hp) as (g' & Hh & Ha & Hm & Hst & Hsi); [lia..|].
  destruct Hp as [Ha0 Hm0 Hst0 Hsi0].
  unfold take_owed, dump_form. assert (ga_armed (dump_frame g v) = true) as -> by (unfold dump_frame; by rewrite Ha0).
  assert (gs_mode (ga_state (dump_frame g v)) = Mode_Dumping (Pace lag)) as -> by (unfold dump_frame; by rewrite Ha0).
  cbn [negb]. rewrite Hh. unfold take_starved. destruct (Z.ltb_spec v (v0 + lag)) as [Hlt|Hge].
  - rewrite Ha. cbn [negb]. rewrite Hst. rewrite bool_decide_true by done. apply IH; [|lia|lia].
    split; [done..|]. destruct Hsi as [[-> _]|Hsi]; [lia|by right].
  - assert (v = v0 + lag) by lia. subst v. unfold mailbox. destruct (arrived n) eqn:En; [done|]. cbn [is_some orb negb].
    unfold pace_settle. change (ga_armed (with_state g' _)) with (ga_armed g'). rewrite Ha. cbn [negb].
    rewrite bool_decide_false.
    2:{ cbn. rewrite Hst. intros He. apply (not_elem_of_empty (C := gset bytes) name). rewrite <- He. set_solver. }
    assert (n < last)%nat.
    { destruct (le_lt_dec last n) as [Hle|]; [|done]. exfalso. clear -Hle Hlast En later.
      induction Hle; [congruence|]. destruct (arrived m) eqn:E; [by rewrite later in En|auto]. }
    apply IH; [|lia|lia]. split; [done..|]. destruct Hsi as [[-> Hsi]|Hsi]; [|by right].
    cbn. rewrite Hsi. destruct Hsi0 as [[Hno _]|Hsome]; [left; split; [done|lia]|by right].
Qed.
End Paced.

(** In a paced dump the landing frame is the request's, not the worker's.  A request whose claim is
    first seen open on virtual frame [v0] lands on virtual frame [v0 + lag], whichever iteration its
    answer arrives on: held back until then if it is early, the picture waiting for it if it is late;
    and no take of it ever sleeps. *)
Theorem the_landing_frame_is_the_requests {V} ord site name (answer : V) arrived v0 lag last iterations g0 g :
  (forall n, arrived n = true -> arrived (S n) = true) -> arrived last = true ->
  0 <= v0 -> 0 <= lag -> v0 + lag <= u64_max ->
  arm_dump_paced g0 lag = Some g -> (Z.to_nat lag + last < iterations)%nat ->
  dump_iterations ord site name answer arrived iterations g v0 0 = Some (v0 + lag).
Proof.
  intros Hmono Hlast Hv0 Hlag Hmax Harm Hk. unfold arm_dump_paced, arm_dump_with in Harm.
  apply (paced_landing ord site name answer arrived v0 lag Hmono last); [done..| |lia|].
  - destruct (gs_mode (ga_state g0)); try done; injection Harm as <-; (split; [done..|left; by split]).
  - replace (v0 + lag - v0) with lag by lia. lia.
Qed.

(** ** A queue site under the paced dump *)

Section Batches.
Context {V W : Type} (sleep : W -> W) (ord site : Z) (name : bytes) (owed : W -> list V -> bool) (f : W -> list V * W).

(** The world, and everything the mailbox has given up so far. *)
Definition f_logged (wl : W * list V) : list V * (W * list V) :=
  let '(more, w) := f (fst wl) in (more, (w, snd wl ++ more)).

(** Takes of one queue site, the world moving before each: what each handed out. *)
Fixpoint batches (moves : list (W -> W)) (g : Gate V) (wl : W * list V) : option (list (list V) * Gate V * (W * list V)) :=
  match moves with
  | [] => Some ([], g, wl)
  | h :: moves =>
      '(g, got, wl) ← take_all_owed (fun wl => (sleep (fst wl), snd wl)) g ord site name
                        (fun wl batch => owed (fst wl) batch) f_logged (h (fst wl), snd wl);
      '(outs, g, wl) ← batches moves g wl;
      Some (got :: outs, g, wl)
  end.

Lemma batches_length moves : forall g wl outs g' wl', batches moves g wl = Some (outs, g', wl') ->
  List.length outs = List.length moves.
Proof.
  induction moves as [|h moves IH]; intros g wl outs g' wl'; cbn [batches]; [by intros [= <- _ _]|].
  destruct (take_all_owed _ _ _ _ _ _ _ _) as [[[g1 got] wl1]|]; [|done]. cbn [mbind option_bind].
  destruct (batches moves g1 wl1) as [[[outs1 g2] wl2]|] eqn:Eb; [|done]. cbn [mbind option_bind].
  intros [= <- _ _]. cbn. f_equal. by eapply IH.
Qed.

Definition kept (g : Gate V) : list V := default [] (gs_carry (ga_state g) !! (ord, site)).

Definition paced (lag : Z) (g : Gate V) : Prop := ga_armed g = true /\ gs_mode (ga_state g) = Mode_Dumping (Pace lag).

Lemma pace_hold_kept (g : Gate V) lag b held g' : pace_hold g ord site name lag b = (held, g') ->
  ga_armed g' = ga_armed g /\ gs_mode (ga_state g') = gs_mode (ga_state g) /\ gs_carry (ga_state g') = gs_carry (ga_state g).
Proof.
  unfold pace_hold. destruct (_ || _); [by intros [= <- <-]|]. intros [= <- <-]. cbn. by case_match.
Qed.

Lemma pace_settle_kept (g : Gate V) done :
  ga_armed (pace_settle g ord site name done) = ga_armed g
  /\ gs_mode (ga_state (pace_settle g ord site name done)) = gs_mode (ga_state g)
  /\ gs_carry (ga_state (pace_settle g ord site name done)) = gs_carry (ga_state g).
Proof. by destruct done. Qed.

Lemma carry_kept (g : Gate V) batch : kept g = [] ->
  kept (carry g (ord, site) batch) = batch
  /\ ga_armed (carry g (ord, site) batch) = ga_armed g /\ gs_mode (ga_state (carry g (ord, site) batch)) = gs_mode (ga_state g).
Proof.
  intros Hk. unfold carry. destruct batch; [done|]. split; [|done]. unfold kept. cbn. by rewrite lookup_insert_eq.
Qed.

Lemma batch_turn lag g wl g' got wl' : paced lag g ->
  take_all_owed (fun wl => (sleep (fst wl), snd wl)) g ord site name (fun wl batch => owed (fst wl) batch) f_logged wl
    = Some (g', got, wl') ->
  paced lag g' /\ (got = [] \/ kept g' = [])
  /\ exists more, snd wl' = snd wl ++ more /\ kept g ++ more = got ++ kept g'.
Proof.
  intros [Ha Hm]. unfold take_all_owed, dump_form. rewrite Ha, Hm. cbn [negb].
  unfold carried. set (g0 := with_state g _).
  assert (Hk0 : kept g0 = []) by (unfold kept; cbn; by rewrite lookup_delete_eq).
  assert (Hg0 : ga_armed g0 = true /\ gs_mode (ga_state g0) = Mode_Dumping (Pace lag)) by (split; [exact Ha|exact Hm]).
  destruct Hg0 as [Hga Hgm].
  fold (kept g). destruct (pace_hold g0 ord site name lag (owed (fst wl) (kept g))) as [held g1] eqn:Eh.
  destruct (pace_hold_kept _ _ _ _ _ Eh) as (Ha1 & Hm1 & Hc1).
  assert (Hk1 : kept g1 = []) by (unfold kept; rewrite Hc1; exact Hk0).
  destruct held.
  - destruct (carry_kept g1 (kept g) Hk1) as (Hk & Hac & Hmc). intros [= <- <- <-].
    split; [split; congruence|]. split; [by left|]. exists []. by rewrite Hk, !app_nil_r.
  - unfold f_logged. destruct (f (fst wl)) as [more w2]. cbn [fst snd].
    destruct (owed w2 (kept g ++ more)).
    + destruct (pace_settle_kept g1 false) as (Hs1 & Hs2 & Hs3).
      destruct (carry_kept (pace_settle g1 ord site name false) (kept g ++ more)) as (Hk & Hac & Hmc).
      { unfold kept. rewrite Hs3. exact Hk1. }
      intros [= <- <- <-]. split; [split; congruence|]. split; [by left|]. exists more. by rewrite Hk.
    + destruct (pace_settle_kept g1 true) as (Hs1 & Hs2 & Hs3).
      intros [= <- <- <-]. split; [split; congruence|].
      assert (Hk : kept (pace_settle g1 ord site name true) = []) by (unfold kept; rewrite Hs3; exact Hk1).
      split; [by right|]. exists more. by rewrite Hk, app_nil_r.
Qed.
End Batches.

(** A batch is handed out whole.  Whatever a queue site of a paced dump polls out of its mailbox, over
    any series of takes, is handed out in the order it was polled or still kept for the next take:
    nothing is lost, repeated or reordered; and a take that hands something out keeps nothing back. *)
Theorem a_batch_is_handed_out_whole {V W} sleep ord site name owed (f : W -> list V * W) lag moves : forall g w log outs g' w' log',
  paced lag g -> batches sleep ord site name owed f moves g (w, log) = Some (outs, g', (w', log')) ->
  exists polled, log' = log ++ polled /\ kept ord site g ++ polled = List.concat outs ++ kept ord site g'
    /\ (last outs <> Some [] -> outs <> [] -> kept ord site g' = []).
Proof.
  induction moves as [|h moves IH]; intros g w log outs g' w' log' Hp; cbn [batches].
  - intros [= <- <- <- <-]. exists []. by rewrite !app_nil_r.
  - destruct (take_all_owed _ _ _ _ _ _ _ _) as [[[g1 got] [w1 log1]]|] eqn:Et; [|done]. cbn [mbind option_bind].
    destruct (batches _ _ _ _ _ _ moves g1 (w1, log1)) as [[[outs1 g2] wl2]|] eqn:Eb; [|done]. cbn [mbind option_bind].
    intros [= <- <- ->]. destruct (batch_turn sleep ord site name owed f lag g _ _ _ _ Hp Et) as (Hp1 & Hone & more & Hlog & Hk).
    cbn [snd fst] in Hlog. destruct (IH _ _ _ _ _ _ _ Hp1 Eb) as (polled & -> & Hk2 & Hlast).
    exists (more ++ polled). subst log1. rewrite app_assoc. split; [done|]. split.
    + rewrite app_assoc, Hk. cbn [List.concat]. by rewrite <- !app_assoc, Hk2.
    + destruct outs1 as [|o outs1]; [|intros H _; by apply Hlast].
      cbn. intros Hne _. destruct moves; [|by apply batches_length in Eb].
      cbn in Eb. injection Eb as <- _. by destruct Hone as [->|?].
Qed.

(** ** Claims *)

Section Claims.
Context {M : Type} (gen_of : M -> Z).

Inductive FetchOp :=
  | Fo_claim (gen : Z)
  | Fo_release
  | Fo_release_for (gen : Z)
  | Fo_refuse_for (gen : Z)
  | Fo_take_refused (gen : Z)
  | Fo_take
  | Fo_clear
  | Fo_post (mail : M) (beats : M -> bool).

(** One operation, and the mail it hands to the owner. *)
Definition fetch_op (t : Fetch M) (op : FetchOp) : list M * Fetch M :=
  match op with
  | Fo_claim gen => ([], claim t gen)
  | Fo_release => ([], release t)
  | Fo_release_for gen => ([], release_for t gen)
  | Fo_refuse_for gen => ([], refuse_for t gen)
  | Fo_take_refused gen => ([], snd (take_refused t gen))
  | Fo_take => let '(mail, t) := take_current gen_of t in (option_list mail, t)
  | Fo_clear => ([], fetch_clear t)
  | Fo_post mail beats => ([], fetch_post t mail beats)
  end.

Fixpoint fetch_run (t : Fetch M) (ops : list FetchOp) : list M * Fetch M :=
  match ops with
  | [] => ([], t)
  | op :: ops => let '(l, t) := fetch_op t op in let '(ls, t) := fetch_run t ops in (l ++ ls, t)
  end.

(** The owner neither supersedes the request nor says that it was refused. *)
Definition spares (gen : Z) (op : FetchOp) : Prop :=
  match op with
  | Fo_claim _ | Fo_release | Fo_clear => False
  | Fo_release_for gen' | Fo_refuse_for gen' => gen' <> gen
  | _ => True
  end.

Lemma holds_spec (t : Fetch M) gen : holds t gen = true <-> ft_in_flight t = true /\ ft_claimed t = gen.
Proof. unfold holds, busy. by rewrite andb_true_iff, Z.eqb_eq. Qed.

Lemma fetch_op_holds t gen op : holds t gen = true -> spares gen op ->
  let '(l, t') := fetch_op t op in
  (l = [] /\ holds t' gen = true) \/ exists mail, l = [mail] /\ gen_of mail = gen.
Proof.
  intros Ht Hop. pose proof Ht as [Hf Hc]%holds_spec.
  destruct op as [| |gen'|gen'|gen'| | |mail beats]; cbn [fetch_op spares] in *; try done.
  - left. split; [done|]. unfold release_for. destruct (holds t gen') eqn:E; [|done]. apply holds_spec in E as [_ E]. congruence.
  - left. split; [done|]. unfold refuse_for. destruct (holds t gen') eqn:E; [|done]. apply holds_spec in E as [_ E]. congruence.
  - left. split; [done|]. unfold take_refused. by case_match.
  - unfold take_current. destruct (ft_slot t) as [mail|]; [|by left]. unfold busy. cbn. rewrite Hf. cbn [andb].
    destruct (Z.eqb_spec (gen_of mail) (ft_claimed t)) as [He|He]; cbn.
    + right. exists mail. split; [done|congruence].
    + left. by rewrite <- Ht.
  - left. split; [done|]. unfold fetch_post. case_match; by rewrite <- Ht.
Qed.

(** A stale answer frees no newer claim.  A request holds the fetch.  Whatever answers are posted
    meanwhile, and however often the mailbox is taken, the claim is held until the answer of that
    very request is handed over, which is the first mail the owner sees: the answer of a request it
    superseded is neither handed over nor counted as the one that was waited for. *)
Theorem a_stale_answer_frees_no_newer_claim gen ops : forall t,
  holds t gen = true -> Forall (spares gen) ops ->
  let '(taken, t') := fetch_run t ops in
  (taken = [] /\ holds t' gen = true) \/ exists mail later, taken = mail :: later /\ gen_of mail = gen.
Proof.
  induction ops as [|op ops IH]; intros t Ht Hops; [by left|]. apply Forall_cons in Hops as [Hop Hops]. cbn [fetch_run].
  pose proof (fetch_op_holds t gen op Ht Hop) as H. destruct (fetch_op t op) as [l t1].
  destruct H as [[-> Ht1]|(mail & -> & Hm)].
  - specialize (IH t1 Ht1 Hops). by destruct (fetch_run t1 ops).
  - destruct (fetch_run t1 ops) as [ls t2]. right. by exists mail, ls.
Qed.
End Claims.
