(* ===== verification/RouteControl.v ===== *)
(** * Route control: the reducer

    [PlayerControl] of [media/src/route/decision.rs], the one mutex that says which route is live,
    what the viewer asked for, and which asynchronous party may still change either: resolves,
    claimed actions, native starts, flights, the trial of an Original.  A definition is one critical
    section; a function of the source that releases the mutex and takes it again is cut there
    ([.._open], [.._close]), so that a history may put other parties' sections in between.

    What the reducer copies and never looks into is the class [RouteData].  A [u64] generation is a
    [Z]; where the source panics the answer is [None]. *)

From S2P Require Import Prelude Bytes Ladder.

#[local] Open Scope Z_scope.

(** ** The session's part of the route *)

(** Types the reducer only moves. *)
Class RouteData := mk_route_data {
  AutoOriginalCandidate : Type;
  EnhancementOutcome : Type;
  Dovi : Type;
  DvDecision : Type;
  Fps : Type
}.

Inductive Quality :=
  | Quality_Auto | Quality_Original | Quality_P1080High | Quality_P1080 | Quality_P720
  | Quality_P720Low | Quality_P480.
#[export] Instance Quality_eq_dec : EqDecision Quality.
Proof. solve_decision. Defined.

Inductive TranscodeDelivery := ProgressiveMkv | FixedHls (seconds_per_segment : Z).

Record AudioEnhancements := mk_enhancements { boost_dialog : bool; normalize_loudness : bool }.

Record EncodeContract := mk_contract {
  ec_remux : bool;
  ec_delivery : TranscodeDelivery;
  ec_no_video_copy : bool;
  ec_ceiling : option Ceiling;
  ec_audio : AudioEnhancements
}.
#[export] Instance EncodeContract_eta : Eta EncodeContract := fun r =>
  mk_contract (ec_remux r) (ec_delivery r) (ec_no_video_copy r) (ec_ceiling r) (ec_audio r).

Record CarriedAudio := mk_carried {
  ca_sid : Z; ca_ordinal : Z; ca_codec : bytes; ca_channels : Z; ca_can_normalize_loudness : bool;
  ca_immersive : bool; ca_sample_rate : Z; ca_bit_depth : Z
}.

Section Reducer.
Context `{RouteData}.

Record AppliedRouteProjection := mk_projection {
  pr_url : bytes;
  pr_tsession : bytes;
  pr_contract : EncodeContract;
  pr_enhancement : EnhancementOutcome;
  pr_auto_original_watched : bool;
  pr_auto_original : option AutoOriginalCandidate;
  pr_audio : option CarriedAudio;
  pr_subtitle_sid : Z;
  pr_subtitle_sidecar : bool;
  pr_subtitle_client_drawable : bool;
  pr_subtitle_ordinal : Z;
  pr_side_subs_refused : bool;
  pr_stream_vcodec : bytes;
  pr_stream_acodec : bytes;
  pr_src_fps : Fps;
  pr_stream_fps : Fps;
  pr_stream_dovi : Dovi;
  pr_stream_dv_decision : DvDecision;
  pr_stream_immersive : bool
}.
#[global] Instance AppliedRouteProjection_eta : Eta AppliedRouteProjection := fun r =>
  mk_projection (pr_url r) (pr_tsession r) (pr_contract r) (pr_enhancement r)
    (pr_auto_original_watched r) (pr_auto_original r) (pr_audio r) (pr_subtitle_sid r)
    (pr_subtitle_sidecar r) (pr_subtitle_client_drawable r) (pr_subtitle_ordinal r)
    (pr_side_subs_refused r) (pr_stream_vcodec r) (pr_stream_acodec r) (pr_src_fps r)
    (pr_stream_fps r) (pr_stream_dovi r) (pr_stream_dv_decision r) (pr_stream_immersive r).

Inductive CandidatePurpose := NewCandidate | ReopenCurrent | RollbackExisting | Revisit.

(** The fields of [PlaybackSession] the reducer's functions read or write. *)
Record PlaybackSession := mk_session {
  ps_url : bytes;
  ps_tsession : bytes;
  ps_cur_contract : EncodeContract;
  ps_cur_enhancement : EnhancementOutcome;
  ps_cur_auto_original_watched : bool;
  ps_auto_original : option AutoOriginalCandidate;
  ps_cur_audio : option CarriedAudio;
  ps_cur_sub_sid : Z;
  ps_cur_sub_sidecar : bool;
  ps_cur_sub_client_drawable : bool;
  ps_cur_sub_ordinal : Z;
  ps_side_subs_refused : bool;
  ps_stream_vcodec : bytes;
  ps_stream_acodec : bytes;
  ps_src_fps : Fps;
  ps_stream_fps : Fps;
  ps_stream_dovi : Dovi;
  ps_stream_dv_decision : DvDecision;
  ps_stream_immersive : bool;
  ps_planned_feed_offer : option Z;
  ps_planned_feed_purpose : CandidatePurpose;
  ps_admitted_feed_offer : option Z;
  ps_auto_fixture_base : bytes;
  ps_auto_switches : Z;
  ps_auto_last_switch : option Z
}.
#[global] Instance PlaybackSession_eta : Eta PlaybackSession := fun r =>
  mk_session (ps_url r) (ps_tsession r) (ps_cur_contract r) (ps_cur_enhancement r)
    (ps_cur_auto_original_watched r) (ps_auto_original r) (ps_cur_audio r) (ps_cur_sub_sid r)
    (ps_cur_sub_sidecar r) (ps_cur_sub_client_drawable r) (ps_cur_sub_ordinal r)
    (ps_side_subs_refused r) (ps_stream_vcodec r) (ps_stream_acodec r) (ps_src_fps r)
    (ps_stream_fps r) (ps_stream_dovi r) (ps_stream_dv_decision r) (ps_stream_immersive r)
    (ps_planned_feed_offer r) (ps_planned_feed_purpose r) (ps_admitted_feed_offer r)
    (ps_auto_fixture_base r) (ps_auto_switches r) (ps_auto_last_switch r).

Definition route_projection (s : PlaybackSession) : AppliedRouteProjection :=
  mk_projection (ps_url s) (ps_tsession s) (ps_cur_contract s) (ps_cur_enhancement s)
    (ps_cur_auto_original_watched s) (ps_auto_original s) (ps_cur_audio s) (ps_cur_sub_sid s)
    (ps_cur_sub_sidecar s) (ps_cur_sub_client_drawable s) (ps_cur_sub_ordinal s)
    (ps_side_subs_refused s) (ps_stream_vcodec s) (ps_stream_acodec s) (ps_src_fps s)
    (ps_stream_fps s) (ps_stream_dovi s) (ps_stream_dv_decision s) (ps_stream_immersive s).

(** The file's own frame rate is not written back. *)
Definition install_route_projection (s : PlaybackSession) (p : AppliedRouteProjection) : PlaybackSession :=
  mk_session (pr_url p) (pr_tsession p) (pr_contract p) (pr_enhancement p)
    (pr_auto_original_watched p) (pr_auto_original p) (pr_audio p) (pr_subtitle_sid p)
    (pr_subtitle_sidecar p) (pr_subtitle_client_drawable p) (pr_subtitle_ordinal p)
    (pr_side_subs_refused p) (pr_stream_vcodec p) (pr_stream_acodec p) (ps_src_fps s)
    (pr_stream_fps p) (pr_stream_dovi p) (pr_stream_dv_decision p) (pr_stream_immersive p)
    (ps_planned_feed_offer s) (ps_planned_feed_purpose s) (ps_admitted_feed_offer s)
    (ps_auto_fixture_base s) (ps_auto_switches s) (ps_auto_last_switch s).

(** ** Who may change the route *)

Record ActiveHlsRoute := mk_active_hls {
  ah_url : bytes; ah_rung : Rung; ah_observed : option (ObservedHlsVariant * Z)
}.
#[global] Instance ActiveHlsRoute_eta : Eta ActiveHlsRoute := fun r =>
  mk_active_hls (ah_url r) (ah_rung r) (ah_observed r).

Record ActiveEncoderState := mk_active { ae_epoch : Z; ae_id : bytes; ae_hls : option ActiveHlsRoute }.
#[global] Instance ActiveEncoderState_eta : Eta ActiveEncoderState := fun r =>
  mk_active (ae_epoch r) (ae_id r) (ae_hls r).

Record RouteLease := mk_lease { rl_epoch : Z; rl_encoder : bytes }.
#[global] Instance RouteLease_eq_dec : EqDecision RouteLease.
Proof. solve_decision. Defined.

Record WorkerTicket := mk_ticket {
  wt_route : RouteLease; wt_engine_epoch : Z; wt_media_epoch : Z; wt_applied_revision : Z
}.
#[global] Instance WorkerTicket_eq_dec : EqDecision WorkerTicket.
Proof. solve_decision. Defined.

Inductive RecoveryCause := Cause_Automatic | Cause_ManualOriginal | Cause_EnhancementReleased.
#[global] Instance RecoveryCause_eq_dec : EqDecision RecoveryCause.
Proof. solve_decision. Defined.

Definition needs_part_admission (c : RecoveryCause) : bool :=
  match c with Cause_Automatic => false | Cause_ManualOriginal | Cause_EnhancementReleased => true end.

Inductive UserRouteIntent :=
  | Retranscode | NativeAudioReload | AdaptiveReload | RecoverOriginal (cause : RecoveryCause).
#[global] Instance UserRouteIntent_eq_dec : EqDecision UserRouteIntent.
Proof. solve_decision. Defined.

Inductive AutomaticRouteIntent :=
  | OriginalToHls (ticket : WorkerTicket) (conservative_kbps position_ns : Z)
  | HlsToOriginal (ticket : WorkerTicket) (evidence_kbps position_ns : Z).

Inductive AutomaticIntentResult := Intent_Accepted | Intent_Busy | Intent_Stale.

Inductive RouteIntent := Intent_User (i : UserRouteIntent) | Intent_Automatic (i : AutomaticRouteIntent).

(** The revision, quality and projection a claim was built from, when its server half runs on a
    worker. *)
Record ClaimSnapshot := mk_claim_snapshot {
  cs_revision : Z; cs_quality : Quality; cs_projection : AppliedRouteProjection
}.

Record ClaimedRouteAction := mk_claimed {
  cl_serial : Z; cl_ticket : WorkerTicket; cl_intent : RouteIntent; cl_displaced_pick : bool;
  cl_snapshot : option ClaimSnapshot
}.

Record RouteStartAttempt := mk_attempt { at_serial : Z; at_attempt : Z }.
#[global] Instance RouteStartAttempt_eq_dec : EqDecision RouteStartAttempt.
Proof. solve_decision. Defined.

Inductive RouteStartResult := Started | NoRoute | StartFailed.
#[global] Instance RouteStartResult_eq_dec : EqDecision RouteStartResult.
Proof. solve_decision. Defined.

Inductive OriginalTrialPhase :=
  | Trial_Preparing (serial : Z)
  | Trial_Prepared (serial : Z)
  | Trial_Starting (serial attempt : Z)
  | Trial_AwaitingFrame (serial : Z)
  | Trial_Failed (serial : Z).

Inductive RouteApplyResult := Apply_Prepared | Apply_Rejected | Apply_Cancelled.

Inductive ControlPhase :=
  | Idle
  | Resolving
  | Stable
  | StagingUser (serial : Z)
  | Applying (serial : Z)
  | Preparing (serial : Z)
  | Prepared (serial : Z)
  | Starting (serial attempt : Z)
  | Completing (serial : Z)
  | OriginalTrial (trial : OriginalTrialPhase)
  | Failed (serial : Z)
  | Stopping.
#[global] Instance OriginalTrialPhase_eq_dec : EqDecision OriginalTrialPhase.
Proof. solve_decision. Defined.
#[global] Instance ControlPhase_eq_dec : EqDecision ControlPhase.
Proof. solve_decision. Defined.

Definition preparing_serial (p : ControlPhase) : option Z :=
  match p with
  | Preparing serial | OriginalTrial (Trial_Preparing serial) => Some serial
  | _ => None
  end.

Inductive ResolveFallback :=
  | Fallback_Idle | Fallback_Stable | Fallback_Failed (serial : Z) | Fallback_Trial (serial : Z).

Record TimelineProjection := mk_timeline {
  tp_sid : Z; tp_rating_key : bytes; tp_logical_session : bytes; tp_play_queue_id : bytes;
  tp_play_queue_item_id : bytes; tp_audio_stream_id : Z; tp_subtitle_stream_id : Z
}.
#[global] Instance TimelineProjection_eta : Eta TimelineProjection := fun r =>
  mk_timeline (tp_sid r) (tp_rating_key r) (tp_logical_session r) (tp_play_queue_id r)
    (tp_play_queue_item_id r) (tp_audio_stream_id r) (tp_subtitle_stream_id r).

Record ReportedTimeline := mk_reported { rt_sid : Z; rt_rating_key : bytes; rt_session : bytes }.

(** The way back of an Original recovery, until decoded frames prove it. *)
Record PendingOriginal := mk_pending_original {
  po_previous_applied_revision : Z;
  po_previous_applied_quality : Quality;
  po_previous_applied_projection : option AppliedRouteProjection;
  po_candidate_projection : AppliedRouteProjection;
  po_encoder : bytes;
  po_replacement_encoder : bytes;
  po_offset_secs : Z;
  po_previous : AppliedRouteProjection;
  po_previous_feed_offer : option Z;
  po_adopted_by_user : bool;
  po_charge_visible_switch_on_commit : bool;
  po_deferred_quality : option Quality;
  po_deferred_audio : option CarriedAudio;
  po_deferred_reconcile : bool
}.
#[global] Instance PendingOriginal_eta : Eta PendingOriginal := fun r =>
  mk_pending_original (po_previous_applied_revision r) (po_previous_applied_quality r)
    (po_previous_applied_projection r) (po_candidate_projection r) (po_encoder r)
    (po_replacement_encoder r) (po_offset_secs r) (po_previous r) (po_previous_feed_offer r)
    (po_adopted_by_user r) (po_charge_visible_switch_on_commit r) (po_deferred_quality r)
    (po_deferred_audio r) (po_deferred_reconcile r).

Record DeferredOriginalEffects := mk_deferred {
  de_quality : option Quality; de_audio : option CarriedAudio; de_reconcile : bool
}.

(** [DeferredOriginalEffects::from_pending] and [is_empty]. *)
Definition from_pending (p : PendingOriginal) : DeferredOriginalEffects :=
  mk_deferred (po_deferred_quality p) (po_deferred_audio p) (po_deferred_reconcile p).
Definition deferred_is_empty (d : DeferredOriginalEffects) : bool :=
  match de_quality d, de_audio d with None, None => negb (de_reconcile d) | _, _ => false end.

Record PlayerControl := mk_control {
  pc_active : ActiveEncoderState;
  pc_engine_epoch : Z;
  pc_media_epoch : Z;
  pc_desired_revision : Z;
  pc_desired_quality : Quality;
  pc_applied_revision : Z;
  pc_applied_quality : Quality;
  pc_applied_projection : option AppliedRouteProjection;
  pc_next_action : Z;
  pc_pending_user : option UserRouteIntent;
  pc_claimed_user : option (Z * UserRouteIntent * bool);
  pc_displaced_pick : bool;
  pc_pending_auto : option AutomaticRouteIntent;
  pc_pending_seek_ns : option Z;
  pc_phase : ControlPhase;
  pc_flight : option Z;
  pc_flight_recovery : option Z;
  pc_flight_resume : option Z;
  pc_flight_engineless : option Z;
  pc_flight_offset_ns : option Z;
  pc_resolve_fallback : option ResolveFallback;
  pc_next_start_attempt : Z;
  pc_start_results : list (RouteStartAttempt * RouteStartResult);
  pc_last_start_result : option (RouteStartAttempt * RouteStartResult);
  pc_start_deferred : option (Z * DeferredOriginalEffects);
  pc_pending_original : option PendingOriginal;
  pc_timeline : option TimelineProjection;
  pc_reported_timeline : option ReportedTimeline;
  pc_original_refused_on : option bytes
}.
#[global] Instance PlayerControl_eta : Eta PlayerControl := fun r =>
  mk_control (pc_active r) (pc_engine_epoch r) (pc_media_epoch r) (pc_desired_revision r)
    (pc_desired_quality r) (pc_applied_revision r) (pc_applied_quality r) (pc_applied_projection r)
    (pc_next_action r) (pc_pending_user r) (pc_claimed_user r) (pc_displaced_pick r)
    (pc_pending_auto r) (pc_pending_seek_ns r) (pc_phase r) (pc_flight r) (pc_flight_recovery r)
    (pc_flight_resume r) (pc_flight_engineless r) (pc_flight_offset_ns r) (pc_resolve_fallback r)
    (pc_next_start_attempt r) (pc_start_results r) (pc_last_start_result r) (pc_start_deferred r)
    (pc_pending_original r) (pc_timeline r) (pc_reported_timeline r) (pc_original_refused_on r).

(** The static the process starts with. *)
Definition PLAYER_CONTROL : PlayerControl :=
  mk_control (mk_active 0 [] None) 1 1 1 Quality_Original 1 Quality_Original None 0 None None false
    None None Stable None None None None None None 0 [] None None None None None None.

(** ** Generations and tickets *)

(** [next_generation], [next_route_epoch]: zero is skipped when the counter wraps. *)
Definition next_generation (value : Z) : Z :=
  let next := u64_wrap (value + 1) in if next =? 0 then 1 else next.
Definition next_route_epoch (epoch : Z) : Z :=
  let next := u64_wrap (epoch + 1) in if next =? 0 then 1 else next.

Definition advance_route (a : ActiveEncoderState) : ActiveEncoderState :=
  a <| ae_epoch := next_route_epoch (ae_epoch a) |>.

Definition lease_of (a : ActiveEncoderState) : RouteLease := mk_lease (ae_epoch a) (ae_id a).

Definition worker_ticket_of (c : PlayerControl) : WorkerTicket :=
  mk_ticket (lease_of (pc_active c)) (pc_engine_epoch c) (pc_media_epoch c) (pc_applied_revision c).

Definition ticket_is_current (c : PlayerControl) (ticket : WorkerTicket) : bool :=
  bool_decide (ticket = worker_ticket_of c).

Definition encoder (t : WorkerTicket) : bytes := rl_encoder (wt_route t).

Definition automatic_ticket (i : AutomaticRouteIntent) : WorkerTicket :=
  match i with OriginalToHls t _ _ | HlsToOriginal t _ _ => t end.

(** The next action's serial, stored as the last one. *)
Definition mint_action (c : PlayerControl) : Z * PlayerControl :=
  let serial := next_generation (pc_next_action c) in (serial, c <| pc_next_action := serial |>).

(** [PlayerControl::clear_flight]. *)
Definition clear_flight (c : PlayerControl) : PlayerControl :=
  c <| pc_flight := None |> <| pc_flight_recovery := None |> <| pc_flight_resume := None |>
    <| pc_flight_engineless := None |> <| pc_flight_offset_ns := None |>.

Definition retarget_automatic_intent (i : AutomaticRouteIntent) (ticket : WorkerTicket)
    (position_ns : option Z) : AutomaticRouteIntent :=
  let position old := match position_ns with Some p => Z.max p 0 | None => old end in
  match i with
  | OriginalToHls _ kbps old => OriginalToHls ticket kbps (position old)
  | HlsToOriginal _ kbps old => HlsToOriginal ticket kbps (position old)
  end.

(** ** The viewer's contract *)

Definition advance_user_contract_locked (c : PlayerControl) : PlayerControl :=
  c <| pc_desired_revision := next_generation (pc_desired_revision c) |>.

(** The guard's serial, if the boundary opened a staging window. *)
Definition begin_user_contract_boundary (c : PlayerControl) : option Z * PlayerControl :=
  let c := advance_user_contract_locked c in
  match pc_phase c with
  | Stable => let '(serial, c) := mint_action c in (Some serial, c <| pc_phase := StagingUser serial |>)
  | _ => (None, c)
  end.

(** [UserEditGuard::drop]. *)
Definition drop_edit_guard (serial : option Z) (c : PlayerControl) : PlayerControl :=
  match serial with
  | Some serial => if bool_decide (pc_phase c = StagingUser serial) then c <| pc_phase := Stable |> else c
  | None => c
  end.

(** The two critical sections, the second of which sets the quality. *)
Definition set_desired_quality (quality : Quality) (c : PlayerControl) : PlayerControl :=
  c <| pc_desired_quality := quality |>.
Definition begin_user_quality_boundary (quality : Quality) (c : PlayerControl) : option Z * PlayerControl :=
  let '(guard, c) := begin_user_contract_boundary c in (guard, set_desired_quality quality c).

Definition merge_user_route_intent (pending : option UserRouteIntent) (incoming : UserRouteIntent)
    (preserve_original_recovery : bool) : UserRouteIntent :=
  match pending, incoming with
  | _, RecoverOriginal cause => RecoverOriginal cause
  | Some (RecoverOriginal cause), Retranscode =>
      if preserve_original_recovery then RecoverOriginal cause else Retranscode
  | Some (RecoverOriginal _), newer => newer
  | Some Retranscode, (NativeAudioReload | AdaptiveReload)
  | Some (NativeAudioReload | AdaptiveReload), Retranscode => Retranscode
  | Some NativeAudioReload, AdaptiveReload | Some AdaptiveReload, NativeAudioReload => NativeAudioReload
  | _, newer => newer
  end.

(** [quality] is the durable preference. *)
Definition queue_user_route_intent (quality : Quality) (s : PlaybackSession) (intent : UserRouteIntent)
    (displaced_pick : bool) (c : PlayerControl) : PlayerControl :=
  let c := c <| pc_displaced_pick := pc_displaced_pick c || displaced_pick |> in
  let c := advance_user_contract_locked c in
  let preserve := bool_decide (quality = Quality_Original) && bool_decide (is_Some (ps_auto_original s)) in
  c <| pc_pending_user := Some (merge_user_route_intent (pc_pending_user c) intent preserve) |>.

Definition request_user_route_intent (quality : Quality) (s : PlaybackSession) (intent : UserRouteIntent)
    (c : PlayerControl) : PlayerControl :=
  queue_user_route_intent quality s intent false c.

Definition cancel_user_route_intent (intent : UserRouteIntent) (c : PlayerControl) : PlayerControl :=
  if bool_decide (pc_pending_user c = Some intent)
  then c <| pc_pending_user := None |> <| pc_displaced_pick := false |> else c.

(** [publish_applied_route_projection]. *)
Definition publish_applied_route_projection (s : PlaybackSession) (c : PlayerControl) : PlayerControl :=
  c <| pc_applied_projection := Some (route_projection s) |>.

Definition commit_in_place_route_projection (s : PlaybackSession) (quality_contract : bool)
    (c : PlayerControl) : PlayerControl :=
  let projection := route_projection s in
  let timeline c :=
    match pc_timeline c with
    | Some t => c <| pc_timeline := Some (t <| tp_audio_stream_id := default 0 (ca_sid <$> pr_audio projection) |>
                                            <| tp_subtitle_stream_id := pr_subtitle_sid projection |>) |>
    | None => c
    end in
  match pc_phase c with
  | Stable | StagingUser _ | Completing _ =>
      let c := if quality_contract
               then c <| pc_applied_revision := pc_desired_revision c |>
                      <| pc_applied_quality := pc_desired_quality c |> else c in
      timeline (c <| pc_applied_projection := Some projection |>)
  | OriginalTrial _ =>
      if quality_contract then c
      else timeline (c <| pc_pending_original :=
             (fun p => p <| po_candidate_projection := projection |>) <$> pc_pending_original c |>)
  | _ => c
  end.

(** ** Resolves *)

(** [None]: a transaction is in flight, the request is refused. *)
Definition begin_playback_request (quality : Quality) (c : PlayerControl) : option Z * PlayerControl :=
  let open (fallback : option ResolveFallback) (c : PlayerControl) :=
    let c := c <| pc_desired_revision := next_generation (pc_desired_revision c) |>
               <| pc_desired_quality := quality |> <| pc_pending_user := None |>
               <| pc_displaced_pick := false |> <| pc_pending_auto := None |>
               <| pc_pending_seek_ns := None |> <| pc_original_refused_on := None |> in
    let c := match fallback with Some f => c <| pc_resolve_fallback := Some f |> | None => c end in
    (Some (pc_desired_revision c), c <| pc_phase := Resolving |>) in
  match pc_phase c with
  | Resolving => open None c
  | Preparing serial =>
      if bool_decide (pc_flight_engineless c = Some serial)
      then open (Some (Fallback_Failed serial)) (clear_flight c) else (None, c)
  | OriginalTrial (Trial_Preparing serial) =>
      if bool_decide (pc_flight_engineless c = Some serial)
      then open (Some (Fallback_Trial serial)) (clear_flight c) else (None, c)
  | Stable => open (Some Fallback_Stable) c
  | Failed serial => open (Some (Fallback_Failed serial)) c
  | Idle | Stopping => open (Some Fallback_Idle) c
  | Prepared _ | Starting _ _ | StagingUser _ | Applying _ | Completing _ | OriginalTrial _ => (None, c)
  end.

(** [prepare_playback_landing]: the contract that landed, then who owns its start. *)
Definition landing_contract (quality : Quality) (s : PlaybackSession) (playable : bool) (c : PlayerControl) :
    PlayerControl :=
  let c := if bool_decide (pc_phase c = Resolving) then c else c <| pc_desired_quality := quality |> in
  let c := c <| pc_engine_epoch := next_generation (pc_engine_epoch c) |>
             <| pc_media_epoch := next_generation (pc_media_epoch c) |> in
  let c := if playable
           then c <| pc_applied_revision := pc_desired_revision c |>
                  <| pc_applied_quality := pc_desired_quality c |>
                  <| pc_applied_projection := Some (route_projection s) |> else c in
  c <| pc_pending_auto := None |>.

Definition prepare_playback_landing (quality : Quality) (s : PlaybackSession) (playable : bool)
    (c : PlayerControl) : option Z * PlayerControl :=
  let c := landing_contract quality s playable c in
  if playable then
    let '(serial, c) := match pc_phase c with
                        | Preparing serial | Prepared serial | Starting serial _ => (serial, c)
                        | _ => mint_action c
                        end in
    let c := match pc_phase c with Starting _ _ => c | _ => c <| pc_phase := Prepared serial |> end in
    (Some serial, c <| pc_resolve_fallback := None |>)
  else (None, c <| pc_timeline := None |> <| pc_phase := Idle |> <| pc_resolve_fallback := None |>).

(** [cancel_playback_request]: what the first section reads, and the second. *)
Definition cancel_open (c : PlayerControl) : option (ResolveFallback * option AppliedRouteProjection) :=
  match pc_phase c with
  | Resolving =>
      let fallback := default Fallback_Idle (pc_resolve_fallback c) in
      Some (fallback, match fallback with
                      | Fallback_Stable | Fallback_Failed _ => pc_applied_projection c
                      | _ => None
                      end)
  | _ => None
  end.

Definition fallback_phase (f : ResolveFallback) : ControlPhase :=
  match f with
  | Fallback_Idle => Idle
  | Fallback_Stable => Stable
  | Fallback_Failed serial => Failed serial
  | Fallback_Trial serial => OriginalTrial (Trial_Prepared serial)
  end.

Definition cancel_close (fallback : ResolveFallback) (c : PlayerControl) : PlayerControl :=
  match pc_phase c with
  | Resolving => c <| pc_pending_auto := None |> <| pc_resolve_fallback := None |>
                   <| pc_phase := fallback_phase fallback |>
  | _ => c
  end.

Definition restore (s : PlaybackSession) (p : option AppliedRouteProjection) : PlaybackSession :=
  match p with Some applied => install_route_projection s applied | None => s end.

Definition cancel_playback_request (s : PlaybackSession) (c : PlayerControl) : PlaybackSession * PlayerControl :=
  match cancel_open c with
  | None => (s, c)
  | Some (fallback, p) => (restore s p, cancel_close fallback c)
  end.

(** ** Automatic requests, seeks and claims *)

Definition publish_automatic_route_intent (i : AutomaticRouteIntent) (c : PlayerControl) :
    AutomaticIntentResult * PlayerControl :=
  if negb (ticket_is_current c (automatic_ticket i)) then (Intent_Stale, c)
  else match pc_phase c, pc_pending_user c, pc_pending_auto c, pc_pending_seek_ns c with
       | Stable, None, None, None => (Intent_Accepted, c <| pc_pending_auto := Some i |>)
       | _, _, _, _ => (Intent_Busy, c)
       end.

Definition retarget_pending (position_ns : option Z) (c : PlayerControl) : PlayerControl :=
  c <| pc_pending_auto :=
    (fun i => retarget_automatic_intent i (worker_ticket_of c) position_ns) <$> pc_pending_auto c |>.

Definition note_user_seek_intent (position_ns : Z) (c : PlayerControl) : PlayerControl :=
  retarget_pending (Some position_ns) (c <| pc_pending_seek_ns := Some (Z.max position_ns 0) |>).

Definition commit_user_seek (c : PlayerControl) : bool * PlayerControl :=
  match pc_pending_seek_ns c with
  | None => (false, c)
  | Some _ => (true, retarget_pending None (c <| pc_pending_seek_ns := None |>
                                              <| pc_media_epoch := next_generation (pc_media_epoch c) |>))
  end.

Definition reject_user_seek (c : PlayerControl) : PlayerControl := c <| pc_pending_seek_ns := None |>.

Definition claim_route_action (c : PlayerControl) : option ClaimedRouteAction * PlayerControl :=
  let claim intent displaced c :=
    let '(serial, c) := mint_action c in
    let ticket := worker_ticket_of c in
    let c := c <| pc_phase := Applying serial |> in
    let claimed := match intent with
                   | Intent_User user => Some (serial, user, displaced)
                   | Intent_Automatic _ => None
                   end in
    (Some (mk_claimed serial ticket intent displaced None), c <| pc_claimed_user := claimed |>) in
  match pc_phase c with
  | Stable =>
      match pc_pending_user c with
      | Some user => claim (Intent_User user) (pc_displaced_pick c)
                       (c <| pc_pending_user := None |> <| pc_displaced_pick := false |>)
      | None =>
          match pc_pending_auto c with
          | None => (None, c)
          | Some automatic =>
              let c := c <| pc_pending_auto := None |> in
              if ticket_is_current c (automatic_ticket automatic)
              then claim (Intent_Automatic automatic) false c else (None, c)
          end
      end
  | _ => (None, c)
  end.

Definition note_original_refused_on (enc : bytes) (c : PlayerControl) : PlayerControl :=
  c <| pc_original_refused_on := Some enc |>.
Definition original_refused_on (enc : bytes) (c : PlayerControl) : bool :=
  bool_decide (pc_original_refused_on c = Some enc).

(** [finish_route_action]: [None], the action owns nothing; [Some (c, None)], its candidate is
    prepared; [Some (c, Some p)], refused, [p] to be restored before the second section. *)
Definition finish_open (s : PlaybackSession) (action : ClaimedRouteAction) (result : RouteApplyResult)
    (c : PlayerControl) : option (PlayerControl * option (option AppliedRouteProjection)) :=
  if bool_decide (pc_phase c = Applying (cl_serial action)) then
    match result with
    | Apply_Prepared =>
        let '(revision, quality, projection) :=
          match cl_snapshot action with
          | Some cs => (cs_revision cs, cs_quality cs, cs_projection cs)
          | None => (pc_desired_revision c, pc_desired_quality c, route_projection s)
          end in
        let c := match cl_intent action with
                 | Intent_User _ => c <| pc_applied_revision := revision |> <| pc_applied_quality := quality |>
                 | Intent_Automatic _ => c
                 end in
        Some (c <| pc_applied_projection := Some projection |> <| pc_phase := Prepared (cl_serial action) |>, None)
    | _ =>
        let c := match cl_intent action, result with
                 | Intent_Automatic (HlsToOriginal ticket _ _), Apply_Rejected =>
                     note_original_refused_on (encoder ticket) c
                 | _, _ => c
                 end in
        Some (c, Some (pc_applied_projection c))
    end
  else None.

Definition finish_close (serial : Z) (c : PlayerControl) : PlayerControl :=
  if bool_decide (pc_phase c = Applying serial) then c <| pc_phase := Stable |> else c.

Definition finish_route_action (s : PlaybackSession) (action : ClaimedRouteAction) (result : RouteApplyResult)
    (c : PlayerControl) : bool * PlaybackSession * PlayerControl :=
  match finish_open s action result c with
  | None => (false, s, c)
  | Some (c, None) => (true, s, c)
  | Some (c, Some p) => (true, restore s p, finish_close (cl_serial action) c)
  end.

End Reducer.
