(* ===== verification/RouteStart.v ===== *)
(** * Route control: native starts and flights

    The sections of [media/src/route/decision.rs] that take a prepared route to a live one: the start
    transaction, the physical Load attempt inside it, its result, the failure and the teardown of an
    Engine, and the flights whose server half a worker runs. *)

From S2P Require Import Prelude Bytes Ladder RouteControl.

#[local] Open Scope Z_scope.

Section Start.
Context `{RouteData}.

(** ** Transactions *)

Definition pending_route_start (c : PlayerControl) : option Z :=
  match pc_phase c with
  | Preparing serial | Prepared serial | Starting serial _
  | OriginalTrial (Trial_Preparing serial | Trial_Prepared serial | Trial_Starting serial _) => Some serial
  | _ => None
  end.

Definition begin_route_start (c : PlayerControl) : option Z * PlayerControl :=
  match pc_phase c with
  | Preparing serial | Prepared serial | Starting serial _
  | OriginalTrial (Trial_Preparing serial | Trial_Prepared serial | Trial_Starting serial _) => (Some serial, c)
  | Stable => let '(serial, c) := mint_action c in (Some serial, c <| pc_phase := Preparing serial |>)
  | Failed _ | Idle => let '(serial, c) := mint_action c in (Some serial, c <| pc_phase := Prepared serial |>)
  | _ => (None, c)
  end.

Definition begin_flight_start (c : PlayerControl) : option Z * PlayerControl :=
  match pc_phase c with
  | Stable => let '(serial, c) := mint_action c in (Some serial, c <| pc_phase := Preparing serial |>)
  | _ => (None, c)
  end.

Definition begin_recovery_flight_start (c : PlayerControl) : option Z * PlayerControl :=
  match pc_phase c with
  | Prepared serial | Failed serial | Starting serial _ => (Some serial, c <| pc_phase := Preparing serial |>)
  | Stable => let '(serial, c) := mint_action c in (Some serial, c <| pc_phase := Preparing serial |>)
  | OriginalTrial (Trial_Prepared serial | Trial_Failed serial) =>
      (Some serial, c <| pc_phase := OriginalTrial (Trial_Preparing serial) |>)
  | _ => (None, c)
  end.

Definition prepare_route_start (ticket : Z) (c : PlayerControl) : bool * PlayerControl :=
  match pc_phase c with
  | Preparing serial =>
      if serial =? ticket then (true, c <| pc_phase := Prepared serial |>) else (false, c)
  | OriginalTrial (Trial_Preparing serial) =>
      if serial =? ticket then (true, c <| pc_phase := OriginalTrial (Trial_Prepared serial) |>) else (false, c)
  | Prepared serial | Starting serial _
  | OriginalTrial (Trial_Prepared serial | Trial_Starting serial _) => (serial =? ticket, c)
  | _ => (false, c)
  end.

(** Attempts are never reused: past the last one the source panics. *)
Definition claim_route_start_attempt (ticket : Z) (c : PlayerControl) :
    option (option RouteStartAttempt * PlayerControl) :=
  let mint (phase : Z -> ControlPhase) :=
    match u64_checked (pc_next_start_attempt c + 1) with
    | Some attempt =>
        Some (Some (mk_attempt ticket attempt),
              c <| pc_next_start_attempt := attempt |> <| pc_phase := phase attempt |>)
    | None => None
    end in
  match pc_phase c with
  | Prepared serial => if serial =? ticket then mint (Starting ticket) else Some (None, c)
  | OriginalTrial (Trial_Prepared serial) =>
      if serial =? ticket then mint (fun a => OriginalTrial (Trial_Starting ticket a)) else Some (None, c)
  | _ => Some (None, c)
  end.

(** The deferred commands of another transaction stay. *)
Definition drop_deferred (ticket : Z) (c : PlayerControl) : PlayerControl :=
  c <| pc_start_deferred :=
    match pc_start_deferred c with
    | Some (serial, effects) => if serial =? ticket then None else Some (serial, effects)
    | None => None
    end |>.

Definition reject_route_start_preparation (ticket : Z) (c : PlayerControl) : bool * PlayerControl :=
  let to serial phase :=
    if serial =? ticket then (true, drop_deferred ticket (c <| pc_phase := phase |>)) else (false, c) in
  match pc_phase c with
  | Preparing serial => to serial Stable
  | Prepared serial => to serial (Failed serial)
  | OriginalTrial (Trial_Preparing serial | Trial_Prepared serial) =>
      to serial (OriginalTrial (Trial_Failed serial))
  | _ => (false, c)
  end.

Definition abort_route_start (ticket : Z) (result : RouteStartResult) (c : PlayerControl) : bool * PlayerControl :=
  let to serial phase :=
    if serial =? ticket
    then (true, drop_deferred ticket c <| pc_timeline := None |> <| pc_phase := phase |>) else (false, c) in
  match pc_phase c with
  | Preparing serial => to serial (if bool_decide (result = NoRoute) then Stable else Failed serial)
  | Prepared serial | Starting serial _ => to serial (Failed serial)
  | OriginalTrial (Trial_Preparing serial | Trial_Prepared serial | Trial_Starting serial _) =>
      to serial (OriginalTrial (Trial_Failed serial))
  | _ => (false, c)
  end.

(** [settle_route_start] up to its effects: [None], the attempt is not the one in flight.  The effects
    are applied with the mutex released, and [complete] follows them. *)
Definition settle_open (ticket : RouteStartAttempt) (result : RouteStartResult) (c : PlayerControl) :
    option (PlayerControl * option DeferredOriginalEffects) :=
  let serial := at_serial ticket in
  let ordinary := bool_decide (pc_phase c = Starting serial (at_attempt ticket)) in
  let original := bool_decide (pc_phase c = OriginalTrial (Trial_Starting serial (at_attempt ticket))) in
  if negb ordinary && negb original then None
  else
    let c := c <| pc_last_start_result := Some (ticket, result) |> in
    match ordinary, result with
    | true, Started =>
        let effects := match pc_start_deferred c with
                       | Some (s, effects) => if s =? serial then Some effects else None
                       | None => None
                       end in
        let phase := match effects with Some _ => Completing serial | None => Stable end in
        Some (c <| pc_start_deferred := None |> <| pc_phase := phase |>, effects)
    | true, (NoRoute | StartFailed) =>
        Some (drop_deferred serial c <| pc_timeline := None |> <| pc_phase := Failed serial |>, None)
    | false, Started => Some (c <| pc_phase := OriginalTrial (Trial_AwaitingFrame serial) |>, None)
    | false, (NoRoute | StartFailed) => Some (c <| pc_phase := OriginalTrial (Trial_Failed serial) |>, None)
    end.

(** The last section of [settle_route_start] and of [confirm_original_recovery]. *)
Definition complete (serial : Z) (c : PlayerControl) : PlayerControl :=
  if bool_decide (pc_phase c = Completing serial) then c <| pc_phase := Stable |> else c.

Definition publish_route_start_result (ticket : RouteStartAttempt) (result : RouteStartResult)
    (c : PlayerControl) : PlayerControl :=
  c <| pc_start_results := pc_start_results c ++ [(ticket, result)] |>.

(** [drain_route_start_results] takes the queue; each result is then settled. *)
Definition take_start_results (c : PlayerControl) : list (RouteStartAttempt * RouteStartResult) * PlayerControl :=
  (pc_start_results c, c <| pc_start_results := [] |>).

(** ** What an observer of a start sees *)

Inductive RouteStartStatus :=
  | Status_Pending | Status_Started | Status_Failed | Status_Superseded (by_ : RouteStartAttempt) | Status_Stale.

Inductive LiveEngineStartRelation := CurrentAttempt | NoPendingRoute | Conflict (serial : Z).

Definition classify_live_engine_start (existing : RouteStartAttempt) (c : PlayerControl) :
    LiveEngineStartRelation :=
  match pc_phase c with
  | Starting serial attempt | OriginalTrial (Trial_Starting serial attempt) =>
      if bool_decide (mk_attempt serial attempt = existing) then CurrentAttempt else Conflict serial
  | Preparing serial | Prepared serial
  | OriginalTrial (Trial_Preparing serial | Trial_Prepared serial) => Conflict serial
  | _ => NoPendingRoute
  end.

Definition route_start_status (ticket : RouteStartAttempt) (c : PlayerControl) : RouteStartStatus :=
  match pc_phase c with
  | Starting serial attempt | OriginalTrial (Trial_Starting serial attempt) =>
      let current := mk_attempt serial attempt in
      if bool_decide (current = ticket) then Status_Pending
      else if at_attempt ticket <? attempt then Status_Superseded current else Status_Stale
  | phase =>
      let completed :=
        match phase, pc_last_start_result c with
        | (Stable | Completing _), Some (attempt, Started) => Some (attempt, Status_Started)
        | (Failed serial | OriginalTrial (Trial_Failed serial)), Some (attempt, (NoRoute | StartFailed)) =>
            if at_serial attempt =? serial then Some (attempt, Status_Failed) else None
        | OriginalTrial (Trial_AwaitingFrame serial), Some (attempt, Started) =>
            if at_serial attempt =? serial then Some (attempt, Status_Started) else None
        | _, _ => None
        end in
      match completed with
      | Some (attempt, status) =>
          if bool_decide (attempt = ticket) then status
          else if at_attempt ticket <? at_attempt attempt then Status_Superseded attempt else Status_Stale
      | None => Status_Stale
      end
  end.

(** ** The end of an Engine *)

(** The answer says whether the presentation hold of a flight is cleared. *)
Definition fail_current_engine (c : PlayerControl) : bool * PlayerControl :=
  let fail flight_ended serial c :=
    (flight_ended,
     clear_flight (c <| pc_engine_epoch := next_generation (pc_engine_epoch c) |>
                     <| pc_media_epoch := next_generation (pc_media_epoch c) |>
                     <| pc_pending_auto := None |> <| pc_start_deferred := None |> <| pc_timeline := None |>)
       <| pc_phase := Failed serial |>) in
  match pc_phase c with
  | Preparing serial | OriginalTrial (Trial_Preparing serial) =>
      fail (bool_decide (pc_flight c = Some serial)) serial c
  | Prepared serial | Starting serial _ | StagingUser serial
  | OriginalTrial (Trial_Prepared serial | Trial_Starting serial _ | Trial_AwaitingFrame serial
                  | Trial_Failed serial) => fail false serial c
  | Stable | Completing _ => let '(serial, c) := mint_action c in fail false serial c
  | Failed _ | Idle | Stopping | Resolving => (false, c)
  | Applying serial => fail true serial c
  end.

(** The pick a dropped claim owed the viewer goes back to the queue. *)
Definition return_claimed_user (serial : Z) (c : PlayerControl) : PlayerControl :=
  let claimed := pc_claimed_user c in
  let c := c <| pc_claimed_user := None |> in
  match claimed with
  | Some (owner, intent, displaced) =>
      if owner =? serial then
        c <| pc_pending_user := Some (match pc_pending_user c with
                                      | Some newer => merge_user_route_intent (Some intent) newer false
                                      | None => intent
                                      end) |>
          <| pc_displaced_pick := pc_displaced_pick c || displaced |>
      else c
  | None => c
  end.

(** The answer says whether the landing in the mailbox is discarded once the mutex is released (a full
    stop discards it before taking the mutex). *)
Definition begin_engine_teardown (for_reload : bool) (c : PlayerControl) : bool * PlayerControl :=
  let c := c <| pc_engine_epoch := next_generation (pc_engine_epoch c) |>
             <| pc_media_epoch := next_generation (pc_media_epoch c) |> <| pc_pending_auto := None |> in
  if negb for_reload then
    (true, clear_flight (c <| pc_desired_revision := next_generation (pc_desired_revision c) |>
                           <| pc_pending_user := None |> <| pc_displaced_pick := false |>
                           <| pc_pending_seek_ns := None |> <| pc_phase := Stopping |>)
             <| pc_timeline := None |>)
  else
    match pc_phase c with
    | Preparing serial =>
        if bool_decide (pc_flight c = Some serial)
        then (true, clear_flight c <| pc_phase := Stable |>) else (false, c)
    | Applying serial =>
        if bool_decide (pc_flight c = Some serial)
        then (true, return_claimed_user serial (clear_flight c) <| pc_phase := Stable |>) else (false, c)
    | Starting serial _ => (false, c <| pc_phase := Prepared serial |>)
    | OriginalTrial (Trial_Starting serial _ | Trial_AwaitingFrame serial) =>
        (false, c <| pc_phase := OriginalTrial (Trial_Prepared serial) |>)
    | OriginalTrial (Trial_Preparing serial) =>
        (true, clear_flight c <| pc_phase := OriginalTrial (Trial_Prepared serial) |>)
    | _ => (false, c)
    end.

Definition finish_engine_teardown (c : PlayerControl) : PlayerControl :=
  match pc_phase c with Stopping => c <| pc_phase := Idle |> | _ => c end.

(** ** Flights *)

Definition flight_phase_open (c : PlayerControl) : bool :=
  match pc_phase c with
  | Applying _ => true
  | phase => match preparing_serial phase with
             | Some serial => bool_decide (pc_flight c = Some serial)
             | None => false
             end
  end.

Definition flight_phase_is (serial : Z) (c : PlayerControl) : bool :=
  match pc_phase c with
  | Applying s => s =? serial
  | phase => bool_decide (preparing_serial phase = Some serial) && bool_decide (pc_flight c = Some serial)
  end.

(** The marker of a kind of flight, read with the phase. *)
Definition marked_flight_open (marker : PlayerControl -> option Z) (c : PlayerControl) : bool :=
  match preparing_serial (pc_phase c) with
  | Some serial => bool_decide (pc_flight c = Some serial) && bool_decide (marker c = Some serial)
  | None => false
  end.
Definition recovery_flight_open : PlayerControl -> bool := marked_flight_open pc_flight_recovery.
Definition resume_flight_open : PlayerControl -> bool := marked_flight_open pc_flight_resume.
Definition engineless_flight_open : PlayerControl -> bool := marked_flight_open pc_flight_engineless.
Definition resume_flight_is (serial : Z) (c : PlayerControl) : bool :=
  bool_decide (pc_flight_resume c = Some serial).

Definition begin_flight (serial : Z) (c : PlayerControl) : PlayerControl := c <| pc_flight := Some serial |>.
Definition begin_recovery_flight (serial offset_ns : Z) (c : PlayerControl) : PlayerControl :=
  c <| pc_flight := Some serial |> <| pc_flight_recovery := Some serial |>
    <| pc_flight_offset_ns := Some offset_ns |>.
Definition begin_engineless_flight (serial offset_ns : Z) (c : PlayerControl) : PlayerControl :=
  begin_recovery_flight serial offset_ns c <| pc_flight_engineless := Some serial |>.
Definition begin_resume_flight (serial offset_ns : Z) (c : PlayerControl) : PlayerControl :=
  begin_engineless_flight serial offset_ns c <| pc_flight_resume := Some serial |>.

Definition recovery_flight_offset (c : PlayerControl) : option Z :=
  if recovery_flight_open c then pc_flight_offset_ns c else None.

Definition end_flight (serial : Z) (c : PlayerControl) : PlayerControl :=
  if bool_decide (pc_flight c = Some serial) then clear_flight c else c.

(** [release_rebase_start]: a cold resume's transaction was a landing's. *)
Definition release_rebase_start (resume : bool) (ticket : Z) (c : PlayerControl) : PlayerControl :=
  snd (if resume then abort_route_start ticket StartFailed c else reject_route_start_preparation ticket c).

End Start.
