(* ===== verification/RouteTrial.v ===== *)
(** * Route control: encoders and the trial of an Original

    The sections of [media/src/route/decision.rs] that publish which encoder serves the route, and the
    recovery of an Original: the route it replaced is kept until decoded frames prove the new source
    ([confirm_..]) or it fails and the old one is restored ([rollback_..]). *)

From S2P Require Import Prelude Bytes Ladder RouteControl.

#[local] Open Scope Z_scope.

(** What is asked of the server about an encoder: a whole session, or its producer only. *)
Inductive EncoderStop := Stop_session (session : bytes) | Stop_physical (session : bytes).

Section Trial.
Context `{RouteData}.

(** ** The active encoder *)

Definition install_encoder (value : bytes) (hls : option ActiveHlsRoute) (c : PlayerControl) : PlayerControl :=
  c <| pc_active := (advance_route (pc_active c)) <| ae_id := value |> <| ae_hls := hls |> |>.

Definition install_active_encoder (value : bytes) : PlayerControl -> PlayerControl := install_encoder value None.
Definition install_active_hls (value url : bytes) (rung : Rung) : PlayerControl -> PlayerControl :=
  install_encoder value (Some (mk_active_hls url rung None)).

Definition take_active_encoder (c : PlayerControl) : bytes * PlayerControl :=
  (ae_id (pc_active c), install_encoder [] None c).

Definition replace_active_encoder_for (expected : WorkerTicket) (replacement : bytes) (c : PlayerControl) :
    option WorkerTicket * PlayerControl :=
  if ticket_is_current c expected
  then let c := install_encoder replacement None c in (Some (worker_ticket_of c), c) else (None, c).

Definition replace_active_hls_for (expected : WorkerTicket) (replacement url : bytes) (rung : Rung)
    (observed : option (ObservedHlsVariant * Z)) (c : PlayerControl) : option WorkerTicket * PlayerControl :=
  if ticket_is_current c expected
  then let c := install_encoder replacement (Some (mk_active_hls url rung observed)) c in
       (Some (worker_ticket_of c), c)
  else (None, c).

Inductive ActiveHlsCommitRefusal := RouteMoved | TransitionRejected.

(** [transition] is the local change made while the mutex is held. *)
Definition replace_active_hls_with {T} (expected : WorkerTicket) (replacement url : bytes) (rung : Rung)
    (observed : option (ObservedHlsVariant * Z)) (transition : option T) (c : PlayerControl) :
    (T * WorkerTicket + ActiveHlsCommitRefusal) * PlayerControl :=
  if negb (bool_decide (pc_phase c = Stable) && ticket_is_current c expected) then (inr RouteMoved, c)
  else match transition with
       | None => (inr TransitionRejected, c)
       | Some value =>
           let c := install_encoder replacement (Some (mk_active_hls url rung observed)) c in
           (inl (value, worker_ticket_of c), c)
       end.

Definition observe_active_hls (expected : WorkerTicket) (variant : ObservedHlsVariant) (evidence_kbps : Z)
    (c : PlayerControl) : PlayerControl :=
  if ticket_is_current c expected then
    match ae_hls (pc_active c) with
    | Some hls =>
        if bool_decide (fst <$> ah_observed hls = Some variant) then c
        else c <| pc_active := (pc_active c) <| ae_hls := Some (hls <| ah_observed := Some (variant, evidence_kbps) |>) |> |>
    | None => c
    end
  else c.

Definition active_hls (c : PlayerControl) : option (WorkerTicket * ActiveHlsRoute) :=
  (fun hls => (worker_ticket_of c, hls)) <$> ae_hls (pc_active c).

(** The physical fields of a worker's commit, on the applied projection and on the session. *)
Definition sync_active_hls_to_session (s : PlaybackSession) (c : PlayerControl) :
    option (WorkerTicket * ActiveHlsRoute) * PlaybackSession * PlayerControl :=
  match ae_hls (pc_active c) with
  | None => (None, s, c)
  | Some hls =>
      let ticket := worker_ticket_of c in
      let contract k := k <| ec_ceiling := Some (ceiling (ah_rung hls)) |> <| ec_remux := false |> in
      let applied := default (route_projection s) (pc_applied_projection c) in
      let applied := applied <| pr_url := ah_url hls |> <| pr_tsession := encoder ticket |>
                       <| pr_contract := contract (pr_contract applied) |> in
      (Some (ticket, hls),
       s <| ps_url := ah_url hls |> <| ps_tsession := encoder ticket |>
         <| ps_cur_contract := contract (ps_cur_contract s) |>,
       c <| pc_applied_projection := Some applied |>)
  end.

(** ** Entering a trial *)

Definition snapshot_route (s : PlaybackSession) (enc : bytes) (offset_secs : Z) : PendingOriginal :=
  mk_pending_original 0 Quality_Original None (route_projection s) enc [] offset_secs (route_projection s)
    (match ps_planned_feed_offer s with Some o => Some o | None => ps_admitted_feed_offer s end)
    false false None None false.

(** The answer is the displaced way back, whose encoder is retired. *)
Definition set_pending_original (s : PlaybackSession) (pending : PendingOriginal) (automatic : bool)
    (c : PlayerControl) : option PendingOriginal * PlayerControl :=
  let pending := pending <| po_charge_visible_switch_on_commit := automatic |>
                   <| po_previous_applied_revision := pc_applied_revision c |>
                   <| po_previous_applied_quality := pc_applied_quality c |>
                   <| po_previous_applied_projection := pc_applied_projection c |>
                   <| po_candidate_projection := route_projection s |> in
  let c := if automatic then c
           else c <| pc_applied_revision := pc_desired_revision c |>
                  <| pc_applied_quality := pc_desired_quality c |> in
  let '(serial, c) := match pc_phase c with
                      | Applying serial | Prepared serial | Starting serial _ => (serial, c)
                      | _ => mint_action c
                      end in
  (pc_pending_original c, c <| pc_phase := OriginalTrial (Trial_Prepared serial) |>
                            <| pc_pending_original := Some pending |>).

Definition take_pending_original (c : PlayerControl) : option PendingOriginal * PlayerControl :=
  (pc_pending_original c, c <| pc_pending_original := None |>).

Definition original_recovery_pending (c : PlayerControl) : bool := bool_decide (is_Some (pc_pending_original c)).

Definition on_pending_original (f : PendingOriginal -> PendingOriginal) (c : PlayerControl) : PlayerControl :=
  c <| pc_pending_original := f <$> pc_pending_original c |>.

(** Picks made during a trial ([set_quality], [commit_audio_selection], [reconcile_enhancement]). *)
Definition adopt_trial : PlayerControl -> PlayerControl :=
  on_pending_original (fun p => p <| po_adopted_by_user := true |> <| po_deferred_quality := None |>
    <| po_candidate_projection := (po_candidate_projection p) <| pr_auto_original_watched := false |> |>).
Definition defer_quality (q : Quality) : PlayerControl -> PlayerControl :=
  on_pending_original (fun p => p <| po_deferred_quality := Some q |>).
Definition defer_audio (audio : CarriedAudio) : PlayerControl -> PlayerControl :=
  on_pending_original (fun p => p <| po_deferred_audio := Some audio |>).
Definition defer_reconcile : PlayerControl -> PlayerControl :=
  on_pending_original (fun p => p <| po_deferred_reconcile := true |>).

(** What a landed rebuild changed. *)
Record RebaseInstalled := mk_installed { ri_url : bytes; ri_replacement : bytes; ri_hls_rung : option Rung }.

Definition apply_to_projection (i : RebaseInstalled) (p : AppliedRouteProjection) : AppliedRouteProjection :=
  let p := p <| pr_tsession := ri_replacement i |> <| pr_url := ri_url i |> in
  match ri_hls_rung i with
  | Some rung => p <| pr_contract := (pr_contract p) <| ec_ceiling := Some (ceiling rung) |> |>
  | None => p
  end.

Definition carry_rebase_into_trial (installed : RebaseInstalled) (previous : bytes) (c : PlayerControl) :
    bool * PlayerControl :=
  match pc_phase c with
  | OriginalTrial _ =>
      (true, on_pending_original (fun p =>
         let p := p <| po_candidate_projection := apply_to_projection installed (po_candidate_projection p) |> in
         if bool_decide (po_replacement_encoder p = previous)
         then p <| po_replacement_encoder := ri_replacement installed |> else p) c)
  | _ => (false, c)
  end.

Definition note_original_rolled_back_onto (installed : RebaseInstalled) (c : PlayerControl) : PlayerControl :=
  match pc_phase c with
  | OriginalTrial _ => c
  | _ => note_original_refused_on (ri_replacement installed) c
  end.

(** ** Leaving it *)

(** [retire_replaced_encoder], [retire_hls_encoder_keep_source]: [client], the server is known. *)
Definition retire (stop : bytes -> EncoderStop) (client : bool) (s : PlaybackSession) (enc : bytes) : list EncoderStop :=
  if bool_decide (enc = []) || negb (bool_decide (ps_auto_fixture_base s = [])) || negb client
  then [] else [stop enc].
Definition retire_replaced_encoder : bool -> PlaybackSession -> bytes -> list EncoderStop := retire Stop_session.
Definition retire_hls_encoder_keep_source : bool -> PlaybackSession -> bytes -> list EncoderStop :=
  retire Stop_physical.

Definition note_visible_switch (s : PlaybackSession) (now_ms : Z) : PlaybackSession :=
  s <| ps_auto_switches := u32_sat (ps_auto_switches s + 1) |> <| ps_auto_last_switch := Some now_ms |>.

(** [confirm_original_recovery], first section: the trial's way back, its serial, and whether the
    session as it stands is what was proved. *)
Definition confirm_open (c : PlayerControl) : option (PendingOriginal * Z * bool) * PlayerControl :=
  match pc_phase c, pc_pending_original c with
  | OriginalTrial (Trial_AwaitingFrame serial), Some pending =>
      let use_current := (pc_desired_revision c =? pc_applied_revision c)
                         && bool_decide (pc_pending_user c = None) in
      (Some (pending, serial, use_current),
       c <| pc_pending_original := None |> <| pc_phase := Completing serial |>)
  | _, _ => (None, c)
  end.

Definition committed_projection (s : PlaybackSession) (pending : PendingOriginal) (use_current : bool) :
    AppliedRouteProjection :=
  let p := if use_current then route_projection s else po_candidate_projection pending in
  if po_adopted_by_user pending then p <| pr_auto_original_watched := false |> else p.

(** Second section; [false], the phase moved and the function returns. *)
Definition confirm_commit (serial : Z) (pending : PendingOriginal) (projection : AppliedRouteProjection)
    (c : PlayerControl) : bool * PlayerControl :=
  if bool_decide (pc_phase c = Completing serial) then
    let c := if po_adopted_by_user pending
             then c <| pc_applied_revision := pc_desired_revision c |> <| pc_applied_quality := Quality_Original |>
             else c in
    (true, c <| pc_applied_projection := Some projection |>)
  else (false, c).

(** What follows it on the session and the server. *)
Definition confirm_effects (client : bool) (s : PlaybackSession) (now_ms : Z) (pending : PendingOriginal) :
    PlaybackSession * list EncoderStop :=
  let s := if po_charge_visible_switch_on_commit pending then note_visible_switch s now_ms else s in
  (s, if bool_decide (po_replacement_encoder pending = [])
      then retire_hls_encoder_keep_source client s (po_encoder pending)
      else retire_replaced_encoder client s (po_encoder pending)).

(** The serial of a trial no flight holds. *)
Definition trial_serial (p : ControlPhase) : option Z :=
  match p with
  | OriginalTrial (Trial_Prepared serial | Trial_Starting serial _ | Trial_AwaitingFrame serial
                  | Trial_Failed serial) => Some serial
  | _ => None
  end.

(** [rollback_original_recovery], first section. *)
Definition rollback_open (c : PlayerControl) : option (PendingOriginal * Z) * PlayerControl :=
  match trial_serial (pc_phase c), pc_pending_original c with
  | Some serial, Some pending => (Some (pending, serial), c <| pc_pending_original := None |>)
  | _, _ => (None, c)
  end.

Definition restored_hls (pending : PendingOriginal) : option Rung :=
  match ec_delivery (pr_contract (po_previous pending)), ec_ceiling (pr_contract (po_previous pending)) with
  | FixedHls _, Some k => from_ceiling k
  | _, _ => None
  end.

(** The session before the recovery, but for what the viewer changed on the candidate. *)
Definition rollback_install (s : PlaybackSession) (pending : PendingOriginal) : PlaybackSession :=
  (install_route_projection s (po_previous pending))
    <| ps_planned_feed_offer := po_previous_feed_offer pending |>
    <| ps_planned_feed_purpose := RollbackExisting |>
    <| ps_admitted_feed_offer := None |>
    <| ps_cur_sub_sid := ps_cur_sub_sid s |>
    <| ps_cur_sub_sidecar := ps_cur_sub_sidecar s |>
    <| ps_cur_sub_client_drawable := ps_cur_sub_client_drawable s |>
    <| ps_cur_sub_ordinal := ps_cur_sub_ordinal s |>
    <| ps_side_subs_refused := ps_side_subs_refused s |>
    <| ps_auto_original := ps_auto_original s |>.

Definition rollback_active (pending : PendingOriginal) (c : PlayerControl) : PlayerControl :=
  match restored_hls pending with
  | Some rung => install_active_hls (po_encoder pending) (pr_url (po_previous pending)) rung c
  | None => install_active_encoder (po_encoder pending) c
  end.

(** The last section; [false], the trial moved and the function answers [None]. *)
Definition rollback_close (pending : PendingOriginal) (serial : Z) (c : PlayerControl) : bool * PlayerControl :=
  if bool_decide (trial_serial (pc_phase c) = Some serial) then
    let c := c <| pc_applied_revision := po_previous_applied_revision pending |>
               <| pc_applied_quality := po_previous_applied_quality pending |>
               <| pc_applied_projection := po_previous_applied_projection pending |> in
    let '(serial, c) := mint_action c in
    let deferred := from_pending pending in
    (true, c <| pc_phase := Prepared serial |>
             <| pc_start_deferred := if deferred_is_empty deferred then None else Some (serial, deferred) |>)
  else (false, c).

Definition rollback_stops (client : bool) (s : PlaybackSession) (pending : PendingOriginal) : list EncoderStop :=
  let failed := po_replacement_encoder pending in
  if bool_decide (failed = []) || bool_decide (failed = po_encoder pending) then []
  else retire_replaced_encoder client s failed.

(** The sections in a row; the answer is the offset the restored route is rebuilt at. *)
Definition rollback_original_recovery (client : bool) (s : PlaybackSession) (c : PlayerControl) :
    option Z * PlaybackSession * PlayerControl * list EncoderStop :=
  match rollback_open c with
  | (None, c) => (None, s, c, [])
  | (Some (pending, serial), c) =>
      let s := rollback_install s pending in
      let c := rollback_active pending c in
      match rollback_close pending serial c with
      | (false, c) => (None, s, c, [])
      | (true, c) => (Some (i64_wrap (Z.max (po_offset_secs pending) 0 * 1000000000)), s, c,
                      rollback_stops client s pending)
      end
  end.

Definition drop_original_recovery (client : bool) (s : PlaybackSession) (c : PlayerControl) :
    PlayerControl * list EncoderStop :=
  match take_pending_original c with
  | (Some pending, c) =>
      (c, if bool_decide (po_replacement_encoder pending = []) then []
          else retire_replaced_encoder client s (po_encoder pending))
  | (None, c) => (c, [])
  end.

(** ** Timeline reports *)

Record TimelineLease := mk_timeline_lease { tl_engine_epoch : Z; tl_required_stop : Z }.

(** [None]: the session has nothing to report. *)
Definition publish_timeline (projection : option TimelineProjection) (announced : Z) (c : PlayerControl) :
    option TimelineLease * PlayerControl :=
  match projection with
  | None => (None, c)
  | Some p => (Some (mk_timeline_lease (pc_engine_epoch c) announced), c <| pc_timeline := Some p |>)
  end.

Definition reported_session_of (sid : Z) (rating_key : bytes) (c : PlayerControl) : option bytes :=
  match pc_reported_timeline c with
  | Some r => if (rt_sid r =? sid) && bool_decide (rt_rating_key r = rating_key) then Some (rt_session r) else None
  | None => None
  end.

(** The projection sampled, the id it reports under, and the id the last report went out under. *)
Definition timeline_snapshot (lease : TimelineLease) (c : PlayerControl) :
    option (TimelineProjection * bytes * option bytes) :=
  if negb (pc_engine_epoch c =? tl_engine_epoch lease) then None
  else match pc_phase c with
       | Stable | OriginalTrial (Trial_AwaitingFrame _) =>
           p ← pc_timeline c;
           let session := if bool_decide (ae_id (pc_active c) = []) then tp_logical_session p
                          else ae_id (pc_active c) in
           Some (p, session, reported_session_of (tp_sid p) (tp_rating_key p) c)
       | _ => None
       end.

Definition retired_report_session (reported : option bytes) (current : bytes) : option bytes :=
  match reported with
  | Some id => if bool_decide (id = []) || bool_decide (id = current) then None else Some id
  | None => None
  end.

Definition note_reported_session (sid : Z) (rating_key session : bytes) (c : PlayerControl) : PlayerControl :=
  c <| pc_reported_timeline := Some (mk_reported sid rating_key session) |>.

Definition take_reported_session (sid : Z) (rating_key : bytes) (c : PlayerControl) : option bytes * PlayerControl :=
  (reported_session_of sid rating_key c, c <| pc_reported_timeline := None |>).

End Trial.
