(* ===== verification/RouteTraces.v ===== *)
(** * Histories of the route reducer

    A history is a series of critical sections, of any party in any order, with whatever session the
    main thread had at each.  Which Load may open the route, which worker may still change it, and
    what a refused or dropped change gives back. *)

From stdpp Require Import list.
From S2P Require Import Prelude Bytes Ladder RouteControl RouteStart RouteTrial.

#[local] Open Scope Z_scope.

Section Traces.
Context `{RouteData}.

(** ** Events

    The functions that take the mutex twice on the main thread, with nothing between that another
    thread's section could change, are one event; [settle_route_start] and
    [confirm_original_recovery] are two, for the commands they replay come before [complete]. *)

Inductive RouteEvent :=
  (* the viewer *)
  | Ev_boundary
  | Ev_desired_quality (quality : Quality)
  | Ev_guard_drop (serial : option Z)
  | Ev_queue (quality : Quality) (s : PlaybackSession) (intent : UserRouteIntent) (displaced : bool)
  | Ev_cancel_intent (intent : UserRouteIntent)
  | Ev_publish_projection (s : PlaybackSession)
  | Ev_commit_in_place (s : PlaybackSession) (quality_contract : bool)
  (* resolves *)
  | Ev_request (quality : Quality)
  | Ev_landing (quality : Quality) (s : PlaybackSession) (playable : bool)
  | Ev_cancel (s : PlaybackSession)
  (* automatic requests, seeks and claims *)
  | Ev_publish_auto (intent : AutomaticRouteIntent)
  | Ev_note_seek (position_ns : Z)
  | Ev_commit_seek
  | Ev_reject_seek
  | Ev_claim
  | Ev_finish (s : PlaybackSession) (action : ClaimedRouteAction) (result : RouteApplyResult)
  (* starts *)
  | Ev_begin_start
  | Ev_flight_start
  | Ev_recovery_flight_start
  | Ev_prepare (ticket : Z)
  | Ev_attempt (ticket : Z)
  | Ev_reject (ticket : Z)
  | Ev_abort (ticket : Z) (result : RouteStartResult)
  | Ev_settle (ticket : RouteStartAttempt) (result : RouteStartResult)
  | Ev_complete (serial : Z)
  | Ev_publish_result (ticket : RouteStartAttempt) (result : RouteStartResult)
  | Ev_take_results
  (* the Engine and the flights *)
  | Ev_fail
  | Ev_teardown (for_reload : bool)
  | Ev_finish_teardown
  | Ev_begin_flight (serial : Z)
  | Ev_begin_recovery_flight (serial offset_ns : Z)
  | Ev_begin_engineless_flight (serial offset_ns : Z)
  | Ev_begin_resume_flight (serial offset_ns : Z)
  | Ev_end_flight (serial : Z)
  (* encoders *)
  | Ev_install_encoder (value : bytes) (hls : option ActiveHlsRoute)
  | Ev_take_encoder
  | Ev_replace_encoder (expected : WorkerTicket) (replacement : bytes)
  | Ev_replace_hls (expected : WorkerTicket) (replacement url : bytes) (rung : Rung)
      (observed : option (ObservedHlsVariant * Z))
  | Ev_commit_hls (expected : WorkerTicket) (replacement url : bytes) (rung : Rung)
      (observed : option (ObservedHlsVariant * Z)) (transition : option ())
  | Ev_observe_hls (expected : WorkerTicket) (variant : ObservedHlsVariant) (evidence_kbps : Z)
  | Ev_sync_hls (s : PlaybackSession)
  (* the trial of an Original *)
  | Ev_trial (s : PlaybackSession) (pending : PendingOriginal) (automatic : bool)
  | Ev_adopt
  | Ev_defer_quality (quality : Quality)
  | Ev_defer_audio (audio : CarriedAudio)
  | Ev_defer_reconcile
  | Ev_carry_rebase (installed : RebaseInstalled) (previous : bytes)
  | Ev_rolled_back_onto (installed : RebaseInstalled)
  | Ev_confirm (s : PlaybackSession)
  | Ev_rollback (client : bool) (s : PlaybackSession)
  | Ev_drop (client : bool) (s : PlaybackSession)
  (* timeline reports *)
  | Ev_timeline (projection : option TimelineProjection) (announced : Z)
  | Ev_note_reported (sid : Z) (rating_key session : bytes)
  | Ev_take_reported (sid : Z) (rating_key : bytes).

(** The first two sections of [confirm_original_recovery]. *)
Definition confirm_original_recovery (s : PlaybackSession) (c : PlayerControl) : PlayerControl :=
  match confirm_open c with
  | (None, c) => c
  | (Some (pending, serial, use_current), c) =>
      snd (confirm_commit serial pending (committed_projection s pending use_current) c)
  end.

(** [None]: a panic. *)
Definition route_step (c : PlayerControl) (ev : RouteEvent) : option PlayerControl :=
  match ev with
  | Ev_boundary => Some (snd (begin_user_contract_boundary c))
  | Ev_desired_quality q => Some (set_desired_quality q c)
  | Ev_guard_drop serial => Some (drop_edit_guard serial c)
  | Ev_queue q s intent displaced => Some (queue_user_route_intent q s intent displaced c)
  | Ev_cancel_intent intent => Some (cancel_user_route_intent intent c)
  | Ev_publish_projection s => Some (publish_applied_route_projection s c)
  | Ev_commit_in_place s qc => Some (commit_in_place_route_projection s qc c)
  | Ev_request q => Some (snd (begin_playback_request q c))
  | Ev_landing q s playable => Some (snd (prepare_playback_landing q s playable c))
  | Ev_cancel s => Some (snd (cancel_playback_request s c))
  | Ev_publish_auto i => Some (snd (publish_automatic_route_intent i c))
  | Ev_note_seek p => Some (note_user_seek_intent p c)
  | Ev_commit_seek => Some (snd (commit_user_seek c))
  | Ev_reject_seek => Some (reject_user_seek c)
  | Ev_claim => Some (snd (claim_route_action c))
  | Ev_finish s action result => Some (snd (finish_route_action s action result c))
  | Ev_begin_start => Some (snd (begin_route_start c))
  | Ev_flight_start => Some (snd (begin_flight_start c))
  | Ev_recovery_flight_start => Some (snd (begin_recovery_flight_start c))
  | Ev_prepare t => Some (snd (prepare_route_start t c))
  | Ev_attempt t => snd <$> claim_route_start_attempt t c
  | Ev_reject t => Some (snd (reject_route_start_preparation t c))
  | Ev_abort t r => Some (snd (abort_route_start t r c))
  | Ev_settle t r => Some (match settle_open t r c with Some (c', _) => c' | None => c end)
  | Ev_complete serial => Some (complete serial c)
  | Ev_publish_result t r => Some (publish_route_start_result t r c)
  | Ev_take_results => Some (snd (take_start_results c))
  | Ev_fail => Some (snd (fail_current_engine c))
  | Ev_teardown for_reload => Some (snd (begin_engine_teardown for_reload c))
  | Ev_finish_teardown => Some (finish_engine_teardown c)
  | Ev_begin_flight serial => Some (begin_flight serial c)
  | Ev_begin_recovery_flight serial o => Some (begin_recovery_flight serial o c)
  | Ev_begin_engineless_flight serial o => Some (begin_engineless_flight serial o c)
  | Ev_begin_resume_flight serial o => Some (begin_resume_flight serial o c)
  | Ev_end_flight serial => Some (end_flight serial c)
  | Ev_install_encoder v hls => Some (install_encoder v hls c)
  | Ev_take_encoder => Some (snd (take_active_encoder c))
  | Ev_replace_encoder t r => Some (snd (replace_active_encoder_for t r c))
  | Ev_replace_hls t r u rung o => Some (snd (replace_active_hls_for t r u rung o c))
  | Ev_commit_hls t r u rung o transition => Some (snd (replace_active_hls_with t r u rung o transition c))
  | Ev_observe_hls t v e => Some (observe_active_hls t v e c)
  | Ev_sync_hls s => Some (snd (sync_active_hls_to_session s c))
  | Ev_trial s pending automatic => Some (snd (set_pending_original s pending automatic c))
  | Ev_adopt => Some (adopt_trial c)
  | Ev_defer_quality q => Some (defer_quality q c)
  | Ev_defer_audio a => Some (defer_audio a c)
  | Ev_defer_reconcile => Some (defer_reconcile c)
  | Ev_carry_rebase i previous => Some (snd (carry_rebase_into_trial i previous c))
  | Ev_rolled_back_onto i => Some (note_original_rolled_back_onto i c)
  | Ev_confirm s => Some (confirm_original_recovery s c)
  | Ev_rollback client s => Some (snd (fst (rollback_original_recovery client s c)))
  | Ev_drop client s => Some (fst (drop_original_recovery client s c))
  | Ev_timeline p announced => Some (snd (publish_timeline p announced c))
  | Ev_note_reported sid rk session => Some (note_reported_session sid rk session c)
  | Ev_take_reported sid rk => Some (snd (take_reported_session sid rk c))
  end.

(** The states a series of sections goes through, the first one left out. *)
Inductive route_steps : PlayerControl -> list RouteEvent -> PlayerControl -> Prop :=
  | steps_nil c : route_steps c [] c
  | steps_cons c ev c1 evs c' : route_step c ev = Some c1 -> route_steps c1 evs c' ->
      route_steps c (ev :: evs) c'.

Lemma route_steps_app c evs1 evs2 c' :
  route_steps c (evs1 ++ evs2) c' <-> exists c1, route_steps c evs1 c1 /\ route_steps c1 evs2 c'.
Proof.
  split.
  - revert c. induction evs1 as [|ev evs1 IH]; intros c; cbn; [eauto using steps_nil|].
    intros Hs. inversion Hs; subst. destruct (IH _ H5) as (c2 & ? & ?). eauto using steps_cons.
  - intros (c1 & H1 & H2). induction H1; cbn; eauto using steps_cons.
Qed.

(** [route_unfold]: the sections, down to their cases; [route_cases]: each branch of them. *)
Ltac route_unfold :=
  unfold begin_user_contract_boundary, begin_user_quality_boundary,
    set_desired_quality, drop_edit_guard, queue_user_route_intent, advance_user_contract_locked,
    cancel_user_route_intent, publish_applied_route_projection, commit_in_place_route_projection,
    begin_playback_request, prepare_playback_landing, cancel_playback_request, cancel_open, cancel_close,
    publish_automatic_route_intent, note_user_seek_intent, retarget_pending, commit_user_seek,
    reject_user_seek, claim_route_action, finish_route_action, finish_open, finish_close,
    note_original_refused_on, begin_route_start, begin_flight_start, begin_recovery_flight_start,
    prepare_route_start, reject_route_start_preparation, abort_route_start,
    drop_deferred, settle_open, complete, publish_route_start_result, take_start_results,
    fail_current_engine, begin_engine_teardown, return_claimed_user, finish_engine_teardown, begin_flight,
    begin_recovery_flight, begin_engineless_flight, begin_resume_flight, end_flight,
    take_active_encoder, replace_active_encoder_for, replace_active_hls_for, replace_active_hls_with,
    observe_active_hls, sync_active_hls_to_session, set_pending_original, adopt_trial, defer_quality,
    defer_audio, defer_reconcile, on_pending_original, carry_rebase_into_trial,
    note_original_rolled_back_onto, confirm_original_recovery, confirm_open, confirm_commit,
    rollback_original_recovery, rollback_open, rollback_active, rollback_close, install_active_hls,
    install_active_encoder, drop_original_recovery, take_pending_original, publish_timeline,
    note_reported_session, take_reported_session, clear_flight, mint_action, install_encoder.

Ltac route_phase :=
  cbn; repeat match goal with E : pc_phase ?c = _ |- context [pc_phase ?c] => rewrite E end; cbn.
Ltac route_cases := repeat case_match; simplify_eq; try done; route_phase.



(** What the contract of a landing leaves alone. *)
Lemma landing_contract_keeps q s playable c :
  let c' := landing_contract q s playable c in
  pc_phase c' = pc_phase c /\ pc_next_action c' = pc_next_action c
  /\ pc_next_start_attempt c' = pc_next_start_attempt c /\ pc_media_epoch c' = next_generation (pc_media_epoch c)
  /\ pc_engine_epoch c' = next_generation (pc_engine_epoch c)
  /\ pc_pending_original c' = pc_pending_original c /\ pc_claimed_user c' = pc_claimed_user c
  /\ pc_resolve_fallback c' = pc_resolve_fallback c.
Proof. cbn zeta. unfold landing_contract. destruct playable; case_bool_decide; done. Qed.

(** [route_step_inv]: the state after a section, in the place of [c']. *)
Ltac route_step_inv Hs :=
  cbn [route_step] in Hs; first [injection Hs as <-
    | apply fmap_Some in Hs as ([got ?] & Hs & ->); unfold claim_route_start_attempt in Hs; cbn [snd]];
  try match goal with
  | |- context [prepare_playback_landing ?q ?s ?p ?c] =>
      unfold prepare_playback_landing; pose proof (landing_contract_keeps q s p c) as Hkeep; cbn zeta in Hkeep;
      revert Hkeep; generalize (landing_contract q s p c); intros ? (? & ? & ? & ? & ? & ? & ? & ?);
      repeat match goal with E : ?f _ = ?f ?c |- context [?f ?c] => rewrite <- E end;
      destruct p
  end.

(** ** Generations come round once in [u64_max] *)

Lemma next_generation_range z : 1 <= next_generation z <= u64_max.
Proof.
  unfold next_generation. pose proof (u64_wrap_range (z + 1)). destruct (Z.eqb_spec (u64_wrap (z + 1)) 0); ints.
Qed.

Lemma next_generation_mod z : 1 <= z <= u64_max -> next_generation z = z mod u64_max + 1.
Proof.
  intros Hz. unfold next_generation. destruct (decide (z = u64_max)) as [->|Hne]; [done|].
  unwrap. rewrite Z.mod_small by lia. destruct (Z.eqb_spec (z + 1) 0); lia.
Qed.

Lemma generations_mod k z : 1 <= z <= u64_max ->
  Nat.iter k next_generation z = (z - 1 + Z.of_nat k) mod u64_max + 1.
Proof.
  intros Hz. induction k as [|k IH].
  - cbn. rewrite Z.add_0_r, Z.mod_small; lia.
  - change (Nat.iter (S k) next_generation z) with (next_generation (Nat.iter k next_generation z)).
    rewrite IH, next_generation_mod by (pose proof (Z.mod_pos_bound (z - 1 + Z.of_nat k) u64_max eq_refl); lia).
    rewrite Zplus_mod_idemp_l. do 2 f_equal. lia.
Qed.

Lemma generations_differ k z : 1 <= z <= u64_max -> 0 < Z.of_nat k < u64_max ->
  Nat.iter k next_generation z <> z.
Proof.
  intros Hz Hk. rewrite generations_mod by done. intros Heq.
  assert ((z - 1 + Z.of_nat k) mod u64_max = (z - 1) mod u64_max) as Hmod
    by (rewrite (Z.mod_small (z - 1)) by lia; lia).
  apply Z.cong_iff_0 in Hmod. replace (z - 1 + Z.of_nat k - (z - 1)) with (Z.of_nat k) in Hmod by lia.
  rewrite Z.mod_small in Hmod; lia.
Qed.

(** ** Workers that were revoked *)

(** The sections that end an Engine, or cross a seek. *)
Definition retires (c : PlayerControl) (ev : RouteEvent) : bool :=
  match ev with
  | Ev_landing _ _ _ | Ev_teardown _ => true
  | Ev_fail => match pc_phase c with Failed _ | Idle | Stopping | Resolving => false | _ => true end
  | Ev_commit_seek => bool_decide (is_Some (pc_pending_seek_ns c))
  | _ => false
  end.

Lemma media_epoch_step c ev c' : route_step c ev = Some c' ->
  pc_media_epoch c' = if retires c ev then next_generation (pc_media_epoch c) else pc_media_epoch c.
Proof.
  intros Hs. destruct ev; route_step_inv Hs; cbn [retires]; route_unfold; route_cases.
Qed.
(** Some section of the series was one of those. *)
Inductive retired_in : PlayerControl -> list RouteEvent -> Prop :=
  | retired_now c ev evs : retires c ev = true -> retired_in c (ev :: evs)
  | retired_later c ev c1 evs : route_step c ev = Some c1 -> retired_in c1 evs -> retired_in c (ev :: evs).

Lemma media_epoch_steps c evs c' : route_steps c evs c' ->
  exists k, pc_media_epoch c' = Nat.iter k next_generation (pc_media_epoch c)
    /\ (k <= length evs)%nat /\ (retired_in c evs -> (0 < k)%nat).
Proof.
  intros Hs. induction Hs as [c|c ev c1 evs c' Hev _ (k & Hk & Hle & Hr)].
  - exists 0%nat. split_and!; [done..|]. intros Hr. inversion Hr.
  - pose proof (media_epoch_step _ _ _ Hev) as Hm. destruct (retires c ev) eqn:E.
    + exists (S k). rewrite Nat.iter_succ_r, <- Hm. cbn [length]. split_and!; [done|lia|lia].
    + exists k. rewrite Hk, Hm. cbn [length]. split_and!; [done|lia|].
      intros Hin. inversion Hin; subst; [congruence|]. apply Hr. congruence.
Qed.

Lemma media_epoch_range evs c : route_steps PLAYER_CONTROL evs c -> 1 <= pc_media_epoch c <= u64_max.
Proof.
  intros (k & -> & _)%media_epoch_steps. destruct k; [cbn; ints|]. apply next_generation_range.
Qed.

Lemma revoked evs0 c evs c' : route_steps PLAYER_CONTROL evs0 c -> route_steps c evs c' ->
  retired_in c evs -> Z.of_nat (length evs) < u64_max -> ticket_is_current c' (worker_ticket_of c) = false.
Proof.
  intros Hc (k & Hk & Hle & Hr)%media_epoch_steps Hin Hlen. apply bool_decide_eq_false.
  specialize (Hr Hin). intros Heq%(f_equal wt_media_epoch). cbn in Heq. rewrite Hk in Heq.
  eapply (generations_differ k); [by eapply media_epoch_range| |by symmetry]. lia.
Qed.

(** C16. A worker that was given its ticket before an Engine ended (a teardown, a failure, a resolve
    that landed) or a seek was crossed changes nothing any more: whatever follows, for as long as the
    64-bit generations have not come round, each of its publications is refused and leaves the route
    as it is. *)
Theorem a_revoked_worker_changes_nothing evs0 c evs c' :
  route_steps PLAYER_CONTROL evs0 c -> route_steps c evs c' -> retired_in c evs ->
  Z.of_nat (length evs) < u64_max ->
  let ticket := worker_ticket_of c in
  (forall i, automatic_ticket i = ticket -> publish_automatic_route_intent i c' = (Intent_Stale, c'))
  /\ (forall r, replace_active_encoder_for ticket r c' = (None, c'))
  /\ (forall r url rung o, replace_active_hls_for ticket r url rung o c' = (None, c'))
  /\ (forall T r url rung o (t : option T), replace_active_hls_with ticket r url rung o t c' = (inr RouteMoved, c'))
  /\ (forall v kbps, observe_active_hls ticket v kbps c' = c').
Proof.
  intros Hc Hs Hin Hlen ticket. pose proof (revoked _ _ _ _ Hc Hs Hin Hlen) as Hr. fold ticket in Hr.
  unfold publish_automatic_route_intent, replace_active_encoder_for, replace_active_hls_for,
    replace_active_hls_with, observe_active_hls.
  split_and!; intros; subst; rewrite ?H0, Hr, ?andb_false_r; done.
Qed.

(** ** Loads *)

Definition loading (p : ControlPhase) : option RouteStartAttempt :=
  match p with
  | Starting serial attempt | OriginalTrial (Trial_Starting serial attempt) => Some (mk_attempt serial attempt)
  | _ => None
  end.

(** The attempts a section mints, and those whose result it accepts. *)
Definition minted_by (c : PlayerControl) (ev : RouteEvent) : list RouteStartAttempt :=
  match ev with
  | Ev_attempt t => match claim_route_start_attempt t c with Some (Some a, _) => [a] | _ => [] end
  | _ => []
  end.
Definition accepted_by (c : PlayerControl) (ev : RouteEvent) : list RouteStartAttempt :=
  match ev with
  | Ev_settle a r => match settle_open a r c with Some _ => [a] | None => [] end
  | _ => []
  end.

Inductive route_history : list RouteEvent -> PlayerControl -> list RouteStartAttempt ->
    list RouteStartAttempt -> Prop :=
  | history_start : route_history [] PLAYER_CONTROL [] []
  | history_step evs c minted accepted ev c' :
      route_history evs c minted accepted -> route_step c ev = Some c' ->
      route_history (evs ++ [ev]) c' (minted ++ minted_by c ev) (accepted ++ accepted_by c ev).

Lemma settle_loading a r c out : settle_open a r c = Some out -> loading (pc_phase c) = Some a.
Proof.
  unfold settle_open. intros Hs. destruct a as [s n]. cbn in *.
  repeat (case_bool_decide; cbn in *); try done; by (rewrite H0 || rewrite H1).
Qed.

Lemma loading_keep c ev c' : route_step c ev = Some c' -> minted_by c ev = [] ->
  pc_next_start_attempt c' = pc_next_start_attempt c
  /\ (loading (pc_phase c') = loading (pc_phase c) /\ accepted_by c ev = [] \/ loading (pc_phase c') = None).
Proof.
  intros Hs Hm. destruct ev; cbn [minted_by accepted_by] in *; route_step_inv Hs;
    try unfold claim_route_start_attempt in Hm; route_unfold; route_cases; auto; try congruence.
  split; [done|left; split; congruence].
Qed.
Lemma minted_step c ev c' a : route_step c ev = Some c' -> minted_by c ev = [a] ->
  loading (pc_phase c') = Some a /\ at_attempt a = pc_next_start_attempt c + 1
  /\ pc_next_start_attempt c' = at_attempt a /\ accepted_by c ev = [].
Proof.
  intros Hs Hm. destruct ev; try done. cbn [route_step minted_by] in *.
  apply fmap_Some in Hs as ([got c1] & Hs & ->). rewrite Hs in Hm. destruct got as [b|]; [|done].
  injection Hm as ->. unfold claim_route_start_attempt in Hs.
  repeat case_match; simplify_eq; cbn;
    match goal with E : u64_checked _ = Some _ |- _ => apply checked_Some in E as [-> _] end; done.
Qed.

Lemma minted_cases c ev : minted_by c ev = [] \/ exists a, minted_by c ev = [a].
Proof. unfold minted_by. repeat case_match; eauto. Qed.

Lemma accepted_cases c ev : accepted_by c ev = []
  \/ exists a, accepted_by c ev = [a] /\ loading (pc_phase c) = Some a.
Proof. unfold accepted_by. repeat case_match; eauto using settle_loading. Qed.

(** What a history has minted and accepted, against the reducer's state. *)
Record loads_ok (c : PlayerControl) (minted accepted : list RouteStartAttempt) : Prop := mk_loads_ok {
  lo_bound : Forall (fun a => at_attempt a <= pc_next_start_attempt c) minted;
  lo_order : StronglySorted Z.lt (at_attempt <$> minted);
  lo_known : accepted ⊆ minted;
  lo_once : NoDup accepted;
  lo_current : forall a, loading (pc_phase c) = Some a -> last minted = Some a /\ a ∉ accepted
}.

Lemma attempts_sorted_snoc (l : list RouteStartAttempt) a : StronglySorted Z.lt (at_attempt <$> l) ->
  Forall (fun b => at_attempt b < at_attempt a) l -> StronglySorted Z.lt (at_attempt <$> (l ++ [a])).
Proof.
  intros Hs Hf. rewrite fmap_app. induction l as [|b l IH]; cbn in *; [by repeat constructor|].
  apply StronglySorted_inv in Hs as [Hs Hb]. apply Forall_cons in Hf as [Hba Hf]. constructor; [auto|].
  apply Forall_app. split; [done|]. by repeat constructor.
Qed.

Lemma loads_step c minted accepted ev c' : loads_ok c minted accepted -> route_step c ev = Some c' ->
  loads_ok c' (minted ++ minted_by c ev) (accepted ++ accepted_by c ev).
Proof.
  intros [Hb Ho Hk Hn Hc] Hs. destruct (minted_cases c ev) as [Hm|[a Hm]]; rewrite Hm.
  - destruct (loading_keep _ _ _ Hs Hm) as [Hnext Hload]. rewrite app_nil_r.
    destruct (accepted_cases c ev) as [Ha|(a & Ha & Hl)]; rewrite Ha.
    + rewrite app_nil_r. constructor; rewrite ?Hnext; try done. intros b Hb'.
      destruct Hload as [[Hload _]|Hload]; [apply Hc|]; congruence.
    + destruct (Hc a Hl) as [Hlast Hnew]. destruct Hload as [[_ ?]|Hload]; [congruence|].
      constructor; rewrite ?Hnext; try done.
      * intros x [Hx| ->%list_elem_of_singleton]%elem_of_app; [by apply Hk|].
        apply last_Some in Hlast as [l ->]. apply elem_of_app. right. by constructor.
      * apply NoDup_app. split_and!; [done| |apply NoDup_singleton].
        intros x Hx ->%list_elem_of_singleton. done.
      * rewrite Hload. done.
  - destruct (minted_step _ _ _ _ Hs Hm) as (Hload & Hval & Hnext & ->). rewrite app_nil_r.
    assert (Forall (fun b => at_attempt b < at_attempt a) minted) as Hlt.
    { eapply Forall_impl; [exact Hb|]. cbn. intros. lia. }
    constructor; [| by apply attempts_sorted_snoc | | done |].
    + rewrite Forall_app. split; [eapply Forall_impl; [exact Hlt|]; cbn; intros; lia|].
      constructor; [lia|done].
    + intros x Hx. apply elem_of_app. auto.
    + intros b Hload'. assert (b = a) as -> by congruence. rewrite last_snoc. split; [done|].
      intros Hin%Hk. rewrite Forall_forall in Hlt. specialize (Hlt _ Hin). lia.
Qed.

Lemma loads_history evs c minted accepted : route_history evs c minted accepted -> loads_ok c minted accepted.
Proof.
  induction 1 as [|evs c minted accepted ev c' _ IH Hs]; [|by eapply loads_step].
  constructor; [done|constructor|done|constructor|done].
Qed.

(** C8. Whatever the interleaving of retries, teardowns, trials and late completions: no Load attempt
    is minted twice, the result of each is accepted at most once, and a result is accepted only for
    the newest attempt there is. *)
Theorem a_load_settles_once evs c minted accepted : route_history evs c minted accepted ->
  StronglySorted Z.lt (at_attempt <$> minted) /\ accepted ⊆ minted /\ NoDup accepted
  /\ forall a r out, settle_open a r c = Some out -> last minted = Some a /\ a ∉ accepted.
Proof.
  intros [_ Ho Hk Hn Hc]%loads_history. split_and!; try done. intros a r out Hset%settle_loading. auto.
Qed.

(** ** What opens the route *)

(** The route in the reducer has not been shown to play: no Engine has, or the one there is belongs to
    the route it replaces. *)
Definition unproven_at (p : ControlPhase) (fallback : option ResolveFallback) : bool :=
  match p with
  | Prepared _ | Starting _ _ | Failed _ | Idle | Stopping => true
  | OriginalTrial (Trial_AwaitingFrame _) => false
  | OriginalTrial _ => true
  | Resolving => match fallback with Some Fallback_Stable => false | _ => true end
  | _ => false
  end.
Definition unproven (c : PlayerControl) : bool := unproven_at (pc_phase c) (pc_resolve_fallback c).

(** The success of the Load attempt in flight, and the recovery flight that takes over the transaction
    of a start that failed or is waiting. *)
Definition load_succeeds (c : PlayerControl) (ev : RouteEvent) : bool :=
  match ev with Ev_settle a Started => bool_decide (loading (pc_phase c) = Some a) | _ => false end.
Definition recovers (n : Z) (c : PlayerControl) (ev : RouteEvent) : bool :=
  match ev, pc_phase c with
  | Ev_recovery_flight_start, (Prepared serial | Failed serial | Starting serial _) => serial =? n
  | _, _ => false
  end.

(** The transaction of a flight is given back: its preparation is refused, it found no route, or the
    session is suspended under it. *)
Definition gives_back (n : Z) (c : PlayerControl) (ev : RouteEvent) : bool :=
  match ev with
  | Ev_reject t | Ev_abort t NoRoute => t =? n
  | Ev_teardown true => bool_decide (pc_flight c = Some n)
  | _ => false
  end.

Lemma unproven_step c ev c' : route_step c ev = Some c' -> unproven c = true ->
  unproven c' = true \/ load_succeeds c ev = true \/ exists n, recovers n c ev = true /\ pc_phase c' = Preparing n.
Proof.
  intros Hs Hu. destruct (load_succeeds c ev) eqn:Hl; [by auto|]. unfold unproven in *.
  assert (ev = Ev_recovery_flight_start \/ ev <> Ev_recovery_flight_start) as [->|Hne]
    by (destruct ev; (by left) || (by right)).
  { revert Hu. route_step_inv Hs. unfold begin_recovery_flight_start, mint_action, recovers.
    destruct (pc_phase c) as [ | | |n|n|n|n|n at_|n|t|n| ] eqn:E; cbn; rewrite ?E; cbn; try (by auto); try done.
    all: try (intros _; right; right; exists n; by rewrite Z.eqb_refl).
    left. by destruct t; cbn; rewrite ?E. }
  left. destruct ev; cbn [load_succeeds] in Hl; try done; revert Hu Hl; route_step_inv Hs.
  all: route_unfold; route_cases; auto; try congruence; cbn; intros; try done.
  all: cbn in *; repeat match goal with E : bool_decide _ = true |- _ => apply bool_decide_eq_true in E end.
  all: repeat match goal with E : pc_phase _ = _ |- _ => rewrite E in *; clear E end; cbn in *; try done.
  all: try (destruct (pc_resolve_fallback _) as [[]|]; done).
  all: exfalso; apply bool_decide_eq_false in Hl; apply Hl.
  all: try (by destruct ticket).
  match goal with E : negb _ = false |- _ => apply negb_false_iff, bool_decide_eq_true in E; rewrite E end.
  by destruct ticket.
Qed.

(** What becomes of the transaction a recovery flight took over. *)
Lemma recovering_step c ev c' n : route_step c ev = Some c' -> pc_phase c = Preparing n ->
  unproven c' = true \/ pc_phase c' = Preparing n \/ gives_back n c ev = true /\ pc_phase c' = Stable.
Proof.
  intros Hs Hp. unfold unproven. destruct ev; revert Hs; intros Hs; route_step_inv Hs.
  all: cbn [gives_back]; route_unfold; rewrite ?Hp; cbn; auto.
  all: repeat case_match; simplify_eq; cbn; rewrite ?Hp; auto; try congruence.
  all: right; right; by rewrite Z.eqb_sym.
Qed.

(** How the route of the reducer was opened along [evs], when it had not been shown to play: *)
Inductive opening (c : PlayerControl) (evs : list RouteEvent) (c' : PlayerControl) : Prop :=
  (** the Load attempt in flight succeeded; *)
  | opened_by_a_load evs1 a evs2 c1 :
      evs = evs1 ++ Ev_settle a Started :: evs2 -> route_steps c evs1 c1 -> unproven c1 = true ->
      loading (pc_phase c1) = Some a -> opening c evs c'
  (** or the flight that had taken over its waiting or failed transaction was given back; *)
  | opened_by_giving_back evs1 n c1 evs2 c2 ev c3 evs3 :
      evs = evs1 ++ (Ev_recovery_flight_start :: evs2) ++ ev :: evs3 ->
      route_steps c evs1 c1 -> unproven c1 = true -> recovers n c1 Ev_recovery_flight_start = true ->
      route_steps c1 (Ev_recovery_flight_start :: evs2) c2 -> pc_phase c2 = Preparing n ->
      gives_back n c2 ev = true -> route_step c2 ev = Some c3 -> pc_phase c3 = Stable -> opening c evs c'
  (** or that flight is still out. *)
  | still_in_flight evs1 n c1 evs2 :
      evs = evs1 ++ Ev_recovery_flight_start :: evs2 ->
      route_steps c evs1 c1 -> unproven c1 = true -> recovers n c1 Ev_recovery_flight_start = true ->
      route_steps c1 (Ev_recovery_flight_start :: evs2) c' -> pc_phase c' = Preparing n -> opening c evs c'.

Lemma opening_more c evs c1 ev c2 : opening c evs c1 -> route_step c1 ev = Some c2 ->
  unproven c2 = true \/ opening c (evs ++ [ev]) c2.
Proof.
  intros [evs1 a evs2 c0 -> ? ? ?|evs1 n c0 evs2 c3 ev' c4 evs3 -> ? ? ? ? ? ? ? ?|evs1 n c0 evs2 -> ? ? Hr Hs Hp] He.
  - right. eapply (opened_by_a_load _ _ _ evs1 a (evs2 ++ [ev])); [by rewrite <- app_assoc|done..].
  - right. eapply (opened_by_giving_back _ _ _ evs1 n c0 evs2 c3 ev' c4 (evs3 ++ [ev]));
      [by rewrite <- !app_assoc|done..].
  - destruct (recovering_step _ _ _ _ He Hp) as [?|[?|[? ?]]]; [by auto|right|right].
    + eapply (still_in_flight _ _ _ evs1 n c0 (evs2 ++ [ev])); [by rewrite <- app_assoc|done..| |done].
      change (Ev_recovery_flight_start :: evs2 ++ [ev]) with ((Ev_recovery_flight_start :: evs2) ++ [ev]).
      apply route_steps_app. eauto using steps_cons, steps_nil.
    + eapply (opened_by_giving_back _ _ _ evs1 n c0 evs2 c1 ev c2 []); [by rewrite <- app_assoc|done..].
Qed.

Lemma opening_snoc c evs c1 ev c2 : route_steps c evs c1 -> unproven c1 = true ->
  route_step c1 ev = Some c2 -> unproven c2 = true \/ opening c (evs ++ [ev]) c2.
Proof.
  intros Hs Hu He. destruct (unproven_step _ _ _ He Hu) as [?|[Hl|(n & Hr & Hp)]]; [by auto|right|right].
  - destruct ev; try done. destruct result; try done. apply bool_decide_eq_true in Hl.
    by eapply opened_by_a_load.
  - destruct ev; try done. eapply (still_in_flight _ _ _ evs n c1 []); try done.
    eauto using steps_cons, steps_nil.
Qed.

Lemma opening_steps c evs c' : route_steps c evs c' -> unproven c = true ->
  unproven c' = true \/ opening c evs c'.
Proof.
  intros Hs Hu. revert c' Hs. induction evs as [|ev evs IH] using rev_ind; intros c' Hs.
  - inversion Hs; subst. by left.
  - apply route_steps_app in Hs as (c1 & Hs & He). inversion He as [|? ? ? ? ? Hev Hn]; subst.
    inversion Hn; subst. destruct (IH _ Hs) as [Hu1|Ho]; eauto using opening_snoc, opening_more.
Qed.

(** C10. Installing a URL, accepting a plan or handing over a payload opens nothing.  From a route that
    has not been shown to play, the reducer reaches a phase that takes a route to play ([Stable],
    where workers and claims are let in, and those that come from it) in two ways only: the Load
    attempt that is in flight at that moment succeeds; or a recovery flight takes over the
    transaction of a start that waits or failed, and its transaction is open for as long as the
    flight is out and is given back as [Stable] when the flight is refused, finds no route or is
    suspended. *)
Theorem a_route_opens_on_a_proven_load c evs c' : route_steps c evs c' -> unproven c = true ->
  unproven c' = false -> opening c evs c'.
Proof. intros Hs Hu Hu'. destruct (opening_steps _ _ _ Hs Hu); [congruence|done]. Qed.

(** ** The way back of a trial *)

(** The sections that begin or end a trial. *)
Definition trial_edge (ev : RouteEvent) : bool :=
  match ev with Ev_trial _ _ _ | Ev_confirm _ | Ev_rollback _ _ | Ev_drop _ _ => true | _ => false end.

(** What a rollback gives back of the reducer and of the session. *)
Definition way_back (p : PendingOriginal) :=
  (po_previous_applied_revision p, po_previous_applied_quality p, po_previous_applied_projection p,
   po_previous p, po_encoder p, po_previous_feed_offer p, po_offset_secs p).

Lemma way_back_step c ev c' : route_step c ev = Some c' -> trial_edge ev = false ->
  way_back <$> pc_pending_original c' = way_back <$> pc_pending_original c.
Proof.
  intros Hs Ht. destruct ev; try done; clear Ht; route_step_inv Hs; try congruence.
  all: route_unfold; route_cases; try congruence.
  all: destruct (pc_pending_original _) as [[]|]; cbn; try case_bool_decide; done.
Qed.

Lemma way_back_steps c evs c' : route_steps c evs c' -> Forall (fun ev => trial_edge ev = false) evs ->
  way_back <$> pc_pending_original c' = way_back <$> pc_pending_original c.
Proof.
  induction 1 as [|c ev c1 evs c' Hev Hs IH]; intros Hf; [done|]. apply Forall_cons in Hf as [Ht Hf].
  rewrite IH by done. by eapply way_back_step.
Qed.
Lemma rollback_spec client s c off s' c' stops : rollback_original_recovery client s c = (Some off, s', c', stops) ->
  exists pending, pc_pending_original c = Some pending
    /\ s' = rollback_install s pending
    /\ pc_applied_revision c' = po_previous_applied_revision pending
    /\ pc_applied_quality c' = po_previous_applied_quality pending
    /\ pc_applied_projection c' = po_previous_applied_projection pending
    /\ pc_phase c' = Prepared (next_generation (pc_next_action c))
    /\ pc_pending_original c' = None
    /\ ae_id (pc_active c') = po_encoder pending
    /\ off = i64_wrap (Z.max (po_offset_secs pending) 0 * 1000000000).
Proof.
  unfold rollback_original_recovery, rollback_open. intros Hr.
  destruct (trial_serial (pc_phase c)) as [serial|]; [|done].
  destruct (pc_pending_original c) as [pending|]; [|done]. exists pending. split; [done|].
  unfold rollback_active in Hr. destruct (restored_hls pending);
    unfold rollback_close, mint_action in Hr; destruct (bool_decide _); simplify_eq; done.
Qed.

(** C9. A recovery of an Original that fails is undone.  Whatever happened while it was unproven
    (Loads, suspends, picks, reports, flights), the rollback gives the reducer the revision, quality
    and projection that were applied when the trial began, a route that has yet to prove itself, and
    its old encoder; and the session the route it had then, but for the subtitle and the candidate the
    viewer may have changed meanwhile. *)
Theorem a_rollback_restores_what_was_applied c0 s0 pending automatic evs c client s off s' c' stops :
  route_steps (snd (set_pending_original s0 pending automatic c0)) evs c ->
  Forall (fun ev => trial_edge ev = false) evs ->
  rollback_original_recovery client s c = (Some off, s', c', stops) ->
  pc_applied_revision c' = pc_applied_revision c0 /\ pc_applied_quality c' = pc_applied_quality c0
  /\ pc_applied_projection c' = pc_applied_projection c0
  /\ unproven c' = true /\ pc_pending_original c' = None
  /\ ae_id (pc_active c') = po_encoder pending
  /\ off = i64_wrap (Z.max (po_offset_secs pending) 0 * 1000000000)
  /\ route_projection s' = (po_previous pending)
       <| pr_subtitle_sid := ps_cur_sub_sid s |> <| pr_subtitle_sidecar := ps_cur_sub_sidecar s |>
       <| pr_subtitle_client_drawable := ps_cur_sub_client_drawable s |>
       <| pr_subtitle_ordinal := ps_cur_sub_ordinal s |> <| pr_side_subs_refused := ps_side_subs_refused s |>
       <| pr_auto_original := ps_auto_original s |> <| pr_src_fps := ps_src_fps s |>
  /\ ps_planned_feed_offer s' = po_previous_feed_offer pending /\ ps_admitted_feed_offer s' = None.
Proof.
  intros Hs Hf (p & Hp & -> & -> & -> & -> & Hph & -> & -> & ->)%rollback_spec.
  pose proof (way_back_steps _ _ _ Hs Hf) as Hw. rewrite Hp in Hw. unfold set_pending_original in Hw.
  assert (pc_pending_original (snd (set_pending_original s0 pending automatic c0)) =
    Some (pending <| po_charge_visible_switch_on_commit := automatic |>
      <| po_previous_applied_revision := pc_applied_revision c0 |>
      <| po_previous_applied_quality := pc_applied_quality c0 |>
      <| po_previous_applied_projection := pc_applied_projection c0 |>
      <| po_candidate_projection := route_projection s0 |>)) as Hset.
  { unfold set_pending_original, mint_action. destruct automatic; repeat case_match; by simplify_eq. }
  unfold set_pending_original in Hset. rewrite Hset in Hw. cbn in Hw. injection Hw as -> -> -> Hprev -> Hfeed ->.
  unfold unproven. rewrite Hph. split_and!; try done. unfold rollback_install. by rewrite Hprev.
Qed.

(** ** Picks *)

(** The last action claimed. *)
Definition claimed_by (c : PlayerControl) (ev : RouteEvent) : option ClaimedRouteAction :=
  match ev with Ev_claim => fst (claim_route_action c) | _ => None end.

Definition record_of (a : ClaimedRouteAction) : option (Z * UserRouteIntent * bool) :=
  match cl_intent a with
  | Intent_User user => Some (cl_serial a, user, cl_displaced_pick a)
  | Intent_Automatic _ => None
  end.

(** While a claim is applied, the reducer still has what it took out of the queue. *)
Definition claim_kept (c : PlayerControl) (last : option ClaimedRouteAction) : Prop :=
  forall serial, pc_phase c = Applying serial ->
    exists a, last = Some a /\ cl_serial a = serial /\ pc_claimed_user c = record_of a.

Inductive claim_history : list RouteEvent -> PlayerControl -> option ClaimedRouteAction -> Prop :=
  | claims_start : claim_history [] PLAYER_CONTROL None
  | claims_step evs c last ev c' : claim_history evs c last -> route_step c ev = Some c' ->
      claim_history (evs ++ [ev]) c' (match claimed_by c ev with Some a => Some a | None => last end).

Lemma applying_step c ev c' serial : route_step c ev = Some c' -> pc_phase c' = Applying serial ->
  claimed_by c ev = None -> pc_phase c = Applying serial /\ pc_claimed_user c' = pc_claimed_user c.
Proof.
  intros Hs Hp Hc. revert Hp Hc. destruct ev; cbn [claimed_by]; route_step_inv Hs; try congruence.
  all: route_unfold; route_cases; intros; try done; try congruence; split; congruence.
Qed.
Lemma claim_spec c a : fst (claim_route_action c) = Some a ->
  let c' := snd (claim_route_action c) in
  pc_phase c' = Applying (cl_serial a) /\ pc_claimed_user c' = record_of a.
Proof. unfold claim_route_action, mint_action. repeat case_match; cbn; intros [= <-]; done. Qed.

Lemma claims_kept evs c last : claim_history evs c last -> claim_kept c last.
Proof.
  induction 1 as [|evs c last ev c' _ IH Hs]; [done|]. intros serial Hp.
  destruct (claimed_by c ev) as [a|] eqn:Hc.
  - destruct ev; try done. cbn in Hc, Hs. destruct (claim_spec c a Hc) as [Hp' Hr]. simplify_eq. exists a.
    split_and!; [done|congruence|done].
  - destruct (applying_step _ _ _ _ Hs Hp Hc) as [Hp' ->]. by apply IH.
Qed.

(** C11. A pick is not lost to an app switch.  If the television suspends the app while a worker still
    applies the viewer's pick, whatever happened since it was claimed, the reducer leaves the claim,
    and the pick is in the queue again, merged under a newer one, with the mark of the reload it
    displaced; with nothing newer the restored Engine claims that very pick. *)
Theorem an_app_switch_gives_the_pick_back evs c a user :
  claim_history evs c (Some a) -> cl_intent a = Intent_User user ->
  pc_phase c = Applying (cl_serial a) -> pc_flight c = Some (cl_serial a) ->
  let c' := snd (begin_engine_teardown true c) in
  pc_phase c' = Stable /\ flight_phase_open c' = false
  /\ pc_displaced_pick c' = pc_displaced_pick c || cl_displaced_pick a
  /\ pc_pending_user c' = Some (match pc_pending_user c with
                                | Some newer => merge_user_route_intent (Some user) newer false
                                | None => user
                                end)
  /\ (pc_pending_user c = None -> exists a', fst (claim_route_action c') = Some a'
        /\ cl_intent a' = Intent_User user /\ cl_displaced_pick a' = pc_displaced_pick c').
Proof.
  intros Hh%claims_kept Hu Hp Hf. destruct (Hh _ Hp) as (a' & [= ->] & _ & Hk).
  unfold record_of in Hk. rewrite Hu in Hk. cbn zeta.
  unfold begin_engine_teardown. cbn [negb]. cbn. rewrite Hp. cbn. rewrite Hf, bool_decide_eq_true_2 by done. cbn.
  unfold return_claimed_user. cbn. rewrite Hk, Z.eqb_refl. cbn.
  split_and!; try done. intros Hn. rewrite Hn. eauto.
Qed.

(** An action the server refused, or that was cancelled, leaves the route as it was: the session
    has the projection last applied (but for the file's own frame rate), the reducer is [Stable] again
    with the same revision, quality, queue and tickets, so that the worker of the unchanged route goes
    on; only a refused automatic recovery is remembered, against the encoder that asked.  An action
    that is no longer the one applied changes nothing at all. *)
Theorem a_refusal_leaves_the_route s action result c : result <> Apply_Prepared ->
  let '(owned, s', c') := finish_route_action s action result c in
  (owned = true <-> pc_phase c = Applying (cl_serial action))
  /\ (owned = false -> s' = s /\ c' = c)
  /\ (owned = true ->
      pc_phase c' = Stable
      /\ (forall p, pc_applied_projection c = Some p -> route_projection s' = p <| pr_src_fps := ps_src_fps s |>)
      /\ worker_ticket_of c' = worker_ticket_of c
      /\ pc_applied_quality c' = pc_applied_quality c /\ pc_applied_projection c' = pc_applied_projection c
      /\ pc_pending_user c' = pc_pending_user c
      /\ pc_original_refused_on c' =
           match cl_intent action, result with
           | Intent_Automatic (HlsToOriginal ticket _ _), Apply_Rejected => Some (encoder ticket)
           | _, _ => pc_original_refused_on c
           end).
Proof.
  intros Hr. unfold finish_route_action, finish_open. case_bool_decide as Hp; [|by split_and!].
  destruct result; [done| |]; destruct (cl_intent action) as [|[]]; cbn; unfold finish_close; cbn;
    rewrite bool_decide_eq_true_2 by done; cbn; (split; [done|]); (split; [done|]); intros _;
    split_and!; try done; intros p Hpr; unfold restore; cbn; rewrite Hpr; done.
Qed.

End Traces.
