(* ===== verification/RouteFlight.v ===== *)
(** * Route control: the mailbox of the flights

    [media/src/route/flight.rs]: a flight's server half runs on a worker, which posts what it settled on
    to a mailbox of one place; the frame thread takes it out, and installs it or, when its flight is no
    longer the current one, stops what the worker started.  And the ledger of encoders the server has
    yet to release ([EncoderCleanupLedger] of [decision.rs]).

    A [client] of the source is whether there is one.  The flag that spares the frame thread a lock
    says whether the place is taken, and is not kept apart. *)

From stdpp Require Import list.
From S2P Require Import Prelude Bytes Ladder RouteControl RouteStart RouteTrial.

#[local] Open Scope Z_scope.

Section Flight.
Context `{RouteData}.

Inductive FlightOwner :=
  | Owner_Claim (action : ClaimedRouteAction)
  | Owner_Start (ticket : Z)
  | Owner_Recovery (ticket : Z).

Definition owner_serial (o : FlightOwner) : Z :=
  match o with Owner_Claim action => cl_serial action | Owner_Start t | Owner_Recovery t => t end.

(** What a worker settled on, with the encoders it registered. *)
Inductive RetranscodeClaimResult :=
  | Result_Retranscode (ticket : WorkerTicket) (qsess superseded : bytes)
  | Result_OriginalRecovery (client : bool) (expected : WorkerTicket) (remux : option bytes)
  | Result_Rebase (replacement : option bytes)
  | Result_AutoHls (qsess : option bytes)
  | Result_NativeAudio (ordinal : Z) (codec : bytes)
  | Result_Rejected (reason : bytes).

Record Landing := mk_landing {
  la_owner : FlightOwner; la_pending_seek : Z; la_user_target : Z; la_result : RetranscodeClaimResult
}.

Definition stop_encoder_session (session : bytes) : list EncoderStop :=
  if bool_decide (session = []) then [] else [Stop_session session].

(** [RetranscodeClaimResult::discard]: a claim's and a recovery's worker had made its encoder the
    route's, so the one it replaced is stopped too; the other kinds had committed nothing. *)
Definition discard (r : RetranscodeClaimResult) : list EncoderStop :=
  match r with
  | Result_Retranscode _ qsess superseded => stop_encoder_session qsess ++ stop_encoder_session superseded
  | Result_OriginalRecovery true expected (Some replacement) =>
      stop_encoder_session replacement ++ stop_encoder_session (encoder expected)
  | Result_OriginalRecovery _ _ _ => []
  | Result_Rebase (Some session) | Result_AutoHls (Some session) => stop_encoder_session session
  | Result_Rebase None | Result_AutoHls None => []
  | Result_NativeAudio _ _ | Result_Rejected _ => []
  end.

(** The mailbox, and what was taken out of it without being installed. *)
Definition post_claim_landing (l : Landing) (slot : option Landing) : option Landing * option Landing :=
  (slot, Some l).

Definition take_claim_landing_if (pick : Landing -> bool) (slot : option Landing) : option Landing * option Landing :=
  match slot with
  | Some l => if pick l then (Some l, None) else (None, slot)
  | None => (None, None)
  end.

Definition take_claim_landing : option Landing -> option Landing * option Landing :=
  take_claim_landing_if (fun _ => true).

Definition is_recovery (l : Landing) : bool :=
  match la_owner l with Owner_Recovery _ => true | _ => false end.

Definition take_claim_landing_for (recovery : bool) : option Landing -> option Landing * option Landing :=
  take_claim_landing_if (fun l => Bool.eqb (is_recovery l) recovery).

(** [discard_stale_flight_landing]. *)
Definition discard_stale_flight_landing (c : PlayerControl) (slot : option Landing) :
    option Landing * option Landing :=
  match slot with
  | Some l => if flight_phase_is (owner_serial (la_owner l)) c then (None, slot)
              else take_claim_landing_if (fun l' => owner_serial (la_owner l') =? owner_serial (la_owner l)) slot
  | None => (None, None)
  end.

(** What a drain makes of the landing it took. *)
Inductive Drained :=
  | Nothing
  | Installs (l : Landing) (resume : bool)
  | Discards (l : Landing).

(** [take_ready_flight] and [take_ready_recovery_flight] up to the installation, which is another
    section's; [resume] is read before the flight is forgotten. *)
Definition take_ready (recovery : bool) (c : PlayerControl) (slot : option Landing) :
    Drained * PlayerControl * option Landing :=
  match take_claim_landing_for recovery slot with
  | (None, slot) => (Nothing, c, slot)
  | (Some l, slot) =>
      let serial := owner_serial (la_owner l) in
      if flight_phase_is serial c
      then (Installs l (resume_flight_is serial c), end_flight serial c, slot)
      else (Discards l, c, slot)
  end.
Definition take_ready_flight : PlayerControl -> option Landing -> Drained * PlayerControl * option Landing :=
  take_ready false.
Definition take_ready_recovery_flight : PlayerControl -> option Landing -> Drained * PlayerControl * option Landing :=
  take_ready true.

(** A thread that could not be spawned forgets the record of its flight. *)
Definition spawn_flight (spawned : bool) (serial : Z) (c : PlayerControl) : bool * PlayerControl :=
  if spawned then (true, c) else (false, end_flight serial c).

(** The reducer's two operations that empty the mailbox, with it; the first component is what they
    discard. *)
Definition request_and_discard (quality : Quality) (c : PlayerControl) (slot : option Landing) :
    option Landing * option Z * PlayerControl * option Landing :=
  let '(taken, slot) := take_claim_landing slot in
  let '(revision, c) := begin_playback_request quality c in (taken, revision, c, slot).

Definition teardown_and_discard (for_reload : bool) (c : PlayerControl) (slot : option Landing) :
    option Landing * PlayerControl * option Landing :=
  let '(drop, c) := begin_engine_teardown for_reload c in
  if drop then let '(taken, slot) := take_claim_landing slot in (taken, c, slot) else (None, c, slot).

(** ** Encoders the server has yet to release *)

Record PendingEncoderCleanup := mk_cleanup {
  cu_sid : Z; cu_session : bytes; cu_checking : bool; cu_stop_needed : bool; cu_physical_absent : bool
}.
#[global] Instance PendingEncoderCleanup_eta : Eta PendingEncoderCleanup := fun r =>
  mk_cleanup (cu_sid r) (cu_session r) (cu_checking r) (cu_stop_needed r) (cu_physical_absent r).

Record EncoderCleanupCheck := mk_check {
  ck_sid : Z; ck_session : bytes; ck_stop_needed : bool; ck_physical_absent : bool
}.

Definition cleanup_key (e : PendingEncoderCleanup) : Z * bytes := (cu_sid e, cu_session e).
Definition check_key (k : EncoderCleanupCheck) : Z * bytes := (ck_sid k, ck_session k).

Definition remember_with_state (sid : Z) (session : bytes) (stop_needed physical_absent : bool)
    (ledger : list PendingEncoderCleanup) : bool * list PendingEncoderCleanup :=
  if existsb (fun e => bool_decide (cleanup_key e = (sid, session))) ledger then (false, ledger)
  else (true, ledger ++ [mk_cleanup sid session false stop_needed physical_absent]).

Definition remember (sid : Z) (session : bytes) : list PendingEncoderCleanup -> bool * list PendingEncoderCleanup :=
  remember_with_state sid session true false.

Definition is_clear (sid : Z) (ledger : list PendingEncoderCleanup) : bool :=
  negb (existsb (fun e => cu_sid e =? sid) ledger).

Definition unchecked (sid : Z) (e : PendingEncoderCleanup) : bool := (cu_sid e =? sid) && negb (cu_checking e).

Definition take_unchecked (sid : Z) (ledger : list PendingEncoderCleanup) :
    list EncoderCleanupCheck * list PendingEncoderCleanup :=
  ((fun e => mk_check (cu_sid e) (cu_session e) (cu_stop_needed e) (cu_physical_absent e)) <$>
     List.filter (unchecked sid) ledger,
   (fun e => if unchecked sid e then e <| cu_checking := true |> else e) <$> ledger).

Definition finish (check : EncoderCleanupCheck) (present stop_accepted resource_reconciled : option bool)
    (ledger : list PendingEncoderCleanup) : list PendingEncoderCleanup :=
  match list_find (fun e => cleanup_key e = check_key check) ledger with
  | None => ledger
  | Some (i, e) =>
      let e := e <| cu_checking := false |> in
      let e := match stop_accepted with Some ok => e <| cu_stop_needed := negb ok |> | None => e end in
      let e := if bool_decide (present = Some false)
               then e <| cu_physical_absent := true |> <| cu_stop_needed := false |> else e in
      let ledger := <[i := e]> ledger in
      if cu_physical_absent e && bool_decide (resource_reconciled = Some true)
      then swap_remove i ledger else ledger
  end.

(** What the server answers when it is asked. *)
Record EncoderServer := mk_encoder_server {
  es_transcode_stop : bytes -> bool;
  es_transcode_session_present : bytes -> option bool;
  es_transcode_resource_reconciled : bytes -> option bool
}.

Definition run_encoder_cleanup_check (client : option EncoderServer) (check : EncoderCleanupCheck)
    (ledger : list PendingEncoderCleanup) : list PendingEncoderCleanup :=
  match client with
  | None => finish check None (if ck_stop_needed check then Some false else None) None ledger
  | Some server =>
      let stop_accepted := if ck_stop_needed check && negb (ck_physical_absent check)
                           then Some (es_transcode_stop server (ck_session check)) else None in
      let present := if ck_physical_absent check then Some false
                     else es_transcode_session_present server (ck_session check) in
      let physical_absent := ck_physical_absent check || bool_decide (present = Some false) in
      let resource_reconciled := if physical_absent
                                 then es_transcode_resource_reconciled server (ck_session check) else None in
      finish check present stop_accepted resource_reconciled ledger
  end.

(** [drive_encoder_cleanup], when every check runs to its end before the ledger is read. *)
Definition drive_encoder_cleanup (client : option EncoderServer) (sid : Z) (ledger : list PendingEncoderCleanup) :
    bool * list PendingEncoderCleanup :=
  let '(checks, ledger) := take_unchecked sid ledger in
  let ledger := foldl (fun l k => run_encoder_cleanup_check client k l) ledger checks in
  (is_clear sid ledger, ledger).

End Flight.
