(* ===== verification/RouteFlights.v ===== *)
(** * Series of flights and of cleanups

    Every landing a worker posts is installed once or discarded once, and installed only for the flight
    the reducer is waiting on; an encoder is released only once the server has let go of it. *)

From stdpp Require Import list.
From S2P Require Import Prelude Bytes Ladder RouteControl RouteStart RouteTrial RouteTraces RouteFlight.

#[local] Open Scope Z_scope.

Section Flights.
Context `{RouteData}.

(** ** Landings *)

Inductive FlightEvent :=
  | Fl_route (ev : RouteEvent)
  | Fl_spawn (spawned : bool) (serial : Z)
  | Fl_request (quality : Quality)
  | Fl_teardown (for_reload : bool)
  | Fl_post (l : Landing)
  | Fl_drain (recovery : bool)
  | Fl_reap.

(** The reducer, the mailbox, and the landings a section installs and discards. *)
Record FlightStep := mk_flight_step {
  fs_control : PlayerControl; fs_slot : option Landing; fs_installed : list Landing; fs_discarded : list Landing
}.

Definition flight_step (c : PlayerControl) (slot : option Landing) (ev : FlightEvent) : option FlightStep :=
  match ev with
  | Fl_route ev => (fun c => mk_flight_step c slot [] []) <$> route_step c ev
  | Fl_spawn spawned serial => Some (mk_flight_step (snd (spawn_flight spawned serial c)) slot [] [])
  | Fl_request q => let '(taken, _, c, slot) := request_and_discard q c slot in
                    Some (mk_flight_step c slot [] (option_list taken))
  | Fl_teardown b => let '(taken, c, slot) := teardown_and_discard b c slot in
                     Some (mk_flight_step c slot [] (option_list taken))
  | Fl_post l => let '(replaced, slot) := post_claim_landing l slot in
                 Some (mk_flight_step c slot [] (option_list replaced))
  | Fl_drain recovery =>
      let '(d, c, slot) := take_ready recovery c slot in
      Some (match d with
            | Nothing => mk_flight_step c slot [] []
            | Installs l _ => mk_flight_step c slot [l] []
            | Discards l => mk_flight_step c slot [] [l]
            end)
  | Fl_reap => let '(taken, slot) := discard_stale_flight_landing c slot in
               Some (mk_flight_step c slot [] (option_list taken))
  end.

Definition posted_by (ev : FlightEvent) : list Landing := match ev with Fl_post l => [l] | _ => [] end.

(** Events, where they led, and what was posted, installed and discarded on the way. *)
Inductive flight_history : PlayerControl -> option Landing -> list Landing -> list Landing -> list Landing -> Prop :=
  | flights_start : flight_history PLAYER_CONTROL None [] [] []
  | flights_step c slot posted installed discarded ev st :
      flight_history c slot posted installed discarded -> flight_step c slot ev = Some st ->
      flight_history (fs_control st) (fs_slot st) (posted ++ posted_by ev) (installed ++ fs_installed st)
        (discarded ++ fs_discarded st).

Lemma take_if_spec pick slot taken slot' : take_claim_landing_if pick slot = (taken, slot') ->
  option_list slot = option_list taken ++ option_list slot'
  /\ (forall l, taken = Some l -> slot = Some l /\ pick l = true /\ slot' = None).
Proof.
  unfold take_claim_landing_if. destruct slot as [l|]; [destruct (pick l) eqn:E|]; intros [= <- <-];
    (split; [done|]); intros l' Hl; simplify_eq; done.
Qed.

(** What a section moves: out of the mailbox or into it. *)
Lemma flight_step_moves c slot ev st : flight_step c slot ev = Some st ->
  posted_by ev ++ option_list slot ≡ₚ fs_installed st ++ fs_discarded st ++ option_list (fs_slot st).
Proof.
  intros Hs. destruct ev; cbn [flight_step posted_by] in *.
  - apply fmap_Some in Hs as (c1 & _ & ->). done.
  - by injection Hs as <-.
  - unfold request_and_discard in Hs. destruct (take_claim_landing slot) as [taken slot'] eqn:E.
    apply take_if_spec in E as [-> _]. destruct (begin_playback_request quality c). by injection Hs as <-.
  - unfold teardown_and_discard in Hs. destruct (begin_engine_teardown for_reload c) as [[] c1].
    + destruct (take_claim_landing slot) as [taken slot'] eqn:E. apply take_if_spec in E as [-> _]. by injection Hs as <-.
    + by injection Hs as <-.
  - injection Hs as <-. cbn. by rewrite Permutation_app_comm.
  - unfold take_ready in Hs. destruct (take_claim_landing_for recovery slot) as [[l|] slot'] eqn:E;
      apply take_if_spec in E as [-> _]; [destruct (flight_phase_is _ c)|]; by injection Hs as <-.
  - unfold discard_stale_flight_landing in Hs. destruct slot as [l|]; [|by injection Hs as <-].
    destruct (flight_phase_is _ c); [by injection Hs as <-|].
    destruct (take_claim_landing_if _ (Some l)) as [taken slot'] eqn:E. apply take_if_spec in E as [-> _].
    by injection Hs as <-.
Qed.

Lemma flight_balance c slot posted installed discarded : flight_history c slot posted installed discarded ->
  posted ≡ₚ installed ++ discarded ++ option_list slot.
Proof.
  induction 1 as [|c slot posted installed discarded ev st _ IH Hs]; [done|].
  apply flight_step_moves in Hs. rewrite IH. clear IH. revert Hs.
  generalize (posted_by ev), (fs_installed st), (fs_discarded st), (option_list (fs_slot st)), (option_list slot).
  intros p i d s' s Hs. rewrite <- !app_assoc, (Permutation_app_comm s p), Hs. solve_Permutation.
Qed.

(** C14. Nothing a worker started is forgotten or taken twice.  Whatever suspends, failures, requests and
    late workers do, each landing posted is in the mailbox still, or was installed, or was discarded,
    and only one of them; it is installed only while the reducer waits for that very flight, by the
    drain of its kind; and one whose flight is over goes at the next sweep. *)
Theorem every_landing_ends_once c slot posted installed discarded :
  flight_history c slot posted installed discarded ->
  posted ≡ₚ installed ++ discarded ++ option_list slot
  /\ (forall ev st l, flight_step c slot ev = Some st -> l ∈ fs_installed st ->
        flight_phase_is (owner_serial (la_owner l)) c = true /\ slot = Some l /\ ev = Fl_drain (is_recovery l)
        /\ flight_phase_open c = true)
  /\ (forall l, slot = Some l -> flight_phase_is (owner_serial (la_owner l)) c = false ->
        exists st, flight_step c slot Fl_reap = Some st /\ fs_slot st = None /\ fs_discarded st = [l]).
Proof.
  intros Hh. split_and!; [by eapply flight_balance| |].
  - intros ev st l Hs Hl. destruct ev; cbn [flight_step] in Hs;
      try (apply fmap_Some in Hs as (? & _ & ->)); try injection Hs as <-; try (by apply not_elem_of_nil in Hl).
    + unfold request_and_discard in Hs. repeat case_match. injection Hs as <-. by apply not_elem_of_nil in Hl.
    + unfold teardown_and_discard in Hs. repeat case_match; injection Hs as <-; by apply not_elem_of_nil in Hl.
    + unfold take_ready in Hs. destruct (take_claim_landing_for recovery slot) as [[l'|] slot'] eqn:E;
        [|injection Hs as <-; by apply not_elem_of_nil in Hl]. apply take_if_spec in E as [_ Ht].
      destruct (Ht l' eq_refl) as (-> & Hr%eqb_prop & ->).
      destruct (flight_phase_is _ c) eqn:Hc; injection Hs as <-; [|by apply not_elem_of_nil in Hl].
      apply list_elem_of_singleton in Hl as ->. split_and!; [done|done|congruence|].
      revert Hc. unfold flight_phase_is, flight_phase_open. destruct (pc_phase c); cbn; try done.
      * by intros [[= ->]%bool_decide_eq_true ?]%andb_prop.
      * destruct trial; cbn; try done. by intros [[= ->]%bool_decide_eq_true ?]%andb_prop.
    + unfold discard_stale_flight_landing in Hs. repeat case_match; injection Hs as <-; by apply not_elem_of_nil in Hl.
  - intros l -> Hc. cbn. rewrite Hc, Z.eqb_refl. eauto.
Qed.

End Flights.

(** ** Encoders *)

Lemma swap_remove_perm {A} i (l : list A) x : l !! i = Some x -> x :: swap_remove i l ≡ₚ l.
Proof.
  intros Hi. unfold swap_remove. destruct (last l) as [y|] eqn:Hl; [|apply last_None in Hl as ->; done].
  apply last_Some in Hl as [k ->]. rewrite length_app. cbn [length].
  replace (length k + 1 - 1)%nat with (length k) by lia.
  destruct (decide (i = length k)) as [->|Hne].
  - rewrite lookup_app_r, Nat.sub_diag in Hi by lia. injection Hi as ->.
    rewrite insert_app_r_alt, take_app_length by lia. rewrite Permutation_app_comm. done.
  - assert (i < length k)%nat as Hlt.
    { apply lookup_lt_Some in Hi. rewrite length_app in Hi. cbn in Hi. lia. }
    rewrite lookup_app_l in Hi by done. rewrite insert_app_l by done.
    rewrite take_app_length' by by rewrite length_insert.
    rewrite (Permutation_app_comm k [y]). cbn. clear Hne Hlt.
    rewrite <- (take_drop_middle k i x Hi) at 2. rewrite insert_take_drop by (by eapply lookup_lt_Some).
    solve_Permutation.
Qed.

Definition ledger_keys (l : list PendingEncoderCleanup) : list (Z * bytes) := cleanup_key <$> l.
Definition check_keys (l : list EncoderCleanupCheck) : list (Z * bytes) := check_key <$> l.

#[global] Instance ledger_keys_perm : Proper ((≡ₚ) ==> (≡ₚ)) ledger_keys.
Proof. apply fmap_Permutation. Qed.

Lemma ledger_keys_app l l' : ledger_keys (l ++ l') = ledger_keys l ++ ledger_keys l'.
Proof. apply fmap_app. Qed.
Lemma ledger_keys_cons e l : ledger_keys (e :: l) = cleanup_key e :: ledger_keys l.
Proof. done. Qed.
Lemma check_keys_app l l' : check_keys (l ++ l') = check_keys l ++ check_keys l'.
Proof. apply fmap_app. Qed.
Lemma check_keys_cons k l : check_keys (k :: l) = check_key k :: check_keys l.
Proof. done. Qed.

(** What a finished check leaves of the entry it was for; [None], nothing. *)
Definition finished (e : PendingEncoderCleanup) (present stop_accepted resource_reconciled : option bool) :
    option PendingEncoderCleanup :=
  let absent := cu_physical_absent e || bool_decide (present = Some false) in
  if absent && bool_decide (resource_reconciled = Some true) then None
  else Some (mk_cleanup (cu_sid e) (cu_session e) false
    (if bool_decide (present = Some false) then false
     else match stop_accepted with Some ok => negb ok | None => cu_stop_needed e end) absent).

Lemma finish_spec check present stop rec l :
  ((check_key check ∉ ledger_keys l) /\ finish check present stop rec l = l)
  \/ exists l1 e l2, l = l1 ++ e :: l2 /\ cleanup_key e = check_key check
       /\ finish check present stop rec l ≡ₚ l1 ++ option_list (finished e present stop rec) ++ l2.
Proof.
  unfold finish. destruct (list_find _ l) as [[i e]|] eqn:E.
  - right. apply list_find_Some in E as (Hi & Hk & _). exists (take i l), e, (drop (S i) l).
    split; [by rewrite take_drop_middle|]. split; [done|].
    set (e' := if bool_decide (present = Some false) then _ else _).
    assert (finished e present stop rec = if cu_physical_absent e' && bool_decide (rec = Some true) then None else Some e')
      as ->.
    { subst e'. unfold finished. destruct e as [a b c d f], stop as [[]|]; case_bool_decide; cbn;
        rewrite ?orb_true_r, ?orb_false_r; done. }
    pose proof (lookup_lt_Some _ _ _ Hi) as Hlt.
    assert (<[i := e']> l = take i l ++ e' :: drop (S i) l) as Hins by by rewrite insert_take_drop.
    destruct (cu_physical_absent e' && _); cbn; [|by rewrite Hins].
    apply (Permutation_cons_inv (a := e')). rewrite swap_remove_perm by by apply list_lookup_insert_eq.
    rewrite Hins. solve_Permutation.
  - left. split; [|done]. intros (e & Hk & He)%list_elem_of_fmap. apply list_find_None in E.
    rewrite Forall_forall in E. by apply (E e He).
Qed.

(** What is done to the ledger: [Cu_finish], by the worker of check [k], with what the server said. *)
Inductive CleanupEvent :=
  | Cu_remember (sid : Z) (session : bytes)
  | Cu_take (sid : Z)
  | Cu_finish (k : EncoderCleanupCheck) (present stop_accepted resource_reconciled : option bool).

(** The ledger, the checks that are out, and the encoders seen to be gone since they were remembered. *)
Record Cleanup := mk_cleanup_state {
  cl_ledger : list PendingEncoderCleanup; cl_out : list EncoderCleanupCheck; cl_gone : list (Z * bytes)
}.

Inductive cleanup_step : Cleanup -> CleanupEvent -> Cleanup -> Prop :=
  | step_remember l out gone sid session :
      cleanup_step (mk_cleanup_state l out gone) (Cu_remember sid session)
        (mk_cleanup_state (snd (remember sid session l)) out
           (if fst (remember sid session l) then base.filter (.≠ (sid, session)) gone else gone))
  | step_take l out gone sid :
      cleanup_step (mk_cleanup_state l out gone) (Cu_take sid)
        (mk_cleanup_state (snd (take_unchecked sid l)) (out ++ fst (take_unchecked sid l)) gone)
  | step_finish l out1 k out2 gone present stop rec :
      cleanup_step (mk_cleanup_state l (out1 ++ k :: out2) gone) (Cu_finish k present stop rec)
        (mk_cleanup_state (finish k present stop rec l) (out1 ++ out2)
           (if bool_decide (present = Some false) then check_key k :: gone else gone)).

Inductive cleanup_history : list CleanupEvent -> Cleanup -> Prop :=
  | cleanup_start : cleanup_history [] (mk_cleanup_state [] [] [])
  | cleanup_next evs s ev s' : cleanup_history evs s -> cleanup_step s ev s' -> cleanup_history (evs ++ [ev]) s'.

Record cleanup_ok (s : Cleanup) : Prop := mk_cleanup_ok {
  lk_keys : NoDup (ledger_keys (cl_ledger s));
  lk_out : NoDup (check_keys (cl_out s));
  lk_marked : forall e, e ∈ cl_ledger s -> cu_checking e = true <-> cleanup_key e ∈ check_keys (cl_out s);
  lk_known : forall k, k ∈ check_keys (cl_out s) -> k ∈ ledger_keys (cl_ledger s);
  lk_gone : forall e, e ∈ cl_ledger s -> cu_physical_absent e = true -> cleanup_key e ∈ cl_gone s
}.

Lemma remember_spec sid session l :
  ((sid, session) ∈ ledger_keys l /\ remember sid session l = (false, l))
  \/ (((sid, session) ∉ ledger_keys l)
      /\ remember sid session l = (true, l ++ [mk_cleanup sid session false true false])).
Proof.
  unfold remember, remember_with_state. destruct (existsb _ l) eqn:E.
  - left. split; [|done]. apply existsb_exists in E as (e & He%list_elem_of_In & Hk%bool_decide_eq_true).
    apply list_elem_of_fmap. by exists e.
  - right. split; [|done]. intros (e & Hk & He)%list_elem_of_fmap. apply not_true_iff_false in E. apply E.
    apply existsb_exists. exists e. rewrite <- list_elem_of_In. by rewrite bool_decide_eq_true.
Qed.

Lemma taken_keys sid l : check_keys (fst (take_unchecked sid l)) = ledger_keys (List.filter (unchecked sid) l).
Proof. unfold take_unchecked, ledger_keys, check_keys. cbn [fst]. rewrite <- list_fmap_compose. done. Qed.

Lemma taken_ledger_keys sid l : ledger_keys (snd (take_unchecked sid l)) = ledger_keys l.
Proof.
  unfold take_unchecked, ledger_keys. cbn [snd]. rewrite <- list_fmap_compose. apply list_fmap_ext.
  intros _ e _. cbn. by destruct (unchecked sid e).
Qed.

Lemma filter_keys_sublist f l : ledger_keys (List.filter f l) `sublist_of` ledger_keys l.
Proof.
  induction l as [|e l IH]; [constructor|]. cbn. destruct (f e); cbn; by constructor.
Qed.

(** An entry whose key is in a part of the ledger is in that part. *)
Lemma key_in_part l e (P : PendingEncoderCleanup -> bool) : NoDup (ledger_keys l) -> e ∈ l ->
  cleanup_key e ∈ ledger_keys (List.filter P l) <-> P e = true.
Proof.
  intros Hn He. split.
  - intros (x & Hk & Hx)%list_elem_of_fmap. apply list_elem_of_In, filter_In in Hx as [Hx%list_elem_of_In HP].
    unfold ledger_keys in Hn. enough (e = x) by congruence. apply list_elem_of_lookup in He as [i Hi], Hx as [j Hj].
    assert (i = j) as ->; [|congruence].
    eapply NoDup_lookup; [exact Hn|by rewrite list_lookup_fmap, Hi|rewrite list_lookup_fmap, Hj; cbn; by rewrite Hk].
  - intros HP. apply list_elem_of_fmap. exists e. split; [done|]. apply list_elem_of_In, filter_In.
    by rewrite <- list_elem_of_In.
Qed.

Lemma cleanup_take_ok l out gone sid : cleanup_ok (mk_cleanup_state l out gone) ->
  cleanup_ok (mk_cleanup_state (snd (take_unchecked sid l)) (out ++ fst (take_unchecked sid l)) gone).
Proof.
  intros [Hk Ho Hm Hn Hg]. cbn [cl_ledger cl_out cl_gone] in *. constructor; cbn [cl_ledger cl_out cl_gone].
  - by rewrite taken_ledger_keys.
  - rewrite check_keys_app, taken_keys. apply NoDup_app. split_and!; [done| |by eapply sublist_NoDup; [exact Hk|apply filter_keys_sublist]].
    intros k Hin Hk'. specialize (Hn _ Hin) as (e & -> & He)%list_elem_of_fmap.
    apply key_in_part in Hk'; [|done..]. apply Hm in Hin; [|done]. unfold unchecked in Hk'. rewrite Hin in Hk'.
    by rewrite andb_false_r in Hk'.
  - intros e' He'. unfold take_unchecked in He'. cbn [snd] in He'. apply list_elem_of_fmap in He' as (e & -> & He).
    rewrite check_keys_app, taken_keys, elem_of_app. assert (cleanup_key (if unchecked sid e then e <| cu_checking := true |> else e)
      = cleanup_key e) as -> by by destruct (unchecked sid e).
    rewrite key_in_part, <- Hm by done.
    destruct (unchecked sid e); cbn; [tauto|]. split; [tauto|by intros [?|?]].
  - intros k. rewrite taken_ledger_keys, check_keys_app, taken_keys.
    intros [Hin|(e & -> & He)%list_elem_of_fmap]%elem_of_app; [by apply Hn|].
    apply list_elem_of_fmap_2, list_elem_of_In. by apply list_elem_of_In, filter_In in He as [He _].
  - intros e' He'. unfold take_unchecked in He'. cbn [snd] in He'. apply list_elem_of_fmap in He' as (e & -> & He).
    specialize (Hg _ He). by destruct (unchecked sid e).
Qed.

Lemma cleanup_finish_ok l out1 k out2 gone present stop rec : cleanup_ok (mk_cleanup_state l (out1 ++ k :: out2) gone) ->
  cleanup_ok (mk_cleanup_state (finish k present stop rec l) (out1 ++ out2)
    (if bool_decide (present = Some false) then check_key k :: gone else gone)).
Proof.
  intros [Hk Ho Hm Hn Hg]. cbn [cl_ledger cl_out cl_gone] in *. rewrite check_keys_app, check_keys_cons in Ho, Hn.
  assert (forall x, x ∈ gone -> x ∈ (if bool_decide (present = Some false) then check_key k :: gone else gone)) as Hmore.
  { intros x Hx. case_bool_decide; [by right|done]. }
  apply NoDup_app in Ho as (Ho1 & Hd & Ho2). apply NoDup_cons in Ho2 as [Hk2 Ho2].
  assert (check_key k ∉ check_keys (out1 ++ out2)) as Hfree.
  { rewrite check_keys_app, elem_of_app. intros [Hin|Hin]; [|done]. apply (Hd _ Hin). by constructor. }
  destruct (finish_spec k present stop rec l) as [[Hno _]|(l1 & e & l2 & -> & Hek & Hf)].
  { destruct Hno. apply Hn, elem_of_app. right. by constructor. }
  rewrite ledger_keys_app, ledger_keys_cons, Hek in Hk. apply NoDup_app in Hk as (Hk1 & Hd1 & Hk2').
  apply NoDup_cons in Hk2' as [Hke2 Hk2'].
  assert (check_key k ∉ ledger_keys (l1 ++ l2)) as Hrest.
  { rewrite ledger_keys_app, elem_of_app. intros [Hin|Hin]; [|done]. apply (Hd1 _ Hin). by constructor. }
  assert (forall x, x ∈ finish k present stop rec (l1 ++ e :: l2) ->
    x ∈ l1 ++ l2 \/ Some x = finished e present stop rec) as Hmem.
  { intros x. rewrite Hf, !elem_of_app. destruct (finished e present stop rec); cbn.
    - rewrite list_elem_of_singleton. intros [?|[ ->|?]]; auto.
    - rewrite elem_of_nil. intros [?|[[]|?]]; auto. }
  assert (ledger_keys (option_list (finished e present stop rec)) `sublist_of` [check_key k]) as Hfk.
  { unfold finished. destruct (_ && _); cbn; [by constructor|]. rewrite <- Hek. done. }
  assert (forall x, x ∈ l1 ++ l2 -> cleanup_key x <> check_key k) as Hother.
  { intros x Hx Heq. apply Hrest. rewrite <- Heq. by apply list_elem_of_fmap_2. }
  constructor; cbn [cl_ledger cl_out cl_gone].
  - rewrite Hf, !ledger_keys_app. eapply sublist_NoDup; [|apply sublist_app; [reflexivity|apply sublist_app; [exact Hfk|reflexivity]]].
    cbn. apply NoDup_app. split_and!; [done|done|by constructor].
  - rewrite check_keys_app. apply NoDup_app. split_and!; [done| |done]. intros x Hx Hx2. apply (Hd _ Hx). by right.
  - intros x Hx. destruct (Hmem _ Hx) as [Hin|Hfx].
    + rewrite Hm by (rewrite elem_of_app in Hin |- *; destruct Hin; [by left|right; by constructor]).
      rewrite !check_keys_app, check_keys_cons, !elem_of_app, elem_of_cons. pose proof (Hother _ Hin). tauto.
    + unfold finished in Hfx. destruct (_ && _); [done|]. injection Hfx as ->. cbn. split; [done|].
      unfold cleanup_key. cbn. fold (cleanup_key e). rewrite Hek. intros; by destruct Hfree.
  - intros x Hx. assert (x <> check_key k) as Hne by (intros ->; by destruct Hfree).
    assert (x ∈ ledger_keys (l1 ++ e :: l2)) as Hin.
    { apply Hn. rewrite check_keys_app in Hx. rewrite elem_of_app, elem_of_cons. apply elem_of_app in Hx. tauto. }
    rewrite Hf, !ledger_keys_app, !elem_of_app. rewrite ledger_keys_app, ledger_keys_cons, elem_of_app, elem_of_cons, Hek in Hin. tauto.
  - intros x Hx Ha. destruct (Hmem _ Hx) as [Hin|Hfx].
    + apply Hmore, Hg; [|done]. rewrite elem_of_app in Hin |- *. destruct Hin; [by left|right; by constructor].
    + unfold finished in Hfx. destruct (_ && _); [done|]. injection Hfx as ->. cbn in Ha.
      unfold cleanup_key. cbn. fold (cleanup_key e). case_bool_decide; [rewrite Hek; by constructor|].
      rewrite orb_false_r in Ha. apply Hg; [|done]. apply elem_of_app. right. by constructor.
Qed.

Lemma cleanup_step_ok s ev s' : cleanup_ok s -> cleanup_step s ev s' -> cleanup_ok s'.
Proof.
  intros Hok Hs. destruct Hs as [l out gone sid session|l out gone sid|l out1 k out2 gone present stop rec].
  - destruct (remember_spec sid session l) as [[_ ->]|[Hnew ->]]; [done|].
    destruct Hok as [Hk Ho Hm Hn Hg]. cbn [cl_ledger cl_out cl_gone] in *. constructor; cbn [cl_ledger cl_out cl_gone fst snd].
    + rewrite ledger_keys_app. apply NoDup_app. split_and!; [done| |apply NoDup_singleton].
      intros x Hx ->%list_elem_of_singleton. done.
    + done.
    + intros e [He| ->%list_elem_of_singleton]%elem_of_app; [by apply Hm|]. split; [done|]. intros Hin%Hn. done.
    + intros x Hx%Hn. rewrite ledger_keys_app. apply elem_of_app. by left.
    + intros e [He| ->%list_elem_of_singleton]%elem_of_app Ha; [|done]. apply list_elem_of_filter. split; [|by apply Hg].
      intros Heq. apply Hnew. rewrite <- Heq. by apply list_elem_of_fmap_2.
  - by apply cleanup_take_ok.
  - by apply cleanup_finish_ok.
Qed.

Lemma cleanup_invariant evs s : cleanup_history evs s -> cleanup_ok s.
Proof.
  induction 1; [|by eapply cleanup_step_ok]. constructor; cbn; try constructor; intros; by apply not_elem_of_nil in H.
Qed.

(** C17. An encoder is owed to the server until the server has let go of it.  However checks and their
    answers interleave, an encoder is on the ledger once and asked about by one worker at a time; and it
    leaves the ledger only when a check of it reports its resource reconciled after its producer was
    seen to be gone. *)
Theorem an_encoder_is_owed_until_reconciled evs s : cleanup_history evs s ->
  NoDup (ledger_keys (cl_ledger s)) /\ NoDup (check_keys (cl_out s))
  /\ (forall e, e ∈ cl_ledger s -> cu_checking e = true <-> cleanup_key e ∈ check_keys (cl_out s))
  /\ (forall ev s' key, cleanup_step s ev s' -> key ∈ ledger_keys (cl_ledger s) -> key ∉ ledger_keys (cl_ledger s') ->
        exists k present stop, ev = Cu_finish k present stop (Some true) /\ check_key k = key
          /\ (present = Some false \/ key ∈ cl_gone s)).
Proof.
  intros Hok%cleanup_invariant. pose proof Hok as [Hk Ho Hm Hn Hg]. split_and!; [done..|].
  intros ev s' key Hs Hin Hout. destruct Hs as [l out gone sid session|l out gone sid|l out1 k out2 gone present stop rec];
    cbn [cl_ledger cl_gone] in *.
  - destruct Hout. destruct (remember_spec sid session l) as [[_ ->]|[_ ->]]; [done|]. cbn [snd].
    rewrite ledger_keys_app. apply elem_of_app. by left.
  - by rewrite taken_ledger_keys in Hout.
  - destruct (finish_spec k present stop rec l) as [[_ Hf]|(l1 & e & l2 & -> & Hek & Hf)]; [by rewrite Hf in Hout|].
    rewrite Hf, !ledger_keys_app, !elem_of_app in Hout.
    rewrite ledger_keys_app, ledger_keys_cons, elem_of_app, elem_of_cons, Hek in Hin.
    assert (key = check_key k) as -> by tauto. unfold finished in Hout.
    destruct (cu_physical_absent e || bool_decide (present = Some false)) eqn:Ha;
      [|destruct Hout; right; left; cbn; unfold cleanup_key; cbn; fold (cleanup_key e); rewrite Hek; by constructor].
    destruct (decide (rec = Some true)) as [->|Hne];
      [|rewrite bool_decide_eq_false_2 in Hout by done; destruct Hout; right; left; cbn; unfold cleanup_key; cbn;
        fold (cleanup_key e); rewrite Hek; by constructor].
    exists k, present, stop. split_and!; [done..|]. apply orb_prop in Ha as [Ha|Ha%bool_decide_eq_true]; [|by left].
    right. rewrite <- Hek. apply Hg; [|done]. apply elem_of_app. right. by constructor.
Qed.
