(* ===== verification/BackendPolicy.v ===== *)
(** * The recipes a playback may open

    [media/src/route/backend_policy.rs]: which of a request's finite recipes the player opens next, and
    what opening one spends; and the methods of [PlaybackSession] ([media/src/route/decision.rs]) that
    plan, qualify and admit a recipe of the Feed backend.  A recipe is known by its number. *)

From stdpp Require Import list.
From S2P Require Import Prelude RouteControl.

#[local] Open Scope Z_scope.

Inductive BackendKind := Uri | Feed.
#[export] Instance BackendKind_eq_dec : EqDecision BackendKind.
Proof. solve_decision. Defined.

Inductive Fidelity := Exact | Compatible.
#[export] Instance Fidelity_eq_dec : EqDecision Fidelity.
Proof. solve_decision. Defined.

Inductive Qualification := Unknown | Refused | Qualified.
#[export] Instance Qualification_eq_dec : EqDecision Qualification.
Proof. solve_decision. Defined.

Abbreviation OfferId := Z.
Definition URI_ORIGINAL : OfferId := 1.
Definition FEED_ORIGINAL : OfferId := 2.
Definition FEED_APP_AUDIO : OfferId := 3.
Definition FEED_PMS_REMUX : OfferId := 4.
Definition FEED_PMS_ENCODE : OfferId := 5.
Definition FEED_PMS_HLS : OfferId := 6.
Definition URI_PMS_REMUX : OfferId := 7.
Definition URI_PMS_ENCODE : OfferId := 8.
Definition URI_PMS_HLS : OfferId := 9.
Definition FEED_ORIGINAL_TRIAL_REMUX : OfferId := 10.
Definition FEED_REFUSAL_AUDIO : OfferId := 11.
Definition FEED_REFUSAL_VIDEO : OfferId := 12.
Definition FEED_REFUSAL_BOTH : OfferId := 13.

Record Offer := mk_offer {
  of_id : OfferId; of_backend : BackendKind; of_video : Fidelity; of_audio : Fidelity;
  of_qualification : Qualification
}.
#[export] Instance Offer_eta : Eta Offer := fun r =>
  mk_offer (of_id r) (of_backend r) (of_video r) (of_audio r) (of_qualification r).
#[export] Instance Offer_eq_dec : EqDecision Offer.
Proof. solve_decision. Defined.

Abbreviation Recipe := (BackendKind * OfferId)%type.
Definition recipe (o : Offer) : Recipe := (of_backend o, of_id o).
Definition is_recipe (r : Recipe) (o : Offer) : bool := bool_decide (recipe o = r).

Definition exact (o : Offer) : bool := bool_decide (of_video o = Exact) && bool_decide (of_audio o = Exact).

Definition rank (o : Offer) : Z * bool * OfferId :=
  let tier := if exact o || (bool_decide (of_backend o = Feed) && (of_id o =? FEED_ORIGINAL)) then 0
              else if bool_decide (of_backend o = Uri) then 1 else 2 in
  (tier, negb (bool_decide (of_backend o = Uri)), of_id o).

(** The order of the tuples, [false] before [true]. *)
Definition rank_lt (a b : Z * bool * OfferId) : bool :=
  let '(t1, u1, i1) := a in let '(t2, u2, i2) := b in
  (t1 <? t2) || ((t1 =? t2) && ((negb u1 && u2) || (Bool.eqb u1 u2 && (i1 <? i2)))).

Inductive Selection := Open (o : Offer) | Unqualified | Exhausted.

Record BackendPolicy := mk_policy {
  bp_offers : list Offer;
  bp_tried : list bool;
  bp_force_original : bool;
  bp_last_backend : option BackendKind;
  bp_last_offer : option Recipe;
  bp_crossed : bool;
  bp_rollback_used : bool
}.
#[export] Instance BackendPolicy_eta : Eta BackendPolicy := fun r =>
  mk_policy (bp_offers r) (bp_tried r) (bp_force_original r) (bp_last_backend r) (bp_last_offer r)
    (bp_crossed r) (bp_rollback_used r).

(** [BackendPolicy::new] and [for_request]. *)
Definition policy_new (offers : list Offer) (force_original : bool) : BackendPolicy :=
  mk_policy offers (replicate (length offers) false) force_original None None false false.

Definition for_request (force_original : bool) : BackendPolicy :=
  let wire := if force_original then Exact else Compatible in
  policy_new ((fun '(id, backend, video, audio) => mk_offer id backend video audio Unknown) <$>
    [(URI_ORIGINAL, Uri, Exact, Exact);
     (FEED_ORIGINAL, Feed, wire, wire);
     (FEED_APP_AUDIO, Feed, Exact, wire);
     (FEED_PMS_REMUX, Feed, Compatible, Compatible);
     (FEED_PMS_ENCODE, Feed, Compatible, Compatible);
     (FEED_PMS_HLS, Feed, Compatible, Compatible);
     (URI_PMS_REMUX, Uri, Compatible, Compatible);
     (URI_PMS_ENCODE, Uri, Compatible, Compatible);
     (URI_PMS_HLS, Uri, Compatible, Compatible);
     (FEED_ORIGINAL_TRIAL_REMUX, Feed, Compatible, Compatible);
     (FEED_REFUSAL_AUDIO, Feed, Compatible, Compatible);
     (FEED_REFUSAL_VIDEO, Feed, Compatible, Compatible);
     (FEED_REFUSAL_BOTH, Feed, Compatible, Compatible)]) force_original.

Definition offer (p : BackendPolicy) (r : Recipe) : option Offer :=
  List.find (is_recipe r) (bp_offers p).

Definition entries (p : BackendPolicy) : list (Offer * bool) := zip (bp_offers p) (bp_tried p).

Definition can_reopen (p : BackendPolicy) (r : Recipe) : bool := bool_decide (bp_last_offer p = Some r).

Definition tried_recipe (p : BackendPolicy) (r : Recipe) : bool :=
  existsb (fun '(o, tried) => tried && is_recipe r o) (entries p).

Definition can_rollback_existing (p : BackendPolicy) (r : Recipe) : bool :=
  negb (bp_rollback_used p) && bool_decide (bp_last_backend p = Some (fst r))
  && negb (bool_decide (bp_last_offer p = Some r)) && tried_recipe p r.

Definition admit_rollback_existing (p : BackendPolicy) (r : Recipe) : bool * BackendPolicy :=
  if can_rollback_existing p r
  then (true, p <| bp_rollback_used := true |> <| bp_last_offer := Some r |>) else (false, p).

Definition can_revisit (p : BackendPolicy) (r : Recipe) : bool :=
  bool_decide (bp_last_backend p = Some (fst r)) && tried_recipe p r.

Definition admit_revisit (p : BackendPolicy) (r : Recipe) : bool * BackendPolicy :=
  if can_revisit p r then (true, p <| bp_last_offer := Some r |>) else (false, p).

Definition qualify_planned_feed (p : BackendPolicy) (id : OfferId) : BackendPolicy :=
  p <| bp_offers := (fun o =>
    if bool_decide (of_backend o = Feed)
    then o <| of_qualification := if of_id o =? id then Qualified else Unknown |> else o) <$> bp_offers p |>.

Definition permitted (p : BackendPolicy) (o : Offer) : bool :=
  (negb (bp_force_original p) || exact o)
  && negb (bp_crossed p && match bp_last_backend p with
                           | Some last => negb (bool_decide (last = of_backend o))
                           | None => false
                           end).

Definition has_remaining_backend (p : BackendPolicy) (b : BackendKind) : bool :=
  existsb (fun '(o, tried) => bool_decide (of_backend o = b) && negb tried && permitted p o
                              && negb (bool_decide (of_qualification o = Refused))) (entries p).

Definition may_qualify (p : BackendPolicy) (r : Recipe) : bool :=
  existsb (fun '(o, tried) => is_recipe r o && negb tried
                              && negb (bool_decide (of_qualification o = Refused)) && permitted p o) (entries p).

(** [min_by_key]: of equal keys, the first. *)
Definition min_by_rank (l : list Offer) : option Offer :=
  foldl (fun best o => match best with
                       | Some b => if rank_lt (rank o) (rank b) then Some o else best
                       | None => Some o
                       end) None l.

Definition available (p : BackendPolicy) : list Offer :=
  fst <$> List.filter (fun '(o, tried) => negb tried && permitted p o) (entries p).

Definition choose (p : BackendPolicy) : Selection :=
  match min_by_rank (List.filter (fun o => bool_decide (of_qualification o = Qualified)) (available p)) with
  | Some o => Open o
  | None => if existsb (fun o => bool_decide (of_qualification o = Unknown)) (available p)
            then Unqualified else Exhausted
  end.

Definition admitted (p : BackendPolicy) (r : Recipe) : bool * BackendPolicy :=
  match choose p with
  | Open o =>
      if negb (is_recipe r o) then (false, p)
      else
        let p := match bp_last_backend p with
                 | Some last => if bool_decide (last = fst r) then p else p <| bp_crossed := true |>
                 | None => p
                 end in
        (true, p <| bp_last_backend := Some (fst r) |> <| bp_last_offer := Some r |>
                 <| bp_tried := zip_with (fun o tried => is_recipe r o || tried) (bp_offers p) (bp_tried p) |>)
  | _ => (false, p)
  end.

Definition qualify (p : BackendPolicy) (r : Recipe) (evidence : Qualification) : BackendPolicy :=
  p <| bp_offers := (fun o => if is_recipe r o then o <| of_qualification := evidence |> else o) <$> bp_offers p |>.

(** ** The session's planned recipe *)

(** The fields the methods below read: what a source is is decided elsewhere. *)
Record FeedOffers := mk_feed_offers {
  fo_backends_feed : bool;
  fo_forced : bool;
  fo_has_url : bool;
  fo_selection_known : bool;
  fo_policy : option BackendPolicy;
  fo_planned : option OfferId;
  fo_purpose : CandidatePurpose;
  fo_admitted : option OfferId
}.
#[export] Instance FeedOffers_eta : Eta FeedOffers := fun r =>
  mk_feed_offers (fo_backends_feed r) (fo_forced r) (fo_has_url r) (fo_selection_known r) (fo_policy r)
    (fo_planned r) (fo_purpose r) (fo_admitted r).

Definition catalog (s : FeedOffers) : BackendPolicy * FeedOffers :=
  match fo_policy s with
  | Some p => (p, s)
  | None => let p := for_request (fo_forced s) in (p, s <| fo_policy := Some p |>)
  end.

Definition ensure_backend_offers (s : FeedOffers) : bool * FeedOffers :=
  if negb (fo_has_url s) && negb (fo_selection_known s) then (false, s) else (true, snd (catalog s)).

Definition reset_backend_offers (s : FeedOffers) : FeedOffers :=
  s <| fo_policy := None |> <| fo_planned := None |> <| fo_purpose := NewCandidate |> <| fo_admitted := None |>.

Definition is_new (p : CandidatePurpose) : bool := match p with NewCandidate => true | _ => false end.

Definition publish_feed_offer (id : OfferId) (purpose : CandidatePurpose) (s : FeedOffers) : FeedOffers :=
  let '(p, s) := catalog s in
  let s := s <| fo_policy := Some (qualify_planned_feed p id) |> <| fo_planned := Some id |>
             <| fo_purpose := purpose |> in
  if is_new purpose then s <| fo_admitted := None |> else s.

Definition qualify_resolved_feed_offer (id : OfferId) (purpose : CandidatePurpose) (s : FeedOffers) : bool * FeedOffers :=
  if negb (fo_backends_feed s) then (false, s)
  else let '(some, s) := ensure_backend_offers s in
       if negb some then (false, s) else (true, publish_feed_offer id purpose s).

Definition qualify_explicit_feed_source (s : FeedOffers) : bool * FeedOffers :=
  if negb (fo_backends_feed s) then (false, s)
  else (true, publish_feed_offer FEED_ORIGINAL NewCandidate (reset_backend_offers s)).

Definition on_policy (f : BackendPolicy -> bool) (s : FeedOffers) : bool :=
  match fo_policy s with Some p => f p | None => false end.

Definition qualify_transition_feed_offer (id : OfferId) (s : FeedOffers) : bool * FeedOffers :=
  let revisit := on_policy (fun p => can_revisit p (Feed, id)) s in
  qualify_resolved_feed_offer id (if revisit then Revisit else NewCandidate) s.

(** [id] is what [installed_feed_recipe] reads off the route. *)
Definition qualify_installed_feed_offer (id : OfferId) (purpose : CandidatePurpose) (s : FeedOffers) : bool * FeedOffers :=
  let still_current := match purpose with
                       | RollbackExisting => on_policy (fun p => can_reopen p (Feed, id)) s
                       | _ => false
                       end in
  let purpose := if still_current then ReopenCurrent else purpose in
  let s := if still_current then s <| fo_admitted := Some id |> else s in
  qualify_resolved_feed_offer id purpose s.

Definition backend_planned_feed_allowed (s : FeedOffers) : bool :=
  match fo_planned s with
  | None => false
  | Some id =>
      match fo_purpose s with
      | RollbackExisting => on_policy (fun p => can_rollback_existing p (Feed, id)) s
      | ReopenCurrent => bool_decide (fo_admitted s = Some id) && on_policy (fun p => can_reopen p (Feed, id)) s
      | Revisit => on_policy (fun p => can_revisit p (Feed, id)) s
      | NewCandidate => on_policy (fun p => match choose p with
                                            | Open o => is_recipe (Feed, id) o
                                            | _ => false
                                            end) s
      end
  end.

(** A policy operation whose success makes the recipe the one admitted. *)
Definition admit_with (f : BackendPolicy -> bool * BackendPolicy) (feed : option OfferId) (s : FeedOffers) :
    bool * FeedOffers :=
  match fo_policy s with
  | None => (false, s)
  | Some p =>
      let '(ok, p) := f p in
      let s := s <| fo_policy := Some p |> in
      match ok, feed with
      | true, Some id => (true, s <| fo_admitted := Some id |> <| fo_purpose := ReopenCurrent |>)
      | _, _ => (ok, s)
      end
  end.

Definition backend_offer_admitted (r : Recipe) (s : FeedOffers) : bool * FeedOffers :=
  let '(backend, id) := r in
  match backend with
  | Uri => admit_with (fun p => admitted p r) None s
  | Feed =>
      if negb (bool_decide (fo_planned s = Some id)) then (false, s)
      else match fo_purpose s with
           | RollbackExisting => admit_with (fun p => admit_rollback_existing p r) (Some id) s
           | Revisit => admit_with (fun p => admit_revisit p r) (Some id) s
           | purpose =>
               if bool_decide (fo_admitted s = Some id) && negb (is_new purpose)
                  && on_policy (fun p => can_reopen p r) s
               then (true, s)
               else admit_with (fun p => admitted p r) (Some id) s
           end
  end.

Definition qualify_backend_offer (r : Recipe) (evidence : Qualification) (s : FeedOffers) : FeedOffers :=
  match fo_policy s with
  | Some p => s <| fo_policy := Some (qualify p r evidence) |>
  | None => s
  end.
