(* ===== verification/BackendEpisodes.v ===== *)
(** * Recovery episodes

    What a request may open over its whole life, however the evidence about its recipes changes: the
    choice is the best recipe left, each is spent once, the backends are crossed once, and the recovery
    is therefore finite. *)

From stdpp Require Import list.
From S2P Require Import Prelude RouteControl BackendPolicy.

#[local] Open Scope Z_scope.

(** ** The choice *)

Definition rank_z (r : Z * bool * OfferId) : Z * Z * Z := let '(t, u, i) := r in (t, Z.b2z u, i).

Lemma rank_lt_spec a b : rank_lt a b = true <->
  let '(t1, u1, i1) := rank_z a in let '(t2, u2, i2) := rank_z b in
  t1 < t2 \/ t1 = t2 /\ (u1 < u2 \/ u1 = u2 /\ i1 < i2).
Proof.
  destruct a as [[t1 u1] i1], b as [[t2 u2] i2]. cbn.
  destruct (Z.ltb_spec t1 t2), (Z.eqb_spec t1 t2), (Z.ltb_spec i1 i2), u1, u2; cbn; split; intros; try done; lia.
Qed.

Lemma rank_lt_false a b : rank_lt a b = false <->
  let '(t1, u1, i1) := rank_z a in let '(t2, u2, i2) := rank_z b in
  t2 < t1 \/ t2 = t1 /\ (u2 < u1 \/ u2 = u1 /\ i2 <= i1).
Proof.
  rewrite <- not_true_iff_false, rank_lt_spec. destruct (rank_z a) as [[? ?] ?], (rank_z b) as [[? ?] ?]. lia.
Qed.

(** No offer of [l] is better than [o]. *)
Definition best (l : list Offer) (o : Offer) : Prop :=
  o ∈ l /\ forall x, x ∈ l -> rank_lt (rank x) (rank o) = false.

Lemma best_snoc l o x : best l o -> best (l ++ [x]) (if rank_lt (rank x) (rank o) then x else o).
Proof.
  intros [Hin Hbest]. destruct (rank_lt (rank x) (rank o)) eqn:E; split.
  - apply elem_of_app. right. by constructor.
  - intros y [Hy| ->%list_elem_of_singleton]%elem_of_app; apply rank_lt_false.
    + specialize (Hbest y Hy). apply rank_lt_false in Hbest. apply rank_lt_spec in E.
      destruct (rank_z (rank x)) as [[? ?] ?], (rank_z (rank y)) as [[? ?] ?], (rank_z (rank o)) as [[? ?] ?]. lia.
    + destruct (rank_z (rank x)) as [[? ?] ?]. lia.
  - apply elem_of_app. by left.
  - intros y [Hy| ->%list_elem_of_singleton]%elem_of_app; auto.
Qed.

Lemma min_by_rank_spec l :
  match min_by_rank l with Some o => best l o | None => l = [] end.
Proof.
  induction l as [|x l IH] using rev_ind; [done|]. unfold min_by_rank in *. rewrite foldl_app. cbn [foldl].
  destruct (foldl _ None l) as [o|].
  - apply (best_snoc _ _ x) in IH. by destruct (rank_lt (rank x) (rank o)).
  - subst l. split; [by constructor|]. intros y ->%list_elem_of_singleton.
    apply rank_lt_false. destruct (rank_z (rank x)) as [[? ?] ?]. lia.
Qed.

(** A recipe that may still be opened, and one that is ready to be. *)
Definition left_over (p : BackendPolicy) (o : Offer) : Prop :=
  (o, false) ∈ entries p /\ permitted p o = true.
Definition ready (p : BackendPolicy) (o : Offer) : Prop := left_over p o /\ of_qualification o = Qualified.

Lemma available_spec p o : o ∈ available p <-> left_over p o.
Proof.
  unfold available, left_over. rewrite list_elem_of_fmap. split.
  - intros ([x t] & -> & Hx). apply list_elem_of_In, filter_In in Hx as [Hx Hp]. apply list_elem_of_In in Hx.
    apply andb_prop in Hp as [Ht Hp]. by destruct t.
  - intros [Hin Hp]. exists (o, false). split; [done|]. apply list_elem_of_In, filter_In.
    rewrite <- list_elem_of_In. split; [done|]. by rewrite Hp.
Qed.

Lemma ready_spec p o :
  o ∈ List.filter (fun o => bool_decide (of_qualification o = Qualified)) (available p) <-> ready p o.
Proof.
  rewrite list_elem_of_In, filter_In, <- list_elem_of_In, available_spec, bool_decide_eq_true. done.
Qed.

Lemma choose_spec p :
  match choose p with
  | Open o => ready p o /\ forall x, ready p x -> rank_lt (rank x) (rank o) = false
  | Unqualified => (forall x, ~ ready p x) /\ exists x, left_over p x /\ of_qualification x = Unknown
  | Exhausted => forall x, left_over p x -> of_qualification x = Refused
  end.
Proof.
  unfold choose. pose proof (min_by_rank_spec
    (List.filter (fun o => bool_decide (of_qualification o = Qualified)) (available p))) as Hmin.
  destruct (min_by_rank _) as [o|].
  - destruct Hmin as [Hin Hbest]. split; [by apply ready_spec|]. intros x Hx. by apply Hbest, ready_spec.
  - assert (forall x, ~ ready p x) as Hno.
    { intros x Hx%ready_spec. rewrite Hmin in Hx. by apply not_elem_of_nil in Hx. }
    destruct (existsb _ (available p)) eqn:E.
    + split; [done|]. apply existsb_exists in E as (x & Hx%list_elem_of_In & Hq%bool_decide_eq_true).
      exists x. by rewrite <- available_spec.
    + intros x Hx. destruct (of_qualification x) eqn:Hq; [|done|by destruct (Hno x)].
      apply not_true_iff_false in E. destruct E. apply existsb_exists. exists x.
      rewrite <- list_elem_of_In, available_spec, bool_decide_eq_true. done.
Qed.

(** The player opens the best recipe that is left: the choice is a qualified, unspent and permitted
    recipe of the lowest rank, if there is one; otherwise it says whether evidence is still missing
    about a recipe that could be opened, or nothing is left. *)
Theorem the_choice_is_the_best_left p :
  match choose p with
  | Open o => ready p o /\ forall x, ready p x -> rank_lt (rank x) (rank o) = false
  | Unqualified => (forall x, ~ ready p x) /\ exists x, left_over p x /\ of_qualification x = Unknown
  | Exhausted => forall x, left_over p x -> of_qualification x = Refused
  end.
Proof. apply choose_spec. Qed.

(** ** Episodes *)

Inductive PolicyOp :=
  | P_admit (r : Recipe)
  | P_rollback (r : Recipe)
  | P_revisit (r : Recipe)
  | P_plan (id : OfferId)
  | P_qualify (r : Recipe) (evidence : Qualification).

Definition policy_step (p : BackendPolicy) (op : PolicyOp) : bool * BackendPolicy :=
  match op with
  | P_admit r => admitted p r
  | P_rollback r => admit_rollback_existing p r
  | P_revisit r => admit_revisit p r
  | P_plan id => (true, qualify_planned_feed p id)
  | P_qualify r evidence => (true, qualify p r evidence)
  end.

(** A recipe that is opened: as a new candidate, as the way back of a failed recovery, or again. *)
Inductive Opened := As_new (r : Recipe) | As_rollback (r : Recipe) | As_revisit (r : Recipe).

Definition opened_recipe (x : Opened) : Recipe :=
  match x with As_new r | As_rollback r | As_revisit r => r end.
Definition new_recipe (x : Opened) : option Recipe := match x with As_new r => Some r | _ => None end.
Definition rolled_back (x : Opened) : option Recipe := match x with As_rollback r => Some r | _ => None end.

Definition candidates (log : list Opened) : list Recipe := omap new_recipe log.
Definition rollbacks (log : list Opened) : list Recipe := omap rolled_back log.
Definition recipes (log : list Opened) : list Recipe := opened_recipe <$> log.

(** What an operation opens. *)
Definition opened_by (p : BackendPolicy) (op : PolicyOp) : list Opened :=
  match op with
  | P_admit r => if fst (admitted p r) then [As_new r] else []
  | P_rollback r => if fst (admit_rollback_existing p r) then [As_rollback r] else []
  | P_revisit r => if fst (admit_revisit p r) then [As_revisit r] else []
  | P_plan _ | P_qualify _ _ => []
  end.

(** A series of operations, and all that it opened. *)
Inductive episode (p0 : BackendPolicy) : list PolicyOp -> BackendPolicy -> list Opened -> Prop :=
  | episode_start : episode p0 [] p0 []
  | episode_step ops p log op :
      episode p0 ops p log ->
      episode p0 (ops ++ [op]) (snd (policy_step p op)) (log ++ opened_by p op).

(** What the log must hold for [x] to be opened next. *)
Definition may_open (log : list Opened) (x : Opened) : Prop :=
  match x with
  | As_new r => r ∉ candidates log
  | As_rollback r => r ∈ candidates log /\ last (recipes log) <> Some r /\ rollbacks log = []
                     /\ fst <$> last (recipes log) = Some (fst r)
  | As_revisit r => r ∈ candidates log /\ fst <$> last (recipes log) = Some (fst r)
  end.

Fixpoint handoffs (l : list Recipe) : nat :=
  match l with
  | a :: (b :: _) as tl => ((if decide (fst a = fst b) then 0 else 1) + handoffs tl)%nat
  | _ => 0%nat
  end.

Lemma handoffs_snoc l r : handoffs (l ++ [r]) =
  (handoffs l + match last l with Some x => if decide (fst x = fst r) then 0 else 1 | None => 0 end)%nat.
Proof.
  induction l as [|a [|b l] IH]; [done|cbn; lia|].
  change (handoffs ((a :: b :: l) ++ [r])) with
    ((if decide (fst a = fst b) then 0 else 1) + handoffs ((b :: l) ++ [r]))%nat.
  rewrite IH. change (last (a :: b :: l)) with (last (b :: l)). cbn [handoffs]. lia.
Qed.

(** What no evidence changes about the catalog. *)
Definition facts (l : list Offer) : list (Recipe * bool) := (fun o => (recipe o, exact o)) <$> l.

Record episode_ok (p0 p : BackendPolicy) (log : list Opened) : Prop := mk_episode_ok {
  eo_facts : facts (bp_offers p) = facts (bp_offers p0);
  eo_force : bp_force_original p = bp_force_original p0;
  eo_tried : bp_tried p = (fun o => bool_decide (recipe o ∈ candidates log)) <$> bp_offers p;
  eo_once : NoDup (candidates log);
  eo_known : Forall (fun r => exists e, (r, e) ∈ facts (bp_offers p0)
                                        /\ (bp_force_original p0 = true -> e = true)) (candidates log);
  eo_offer : bp_last_offer p = last (recipes log);
  eo_last : bp_last_backend p = fst <$> last (recipes log);
  eo_handoffs : handoffs (recipes log) = if bp_crossed p then 1%nat else 0%nat;
  eo_rollbacks : length (rollbacks log) = if bp_rollback_used p then 1%nat else 0%nat;
  eo_order : forall before x after, log = before ++ x :: after -> may_open before x
}.

Lemma candidates_snoc log x :
  candidates (log ++ [x]) = candidates log ++ match new_recipe x with Some r => [r] | None => [] end.
Proof. unfold candidates. rewrite omap_app. cbn. by destruct (new_recipe x). Qed.
Lemma rollbacks_snoc log x :
  rollbacks (log ++ [x]) = rollbacks log ++ match rolled_back x with Some r => [r] | None => [] end.
Proof. unfold rollbacks. rewrite omap_app. cbn. by destruct (rolled_back x). Qed.
Lemma recipes_snoc log x : recipes (log ++ [x]) = recipes log ++ [opened_recipe x].
Proof. unfold recipes. by rewrite fmap_app. Qed.

Lemma order_snoc log x :
  (forall before y after, log = before ++ y :: after -> may_open before y) -> may_open log x ->
  forall before y after, log ++ [x] = before ++ y :: after -> may_open before y.
Proof.
  intros Ho Hx before y after Heq. destruct after as [|z after _] using rev_ind.
  - apply app_inj_tail in Heq as [-> ->]. done.
  - rewrite app_comm_cons, app_assoc in Heq. apply app_inj_tail in Heq as [-> _]. by eapply Ho.
Qed.

(** Evidence changes neither the facts nor what was tried. *)
Lemma tried_of_facts l l' (opened : list Recipe) : facts l = facts l' ->
  ((fun o => bool_decide (recipe o ∈ opened)) <$> l) = (fun o => bool_decide (recipe o ∈ opened)) <$> l'.
Proof.
  intros Hf. change (((fun re : Recipe * bool => bool_decide (fst re ∈ opened)) ∘ (fun o => (recipe o, exact o))) <$> l
    = (fun re : Recipe * bool => bool_decide (fst re ∈ opened)) ∘ (fun o => (recipe o, exact o)) <$> l').
  rewrite !list_fmap_compose. fold (facts l) (facts l'). by rewrite Hf.
Qed.

Lemma requalified_ok p0 p log (f : Offer -> Offer) :
  (forall o, recipe (f o) = recipe o /\ exact (f o) = exact o) ->
  episode_ok p0 p log -> episode_ok p0 (p <| bp_offers := f <$> bp_offers p |>) log.
Proof.
  intros Hfe [Hf Hfo Ht Hn Hk Hlo Hl Hh Hr Ho].
  assert (facts (f <$> bp_offers p) = facts (bp_offers p)) as Heq.
  { unfold facts. rewrite <- list_fmap_compose. apply list_fmap_ext. intros _ o _. cbn.
    by destruct (Hfe o) as [-> ->]. }
  constructor; try done; [change (facts (f <$> bp_offers p) = facts (bp_offers p0)); congruence|].
  change (bp_tried p = (fun o => bool_decide (recipe o ∈ candidates log)) <$> (f <$> bp_offers p)).
  rewrite Ht. symmetry. by apply tried_of_facts.
Qed.

Lemma entry_spec p0 p log o t : episode_ok p0 p log -> (o, t) ∈ entries p ->
  o ∈ bp_offers p /\ t = bool_decide (recipe o ∈ candidates log).
Proof.
  intros Hok [i Hi]%list_elem_of_lookup. unfold entries in Hi.
  apply lookup_zip_with_Some in Hi as (x & y & [= <- <-] & Hx & Ht).
  rewrite (eo_tried _ _ _ Hok), list_lookup_fmap, Hx in Ht. cbn in Ht. injection Ht as <-.
  split; [by eapply list_elem_of_lookup_2|done].
Qed.

(** A recipe was spent when it was opened as a new candidate. *)
Lemma tried_spec p0 p log r : episode_ok p0 p log -> tried_recipe p r = true <-> r ∈ candidates log.
Proof.
  intros Hok. unfold tried_recipe. rewrite existsb_exists. split.
  - intros ([o t] & Hin%list_elem_of_In & [Ht Hr]%andb_prop). apply bool_decide_eq_true in Hr. subst r.
    destruct (entry_spec _ _ _ _ _ Hok Hin) as [_ ->]. by apply bool_decide_eq_true in Ht.
  - intros Hr. pose proof (eo_known _ _ _ Hok) as Hk. rewrite Forall_forall in Hk.
    destruct (Hk r Hr) as (e & He & _). rewrite <- (eo_facts _ _ _ Hok) in He.
    unfold facts in He. apply list_elem_of_fmap in He as (o & [= -> ->] & Ho).
    apply list_elem_of_lookup in Ho as [i Hi]. exists (o, true). rewrite <- list_elem_of_In.
    split; [|by apply bool_decide_eq_true]. apply list_elem_of_lookup. exists i. unfold entries.
    apply lookup_zip_with_Some. exists o, true. split_and!; [done..|].
    rewrite (eo_tried _ _ _ Hok), list_lookup_fmap, Hi. cbn. by rewrite bool_decide_eq_true_2.
Qed.

Lemma can_revisit_spec p0 p log r : episode_ok p0 p log ->
  can_revisit p r = true <-> may_open log (As_revisit r).
Proof.
  intros Hok. unfold can_revisit. cbn [may_open].
  rewrite andb_true_iff, bool_decide_eq_true, (tried_spec _ _ _ _ Hok), (eo_last _ _ _ Hok). tauto.
Qed.

Lemma can_rollback_spec p0 p log r : episode_ok p0 p log ->
  can_rollback_existing p r = true <-> may_open log (As_rollback r).
Proof.
  intros Hok. unfold can_rollback_existing. cbn [may_open].
  rewrite !andb_true_iff, !negb_true_iff, bool_decide_eq_true, bool_decide_eq_false.
  rewrite (tried_spec _ _ _ _ Hok), (eo_last _ _ _ Hok), (eo_offer _ _ _ Hok).
  assert (bp_rollback_used p = false <-> rollbacks log = []) as ->; [|tauto].
  rewrite <- length_zero_iff_nil, (eo_rollbacks _ _ _ Hok). by destruct (bp_rollback_used p).
Qed.

(** A recipe of the backend that plays is opened again: nothing is spent. *)
Lemma reopen_step p0 p log x (p' : BackendPolicy) :
  episode_ok p0 p log -> new_recipe x = None -> may_open log x ->
  fst <$> last (recipes log) = Some (fst (opened_recipe x)) ->
  bp_offers p' = bp_offers p -> bp_tried p' = bp_tried p -> bp_force_original p' = bp_force_original p ->
  bp_last_backend p' = bp_last_backend p -> bp_crossed p' = bp_crossed p ->
  bp_last_offer p' = Some (opened_recipe x) ->
  bp_rollback_used p' = (match rolled_back x with Some _ => true | None => bp_rollback_used p end) ->
  episode_ok p0 p' (log ++ [x]).
Proof.
  intros [Hf Hfo Ht Hn Hk Hlo Hl Hh Hr Ho] Hnew Hmay Hback E1 E2 E3 E4 E5 E6 E7.
  assert (candidates (log ++ [x]) = candidates log) as Hc by (rewrite candidates_snoc, Hnew; apply app_nil_r).
  constructor; rewrite ?Hc, ?recipes_snoc, ?last_snoc, ?E1, ?E2, ?E3, ?E4, ?E5; try done.
  - by rewrite Hl, Hback.
  - rewrite handoffs_snoc, Hh. destruct (last (recipes log)) as [y|]; [|done]. injection Hback as Hback.
    rewrite decide_True by done. lia.
  - rewrite E7, rollbacks_snoc, length_app, Hr. destruct x; [done| |cbn; lia].
    destruct Hmay as (_ & _ & Hnil & _). rewrite Hnil in Hr. destruct (bp_rollback_used p); [done|]. done.
  - by apply order_snoc.
Qed.

Lemma admit_step p0 p log r : episode_ok p0 p log -> fst (admitted p r) = true ->
  episode_ok p0 (snd (admitted p r)) (log ++ [As_new r]).
Proof.
  intros Hok Hadm. pose proof (choose_spec p) as Hc. unfold admitted in *.
  destruct (choose p) as [o| |]; [|done..]. destruct Hc as [[[Hin Hperm] _] _].
  destruct (is_recipe r o) eqn:Hro; [|done]. cbn [negb] in *. apply bool_decide_eq_true in Hro. subst r.
  destruct (entry_spec _ _ _ _ _ Hok Hin) as [Hmem Hnew%eq_sym%bool_decide_eq_false].
  destruct Hok as [Hf Hfo Ht Hn Hk Hlo Hl Hh Hr Hord].
  set (q := match bp_last_backend p with Some _ => _ | None => p end).
  assert (bp_offers q = bp_offers p /\ bp_tried q = bp_tried p /\ bp_force_original q = bp_force_original p
    /\ bp_rollback_used q = bp_rollback_used p
    /\ handoffs (recipes log ++ [recipe o]) = if bp_crossed q then 1%nat else 0%nat) as (Ho & Htr & Hfq & Hrq & Hhq).
  { rewrite handoffs_snoc, Hh. subst q. rewrite Hl.
    destruct (last (recipes log)) as [x|]; cbn; [|split_and!; try done; lia].
    case_bool_decide as Hb; cbn; (split_and!; [done..|]).
    - rewrite decide_True by done. lia.
    - rewrite decide_False by done. unfold permitted in Hperm. rewrite Hl in Hperm. cbn in Hperm, Hb.
      rewrite bool_decide_eq_false_2 in Hperm by done.
      destruct (bp_crossed p); [|done]. by rewrite andb_false_r in Hperm. }
  constructor; rewrite ?candidates_snoc, ?recipes_snoc, ?last_snoc, ?rollbacks_snoc, ?app_nil_r;
    cbn [new_recipe rolled_back opened_recipe]; rewrite ?app_nil_r; cbn; rewrite ?Ho, ?Htr, ?Hfq, ?Hrq; try done.
  - rewrite Ht. apply list_eq. intros i. rewrite lookup_zip_with, !list_lookup_fmap.
    destruct (bp_offers p !! i) as [x|]; [|done]. cbn. f_equal. unfold is_recipe.
    rewrite <- bool_decide_or. apply bool_decide_ext. rewrite elem_of_app, list_elem_of_singleton. tauto.
  - apply NoDup_app. split_and!; [done| |apply NoDup_singleton]. intros x Hx ->%list_elem_of_singleton. done.
  - apply Forall_app. split; [done|]. apply Forall_singleton. exists (exact o). split.
    + rewrite <- Hf. unfold facts. apply list_elem_of_fmap. by exists o.
    + intros Hforce. unfold permitted in Hperm. rewrite Hfo, Hforce in Hperm. by apply andb_prop in Hperm as [? _].
  - by apply order_snoc.
Qed.

Lemma episode_step_ok p0 p log op : episode_ok p0 p log ->
  episode_ok p0 (snd (policy_step p op)) (log ++ opened_by p op).
Proof.
  intros Hok. destruct op as [r|r|r|id|r q]; cbn [policy_step opened_by snd]; rewrite ?app_nil_r.
  - destruct (fst (admitted p r)) eqn:E; [by apply admit_step|]. rewrite app_nil_r.
    unfold admitted in *. repeat case_match; done.
  - unfold admit_rollback_existing. destruct (can_rollback_existing p r) eqn:E; cbn; [|by rewrite app_nil_r].
    apply (can_rollback_spec _ _ _ _ Hok) in E. eapply reopen_step; try done. by destruct E as (_ & _ & _ & ?).
  - unfold admit_revisit. destruct (can_revisit p r) eqn:E; cbn; [|by rewrite app_nil_r].
    apply (can_revisit_spec _ _ _ _ Hok) in E. eapply reopen_step; try done. by destruct E.
  - apply requalified_ok; [|done]. intros o. by case_bool_decide.
  - apply requalified_ok; [|done]. intros o. by destruct (is_recipe r o).
Qed.

Lemma episode_invariant offers force ops p log :
  episode (policy_new offers force) ops p log -> episode_ok (policy_new offers force) p log.
Proof.
  induction 1 as [|ops p log op _ IH]; [|by apply episode_step_ok].
  constructor; try done; cbn; [|constructor..|by intros []].
  symmetry. induction offers as [|x offers IH]; [done|]. cbn.
  by rewrite bool_decide_eq_false_2, IH by apply not_elem_of_nil.
Qed.

(** C15. A recovery ends.  However the evidence about its recipes changes while it plays, a request opens
    each of them at most once as a new candidate, so no more than its catalog lists; a forced Original
    opens nothing that is not exact; what it opens crosses from one backend to the other at most once,
    the recipes it goes back to included.  At any moment it may roll back exactly to a recipe it has
    opened, on the backend that plays, other than the one that plays, and only if it never rolled back;
    and it may revisit exactly a recipe it has opened on the backend that plays; and whatever it opened
    was allowed so. *)
Theorem a_recovery_episode_is_finite offers force ops p log :
  episode (policy_new offers force) ops p log ->
  NoDup (candidates log) /\ (length (candidates log) <= length offers)%nat
  /\ (handoffs (recipes log) <= 1)%nat /\ (length (rollbacks log) <= 1)%nat
  /\ Forall (fun r => exists o, o ∈ offers /\ recipe o = r /\ (force = true -> exact o = true)) (candidates log)
  /\ (forall r, can_rollback_existing p r = true <-> may_open log (As_rollback r))
  /\ (forall r, can_revisit p r = true <-> may_open log (As_revisit r))
  /\ (forall before x after, log = before ++ x :: after -> may_open before x).
Proof.
  intros Hok%episode_invariant. pose proof Hok as [Hf Hfo Ht Hn Hk Hlo Hl Hh Hr Hord]. cbn in Hk. split_and!.
  - done.
  - rewrite <- (length_fmap recipe offers). apply submseteq_length, NoDup_submseteq; [done|].
    intros r Hr'. rewrite Forall_forall in Hk. destruct (Hk _ Hr') as (e & He & _).
    unfold facts in He. apply list_elem_of_fmap in He as (o & [= -> ->] & Ho). by apply list_elem_of_fmap_2.
  - rewrite Hh. destruct (bp_crossed p); lia.
  - rewrite Hr. destruct (bp_rollback_used p); lia.
  - eapply Forall_impl; [exact Hk|]. intros r (e & He & Hex). unfold facts in He.
    apply list_elem_of_fmap in He as (o & [= -> ->] & Ho). eauto.
  - intros r. by apply (can_rollback_spec _ _ _ _ Hok).
  - intros r. by apply (can_revisit_spec _ _ _ _ Hok).
  - done.
Qed.

(** ** The start door *)

(** Looking does not spend, and a start that is allowed is admitted: if the door lets the planned
    Feed recipe through, its admission succeeds, and afterwards that recipe is the one a seek or a
    restore reopens, without another candidate being spent. *)
Theorem an_allowed_start_is_admitted s id : fo_planned s = Some id -> backend_planned_feed_allowed s = true ->
  let '(ok, s') := backend_offer_admitted (Feed, id) s in
  ok = true /\ fo_admitted s' = Some id /\ fo_purpose s' = ReopenCurrent
  /\ backend_planned_feed_allowed s' = true
  /\ backend_offer_admitted (Feed, id) s' = (true, s').
Proof.
  intros Hp Ha. unfold backend_planned_feed_allowed in Ha. rewrite Hp in Ha. unfold on_policy in Ha.
  assert (forall p', fo_policy s = Some p' -> forall q, can_reopen q (Feed, id) = true ->
    let s' := (s <| fo_policy := Some q |>) <| fo_admitted := Some id |> <| fo_purpose := ReopenCurrent |> in
    backend_planned_feed_allowed s' = true /\ backend_offer_admitted (Feed, id) s' = (true, s')) as Hre.
  { intros p' _ q Hq s'. unfold backend_planned_feed_allowed, backend_offer_admitted, on_policy. subst s'. cbn.
    rewrite Hp, !bool_decide_eq_true_2, Hq by done. done. }
  unfold backend_offer_admitted at 1. rewrite Hp, bool_decide_eq_true_2 by done. cbn [negb].
  destruct (fo_policy s) as [p|] eqn:Hpol; [|by destruct (fo_purpose s); rewrite ?andb_false_r in Ha].
  destruct (fo_purpose s) eqn:Hpu; unfold admit_with; rewrite ?Hpol.
  - rewrite andb_false_r. cbn [andb is_new negb]. unfold admitted. destruct (choose p) as [o| |]; [|done..].
    rewrite Ha. cbn [negb]. split_and!; try done; apply (Hre p); try done; unfold can_reopen; cbn;
      by apply bool_decide_eq_true.
  - cbn [is_new negb]. unfold on_policy. rewrite Hpol. rewrite andb_true_r, Ha. split_and!; try done.
    + by apply andb_prop in Ha as [?%bool_decide_eq_true _].
    + unfold backend_planned_feed_allowed, on_policy. by rewrite Hp, Hpu, Hpol.
    + unfold backend_offer_admitted, on_policy. rewrite Hp, Hpu, Hpol, bool_decide_eq_true_2 by done. cbn [negb is_new].
      by rewrite andb_true_r, Ha.
  - unfold admit_rollback_existing. rewrite Ha. split_and!; try done; apply (Hre p); try done; unfold can_reopen; cbn;
      by apply bool_decide_eq_true.
  - unfold admit_revisit. rewrite Ha. split_and!; try done; apply (Hre p); try done; unfold can_reopen; cbn;
      by apply bool_decide_eq_true.
Qed.
