(* ===== verification/ShelfWindow.v ===== *)
(** * Shelves: the sliding window of a row

    [fetch_window] of [data/src/stores/paging.rs]: at most [MAX_SHELF_ITEMS] cards of a listing, each
    with the position it was read from, moved by a forward or a backward ask that re-anchors on the
    row it reads beside.

    A page of the server is read by a function on the world [St], which may change with every request
    ([Reading]); of an item it has what [clean] makes of its rating key and what [shelf_card] makes of
    it, and of a card the key and the section.  A position is a [Z]; where the source adds with a
    check, so does the model, and the plain additions are to positions of rows that were listed. *)

From stdpp Require Import list.
From S2P Require Import Prelude Bytes.

#[local] Open Scope Z_scope.

Definition MAX_SHELF_ITEMS : Z := 24.
Definition HUB_FETCH_COUNT : Z := 12.
Definition REQUESTS_PER_ASK : Z := 8.

Record PmsMovie := mk_movie { rk : bytes; sec : Z }.
#[export] Instance PmsMovie_eq_dec : EqDecision PmsMovie.
Proof. solve_decision. Defined.

Record Metadata := mk_metadata { rating_key : bytes; card_of : option PmsMovie }.

Record MediaContainer := mk_container { mc_offset : Z; mc_total_size : Z; mc_metadata : list Metadata }.

Abbreviation Row := (Z * PmsMovie)%type.

Record PageInfo := mk_info { pi_offset : Z; pi_end : Z; pi_total : Z; pi_more : bool; pi_unstable : bool }.
#[export] Instance PageInfo_eta : Eta PageInfo := fun r =>
  mk_info (pi_offset r) (pi_end r) (pi_total r) (pi_more r) (pi_unstable r).
#[export] Instance PageInfo_eq_dec : EqDecision PageInfo.
Proof. solve_decision. Defined.
Definition info_default : PageInfo := mk_info 0 0 0 false false.

Record Ask := mk_ask { ask_start : Z; ask_before : bool; ask_hidden : list Z }.

Record Edge := mk_edge { eg_position : Z; eg_key : bytes }.

Inductive Relocation := InPage (by_ : Z) | Beyond (by_ : Z) | Lost.

(** ** Reading pages *)

(** [Failed]: a page failed, and the caller keeps what it has. *)
Inductive Answer (A : Type) := Answered (a : A) | Page_failed | Panicked | Out_of_fuel.
Arguments Answered {A} a.
Arguments Page_failed {A}.
Arguments Panicked {A}.
Arguments Out_of_fuel {A}.

Definition Reading (St A : Type) : Type := St -> Answer A * St.

Definition done {St A} (a : A) : Reading St A := fun s => (Answered a, s).
Definition failed {St A} : Reading St A := fun s => (Page_failed, s).
Definition or_panic {St A} (a : option A) : Reading St A := fun s => (match a with Some a => Answered a | None => Panicked end, s).

Definition read_bind {St A B} (m : Reading St A) (k : A -> Reading St B) : Reading St B := fun s =>
  match m s with
  | (Answered a, s) => k a s
  | (Page_failed, s) => (Page_failed, s)
  | (Panicked, s) => (Panicked, s)
  | (Out_of_fuel, s) => (Out_of_fuel, s)
  end.
Declare Scope reading_scope.
Notation "x <~ m ; k" := (read_bind m (fun x => k)) (at level 100, m at next level, right associativity) : reading_scope.
#[local] Open Scope reading_scope.

Definition len {A} (l : list A) : Z := Z.of_nat (length l).

(** The sections hidden from the ask. *)
Definition is_hidden (hidden : list Z) (c : PmsMovie) : bool := existsb (Z.eqb (sec c)) hidden.
Definition has_key (rows : list Row) (key : bytes) : bool := existsb (fun r => bool_decide (rk (snd r) = key)) rows.

Fixpoint index_of {A} (p : A -> bool) (l : list A) : option Z :=
  match l with
  | [] => None
  | m :: l => if p m then Some 0 else Z.succ <$> index_of p l
  end.
Definition find_key (page : MediaContainer) (key : bytes) : option Z :=
  index_of (fun m => bool_decide (rating_key m = key)) (mc_metadata page).

Definition delta (now was : Z) : Z := i32_wrap (i32_wrap now - i32_wrap was).

Definition usize_saturating_sub (a b : Z) : Z := Z.max 0 (a - b).

(** [None]: a position would leave its type. *)
Definition shift (by_ : Z) (rows : list Row) (offset end_ : Z) : option (list Row * Z * Z) :=
  rows ← mapM (fun '(p, c) => p ← usize_checked (p + by_); Some (p, c)) rows;
  offset ← usize_checked (offset + by_);
  end_ ← usize_checked (end_ + by_);
  Some (rows, offset, end_).

Definition unchanged (current : option (list Row * PageInfo)) : list Row * PageInfo :=
  match current with
  | Some (rows, info) => (rows, info <| pi_unstable := true |>)
  | None => ([], info_default <| pi_unstable := true |>)
  end.

(** A window on its way: [wk_carried], the next read starts with the edge. *)
Record Walk := mk_walk {
  wk_rows : list Row; wk_offset : Z; wk_end : Z; wk_total : Z; wk_more : bool; wk_cursor : Z; wk_carried : bool
}.
#[export] Instance Walk_eta : Eta Walk := fun r =>
  mk_walk (wk_rows r) (wk_offset r) (wk_end r) (wk_total r) (wk_more r) (wk_cursor r) (wk_carried r).

(** What a step decides: return the window unchanged, stop reading, or go on. *)
Inductive Flow := Gives_up | Stops (w : Walk) | Goes_on (w : Walk).

(** The rows of a page, forward, until the window is full: with the end they reach. *)
Fixpoint take_forward (hidden : list Z) (keep_from position : Z) (items : list Metadata) (rows : list Row) (end_ : Z) :
    list Row * Z :=
  match items with
  | [] => (rows, end_)
  | m :: items =>
      let end_ := position + 1 in
      let skip := take_forward hidden keep_from (position + 1) items rows end_ in
      if position <? keep_from then skip
      else match card_of m with
           | None => skip
           | Some c =>
               if is_hidden hidden c || has_key rows (rk c) then skip
               else let rows := rows ++ [(position, c)] in
                    if len rows =? MAX_SHELF_ITEMS then (rows, end_)
                    else take_forward hidden keep_from (position + 1) items rows end_
           end
  end.

(** Backward: the rows to put before the window. *)
Fixpoint take_backward (hidden : list Z) (keep_from keep_to position : Z) (items : list Metadata)
    (rows fresh : list Row) : list Row :=
  match items with
  | [] => fresh
  | m :: items =>
      let fresh :=
        if (keep_from <=? position) && (position <? keep_to) then
          match card_of m with
          | None => fresh
          | Some c => if is_hidden hidden c || has_key (rows ++ fresh) (rk c) then fresh else fresh ++ [(position, c)]
          end
        else fresh in
      take_backward hidden keep_from keep_to (position + 1) items rows fresh
  end.

(** The window an ask starts from: the half it keeps, and its bounds. *)
Definition retain_half (before : bool) (rows : list Row) : list Row :=
  if before then take (Z.to_nat HUB_FETCH_COUNT) rows
  else if len rows <=? HUB_FETCH_COUNT then rows else drop (length rows - Z.to_nat HUB_FETCH_COUNT) rows.

Definition initial_walk (ask : Ask) (current : option (list Row * PageInfo)) : Walk :=
  let current_info := snd <$> current in
  let rows := match current with
              | Some (rows, _) => List.filter (fun r => negb (is_hidden (ask_hidden ask) (snd r))) rows
              | None => []
              end in
  let retained_all := len rows <=? HUB_FETCH_COUNT in
  let rows := retain_half (ask_before ask) rows in
  let kept_info := if retained_all then current_info else None in
  let offset := if ask_before ask then ask_start ask
                else match kept_info with
                     | Some info => pi_offset info
                     | None => match head rows with Some r => fst r | None => ask_start ask end
                     end in
  let end_ := if ask_before ask
              then match kept_info with
                   | Some info => pi_end info
                   | None => match last rows with Some r => fst r + 1 | None => ask_start ask end
                   end
              else ask_start ask in
  let total := match current_info with Some info => pi_total info | None => 0 end in
  let more := ask_before ask && match current_info with
                                | Some info => pi_more info || negb retained_all
                                | None => false
                                end in
  mk_walk rows offset end_ total more (ask_start ask) false.

Definition edge_of (ask : Ask) (w : Walk) : option Edge :=
  (fun r => mk_edge (fst r) (rk (snd r))) <$> (if ask_before ask then head (wk_rows w) else last (wk_rows w)).

(** The window and its bounds, moved by what the edge moved; [next], a position that moves with them. *)
Definition moved (by_ next : Z) (w : Walk) : option (Walk * Z) :=
  '(rows, offset, end_) ← shift by_ (wk_rows w) (wk_offset w) (wk_end w);
  next ← usize_checked (next + by_);
  Some (w <| wk_rows := rows |> <| wk_offset := offset |> <| wk_end := end_ |>, next).

Section Window.
Context {St : Type} (fetch : Z -> Z -> Reading St MediaContainer).

(** One page, which must start where it was asked for. *)
Definition page (start count : Z) : Reading St MediaContainer :=
  mc <~ fetch start count;
  if mc_offset mc =? start then done mc else failed.

Definition relocate (edge : Edge) (before : bool) (pg : MediaContainer) (from : Z) : Reading St Relocation :=
  match find_key pg (eg_key edge) with
  | Some index => done (InPage (delta (from + index) (eg_position edge)))
  | None =>
      let '(start, count) :=
        if before then (eg_position edge + 1, MAX_SHELF_ITEMS)
        else let start := usize_saturating_sub (eg_position edge) MAX_SHELF_ITEMS in
             (start, eg_position edge - start) in
      if count =? 0 then done Lost
      else far <~ page start count;
           match find_key far (eg_key edge) with
           | Some index => done (Beyond (delta (start + index) (eg_position edge)))
           | None => done Lost
           end
  end.

(** The edge, when it is not the row the ask reads beside: checked on a page of its own. *)
Definition check_edge (ask : Ask) (edge : Edge) (w : Walk) : Reading St Flow :=
  let beside := if ask_before ask then eg_position edge =? ask_start ask
                else eg_position edge + 1 =? ask_start ask in
  if beside then done (Goes_on (w <| wk_cursor := eg_position edge |> <| wk_carried := true |>))
  else
    let '(start, count) :=
      if ask_before ask
      then let start := usize_saturating_sub (eg_position edge) MAX_SHELF_ITEMS in (start, eg_position edge - start + 1)
      else (eg_position edge, MAX_SHELF_ITEMS + 1) in
    pg <~ page start count;
    at_ <~ relocate edge (ask_before ask) pg start;
    match at_ with
    | Lost => done Gives_up
    | InPage by_ | Beyond by_ =>
        done (match moved by_ (ask_start ask) w with
              | Some (w, next) => Goes_on (w <| wk_cursor := next |>)
              | None => Gives_up
              end)
    end.

(** What a page that was read adds.  [edge_now], where the edge it carried is. *)
Definition add_page (ask : Ask) (start size count : Z) (mc : MediaContainer) (edge_now : option Z) (w : Walk) : Flow :=
  let got := Z.min (len (mc_metadata mc)) count in
  let total := u32_wrap (Z.max (mc_total_size mc) 0) in
  let raw_end := usize_sat (start + got) in
  let items := take (Z.to_nat got) (mc_metadata mc) in
  if ask_before ask then
    let '(keep_from, keep_to) :=
      match edge_now with
      | Some corrected => (Z.max (usize_saturating_sub corrected size) (Z.min start corrected), corrected)
      | None => (start, start + size)
      end in
    let fresh := take_backward (ask_hidden ask) keep_from keep_to start items (wk_rows w) [] in
    Goes_on (mk_walk (fresh ++ wk_rows w) keep_from (wk_end w) total
               (if 0 <? total then wk_end w <? total else wk_more w) keep_from false)
  else
    let keep_from := match edge_now with Some corrected => corrected + 1 | None => start end in
    let '(rows, end_) := take_forward (ask_hidden ask) keep_from start items (wk_rows w) (wk_end w) in
    let end_ := if got =? 0 then start else end_ in
    let more := (0 <? got) && (if 0 <? total then end_ <? total else (end_ <? raw_end) || (got =? count)) in
    let w := mk_walk rows (wk_offset w) end_ total more end_ false in
    if more then Goes_on w else Stops w.

Definition read_page (ask : Ask) (edge : option Edge) (w : Walk) : Reading St Flow :=
  let size := if ask_before ask then Z.min (wk_cursor w) (MAX_SHELF_ITEMS - len (wk_rows w)) else MAX_SHELF_ITEMS in
  let start := if ask_before ask then wk_cursor w - size else wk_cursor w in
  let count := size + (if wk_carried w then 1 else 0) in
  mc <~ page start count;
  match (if wk_carried w then edge else None) with
  | None => done (add_page ask start size count mc None (w <| wk_carried := false |>))
  | Some edge =>
      at_ <~ relocate edge (ask_before ask) mc start;
      match at_ with
      | Lost => done Gives_up
      | Beyond by_ =>
          done (match moved by_ (eg_position edge) (w <| wk_carried := false |>) with
                | Some (w, corrected) =>
                    Goes_on (w <| wk_cursor := if ask_before ask then corrected else corrected + 1 |>)
                | None => Gives_up
                end)
      | InPage by_ =>
          done (match moved by_ (eg_position edge) (w <| wk_carried := false |>) with
                | Some (w, corrected) => add_page ask start size count mc (Some corrected) w
                | None => Gives_up
                end)
      end
  end.

(** [requests] counts the ones made by the loop. *)
Fixpoint read_pages (fuel : nat) (ask : Ask) (edge : option Edge) (minimum_end requests : Z) (w : Walk) :
    Reading St (option Walk) :=
  match fuel with
  | O => fun s => (Out_of_fuel, s)
  | S fuel =>
      if negb ((requests <? REQUESTS_PER_ASK) || (negb (ask_before ask) && (wk_cursor w <? minimum_end)))
      then done (Some w)
      else if (MAX_SHELF_ITEMS <=? len (wk_rows w)) || (ask_before ask && (wk_cursor w =? 0)) then done (Some w)
      else flow <~ read_page ask edge w;
           match flow with
           | Gives_up => done None
           | Stops w => done (Some w)
           | Goes_on w => read_pages fuel ask edge minimum_end (requests + 1) w
           end
  end.

(** Each request past the first eight moves the cursor on, except the one that finds the edge. *)
Definition window_fuel (minimum_end : Z) : nat := (10 + Z.to_nat minimum_end)%nat.

Definition fetch_window (ask : Ask) (current : option (list Row * PageInfo)) (minimum_end : Z) :
    Reading St (list Row * PageInfo) :=
  let w := initial_walk ask current in
  let edge := edge_of ask w in
  flow <~ match edge with Some edge => check_edge ask edge w | None => done (Goes_on w) end;
  match flow with
  | Gives_up => done (unchanged current)
  | Stops w | Goes_on w =>
      w <~ read_pages (window_fuel minimum_end) ask edge minimum_end 0 w;
      done (match w with
            | Some w => (wk_rows w, mk_info (wk_offset w) (wk_end w) (wk_total w) (wk_more w) false)
            | None => unchanged current
            end)
  end.

End Window.
