(* ===== verification/ShelfReading.v ===== *)
(** * What a shelf's window holds

    While the listing holds still during an ask, the window read from it is a piece of it: whatever was
    added or removed before the ask, the rows are re-anchored and none is left out or shown twice. *)

From Stdlib Require Import Sorting.Sorted.
From stdpp Require Import list.
From S2P Require Import Prelude Bytes ShelfWindow.

#[local] Open Scope Z_scope.

(** ** A piece of a listing *)

(** The rows the items show, the first of them at [position]. *)
Fixpoint visible (hidden : list Z) (position : Z) (items : list Metadata) : list Row :=
  match items with
  | [] => []
  | m :: items =>
      match card_of m with
      | Some c => if is_hidden hidden c then visible hidden (position + 1) items
                  else (position, c) :: visible hidden (position + 1) items
      | None => visible hidden (position + 1) items
      end
  end.

Definition in_range (lo hi : Z) (r : Row) : bool := (lo <=? fst r) && (fst r <? hi).

(** The rows of the listing at the positions from [lo] up to [hi]. *)
Definition slice (l : list Metadata) (hidden : list Z) (lo hi : Z) : list Row :=
  List.filter (in_range lo hi) (visible hidden 0 l).

Definition shift_rows (by_ : Z) (rows : list Row) : list Row := (fun '(p, c) => (p + by_, c)) <$> rows.

(** A page of a listing that holds still, with its length or without. *)
Definition piece {A} (l : list A) (start count : Z) : list A := take (Z.to_nat count) (drop (Z.to_nat start) l).

Definition serves {St} (l : list Metadata) (fetch : Z -> Z -> Reading St MediaContainer) : Prop :=
  forall start count s, 0 <= start -> 0 <= count -> exists total s', (total = 0 \/ total = len l)
    /\ fetch start count s = (Answered (mk_container start total (piece l start count)), s').

(** Every item has a key of its own, which its card carries. *)
Record listing_ok (l : list Metadata) : Prop := mk_listing_ok {
  ls_keys : NoDup (rating_key <$> l);
  ls_cards : forall m c, m ∈ l -> card_of m = Some c -> rk c = rating_key m;
  ls_len : len l < 2147483000
}.

Definition sorted_rows (rows : list Row) : Prop := StronglySorted (fun a b : Row => fst a < fst b) rows.

Lemma visible_app hidden p a b : visible hidden p (a ++ b) = visible hidden p a ++ visible hidden (p + len a) b.
Proof.
  revert p. induction a as [|m a IH]; intros p; cbn [visible app]; unfold len; cbn [length].
  - by rewrite Z.add_0_r.
  - rewrite Nat2Z.inj_succ. replace (p + Z.succ (Z.of_nat (length a))) with (p + 1 + len a) by (unfold len; lia).
    rewrite IH. repeat case_match; done.
Qed.

Lemma visible_range hidden p items r : r ∈ visible hidden p items -> p <= fst r < p + len items.
Proof.
  revert p. induction items as [|m items IH]; intros p; cbn [visible]; [intros H; by apply not_elem_of_nil in H|].
  assert (r ∈ visible hidden (p + 1) items -> p <= fst r < p + len (m :: items)) as Htl.
  { intros H%IH. unfold len in *. cbn [length]. lia. }
  repeat case_match; try done. intros [->|?]%elem_of_cons; [|auto]. unfold len. cbn. lia.
Qed.

Lemma visible_sorted hidden p items : sorted_rows (visible hidden p items).
Proof.
  revert p. induction items as [|m items IH]; intros p; cbn [visible]; [constructor|].
  repeat case_match; try apply IH. constructor; [apply IH|]. apply Forall_forall. intros r Hr%visible_range.
  cbn. lia.
Qed.

Lemma visible_more hidden hidden' p items : (forall c, is_hidden hidden c = true -> is_hidden hidden' c = true) ->
  List.filter (fun r => negb (is_hidden hidden' (snd r))) (visible hidden p items) = visible hidden' p items.
Proof.
  intros Hh. revert p. induction items as [|m items IH]; intros p; [done|]. cbn [visible].
  destruct (card_of m) as [c|]; [|apply IH]. destruct (is_hidden hidden c) eqn:E.
  - rewrite (Hh _ E). apply IH.
  - cbn [List.filter snd]. rewrite IH. by destruct (is_hidden hidden' c).
Qed.

Lemma filter_rows_in (f : Row -> bool) rows r : r ∈ List.filter f rows <-> r ∈ rows /\ f r = true.
Proof. by rewrite !list_elem_of_In, filter_In. Qed.

Lemma sorted_filter f rows : sorted_rows rows -> sorted_rows (List.filter f rows).
Proof.
  intros Hs. induction Hs as [|r rows Hs IH Hr]; [constructor|]. cbn. destruct (f r); [|done].
  constructor; [done|]. rewrite Forall_forall in *. intros x [Hx _]%filter_rows_in. auto.
Qed.

Lemma filter_none (f : Row -> bool) rows : (forall r, r ∈ rows -> f r = false) -> List.filter f rows = [].
Proof.
  induction rows as [|r rows IH]; intros Hf; [done|]. cbn. rewrite (Hf r) by constructor.
  apply IH. intros x Hx. apply Hf. by constructor.
Qed.

Lemma filter_all (f : Row -> bool) rows : (forall r, r ∈ rows -> f r = true) -> List.filter f rows = rows.
Proof.
  induction rows as [|r rows IH]; intros Hf; [done|]. cbn. rewrite (Hf r) by constructor. f_equal.
  apply IH. intros x Hx. apply Hf. by constructor.
Qed.

Lemma filter_filter (f g : Row -> bool) rows :
  List.filter f (List.filter g rows) = List.filter (fun r => g r && f r) rows.
Proof. induction rows as [|r rows IH]; [done|]. cbn. destruct (g r); cbn; [destruct (f r)|]; by rewrite IH. Qed.

Lemma sorted_split lo mid hi rows : sorted_rows rows -> lo <= mid <= hi ->
  List.filter (in_range lo hi) rows = List.filter (in_range lo mid) rows ++ List.filter (in_range mid hi) rows.
Proof.
  intros Hs Hm. induction Hs as [|r rows Hs IH Hr]; [done|]. cbn [List.filter]. rewrite IH.
  assert (in_range lo hi r = in_range lo mid r || in_range mid hi r) as -> by (unfold in_range; lia).
  destruct (in_range lo mid r) eqn:Hl, (in_range mid hi r) eqn:Hh; cbn [orb app]; try done;
    unfold in_range in Hl, Hh; [lia|].
  rewrite (filter_none (in_range lo mid) rows); [done|]. rewrite Forall_forall in Hr. intros x Hx%Hr. unfold in_range. lia.
Qed.

Section Slice.
Context (l : list Metadata) (hidden : list Z).

Lemma slice_split lo mid hi : lo <= mid <= hi -> slice l hidden lo hi = slice l hidden lo mid ++ slice l hidden mid hi.
Proof. intros. apply sorted_split; [apply visible_sorted|done]. Qed.

Lemma slice_empty lo hi : hi <= lo -> slice l hidden lo hi = [].
Proof. intros. apply filter_none. intros r _. unfold in_range. lia. Qed.

Lemma slice_sorted lo hi : sorted_rows (slice l hidden lo hi).
Proof. apply sorted_filter, visible_sorted. Qed.

Lemma in_slice lo hi r : r ∈ slice l hidden lo hi <-> r ∈ visible hidden 0 l /\ lo <= fst r < hi.
Proof. unfold slice. rewrite filter_rows_in. unfold in_range. by rewrite andb_true_iff, Z.leb_le, Z.ltb_lt. Qed.

Lemma slice_range lo hi r : r ∈ slice l hidden lo hi -> lo <= fst r < hi /\ 0 <= fst r < len l.
Proof. intros [Hr ?]%in_slice. apply visible_range in Hr. lia. Qed.

Lemma slice_clip lo hi : slice l hidden lo hi = slice l hidden lo (Z.min hi (len l)).
Proof.
  apply List.filter_ext_in. intros r Hr%list_elem_of_In%visible_range. unfold in_range. lia.
Qed.

Lemma page_slice start count : 0 <= start -> 0 <= count ->
  visible hidden start (piece l start count) = slice l hidden start (start + count).
Proof.
  intros Hs Hc. unfold piece, slice. destruct (decide (len l <= start)) as [Hl|Hl].
  - rewrite drop_ge, take_nil by (unfold len in Hl; lia). symmetry. apply filter_none. intros r Hr%visible_range.
    unfold in_range. lia.
  - rewrite <- (take_drop (Z.to_nat start) l) at 2.
    rewrite <- (take_drop (Z.to_nat count) (drop (Z.to_nat start) l)) at 2. rewrite !visible_app, !List.filter_app.
    assert (len (take (Z.to_nat start) l) = start) as Ht by (unfold len in *; rewrite length_take; lia).
    rewrite Ht. rewrite (filter_none _ (visible _ 0 _)), (filter_all _ (visible _ (0 + start) _)).
    + replace (0 + start) with start by lia. cbn [app]. set (q := drop _ (drop _ l)).
      rewrite filter_none, app_nil_r; [done|].
      intros r Hr. destruct (decide (q = [])) as [->|Hq]; [cbn in Hr; by apply not_elem_of_nil in Hr|].
      assert (len (take (Z.to_nat count) (drop (Z.to_nat start) l)) = count) as Hk.
      { unfold len. rewrite length_take, length_drop. destruct (decide (Z.to_nat count <= length l - Z.to_nat start)%nat); [lia|].
        destruct Hq. apply drop_ge. rewrite length_drop. lia. }
      apply visible_range in Hr. unfold in_range. rewrite Hk in Hr. lia.
    + intros r Hr%visible_range. unfold in_range. assert (len (take (Z.to_nat count) (drop (Z.to_nat start) l)) <= count)
        by (unfold len; rewrite length_take; lia). lia.
    + intros r Hr%visible_range. unfold in_range. lia.
Qed.

(** ** Halves *)

Lemma sorted_cut rows k r : sorted_rows rows -> rows !! k = Some r ->
  List.filter (fun x => fst r <=? fst x) rows = drop k rows
  /\ List.filter (fun x => fst x <? fst r + 1) rows = take (S k) rows.
Proof.
  intros Hs. revert k. induction Hs as [|a rows Hs IH Ha]; intros k Hk; [done|]. rewrite Forall_forall in Ha.
  cbn [List.filter]. destruct k as [|k].
  - injection Hk as <-. rewrite Z.leb_refl. destruct (Z.ltb_spec (fst a) (fst a + 1)); [|lia].
    rewrite filter_all by (intros x Hx%Ha; lia). rewrite filter_none by (intros x Hx%Ha; lia). done.
  - destruct (IH k Hk) as [-> ->]. assert (fst a < fst r) as Hlt by (apply Ha; by eapply list_elem_of_lookup_2).
    destruct (Z.leb_spec (fst r) (fst a)), (Z.ltb_spec (fst a) (fst r + 1)); try lia. done.
Qed.

Lemma slice_drop lo hi k r : slice l hidden lo hi !! k = Some r -> drop k (slice l hidden lo hi) = slice l hidden (fst r) hi.
Proof.
  intros Hk. destruct (sorted_cut _ _ _ (slice_sorted lo hi) Hk) as [<- _]. unfold slice at 1. rewrite filter_filter.
  apply List.filter_ext. intros x. assert (lo <= fst r) by (apply list_elem_of_lookup_2, slice_range in Hk; lia).
  unfold in_range. lia.
Qed.

Lemma slice_take lo hi k r : slice l hidden lo hi !! k = Some r -> take (S k) (slice l hidden lo hi) = slice l hidden lo (fst r + 1).
Proof.
  intros Hk. destruct (sorted_cut _ _ _ (slice_sorted lo hi) Hk) as [_ <-]. unfold slice at 1. rewrite filter_filter.
  apply List.filter_ext. intros x. assert (fst r < hi) by (apply list_elem_of_lookup_2, slice_range in Hk; lia).
  unfold in_range. lia.
Qed.

(** ** Pages *)

Context (Hok : listing_ok l).

Lemma visible_item p r items : r ∈ visible hidden p items ->
  exists i m, items !! i = Some m /\ fst r = p + Z.of_nat i /\ card_of m = Some (snd r).
Proof.
  revert p. induction items as [|m items IH]; intros p; cbn [visible]; [intros H; by apply not_elem_of_nil in H|].
  assert (r ∈ visible hidden (p + 1) items -> exists i m', (m :: items) !! i = Some m'
            /\ fst r = p + Z.of_nat i /\ card_of m' = Some (snd r)) as Htl.
  { intros (i & m' & Hi & Hp & Hc)%IH. exists (S i), m'. split_and!; [done|lia|done]. }
  repeat case_match; try done. intros [->|?]%elem_of_cons; [|auto]. exists 0%nat, m. split_and!; [done|cbn; lia|done].
Qed.

Lemma same_key_same_place a b : a ∈ visible hidden 0 l -> b ∈ visible hidden 0 l -> rk (snd a) = rk (snd b) -> fst a = fst b.
Proof.
  intros (i & m & Hi & -> & Hc)%visible_item (j & m' & Hj & -> & Hc')%visible_item Hk. destruct Hok as [Hn Hcards _].
  rewrite (Hcards m _) in Hk by (done || by eapply list_elem_of_lookup_2).
  rewrite (Hcards m' _) in Hk by (done || by eapply list_elem_of_lookup_2).
  f_equal. f_equal. eapply NoDup_lookup; [exact Hn|by rewrite list_lookup_fmap, Hi|].
  rewrite list_lookup_fmap, Hj. cbn. by rewrite Hk.
Qed.

Lemma new_key lo hi p c : (p, c) ∈ visible hidden 0 l -> ~ lo <= p < hi -> has_key (slice l hidden lo hi) (rk c) = false.
Proof.
  intros Hp Hout. apply not_true_iff_false. intros (r & Hr%list_elem_of_In & Hk%bool_decide_eq_true)%existsb_exists.
  apply in_slice in Hr as [Hr Hrange]. apply Hout. pose proof (same_key_same_place _ _ Hr Hp Hk). cbn in *. lia.
Qed.

Lemma slice_step pos m items k : 0 <= pos -> piece l pos k = m :: items ->
  slice l hidden pos (pos + 1) = visible hidden pos [m] /\ items = piece l (pos + 1) (k - 1) /\ 1 <= k.
Proof.
  intros Hp Hm. assert (1 <= k) as Hk.
  { destruct (decide (1 <= k)); [done|]. unfold piece in Hm. by rewrite (Z2Nat.nonpos k) in Hm by lia. }
  assert (drop (Z.to_nat pos) l !! 0%nat = Some m) as H0.
  { unfold piece in Hm. assert (take (Z.to_nat k) (drop (Z.to_nat pos) l) !! 0%nat = Some m) as H0 by by rewrite Hm.
    rewrite lookup_take in H0. by case_decide. }
  split_and!; [| |done].
  - rewrite <- page_slice by lia. unfold piece. change (Z.to_nat 1) with 1%nat.
    destruct (drop (Z.to_nat pos) l) as [|x tl]; [done|]. injection H0 as ->. done.
  - unfold piece in *. replace (Z.to_nat (pos + 1)) with (Z.to_nat pos + 1)%nat by lia.
    rewrite <- drop_drop. destruct (drop (Z.to_nat pos) l) as [|x tl]; [done|].
    replace (Z.to_nat k) with (S (Z.to_nat (k - 1))) in Hm by lia. by injection Hm as _ <-.
Qed.

Lemma take_forward_spec keep_from lo items : forall pos k end_, 0 <= pos -> lo <= keep_from ->
  items = piece l pos k -> len (slice l hidden lo (Z.max keep_from pos)) < MAX_SHELF_ITEMS ->
  let '(rows', end') := take_forward hidden keep_from pos items (slice l hidden lo (Z.max keep_from pos)) end_ in
  end' = (if decide (items = []) then end_ else end') /\ (items = [] -> rows' = slice l hidden lo (Z.max keep_from pos))
  /\ (items <> [] -> rows' = slice l hidden lo (Z.max keep_from end') /\ pos < end' <= pos + len items
        /\ len rows' <= MAX_SHELF_ITEMS /\ (end' = pos + len items \/ len rows' = MAX_SHELF_ITEMS /\ keep_from < end')).
Proof.
  induction items as [|m items IH]; intros pos k end_ Hpos Hlo Hit Hlen; [done|]. cbn [take_forward].
  destruct (slice_step pos m items k Hpos (eq_sym Hit)) as (Hone & Hitems & Hk).
  assert (forall rows, rows = slice l hidden lo (Z.max keep_from (pos + 1)) -> len rows < MAX_SHELF_ITEMS ->
    let '(rows', end') := take_forward hidden keep_from (pos + 1) items rows (pos + 1) in
    end' = (if decide (m :: items = []) then end_ else end') /\ (m :: items = [] -> rows' = slice l hidden lo (Z.max keep_from pos))
    /\ (m :: items <> [] -> rows' = slice l hidden lo (Z.max keep_from end') /\ pos < end' <= pos + len (m :: items)
        /\ len rows' <= MAX_SHELF_ITEMS
        /\ (end' = pos + len (m :: items) \/ len rows' = MAX_SHELF_ITEMS /\ keep_from < end'))) as Hgo.
  { intros rows -> Hl. specialize (IH (pos + 1) (k - 1) (pos + 1) ltac:(lia) Hlo Hitems Hl).
    destruct (take_forward _ _ _ _ _ _) as [rows' end']. destruct IH as (He & Hnil & Hne).
    split; [done|]. split; [done|]. intros _. unfold len in *. cbn [length]. rewrite Nat2Z.inj_succ.
    destruct items as [|m' items].
    - rewrite decide_True in He by done. subst end'. rewrite Hnil by done. cbn [length Z.of_nat]. split_and!; try done; lia.
    - destruct Hne as (-> & He1 & Hl1 & Hor); [done|]. split_and!; try done; lia. }
  assert (slice l hidden lo (Z.max keep_from pos) = slice l hidden lo (Z.max keep_from (pos + 1)) ->
    let '(rows', end') := take_forward hidden keep_from (pos + 1) items (slice l hidden lo (Z.max keep_from pos)) (pos + 1) in
    end' = (if decide (m :: items = []) then end_ else end') /\ (m :: items = [] -> rows' = slice l hidden lo (Z.max keep_from pos))
    /\ (m :: items <> [] -> rows' = slice l hidden lo (Z.max keep_from end') /\ pos < end' <= pos + len (m :: items)
        /\ len rows' <= MAX_SHELF_ITEMS
        /\ (end' = pos + len (m :: items) \/ len rows' = MAX_SHELF_ITEMS /\ keep_from < end'))) as Hskip
    by (intros Heq; apply Hgo; [exact Heq|exact Hlen]).
  destruct (Z.ltb_spec pos keep_from) as [Hlt|Hge]; [apply Hskip; f_equal; lia|].
  assert (slice l hidden lo (Z.max keep_from (pos + 1)) = slice l hidden lo (Z.max keep_from pos) ++ visible hidden pos [m]) as Hadd.
  { rewrite <- Hone, !Z.max_r by lia. apply slice_split. lia. }
  cbn [visible] in Hadd. destruct (card_of m) as [c|] eqn:Hc; [|apply Hskip; by rewrite Hadd, app_nil_r].
  destruct (is_hidden hidden c) eqn:Hhid; [cbn; apply Hskip; by rewrite Hadd, app_nil_r|]. cbn [orb].
  assert ((pos, c) ∈ visible hidden 0 l) as Hin.
  { assert ((pos, c) ∈ slice l hidden pos (pos + 1)) as Hs.
    { rewrite Hone. cbn. rewrite Hc, Hhid. by constructor. }
    by apply in_slice in Hs as [? _]. }
  rewrite new_key with (p := pos) by (done || lia). destruct (Z.eqb_spec (len (slice l hidden lo (Z.max keep_from pos) ++ [(pos, c)])) MAX_SHELF_ITEMS) as [Hfull|Hroom].
  - split; [done|]. split; [done|]. intros _. unfold len at 1. cbn [length].
    split_and!; [by rewrite Hadd|lia|lia|lia|right; split; [done|lia]].
  - apply Hgo; [by rewrite Hadd|]. unfold len in *. rewrite length_app in *. cbn [length] in *. lia.
Qed.

Lemma take_backward_spec keep_from keep_to hi items : forall pos k, 0 <= pos -> keep_from <= keep_to <= hi ->
  items = piece l pos k ->
  take_backward hidden keep_from keep_to pos items (slice l hidden keep_to hi)
    (slice l hidden keep_from (Z.min keep_to (Z.max keep_from pos)))
  = slice l hidden keep_from (Z.min keep_to (Z.max keep_from (pos + len items))).
Proof.
  induction items as [|m items IH]; intros pos k Hpos Hk Hit; cbn [take_backward]; [unfold len; cbn; do 3 f_equal; lia|].
  destruct (slice_step pos m items k Hpos (eq_sym Hit)) as (Hone & Hitems & _).
  specialize (IH (pos + 1) (k - 1) ltac:(lia) Hk Hitems). unfold len in *. cbn [length]. rewrite Nat2Z.inj_succ.
  replace (pos + Z.succ (Z.of_nat (length items))) with (pos + 1 + Z.of_nat (length items)) by lia.
  rewrite <- IH. f_equal.
  destruct ((keep_from <=? pos) && (pos <? keep_to)) eqn:Hin; [|f_equal; lia].
  assert (keep_from <= pos < keep_to) as Hr by lia. clear Hin.
  replace (Z.min keep_to (Z.max keep_from pos)) with pos by lia.
  replace (Z.min keep_to (Z.max keep_from (pos + 1))) with (pos + 1) by lia.
  rewrite (slice_split keep_from pos (pos + 1)), Hone by lia. cbn [visible].
  destruct (card_of m) as [c|] eqn:Hc; [|by rewrite app_nil_r].
  destruct (is_hidden hidden c) eqn:Hhid; [by rewrite app_nil_r|]. cbn [orb].
  assert ((pos, c) ∈ visible hidden 0 l) as Hpc.
  { assert ((pos, c) ∈ slice l hidden pos (pos + 1)) as Hs by (rewrite Hone; cbn; rewrite Hc, Hhid; by constructor).
    by apply in_slice in Hs as [? _]. }
  assert (has_key (slice l hidden keep_to hi ++ slice l hidden keep_from pos) (rk c) = false) as ->; [|done].
  unfold has_key. rewrite existsb_app. fold (has_key (slice l hidden keep_to hi) (rk c)).
  fold (has_key (slice l hidden keep_from pos) (rk c)). by rewrite !(new_key _ _ pos) by (done || lia).
Qed.

Lemma piece_len start count : 0 <= start -> 0 <= count ->
  len (piece l start count) = Z.max 0 (Z.min count (len l - start)).
Proof. intros. unfold len, piece. rewrite length_take, length_drop. lia. Qed.

Lemma slice_len lo hi : 0 <= lo -> len (slice l hidden lo hi) <= Z.max 0 (hi - lo).
Proof.
  intros Hlo. destruct (decide (hi <= lo)); [rewrite slice_empty by done; change (@len Row []) with 0; lia|].
  replace hi with (lo + (hi - lo)) at 1 by lia. rewrite <- page_slice by lia.
  assert (forall p items, len (visible hidden p items) <= len items) as Hv.
  { intros p items. revert p. induction items as [|m items IH]; intros p; [done|]. unfold len in *. cbn [visible length].
    specialize (IH (p + 1)). repeat case_match; cbn [length]; lia. }
  specialize (Hv lo (piece l lo (hi - lo))). rewrite piece_len in Hv by lia. lia.
Qed.

(** ** Finding the edge *)

Lemma index_of_Some {A} (p : A -> bool) items i : index_of p items = Some i ->
  exists m, 0 <= i /\ items !! Z.to_nat i = Some m /\ p m = true.
Proof.
  revert i. induction items as [|m items IH]; intros i; [done|]. cbn. destruct (p m) eqn:E.
  - intros [= <-]. exists m. split_and!; [lia|done|done].
  - intros (j & (m' & Hj & Hm & Hp)%IH & ->)%fmap_Some. exists m'. split_and!; [lia| |done].
    by replace (Z.to_nat (Z.succ j)) with (S (Z.to_nat j)) by lia.
Qed.

Lemma index_of_None {A} (p : A -> bool) items : index_of p items = None -> forall m, m ∈ items -> p m = false.
Proof.
  induction items as [|x items IH]; intros Hn m Hm; [by apply not_elem_of_nil in Hm|]. cbn in Hn.
  destruct (p x) eqn:E; [done|]. apply fmap_None in Hn. apply elem_of_cons in Hm as [->|Hm]; auto.
Qed.

Lemma piece_lookup start count i : 0 <= start -> 0 <= i < count ->
  piece l start count !! Z.to_nat i = l !! Z.to_nat (start + i).
Proof.
  intros. unfold piece. rewrite lookup_take_lt, lookup_drop by lia. f_equal. lia.
Qed.

Lemma find_key_piece start count o t p m : 0 <= start -> 0 <= count -> 0 <= p -> l !! Z.to_nat p = Some m ->
  find_key (mk_container o t (piece l start count)) (rating_key m)
  = if (start <=? p) && (p <? start + count) then Some (p - start) else None.
Proof.
  intros Hs Hc Hp Hm. unfold find_key. cbn [mc_metadata]. destruct (index_of _ _) as [i|] eqn:E.
  - apply index_of_Some in E as (m' & Hi & Hm' & Hk%bool_decide_eq_true).
    assert (i < count) as Hic.
    { apply lookup_lt_Some in Hm'. unfold piece in Hm'. rewrite length_take in Hm'. lia. }
    rewrite piece_lookup in Hm' by lia.
    assert (Z.to_nat (start + i) = Z.to_nat p) as Heq.
    { eapply NoDup_lookup; [apply (ls_keys _ Hok)|by rewrite list_lookup_fmap, Hm'|by rewrite list_lookup_fmap, Hm; cbn; rewrite Hk]. }
    assert (p = start + i) as -> by lia.
    destruct (Z.leb_spec start (start + i)), (Z.ltb_spec (start + i) (start + count)); cbn; try lia. f_equal. lia.
  - destruct (Z.leb_spec start p), (Z.ltb_spec p (start + count)); cbn; try done. exfalso.
    assert (m ∈ piece l start count) as Hin.
    { apply list_elem_of_lookup. exists (Z.to_nat (p - start)). rewrite piece_lookup by lia.
      by replace (start + (p - start)) with p by lia. }
    apply (index_of_None _ _ E) in Hin. by apply bool_decide_eq_false in Hin.
Qed.

Lemma delta_exact p q : 0 <= p < 2147483648 -> 0 <= q < 2147483648 -> delta p q = p - q.
Proof.
  intros. assert (forall z, -2147483648 <= z < 2147483648 -> i32_wrap z = z) as Hw
    by (intros z Hz; unfold i32_wrap; rewrite Z.mod_small; lia).
  unfold delta. rewrite (Hw p), (Hw q), Hw; lia.
Qed.

Section Serving.
Context {St : Type} (fetch : Z -> Z -> Reading St MediaContainer) (Hserve : serves l fetch).

Lemma page_served start count s : 0 <= start -> 0 <= count -> exists total s', (total = 0 \/ total = len l)
  /\ page fetch start count s = (Answered (mk_container start total (piece l start count)), s').
Proof.
  intros Hs Hc. destruct (Hserve start count s Hs Hc) as (t & s' & Ht & Hf). exists t, s'. split; [done|].
  unfold page, read_bind. rewrite Hf. cbn. by rewrite Z.eqb_refl.
Qed.

(** The far side of the edge's old position. *)
Definition far_side (before : bool) (q : Z) : Z * Z :=
  if before then (q + 1, MAX_SHELF_ITEMS) else (Z.max 0 (q - MAX_SHELF_ITEMS), q - Z.max 0 (q - MAX_SHELF_ITEMS)).
Definition within (start count p : Z) : bool := (start <=? p) && (p <? start + count).

Lemma relocate_spec before q p m start count o t s : 0 <= start -> 0 <= count -> 0 <= q < 2147483000 ->
  0 <= p -> l !! Z.to_nat p = Some m ->
  exists at_ s', relocate fetch (mk_edge q (rating_key m)) before (mk_container o t (piece l start count)) start s = (Answered at_, s')
    /\ at_ = (if within start count p then InPage (p - q)
              else if within (fst (far_side before q)) (snd (far_side before q)) p then Beyond (p - q) else Lost).
Proof.
  intros Hs Hc Hq Hp Hm. assert (p < 2147483000) as Hp'.
  { apply lookup_lt_Some in Hm. pose proof (ls_len _ Hok). unfold len in *. lia. }
  unfold relocate. cbn [eg_key eg_position]. rewrite (find_key_piece _ _ _ _ p) by done. fold (within start count p).
  destruct (within start count p) eqn:Hin.
  - exists (InPage (p - q)), s. split; [|done]. unfold done. do 3 f_equal. rewrite delta_exact; [lia| |lia]. lia.
  - unfold usize_saturating_sub. fold (far_side before q).
    replace (if before then _ else _) with (far_side before q) by done.
    destruct (far_side before q) as [fs fc] eqn:Hfar. cbn [fst snd].
    assert (0 <= fs /\ 0 <= fc) as [Hfs Hfc].
    { unfold far_side, MAX_SHELF_ITEMS in Hfar. destruct before; injection Hfar as <- <-; lia. }
    destruct (Z.eqb_spec fc 0) as [->|Hne].
    + exists Lost, s. split; [done|]. unfold within.
      destruct (Z.leb_spec fs p), (Z.ltb_spec p (fs + 0)); cbn; done || lia.
    + destruct (page_served fs fc s Hfs Hfc) as (t' & s' & _ & Hpage). unfold read_bind. rewrite Hpage.
      rewrite (find_key_piece _ _ _ _ p) by done. fold (within fs fc p). destruct (within fs fc p).
      * exists (Beyond (p - q)), s'. split; [|done]. unfold done. do 3 f_equal. rewrite delta_exact; lia.
      * by exists Lost, s'.
Qed.

(** ** Adding a page *)

(** A walk whose rows are a piece of the listing and that reads on where they end. *)
Record good (before : bool) (w : Walk) : Prop := mk_good {
  gd_rows : wk_rows w = slice l hidden (wk_offset w) (wk_end w);
  gd_bounds : 0 <= wk_offset w <= wk_end w /\ wk_end w <= len l;
  gd_len : len (wk_rows w) <= MAX_SHELF_ITEMS;
  gd_carried : wk_carried w = false;
  gd_cursor : wk_cursor w = if before then wk_offset w else wk_end w
}.

Context (ask : Ask) (Hhidden : ask_hidden ask = hidden).

Lemma total_exact t : t = 0 \/ t = len l -> u32_wrap (Z.max t 0) = t.
Proof. pose proof (ls_len _ Hok). unfold len in *. intros [->| ->]; unfold u32_wrap; [done|]. rewrite Z.mod_small; lia. Qed.

Lemma take_piece start count : 0 <= start -> 0 <= count ->
  take (Z.to_nat (Z.min (len (piece l start count)) count)) (piece l start count) = piece l start count.
Proof. intros. apply take_ge. pose proof (piece_len start count). unfold len in *. lia. Qed.

(** Where a forward step leaves the walk. *)
Definition forward_from (w w' : Walk) : Prop := good false w' /\ wk_offset w' = wk_offset w /\ wk_end w <= wk_end w'.

Lemma add_forward start size count t e_now w : ask_before ask = false -> t = 0 \/ t = len l ->
  wk_rows w = slice l hidden (wk_offset w) (wk_end w) -> 0 <= wk_offset w <= wk_end w -> wk_end w <= len l ->
  len (wk_rows w) < MAX_SHELF_ITEMS -> 0 <= start -> 0 < count ->
  match e_now with Some c => c + 1 = wk_end w /\ start <= c < start + count | None => start = wk_end w end ->
  exists w', forward_from w w' /\
    (add_page ask start size count (mk_container start t (piece l start count)) e_now w = Stops w'
     /\ wk_more w' = false /\ wk_end w' = len l
     \/ add_page ask start size count (mk_container start t (piece l start count)) e_now w = Goes_on w'
        /\ wk_more w' = true /\ (e_now = None -> wk_end w < wk_end w')
        /\ (len (wk_rows w') = MAX_SHELF_ITEMS \/ wk_end w' = len l \/ start + count <= wk_end w')).
Proof.
  intros Hb Ht Hrows Hoff Hend Hlen Hs Hc He. unfold add_page. rewrite Hb, Hhidden. cbn [mc_metadata mc_total_size].
  rewrite total_exact, take_piece by (done || lia). pose proof (piece_len start count ltac:(lia) ltac:(lia)) as Hn.
  set (items := piece l start count) in *.
  assert (match e_now with Some corrected => corrected + 1 | None => start end = wk_end w) as -> by (destruct e_now; lia).
  assert (start <= wk_end w <= start + Z.max 0 (Z.min count (len l - start))) as Hse by (destruct e_now; lia).
  pose proof (take_forward_spec (wk_end w) (wk_offset w) items start count (wk_end w) Hs ltac:(lia) eq_refl) as Htf.
  rewrite Z.max_l in Htf by lia. rewrite <- Hrows in Htf. specialize (Htf Hlen).
  destruct (take_forward _ _ _ _ _ _) as [rows' end']. destruct Htf as (He' & Hnil & Hne).
  rewrite Z.min_l by lia. pose proof (ls_len _ Hok) as Hll.
  assert (usize_sat (start + len items) = start + len items) as -> by (unfold usize_sat, usize_max, u32_max; lia).
  destruct (decide (items = [])) as [Hi|Hi].
  - rewrite Hi in *. subst end'. rewrite Hnil by done. change (len []) with 0 in *. cbn [Z.eqb Z.ltb andb].
    exists (mk_walk (wk_rows w) (wk_offset w) start t false start false). assert (start = wk_end w) as -> by lia.
    split; [|left; split_and!; [done|done|cbn; lia]]. split; [|split; [done|cbn; lia]].
    constructor; cbn; try done; lia.
  - destruct (Hne Hi) as (-> & Hpos & Hl' & Hor).
    assert (0 < len items) as Hgot by lia. destruct (Z.eqb_spec (len items) 0) as [|_]; [lia|].
    destruct (Z.ltb_spec 0 (len items)) as [_|]; [|lia]. cbn [andb].
    rewrite (Z.max_r (wk_end w) end') in * by lia.
    set (more := if 0 <? t then _ else _).
    exists (mk_walk (slice l hidden (wk_offset w) end') (wk_offset w) end' t more end' false).
    split; [split; [constructor; cbn; try done; lia|split; [done|cbn; lia]]|].
    cbn [wk_more wk_end wk_rows]. destruct more eqn:Hm; [right|left]; split_and!; try done.
    + intros ->. lia.
    + destruct Hor as [->|[? _]]; [|by left]. rewrite Hn. lia.
    + subst more. destruct Ht as [->| ->]; [|destruct (0 <? len l) eqn:E0; lia]. cbn in Hm. lia.
Qed.

Lemma add_backward start size count t e_now w : ask_before ask = true -> t = 0 \/ t = len l ->
  wk_rows w = slice l hidden (wk_offset w) (wk_end w) -> 0 <= wk_offset w <= wk_end w -> wk_end w <= len l ->
  0 <= start <= wk_offset w -> 0 <= size <= MAX_SHELF_ITEMS - len (wk_rows w) ->
  match e_now with
  | Some c => c = wk_offset w /\ start <= c < start + count
  | None => start + size = wk_offset w /\ count = size
  end ->
  exists w', add_page ask start size count (mk_container start t (piece l start count)) e_now w = Goes_on w'
    /\ good true w' /\ wk_end w' = wk_end w /\ wk_offset w' <= wk_offset w /\ (e_now = None -> wk_offset w' = start).
Proof.
  intros Hb Ht Hrows Hoff Hend Hs Hsize He. unfold add_page. rewrite Hb, Hhidden. cbn [mc_metadata mc_total_size].
  assert (0 <= count) as Hc by (destruct e_now; lia).
  rewrite total_exact, take_piece by (done || lia). pose proof (piece_len start count ltac:(lia) ltac:(lia)) as Hn.
  assert (exists kf, match e_now with
                     | Some corrected => (Z.max (usize_saturating_sub corrected size) (Z.min start corrected), corrected)
                     | None => (start, start + size)
                     end = (kf, wk_offset w) /\ start <= kf <= wk_offset w /\ wk_offset w - size <= kf
                     /\ (e_now = None -> kf = start)) as (kf & -> & Hkf & Hks & Hkn).
  { destruct e_now as [c|]; [exists (Z.max (usize_saturating_sub c size) (Z.min start c))|exists start];
      unfold usize_saturating_sub; destruct He as [He1 He2]; (split; [f_equal; lia|split_and!; try done; lia]). }
  pose proof (take_backward_spec kf (wk_offset w) (wk_end w) (piece l start count) start count ltac:(lia) ltac:(lia) eq_refl) as Htb.
  rewrite (slice_empty kf (Z.min (wk_offset w) (Z.max kf start))), <- Hrows in Htb by lia. rewrite Htb.
  assert (wk_offset w <= start + len (piece l start count)) as Hcover by (rewrite Hn; destruct e_now; lia).
  rewrite Z.min_l by lia. eexists. split; [reflexivity|]. split; [|split; [done|split; [cbn; lia|exact Hkn]]].
  pose proof (slice_len kf (wk_offset w) ltac:(lia)) as Hsl.
  constructor; cbn; try done; try lia.
  - rewrite Hrows at 1. symmetry. apply slice_split. lia.
  - unfold len in *. rewrite length_app. lia.
Qed.

(** ** Moving the window *)

Lemma shift_rows_back d rows : (forall r, r ∈ rows -> 0 <= fst r <= usize_max) ->
  mapM (fun '(p, c) => p ← usize_checked (p + d); Some (p, c)) (shift_rows (- d) rows) = Some rows.
Proof.
  induction rows as [|[p c] rows IH]; intros Hr; [done|]. cbn. replace (p + - d + d) with p by lia.
  assert (usize_checked p = Some p) as ->.
  { specialize (Hr (p, c) ltac:(constructor)). cbn in Hr. unfold usize_checked, checked.
    destruct (Z.leb_spec 0 p), (Z.leb_spec p usize_max); cbn; done || lia. }
  cbn. fold (shift_rows (- d) rows). rewrite IH by (intros r ?; apply Hr; by constructor). done.
Qed.

(** The positions are those of a listing that has moved by [d] since. *)
Definition stale (d lo hi : Z) (w : Walk) : Prop :=
  wk_rows w = shift_rows (- d) (slice l hidden lo hi) /\ wk_offset w = lo - d /\ wk_end w = hi - d.

Lemma moved_spec d lo hi next w : stale d lo hi w -> 0 <= lo <= len l -> 0 <= hi <= len l -> 0 <= next <= len l ->
  moved d (next - d) w
  = Some (w <| wk_rows := slice l hidden lo hi |> <| wk_offset := lo |> <| wk_end := hi |>, next).
Proof.
  intros (Hr & Ho & He) Hlo Hhi Hn. pose proof (ls_len _ Hok). unfold moved, shift. rewrite Hr, Ho, He.
  rewrite shift_rows_back.
  - assert (forall z, 0 <= z <= len l -> usize_checked z = Some z) as Hz.
    { intros z Hz. unfold usize_checked, checked. unfold usize_max, u32_max.
      destruct (Z.leb_spec 0 z), (Z.leb_spec z 4294967295); cbn; done || lia. }
    cbn. replace (lo - d + d) with lo by lia. replace (hi - d + d) with hi by lia. replace (next - d + d) with next by lia.
    rewrite !Hz by done. done.
  - intros r Hin%slice_range. unfold usize_max, u32_max. lia.
Qed.

(** ** Reading on *)

Lemma read_forward edge w s : ask_before ask = false -> good false w -> len (wk_rows w) < MAX_SHELF_ITEMS ->
  exists w' s', forward_from w w' /\
    (read_page fetch ask edge w s = (Answered (Stops w'), s') /\ wk_more w' = false /\ wk_end w' = len l
     \/ read_page fetch ask edge w s = (Answered (Goes_on w'), s') /\ wk_more w' = true /\ wk_end w < wk_end w'
        /\ (len (wk_rows w') = MAX_SHELF_ITEMS \/ wk_end w' = len l \/ wk_end w + MAX_SHELF_ITEMS <= wk_end w')).
Proof.
  intros Hb [Hr Hbd Hl Hc Hcur] Hlt. unfold read_page. rewrite Hb, Hc, Hcur. unfold read_bind.
  destruct (page_served (wk_end w) (MAX_SHELF_ITEMS + 0) s) as (t & s' & Ht & ->); [lia|unfold MAX_SHELF_ITEMS; lia|].
  destruct (add_forward (wk_end w) MAX_SHELF_ITEMS (MAX_SHELF_ITEMS + 0) t None (w <| wk_carried := false |>) Hb Ht)
    as (w' & Hfrom & Hcases); cbn; try done; try (unfold MAX_SHELF_ITEMS; lia).
  exists w', s'. split; [exact Hfrom|]. destruct Hcases as [(-> & Hm & He)|(-> & Hm & Hlt' & Hor)]; [by left|right].
  split; [done|]. split; [done|]. split; [by apply Hlt'|]. cbn in Hor. unfold MAX_SHELF_ITEMS in *. lia.
Qed.

Lemma read_backward edge w s : ask_before ask = true -> good true w -> len (wk_rows w) < MAX_SHELF_ITEMS ->
  exists w' s', read_page fetch ask edge w s = (Answered (Goes_on w'), s')
    /\ good true w' /\ wk_end w' = wk_end w /\ wk_offset w' <= wk_offset w /\ (0 < wk_offset w -> wk_offset w' < wk_offset w).
Proof.
  intros Hb [Hr Hbd Hl Hc Hcur] Hlt. unfold read_page. rewrite Hb, Hc, Hcur. unfold read_bind.
  set (size := Z.min _ _). assert (0 <= size) as Hs by (unfold size; lia).
  assert (size <= wk_offset w /\ size <= MAX_SHELF_ITEMS - len (wk_rows w)) as [Hs1 Hs2] by (unfold size; lia).
  destruct (page_served (wk_offset w - size) (size + 0) s) as (t & s' & Ht & ->); [lia|lia|].
  destruct (add_backward (wk_offset w - size) size (size + 0) t None (w <| wk_carried := false |>) Hb Ht)
    as (w' & -> & Hg & He & Ho & Hn); cbn; try done; try lia. exists w', s'. split_and!; try done.
  intros Hpos. rewrite Hn by done. unfold size. lia.
Qed.

Lemma grown_len w w' : good false w -> good false w' -> wk_offset w' = wk_offset w -> wk_end w <= wk_end w' ->
  len (wk_rows w) <= len (wk_rows w').
Proof.
  intros [Hr Hb _ _ _] [Hr' Hb' _ _ _] Ho He. rewrite Hr, Hr', Ho, (slice_split _ (wk_end w) (wk_end w')) by lia.
  unfold len. rewrite length_app. lia.
Qed.

Lemma loop_forward edge minimum_end fuel : forall requests w s, ask_before ask = false -> good false w -> 0 <= requests ->
  (Z.to_nat (8 - requests) + Z.to_nat (minimum_end - wk_end w) < fuel)%nat ->
  wk_more w = true \/ requests < 8 /\ len (wk_rows w) < MAX_SHELF_ITEMS ->
  exists w' s', read_pages fetch fuel ask edge minimum_end requests w s = (Answered (Some w'), s')
    /\ forward_from w w' /\ (wk_more w' = false -> wk_end w' = len l)
    /\ (len (wk_rows w') = MAX_SHELF_ITEMS \/ wk_end w' = len l \/ wk_end w + 24 * (8 - requests) <= wk_end w' /\ minimum_end <= wk_end w').
Proof.
  induction fuel as [|fuel IH]; intros requests w s Hb Hg Hreq Hfuel Hread; [lia|]. cbn [read_pages]. rewrite Hb.
  cbn [negb andb]. rewrite (gd_cursor _ _ Hg). unfold REQUESTS_PER_ASK.
  assert (forward_from w w) as Hself by (split; [done|split; [done|lia]]).
  destruct ((requests <? 8) || (wk_end w <? minimum_end)) eqn:Hgo; cbn [negb].
  - destruct (Z.leb_spec MAX_SHELF_ITEMS (len (wk_rows w))) as [Hfull|Hroom]; cbn [orb].
    + exists w, s. split; [done|]. pose proof (gd_len _ _ Hg). split_and!; try done; [|left; lia].
      destruct Hread as [Hm|]; [congruence|lia].
    + destruct (read_forward edge w s Hb Hg Hroom) as (w1 & s1 & (Hg1 & Ho1 & He1) & [(Hrd & Hm & He)|(Hrd & Hm & Hlt' & Hor)]);
        unfold read_bind; rewrite Hrd.
      * exists w1, s1. split_and!; try done. by right; left.
      * destruct (IH (requests + 1) w1 s1 Hb Hg1 ltac:(lia) ltac:(lia) ltac:(by left)) as (w2 & s2 & -> & (Hg2 & Ho2 & He2) & Hm2 & Hor2).
        exists w2, s2. split; [done|]. split; [split; [done|split; [congruence|lia]]|]. split; [done|].
        destruct Hor2 as [?|[?|?]]; [by left|by right; left|]. destruct Hor as [Hf|[Hf|Hf]].
        -- left. apply Z.le_antisymm; [by apply gd_len with false|]. rewrite <- Hf. by apply grown_len.
        -- right. left. pose proof (gd_bounds _ _ Hg2). lia.
        -- right. right. unfold MAX_SHELF_ITEMS in Hf. lia.
  - exists w, s. split; [done|]. split_and!; try done; [|right; right; lia].
    destruct Hread as [Hm|]; [congruence|lia].
Qed.

Lemma loop_backward edge minimum_end fuel : forall requests w s, ask_before ask = true -> good true w -> 0 <= requests ->
  (Z.to_nat (8 - requests) < fuel)%nat ->
  exists w' s', read_pages fetch fuel ask edge minimum_end requests w s = (Answered (Some w'), s')
    /\ good true w' /\ wk_end w' = wk_end w /\ wk_offset w' <= wk_offset w
    /\ (requests < 8 -> len (wk_rows w) < MAX_SHELF_ITEMS -> 0 < wk_offset w -> wk_offset w' < wk_offset w).
Proof.
  induction fuel as [|fuel IH]; intros requests w s Hb Hg Hreq Hfuel; [lia|]. cbn [read_pages]. rewrite Hb. cbn [negb andb].
  rewrite orb_false_r. unfold REQUESTS_PER_ASK.
  assert (8 <= requests \/ MAX_SHELF_ITEMS <= len (wk_rows w) \/ wk_offset w = 0 ->
    exists w' s', (@done St _ (Some w)) s = (Answered (Some w'), s') /\ good true w' /\ wk_end w' = wk_end w
    /\ wk_offset w' <= wk_offset w
    /\ (requests < 8 -> len (wk_rows w) < MAX_SHELF_ITEMS -> 0 < wk_offset w -> wk_offset w' < wk_offset w)) as Hstop
    by (intros Hor; exists w, s; split_and!; try done; lia).
  destruct (Z.ltb_spec requests 8); [|apply Hstop; lia]. cbn [negb].
  destruct (Z.leb_spec MAX_SHELF_ITEMS (len (wk_rows w))) as [Hfull|Hroom]; [apply Hstop; lia|]. cbn [orb].
  rewrite (gd_cursor _ _ Hg). destruct (Z.eqb_spec (wk_offset w) 0); [apply Hstop; lia|].
  destruct (read_backward edge w s Hb Hg Hroom) as (w1 & s1 & Hrd & Hg1 & He1 & Ho1 & Hp1). unfold read_bind. rewrite Hrd.
  destruct (IH (requests + 1) w1 s1 Hb Hg1 ltac:(lia) ltac:(lia)) as (w2 & s2 & -> & Hg2 & He2 & Ho2 & _).
  exists w2, s2. split_and!; try done; [congruence|lia|lia].
Qed.

(** ** The edge *)

Lemma slice_item lo hi p c : (p, c) ∈ slice l hidden lo hi -> exists m, l !! Z.to_nat p = Some m /\ rating_key m = rk c.
Proof.
  intros [(i & m & Hi & Hp & Hc)%visible_item _]%in_slice. cbn [fst snd] in *. exists m.
  replace (Z.to_nat p) with i by lia. split; [done|]. symmetry. eapply (ls_cards _ Hok); [by eapply list_elem_of_lookup_2|done].
Qed.

(** A walk brought up to date. *)
Definition caught_up (lo hi : Z) (flow : Flow) : Prop :=
  exists w', flow = Goes_on w' /\ good (ask_before ask) w' /\ wk_offset w' = lo /\ wk_end w' = hi
    /\ len (wk_rows w') < MAX_SHELF_ITEMS.

Lemma catch_up d lo hi n w : stale d lo hi w -> 0 <= lo <= hi -> hi <= len l -> n = (if ask_before ask then lo else hi) ->
  len (slice l hidden lo hi) < MAX_SHELF_ITEMS -> wk_carried w = false ->
  exists w', moved d (n - d) w = Some (w', n) /\ wk_rows w' = slice l hidden lo hi /\ wk_offset w' = lo /\ wk_end w' = hi
    /\ wk_carried w' = false /\ caught_up lo hi (Goes_on (w' <| wk_cursor := n |>)).
Proof.
  intros Hst Hlo Hhi Hn Hlen Hc. rewrite (moved_spec _ lo hi) by (done || (subst n; destruct (ask_before ask); lia)).
  eexists. split; [reflexivity|]. split_and!; try done.
  eexists. split; [reflexivity|]. split; [|done]. constructor; cbn; try done; lia.
Qed.

Lemma check_spec d lo hi p c w s : stale d lo hi w -> 0 <= lo <= hi -> hi <= len l -> 0 <= lo - d -> hi - d < 2147483000 ->
  ask_start ask = (if ask_before ask then lo else hi) - d -> (p, c) ∈ slice l hidden lo hi ->
  len (slice l hidden lo hi) < MAX_SHELF_ITEMS -> wk_carried w = false ->
  (if ask_before ask then p - d =? ask_start ask else p - d + 1 =? ask_start ask) = false ->
  exists flow s', check_edge fetch ask (mk_edge (p - d) (rk c)) w s = (Answered flow, s')
    /\ (flow = Gives_up /\ ~ (-12 <= d <= 12) \/ caught_up lo hi flow).
Proof.
  intros Hst Hlo Hhi Hd1 Hd2 Hstart Hin Hlen Hc Hbeside. unfold check_edge. cbn [eg_position]. rewrite Hbeside.
  destruct (slice_item _ _ _ _ Hin) as (m & Hm & Hk). apply slice_range in Hin as [Hp1 Hp2]. cbn [fst] in *.
  set (sc := if ask_before ask then _ else _). destruct sc as [start count] eqn:Hsc.
  assert (0 <= start /\ 0 <= count /\ (start <= p - d < start + count)
          /\ (forall x, within start count x = false ->
                within (fst (far_side (ask_before ask) (p - d))) (snd (far_side (ask_before ask) (p - d))) x = false ->
                0 <= x -> ~ (p - d - 12 <= x <= p - d + 12))) as (Hs & Hcnt & _ & Hlost).
  { unfold sc, usize_saturating_sub, MAX_SHELF_ITEMS in Hsc. unfold within, far_side, MAX_SHELF_ITEMS.
    destruct (ask_before ask); injection Hsc as <- <-; cbn [fst snd]; split_and!; try lia. }
  unfold read_bind. destruct (page_served start count s Hs Hcnt) as (t & s1 & _ & ->).
  destruct (relocate_spec (ask_before ask) (p - d) p m start count start t s1 Hs Hcnt ltac:(lia) ltac:(lia) Hm) as (at_ & s2 & Hrel & Hat).
  rewrite <- Hk, Hrel. destruct (catch_up d lo hi _ w Hst Hlo Hhi eq_refl Hlen Hc) as (w' & Hmoved & _ & _ & _ & _ & Hup).
  rewrite Hstart.
  destruct (within start count p) eqn:Hw; [|destruct (within (fst _) _ p) eqn:Hfar]; subst at_.
  - replace (p - (p - d)) with d by lia. rewrite Hmoved. eexists _, s2. split; [reflexivity|by right].
  - replace (p - (p - d)) with d by lia. rewrite Hmoved. eexists _, s2. split; [reflexivity|by right].
  - eexists _, s2. split; [reflexivity|left]. split; [done|]. specialize (Hlost p Hw Hfar). lia.
Qed.

Lemma first_forward d lo hi p c w s : ask_before ask = false -> stale d lo hi w -> 0 <= lo <= hi -> hi <= len l ->
  0 <= lo - d -> hi - d < 2147483000 -> (p, c) ∈ slice l hidden lo hi -> p + 1 = hi ->
  len (slice l hidden lo hi) < MAX_SHELF_ITEMS -> wk_carried w = true -> wk_cursor w = p - d ->
  exists flow s', read_page fetch ask (Some (mk_edge (p - d) (rk c))) w s = (Answered flow, s')
    /\ (flow = Gives_up /\ ~ (-12 <= d <= 12) \/ caught_up lo hi flow
        \/ exists w', good false w' /\ wk_offset w' = lo /\ hi <= wk_end w'
             /\ (flow = Stops w' /\ wk_more w' = false /\ wk_end w' = len l \/ flow = Goes_on w' /\ wk_more w' = true)).
Proof.
  intros Hb Hst Hlo Hhi Hd1 Hd2 Hin Hp Hlen Hc Hcur. unfold read_page. rewrite Hb, Hc, Hcur.
  destruct (slice_item _ _ _ _ Hin) as (m & Hm & Hk). apply slice_range in Hin as [Hp1 Hp2]. cbn [fst] in *.
  unfold read_bind. destruct (page_served (p - d) (MAX_SHELF_ITEMS + 1) s) as (t & s1 & Ht & ->); [lia|unfold MAX_SHELF_ITEMS; lia|].
  destruct (relocate_spec false (p - d) p m (p - d) (MAX_SHELF_ITEMS + 1) (p - d) t s1) as (at_ & s2 & Hrel & Hat);
    [lia|unfold MAX_SHELF_ITEMS; lia|lia|lia|done|].
  rewrite <- Hk, Hrel. cbn [eg_position].
  assert (stale d lo hi (w <| wk_carried := false |>)) as Hst' by exact Hst.
  pose proof (moved_spec d lo hi p _ Hst' ltac:(lia) ltac:(lia) ltac:(lia)) as Hmoved.
  match type of Hmoved with _ = Some (?x, _) => set (wm := x) in Hmoved end.
  destruct (within (p - d) _ p) eqn:Hw; [|destruct (within (fst _) _ p) eqn:Hfar]; subst at_.
  - replace (p - (p - d)) with d by lia. rewrite Hmoved.
    destruct (add_forward (p - d) MAX_SHELF_ITEMS (MAX_SHELF_ITEMS + 1) t (Some p) wm) as (w' & (Hg & Ho & He) & Hcases);
      [exact Hb|exact Ht|reflexivity|cbn; lia|cbn; lia|exact Hlen|lia|unfold MAX_SHELF_ITEMS; lia|
       unfold within in Hw; cbn; lia|].
    cbn in Ho, He. destruct Hcases as [(-> & Hm' & He')|(-> & Hm' & _)]; eexists _, s2; (split; [reflexivity|]); right; right;
      exists w'; split_and!; try done; [by left|by right].
  - replace (p - (p - d)) with d by lia. rewrite Hmoved. eexists _, s2. split; [reflexivity|right; left].
    eexists. split; [reflexivity|]. split; [|done]. rewrite Hb. constructor; cbn; try done; lia.
  - eexists _, s2. split; [reflexivity|left]. split; [done|].
    unfold within, far_side, MAX_SHELF_ITEMS in Hw, Hfar. cbn [fst snd] in Hfar. lia.
Qed.

Lemma first_backward d lo hi c w s : ask_before ask = true -> stale d lo hi w -> 0 <= lo <= hi -> hi <= len l ->
  0 < lo - d -> hi - d < 2147483000 -> (lo, c) ∈ slice l hidden lo hi ->
  len (slice l hidden lo hi) <= HUB_FETCH_COUNT -> wk_carried w = true -> wk_cursor w = lo - d ->
  exists flow s', read_page fetch ask (Some (mk_edge (lo - d) (rk c))) w s = (Answered flow, s')
    /\ (flow = Gives_up /\ ~ (-12 <= d <= 12)
        \/ exists w', flow = Goes_on w' /\ good true w' /\ wk_offset w' <= lo /\ wk_end w' = hi).
Proof.
  intros Hb Hst Hlo Hhi Hd1 Hd2 Hin Hlen Hc Hcur. unfold read_page. rewrite Hb, Hc, Hcur.
  destruct (slice_item _ _ _ _ Hin) as (m & Hm & Hk). apply slice_range in Hin as [Hp1 Hp2]. cbn [fst] in *.
  assert (len (wk_rows w) = len (slice l hidden lo hi)) as Hlw.
  { destruct Hst as [-> _]. unfold len, shift_rows. by rewrite length_fmap. }
  unfold HUB_FETCH_COUNT in Hlen. rewrite Hlw. set (size := Z.min _ _).
  assert (0 < size <= lo - d /\ size <= MAX_SHELF_ITEMS - len (slice l hidden lo hi) /\ Z.min (lo - d) 12 <= size) as (Hs0 & Hs1 & Hs2)
    by (unfold size, MAX_SHELF_ITEMS; lia).
  unfold read_bind. destruct (page_served (lo - d - size) (size + 1) s) as (t & s1 & Ht & ->); [lia|lia|].
  destruct (relocate_spec true (lo - d) lo m (lo - d - size) (size + 1) (lo - d - size) t s1) as (at_ & s2 & Hrel & Hat);
    [lia|lia|lia|lia|done|].
  rewrite <- Hk, Hrel. cbn [eg_position].
  assert (stale d lo hi (w <| wk_carried := false |>)) as Hst' by exact Hst.
  pose proof (moved_spec d lo hi lo _ Hst' ltac:(lia) ltac:(lia) ltac:(lia)) as Hmoved.
  match type of Hmoved with _ = Some (?x, _) => set (wm := x) in Hmoved end.
  destruct (within (lo - d - size) _ lo) eqn:Hw; [|destruct (within (fst _) _ lo) eqn:Hfar]; subst at_.
  - replace (lo - (lo - d)) with d by lia. rewrite Hmoved.
    destruct (add_backward (lo - d - size) size (size + 1) t (Some lo) wm) as (w' & -> & Hg & He & Ho & _);
      [exact Hb|exact Ht|reflexivity|cbn; lia|cbn; lia|unfold within in Hw; cbn; lia|cbn; lia|unfold within in Hw; cbn; lia|].
    eexists _, s2. split; [reflexivity|right]. exists w'. split_and!; try done.
  - replace (lo - (lo - d)) with d by lia. rewrite Hmoved. eexists _, s2. split; [reflexivity|right].
    eexists. split; [reflexivity|]. split; [|cbn; lia]. constructor; cbn; try done; lia.
  - eexists _, s2. split; [reflexivity|left]. split; [done|].
    unfold within, far_side, MAX_SHELF_ITEMS in Hw, Hfar. cbn [fst snd] in Hfar. lia.
Qed.

End Serving.
End Slice.
