(* ===== verification/ShelfAsk.v ===== *)
(** * One ask of a shelf

    An ask against the window of a listing that moved since the window was read: it shows the listing
    as it is now, beside the half of the window that stays, or says that it lost its place. *)

From stdpp Require Import list.
From S2P Require Import Prelude Bytes ShelfWindow ShelfReading.

#[local] Open Scope Z_scope.

Lemma filter_shift hidden by_ rows :
  List.filter (fun r => negb (is_hidden hidden (snd r))) (shift_rows by_ rows)
  = shift_rows by_ (List.filter (fun r => negb (is_hidden hidden (snd r))) rows).
Proof.
  induction rows as [|[p c] rows IH]; [done|]. cbn. fold (shift_rows by_ rows). rewrite IH.
  by destruct (is_hidden hidden c).
Qed.

Lemma shift_len by_ rows : length (shift_rows by_ rows) = length rows.
Proof. apply length_fmap. Qed.

Lemma retain_shift before by_ rows : retain_half before (shift_rows by_ rows) = shift_rows by_ (retain_half before rows).
Proof.
  unfold retain_half, len. rewrite shift_len. destruct before; [symmetry; apply fmap_take|].
  destruct (_ <=? _); [done|]. symmetry. apply fmap_drop.
Qed.

(** The row at the ask's side of the window, or at the other. *)
Definition side (before : bool) (rows : list Row) : option Row := if before then head rows else last rows.

Lemma side_shift before by_ rows : side before (shift_rows by_ rows) = (fun '(p, c) => (p + by_, c)) <$> side before rows.
Proof. destruct before; cbn; [by destruct rows|apply fmap_last]. Qed.

Lemma side_in before rows r : side before rows = Some r -> r ∈ rows.
Proof.
  destruct before; cbn; [destruct rows; [done|intros [= ->]; by constructor]|].
  intros Hl. rewrite last_lookup in Hl. by eapply list_elem_of_lookup_2.
Qed.

(** What stays of a window: the half on the far side of the ask. *)
Definition half_kept (before : bool) (rows : list Row) : list Row :=
  if before then take 12 rows else drop (length rows - 12) rows.

Lemma retain_half_kept before rows : retain_half before rows = half_kept before rows.
Proof.
  unfold retain_half, half_kept, HUB_FETCH_COUNT, len. destruct before; [done|].
  destruct (Z.leb_spec (Z.of_nat (length rows)) 12); [|done]. by replace (length rows - 12)%nat with 0%nat by lia.
Qed.

Section Ask.
Context (l : list Metadata) (ask : Ask).

#[local] Abbreviation hidden := (ask_hidden ask).

Lemma slice_more hidden0 lo hi : (forall c, is_hidden hidden0 c = true -> is_hidden hidden c = true) ->
  List.filter (fun r => negb (is_hidden hidden (snd r))) (slice l hidden0 lo hi) = slice l hidden lo hi.
Proof. intros Hh. unfold slice. by rewrite filter_comm, visible_more. Qed.

Lemma half_is_a_slice o e : o <= e -> exists lo hi,
  o <= lo <= hi /\ hi <= e /\ half_kept (ask_before ask) (slice l hidden o e) = slice l hidden lo hi
  /\ (if ask_before ask then lo = o else hi = e)
  /\ (len (slice l hidden o e) <= 12 -> lo = o /\ hi = e)
  /\ (12 < len (slice l hidden o e) -> exists c, side (negb (ask_before ask)) (slice l hidden lo hi)
        = Some (if ask_before ask then hi - 1 else lo, c)).
Proof.
  intros Hoe. set (s := slice l hidden o e). destruct (decide (len s <= 12)) as [Hl|Hl].
  - exists o, e. split_and!; try done; [|by destruct (ask_before ask)|lia]. unfold half_kept, len, s in *.
    destruct (ask_before ask); [apply take_ge; lia|]. by replace (length _ - 12)%nat with 0%nat by lia.
  - unfold len in Hl. set (k := if ask_before ask then 11%nat else (length s - 12)%nat).
    destruct (lookup_lt_is_Some_2 s k) as [[p c] Hk]; [unfold k; destruct (ask_before ask); lia|].
    assert (o <= p < e) as Hp by (apply list_elem_of_lookup_2, slice_range in Hk; cbn in Hk; lia).
    unfold half_kept, k in *. destruct (ask_before ask); cbn [negb side].
    + exists o, (p + 1). pose proof (slice_take _ _ _ _ _ _ Hk) as Hs. cbn in Hs.
      split_and!; try done; try lia. intros _. exists c. rewrite <- Hs, last_lookup.
      rewrite length_take_le by (apply lookup_lt_Some in Hk; unfold s in *; lia). cbn [Nat.pred].
      rewrite lookup_take_lt by lia. replace (p + 1 - 1) with p by lia. exact Hk.
    + exists p, e. pose proof (slice_drop _ _ _ _ _ _ Hk) as Hs. cbn in Hs.
      split_and!; try done; try lia. intros _. exists c. by rewrite <- Hs, head_lookup, lookup_drop, Nat.add_0_r.
Qed.

Lemma half_len before rows : len (half_kept before rows) <= 12.
Proof. unfold half_kept, len. destruct before; [rewrite length_take|rewrite length_drop]; lia. Qed.

Lemma initial_spec hidden0 d o e t m u : (forall c, is_hidden hidden0 c = true -> is_hidden hidden c = true) ->
  0 <= o <= e -> ask_start ask = (if ask_before ask then o else e) - d -> exists lo hi,
  let w := initial_walk ask (Some (shift_rows (- d) (slice l hidden0 o e), mk_info (o - d) (e - d) t m u)) in
  o <= lo <= hi /\ hi <= e /\ half_kept (ask_before ask) (slice l hidden o e) = slice l hidden lo hi
  /\ (if ask_before ask then lo = o else hi = e)
  /\ stale l hidden d lo hi w /\ wk_carried w = false /\ wk_cursor w = ask_start ask.
Proof.
  intros Hh Hoe Hstart. destruct (half_is_a_slice o e) as (lo & hi & Hlo & Hhi & Hhalf & Hside & Hall & Hsome); [lia|].
  exists lo, hi. cbv zeta. split_and!; try done; try lia. unfold stale, initial_walk. cbn [fmap option_fmap option_map snd].
  rewrite filter_shift, slice_more, retain_shift, retain_half_kept, Hhalf by done.
  assert (len (shift_rows (- d) (slice l hidden o e)) = len (slice l hidden o e)) as -> by (unfold len; by rewrite shift_len).
  cbn [wk_rows wk_offset wk_end]. split; [done|]. unfold HUB_FETCH_COUNT.
  pose proof (fun b => side_shift b (- d) (slice l hidden lo hi)) as Hsh.
  destruct (Z.leb_spec (len (slice l hidden o e)) 12) as [Hl|Hl].
  - destruct (Hall Hl) as [-> ->]. rewrite Hstart. by destruct (ask_before ask).
  - destruct (Hsome Hl) as [c Hc]. rewrite Hstart. specialize (Hsh (negb (ask_before ask))). rewrite Hc in Hsh.
    destruct (ask_before ask); cbn in Hsh; rewrite Hsh; cbn; subst; split; lia.
Qed.

(** ** Reading on *)

Context {St : Type} (fetch : Z -> Z -> Reading St MediaContainer) (Hok : listing_ok l) (Hserve : serves l fetch).

(** A walk that read on from the rows between [lo] and [hi]. *)
Definition arrived (minimum_end lo hi : Z) (w : Walk) : Prop :=
  good l hidden (ask_before ask) w /\
  if ask_before ask then wk_end w = hi /\ wk_offset w <= lo /\ (0 < lo -> wk_offset w < lo)
  else wk_offset w = lo /\ hi <= wk_end w /\ (wk_more w = false -> wk_end w = len l)
       /\ (len (wk_rows w) = MAX_SHELF_ITEMS \/ wk_end w = len l \/ hi + 168 <= wk_end w /\ minimum_end <= wk_end w).

Lemma good_reads_on edge minimum_end fuel requests lo hi w s : good l hidden (ask_before ask) w ->
  0 <= requests <= 1 -> (8 + Z.to_nat minimum_end < fuel)%nat ->
  (if ask_before ask then wk_end w = hi /\ wk_offset w <= lo else wk_offset w = lo /\ hi <= wk_end w) ->
  (wk_offset w = lo /\ wk_end w = hi -> len (wk_rows w) < MAX_SHELF_ITEMS) ->
  (ask_before ask = false -> wk_more w = true \/ len (wk_rows w) < MAX_SHELF_ITEMS) ->
  exists w' s', read_pages fetch fuel ask edge minimum_end requests w s = (Answered (Some w'), s')
    /\ arrived minimum_end lo hi w'.
Proof.
  unfold arrived. intros Hg Hreq Hfuel Hwhere Hsmall Hread. pose proof (gd_bounds _ _ _ _ Hg) as Hbd.
  destruct (ask_before ask) eqn:Hb; destruct Hwhere as [Hw1 Hw2].
  - destruct (loop_backward l hidden Hok fetch Hserve ask eq_refl edge minimum_end fuel requests w s Hb Hg)
      as (w' & s' & -> & Hg' & He & Ho & Hp); [lia|lia|]. exists w', s'. split_and!; try done; [congruence|lia|].
    destruct (decide (wk_offset w = lo)) as [Hlo|]; [|lia]. intros Hpos. rewrite <- Hlo in *. apply Hp; [lia| |lia].
    by apply Hsmall.
  - destruct (loop_forward l hidden Hok fetch Hserve ask eq_refl edge minimum_end fuel requests w s Hb Hg)
      as (w' & s' & -> & (Hg' & Ho & He) & Hm & Hor); [lia|lia|specialize (Hread eq_refl); destruct Hread; auto with lia|].
    exists w', s'. split_and!; try done; [congruence|lia|]. destruct Hor as [?|[?|[? ?]]]; [by left|by right; left|].
    right. right. split; lia.
Qed.

(** A first read that carries the edge, or one after the edge was found. *)
Lemma carried_reads_on d lo hi p c minimum_end w s : stale l hidden d lo hi w -> 0 <= lo <= hi -> hi <= len l ->
  0 <= lo - d -> hi - d < 2147483000 -> (ask_before ask = true -> 0 < lo - d) -> (p, c) ∈ slice l hidden lo hi ->
  (if ask_before ask then p = lo else p + 1 = hi) -> len (slice l hidden lo hi) <= HUB_FETCH_COUNT ->
  wk_carried w = true -> wk_cursor w = p - d ->
  exists r s', read_pages fetch (window_fuel minimum_end) ask (Some (mk_edge (p - d) (rk c))) minimum_end 0 w s = (Answered r, s')
    /\ match r with Some w' => arrived minimum_end lo hi w' | None => ~ (-12 <= d <= 12) end.
Proof.
  intros Hst Hlo Hhi Hd1 Hd2 Hpos Hin Hp Hlen Hc Hcur. unfold window_fuel. cbn [Nat.add].
  set (fuel := S (S (S (S (S (S (S (S (S (Z.to_nat minimum_end)))))))))).
  assert (8 + Z.to_nat minimum_end < fuel)%nat as Hfuel by lia. clearbody fuel. cbn [read_pages]. unfold REQUESTS_PER_ASK.
  cbn [Z.ltb Z.compare orb negb]. unfold HUB_FETCH_COUNT in Hlen.
  assert (len (wk_rows w) = len (slice l hidden lo hi)) as Hlw.
  { destruct Hst as [-> _]. unfold len. by rewrite shift_len. }
  assert (len (slice l hidden lo hi) < MAX_SHELF_ITEMS) as Hroom by (unfold MAX_SHELF_ITEMS; lia).
  rewrite Hlw, Hcur. destruct (Z.leb_spec MAX_SHELF_ITEMS (len (slice l hidden lo hi))) as [|_]; [lia|]. cbn [orb].
  unfold read_bind. destruct (ask_before ask) eqn:Hb; cbn [andb].
  - subst p. specialize (Hpos eq_refl). destruct (Z.eqb_spec (lo - d) 0) as [|_]; [lia|].
    destruct (first_backward l hidden Hok fetch Hserve ask eq_refl d lo hi c w s Hb Hst Hlo Hhi Hpos Hd2 Hin Hlen Hc Hcur)
      as (flow & s1 & -> & [[-> ?]|(w1 & -> & Hg1 & Ho1 & He1)]); [by exists None, s1|].
    rewrite <- Hb in Hg1. destruct (good_reads_on (Some (mk_edge (lo - d) (rk c))) minimum_end fuel 1 lo hi w1 s1 Hg1)
      as (w2 & s2 & Hrd & Hw2); rewrite ?Hb; try done; try lia.
    + intros [Heo Hee]. by rewrite (gd_rows _ _ _ _ Hg1), Heo, Hee.
    + exists (Some w2), s2. by split.
  - destruct (first_forward l hidden Hok fetch Hserve ask eq_refl d lo hi p c w s Hb Hst Hlo Hhi Hd1 Hd2 Hin Hp Hroom Hc Hcur)
      as (flow & s1 & -> & [[-> ?]|[(w1 & -> & Hg1 & Ho1 & He1 & Hl1)|(w1 & Hg1 & Ho1 & He1 & [(-> & Hm1 & He1')|(-> & Hm1)])]]).
    + by exists None, s1.
    + destruct (good_reads_on (Some (mk_edge (p - d) (rk c))) minimum_end fuel 1 lo hi w1 s1 Hg1)
        as (w2 & s2 & Hrd & Hw2); rewrite ?Hb; try done; try lia. exists (Some w2), s2. by split.
    + exists (Some w1), s1. split; [done|]. unfold arrived. rewrite Hb. split_and!; try done. by right; left.
    + rewrite <- Hb in Hg1. destruct (good_reads_on (Some (mk_edge (p - d) (rk c))) minimum_end fuel 1 lo hi w1 s1 Hg1)
        as (w2 & s2 & Hrd & Hw2); rewrite ?Hb; try done; try lia; [|by left|exists (Some w2), s2; by split].
      intros [Heo Hee]. by rewrite (gd_rows _ _ _ _ Hg1), Heo, Hee.
Qed.

Lemma stale_now lo hi w : stale l hidden 0 lo hi w -> 0 <= lo <= hi -> hi <= len l -> wk_carried w = false ->
  wk_cursor w = (if ask_before ask then lo else hi) -> len (slice l hidden lo hi) <= 12 -> good l hidden (ask_before ask) w.
Proof.
  intros (Hr & Ho & He) Hlo Hhi Hc Hcur Hlen. rewrite !Z.sub_0_r in *.
  assert (shift_rows (- 0) (slice l hidden lo hi) = slice l hidden lo hi) as Hid.
  { clear. induction (slice l hidden lo hi) as [|[q c] rows IH]; [done|]. change (shift_rows (- 0) ((q, c) :: rows)) with ((q + - 0, c) :: shift_rows (- 0) rows).
    rewrite IH. f_equal. f_equal. lia. }
  rewrite Hid in Hr. constructor; rewrite ?Ho, ?He, ?Hr; try done. unfold MAX_SHELF_ITEMS. lia.
Qed.

(** The ask, from the walk it starts with. *)
Lemma ask_spec d lo hi minimum_end w s (edge := edge_of ask w) : stale l hidden d lo hi w -> 0 <= lo <= hi -> hi <= len l ->
  0 <= lo - d -> hi - d < 2147483000 -> (ask_before ask = true -> 0 < lo - d) ->
  (slice l hidden lo hi = [] -> d = 0) -> len (slice l hidden lo hi) <= 12 ->
  wk_carried w = false -> wk_cursor w = ask_start ask -> ask_start ask = (if ask_before ask then lo else hi) - d ->
  exists flow s1, (match edge with Some edge => check_edge fetch ask edge w | None => done (Goes_on w) end) s = (Answered flow, s1)
    /\ match flow with
       | Gives_up => ~ (-12 <= d <= 12)
       | Stops w1 | Goes_on w1 => exists r s2, read_pages fetch (window_fuel minimum_end) ask edge minimum_end 0 w1 s1 = (Answered r, s2)
           /\ match r with Some w' => arrived minimum_end lo hi w' | None => ~ (-12 <= d <= 12) end
       end.
Proof.
  intros Hst Hlo Hhi Hd1 Hd2 Hpos Hempty Hlen Hc Hcur Hstart.
  assert (len (slice l hidden lo hi) < MAX_SHELF_ITEMS) as Hroom by (unfold MAX_SHELF_ITEMS; lia).
  assert (forall w1 s1, caught_up l hidden ask lo hi (Goes_on w1) -> exists r s2,
    read_pages fetch (window_fuel minimum_end) ask edge minimum_end 0 w1 s1 = (Answered r, s2)
    /\ match r with Some w' => arrived minimum_end lo hi w' | None => ~ (-12 <= d <= 12) end) as Hon.
  { intros w1 s1 (w1' & [= <-] & Hg & Ho & He & Hl1).
    destruct (good_reads_on edge minimum_end (window_fuel minimum_end) 0 lo hi w1 s1 Hg) as (w2 & s2 & Hrd & Hw2);
      [lia|unfold window_fuel; lia|destruct (ask_before ask); lia|done|by right|]. exists (Some w2), s2. by split. }
  assert (edge = (fun '(p, c) => mk_edge (p - d) (rk c)) <$> side (ask_before ask) (slice l hidden lo hi)) as Hedge.
  { unfold edge, edge_of. fold (side (ask_before ask) (wk_rows w)). destruct Hst as [-> _]. rewrite side_shift.
    by destruct (side _ _) as [[p c]|]. }
  clearbody edge. destruct (side (ask_before ask) (slice l hidden lo hi)) as [[p c]|] eqn:Hsd; rewrite Hedge in *; cbn [fmap option_fmap option_map].
  - pose proof (side_in _ _ _ Hsd) as Hin. destruct (slice_range _ _ _ _ _ Hin) as [Hp _]. cbn [fst] in Hp.
    destruct (if ask_before ask then p - d =? ask_start ask else p - d + 1 =? ask_start ask) eqn:Hbeside.
    + exists (Goes_on (w <| wk_cursor := p - d |> <| wk_carried := true |>)), s.
      split; [unfold check_edge; cbn [eg_position]; by rewrite Hbeside|].
      apply (carried_reads_on d lo hi p c); try done. destruct (ask_before ask); lia.
    + destruct (check_spec l hidden Hok fetch Hserve ask d lo hi p c w s Hst Hlo Hhi Hd1 Hd2 Hstart Hin Hroom Hc Hbeside)
        as (flow & s1 & Hck & [[-> Hlost]|Hup]); [by exists Gives_up, s1|]. exists flow, s1. split; [done|].
      destruct Hup as (w1 & -> & Hup). apply Hon. by exists w1.
  - exists (Goes_on w), s. split; [done|]. apply Hon. exists w. split; [done|].
    assert (slice l hidden lo hi = []) as Hnil.
    { destruct (ask_before ask); cbn in Hsd; [by destruct (slice l hidden lo hi)|by apply last_None]. }
    specialize (Hempty Hnil). subst d. rewrite !Z.sub_0_r in *. split; [apply (stale_now lo hi); try done; congruence|].
    destruct Hst as (-> & -> & ->). rewrite Hnil, !Z.sub_0_r. done.
Qed.

End Ask.

(** What an answer that read on shows, of a window that was between [o] and [e]. *)
Definition reads_on (l : list Metadata) (ask : Ask) (o e minimum_end : Z) (rows : list Row) (now : PageInfo) : Prop :=
  pi_unstable now = false /\ rows = slice l (ask_hidden ask) (pi_offset now) (pi_end now) /\ len rows <= 24
  /\ if ask_before ask
     then pi_offset now <= o /\ (0 < o -> pi_offset now < o)
          /\ slice l (ask_hidden ask) o (pi_end now) = take 12 (slice l (ask_hidden ask) o e)
     else e <= pi_end now <= len l
          /\ slice l (ask_hidden ask) (pi_offset now) e
             = drop (length (slice l (ask_hidden ask) o e) - 12) (slice l (ask_hidden ask) o e)
          /\ (pi_more now = false -> pi_end now = len l)
          /\ (len rows = 24 \/ pi_end now = len l \/ e + 168 <= pi_end now /\ minimum_end <= pi_end now).

Lemma arrived_reads_on l ask o e lo hi minimum_end w : arrived l ask minimum_end lo hi w ->
  half_kept (ask_before ask) (slice l (ask_hidden ask) o e) = slice l (ask_hidden ask) lo hi ->
  (if ask_before ask then lo = o else hi = e) -> reads_on l ask o e minimum_end (wk_rows w)
    (mk_info (wk_offset w) (wk_end w) (wk_total w) (wk_more w) false).
Proof.
  intros [[Hr [Hb1 Hb2] Hl _ _] Hw] Hhalf Hside. unfold reads_on, half_kept in *. cbn [pi_unstable pi_offset pi_end pi_more].
  split; [done|]. split; [done|]. split; [done|]. destruct (ask_before ask); subst.
  - destruct Hw as (-> & ? & ?). by split_and!.
  - destruct Hw as (-> & ? & ? & ?). by split_and!.
Qed.

(** ** The window is the listing *)

(** C18. Asked of a listing that holds still, whatever was put in or taken out before the window since
    it was read, a window answers with a piece of the listing as it is now.  No row is left out or
    shown twice.  It holds at most twenty-four rows and the half that stays of the rows it had, and
    reads on from them: forward until it is full, the listing ends or eight requests were made, and up
    to the end asked for; backward by at least one position.  It gives up only when the rows moved by
    more than twelve positions, and then it is what it was. *)
Theorem the_window_is_the_listing {St} (l : list Metadata) (fetch : Z -> Z -> Reading St MediaContainer) ask hidden0
    d o e t m u minimum_end s :
  listing_ok l -> serves l fetch -> (forall c, is_hidden hidden0 c = true -> is_hidden (ask_hidden ask) c = true) ->
  0 <= o <= e -> e <= len l -> 0 <= o - d -> e - d < 2147483000 ->
  ask_start ask = (if ask_before ask then o else e) - d -> (ask_before ask = true -> 0 < ask_start ask) ->
  (slice l (ask_hidden ask) o e = [] -> d = 0) ->
  let was := (shift_rows (- d) (slice l hidden0 o e), mk_info (o - d) (e - d) t m u) in
  exists rows now s', fetch_window fetch ask (Some was) minimum_end s = (Answered (rows, now), s')
    /\ ((rows, now) = (fst was, (snd was) <| pi_unstable := true |>) /\ ~ (-12 <= d <= 12)
        \/ reads_on l ask o e minimum_end rows now).
Proof.
  intros Hok Hserve Hh Hoe Hel Hd1 Hd2 Hstart Hpos Hempty was.
  destruct (initial_spec l ask hidden0 d o e t m u Hh Hoe Hstart) as (lo & hi & Hlo & Hhi & Hhalf & Hside & Hst & Hc & Hcur).
  fold was in Hst, Hc, Hcur. pose proof (half_len (ask_before ask) (slice l (ask_hidden ask) o e)) as Hlen. rewrite Hhalf in Hlen.
  assert (slice l (ask_hidden ask) lo hi = [] -> d = 0) as Hempty'.
  { intros Hn. apply Hempty. rewrite Hn in Hhalf. revert Hhalf. unfold half_kept.
    set (rows := slice l (ask_hidden ask) o e). destruct rows as [|r rows]; [done|].
    destruct (ask_before ask); cbn [take]; [done|]. intros Hd%(f_equal length). rewrite length_drop in Hd. cbn in Hd. lia. }
  destruct (ask_spec l ask fetch Hok Hserve d lo hi minimum_end _ s Hst) as (flow & s1 & Hflow & Hrest); try done; try lia;
    [destruct (ask_before ask); lia|destruct (ask_before ask); lia|].
  unfold fetch_window. unfold read_bind at 1. rewrite Hflow.
  destruct flow as [|w1|w1].
  - eexists _, _, s1. split; [reflexivity|]. by left.
  - destruct Hrest as (r & s2 & Hrd & Hr). unfold read_bind. rewrite Hrd.
    destruct r as [w'|]; (eexists _, _, s2; split; [reflexivity|]); [right|by left]. by apply arrived_reads_on with lo hi.
  - destruct Hrest as (r & s2 & Hrd & Hr). unfold read_bind. rewrite Hrd.
    destruct r as [w'|]; (eexists _, _, s2; split; [reflexivity|]); [right|by left]. by apply arrived_reads_on with lo hi.
Qed.
