(* ===== verification/ShelfLedger.v ===== *)
(** * Shelves: the ledger of a row

    The second half of [data/src/stores/paging.rs]: the keys a row has shown, in the order it showed
    them ([Keys], with the index kept beside the list), and the window that moves over them when the
    listing cannot be addressed by position ([ledger_window]).

    An [Arc] is its content.  A slice out of range or an insertion past the end is [Panicked]; the counts
    are [Z], since none comes near the end of its type. *)

From stdpp Require Import list gmap.
From S2P Require Import Prelude Bytes ShelfWindow.

#[local] Open Scope Z_scope.
#[local] Open Scope reading_scope.

Inductive LedgerKey := Num (n : Z) | Text (t : bytes).
#[export] Instance LedgerKey_eq_dec : EqDecision LedgerKey.
Proof. solve_decision. Defined.
#[export] Instance LedgerKey_countable : Countable LedgerKey.
Proof.
  refine (inj_countable' (fun k => match k with Num n => inl n | Text t => inr t end)
            (fun s => match s with inl n => Num n | inr t => Text t end) _).
  by intros [].
Defined.

Definition parse_u64 (s : bytes) : option Z := parse_digits u64_max (default s (strip_prefix [43] s)).

Definition ledger_key (key : bytes) : LedgerKey :=
  match parse_u64 key with
  | Some number => if bool_decide (show number = key) then Num number else Text key
  | None => Text key
  end.
Definition key_text (k : LedgerKey) : bytes := match k with Num number => show number | Text text => text end.

(** ** Keys and their index *)

Record Keys := mk_keys { ks_list : list LedgerKey; ks_index : gmap LedgerKey Z }.

(** The keys of the list from [at_] on, written into the index. *)
Fixpoint number_from (at_ : Z) (l : list LedgerKey) (index : gmap LedgerKey Z) : gmap LedgerKey Z :=
  match l with
  | [] => index
  | key :: l => number_from (at_ + 1) l (<[key := at_]> index)
  end.
Definition indexed (l : list LedgerKey) : gmap LedgerKey Z := number_from 0 l ∅.

Definition position_of (key : LedgerKey) (ks : Keys) : option Z := ks_index ks !! key.
Definition keys_contain (key : LedgerKey) (ks : Keys) : bool := bool_decide (is_Some (ks_index ks !! key)).

Definition keys_push (key : LedgerKey) (ks : Keys) : Keys :=
  if keys_contain key ks then ks
  else mk_keys (ks_list ks ++ [key]) (<[key := len (ks_list ks)]> (ks_index ks)).

Definition insert_at (at_ : Z) (key : LedgerKey) (ks : Keys) : option Keys :=
  if keys_contain key ks then Some ks
  else if (0 <=? at_) && (at_ <=? len (ks_list ks)) then
    let l := take (Z.to_nat at_) (ks_list ks) ++ key :: drop (Z.to_nat at_) (ks_list ks) in
    Some (mk_keys l (number_from at_ (drop (Z.to_nat at_) l) (ks_index ks)))
  else None.

Definition edit (change : list LedgerKey -> list LedgerKey) (ks : Keys) : Keys :=
  mk_keys (change (ks_list ks)) (indexed (change (ks_list ks))).
Definition retain (keep : LedgerKey -> bool) : Keys -> Keys := edit (List.filter keep).

Definition keys_from (l : list LedgerKey) : Keys := mk_keys l (indexed l).

(** The keys with the repeated ones left out, as they come. *)
Fixpoint first_seen (seen : gset LedgerKey) (l : list LedgerKey) : list LedgerKey :=
  match l with
  | [] => []
  | key :: l => if bool_decide (key ∈ seen) then first_seen seen l else key :: first_seen ({[key]} ∪ seen) l
  end.
Definition keys_collect (l : list LedgerKey) : Keys := keys_from (first_seen ∅ l).

(** ** The ledger *)

Definition IDLE_PASSES : Z := 2.

Record Ledger := mk_ledger {
  lg_keys : Keys; lg_active : bool; lg_next : Z; lg_filtered : Z; lg_added : Z; lg_idle : Z; lg_rescans : Z; lg_done : bool
}.
#[export] Instance Ledger_eta : Eta Ledger := fun r =>
  mk_ledger (lg_keys r) (lg_active r) (lg_next r) (lg_filtered r) (lg_added r) (lg_idle r) (lg_rescans r) (lg_done r).
Definition ledger_default : Ledger := mk_ledger (keys_from []) false 0 0 0 0 0 false.

Definition row_key (r : Row) : LedgerKey := ledger_key (rk (snd r)).

Definition from_rows (rows : list Row) (next : Z) : Ledger :=
  ledger_default <| lg_keys := keys_collect (row_key <$> rows) |> <| lg_next := next |>.

Definition position (key : bytes) (lg : Ledger) : option Z := position_of (ledger_key key) (lg_keys lg).

Fixpoint backwards (last : option Z) (l : list Z) : bool :=
  match l with
  | [] => false
  | index :: l => match last with Some last => index <=? last | None => false end || backwards (Some index) l
  end.
Definition contradicts (rows : list Row) (lg : Ledger) : bool :=
  backwards None (omap (fun r => position (rk (snd r)) lg) rows).

Fixpoint insert_each (at_ : Z) (keys : list LedgerKey) (ks : Keys) : option Keys :=
  match keys with
  | [] => Some ks
  | key :: keys => ks ← insert_at at_ key ks; insert_each at_ keys ks
  end.

Fixpoint note_after (cursor : Z) (keys : list LedgerKey) (ks : Keys) : option Keys :=
  match keys with
  | [] => Some ks
  | key :: keys =>
      match position_of key ks with
      | Some index => note_after (index + 1) keys ks
      | None => ks ← insert_at cursor key ks; note_after (cursor + 1) keys ks
      end
  end.

Definition note_keys (keys : list LedgerKey) (ks : Keys) : option Keys :=
  if forallb (fun key => keys_contain key ks) keys then Some ks
  else match index_of (fun key => keys_contain key ks) keys with
       | None => Some (fold_left (fun ks key => keys_push key ks) keys ks)
       | Some anchor =>
           let at_ := match keys !! Z.to_nat anchor with Some key => default 0 (position_of key ks) | None => 0 end in
           ks ← insert_each at_ (rev (take (Z.to_nat anchor) keys)) ks;
           note_after (at_ + anchor) (drop (Z.to_nat anchor) keys) ks
       end.

Definition note (rows : list Row) (lg : Ledger) : option Ledger :=
  ks ← note_keys (row_key <$> rows) (lg_keys lg);
  Some (lg <| lg_keys := ks |>).

(** ** Cards by key *)

Inductive Fetched := Gone | Skip | Card (c : PmsMovie).

Definition card (item : Metadata) (hidden : list Z) : option PmsMovie :=
  c ← card_of item; if is_hidden hidden c then None else Some c.

Definition find_item (key : bytes) (items : list Metadata) : option Metadata :=
  List.find (fun item => bool_decide (rating_key item = key)) items.

Definition container_default : MediaContainer := mk_container 0 0 [].

Definition fetched_of (hidden : list Z) (cache : gmap bytes PmsMovie) (read : MediaContainer) (key : bytes) : Fetched :=
  match cache !! key with
  | Some c => Card c
  | None => match find_item key (mc_metadata read) with
            | None => Gone
            | Some item => match card item hidden with Some c => Card c | None => Skip end
            end
  end.

Definition materialise {St} (many : list bytes -> Reading St MediaContainer) (keys : list bytes) (hidden : list Z)
    (cache : gmap bytes PmsMovie) : Reading St (list Fetched) :=
  let missing := List.filter (fun key => bool_decide (cache !! key = None)) keys in
  read <~ match missing with [] => done container_default | _ => many missing end;
  done (fetched_of hidden cache read <$> keys).

Definition kept_cards {St} (many : list bytes -> Reading St MediaContainer) (keys : list bytes) (hidden : list Z) :
    Reading St (list PmsMovie) :=
  cards <~ materialise many keys hidden ∅;
  done (omap (fun f => match f with Card c => Some c | _ => None end) cards).

(** ** The window over the ledger *)

Record LedgerWalk := mk_ledger_walk {
  lw_rows : list Row; lw_ledger : Ledger; lw_cache : gmap bytes PmsMovie; lw_total : Z; lw_cursor : Z; lw_first : Z
}.
#[export] Instance LedgerWalk_eta : Eta LedgerWalk := fun r =>
  mk_ledger_walk (lw_rows r) (lw_ledger r) (lw_cache r) (lw_total r) (lw_cursor r) (lw_first r).

Definition lw_keys (w : LedgerWalk) : list LedgerKey := ks_list (lg_keys (lw_ledger w)).

(** [l[lo..hi]] *)
Definition slice_between {A} (lo hi : Z) (l : list A) : option (list A) :=
  if (0 <=? lo) && (lo <=? hi) && (hi <=? len l) then Some (take (Z.to_nat (hi - lo)) (drop (Z.to_nat lo) l)) else None.

Definition place_of (r : Row) (lg : Ledger) : option Z := position (rk (snd r)) lg.

Definition cards_of (fetched : list Fetched) : list Row :=
  omap (fun f => match f with Card c => Some (0, c) | _ => None end) fetched.
Definition gone_of (keys : list bytes) (fetched : list Fetched) : list LedgerKey :=
  omap (fun '(key, f) => match f with Gone => Some (ledger_key key) | _ => None end) (zip keys fetched).
Definition not_gone (f : Fetched) : bool := match f with Gone => false | _ => true end.

Definition drop_gone (gone : list LedgerKey) (lg : Ledger) : Ledger :=
  match gone with
  | [] => lg
  | _ => lg <| lg_keys := retain (fun k => negb (bool_decide (k ∈ gone))) (lg_keys lg) |>
  end.

(** One card of a page of the listing. *)
Fixpoint take_listed (hidden : list Z) (items : list Metadata) (processed : Z) (w : LedgerWalk) : LedgerWalk * Z :=
  match items with
  | [] => (w, processed)
  | item :: items =>
      if MAX_SHELF_ITEMS <=? len (lw_rows w) then (w, processed)
      else
        let processed := processed + 1 in
        let lg := lw_ledger w in
        let key := ledger_key (rating_key item) in
        take_listed hidden items processed
          (if keys_contain key (lg_keys lg) then w
           else match card item hidden with
                | None => if lg_rescans lg =? 0 then w <| lw_ledger := lg <| lg_filtered := lg_filtered lg + 1 |> |> else w
                | Some shown =>
                    let lg := lg <| lg_keys := keys_push key (lg_keys lg) |> <| lg_added := lg_added lg + 1 |> in
                    w <| lw_ledger := lg |> <| lw_rows := lw_rows w ++ [(0, shown)] |>
                      <| lw_cursor := len (ks_list (lg_keys lg)) |>
                end)
  end.

(** The whole listing, from a server that ignored the paging: its keys and their cards. *)
Fixpoint whole_listing (hidden : list Z) (items : list Metadata) (seen : gset LedgerKey) : list LedgerKey * gmap bytes PmsMovie :=
  match items with
  | [] => ([], ∅)
  | item :: items =>
      let key := rating_key item in
      match card item hidden with
      | None => whole_listing hidden items seen
      | Some shown =>
          if bool_decide (ledger_key key ∈ seen) then whole_listing hidden items seen
          else let '(keys, cache) := whole_listing hidden items ({[ledger_key key]} ∪ seen) in
               (ledger_key key :: keys, <[key := shown]> cache)
      end
  end.

Definition absorb (hidden : list Z) (mc : MediaContainer) (w : LedgerWalk) : LedgerWalk :=
  let '(keys, cards) := whole_listing hidden (mc_metadata mc) ∅ in
  let ks := keys_from keys in
  let lg := (lw_ledger w) <| lg_keys := ks |> <| lg_next := len keys |> <| lg_done := true |> in
  let rows := List.filter (fun r => keys_contain (row_key r) ks) (lw_rows w) in
  let cursor := match last rows ≫= (fun r => place_of r lg) with Some i => i + 1 | None => 0 end in
  let first := default cursor (head rows ≫= (fun r => place_of r lg)) in
  mk_ledger_walk rows lg (cards ∪ lw_cache w) (len (mc_metadata mc)) cursor first.

(** Whether the walk of the listing is over, at the end of one pass over it. *)
Definition end_pass (total : Z) (lg : Ledger) : Ledger :=
  let lg := lg <| lg_idle := if lg_added lg =? 0 then lg_idle lg + 1 else 0 |> in
  let counted := (1 <=? lg_rescans lg) && (1 <=? lg_idle lg)
                 && (Z.max total 1 <=? len (ks_list (lg_keys lg)) + lg_filtered lg) in
  if counted || (IDLE_PASSES <=? lg_idle lg) then lg <| lg_done := true |>
  else lg <| lg_next := 0 |> <| lg_added := 0 |> <| lg_rescans := u8_sat (lg_rescans lg + 1) |>.

Definition read_on_listing (hidden : list Z) (start : Z) (mc : MediaContainer) (w : LedgerWalk) : LedgerWalk :=
  let '(w, processed) := take_listed hidden (mc_metadata mc) 0 w in
  let lg := (lw_ledger w) <| lg_next := start + processed |> in
  let page_end := (processed =? len (mc_metadata mc))
                  && ((len (mc_metadata mc) <? MAX_SHELF_ITEMS) || ((0 <? lw_total w) && (lw_total w <=? lg_next lg))) in
  w <| lw_ledger := if page_end then end_pass (lw_total w) lg else lg |>.

(** [dedup_by_key]; [sort_by_key] is stable, as [sort_by_key] of the prelude. *)
Fixpoint dedup_rows (rows : list Row) : list Row :=
  match rows with
  | [] => []
  | r :: rows => match dedup_rows rows with
                 | x :: rest => if fst r =? fst x then r :: rest else r :: x :: rest
                 | [] => [r]
                 end
  end.

(** The rows where the ledger has them. *)
Definition placed (lg : Ledger) (rows : list Row) : list Row :=
  dedup_rows (sort_by_key fst (omap (fun r => p ← place_of r lg; Some (p, snd r)) rows)).

Section LedgerWindow.
Context {St : Type} (list_page : Z -> Z -> Reading St MediaContainer) (many : list bytes -> Reading St MediaContainer).

Definition read_before (hidden : list Z) (w : LedgerWalk) : Reading St LedgerWalk :=
  let lo := usize_saturating_sub (lw_first w) (MAX_SHELF_ITEMS - len (lw_rows w)) in
  keys <~ or_panic (slice_between lo (lw_first w) (lw_keys w));
  let keys := key_text <$> keys in
  fetched <~ materialise many keys hidden (lw_cache w);
  done (w <| lw_ledger := drop_gone (gone_of keys fetched) (lw_ledger w) |>
          <| lw_rows := cards_of fetched ++ lw_rows w |> <| lw_first := lo |>).

Definition read_known (hidden : list Z) (w : LedgerWalk) : Reading St LedgerWalk :=
  let upto := Z.min (lw_cursor w + MAX_SHELF_ITEMS - len (lw_rows w)) (len (lw_keys w)) in
  keys <~ or_panic (slice_between (lw_cursor w) upto (lw_keys w));
  let keys := key_text <$> keys in
  fetched <~ materialise many keys hidden (lw_cache w);
  done (w <| lw_ledger := drop_gone (gone_of keys fetched) (lw_ledger w) |>
          <| lw_rows := lw_rows w ++ cards_of fetched |> <| lw_cursor := lw_cursor w + len (List.filter not_gone fetched) |>).

Definition read_listing (hidden : list Z) (w : LedgerWalk) : Reading St LedgerWalk :=
  let start := lg_next (lw_ledger w) in
  mc <~ list_page start MAX_SHELF_ITEMS;
  let w := w <| lw_total := if 0 <? mc_total_size mc then u32_wrap (mc_total_size mc) else lw_total w |> in
  done (if negb (mc_offset mc =? start) || (MAX_SHELF_ITEMS <? len (mc_metadata mc)) then absorb hidden mc w
        else read_on_listing hidden start mc w).

Fixpoint ledger_loop (fuel : nat) (ask : Ask) (requests : Z) (w : LedgerWalk) : Reading St LedgerWalk :=
  match fuel with
  | O => fun s => (Out_of_fuel, s)
  | S fuel =>
      if (len (lw_rows w) <? MAX_SHELF_ITEMS) && (requests <? REQUESTS_PER_ASK) then
        if ask_before ask then
          if lw_first w =? 0 then done w
          else w <~ read_before (ask_hidden ask) w; ledger_loop fuel ask (requests + 1) w
        else if lw_cursor w <? len (lw_keys w) then
          w <~ read_known (ask_hidden ask) w; ledger_loop fuel ask (requests + 1) w
        else if lg_done (lw_ledger w) then done w
        else w <~ read_listing (ask_hidden ask) w; ledger_loop fuel ask (requests + 1) w
      else done w
  end.

Definition initial_ledger_walk (ask : Ask) (current : list Row * PageInfo) (lg : Ledger) : LedgerWalk :=
  let '(retained, info) := current in
  let rows := retain_half (ask_before ask) (List.filter (fun r => negb (is_hidden (ask_hidden ask) (snd r))) retained) in
  let known := len (ks_list (lg_keys lg)) in
  let cursor := match last rows ≫= (fun r => place_of r lg) with Some i => i + 1 | None => Z.min (pi_end info) known end in
  let first := default (Z.min (pi_offset info) known) (head rows ≫= (fun r => place_of r lg)) in
  mk_ledger_walk rows lg ∅ (pi_total info) cursor first.

Definition ledger_answer (ask : Ask) (info : PageInfo) (w : LedgerWalk) : list Row * PageInfo :=
  let lg := lw_ledger w in
  let known := len (lw_keys w) in
  let rows := placed lg (lw_rows w) in
  let offset := match head rows with Some r => fst r | None => Z.min (lw_first w) known end in
  let end_ := if ask_before ask then match last rows with Some r => fst r + 1 | None => offset end
              else Z.min (lw_cursor w) known in
  let more := (ask_before ask && pi_more info) || (end_ <? known) || negb (lg_done lg) in
  (rows, mk_info offset end_ (lw_total w) more false).

(** Every turn of the loop is a request, and there are eight. *)
Definition ledger_fuel : nat := 9.

Definition ledger_window (ask : Ask) (current : list Row * PageInfo) (lg : Ledger) :
    Reading St ((list Row * PageInfo) * Ledger) :=
  w <~ ledger_loop ledger_fuel ask 0 (initial_ledger_walk ask current lg);
  done (ledger_answer ask (snd current) w, lw_ledger w).

End LedgerWindow.
