(* ===== verification/ShelfKeys.v ===== *)
(** * What a ledger keeps

    The index of the keys is the list's, and noting a window keeps the order of what was shown before
    and takes over the window's own. *)

From stdpp Require Import list gmap.
From S2P Require Import Prelude Bytes ShelfWindow ShelfReading ShelfLedger.

#[local] Open Scope Z_scope.

(** The index says of every key where the list has it, once. *)
Record keys_ok (ks : Keys) : Prop := mk_keys_ok {
  ko_nodup : NoDup (ks_list ks);
  ko_index : forall k i, ks_index ks !! k = Some i <-> 0 <= i /\ ks_list ks !! Z.to_nat i = Some k
}.

Lemma number_other at_ l index k : k ∉ l -> number_from at_ l index !! k = index !! k.
Proof.
  revert at_ index. induction l as [|x l IH]; intros at_ index Hk; [done|]. apply not_elem_of_cons in Hk as [Hx Hk].
  cbn. rewrite IH by done. by rewrite lookup_insert_ne by done.
Qed.

Lemma number_here at_ l index k j : NoDup l -> l !! j = Some k -> number_from at_ l index !! k = Some (at_ + Z.of_nat j).
Proof.
  intros Hn. revert at_ index j. induction Hn as [|x l Hx Hn IH]; intros at_ index j; [done|]. cbn. destruct j as [|j]; cbn.
  - intros [= ->]. rewrite number_other by done. rewrite lookup_insert_eq. f_equal. lia.
  - intros Hj. rewrite (IH _ _ j) by done. f_equal. lia.
Qed.

(** A list written into an index from [at_] on, whose keys before it are in place. *)
Lemma renumbered_ok pre l index : NoDup (pre ++ l) ->
  (forall k i, k ∉ l -> index !! k = Some i <-> 0 <= i /\ pre !! Z.to_nat i = Some k) ->
  keys_ok (mk_keys (pre ++ l) (number_from (len pre) l index)).
Proof.
  intros Hn Hpre. constructor; cbn; [done|]. intros k i. apply NoDup_app in Hn as (Hn1 & Hdis & Hn2).
  destruct (decide (k ∈ l)) as [Hk|Hk].
  - apply list_elem_of_lookup in Hk as [j Hj]. rewrite (number_here _ _ _ _ j) by done. unfold len. split.
    + intros [= <-]. split; [lia|]. rewrite lookup_app_r by lia. by replace (Z.to_nat _ - length pre)%nat with j by lia.
    + intros [Hi Hl]. apply lookup_app_Some in Hl as [Hl|[Hge Hl]].
      * apply list_elem_of_lookup_2 in Hl. apply Hdis in Hl. apply list_elem_of_lookup_2 in Hj. done.
      * f_equal. pose proof (NoDup_lookup _ _ _ _ Hn2 Hl Hj). lia.
  - rewrite number_other, Hpre by done. split; intros [Hi Hl]; (split; [done|]).
    + by apply lookup_app_l_Some.
    + apply lookup_app_Some in Hl as [Hl|[_ Hl]]; [done|]. by apply list_elem_of_lookup_2 in Hl.
Qed.

Lemma keys_from_ok l : NoDup l -> keys_ok (keys_from l).
Proof.
  intros Hn. apply (renumbered_ok [] l ∅ Hn). intros k i _. rewrite lookup_empty. split; [done|]. intros [_ Hl]. done.
Qed.

Lemma edit_ok change ks : NoDup (change (ks_list ks)) -> keys_ok (edit change ks).
Proof. apply keys_from_ok. Qed.

Lemma bool_filter_elem (f : LedgerKey -> bool) l k : k ∈ List.filter f l <-> k ∈ l /\ f k = true.
Proof. by rewrite !list_elem_of_In, filter_In. Qed.

Lemma bool_filter_sublist {A} (f : A -> bool) l : List.filter f l `sublist_of` l.
Proof. induction l as [|x l IH]; cbn; [constructor|]. destruct (f x); by constructor. Qed.

Lemma sublist_nodup {A} (l k : list A) : l `sublist_of` k -> NoDup k -> NoDup l.
Proof. intros Hs Hn. by apply (sublist_NoDup l k). Qed.

Lemma retain_ok keep ks : keys_ok ks -> keys_ok (retain keep ks).
Proof. intros [Hn _]. apply edit_ok. eapply sublist_nodup; [apply bool_filter_sublist|done]. Qed.

Lemma first_seen_spec seen l : NoDup (first_seen seen l) /\ forall k, k ∈ first_seen seen l <-> k ∈ l /\ k ∉ seen.
Proof.
  revert seen. induction l as [|x l IH]; intros seen; cbn.
  { split; [constructor|]. intros k. rewrite !elem_of_nil. naive_solver. }
  destruct (bool_decide (x ∈ seen)) eqn:E.
  - apply bool_decide_eq_true in E. destruct (IH seen) as [Hn He]. split; [done|].
    intros k. rewrite He, elem_of_cons. naive_solver.
  - apply bool_decide_eq_false in E. destruct (IH ({[x]} ∪ seen)) as [Hn He]. split.
    + constructor; [|done]. rewrite He, elem_of_union, elem_of_singleton. naive_solver.
    + intros k. rewrite !elem_of_cons, He, elem_of_union, elem_of_singleton. destruct (decide (k = x)); naive_solver.
Qed.

Lemma keys_collect_ok l : keys_ok (keys_collect l).
Proof. apply keys_from_ok, first_seen_spec. Qed.

Section Keys.
Context (ks : Keys) (Hok : keys_ok ks).

Lemma contain_iff k : keys_contain k ks = true <-> k ∈ ks_list ks.
Proof.
  unfold keys_contain. rewrite bool_decide_eq_true. split.
  - intros [i [_ Hi]%(ko_index _ Hok)]. by eapply list_elem_of_lookup_2.
  - intros [j Hj]%list_elem_of_lookup. exists (Z.of_nat j). apply (ko_index _ Hok). rewrite Nat2Z.id. split; [lia|done].
Qed.

Lemma contain_false k : keys_contain k ks = false <-> k ∉ ks_list ks.
Proof. by rewrite <- contain_iff, not_true_iff_false. Qed.

Lemma position_Some k i : position_of k ks = Some i -> exists pre post, ks_list ks = pre ++ k :: post /\ len pre = i.
Proof.
  intros [Hi Hl]%(ko_index _ Hok). exists (take (Z.to_nat i) (ks_list ks)), (drop (S (Z.to_nat i)) (ks_list ks)).
  split; [symmetry; by apply take_drop_middle|]. unfold len. rewrite length_take_le; [lia|].
  apply lookup_lt_Some in Hl. lia.
Qed.

Lemma position_at pre k post : ks_list ks = pre ++ k :: post -> position_of k ks = Some (len pre).
Proof.
  intros Hl. apply (ko_index _ Hok). rewrite Hl. unfold len. rewrite Nat2Z.id. split; [lia|]. by apply list_lookup_middle.
Qed.

Lemma position_None k : position_of k ks = None <-> k ∉ ks_list ks.
Proof. rewrite <- contain_iff. unfold keys_contain, position_of. rewrite bool_decide_eq_true, eq_None_not_Some. done. Qed.

Lemma insert_at_ok pre post k : ks_list ks = pre ++ post -> k ∉ ks_list ks ->
  exists ks', insert_at (len pre) k ks = Some ks' /\ ks_list ks' = pre ++ k :: post /\ keys_ok ks'.
Proof.
  intros Hl Hk. unfold insert_at. rewrite (proj2 (contain_false k) Hk), Hl.
  destruct (Z.leb_spec 0 (len pre)); [|unfold len in *; lia].
  destruct (Z.leb_spec (len pre) (len (pre ++ post))); [|unfold len in *; rewrite length_app in *; lia]. cbn [andb].
  cbv zeta. replace (Z.to_nat (len pre)) with (length pre) by (unfold len; lia).
  rewrite take_app_length, drop_app_length, drop_app_length.
  eexists. split; [reflexivity|]. split; [done|]. pose proof (ko_nodup _ Hok) as Hn. rewrite Hl in Hn, Hk.
  apply renumbered_ok.
  - apply NoDup_app in Hn as (Hn1 & Hdis & Hn2). apply NoDup_app. split; [done|]. rewrite not_elem_of_app in Hk.
    split; [|by constructor; [by destruct Hk|]]. intros x Hx [->|Hp]%elem_of_cons; [by destruct Hk as [Hk _]|]. by apply (Hdis x Hx).
  - intros x i Hx. rewrite (ko_index _ Hok), Hl. apply not_elem_of_cons in Hx as [_ Hx].
    split; intros [Hi Hp]; (split; [done|]); [|by apply lookup_app_l_Some].
    apply lookup_app_Some in Hp as [Hp|[_ Hp]]; [done|]. by apply list_elem_of_lookup_2 in Hp.
Qed.

Lemma push_ok k : k ∉ ks_list ks -> ks_list (keys_push k ks) = ks_list ks ++ [k] /\ keys_ok (keys_push k ks).
Proof.
  intros Hk. unfold keys_push. rewrite (proj2 (contain_false k) Hk). split; [done|].
  apply (renumbered_ok (ks_list ks) [k] (ks_index ks)).
  - apply NoDup_app. split; [apply (ko_nodup _ Hok)|]. split; [|apply NoDup_singleton].
    intros x Hx ->%list_elem_of_singleton. done.
  - intros x i _. apply (ko_index _ Hok).
Qed.

End Keys.

(** ** Noting a window *)

(** What becomes of the keys: the ones that were there in their order, and the new ones. *)
Definition grown (keys : list LedgerKey) (ks ks' : Keys) : Prop :=
  keys_ok ks' /\ ks_list ks `sublist_of` ks_list ks' /\ forall k, k ∈ ks_list ks' <-> k ∈ ks_list ks \/ k ∈ keys.

Lemma grown_none ks : keys_ok ks -> grown [] ks ks.
Proof. intros Hok. split; [done|]. split; [reflexivity|]. intros k. rewrite elem_of_nil. naive_solver. Qed.

Lemma grown_more k keys ks ks1 ks2 : (forall x, x ∈ ks_list ks1 <-> x ∈ ks_list ks \/ x = k) ->
  ks_list ks `sublist_of` ks_list ks1 -> grown keys ks1 ks2 -> grown (k :: keys) ks ks2.
Proof.
  intros Hk Hs (Hok & Hs2 & He). split; [done|]. split; [by etrans|]. intros x. rewrite He, Hk, elem_of_cons. naive_solver.
Qed.

Lemma inserted_elem pre post k ks ks' : ks_list ks = pre ++ post -> ks_list ks' = pre ++ k :: post ->
  (forall x, x ∈ ks_list ks' <-> x ∈ ks_list ks \/ x = k) /\ ks_list ks `sublist_of` ks_list ks'.
Proof.
  intros -> ->. split; [intros x; rewrite !elem_of_app, elem_of_cons; naive_solver|].
  apply sublist_app; [done|by apply sublist_cons].
Qed.

Lemma cut_at {A} (l : list A) i : 0 <= i <= len l -> exists pre post, l = pre ++ post /\ len pre = i.
Proof.
  intros Hi. exists (take (Z.to_nat i) l), (drop (Z.to_nat i) l). split; [by rewrite take_drop|].
  unfold len in *. rewrite length_take_le; lia.
Qed.

Lemma insert_step at_ k ks : keys_ok ks -> 0 <= at_ <= len (ks_list ks) -> exists ks', insert_at at_ k ks = Some ks'
  /\ keys_ok ks' /\ ks_list ks `sublist_of` ks_list ks' /\ (forall x, x ∈ ks_list ks' <-> x ∈ ks_list ks \/ x = k)
  /\ (k ∉ ks_list ks -> len (ks_list ks') = len (ks_list ks) + 1) /\ len (ks_list ks) <= len (ks_list ks').
Proof.
  intros Hok Hat. destruct (decide (k ∈ ks_list ks)) as [Hk|Hk].
  - exists ks. unfold insert_at. rewrite (proj2 (contain_iff ks Hok k) Hk). split_and!; try done. naive_solver.
  - destruct (cut_at _ _ Hat) as (pre & post & Hl & <-).
    destruct (insert_at_ok ks Hok pre post k Hl Hk) as (ks' & -> & Hl' & Hok'). exists ks'.
    destruct (inserted_elem _ _ _ _ _ Hl Hl') as [He Hs]. split_and!; try done; rewrite Hl, Hl'; unfold len; rewrite !length_app; cbn; lia.
Qed.

Lemma insert_each_grown at_ keys : forall ks, keys_ok ks -> 0 <= at_ <= len (ks_list ks) ->
  exists ks', insert_each at_ keys ks = Some ks' /\ grown keys ks ks'.
Proof.
  induction keys as [|k keys IH]; intros ks Hok Hat; cbn; [exists ks; split; [done|by apply grown_none]|].
  destruct (insert_step at_ k ks Hok Hat) as (ks1 & -> & Hok1 & Hs & He & _ & Hl). cbn.
  destruct (IH ks1 Hok1 ltac:(lia)) as (ks2 & -> & Hg). exists ks2. split; [done|by eapply grown_more].
Qed.

Lemma note_after_grown keys : forall cursor ks, keys_ok ks -> 0 <= cursor <= len (ks_list ks) ->
  exists ks', note_after cursor keys ks = Some ks' /\ grown keys ks ks'.
Proof.
  induction keys as [|k keys IH]; intros cursor ks Hok Hc; cbn; [exists ks; split; [done|by apply grown_none]|].
  destruct (position_of k ks) as [i|] eqn:Hp.
  - apply (position_Some ks Hok) in Hp as (pre & post & Hl & <-).
    destruct (IH (len pre + 1) ks Hok) as (ks2 & -> & Hg); [rewrite Hl; unfold len; rewrite length_app; cbn; lia|].
    exists ks2. split; [done|]. eapply grown_more, Hg; [|reflexivity]. intros x. rewrite Hl, elem_of_app, elem_of_cons. naive_solver.
  - apply (position_None ks Hok) in Hp. destruct (insert_step cursor k ks Hok Hc) as (ks1 & -> & Hok1 & Hs & He & Hl & _). cbn.
    specialize (Hl Hp). destruct (IH (cursor + 1) ks1 Hok1 ltac:(lia)) as (ks2 & -> & Hg). exists ks2. split; [done|by eapply grown_more].
Qed.

Lemma push_all_grown keys : forall ks, keys_ok ks -> grown keys ks (fold_left (fun ks key => keys_push key ks) keys ks).
Proof.
  induction keys as [|k keys IH]; intros ks Hok; [by apply grown_none|]. cbn [fold_left].
  destruct (decide (k ∈ ks_list ks)) as [Hk|Hk].
  - unfold keys_push at 2. rewrite (proj2 (contain_iff ks Hok k) Hk). eapply grown_more, IH; [|reflexivity|done]. naive_solver.
  - destruct (push_ok ks Hok k Hk) as [Hl Hok']. eapply grown_more, IH, Hok'; rewrite Hl.
    + intros x. by rewrite elem_of_app, list_elem_of_singleton.
    + by apply sublist_inserts_r.
Qed.

Lemma elem_of_rev {A} (l : list A) x : x ∈ rev l <-> x ∈ l.
Proof. rewrite !list_elem_of_In. symmetry. apply in_rev. Qed.

Lemma anchor_spec ks keys anchor : keys_ok ks -> index_of (fun key => keys_contain key ks) keys = Some anchor ->
  exists pre k post, keys = pre ++ k :: post /\ len pre = anchor /\ (forall x, x ∈ pre -> x ∉ ks_list ks) /\ k ∈ ks_list ks.
Proof.
  intros Hok. revert anchor. induction keys as [|k keys IH]; intros anchor; [done|]. cbn. destruct (keys_contain k ks) eqn:Hk.
  - intros [= <-]. exists [], k, keys. split_and!; try done; [intros x Hx; by apply not_elem_of_nil in Hx|by apply contain_iff].
  - intros (j & (pre & a & post & -> & <- & Hpre & Ha)%IH & ->)%fmap_Some. exists (k :: pre), a, post.
    split_and!; try done; [unfold len; cbn [length]; lia|]. intros x [->|Hx]%elem_of_cons; [by apply contain_false|by apply Hpre].
Qed.

Lemma note_keys_grown keys ks : keys_ok ks -> exists ks', note_keys keys ks = Some ks' /\ grown keys ks ks'.
Proof.
  intros Hok. unfold note_keys. destruct (forallb _ keys) eqn:Hall.
  - exists ks. split; [done|]. split; [done|]. split; [reflexivity|]. intros k. rewrite forallb_forall in Hall.
    split; [by left|]. intros [?|Hk]; [done|]. apply (contain_iff ks Hok), Hall. by apply list_elem_of_In.
  - clear Hall. destruct (index_of _ keys) as [anchor|] eqn:Han; [|eexists; split; [reflexivity|by apply push_all_grown]].
    destruct (anchor_spec ks keys anchor Hok Han) as (pre & k & post & -> & <- & Hpre & Hk).
    replace (Z.to_nat (len pre)) with (length pre) by (unfold len; lia).
    rewrite list_lookup_middle, take_app_length, drop_app_length by done.
    apply list_elem_of_split in Hk as (l1 & l2 & Hl). rewrite (position_at ks Hok _ _ _ Hl). cbn [default from_option id].
    destruct (insert_each_grown (len l1) (rev pre) ks Hok) as (ks1 & -> & Hok1 & Hs1 & He1);
      [rewrite Hl; unfold len; rewrite length_app; cbn; lia|]. cbn [option_bind mbind note_after].
    destruct (position_of k ks1) as [i|] eqn:Hp.
    + apply (position_Some ks1 Hok1) in Hp as (p & q & Hl1 & <-).
      destruct (note_after_grown post (len p + 1) ks1 Hok1) as (ks2 & -> & Hok2 & Hs2 & He2);
        [rewrite Hl1; unfold len; rewrite length_app; cbn; lia|]. exists ks2. split; [done|]. split; [done|]. split; [by etrans|].
      intros x. rewrite He2, He1, Hl, elem_of_rev, !elem_of_app, !elem_of_cons. naive_solver.
    + apply (position_None ks1 Hok1) in Hp. destruct Hp. apply He1. left. rewrite Hl. apply elem_of_app. right. by constructor.
Qed.

(** *** A window that does not contradict the ledger *)

(** The keys the ledger knows, in the window's order. *)
Definition known (ks : Keys) (keys : list LedgerKey) : list LedgerKey := filter (fun k => k ∈ ks_list ks) keys.

Lemma split_unique {A} (k : A) l1 l2 m1 m2 : NoDup (l1 ++ k :: l2) -> l1 ++ k :: l2 = m1 ++ k :: m2 -> l1 = m1 /\ l2 = m2.
Proof.
  intros Hn Heq. assert (length l1 = length m1) as Hlen.
  { eapply NoDup_lookup; [exact Hn|by apply list_lookup_middle|rewrite Heq; by apply list_lookup_middle]. }
  apply app_inj_1 in Heq as [-> [= ->]]; done.
Qed.

Lemma sublist_past {A} (k : A) fs mid rest : NoDup (mid ++ k :: rest) -> k :: fs `sublist_of` mid ++ k :: rest -> fs `sublist_of` rest.
Proof. intros Hn (l1 & l2 & Heq & Hs)%sublist_cons_l. apply split_unique in Heq as [_ ->]; done. Qed.

Lemma nodup_drop_after {A} (l : list A) pre k post i : NoDup l -> l = pre ++ k :: post -> k ∈ drop i l -> exists mid, drop i l = mid ++ k :: post /\ take i l ++ mid = pre.
Proof.
  intros Hn Hl (mid & post' & Hd)%list_elem_of_split. exists mid.
  assert (l = (take i l ++ mid) ++ k :: post') as Hl' by (rewrite <- app_assoc, <- Hd; by rewrite take_drop).
  rewrite Hl' in Hl. rewrite Hl' in Hn. apply split_unique in Hl as [Hpre ->]; [|done]. by split.
Qed.

Lemma known_same ks ks' keys : (forall k, k ∈ keys -> k ∈ ks_list ks' <-> k ∈ ks_list ks) -> known ks' keys = known ks keys.
Proof.
  intros He. unfold known. induction keys as [|k keys IH]; [done|]. rewrite !filter_cons.
  rewrite IH by (intros x Hx; apply He; by constructor). specialize (He k ltac:(by constructor)).
  destruct (decide (k ∈ ks_list ks)), (decide (k ∈ ks_list ks')); naive_solver.
Qed.

Lemma known_all ks keys : (forall k, k ∈ keys -> k ∈ ks_list ks) -> known ks keys = keys.
Proof.
  intros He. unfold known. induction keys as [|k keys IH]; [done|]. rewrite filter_cons, decide_True by (apply He; by constructor).
  f_equal. apply IH. intros x Hx. apply He. by constructor.
Qed.

Lemma known_none ks keys : (forall k, k ∈ keys -> k ∉ ks_list ks) -> known ks keys = [].
Proof.
  intros He. unfold known. induction keys as [|k keys IH]; [done|]. rewrite filter_cons, decide_False by (apply He; by constructor).
  apply IH. intros x Hx. apply He. by constructor.
Qed.

(** Each new key of a window stands in [l] right after the key the window shows it after. *)
Definition beside (old keys l : list LedgerKey) : Prop :=
  forall x a b y, keys = x ++ a :: b :: y -> b ∉ old -> exists p q, l = p ++ a :: b :: q.

(** The first key of a window, when it is new or when [l] goes on with it. *)
Definition leads (old rest keys l : list LedgerKey) : Prop :=
  forall k keys', keys = k :: keys' -> k ∉ old \/ head rest = Some k -> exists t, l = k :: t.

Lemma beside_cons old rest k keys mid l :
  beside old keys l -> leads old rest keys l -> beside old (k :: keys) (mid ++ k :: l).
Proof.
  intros Hb Hl [|z x] a b y [= -> ->] Hnew.
  - destruct (Hl b y eq_refl (or_introl Hnew)) as [t ->]. by exists mid, t.
  - destruct (Hb x a b y eq_refl Hnew) as (p & q & ->). exists (mid ++ z :: p), q. by rewrite <- app_assoc.
Qed.

Lemma beside_fewer old old' keys l : (forall k, k ∈ keys -> k ∈ old' -> k ∈ old) -> beside old' keys l -> beside old keys l.
Proof.
  intros Hsub Hb x a b y Hk Hnew. eapply Hb; [exact Hk|]. intros Hin. apply Hnew, Hsub; [|done].
  rewrite Hk, elem_of_app. right. do 2 constructor.
Qed.

Lemma beside_extra old pre l keys : beside old keys l -> beside old keys (pre ++ l).
Proof. intros Hb x a b y Hk Hnew. destruct (Hb x a b y Hk Hnew) as (p & q & ->). exists (pre ++ p), q. by rewrite <- app_assoc. Qed.

Lemma note_after_in_order keys : forall cursor ks ks', keys_ok ks -> 0 <= cursor <= len (ks_list ks) -> NoDup keys ->
  known ks keys `sublist_of` drop (Z.to_nat cursor) (ks_list ks) -> note_after cursor keys ks = Some ks' ->
  exists tail, ks_list ks' = take (Z.to_nat cursor) (ks_list ks) ++ tail /\ keys `sublist_of` tail
    /\ beside (ks_list ks) keys tail /\ leads (ks_list ks) (drop (Z.to_nat cursor) (ks_list ks)) keys tail.
Proof.
  induction keys as [|k keys IH]; intros cursor ks ks' Hok Hc Hn Hsub.
  - intros [= <-]. exists (drop (Z.to_nat cursor) (ks_list ks)). split_and!; [by rewrite take_drop|apply sublist_nil_l| |].
    + intros [|? [|??]] ? ? ?; discriminate.
    + intros ? ?; discriminate.
  - cbn. apply NoDup_cons in Hn as [Hk Hn]. unfold known in Hsub. rewrite filter_cons in Hsub. fold (known ks keys) in Hsub.
    destruct (position_of k ks) as [i|] eqn:Hp.
    + apply (position_Some ks Hok) in Hp as (pre & post & Hl & <-). rewrite decide_True in Hsub by (rewrite Hl; apply elem_of_app; right; by constructor).
      assert (k ∈ drop (Z.to_nat cursor) (ks_list ks)) as Hin by (eapply elem_of_sublist; [by constructor|exact Hsub]).
      destruct (nodup_drop_after _ _ _ _ _ (ko_nodup _ Hok) Hl Hin) as (mid & Hd & Hpre). rewrite Hd in *.
      assert (NoDup (mid ++ k :: post)) as Hnd.
      { rewrite <- Hd. pose proof (ko_nodup _ Hok) as Hnd. rewrite <- (take_drop (Z.to_nat cursor) (ks_list ks)) in Hnd.
        by apply NoDup_app in Hnd as (_ & _ & ?). }
      apply (sublist_past _ _ _ _ Hnd) in Hsub.
      assert (Z.to_nat (len pre + 1) = S (length pre)) as Hlen by (unfold len; lia).
      assert (ks_list ks = (pre ++ [k]) ++ post) as Hl' by (rewrite Hl, <- app_assoc; done).
      intros Hna. destruct (IH (len pre + 1) ks ks' Hok) as (tail & Ht & Hs & Hbe & Hle); try done.
      * rewrite Hl. unfold len. rewrite length_app. cbn. lia.
      * rewrite Hlen, Hl'. replace (S (length pre)) with (length (pre ++ [k])) by (rewrite length_app; cbn; lia). by rewrite drop_app_length.
      * exists (mid ++ k :: tail). split_and!; [|by apply sublist_inserts_l, sublist_skip|by eapply beside_cons|].
        -- rewrite Ht, Hlen, Hl' at 1.
           replace (S (length pre)) with (length (pre ++ [k])) by (rewrite length_app; cbn; lia). rewrite take_app_length.
           rewrite <- Hpre, <- !app_assoc. done.
        -- intros k' keys' [= <- <-] [Hnew|Hhd]; [destruct Hnew; rewrite Hl, elem_of_app; right; by constructor|].
           exists tail. destruct mid as [|m mid]; [done|]. injection Hhd as ->. apply NoDup_cons in Hnd as [Hnd _].
           destruct Hnd. apply elem_of_app. right. by constructor.
    + apply (position_None ks Hok) in Hp. rewrite decide_False in Hsub by done.
      destruct (cut_at _ _ Hc) as (pre & post & Hl & <-).
      destruct (insert_at_ok ks Hok pre post k Hl Hp) as (ks1 & -> & Hl1 & Hok1). cbn.
      assert (Z.to_nat (len pre) = length pre /\ Z.to_nat (len pre + 1) = S (length pre)) as [Hlen Hlen1] by (unfold len; lia).
      assert (ks_list ks1 = (pre ++ [k]) ++ post) as Hl1' by (rewrite Hl1, <- app_assoc; done).
      assert (S (length pre) = length (pre ++ [k])) as Hsn by (rewrite length_app; cbn; lia).
      assert (forall x, x ∈ keys -> x ∈ ks_list ks1 <-> x ∈ ks_list ks) as Hsame.
      { intros x Hx. rewrite Hl1, Hl, !elem_of_app, elem_of_cons. assert (x <> k) by (intros ->; done). naive_solver. }
      intros Hna. destruct (IH (len pre + 1) ks1 ks' Hok1) as (tail & Ht & Hs & Hbe & Hle); try done.
      * rewrite Hl1. unfold len. rewrite length_app. cbn. lia.
      * rewrite Hlen1, Hl1', Hsn, drop_app_length. rewrite Hlen, Hl, drop_app_length in Hsub. by rewrite (known_same ks ks1).
      * exists (k :: tail). split_and!; [|by apply sublist_skip| |intros k' keys' [= <- <-] _; by exists tail].
        -- rewrite Ht, Hlen1, Hl1', Hsn, take_app_length, Hlen, Hl, take_app_length. by rewrite <- app_assoc.
        -- apply (beside_cons _ post k keys []); [eapply beside_fewer; [|exact Hbe]; intros; by apply Hsame|].
           intros k' keys' Hk' Hor. eapply Hle; [exact Hk'|]. rewrite Hlen1, Hl1', Hsn, drop_app_length.
           destruct Hor as [Hnew|]; [left|by right]. rewrite <- Hl1', Hsame; [done|]. rewrite Hk'. by constructor.
Qed.

Lemma drop_past {A} (pre : list A) k post : drop (S (length pre)) (pre ++ k :: post) = post.
Proof. by induction pre. Qed.

Lemma forwards_known ks keys : keys_ok ks -> forall last, -1 <= default (-1) last ->
  backwards last (omap (fun k => position_of k ks) keys) = false ->
  known ks keys `sublist_of` drop (Z.to_nat (default (-1) last + 1)) (ks_list ks).
Proof.
  intros Hok. induction keys as [|k keys IH]; intros last Hlast; [intros _; apply sublist_nil_l|]. unfold known. rewrite filter_cons.
  fold (known ks keys). cbn. destruct (position_of k ks) as [i|] eqn:Hp.
  - cbn. intros [Hi Hb]%orb_false_iff. apply (position_Some ks Hok) in Hp as (pre & post & Hl & <-).
    rewrite decide_True by (rewrite Hl; apply elem_of_app; right; by constructor).
    apply IH in Hb; [|cbn; unfold len; lia]. cbn in Hb. set (n := Z.to_nat (default (-1) last + 1)).
    assert (n <= length pre)%nat as Hle by (unfold n, len in *; destruct last; cbn in *; lia).
    replace (Z.to_nat (len pre + 1)) with (S (length pre)) in Hb by (unfold len; lia). rewrite Hl in Hb.
    rewrite drop_past in Hb.
    rewrite Hl, drop_app_le by done. by apply sublist_inserts_l, sublist_skip.
  - apply (position_None ks Hok) in Hp. rewrite decide_False by done. by apply IH.
Qed.

Lemma insert_each_exact keys : forall pre post ks, keys_ok ks -> ks_list ks = pre ++ post -> NoDup keys ->
  (forall k, k ∈ keys -> k ∉ ks_list ks) ->
  exists ks', insert_each (len pre) keys ks = Some ks' /\ ks_list ks' = pre ++ rev keys ++ post /\ keys_ok ks'.
Proof.
  induction keys as [|k keys IH]; intros pre post ks Hok Hl Hn Hnew; cbn; [by exists ks|]. apply NoDup_cons in Hn as [Hk Hn].
  destruct (insert_at_ok ks Hok pre post k Hl (Hnew k ltac:(by constructor))) as (ks1 & -> & Hl1 & Hok1). cbn.
  destruct (IH pre (k :: post) ks1 Hok1 Hl1 Hn) as (ks2 & -> & Hl2 & Hok2).
  - intros x Hx. rewrite Hl1, elem_of_app, elem_of_cons. specialize (Hnew x ltac:(by constructor)).
    rewrite Hl, elem_of_app in Hnew. assert (x <> k) by (intros ->; done). naive_solver.
  - exists ks2. split; [done|]. split; [|done]. rewrite Hl2, <- app_assoc. done.
Qed.

Lemma push_all_exact keys : forall ks, keys_ok ks -> NoDup keys -> (forall k, k ∈ keys -> k ∉ ks_list ks) ->
  ks_list (fold_left (fun ks key => keys_push key ks) keys ks) = ks_list ks ++ keys.
Proof.
  induction keys as [|k keys IH]; intros ks Hok Hn Hnew; [by rewrite app_nil_r|]. apply NoDup_cons in Hn as [Hk Hn].
  destruct (push_ok ks Hok k (Hnew k ltac:(by constructor))) as [Hl Hok']. cbn [fold_left]. rewrite IH; [by rewrite Hl, <- app_assoc|done|done|].
  intros x Hx. rewrite Hl, elem_of_app, list_elem_of_singleton. specialize (Hnew x ltac:(by constructor)).
  assert (x <> k) by (intros ->; done). naive_solver.
Qed.

Lemma index_none keys ks : keys_ok ks -> index_of (fun key => keys_contain key ks) keys = None -> forall k, k ∈ keys -> k ∉ ks_list ks.
Proof. intros Hok Hi k Hk. apply (contain_false ks Hok). by apply (index_of_None _ _ Hi). Qed.

(** Where the keys of a window that goes forwards end up: in their order, each new one right after the
    key it was shown after; the new ones before the first known key right before it; at the end when
    none is known. *)
Record noted_beside (old keys new : list LedgerKey) : Prop := mk_noted_beside {
  nb_order : keys `sublist_of` new;
  nb_after : beside old keys new;
  nb_before : forall pre k post l1 l2, keys = pre ++ k :: post -> (forall x, x ∈ pre -> x ∉ old) ->
    old = l1 ++ k :: l2 -> exists q, new = l1 ++ pre ++ k :: q;
  nb_end : (forall k, k ∈ keys -> k ∉ old) -> new = old ++ keys
}.

Lemma beside_runs old pre k post tail : beside old (k :: post) (k :: tail) -> NoDup (pre ++ k :: post) -> k ∈ old ->
  beside old (pre ++ k :: post) (pre ++ k :: tail).
Proof.
  intros Hb Hn Hk x a b y Heq Hnew. apply app_eq_app in Heq as [l [[-> Hl]|[-> Hl]]].
  - destruct l as [|c [|d l]]; cbn in Hl.
    + destruct (Hb [] a b y (eq_sym Hl) Hnew) as (p & q & Hpq). exists ((x ++ []) ++ p), q. rewrite Hpq; by rewrite app_assoc.
    + injection Hl as <- <- _. done.
    + injection Hl as <- <- _. exists x, (l ++ k :: tail). by rewrite <- app_assoc.
  - destruct (Hb l a b y Hl Hnew) as (p & q & Hpq). exists (pre ++ p), q. rewrite Hpq; by rewrite app_assoc.
Qed.

(** The first known key of a window is one. *)
Lemma first_known_unique {A} (P : A -> Prop) pre k post pre' k' post' :
  pre ++ k :: post = pre' ++ k' :: post' -> (forall x, x ∈ pre -> ~ P x) -> (forall x, x ∈ pre' -> ~ P x) -> P k -> P k' ->
  pre = pre' /\ k = k' /\ post = post'.
Proof.
  revert pre'. induction pre as [|x pre IH]; intros [|x' pre'] Heq H1 H2 Hk Hk'; cbn in Heq.
  - by injection Heq as -> ->.
  - injection Heq as -> _. destruct (H2 x'); [by constructor|done].
  - injection Heq as -> _. destruct (H1 k'); [by constructor|done].
  - injection Heq as -> Heq. destruct (IH pre' Heq) as (-> & -> & ->); try done; intros y Hy; [apply H1|apply H2]; by constructor.
Qed.

(** The window with its first known key at [k]. *)
Lemma note_anchored pre k post l1 l2 ks ks1 ks' : keys_ok ks -> NoDup (pre ++ k :: post) ->
  (forall x, x ∈ pre -> x ∉ ks_list ks) -> ks_list ks = l1 ++ k :: l2 ->
  ks_list ks1 = l1 ++ pre ++ k :: l2 -> keys_ok ks1 -> known ks post `sublist_of` l2 ->
  note_after (len l1 + len pre) (k :: post) ks1 = Some ks' ->
  noted_beside (ks_list ks) (pre ++ k :: post) (ks_list ks').
Proof.
  intros Hok Hn Hpre Hl Hl1 Hok1 Hsub Hna. pose proof Hn as (Hn1 & Hdis & Hn2)%NoDup_app.
  assert (Z.to_nat (len l1 + len pre) = length (l1 ++ pre)) as Hlen by (rewrite length_app; unfold len; lia).
  assert (forall x, x ∈ k :: post -> x ∈ ks_list ks1 <-> x ∈ ks_list ks) as Hsame.
  { intros x Hx. rewrite Hl1, Hl, !elem_of_app. assert (x ∉ pre) by (intros Hp; by apply (Hdis x)). naive_solver. }
  assert (k ∈ ks_list ks) as Hk by (rewrite Hl, elem_of_app; right; by constructor).
  destruct (note_after_in_order (k :: post) (len l1 + len pre) ks1 ks' Hok1) as (tail & Ht & Hs & Hbe & Hle); try done.
  - rewrite Hl1. unfold len. rewrite !length_app. lia.
  - rewrite Hlen, Hl1, app_assoc, drop_app_length. rewrite (known_same ks ks1) by done.
    unfold known. rewrite filter_cons, decide_True by done. by apply sublist_skip.
  - rewrite Hlen, Hl1, app_assoc, take_app_length, <- app_assoc in Ht. destruct (Hle k post eq_refl) as [t ->].
    { right. by rewrite Hlen, Hl1, app_assoc, drop_app_length. }
    split.
    + rewrite Ht. by apply sublist_inserts_l, sublist_app.
    + rewrite Ht. apply beside_extra, beside_runs; try done. eapply beside_fewer; [|exact Hbe]. intros; by apply Hsame.
    + intros pre' k' post' m1 m2 Heq Hpre' Hm. assert (k' ∈ ks_list ks) as Hk' by (rewrite Hm, elem_of_app; right; by constructor).
      destruct (first_known_unique (fun x => x ∈ ks_list ks) _ _ _ _ _ _ Heq Hpre Hpre' Hk Hk') as (<- & <- & <-).
      rewrite Hl in Hm. apply split_unique in Hm as [<- _]; [by exists t|]. rewrite <- Hl. apply (ko_nodup _ Hok).
    + intros Hnone. destruct (Hnone k); [|done]. apply elem_of_app. right. by constructor.
Qed.

Lemma note_keys_in_order keys ks ks' : keys_ok ks -> NoDup keys ->
  backwards None (omap (fun k => position_of k ks) keys) = false -> note_keys keys ks = Some ks' ->
  noted_beside (ks_list ks) keys (ks_list ks').
Proof.
  intros Hok Hn Hb. apply forwards_known in Hb; [|done|done]. cbn in Hb. rewrite drop_0 in Hb. unfold note_keys.
  destruct (forallb _ keys) eqn:Hall.
  - intros [= <-]. assert (forall k, k ∈ keys -> k ∈ ks_list ks) as Hin.
    { intros k Hk%list_elem_of_In. rewrite forallb_forall in Hall. by apply (contain_iff ks Hok), Hall. }
    rewrite known_all in Hb by done. split; [done|..].
    + intros x a b y -> Hnew. destruct Hnew. apply Hin, elem_of_app. right. do 2 constructor.
    + intros [|x pre] k post l1 l2 -> Hpre ->; [by exists l2|].
      destruct (Hpre x); [by constructor|]. apply Hin. by constructor.
    + intros Hnone. destruct keys as [|k keys]; [by rewrite app_nil_r|]. destruct (Hnone k); [|apply Hin]; by constructor.
  - destruct (index_of _ keys) as [anchor|] eqn:Han.
    + destruct (anchor_spec ks keys anchor Hok Han) as (pre & k & post & -> & <- & Hpre & Hk).
      replace (Z.to_nat (len pre)) with (length pre) by (unfold len; lia).
      rewrite list_lookup_middle, take_app_length, drop_app_length by done.
      pose proof Hn as (Hn1 & Hdis & Hn2)%NoDup_app. unfold known in Hb. rewrite filter_app in Hb.
      fold (known ks pre) (known ks (k :: post)) in Hb. rewrite known_none in Hb by done. cbn [app] in Hb.
      apply list_elem_of_split in Hk as (l1 & l2 & Hl). rewrite (position_at ks Hok _ _ _ Hl). cbn [default from_option id].
      destruct (insert_each_exact (rev pre) l1 (k :: l2) ks Hok Hl) as (ks1 & -> & Hl1 & Hok1);
        [by apply NoDup_ListNoDup, List.NoDup_rev, NoDup_ListNoDup|intros x Hx; exact (Hpre x (proj1 (elem_of_rev _ _) Hx))|].
      rewrite rev_involutive in Hl1. cbn [option_bind mbind]. intros Hna. apply (note_anchored pre k post l1 l2 ks ks1); try done.
      unfold known in Hb. rewrite filter_cons, decide_True in Hb by (rewrite Hl; apply elem_of_app; right; by constructor).
      fold (known ks post) in Hb. pose proof (ko_nodup _ Hok) as Hnd. rewrite Hl in Hb, Hnd. by eapply sublist_past.
    + intros [= <-]. pose proof (index_none _ _ Hok Han) as Hnone. rewrite push_all_exact by done. split.
      * by apply sublist_inserts_l.
      * intros x a b y -> _. exists (ks_list ks ++ x), y. by rewrite <- app_assoc.
      * intros pre k post l1 l2 -> _ Hl. destruct (Hnone k); [apply elem_of_app; right; by constructor|].
        rewrite Hl, elem_of_app. right. by constructor.
      * done.
Qed.

Lemma omap_row_keys ks (rows : list Row) : omap (fun r => position_of (row_key r) ks) rows = omap (fun k => position_of k ks) (row_key <$> rows).
Proof. induction rows as [|r rows IH]; [done|]. cbn. rewrite IH. by destruct (position_of _ _). Qed.

(** C20. Noting a window loses nothing and moves nothing: the ledger keeps every key in the order it had,
    once, and has the window's keys.  When the window shows no key twice and does not contradict what was
    shown before, its own order is taken over too, and the new keys go beside the known ones they were
    shown with: each right after the key it was shown after, those before the window's first known key
    right before that one; a window with no known key is put at the end. *)
Theorem a_noted_window_is_in_order rows lg : keys_ok (lg_keys lg) ->
  exists lg', note rows lg = Some lg' /\ keys_ok (lg_keys lg')
    /\ ks_list (lg_keys lg) `sublist_of` ks_list (lg_keys lg')
    /\ (forall k, k ∈ ks_list (lg_keys lg') <-> k ∈ ks_list (lg_keys lg) \/ k ∈ row_key <$> rows)
    /\ (NoDup (row_key <$> rows) -> contradicts rows lg = false ->
         noted_beside (ks_list (lg_keys lg)) (row_key <$> rows) (ks_list (lg_keys lg'))).
Proof.
  intros Hok. destruct (note_keys_grown (row_key <$> rows) _ Hok) as (ks & Hks & Hok' & Hs & He). unfold note. rewrite Hks. cbn.
  eexists. split; [reflexivity|]. cbn. split; [done|]. split; [done|]. split; [done|]. intros Hn Hc.
  eapply note_keys_in_order; [exact Hok|exact Hn| |exact Hks]. rewrite <- omap_row_keys. exact Hc.
Qed.

(** ** Reads that answer *)

Section Yields.
Context {St : Type}.

(** Whatever the world, it fails or answers with [P]: it neither panics nor runs on. *)
Definition yields {A} (m : Reading St A) (P : A -> Prop) : Prop :=
  forall s, match fst (m s) with Answered a => P a | Page_failed => True | Panicked | Out_of_fuel => False end.

Lemma yields_done {A} (a : A) (P : A -> Prop) : P a -> yields (done a) P.
Proof. by intros Ha s. Qed.

Lemma yields_bind {A B} (m : Reading St A) (k : A -> Reading St B) (P : A -> Prop) (Q : B -> Prop) :
  yields m P -> (forall a, P a -> yields (k a) Q) -> yields (read_bind m k) Q.
Proof.
  intros Hm Hk s. specialize (Hm s). unfold read_bind. destruct (m s) as [[a| | |] s']; cbn in *; [by apply Hk|done|done|done].
Qed.

Lemma yields_panic {A} (a : A) (P : A -> Prop) : P a -> yields (or_panic (Some a)) P.
Proof. by intros Ha s. Qed.

Lemma yields_weaken {A} (m : Reading St A) (P Q : A -> Prop) : (forall a, P a -> Q a) -> yields m P -> yields m Q.
Proof. intros HPQ Hm s. specialize (Hm s). destruct (fst (m s)); auto. Qed.

Lemma yields_failed {A} (P : A -> Prop) : yields failed P.
Proof. by intros s. Qed.

End Yields.

(** ** The keys of a ledger are plain *)

(** A key reads back from its text. *)
Definition plain (k : LedgerKey) : Prop := ledger_key (key_text k) = k.

Lemma ledger_key_text key : key_text (ledger_key key) = key.
Proof. unfold ledger_key. destruct (parse_u64 key) as [n|]; [case_bool_decide|]; done. Qed.

Lemma ledger_key_plain key : plain (ledger_key key).
Proof. unfold plain. by rewrite ledger_key_text. Qed.

Lemma ledger_key_inj a b : ledger_key a = ledger_key b -> a = b.
Proof. intros H. by rewrite <- (ledger_key_text a), H, ledger_key_text. Qed.

Record ledger_ok (lg : Ledger) : Prop := mk_ledger_ok {
  lo_keys : keys_ok (lg_keys lg); lo_plain : Forall plain (ks_list (lg_keys lg))
}.

Lemma note_ok rows lg : ledger_ok lg -> exists lg', note rows lg = Some lg' /\ ledger_ok lg'
  /\ (forall k, k ∈ ks_list (lg_keys lg') <-> k ∈ ks_list (lg_keys lg) \/ k ∈ row_key <$> rows) /\ lg_active lg' = lg_active lg.
Proof.
  intros [Hok Hp]. destruct (note_keys_grown (row_key <$> rows) _ Hok) as (ks & Hks & Hok' & _ & He). unfold note. rewrite Hks. cbn.
  eexists. split; [reflexivity|]. cbn. split_and!; try done. constructor; cbn; [done|].
  apply Forall_forall. intros k [Hk|(r & -> & _)%list_elem_of_fmap]%He; [by rewrite Forall_forall in Hp; apply Hp|apply ledger_key_plain].
Qed.
