(* ===== verification/ShelfLedgers.v ===== *)
(** * What a ledger's window shows

    Whatever the server answers, a window moved over a ledger shows cards of the ledger, where the
    ledger has them. *)

From Stdlib Require Import Sorting.Sorted.
From stdpp Require Import list gmap.
From S2P Require Import Prelude Bytes ShelfWindow ShelfReading ShelfLedger ShelfKeys.

#[local] Open Scope Z_scope.
#[local] Open Scope reading_scope.

(** ** Rows in the order of the ledger *)

Definition ordered_rows (rows : list Row) : Prop := StronglySorted (fun a b : Row => fst a <= fst b) rows.

Lemma dedup_rows_sublist rows : dedup_rows rows `sublist_of` rows.
Proof.
  induction rows as [|r rows IH]; cbn; [constructor|]. destruct (dedup_rows rows) as [|x rest]; [by apply sublist_skip|].
  destruct (fst r =? fst x); apply sublist_skip; [|done]. etrans; [|exact IH]. by apply sublist_cons.
Qed.

Lemma dedup_rows_sorted rows : ordered_rows rows -> sorted_rows (dedup_rows rows).
Proof.
  induction 1 as [|r rows Hs IH Hr]; [constructor|]. cbn. pose proof (dedup_rows_sublist rows) as Hsub. rewrite Forall_forall in Hr.
  destruct (dedup_rows rows) as [|x rest]; [repeat constructor|]. apply StronglySorted_inv in IH as [Hs' Hx]. rewrite Forall_forall in Hx.
  assert (fst r <= fst x) as Hle by (apply Hr; eapply elem_of_sublist; [by constructor|exact Hsub]).
  destruct (Z.eqb_spec (fst r) (fst x)) as [Heq|Hne].
  - constructor; [done|]. apply Forall_forall. intros y Hy%Hx. lia.
  - constructor; [by constructor; [|apply Forall_forall]|]. apply Forall_forall. intros y [->|Hy%Hx]%elem_of_cons; lia.
Qed.

(** A row is where the ledger has its key. *)
Definition in_place (lg : Ledger) (r : Row) : Prop := 0 <= fst r /\ ks_list (lg_keys lg) !! Z.to_nat (fst r) = Some (row_key r).

Lemma placed_spec lg rows : keys_ok (lg_keys lg) -> sorted_rows (placed lg rows) /\ Forall (in_place lg) (placed lg rows)
  /\ (forall r, r ∈ placed lg rows -> exists r', r' ∈ rows /\ snd r' = snd r) /\ len (placed lg rows) <= len rows.
Proof.
  intros Hok. unfold placed. set (there := omap _ rows). pose proof (sort_by_key_perm fst there) as Hperm. pose proof (sort_by_key_sorted fst there) as Hs.
  pose proof (dedup_rows_sublist (sort_by_key fst there)) as Hsub.
  assert (forall r, r ∈ dedup_rows (sort_by_key fst there) -> exists r', r' ∈ rows /\ snd r' = snd r /\ place_of r' lg = Some (fst r)) as Hin.
  { intros r Hr. assert (r ∈ there) as (r' & Hr' & Hp)%list_elem_of_omap by (rewrite <- Hperm; by eapply elem_of_sublist).
    exists r'. apply bind_Some in Hp as (p & Hp & [= <-]). done. }
  split_and!.
  - by apply dedup_rows_sorted.
  - apply Forall_forall. intros r (r' & _ & Hc & Hp)%Hin. apply (ko_index _ Hok) in Hp as [Hp Hk]. split; [done|].
    unfold row_key. rewrite <- Hc. exact Hk.
  - intros r (r' & ? & ? & _)%Hin. by exists r'.
  - unfold len. apply sublist_length in Hsub. apply Permutation_length in Hperm.
    assert (length there <= length rows)%nat by (unfold there; clear; induction rows as [|r rows IH]; cbn; [lia|]; case_match; cbn; lia). lia.
Qed.

(** ** A walk over the ledger *)

Section Walk.
Context (ask : Ask) (active : bool).

Abbreviation hidden := (ask_hidden ask).

Definition shown (r : Row) : Prop := is_hidden hidden (snd r) = false.

Record walk_ok (w : LedgerWalk) : Prop := mk_walk_ok {
  wo_ledger : ledger_ok (lw_ledger w);
  wo_len : len (lw_rows w) <= MAX_SHELF_ITEMS;
  wo_shown : Forall shown (lw_rows w);
  wo_first : 0 <= lw_first w /\ (ask_before ask = true -> lw_first w <= len (lw_keys w));
  wo_cursor : 0 <= lw_cursor w;
  wo_cache : forall k c, lw_cache w !! k = Some c -> is_hidden hidden c = false;
  wo_active : lg_active (lw_ledger w) = active
}.

Lemma place_bound r lg i : keys_ok (lg_keys lg) -> place_of r lg = Some i -> 0 <= i < len (ks_list (lg_keys lg)).
Proof. intros Hok [Hi Hl]%(ko_index _ Hok). apply lookup_lt_Some in Hl. unfold len. lia. Qed.

Lemma retain_half_sublist before rows : retain_half before rows `sublist_of` rows.
Proof. unfold retain_half. destruct before; [apply sublist_take|]. case_match; [done|apply sublist_drop]. Qed.

Lemma retain_half_len before rows : len (retain_half before rows) <= HUB_FETCH_COUNT.
Proof.
  unfold retain_half, HUB_FETCH_COUNT, len. destruct before; [rewrite length_take; lia|].
  destruct (Z.leb_spec (Z.of_nat (length rows)) 12); [lia|]. rewrite length_drop. lia.
Qed.

Lemma Forall_sublist {A} (P : A -> Prop) l k : l `sublist_of` k -> Forall P k -> Forall P l.
Proof. intros Hs. rewrite !Forall_forall. intros Hk x Hx. apply Hk. by eapply elem_of_sublist. Qed.

Lemma initial_ledger_ok current lg : ledger_ok lg -> 0 <= pi_offset (snd current) -> 0 <= pi_end (snd current) ->
  lg_active lg = active -> walk_ok (initial_ledger_walk ask current lg).
Proof.
  intros Hlg Ho He Hact. destruct current as [retained info]. cbn in Ho, He. unfold initial_ledger_walk.
  set (rows := retain_half _ _). pose proof (retain_half_len (ask_before ask) (List.filter (fun r => negb (is_hidden hidden (snd r))) retained)) as Hl.
  fold rows in Hl. unfold HUB_FETCH_COUNT in Hl. pose proof (fun r => place_bound r lg) as Hb.
  assert (0 <= len (ks_list (lg_keys lg))) as Hk by (unfold len; lia).
  constructor; cbn; try done; [unfold MAX_SHELF_ITEMS; lia| | |].
  - eapply Forall_sublist; [apply retain_half_sublist|]. apply Forall_forall. intros r [_ Hr]%filter_rows_in.
    by apply negb_true_iff in Hr.
  - destruct (head rows ≫= _) as [i|] eqn:Hi; cbn; [|unfold lw_keys; cbn; lia]. apply bind_Some in Hi as (r & _ & Hi).
    specialize (Hb r i (lo_keys _ Hlg) Hi). unfold lw_keys. cbn. lia.
  - destruct (last rows ≫= _) as [i|] eqn:Hi; [|lia]. apply bind_Some in Hi as (r & _ & Hi).
    specialize (Hb r i (lo_keys _ Hlg) Hi). lia.
Qed.

(** *** Cards by key *)

Lemma slice_between_ok {A} lo hi (l : list A) : 0 <= lo <= hi -> hi <= len l ->
  exists pre mid post, l = pre ++ mid ++ post /\ len pre = lo /\ len mid = hi - lo /\ slice_between lo hi l = Some mid.
Proof.
  intros Hlo Hhi. exists (take (Z.to_nat lo) l), (take (Z.to_nat (hi - lo)) (drop (Z.to_nat lo) l)), (drop (Z.to_nat (hi - lo)) (drop (Z.to_nat lo) l)).
  split; [by rewrite !take_drop|]. unfold len in *. rewrite !length_take, length_drop. split; [lia|]. split; [lia|].
  unfold slice_between, len. destruct (Z.leb_spec 0 lo), (Z.leb_spec lo hi), (Z.leb_spec hi (Z.of_nat (length l))); try lia. done.
Qed.

Definition shown_card (f : Fetched) : Prop := match f with Card c => is_hidden hidden c = false | _ => True end.

Lemma fetched_shown cache read key : (forall k c, cache !! k = Some c -> is_hidden hidden c = false) ->
  shown_card (fetched_of hidden cache read key).
Proof.
  intros Hc. unfold fetched_of. destruct (cache !! key) as [c|] eqn:Hk; [by apply (Hc key)|].
  destruct (find_item _ _) as [item|]; [|done]. unfold card. destruct (card_of item) as [c|]; cbn; [|done].
  destruct (is_hidden hidden c) eqn:Hh; done.
Qed.

Context {St : Type} (many : list bytes -> Reading St MediaContainer) (Hmany : forall keys, yields (many keys) (fun _ => True)).

Lemma materialise_yields keys cache : (forall k c, cache !! k = Some c -> is_hidden hidden c = false) ->
  yields (materialise many keys hidden cache) (fun fetched => length fetched = length keys /\ Forall shown_card fetched).
Proof.
  intros Hc. unfold materialise. eapply (yields_bind _ _ (fun _ => True)).
  - destruct (List.filter _ keys); [by apply yields_done|apply Hmany].
  - intros read _. apply yields_done. split; [apply length_fmap|]. apply Forall_fmap, Forall_true. intros key.
    by apply fetched_shown.
Qed.

Lemma cards_of_shown fetched : Forall shown_card fetched -> Forall shown (cards_of fetched).
Proof.
  rewrite !Forall_forall. intros Hf r (f & Hin & Hr)%list_elem_of_omap. specialize (Hf f Hin). destruct f; try done.
  by injection Hr as <-.
Qed.

Lemma cards_of_len fetched : len (cards_of fetched) <= len fetched.
Proof. unfold len, cards_of. induction fetched as [|[] f IH]; cbn in *; lia. Qed.

Lemma gone_of_elem keys fetched k : k ∈ gone_of keys fetched -> exists key, key ∈ keys /\ k = ledger_key key.
Proof.
  intros ([key f] & Hin & Hk)%list_elem_of_omap. destruct f; try done. injection Hk as <-. exists key. split; [|done].
  by apply elem_of_zip_l in Hin.
Qed.

Lemma filter_kept (f : LedgerKey -> bool) l : (forall k, k ∈ l -> f k = true) -> List.filter f l = l.
Proof.
  induction l as [|k l IH]; intros Hf; [done|]. cbn. rewrite (Hf k) by constructor. f_equal. apply IH. intros x Hx. apply Hf. by constructor.
Qed.

(** Keys that are gone are taken out between the others. *)
Lemma drop_gone_ok lg pre mid post fetched : ledger_ok lg -> ks_list (lg_keys lg) = pre ++ mid ++ post ->
  ledger_ok (drop_gone (gone_of (key_text <$> mid) fetched) lg)
  /\ len pre <= len (ks_list (lg_keys (drop_gone (gone_of (key_text <$> mid) fetched) lg)))
  /\ lg_active (drop_gone (gone_of (key_text <$> mid) fetched) lg) = lg_active lg.
Proof.
  intros [Hok Hp] Hl. set (gone := gone_of _ _). unfold drop_gone. destruct gone as [|g gone'] eqn:Hg.
  - split; [by constructor|]. split; [|done]. rewrite Hl. unfold len. rewrite length_app. lia.
  - rewrite <- Hg. clear g gone' Hg. cbn. set (keep := fun k => negb (bool_decide (k ∈ gone))). split.
    + constructor; cbn; [by apply retain_ok|]. eapply Forall_sublist; [apply bool_filter_sublist|exact Hp].
    + split; [|done]. rewrite Hl, List.filter_app. rewrite (filter_kept keep pre); [unfold len; rewrite length_app; lia|].
      intros k Hk. unfold keep. apply negb_true_iff, bool_decide_eq_false. intros (key & (x & -> & Hx)%list_elem_of_fmap & ->)%gone_of_elem.
      pose proof (ko_nodup _ Hok) as Hn. rewrite Hl in Hn, Hp. apply NoDup_app in Hn as (_ & Hdis & _).
      apply (Hdis _ Hk). rewrite Forall_forall in Hp. rewrite (Hp x) by (rewrite !elem_of_app; tauto). rewrite elem_of_app. by left.
Qed.

Lemma shown_app a b : Forall shown a -> Forall shown b -> Forall shown (a ++ b).
Proof. intros. by apply Forall_app. Qed.

Lemma read_before_ok w : ask_before ask = true -> walk_ok w -> len (lw_rows w) < MAX_SHELF_ITEMS -> yields (read_before many hidden w) walk_ok.
Proof.
  intros Hb [Hlg Hl Hs [Hf1 Hf2] Hc Hca Hac] Hroom. specialize (Hf2 Hb). unfold read_before.
  set (lo := usize_saturating_sub _ _). assert (0 <= lo <= lw_first w /\ lw_first w - lo <= MAX_SHELF_ITEMS - len (lw_rows w)) as [Hlo Hn]
    by (unfold lo, usize_saturating_sub; lia).
  destruct (slice_between_ok lo (lw_first w) (lw_keys w) Hlo Hf2) as (pre & mid & post & Hk & Hpre & Hmid & ->).
  eapply yields_bind; [by apply (yields_panic mid (fun k => k = mid))|]. intros ? ->.
  eapply yields_bind; [by apply materialise_yields|]. cbn. intros fetched [Hlen Hsh]. apply yields_done.
  pose proof (cards_of_len fetched) as Hcl. rewrite length_fmap in Hlen.
  destruct (drop_gone_ok _ _ _ _ fetched Hlg Hk) as (Hok' & Hge & Hact).
  constructor; cbn; try done; [|by apply shown_app; [apply cards_of_shown|]|unfold lw_keys in *; cbn; lia|congruence].
  unfold len in *. rewrite length_app. lia.
Qed.

Lemma read_known_ok w : ask_before ask = false -> walk_ok w -> len (lw_rows w) < MAX_SHELF_ITEMS -> lw_cursor w < len (lw_keys w) ->
  yields (read_known many hidden w) walk_ok.
Proof.
  intros Hb [Hlg Hl Hs [Hf1 _] Hc Hca Hac] Hroom Hcur. unfold read_known. set (upto := Z.min _ _).
  assert (0 <= lw_cursor w <= upto /\ upto <= len (lw_keys w) /\ upto - lw_cursor w <= MAX_SHELF_ITEMS - len (lw_rows w)) as (Hlo & Hu & Hn)
    by (unfold upto; lia).
  destruct (slice_between_ok (lw_cursor w) upto (lw_keys w) Hlo Hu) as (pre & mid & post & Hk & Hpre & Hmid & ->).
  eapply yields_bind; [by apply (yields_panic mid (fun k => k = mid))|]. intros ? ->.
  eapply yields_bind; [by apply materialise_yields|]. cbn. intros fetched [Hlen Hsh]. apply yields_done.
  pose proof (cards_of_len fetched) as Hcl. rewrite length_fmap in Hlen.
  destruct (drop_gone_ok _ _ _ _ fetched Hlg Hk) as (Hok' & _ & Hact).
  constructor; cbn; try done; [|by apply shown_app; [|apply cards_of_shown]|split; [done|congruence]|unfold len in *; lia|congruence].
  unfold len in *. rewrite length_app. lia.
Qed.

Lemma take_listed_ok items : forall processed w, ask_before ask = false -> walk_ok w ->
  walk_ok (fst (take_listed hidden items processed w)).
Proof.
  induction items as [|item items IH]; intros processed w Hb Hw; [done|]. cbn [take_listed].
  destruct (Z.leb_spec MAX_SHELF_ITEMS (len (lw_rows w))) as [|Hroom]; [done|].
  assert (forall x, walk_ok x -> walk_ok (fst (take_listed hidden items (processed + 1) x))) as Hgo by (intros x Hx; by apply IH).
  destruct (keys_contain _ _) eqn:Hk; [by apply Hgo|]. pose proof Hw as [[Hok Hp] Hl Hs [Hf1 _] Hc Hca Hac].
  assert (forall g, walk_ok (if lg_rescans (lw_ledger w) =? 0 then w <| lw_ledger := (lw_ledger w) <| lg_filtered := g |> |> else w)) as Hsame.
  { intros g. destruct (_ =? 0); [|done]. constructor; cbn; try done. split; [done|congruence]. }
  unfold card. destruct (card_of item) as [c|]; cbn [mbind option_bind]; [destruct (is_hidden hidden c) eqn:Hh|];
    [by apply Hgo, Hsame| |by apply Hgo, Hsame].
  apply (contain_false _ Hok) in Hk. destruct (push_ok _ Hok _ Hk) as [Hl' Hok']. apply Hgo. constructor; cbn; try done.
  - constructor; cbn; [done|]. rewrite Hl'. apply Forall_app. split; [done|]. constructor; [apply ledger_key_plain|constructor].
  - unfold len in *. rewrite length_app. cbn. lia.
  - apply Forall_app. split; [done|]. by constructor.
  - split; [done|congruence].
  - unfold len. lia.
Qed.

Lemma whole_listing_ok items : forall seen, let '(keys, cards) := whole_listing hidden items seen in
  NoDup keys /\ Forall plain keys /\ (forall k, k ∈ keys -> k ∉ seen)
  /\ (forall k c, cards !! k = Some c -> is_hidden hidden c = false).
Proof.
  induction items as [|item items IH]; intros seen; cbn; [split_and!; try constructor; intros ?; by rewrite ?elem_of_nil, ?lookup_empty|].
  unfold card. destruct (card_of item) as [c|]; cbn; [|apply IH]. destruct (is_hidden hidden c) eqn:Hh; [apply IH|].
  case_bool_decide as Hin; [apply IH|]. specialize (IH ({[ledger_key (rating_key item)]} ∪ seen)).
  destruct (whole_listing _ _ _) as [keys cards]. destruct IH as (Hn & Hp & Hs & Hc). split_and!.
  - constructor; [|done]. intros Hk%Hs. apply Hk, elem_of_union. left. by apply elem_of_singleton.
  - constructor; [apply ledger_key_plain|done].
  - intros k [->|Hk%Hs]%elem_of_cons; [done|]. rewrite elem_of_union in Hk. tauto.
  - intros k c' [[_ <-]|[_ Hk]]%lookup_insert_Some; [done|by eapply Hc].
Qed.

Lemma absorb_ok mc w : walk_ok w -> ask_before ask = false -> walk_ok (absorb hidden mc w).
Proof.
  intros [Hlg Hl Hs [Hf1 _] Hc Hca Hac] Hb. unfold absorb. pose proof (whole_listing_ok (mc_metadata mc) ∅) as Hwl.
  destruct (whole_listing _ _ _) as [keys cards]. destruct Hwl as (Hn & Hp & _ & Hcc).
  pose proof (keys_from_ok keys Hn) as Hko. set (lg := _ <| lg_done := true |>).
  assert (forall o d, 0 <= d -> 0 <= default d (o ≫= (fun r : Row => place_of r lg))) as Hpl.
  { intros o d Hd. destruct (o ≫= _) as [i|] eqn:Hi; [|done]. apply bind_Some in Hi as (r & _ & Hi).
    pose proof (place_bound r lg i Hko Hi). cbn. lia. }
  set (rows := List.filter _ _).
  assert (0 <= match last rows ≫= (fun r => place_of r lg) with Some i => i + 1 | None => 0 end) as Hcur.
  { specialize (Hpl (last rows) 0 ltac:(lia)). destruct (last rows ≫= _); cbn in *; lia. }
  constructor; cbn; try done.
  - pose proof (sublist_length _ _ (bool_filter_sublist (fun r : Row => keys_contain (row_key r) (keys_from keys)) (lw_rows w))).
    unfold len, rows in *. lia.
  - eapply Forall_sublist; [apply bool_filter_sublist|exact Hs].
  - split; [|congruence]. by apply Hpl.
  - intros k c [Hk|[_ Hk]]%lookup_union_Some_raw; [by eapply Hcc|by eapply Hca].
Qed.

Lemma end_pass_same total lg : lg_keys (end_pass total lg) = lg_keys lg /\ lg_active (end_pass total lg) = lg_active lg.
Proof. unfold end_pass. cbn. by destruct (_ || _). Qed.

Lemma read_on_listing_ok start mc w : ask_before ask = false -> walk_ok w -> walk_ok (read_on_listing hidden start mc w).
Proof.
  intros Hb Hw. unfold read_on_listing. pose proof (take_listed_ok (mc_metadata mc) 0 w Hb Hw) as Hw'.
  destruct (take_listed _ _ _ _) as [w' processed]. cbn in Hw'. destruct Hw' as [[Hok Hp] Hl Hs [Hf1 _] Hc Hca Hac].
  set (lg := (lw_ledger w') <| lg_next := start + processed |>). cbv zeta.
  match goal with |- walk_ok (_ <| lw_ledger := ?x |>) =>
    assert (lg_keys x = lg_keys (lw_ledger w') /\ lg_active x = lg_active (lw_ledger w')) as [Hk Ha] by
      (destruct (_ && _); [by destruct (end_pass_same (lw_total w') lg) as [-> ->]|done]); generalize dependent x; intros lg' Hk Ha end.
  constructor; cbn; try done; [constructor; by rewrite Hk|split; [done|congruence]|congruence].
Qed.

Context (list_page : Z -> Z -> Reading St MediaContainer) (Hlist : forall start size, yields (list_page start size) (fun _ => True)).

Lemma read_listing_ok w : ask_before ask = false -> walk_ok w -> yields (read_listing list_page hidden w) walk_ok.
Proof.
  intros Hb Hw. unfold read_listing. eapply yields_bind; [apply Hlist|]. intros mc _. apply yields_done.
  set (w1 := w <| lw_total := _ |>). assert (walk_ok w1) as Hw1 by (destruct Hw; by constructor).
  destruct (_ || _); [by apply absorb_ok|by apply read_on_listing_ok].
Qed.

Lemma ledger_loop_ok fuel : forall requests w, walk_ok w -> 0 <= requests -> (Z.to_nat (8 - requests) < fuel)%nat ->
  yields (ledger_loop list_page many fuel ask requests w) walk_ok.
Proof.
  induction fuel as [|fuel IH]; intros requests w Hw Hr Hf; [lia|]. cbn [ledger_loop]. unfold REQUESTS_PER_ASK.
  destruct (Z.ltb_spec (len (lw_rows w)) MAX_SHELF_ITEMS) as [Hroom|]; [|by apply yields_done].
  destruct (Z.ltb_spec requests 8) as [Hlt|]; [|by apply yields_done]. cbn [andb].
  assert (forall m, yields m walk_ok -> yields (read_bind m (fun w => ledger_loop list_page many fuel ask (requests + 1) w)) walk_ok) as Hgo.
  { intros m Hm. eapply yields_bind; [exact Hm|]. intros w' Hw'. apply IH; [done|lia|lia]. }
  destruct (ask_before ask) eqn:Hb.
  - destruct (lw_first w =? 0); [by apply yields_done|]. by apply Hgo, read_before_ok.
  - destruct (Z.ltb_spec (lw_cursor w) (len (lw_keys w))); [by apply Hgo, read_known_ok|].
    destruct (lg_done _); [by apply yields_done|]. by apply Hgo, read_listing_ok.
Qed.

Lemma answer_ok info w : walk_ok w -> let '(rows, now) := ledger_answer ask info w in
  sorted_rows rows /\ Forall (in_place (lw_ledger w)) rows /\ Forall shown rows /\ len rows <= MAX_SHELF_ITEMS
  /\ pi_unstable now = false /\ 0 <= pi_offset now /\ 0 <= pi_end now <= len (lw_keys w).
Proof.
  intros [[Hok _] Hl Hs [Hf1 _] Hc _ _]. unfold ledger_answer. destruct (placed_spec (lw_ledger w) (lw_rows w) Hok) as (Hsort & Hin & Hfrom & Hlen).
  split_and!; cbn [pi_unstable pi_offset pi_end]; try done; try lia.
  - apply Forall_forall. intros r (r' & Hr' & Hc')%Hfrom. unfold shown. rewrite <- Hc'. rewrite Forall_forall in Hs. by apply Hs.
  - rewrite Forall_forall in Hin. destruct (placed _ _) as [|r rows]; cbn; [unfold lw_keys, len; lia|]. apply (Hin r). by constructor.
  - destruct (ask_before ask); [|unfold len; lia]. rewrite Forall_forall in Hin.
    destruct (last _) as [r|] eqn:E; [rewrite last_lookup in E; apply list_elem_of_lookup_2, Hin in E as [? _]; lia|].
    apply last_None in E. rewrite E. cbn. unfold len. lia.
  - destruct (ask_before ask); [|lia]. rewrite Forall_forall in Hin. unfold lw_keys.
    destruct (last _) as [r|] eqn:E.
    + rewrite last_lookup in E. apply list_elem_of_lookup_2, Hin in E as [? Hk%lookup_lt_Some]. unfold len. lia.
    + apply last_None in E. rewrite E. cbn. lia.
Qed.

End Walk.

(** Whatever the server answers, an ask that moves over a ledger comes back after at most eight
    requests, without a panic, and shows at most twenty-four cards, none hidden, each where the ledger
    has its key, in the ledger's order.  The ledger still has every key once, and its index still says
    where. *)
Theorem a_ledger_window_shows_the_ledger {St} ask current lg (list_page : Z -> Z -> Reading St MediaContainer) many :
  ledger_ok lg -> 0 <= pi_offset (snd current) -> 0 <= pi_end (snd current) ->
  (forall start size, yields (list_page start size) (fun _ => True)) -> (forall keys, yields (many keys) (fun _ => True)) ->
  yields (ledger_window list_page many ask current lg) (fun '((rows, info), lg') =>
    ledger_ok lg' /\ lg_active lg' = lg_active lg /\ sorted_rows rows /\ Forall (in_place lg') rows /\ Forall (shown ask) rows
    /\ len rows <= MAX_SHELF_ITEMS /\ pi_unstable info = false /\ 0 <= pi_offset info /\ 0 <= pi_end info <= len (ks_list (lg_keys lg'))).
Proof.
  intros Hlg Ho He Hlist Hmany. unfold ledger_window. eapply yields_bind.
  - apply (ledger_loop_ok ask (lg_active lg) many Hmany list_page Hlist); [by apply initial_ledger_ok|lia|unfold ledger_fuel; lia].
  - intros w Hw. apply yields_done. pose proof (answer_ok ask (lg_active lg) (snd current) w Hw) as Ha.
    destruct (ledger_answer _ _ _) as [rows info]. destruct Ha as (? & ? & ? & ? & ? & ? & ? & ?). destruct Hw. by split_and!.
Qed.
