(* ===== verification/ShelfRow.v ===== *)
(** * Shelves: one ask against a row, and the list of hubs

    [read_row] of [data/src/stores/paging.rs], which chooses between the window and the ledger, the row
    of a sampled hub, what a released row keeps, and [read_hub_list], which reads a server's hubs window
    by window.

    The cell [ignored] is the second part of the world a row is read in.  Of a hub the reader looks at
    its identifier and its key. *)

From stdpp Require Import list gmap strings.
From S2P Require Import Prelude Bytes ShelfWindow ShelfLedger.

#[local] Open Scope string_scope.
#[local] Open Scope list_scope.
#[local] Open Scope Z_scope.
#[local] Open Scope reading_scope.

Inductive RowMode := Head | Unprobed | Sample (preview : list bytes).

Record RowState := mk_row_state { rs_mode : RowMode; rs_ledger : option Ledger; rs_kept : list bytes }.
#[export] Instance RowState_eta : Eta RowState := fun r => mk_row_state (rs_mode r) (rs_ledger r) (rs_kept r).
Definition row_default : RowState := mk_row_state Head None [].

(** ** Releasing a row *)

Definition release_ledger (row : RowState) : RowState :=
  match rs_ledger row with
  | Some lg => if negb (lg_active lg) then row <| rs_ledger := None |> else row
  | None => row
  end.

Definition is_unprobed (mode : RowMode) : bool := match mode with Unprobed => true | _ => false end.

Definition release_keys (pageable : bool) (row : RowState) (shown : list bytes) : option (list bytes) :=
  if pageable && negb (is_unprobed (rs_mode row)) then Some []
  else if existsb (fun key => bool_decide (key = [])) shown then None else Some shown.

Definition release_row (pageable : bool) (row : RowState) (shown : list bytes) : bool * RowState :=
  match release_keys pageable row shown with
  | None => (false, row)
  | Some kept => (true, release_ledger (row <| rs_kept := kept |>))
  end.

(** ** How a preview starts *)

Definition is_item_listing_key (key prefix suffix : bytes) : bool :=
  let path := match split_once 63 key with Some (path, _) => path | None => key end in
  match strip_prefix prefix path ≫= strip_suffix suffix with
  | None => false
  | Some rating_key => negb (bool_decide (rating_key = [])) && forallb is_digit rating_key
  end.

Definition is_pageable_hub_key (key : bytes) : bool :=
  starts_with (lit "/hubs/") key || starts_with (lit "/library/sections/") key
  || is_item_listing_key key (lit "/library/metadata/") (lit "/similar")
  || is_item_listing_key key (lit "/library/collections/") (lit "/children").

Definition whole_server_hubs : list bytes :=
  [lit "home.movies.recent"; lit "home.television.recent"; lit "home.music.recent"; lit "home.videos.recent";
   lit "home.photos.recent"].
Definition per_library_prefixes : list bytes := [lit "movie.recentlyadded."; lit "show.recentlyadded."; lit "tv.recentlyadded."].
Definition is_recently_added_hub (hub_identifier : bytes) : bool :=
  existsb (fun h => bool_decide (h = hub_identifier)) whole_server_hubs
  || existsb (fun p => starts_with p hub_identifier) per_library_prefixes.

Definition preview_state (id key : bytes) : RowState :=
  if is_pageable_hub_key key && negb (is_recently_added_hub id) then row_default <| rs_mode := Unprobed |> else row_default.

(** ** Reading a row *)

(** The answer of a read that may fail. *)
Definition attempt {St A} (m : Reading St A) : Reading St (option A) := fun s =>
  match m s with
  | (Answered a, s) => (Answered (Some a), s)
  | (Page_failed, s) => (Answered None, s)
  | (Panicked, s) => (Panicked, s)
  | (Out_of_fuel, s) => (Out_of_fuel, s)
  end.

Definition blank (key : bytes) : Metadata := mk_metadata key None.

(** The cards of the preview, out of one batch read. *)
Fixpoint sampled (keys : list bytes) (read : list Metadata) : list Metadata :=
  match keys with
  | [] => []
  | key :: keys =>
      match index_of (fun item => bool_decide (rating_key item = key)) read with
      | None => blank key :: sampled keys read
      | Some i => default (blank key) (read !! Z.to_nat i) :: sampled keys (swap_remove (Z.to_nat i) read)
      end
  end.

Section Row.
Context {St : Type} (list_page : Z -> Z -> Reading St MediaContainer) (many : list bytes -> Reading St MediaContainer).

(** The world with [ignored]. *)
Abbreviation World := (St * bool)%type.

Definition lifted {A} (m : Reading St A) : Reading World A := fun '(s, ignored) =>
  let '(a, s) := m s in (a, (s, ignored)).

Definition set_ignored (b : bool) : Reading World () := fun '(s, ignored) => (Answered (), (s, b || ignored)).
Definition get_ignored : Reading World bool := fun '(s, ignored) => (Answered ignored, (s, ignored)).

Definition raw (start size : Z) : Reading World MediaContainer :=
  mc <~ lifted (list_page start size);
  _ <~ set_ignored (negb (mc_offset mc =? start));
  done mc.

Definition sample_listing (preview : list bytes) (total : Z) (start size : Z) : Reading World MediaContainer :=
  let length := len preview in
  let listing_total := if 0 <? total then Some total else None in
  shown <~ (if start <? length then
              keys <~ or_panic (slice_between start (Z.min (start + size) length) preview);
              read <~ lifted (many keys);
              done (sampled keys (mc_metadata read))
            else done []);
  let from := Z.max start length in
  let answer metadata listing_total :=
    mk_container start (match listing_total with Some n => n + length | None => 0 end) metadata in
  if from <? start + size then
    let want := start + size - from in
    mc <~ raw (from - length) want;
    if negb (mc_offset mc =? from - length) then
      _ <~ set_ignored true;
      done (mk_container (-1) 0 [])
    else
      done (answer (shown ++ ((fun item => if existsb (fun key => bool_decide (key = rating_key item)) preview then blank [] else item)
                                <$> take (Z.to_nat want) (mc_metadata mc)))
                   (if 0 <? mc_total_size mc then Some (u32_wrap (mc_total_size mc)) else listing_total))
  else done (answer shown listing_total).

(** The first forward ask compares the preview with the head of its listing: the window, the ask's start,
    whether the server ignored the paging, and the row's mode. *)
Record Probed := mk_probed { pr_held : option (list Row * PageInfo); pr_start : Z; pr_absorbed : bool; pr_mode : RowMode }.

Definition listed_there (mc : MediaContainer) (r : Row) : bool :=
  match (if 0 <=? fst r then mc_metadata mc !! Z.to_nat (fst r) else None) with
  | Some listed => bool_decide (rating_key listed = rk (snd r))
  | None => false
  end.

Definition probe (ask : Ask) (held : option (list Row * PageInfo)) (mode : RowMode) : Reading World Probed :=
  match held with
  | Some (rows, info) =>
      if is_unprobed mode && negb (ask_before ask) then
        mc <~ raw 0 (Z.max (pi_end info) 1);
        ignored <~ get_ignored;
        if (ignored : bool) then done (mk_probed held (ask_start ask) true Head)
        else if forallb (listed_there mc) rows then done (mk_probed held (ask_start ask) false Head)
        else
          let preview := (fun r => rk (snd r)) <$> rows in
          let rows := imap (fun i r => (Z.of_nat i, snd r)) rows in
          done (mk_probed (Some (rows, info <| pi_offset := 0 |> <| pi_end := len preview |>)) (len preview) false (Sample preview))
      else done (mk_probed held (ask_start ask) false mode)
  | None => done (mk_probed held (ask_start ask) false mode)
  end.

(** The ledger a row moves onto, from what it was. *)
Definition activated (info : PageInfo) (preview_len : Z) (lg : Ledger) : Ledger :=
  mk_ledger (lg_keys lg) true (usize_saturating_sub (pi_end info) preview_len) 0 0 0 0 false.

Definition ledger_active (row : RowState) : bool := match rs_ledger row with Some lg => lg_active lg | None => false end.

Definition step_window (ask : Ask) (p : Probed) (minimum_end : Z) : Reading World (option (list Row * PageInfo)) :=
  if pr_absorbed p then done None
  else attempt (match pr_mode p with
                | Sample preview =>
                    let total := match pr_held p with Some (_, info) => pi_total info | None => 0 end in
                    fetch_window (sample_listing preview total) ask (pr_held p) minimum_end
                | _ => fetch_window raw ask (pr_held p) minimum_end
                end).

(** What the row has shown is noted, before and after. *)
Definition note_both (held : option (list Row * PageInfo)) (rows : list Row) (lg : option Ledger) : option (option Ledger) :=
  match held with
  | Some (held_rows, _) =>
      lg ← note held_rows (default ledger_default lg);
      lg ← note rows lg;
      Some (Some lg)
  | None => Some lg
  end.

Definition on_ledger (ask : Ask) (rows : list Row) (info : PageInfo) (lg : Ledger) (row : RowState) :
    Reading World ((list Row * PageInfo) * RowState) :=
  answer <~ ledger_window raw (fun keys => lifted (many keys)) ask (rows, info) lg;
  done (fst answer, row <| rs_ledger := Some (snd answer) |>).

(** The window of the listing, or the ledger when the listing lost the row's place. *)
Definition on_listing (ask : Ask) (p : Probed) (preview_len minimum_end : Z) (row : RowState) :
    Reading World ((list Row * PageInfo) * RowState) :=
  step <~ step_window ask p minimum_end;
  ignored <~ get_ignored;
  let switch := pr_absorbed p
    || match step with
       | Some (rows, info) =>
           pi_unstable info || match rs_ledger row with Some lg => contradicts rows lg | None => false end
       | None => ignored
       end in
  if negb switch then
    match step with
    | None => failed
    | Some (rows, info) =>
        lg <~ or_panic (note_both (pr_held p) rows (rs_ledger row));
        let total := if 0 <? pi_total info then usize_saturating_sub (pi_total info) preview_len else pi_total info in
        done ((rows, info <| pi_total := total |>), row <| rs_ledger := lg |>)
    end
  else match pr_held p with
       | Some (rows, info) =>
           lg <~ or_panic (note rows (default ledger_default (rs_ledger row)));
           on_ledger ask rows info (activated info preview_len lg) row
       | None => failed
       end.

Definition read_row_in (ask : Ask) (current : option (list Row * PageInfo)) (row : RowState) (minimum_end : Z) :
    Reading World ((list Row * PageInfo) * RowState) :=
  p <~ probe ask current (rs_mode row);
  let row := row <| rs_mode := pr_mode p |> in
  let ask := mk_ask (pr_start p) (ask_before ask) (ask_hidden ask) in
  let preview_len := match rs_mode row with Sample preview => len preview | _ => 0 end in
  match (if ledger_active row then pr_held p else None), rs_ledger row with
  | Some (rows, info), Some lg => on_ledger ask rows info lg row
  | _, _ => on_listing ask p preview_len minimum_end row
  end.

Definition read_row (ask : Ask) (current : option (list Row * PageInfo)) (row : RowState) (minimum_end : Z) :
    Reading St ((list Row * PageInfo) * RowState) := fun s =>
  let '(a, (s, _)) := read_row_in ask current row minimum_end (s, false) in (a, s).

End Row.

(** ** A hub list, read in windows of hubs *)

Definition HUB_WINDOW : Z := 16.

Record PageReq := mk_page_req { pq_start : Z; pq_size : Z }.
Record Hub := mk_hub { hub_identifier : bytes; hub_key : bytes }.
Record HubPage := mk_hub_page { hp_offset : Z; hp_total_size : Z; hp_hub : list Hub }.

(** [chunks]: the fuel is the length of the list. *)
Fixpoint chunks_of {A} (fuel n : nat) (l : list A) : list (list A) :=
  match fuel, l with
  | S fuel, _ :: _ => take n l :: chunks_of fuel n (drop n l)
  | _, _ => []
  end.
Definition chunks {A} (n : nat) (l : list A) : list (list A) := chunks_of (length l) n l.

Inductive HubListRead (S : Type) := Done (state : S) | Moved | Failed.
Arguments Done {S} state.
Arguments Moved {S}.
Arguments Failed {S}.

Section Hubs.
Context {St S : Type} (read : option PageReq -> Reading St HubPage) (fresh : S) (take_hubs : S -> list Hub -> S).

Definition pair_of (h : Hub) : bytes * bytes := (hub_identifier h, hub_key h).

(** The hubs of a window into those seen: [None] when one was seen before. *)
Fixpoint see_all (hubs : list Hub) (seen : gset (bytes * bytes)) : option (gset (bytes * bytes)) :=
  match hubs with
  | [] => Some seen
  | h :: hubs => if bool_decide (pair_of h ∈ seen) then None else see_all hubs ({[pair_of h]} ∪ seen)
  end.

Definition take_runs (hubs : list Hub) (state : S) : S := fold_left take_hubs (chunks (Z.to_nat HUB_WINDOW) hubs) state.

Fixpoint read_hub_windows (fuel : nat) (start : Z) (total : option Z) (seen : gset (bytes * bytes)) (state : S) :
    Reading St (HubListRead S) :=
  match fuel with
  | O => fun s => (Out_of_fuel, s)
  | Datatypes.S fuel =>
      page <~ attempt (read (Some (mk_page_req start HUB_WINDOW)));
      match page with
      | None => done Failed
      | Some mc =>
          if (start =? 0) && (HUB_WINDOW <? len (hp_hub mc)) then done (Done (take_runs (hp_hub mc) state))
          else if (0 <? start) && negb (hp_offset mc =? start) then done Moved
          else
            let answered := if 0 <? hp_total_size mc then Some (u32_wrap (hp_total_size mc)) else None in
            if match total, answered with Some was, Some now => negb (was =? now) | _, _ => false end then done Moved
            else
              let total := or_else total answered in
              let short (n : Z) := match total with Some total => n <? total | None => false end in
              match hp_hub mc with
              | [] => done (if short (Z.of_nat (size seen)) then Moved else Done state)
              | hubs =>
                  match see_all hubs seen with
                  | None => done Moved
                  | Some seen =>
                      let state := take_hubs state hubs in
                      let start := start + len hubs in
                      let finished := match total with Some total => total <=? start | None => len hubs <? HUB_WINDOW end in
                      if (finished : bool) then
                        done (if match total with Some total => negb (start =? total) | None => false end then Moved else Done state)
                      else read_hub_windows fuel start total seen state
                  end
              end
      end
  end.

(** Twice in windows, and then whole. *)
Definition read_hub_list (fuel : nat) : Reading St S :=
  let windows := read_hub_windows fuel 0 None ∅ fresh in
  let whole := (mc <~ read None; done (take_runs (hp_hub mc) fresh)) in
  first <~ windows;
  match first with
  | Done state => done state
  | Failed => failed
  | Moved =>
      second <~ windows;
      match second with
      | Done state => done state
      | Failed => failed
      | Moved => whole
      end
  end.

End Hubs.
