(* ===== verification/ShelfPlace.v ===== *)
(** * The place of a window

    Whatever a server answers, a window that [fetch_window] does not report as lost still stands on the
    row at its edge: the rows it kept are where a page of this ask shows that row.  The pages an ask
    reads are those of its own run, from the world it started in to the one it left. *)

From stdpp Require Import list.
From S2P Require Import Prelude Bytes ShelfWindow ShelfReading ShelfLedger ShelfLedgers.

#[local] Open Scope Z_scope.
#[local] Open Scope reading_scope.

(** ** The pages of a run *)

Section Runs.
Context {St : Type} (fetch : Z -> Z -> Reading St MediaContainer).

(** Requests made one after the other, from one world to another, and what they were answered. *)
Inductive runs : St -> list MediaContainer -> St -> Prop :=
  | runs_nil s : runs s [] s
  | runs_cons s start size mc s1 pages s' :
      fetch start size s = (Answered mc, s1) -> runs s1 pages s' -> runs s (mc :: pages) s'.

Lemma runs_app s p1 s1 p2 s' : runs s p1 s1 -> runs s1 p2 s' -> runs s (p1 ++ p2) s'.
Proof. induction 1; cbn; [done|]. intros ?. eauto using runs_cons. Qed.

(** What holds of the pages a reading asked for and of its answer, when it answers. *)
Definition traces {A} (m : Reading St A) (Q : list MediaContainer -> A -> Prop) : Prop :=
  forall s a s', m s = (Answered a, s') -> exists pages, runs s pages s' /\ Q pages a.

Lemma traces_done {A} (a : A) (Q : list MediaContainer -> A -> Prop) : Q [] a -> traces (done a) Q.
Proof. intros Ha s a' s' [= <- <-]. exists []. by split; [constructor|]. Qed.

Lemma traces_failed {A} (Q : list MediaContainer -> A -> Prop) : traces failed Q.
Proof. by intros s a s'. Qed.

Lemma traces_bind {A B} (m : Reading St A) (k : A -> Reading St B) (P : list MediaContainer -> A -> Prop)
    (Q : list MediaContainer -> B -> Prop) :
  traces m P -> (forall pages a, P pages a -> traces (k a) (fun more b => Q (pages ++ more) b)) -> traces (read_bind m k) Q.
Proof.
  intros Hm Hk s b s'. unfold read_bind. destruct (m s) as [[a| | |] s1] eqn:E; try done.
  destruct (Hm _ _ _ E) as (pages & Hr & Ha). intros Hb. destruct (Hk _ _ Ha _ _ _ Hb) as (more & Hr' & Hq).
  exists (pages ++ more). split; [by eapply runs_app|done].
Qed.

Lemma traces_weaken {A} (m : Reading St A) (P Q : list MediaContainer -> A -> Prop) :
  (forall pages a, P pages a -> Q pages a) -> traces m P -> traces m Q.
Proof. intros HPQ Hm s a s' E. destruct (Hm _ _ _ E) as (pages & ? & ?). eauto. Qed.

Lemma traces_page start count : traces (page fetch start count) (fun pages mc => pages = [mc] /\ mc_offset mc = start).
Proof.
  unfold page. eapply (traces_bind _ _ (fun pages mc => pages = [mc])).
  - intros s mc s' E. exists [mc]. split; [|done]. eapply runs_cons; [exact E|constructor].
  - intros pages mc ->. destruct (Z.eqb_spec (mc_offset mc) start); [|apply traces_failed]. by apply traces_done.
Qed.

End Runs.

(** ** Where the edge is *)

(** A page that shows the edge, moved by [by_] from where it was. *)
Definition found (edge : Edge) (by_ : Z) (mc : MediaContainer) : Prop :=
  exists i, find_key mc (eg_key edge) = Some i /\ by_ = delta (mc_offset mc + i) (eg_position edge).

(** The window goes on from the rows it kept, on the ask's side of them. *)
Definition continues (before : bool) (kept rows : list Row) : Prop :=
  if before then kept `suffix_of` rows else kept `prefix_of` rows.

(** The rows of a window, against those it kept of the one before: moved as far as the edge was, on a
    page of the ask.  The only window with no such page is the one that has nothing before it to read. *)
Definition in_place (ask : Ask) (current : option (list Row * PageInfo)) (pages : list MediaContainer) (rows : list Row) : Prop :=
  let kept := wk_rows (initial_walk ask current) in
  match edge_of ask (initial_walk ask current) with
  | None => True
  | Some edge =>
      (exists by_ mc, mc ∈ pages /\ found edge by_ mc /\ continues (ask_before ask) (shift_rows by_ kept) rows)
      \/ ask_before ask = true /\ eg_position edge = 0 /\ rows = kept
  end.

Lemma take_forward_prefix hidden keep_from items : forall position rows end_,
  rows `prefix_of` fst (take_forward hidden keep_from position items rows end_).
Proof.
  induction items as [|m items IH]; intros position rows end_; cbn; [done|].
  destruct (position <? keep_from); [apply IH|]. destruct (card_of m) as [c|]; [|apply IH].
  destruct (_ || _); [apply IH|]. destruct (_ =? _); cbn; [by eexists|].
  etrans; [by eexists|apply IH].
Qed.

Lemma add_page_continues ask start size count mc edge_now w w' :
  add_page ask start size count mc edge_now w = Goes_on w' \/ add_page ask start size count mc edge_now w = Stops w' ->
  continues (ask_before ask) (wk_rows w) (wk_rows w') /\ wk_carried w' = false.
Proof.
  unfold add_page, continues. destruct (ask_before ask).
  - destruct (match edge_now with Some _ => _ | None => _ end) as [kf kt]. intros [[= <-]|?]; [|done]. cbn. split; [by eexists|done].
  - match goal with |- context [take_forward ?h ?k ?p ?i ?r ?e] => pose proof (take_forward_prefix h k i p r e) as Hp;
      destruct (take_forward h k p i r e) as [rows end_] end. cbn [fst] in Hp.
    destruct (_ && _); intros [[= <-]|[= <-]]; done.
Qed.

Lemma moved_rows by_ next w w' n : moved by_ next w = Some (w', n) -> wk_rows w' = shift_rows by_ (wk_rows w) /\ wk_carried w' = wk_carried w.
Proof.
  unfold moved, shift. intros Hm. apply bind_Some in Hm as ([[rows o] e] & Hs & Hm).
  apply bind_Some in Hm as (n' & _ & [= <- <-]). apply bind_Some in Hs as (rows' & Hrows & Hs).
  apply bind_Some in Hs as (o' & _ & Hs). apply bind_Some in Hs as (e' & _ & [= -> -> ->]).
  cbn. split; [|done]. apply mapM_Some in Hrows. unfold shift_rows.
  induction Hrows as [|[p c] r l l' Hr _ IH]; [done|]. cbn. rewrite IH. f_equal.
  apply bind_Some in Hr as (q & [-> _]%usize_checked_Some & [= <-]). done.
Qed.

Lemma continues_trans before a b c : continues before a b -> continues before b c -> continues before a c.
Proof. unfold continues. destruct before; intros; by etrans. Qed.
Lemma continues_refl before a : continues before a a.
Proof. unfold continues. by destruct before. Qed.

Section Window.
Context {St : Type} (fetch : Z -> Z -> Reading St MediaContainer) (ask : Ask).

(** The window has caught up with its edge. *)
Definition settled (kept : list Row) (edge : Edge) (pages : list MediaContainer) (w : Walk) : Prop :=
  wk_carried w = false
  /\ exists by_ mc, mc ∈ pages /\ found edge by_ mc /\ continues (ask_before ask) (shift_rows by_ kept) (wk_rows w).

Definition settled_flow (kept : list Row) (edge : Edge) (pages : list MediaContainer) (flow : Flow) : Prop :=
  match flow with Gives_up => True | Stops w | Goes_on w => settled kept edge pages w end.

Lemma settled_more kept edge pages more w : settled kept edge pages w -> settled kept edge (pages ++ more) w.
Proof. intros (Hc & by_ & mc & Hin & Hf & Hr). split; [done|]. exists by_, mc. rewrite elem_of_app. auto. Qed.

(** Wherever the edge is found, a page that was read shows it. *)
Definition relocated (edge : Edge) (pages : list MediaContainer) (r : Relocation) : Prop :=
  match r with InPage by_ | Beyond by_ => exists mc, mc ∈ pages /\ found edge by_ mc | Lost => True end.

Lemma relocate_traces edge before pg :
  traces fetch (relocate fetch edge before pg (mc_offset pg)) (fun pages => relocated edge (pg :: pages)).
Proof.
  unfold relocate. destruct (find_key pg _) as [i|] eqn:Hi.
  { apply traces_done. exists pg. split; [by constructor|by exists i]. }
  match goal with |- context [let '(_, _) := ?x in _] => destruct x as [start count] end.
  destruct (count =? 0); [by apply traces_done|]. eapply traces_bind; [apply traces_page|].
  intros pages far [-> <-]. destruct (find_key far _) as [i|] eqn:Hf; apply traces_done; [|done].
  exists far. split; [do 2 constructor|by exists i].
Qed.

(** The window moved as its edge was found to. *)
Lemma moved_settles kept edge pages by_ next w mc w' n : wk_rows w = kept -> wk_carried w = false ->
  moved by_ next w = Some (w', n) -> mc ∈ pages -> found edge by_ mc -> settled kept edge pages w'.
Proof.
  intros <- Hc (Hr & Hc')%moved_rows Hin Hf. split; [by rewrite Hc'|]. exists by_, mc. split_and!; try done.
  rewrite Hr. apply continues_refl.
Qed.

Lemma settled_same kept edge pages w w' : wk_rows w' = wk_rows w -> wk_carried w' = wk_carried w ->
  settled kept edge pages w -> settled kept edge pages w'.
Proof. unfold settled. by intros -> ->. Qed.

Lemma add_page_settles kept edge pages start size count mc edge_now w :
  settled kept edge pages w -> settled_flow kept edge pages (add_page ask start size count mc edge_now w).
Proof.
  intros (Hc & by_ & far & Hin & Hf & Hr). pose proof (add_page_continues ask start size count mc edge_now w) as Ha.
  destruct (add_page _ _ _ _ _ _ _) as [|w'|w']; [done|..]; destruct (Ha w') as [Hr' Hc']; auto;
    (split; [done|]); exists by_, far; split_and!; try done; by eapply continues_trans.
Qed.

Lemma check_traces kept edge w : wk_rows w = kept -> wk_carried w = false ->
  traces fetch (check_edge fetch ask edge w) (fun pages flow =>
    settled_flow kept edge pages flow
    \/ flow = Goes_on (w <| wk_cursor := eg_position edge |> <| wk_carried := true |>)).
Proof.
  intros Hk Hc. unfold check_edge. destruct (if ask_before ask then _ else _); [apply traces_done; by right|].
  match goal with |- context [let '(_, _) := ?x in _] => destruct x as [start count] end.
  eapply traces_bind; [apply traces_page|]. intros pages pg [-> <-]. eapply traces_bind; [apply relocate_traces|].
  intros more r Hr. destruct r as [by_|by_|]; apply traces_done; rewrite app_nil_r; left; [| |done];
    destruct Hr as (mc & Hin & Hf); (destruct (moved by_ (ask_start ask) w) as [[w' n]|] eqn:Hm; [|done]);
    apply (settled_same _ _ _ w'); try done; by apply (moved_settles _ _ _ by_ (ask_start ask) w mc w' n).
Qed.

Lemma read_page_traces kept edge before w : 
  settled kept edge before w \/ wk_carried w = true /\ wk_rows w = kept ->
  traces fetch (read_page fetch ask (Some edge) w) (fun pages => settled_flow kept edge (before ++ pages)).
Proof.
  intros Hw. unfold read_page. set (size := if ask_before ask then _ else _). set (start := if ask_before ask then _ else _).
  eapply traces_bind; [apply traces_page|]. intros pages mc [-> Hstart]. destruct (wk_carried w) eqn:Hc.
  - destruct Hw as [[? _]|[_ Hk]]; [congruence|]. rewrite <- Hstart. eapply traces_bind; [apply relocate_traces|].
    assert (wk_rows (w <| wk_carried := false |>) = kept) as Hk' by done.
    intros more r Hr. destruct r as [by_|by_|]; apply traces_done; rewrite app_nil_r; [| |done];
      destruct Hr as (far & Hin & Hf); (destruct (moved by_ (eg_position edge) _) as [[w' n]|] eqn:Hm; [|done]);
      assert (settled kept edge (before ++ mc :: more) w') as Hs
        by (eapply (moved_settles _ _ _ _ _ _ far _ _ Hk' eq_refl Hm); [apply elem_of_app; by right|exact Hf]).
    + by apply add_page_settles.
    + by apply (settled_same _ _ _ w').
  - destruct Hw as [Hs|[? _]]; [|done]. apply traces_done. rewrite app_nil_r. apply add_page_settles, settled_more.
    by apply (settled_same _ _ _ w).
Qed.

Lemma read_pages_settled kept edge minimum_end fuel : forall before requests w, settled kept edge before w ->
  traces fetch (read_pages fetch fuel ask (Some edge) minimum_end requests w) (fun pages w' =>
    match w' with Some w' => settled kept edge (before ++ pages) w' | None => True end).
Proof.
  induction fuel as [|fuel IH]; intros before requests w Hs; [by intros s a s'|]. cbn [read_pages].
  destruct (negb _); [apply traces_done; by rewrite app_nil_r|]. destruct (_ || _); [apply traces_done; by rewrite app_nil_r|].
  eapply traces_bind; [apply (read_page_traces kept edge before); by left|]. intros pages flow Hf.
  destruct flow as [|w1|w1]; [by apply traces_done|apply traces_done; by rewrite app_nil_r|].
  eapply traces_weaken; [|by apply IH]. cbn. intros more [w'|]; [|done]. by rewrite app_assoc.
Qed.

(** A walk that starts from the rows it kept, its edge still to be read. *)
Lemma read_pages_carried kept edge minimum_end fuel w : wk_carried w = true -> wk_rows w = kept ->
  len kept < MAX_SHELF_ITEMS -> wk_cursor w = eg_position edge ->
  traces fetch (read_pages fetch fuel ask (Some edge) minimum_end 0 w) (fun pages w' =>
    match w' with
    | Some w' => settled kept edge pages w' \/ ask_before ask = true /\ eg_position edge = 0 /\ wk_rows w' = kept
    | None => True
    end).
Proof.
  intros Hc Hk Hl Hcur. destruct fuel as [|fuel]; [by intros s a s'|]. cbn [read_pages]. unfold REQUESTS_PER_ASK.
  cbn [Z.ltb Z.compare orb negb]. rewrite Hk. destruct (Z.leb_spec MAX_SHELF_ITEMS (len kept)); [lia|]. cbn [orb].
  destruct (ask_before ask && _) eqn:Hz.
  { apply andb_prop in Hz as [Hb Hz%Z.eqb_eq]. apply traces_done. right. split_and!; [done|congruence|done]. }
  eapply traces_bind; [apply (read_page_traces kept edge []); by right|]. intros pages flow Hf.
  destruct flow as [|w1|w1]; [by apply traces_done|apply traces_done; rewrite app_nil_r; by left|].
  eapply traces_weaken; [|by apply (read_pages_settled kept edge minimum_end fuel pages)]. cbn. intros more [w'|]; [by left|done].
Qed.

(** With no row kept there is no edge to find. *)
Lemma read_pages_runs minimum_end fuel : forall requests w,
  traces fetch (read_pages fetch fuel ask None minimum_end requests w) (fun _ _ => True).
Proof.
  induction fuel as [|fuel IH]; intros requests w; [by intros s a s'|]. cbn [read_pages].
  destruct (negb _); [by apply traces_done|]. destruct (_ || _); [by apply traces_done|].
  eapply (traces_bind _ _ _ (fun _ _ => True)).
  - unfold read_page. eapply traces_bind; [apply traces_page|]. intros pages mc _.
    destruct (wk_carried w); by apply traces_done.
  - intros pages [|w1|w1] _; [by apply traces_done..|apply IH].
Qed.

(** What the walk that an ask starts from ends as. *)
Definition walked (kept : list Row) (edge : Edge) (pages : list MediaContainer) (w : option Walk) : Prop :=
  match w with
  | Some w => settled kept edge pages w \/ ask_before ask = true /\ eg_position edge = 0 /\ wk_rows w = kept
  | None => True
  end.

Lemma walk_traces kept edge minimum_end w : wk_rows w = kept -> len kept < MAX_SHELF_ITEMS -> wk_carried w = false ->
  traces fetch (flow <~ check_edge fetch ask edge w;
                match flow with
                | Gives_up => done None
                | Stops w | Goes_on w => read_pages fetch (window_fuel minimum_end) ask (Some edge) minimum_end 0 w
                end) (walked kept edge).
Proof.
  intros Hk Hl Hc. eapply traces_bind; [by apply (check_traces kept edge w)|]. intros pages flow Hflow.
  assert (forall w1, settled kept edge pages w1 ->
    traces fetch (read_pages fetch (window_fuel minimum_end) ask (Some edge) minimum_end 0 w1)
      (fun more => walked kept edge (pages ++ more))) as Hon.
  { intros w1 Hs. eapply traces_weaken; [|by apply (read_pages_settled kept edge minimum_end _ pages)].
    intros more [w'|]; [by left|done]. }
  destruct flow as [|w1|w1]; [by apply traces_done| |]; destruct Hflow as [Hs|Heq]; try done; [by apply Hon..|].
  injection Heq as ->. eapply traces_weaken; [|by apply (read_pages_carried kept edge)].
  intros more [w'|]; [|done]. intros [(? & by_ & mc & Hin & ? & ?)|Hs]; [left|by right].
  split; [done|]. exists by_, mc. rewrite elem_of_app. auto.
Qed.

Definition window_of (current : option (list Row * PageInfo)) (w : option Walk) : list Row * PageInfo :=
  match w with
  | Some w => (wk_rows w, mk_info (wk_offset w) (wk_end w) (wk_total w) (wk_more w) false)
  | None => unchanged current
  end.

Lemma fetch_window_walk current minimum_end s : fetch_window fetch ask current minimum_end s =
  (w <~ match edge_of ask (initial_walk ask current) with
        | Some edge => flow <~ check_edge fetch ask edge (initial_walk ask current);
                       match flow with
                       | Gives_up => done None
                       | Stops w | Goes_on w => read_pages fetch (window_fuel minimum_end) ask (Some edge) minimum_end 0 w
                       end
        | None => read_pages fetch (window_fuel minimum_end) ask None minimum_end 0 (initial_walk ask current)
        end;
   done (window_of current w)) s.
Proof.
  unfold fetch_window, read_bind. destruct (edge_of ask _) as [edge|]; [|done].
  destruct (check_edge _ _ _ _ s) as [[[|w|w]| | |] s1]; done.
Qed.

Lemma fetch_window_in_place current minimum_end :
  traces fetch (fetch_window fetch ask current minimum_end) (fun pages '(rows, info) =>
    pi_unstable info = true \/ in_place ask current pages rows).
Proof.
  intros s a s'. rewrite fetch_window_walk. revert s a s'. unfold in_place. set (w := initial_walk ask current).
  assert (len (wk_rows w) < MAX_SHELF_ITEMS) as Hl.
  { unfold w, initial_walk. cbn [wk_rows]. match goal with |- len (retain_half ?b ?r) < _ => pose proof (retain_half_len b r) end.
    unfold HUB_FETCH_COUNT, MAX_SHELF_ITEMS in *. lia. }
  pose proof (eq_refl : wk_carried w = false) as Hc. clearbody w.
  destruct (edge_of ask w) as [edge|].
  - eapply traces_bind; [by apply (walk_traces (wk_rows w))|]. intros pages [w'|] Hw; apply traces_done; rewrite app_nil_r;
      [|destruct current as [[? ?]|]; by left].
    right. destruct Hw as [[_ Hs]|Hs]; [by left|by right].
  - eapply traces_bind; [apply read_pages_runs|]. intros pages [w'|] _; apply traces_done; [by right|].
    destruct current as [[? ?]|]; by left.
Qed.

End Window.
