(* ===== verification/ShelfRows.v ===== *)
(** * What a row keeps

    Whatever the server answers, an ask against a row ends, and leaves a row the next ask can be made
    against. *)

From stdpp Require Import list gmap.
From S2P Require Import Prelude Bytes ShelfWindow ShelfReading ShelfLedger ShelfKeys ShelfLedgers ShelfRow ShelfPlace.

#[local] Open Scope Z_scope.
#[local] Open Scope reading_scope.

(** ** The window, of any server *)

Section Window.
Context {St : Type} (fetch : Z -> Z -> Reading St MediaContainer) 
  (Hfetch : forall start size, 0 <= start -> 0 <= size -> yields (fetch start size) (fun _ => True)).
Context (ask : Ask).

Definition row_ok (r : Row) : Prop := 0 <= fst r /\ shown ask r.

Record fw_ok (w : Walk) : Prop := mk_fw_ok {
  fw_rows : Forall row_ok (wk_rows w);
  fw_len : len (wk_rows w) <= MAX_SHELF_ITEMS;
  fw_offset : 0 <= wk_offset w;
  fw_end : 0 <= wk_end w;
  fw_cursor : 0 <= wk_cursor w
}.

Lemma page_yields start count : 0 <= start -> 0 <= count -> yields (page fetch start count) (fun _ => True).
Proof.
  intros Hs Hc. unfold page. eapply yields_bind; [by apply Hfetch|]. intros mc _. destruct (_ =? _); [by apply yields_done|apply yields_failed].
Qed.

Lemma relocate_yields edge before pg from : 0 <= eg_position edge -> yields (relocate fetch edge before pg from) (fun _ => True).
Proof.
  intros He. unfold relocate. destruct (find_key _ _); [by apply yields_done|].
  match goal with |- context [let '(_, _) := ?x in _] => assert (0 <= fst x /\ 0 <= snd x) as Hsc by
    (unfold usize_saturating_sub, MAX_SHELF_ITEMS; destruct before; cbn [fst snd]; lia); destruct x as [start count] end.
  destruct (_ =? _); [by apply yields_done|]. eapply yields_bind; [apply page_yields; apply Hsc|]. intros far _.
  destruct (find_key _ _); by apply yields_done.
Qed.

Lemma usize_checked_pos z r : usize_checked z = Some r -> 0 <= r.
Proof. intros [-> [? _]]%usize_checked_Some. done. Qed.

Lemma moved_ok by_ next w w' n : moved by_ next w = Some (w', n) -> fw_ok w ->
  fw_ok w' /\ 0 <= n /\ len (wk_rows w') = len (wk_rows w) /\ wk_carried w' = wk_carried w.
Proof.
  unfold moved, shift. intros Hm [Hr Hl Ho He Hc]. apply bind_Some in Hm as ([[rows o] e] & Hs & Hm).
  apply bind_Some in Hm as (n' & Hn & [= <- <-]). apply bind_Some in Hs as (rows' & Hrows & Hs).
  apply bind_Some in Hs as (o' & Ho' & Hs). apply bind_Some in Hs as (e' & He' & [= -> -> ->]).
  apply mapM_Some in Hrows. apply usize_checked_pos in Hn, Ho', He'.
  assert (length rows = length (wk_rows w)) as Hlen by (symmetry; by eapply Forall2_length).
  unfold len in *. split_and!; cbn; try done; [|by rewrite Hlen]. constructor; cbn; try done; [|unfold len; by rewrite Hlen].
  apply Forall_forall. intros r Hr'. apply list_elem_of_lookup in Hr' as [i Hi]. destruct (Forall2_lookup_r _ _ _ _ _ Hrows Hi) as ([p c] & Hpc & Hmap).
  apply bind_Some in Hmap as (q & Hq & [= <-]). apply usize_checked_pos in Hq. split; [done|].
  rewrite Forall_forall in Hr. by apply list_elem_of_lookup_2, Hr in Hpc as [_ ?].
Qed.

Definition flow_ok (flow : Flow) : Prop :=
  match flow with Gives_up => True | Stops w | Goes_on w => fw_ok w /\ wk_carried w = false end.

Lemma take_forward_any keep_from items : forall position rows end_, 0 <= position -> Forall row_ok rows ->
  len rows < MAX_SHELF_ITEMS -> 0 <= end_ ->
  let '(rows', end') := take_forward (ask_hidden ask) keep_from position items rows end_ in
  Forall row_ok rows' /\ len rows' <= MAX_SHELF_ITEMS /\ 0 <= end' /\ (items <> [] -> position < end').
Proof.
  induction items as [|m items IH]; intros position rows end_ Hp Hr Hl He; cbn [take_forward]; [split_and!; try done; lia|].
  assert (forall rows, Forall row_ok rows -> len rows < MAX_SHELF_ITEMS ->
    let '(rows', end') := take_forward (ask_hidden ask) keep_from (position + 1) items rows (position + 1) in
    Forall row_ok rows' /\ len rows' <= MAX_SHELF_ITEMS /\ 0 <= end' /\ (m :: items <> [] -> position < end')) as Hgo.
  { intros rows1 Hr1 Hl1. specialize (IH (position + 1) rows1 (position + 1) ltac:(lia) Hr1 Hl1 ltac:(lia)).
    destruct (take_forward _ _ _ _ _ _) as [rows' end'] eqn:E. destruct IH as (? & ? & ? & Hlt). split_and!; try done. intros _.
    destruct items; [injection E as <- <-; lia|]. specialize (Hlt ltac:(done)). lia. }
  destruct (position <? keep_from); [by apply Hgo|]. destruct (card_of m) as [c|]; [|by apply Hgo].
  destruct (is_hidden (ask_hidden ask) c) eqn:Hh; [by apply Hgo|]. cbn [orb]. destruct (has_key _ _); [by apply Hgo|].
  assert (Forall row_ok (rows ++ [(position, c)])) as Hr1 by (apply Forall_app; split; [done|by repeat constructor]).
  assert (len (rows ++ [(position, c)]) = len rows + 1) as Hl1 by (unfold len; rewrite length_app; cbn; lia).
  destruct (Z.eqb_spec (len (rows ++ [(position, c)])) MAX_SHELF_ITEMS); [split_and!; try done; lia|].
  apply Hgo; [done|lia].
Qed.

Lemma take_backward_any keep_from keep_to items : forall position rows fresh, 0 <= position -> Forall row_ok fresh ->
  Forall row_ok (take_backward (ask_hidden ask) keep_from keep_to position items rows fresh)
  /\ len (take_backward (ask_hidden ask) keep_from keep_to position items rows fresh) <= len fresh + Z.max 0 (keep_to - Z.max keep_from position).
Proof.
  induction items as [|m items IH]; intros position rows fresh Hp Hf; cbn [take_backward]; [split; [done|lia]|].
  match goal with |- Forall row_ok (take_backward _ _ _ _ _ _ ?x) /\ _ => set (fresh1 := x) end.
  assert (Forall row_ok fresh1 /\ len fresh1 <= len fresh + (if (keep_from <=? position) && (position <? keep_to) then 1 else 0)) as [Hf1 Hl1].
  { unfold fresh1. destruct (_ && _); [|split; [done|lia]]. destruct (card_of m) as [c|]; [|split; [done|lia]].
    destruct (is_hidden (ask_hidden ask) c) eqn:Hh; cbn [orb]; [split; [done|lia]|]. destruct (has_key _ _); [split; [done|lia]|].
    split; [apply Forall_app; split; [done|by repeat constructor]|unfold len; rewrite length_app; cbn; lia]. }
  destruct (IH (position + 1) rows fresh1 ltac:(lia) Hf1) as [Hok Hlen]. split; [done|].
  destruct (Z.leb_spec keep_from position), (Z.ltb_spec position keep_to); cbn [andb] in Hl1; lia.
Qed.

(** A step from [w] that reads at [start]. *)
Definition advanced (start : Z) (flow : Flow) : Prop :=
  flow_ok flow /\ (ask_before ask = false -> match flow with Goes_on w => start < wk_cursor w | _ => True end).

Lemma add_page_any start size count mc edge_now w : fw_ok w -> len (wk_rows w) < MAX_SHELF_ITEMS -> 0 <= start ->
  (ask_before ask = true -> 0 <= size <= MAX_SHELF_ITEMS - len (wk_rows w)) -> (forall c, edge_now = Some c -> 0 <= c) ->
  advanced start (add_page ask start size count mc edge_now w).
Proof.
  intros [Hr Hl Ho He Hc] Hroom Hs Hsize Hnow. unfold add_page. destruct (ask_before ask) eqn:Hb.
  - specialize (Hsize eq_refl).
    assert (exists kf kt, match edge_now with
        | Some corrected => (Z.max (usize_saturating_sub corrected size) (Z.min start corrected), corrected)
        | None => (start, start + size)
        end = (kf, kt) /\ 0 <= kf /\ kt - kf <= size) as (kf & kt & -> & Hkf & Hkt).
    { destruct edge_now as [c|]; eexists _, _; (split; [reflexivity|]); [specialize (Hnow c eq_refl)|]; unfold usize_saturating_sub; lia. }
    set (items := take _ _). destruct (take_backward_any kf kt items start (wk_rows w) [] Hs ltac:(constructor)) as [Hf Hfl].
    change (@len Row []) with 0 in Hfl. split; [|congruence]. split; [|done].
    constructor; cbn; try done; [by apply Forall_app|unfold len in *; rewrite length_app; lia].
  - set (got := Z.min _ _). set (items := take _ _). set (kf := match edge_now with Some c => c + 1 | None => start end).
    pose proof (take_forward_any kf items start (wk_rows w) (wk_end w) Hs Hr Hroom He) as Htf.
    destruct (take_forward _ _ _ _ _ _) as [rows' end']. destruct Htf as (Hr' & Hl' & He' & Hlt).
    set (end1 := if got =? 0 then start else end'). assert (0 <= end1) as He1 by (unfold end1; destruct (_ =? _); lia).
    destruct (Z.ltb_spec 0 got) as [Hgot|]; cbn [andb]; [|split; [split; [by constructor|done]|done]].
    assert (start < end1) as Hadv.
    { unfold end1. destruct (Z.eqb_spec got 0); [lia|]. apply Hlt. unfold items. unfold got, len in *. destruct (mc_metadata mc); [cbn in *; lia|].
      destruct (Z.to_nat (Z.min _ _)) eqn:E; [lia|done]. }
    destruct (if 0 <? _ then _ else _); (split; [split; [by constructor|done]|done]).
Qed.

Lemma uncarried_ok w : fw_ok w -> fw_ok (w <| wk_carried := false |>).
Proof. intros [? ? ? ? ?]. by constructor. Qed.

Definition edge_ok (edge : option Edge) : Prop := forall ed, edge = Some ed -> 0 <= eg_position ed.

Lemma read_page_any edge w : edge_ok edge -> fw_ok w -> len (wk_rows w) < MAX_SHELF_ITEMS ->
  yields (read_page fetch ask edge w) (fun flow => flow_ok flow
    /\ (ask_before ask = false -> wk_carried w = false -> match flow with Goes_on w' => wk_cursor w < wk_cursor w' | _ => True end)).
Proof.
  intros Hedge Hw Hroom. pose proof (fw_cursor _ Hw) as Hcur. pose proof (fw_len _ Hw) as Hlw. unfold read_page.
  set (size := if ask_before ask then Z.min (wk_cursor w) (MAX_SHELF_ITEMS - len (wk_rows w)) else MAX_SHELF_ITEMS).
  set (start := if ask_before ask then wk_cursor w - size else wk_cursor w).
  assert (0 <= start /\ (ask_before ask = true -> 0 <= size <= MAX_SHELF_ITEMS - len (wk_rows w)) /\ (ask_before ask = false -> start = wk_cursor w))
    as (Hs & Hsize & Hsame) by (unfold start, size; destruct (ask_before ask); cbv iota; split_and!; intros; first [done | lia]).
  assert (0 <= size) as Hsz by (unfold size; destruct (ask_before ask); [lia|done]).
  eapply yields_bind; [apply page_yields; [done|destruct (wk_carried w); lia]|]. intros mc _. destruct (if wk_carried w then edge else None) as [ed|] eqn:Hed.
  - assert (wk_carried w = true) as Hcar by (by destruct (wk_carried w)).
    assert (0 <= eg_position ed) as Hpos by (rewrite Hcar in Hed; by apply Hedge).
    eapply yields_bind; [by apply relocate_yields|]. intros at_ _.
    destruct at_ as [by_|by_|]; [| |by apply yields_done].
    all: apply yields_done; destruct (moved _ _ _) as [[w' corrected]|] eqn:Hm; [|done];
      destruct (moved_ok _ _ _ _ _ Hm (uncarried_ok _ Hw)) as (Hw' & Hcor & Hlen & Hcar'); cbn in Hlen, Hcar'; (split; [|congruence]).
    + apply add_page_any; try done; [lia|by rewrite Hlen|by intros c [= <-]].
    + split; [|done]. destruct Hw' as [? ? ? ? ?]. constructor; cbn; try done. destruct (ask_before ask); lia.
  - apply yields_done. destruct (add_page_any start size (size + (if wk_carried w then 1 else 0)) mc None (w <| wk_carried := false |>)
      (uncarried_ok _ Hw) Hroom Hs Hsize) as [Hok Hadv]; [done|].
    split; [done|]. intros Hb _. specialize (Hadv Hb). destruct (add_page _ _ _ _ _ _ _); try done. by rewrite <- Hsame.
Qed.

(** How many more requests the loop can make. *)
Definition window_measure (minimum_end requests : Z) (w : Walk) : Z :=
  if ask_before ask then 8 - requests
  else if wk_carried w then 1 + Z.max (8 - requests) minimum_end
  else Z.max (8 - requests) (minimum_end - wk_cursor w).

Lemma read_pages_any edge minimum_end fuel : edge_ok edge -> forall requests w, fw_ok w -> 0 <= requests ->
  (Z.to_nat (window_measure minimum_end requests w) < fuel)%nat ->
  yields (read_pages fetch fuel ask edge minimum_end requests w) (fun w' => match w' with Some w' => fw_ok w' | None => True end).
Proof.
  intros Hedge. induction fuel as [|fuel IH]; intros requests w Hw Hr Hf; [lia|]. cbn [read_pages]. unfold REQUESTS_PER_ASK.
  destruct ((requests <? 8) || _) eqn:Hgo; cbn [negb]; [|by apply yields_done].
  destruct (Z.leb_spec MAX_SHELF_ITEMS (len (wk_rows w))) as [|Hroom]; cbn [orb]; [by apply yields_done|].
  destruct (ask_before ask && _); [by apply yields_done|].
  eapply yields_bind; [by apply read_page_any|]. intros flow [Hok Hadv]. destruct flow as [|w'|w']; [by apply yields_done|by apply yields_done; destruct Hok|].
  destruct Hok as [Hw' Hcar]. apply IH; [done|lia|]. revert Hf Hgo Hadv. pose proof (fw_cursor _ Hw'). pose proof (fw_cursor _ Hw). unfold window_measure. rewrite Hcar.
  destruct (ask_before ask); cbn [negb andb]; intros Hf Hgo Hadv.
  - lia.
  - destruct (wk_carried w); [lia|]. specialize (Hadv eq_refl eq_refl). lia.
Qed.

(** What a row stands on, for an ask: the positions of its window. *)
Definition current_ok (current : option (list Row * PageInfo)) : Prop :=
  match current with
  | Some (rows, info) => Forall (fun r => 0 <= fst r) rows /\ 0 <= pi_offset info /\ 0 <= pi_end info
  | None => True
  end.

Lemma initial_any current : current_ok current -> 0 <= ask_start ask -> fw_ok (initial_walk ask current) /\ wk_carried (initial_walk ask current) = false.
Proof.
  intros Hc Ha. split; [|done]. unfold initial_walk.
  set (kept := match current with Some (rows, _) => _ | None => [] end).
  assert (Forall row_ok kept) as Hk.
  { unfold kept. destruct current as [[rows info]|]; [|constructor]. destruct Hc as [Hp _]. rewrite Forall_forall in *.
    intros r [Hr Hh]%filter_rows_in. split; [by apply Hp|]. by apply negb_true_iff in Hh. }
  pose proof (retain_half_len (ask_before ask) kept) as Hlen. unfold HUB_FETCH_COUNT in Hlen.
  pose proof (Forall_sublist row_ok _ _ (retain_half_sublist (ask_before ask) kept) Hk) as Hr.
  set (info := if len kept <=? HUB_FETCH_COUNT then _ else None).
  assert (match info with Some info => 0 <= pi_offset info /\ 0 <= pi_end info | None => True end) as Hi.
  { unfold info. destruct (_ <=? _); [|done]. destruct current as [[rows i]|]; cbn; [|done]. apply Hc. }
  rewrite Forall_forall in Hr.
  constructor; cbn; try done; [by apply Forall_forall|unfold MAX_SHELF_ITEMS; lia| |].
  - destruct (ask_before ask); [done|]. destruct info as [i|]; [apply Hi|]. destruct (retain_half _ _) as [|r rows]; cbn; [done|].
    apply (Hr r). by constructor.
  - destruct (ask_before ask); [|done]. destruct info as [i|]; [apply Hi|]. destruct (last _) as [r|] eqn:Hl; [|done].
    rewrite last_lookup in Hl. apply list_elem_of_lookup_2, Hr in Hl as [? _]. lia.
Qed.

Lemma edge_pos w : fw_ok w -> edge_ok (edge_of ask w).
Proof.
  intros [Hr _ _ _ _] edge (r & Hr' & ->)%fmap_Some. rewrite Forall_forall in Hr. cbn. destruct (ask_before ask).
  - destruct (wk_rows w) as [|x rows]; [done|]. injection Hr' as ->. apply (Hr r). by constructor.
  - rewrite last_lookup in Hr'. by apply list_elem_of_lookup_2, Hr in Hr' as [? _].
Qed.

(** An ask ends, with its window as it was or with one that can be asked again. *)
Lemma fetch_window_any current minimum_end : current_ok current -> 0 <= ask_start ask ->
  yields (fetch_window fetch ask current minimum_end) (fun '(rows, info) =>
    pi_unstable info = true \/ Forall row_ok rows /\ len rows <= MAX_SHELF_ITEMS /\ pi_unstable info = false
      /\ 0 <= pi_offset info /\ 0 <= pi_end info).
Proof.
  intros Hc Ha. destruct (initial_any current Hc Ha) as [Hw Hcar]. unfold fetch_window. set (w := initial_walk ask current) in *.
  assert (forall current, pi_unstable (snd (unchanged current)) = true) as Hun by (by intros [[? ?]|]).
  eapply (yields_bind _ _ (fun flow => match flow with Gives_up => True | Stops w | Goes_on w => fw_ok w end)).
  - destruct (edge_of ask w) as [edge|] eqn:Hedge; [|by apply yields_done]. apply (edge_pos _ Hw) in Hedge. unfold check_edge.
    destruct (if ask_before ask then eg_position edge =? ask_start ask else eg_position edge + 1 =? ask_start ask).
    + apply yields_done. destruct Hw as [Hr Hl Ho He Hcu]. by constructor.
    + match goal with |- context [let '(_, _) := ?x in _] => assert (0 <= fst x /\ 0 <= snd x) as Hsc by
        (unfold usize_saturating_sub, MAX_SHELF_ITEMS; destruct (ask_before ask); cbn [fst snd]; lia); destruct x as [start count] end.
      eapply yields_bind; [by apply page_yields; apply Hsc|]. intros pg _.
      eapply yields_bind; [by apply relocate_yields|]. intros at_ _.
      destruct at_ as [by_|by_|]; apply yields_done; [| |done];
        (destruct (moved _ _ _) as [[w' n]|] eqn:Hm; [|done]; destruct (moved_ok _ _ _ _ _ Hm Hw) as ([? ? ? ? ?] & Hn & _ & _); by constructor).
  - intros flow Hflow. assert (forall w1, fw_ok w1 -> yields (w <~ read_pages fetch (window_fuel minimum_end) ask (edge_of ask w) minimum_end 0 w1;
      done (match w with Some w => (wk_rows w, mk_info (wk_offset w) (wk_end w) (wk_total w) (wk_more w) false) | None => unchanged current end))
      (fun '(rows, info) => pi_unstable info = true \/ Forall row_ok rows /\ len rows <= MAX_SHELF_ITEMS /\ pi_unstable info = false
        /\ 0 <= pi_offset info /\ 0 <= pi_end info)) as Hread.
    { intros w1 Hw1. eapply yields_bind; [apply read_pages_any; [by apply edge_pos|done|lia|]|].
      - pose proof (fw_cursor _ Hw1). unfold window_fuel, window_measure. destruct (ask_before ask), (wk_carried w1); lia.
      - intros [w2|] Hw2; apply yields_done; [right; by destruct Hw2|]. specialize (Hun current). destruct (unchanged current). by left. }
    destruct flow; [|by apply Hread|by apply Hread]. apply yields_done. specialize (Hun current). destruct (unchanged current). by left.
Qed.

End Window.

(** ** A row *)

Lemma yields_lifted {St A} (m : Reading St A) P : yields m P -> yields (lifted m) P.
Proof. intros Hm [s b]. specialize (Hm s). unfold lifted. destruct (m s) as [a s']. exact Hm. Qed.

Lemma yields_set {St} b : yields (St := St * bool) (set_ignored b) (fun _ => True).
Proof. by intros [s x]. Qed.

Lemma yields_get {St} : yields (St := St * bool) get_ignored (fun _ => True).
Proof. by intros [s x]. Qed.

Lemma yields_attempt {St A} (m : Reading St A) P : yields m P -> yields (attempt m) (fun o => match o with Some a => P a | None => True end).
Proof. intros Hm s. specialize (Hm s). unfold attempt. destruct (m s) as [[a| | |] s']; done. Qed.

Section Row.
Context {St : Type} (list_page : Z -> Z -> Reading St MediaContainer) (many : list bytes -> Reading St MediaContainer).
Context (Hlist : forall start size, yields (list_page start size) (fun _ => True)) (Hmany : forall keys, yields (many keys) (fun _ => True)).

Lemma raw_yields start size : yields (raw list_page start size) (fun _ => True).
Proof.
  unfold raw. eapply yields_bind; [apply yields_lifted, Hlist|]. intros mc _. eapply yields_bind; [apply yields_set|]. intros _ _. by apply yields_done.
Qed.

Lemma lifted_many_yields keys : yields (lifted (many keys)) (fun _ => True).
Proof. apply yields_lifted, Hmany. Qed.

Lemma sample_yields preview total start size : 0 <= start -> 0 <= size ->
  yields (sample_listing list_page many preview total start size) (fun _ => True).
Proof.
  intros Hs Hsz. unfold sample_listing. eapply (yields_bind _ _ (fun _ => True)).
  - destruct (Z.ltb_spec start (len preview)) as [Hlt|]; [|by apply yields_done].
    destruct (slice_between_ok start (Z.min (start + size) (len preview)) preview) as (pre & mid & post & _ & _ & _ & ->); [lia|lia|].
    eapply (yields_bind _ _ (fun _ => True)); [by apply yields_panic|]. intros keys _.
    eapply yields_bind; [apply lifted_many_yields|]. intros read _. by apply yields_done.
  - intros shown _. cbv zeta. destruct (_ <? _); [|by apply yields_done]. eapply yields_bind; [apply raw_yields|]. intros mc _.
    destruct (negb _); [|by apply yields_done]. eapply yields_bind; [apply yields_set|]. intros _ _. by apply yields_done.
Qed.

(** A row between two asks: a window at positions of a listing or of its ledger. *)
Definition row_state_ok (row : RowState) : Prop := match rs_ledger row with Some lg => ledger_ok lg | None => True end.

Lemma probe_yields ask current mode : current_ok current -> 0 <= ask_start ask ->
  yields (probe list_page ask current mode) (fun p => current_ok (pr_held p) /\ 0 <= pr_start p /\ (pr_held p = None <-> current = None)).
Proof.
  intros Hc Ha. unfold probe. destruct current as [[rows info]|]; [|by apply yields_done].
  destruct (_ && _); [|apply yields_done; split_and!; try done; naive_solver]. eapply yields_bind; [apply raw_yields|]. intros mc _.
  eapply yields_bind; [apply yields_get|]. intros [] _; [by apply yields_done|]. destruct (forallb _ _); [by apply yields_done|].
  apply yields_done. cbn. unfold len. split_and!; try done; try lia. apply Forall_forall.
  intros r Hr. apply list_elem_of_lookup in Hr as [i Hi]. rewrite list_lookup_imap in Hi. apply fmap_Some in Hi as (r' & _ & ->). cbn. lia.
Qed.

Lemma default_ledger_ok lg : match lg with Some lg => ledger_ok lg | None => True end -> ledger_ok (default ledger_default lg).
Proof. destruct lg as [lg|]; [done|]. intros _. constructor; cbn; [apply keys_from_ok; constructor|constructor]. Qed.

(** What an ask leaves of a row. *)
Definition left_ok (ask : Ask) (current : option (list Row * PageInfo)) (row : RowState)
    (answer : (list Row * PageInfo) * RowState) : Prop :=
  let '((rows, info), row') := answer in
  Forall (row_ok ask) rows /\ len rows <= MAX_SHELF_ITEMS /\ pi_unstable info = false /\ 0 <= pi_offset info /\ 0 <= pi_end info
  /\ row_state_ok row' /\ (ledger_active row = true -> ledger_active row' = true)
  /\ (current <> None -> forall r, r ∈ rows -> exists lg, rs_ledger row' = Some lg /\ row_key r ∈ ks_list (lg_keys lg)).

Lemma on_ledger_yields ask current rows info lg row row0 : ledger_ok lg -> lg_active lg = true -> 0 <= pi_offset info -> 0 <= pi_end info ->
  yields (on_ledger list_page many ask rows info lg row) (left_ok ask current row0).
Proof.
  intros Hlg Hact Ho He. unfold on_ledger. eapply yields_bind.
  - apply (a_ledger_window_shows_the_ledger ask (rows, info) lg (raw list_page) (fun keys => lifted (many keys)) Hlg Ho He raw_yields lifted_many_yields).
  - intros [[rows' info'] lg'] (Hlg' & Hact' & _ & Hin & Hsh & Hl & Hu & Ho' & He'). apply yields_done. unfold left_ok, row_state_ok, ledger_active. cbn.
    rewrite Forall_forall in Hin, Hsh. split_and!; try done; try lia.
    + apply Forall_forall. intros r Hr. split; [by apply Hin|by apply Hsh].
    + congruence.
    + intros _ r Hr. exists lg'. split; [done|]. destruct (Hin r Hr) as [_ Hk]. by eapply list_elem_of_lookup_2.
Qed.

(** The window's step, which may have lost its place. *)
Definition step_ok (ask : Ask) (step : option (list Row * PageInfo)) : Prop :=
  match step with
  | Some (rows, info) => pi_unstable info = true \/ Forall (row_ok ask) rows /\ len rows <= MAX_SHELF_ITEMS /\ pi_unstable info = false
      /\ 0 <= pi_offset info /\ 0 <= pi_end info
  | None => True
  end.

Lemma step_window_yields ask p minimum_end : current_ok (pr_held p) -> 0 <= ask_start ask ->
  yields (step_window list_page many ask p minimum_end) (step_ok ask).
Proof.
  intros Hp Hst. unfold step_window. destruct (pr_absorbed p); [by apply yields_done|].
  pose proof (fun f Hf => fetch_window_any (St := St * bool) f Hf ask (pr_held p) minimum_end Hp Hst) as Hfw.
  eapply yields_weaken; [|apply yields_attempt;
    destruct (pr_mode p) as [| |preview]; apply Hfw; intros; [apply raw_yields..|by apply sample_yields]].
  by intros [[rows info]|].
Qed.

Lemma on_listing_yields ask p preview_len minimum_end current row row0 : current_ok (pr_held p) -> 0 <= ask_start ask ->
  (pr_held p = None <-> current = None) -> row_state_ok row -> ledger_active row = ledger_active row0 ->
  yields (on_listing list_page many ask p preview_len minimum_end row) (left_ok ask current row0).
Proof.
  intros Hp Hst Hsome Hrow Hact. unfold on_listing. eapply yields_bind; [by apply step_window_yields|]. intros step Hstep.
  eapply yields_bind; [apply yields_get|]. intros ignored _. cbv zeta. pose proof (default_ledger_ok (rs_ledger row) Hrow) as Hdef.
  destruct (negb _) eqn:Hsw.
  - destruct step as [[rows info]|]; [|apply yields_failed]. apply negb_true_iff, orb_false_iff in Hsw as [_ Hsw].
    apply orb_false_iff in Hsw as [Hun _]. destruct Hstep as [Hbad|(Hr & Hl & Hu & Ho & He)]; [congruence|].
    unfold note_both. destruct (pr_held p) as [[held_rows held_info]|] eqn:Hh.
    + destruct (note_ok held_rows _ Hdef) as (lg1 & -> & Hok1 & _ & Ha1). cbn [mbind option_bind].
      destruct (note_ok rows lg1 Hok1) as (lg2 & -> & Hok2 & Hin2 & Ha2). cbn [mbind option_bind].
      eapply (yields_bind _ _ (fun lg => lg = Some lg2)); [by apply yields_panic|]. intros ? ->. apply yields_done.
      unfold left_ok, row_state_ok. rewrite <- Hact. unfold ledger_active. cbn. split_and!; try done.
      * rewrite Ha2, Ha1. by destruct (rs_ledger row).
      * intros _ r Hr'. exists lg2. split; [done|]. apply Hin2. right. by apply list_elem_of_fmap_2.
    + eapply (yields_bind _ _ (fun lg => lg = rs_ledger row)); [by apply yields_panic|]. intros ? ->. apply yields_done.
      unfold left_ok. rewrite <- Hact. cbn. split_and!; try done. intros Hn. destruct Hn. by apply Hsome.
  - destruct (pr_held p) as [[rows info]|] eqn:Hh; [|apply yields_failed].
    destruct (note_ok rows _ Hdef) as (lg1 & -> & Hok1 & _ & _). eapply (yields_bind _ _ (fun lg => lg = lg1)); [by apply yields_panic|].
    intros ? ->. apply on_ledger_yields; [by destruct Hok1; constructor|done|apply Hp|apply Hp].
Qed.

Lemma read_row_in_yields ask current row minimum_end : current_ok current -> 0 <= ask_start ask -> row_state_ok row ->
  yields (read_row_in list_page many ask current row minimum_end) (left_ok ask current row).
Proof.
  intros Hc Ha Hrow. unfold read_row_in. eapply yields_bind; [by apply probe_yields|]. intros p (Hp & Hst & Hsome). cbv zeta.
  set (row1 := row <| rs_mode := pr_mode p |>). set (ask1 := mk_ask (pr_start p) (ask_before ask) (ask_hidden ask)).
  assert (forall preview_len, yields (on_listing list_page many ask1 p preview_len minimum_end row1) (left_ok ask current row)) as Hlisting
    by (intros preview_len; by apply (on_listing_yields ask1)).
  destruct (ledger_active row1) eqn:Hact; [|apply Hlisting].
  destruct (pr_held p) as [[rows info]|] eqn:Hh; [|apply Hlisting]. unfold ledger_active in Hact.
  destruct (rs_ledger row1) as [lg|] eqn:Hlg; [|apply Hlisting].
  apply (on_ledger_yields ask1); [|done|apply Hp|apply Hp]. unfold row_state_ok in Hrow. by change (rs_ledger row1) with (rs_ledger row) in Hlg; rewrite Hlg in Hrow.
Qed.

(** ** A row that stays on its listing *)

Lemma on_ledger_active ask rows info lg row : ledger_ok lg -> lg_active lg = true -> 0 <= pi_offset info -> 0 <= pi_end info ->
  yields (on_ledger list_page many ask rows info lg row) (fun answer => ledger_active (snd answer) = true).
Proof.
  intros Hlg Hact Ho He. unfold on_ledger. eapply yields_bind.
  - apply (a_ledger_window_shows_the_ledger ask (rows, info) lg (raw list_page) (fun keys => lifted (many keys)) Hlg Ho He raw_yields lifted_many_yields).
  - intros [[rows' info'] lg'] (_ & Hact' & _). apply yields_done. unfold ledger_active. cbn. congruence.
Qed.

(** The listing a row reads, once its preview was compared with it. *)
Definition listing_of (p : Probed) : Z -> Z -> Reading (St * bool) MediaContainer :=
  match pr_mode p with
  | Sample preview => sample_listing list_page many preview (match pr_held p with Some (_, info) => pi_total info | None => 0 end)
  | _ => raw list_page
  end.

Lemma step_window_place ask p minimum_end w rows info w' :
  step_window list_page many ask p minimum_end w = (Answered (Some (rows, info)), w') -> pi_unstable info = false ->
  pr_absorbed p = false /\ exists pages, runs (listing_of p) w pages w' /\ in_place ask (pr_held p) pages rows.
Proof.
  unfold step_window. destruct (pr_absorbed p); [done|]. intros Hs Hst. split; [done|].
  assert (fetch_window (listing_of p) ask (pr_held p) minimum_end w = (Answered (rows, info), w')) as Hf.
  { unfold listing_of. unfold attempt in Hs.
    destruct (pr_mode p); cbv zeta in Hs; destruct (fetch_window _ _ _ _ w) as [[a| | |] w1]; by simplify_eq. }
  destruct (fetch_window_in_place (listing_of p) ask (pr_held p) minimum_end _ _ _ Hf) as (pages & Hr & [?|Hp]); [congruence|by exists pages].
Qed.

(** Whose place the listing holds. *)
Definition stays (ask : Ask) (p : Probed) (row : RowState) (rows : list Row) (w w' : St * bool) : Prop :=
  pr_absorbed p = false
  /\ (exists pages, runs (listing_of p) w pages w' /\ in_place ask (pr_held p) pages rows)
  /\ match rs_ledger row with Some lg => contradicts rows lg = false | None => True end.

Lemma on_listing_stays ask p preview_len minimum_end row w rows now row' w' :
  current_ok (pr_held p) -> row_state_ok row ->
  on_listing list_page many ask p preview_len minimum_end row w = (Answered ((rows, now), row'), w') ->
  ledger_active row' = false -> stays ask p row rows w w'.
Proof.
  intros Hp Hrow. unfold on_listing, read_bind at 1. destruct (step_window _ _ _ _ _ w) as [[step| | |] w1] eqn:Hstep; try done.
  destruct w1 as [s1 ignored]. unfold read_bind at 1, get_ignored. cbv zeta. destruct (negb _) eqn:Hsw.
  - destruct step as [[rows1 info1]|]; [|done]. apply negb_true_iff, orb_false_iff in Hsw as [_ Hsw].
    apply orb_false_iff in Hsw as [Hun Hcon]. unfold read_bind. cbn [or_panic].
    destruct (note_both (pr_held p) rows1 (rs_ledger row)) as [lg|]; [|done]. intros [= -> _ _ <-] _.
    destruct (step_window_place _ _ _ _ _ _ _ Hstep Hun) as [Habs Hpl]. split_and!; try done. by destruct (rs_ledger row).
  - destruct (pr_held p) as [[held_rows info]|] eqn:Hh; [|done]. unfold read_bind. cbn [or_panic].
    destruct (note_ok held_rows _ (default_ledger_ok _ Hrow)) as (lg1 & -> & Hok1 & _ & _).
    pose proof (on_ledger_active ask held_rows info (activated info preview_len lg1) row) as Hy.
    intros Ha Hact. specialize (Hy ltac:(by destruct Hok1; constructor) eq_refl ltac:(apply Hp) ltac:(apply Hp) (s1, ignored)).
    rewrite Ha in Hy. cbn in Hy. congruence.
Qed.

Lemma read_row_in_stays ask current row minimum_end w rows now row' w' :
  current_ok current -> 0 <= ask_start ask -> row_state_ok row ->
  read_row_in list_page many ask current row minimum_end w = (Answered ((rows, now), row'), w') ->
  ledger_active row' = false ->
  exists p wp, probe list_page ask current (rs_mode row) w = (Answered p, wp)
    /\ stays (mk_ask (pr_start p) (ask_before ask) (ask_hidden ask)) p row rows wp w'.
Proof.
  intros Hc Ha Hrow. unfold read_row_in, read_bind. pose proof (probe_yields ask current (rs_mode row) Hc Ha w) as Hprobe.
  destruct (probe _ _ _ _ w) as [[p| | |] wp]; try done. destruct Hprobe as (Hp & _ & _). cbn in Hp. cbv zeta.
  set (row1 := row <| rs_mode := pr_mode p |>). set (ask1 := mk_ask _ _ _). intros Hans Hact. exists p, wp. split; [done|].
  assert (forall preview_len, on_listing list_page many ask1 p preview_len minimum_end row1 wp = (Answered ((rows, now), row'), w') ->
    stays ask1 p row rows wp w') as Hlisting.
  { intros preview_len Hl. by apply (on_listing_stays _ _ _ _ row1 _ _ _ _ _ Hp Hrow Hl). }
  destruct (ledger_active row1) eqn:Hact1; [|by apply Hlisting in Hans].
  destruct (pr_held p) as [[rows1 info]|] eqn:Hh; [|by apply Hlisting in Hans].
  destruct (rs_ledger row1) as [lg|] eqn:Hlg; [|by apply Hlisting in Hans].
  unfold ledger_active in Hact1. rewrite Hlg in Hact1. unfold row_state_ok in Hrow. change (rs_ledger row1) with (rs_ledger row) in Hlg.
  rewrite Hlg in Hrow. pose proof (on_ledger_active ask1 rows1 info lg row1 Hrow Hact1 ltac:(apply Hp) ltac:(apply Hp) wp) as Hy.
  rewrite Hans in Hy. cbn in Hy. congruence.
Qed.

End Row.

(** C19. An ask against a row ends, whatever the server does: every request may move the listing, fail or
    ignore the paging.  When it answers, the row shows at most twenty-four cards, none hidden; every card
    shown to a row that had a window is in the ledger, the ledger is in order, a row on its ledger stays
    on it, and the next ask can be made.  It does not lose its place: a row that is not answered from its
    ledger was answered from a listing that held, by a server that did not ignore the first read of it.
    The rows it kept stand, moved together, where a page of this very ask shows the row at their edge
    (unless nothing lies before them to be read), the rest follows on the side of the ask, and the window
    does not go backwards against the keys the row has shown. *)
Theorem a_row_never_loses_its_place {St} ask current row minimum_end (list_page : Z -> Z -> Reading St MediaContainer) many :
  current_ok current -> 0 <= ask_start ask -> row_state_ok row ->
  (forall start size, yields (list_page start size) (fun _ => True)) -> (forall keys, yields (many keys) (fun _ => True)) ->
  yields (read_row list_page many ask current row minimum_end) (fun '((rows, now), row') =>
    left_ok ask current row ((rows, now), row') /\ current_ok (Some (rows, now)) /\ row_state_ok row')
  /\ forall s rows now row' s',
       read_row list_page many ask current row minimum_end s = (Answered ((rows, now), row'), s') ->
       ledger_active row' = false ->
       exists p wp ignored, probe list_page ask current (rs_mode row) (s, false) = (Answered p, wp)
         /\ stays list_page many (mk_ask (pr_start p) (ask_before ask) (ask_hidden ask)) p row rows wp (s', ignored).
Proof.
  intros Hc Ha Hrow Hlist Hmany. split.
  - intros s. pose proof (read_row_in_yields list_page many Hlist Hmany ask current row minimum_end Hc Ha Hrow (s, false)) as Hy.
    unfold read_row. destruct (read_row_in _ _ _ _ _ _ _) as [a [s' b]]. cbn in *. destruct a as [[[rows now] row']| | |]; try done.
    split; [exact Hy|]. destruct Hy as (Hr & _ & _ & Ho & He & Hrs & _). split; [|done]. split; [|done].
    eapply Forall_impl; [exact Hr|]. by intros r [? _].
  - intros s rows now row' s'. unfold read_row. destruct (read_row_in _ _ _ _ _ _ _) as [a [s1 b]] eqn:E. intros [= -> ->] Hact.
    destruct (read_row_in_stays list_page many Hlist Hmany _ _ _ _ _ _ _ _ _ Hc Ha Hrow E Hact) as (p & wp & Hp & Hs). by exists p, wp, b.
Qed.
