(* ===== verification/ShelfHubs.v ===== *)
(** * A hub list read in windows

    From a list that holds still every hub is taken once: whatever the length of its windows when they
    come with the length of the list, and of full windows when they do not. *)

From stdpp Require Import list gmap.
From S2P Require Import Prelude Bytes ShelfWindow ShelfReading ShelfLedger ShelfRow.

#[local] Open Scope Z_scope.
#[local] Open Scope reading_scope.

Section Hubs.
Context {St S : Type} (read : option PageReq -> Reading St HubPage) (fresh : S) (take_hubs : S -> list Hub -> S).
Context (l : list Hub) (held : St -> Prop).

(** A window of the list: hubs from where it was asked, at most sixteen, with the length of the list; or
    without it, and then as many of sixteen as there are. *)
Definition window_of (start : Z) (mc : HubPage) : Prop :=
  hp_offset mc = start /\ exists n, hp_hub mc = piece l start n /\ 1 <= n <= HUB_WINDOW
    /\ (hp_total_size mc = len l \/ hp_total_size mc <= 0 /\ n = HUB_WINDOW).

(** The server answers, with windows or, ignoring them, with the whole list. *)
Definition hubs_served : Prop :=
  forall start s, held s -> 0 <= start -> exists mc s', read (Some (mk_page_req start HUB_WINDOW)) s = (Answered mc, s') /\ held s'
    /\ (window_of start mc \/ start = 0 /\ hp_hub mc = l /\ HUB_WINDOW < len l).

Context (Hserve : hubs_served) (Hdistinct : NoDup (pair_of <$> l)) (Hlen : len l <= u32_max).

Lemma take_next {A} (r : list A) start n : 0 <= start <= len r -> 1 <= n ->
  take (Z.to_nat (start + Z.min n (len r - start))) r = take (Z.to_nat start) r ++ piece r start n.
Proof.
  intros Hs Hn. unfold piece, len in *. destruct (Z.le_gt_cases n (Z.of_nat (length r) - start)).
  - rewrite Z.min_l by done. replace (Z.to_nat (start + n)) with (Z.to_nat start + Z.to_nat n)%nat by lia. by rewrite take_take_drop.
  - rewrite take_ge by lia. rewrite (take_ge (drop _ _)) by (rewrite length_drop; lia). by rewrite take_drop.
Qed.

Lemma chunks_concat {A} fuel n (r : list A) : (0 < n)%nat -> (length r <= fuel)%nat -> concat (chunks_of fuel n r) = r.
Proof.
  intros Hn. revert r. induction fuel as [|fuel IH]; intros r Hf; [by destruct r; cbn in *; [|lia]|].
  destruct r as [|x r]; [done|]. change (chunks_of (Datatypes.S fuel) n (x :: r)) with (take n (x :: r) :: chunks_of fuel n (drop n (x :: r))).
  cbn [concat]. rewrite IH; [by rewrite take_drop|]. rewrite length_drop. cbn in *. lia.
Qed.

Lemma chunks_small {A} fuel n (r : list A) : Forall (fun c => (length c <= n)%nat) (chunks_of fuel n r).
Proof.
  revert r. induction fuel as [|fuel IH]; intros r; [constructor|]. destruct r as [|x r]; [constructor|].
  change (chunks_of (Datatypes.S fuel) n (x :: r)) with (take n (x :: r) :: chunks_of fuel n (drop n (x :: r))).
  constructor; [rewrite length_take; lia|apply IH].
Qed.

Lemma see_all_spec hubs : forall seen, NoDup (pair_of <$> hubs) -> (forall h, h ∈ hubs -> pair_of h ∉ seen) ->
  exists seen', see_all hubs seen = Some seen' /\ forall p, p ∈ seen' <-> p ∈ seen \/ p ∈ pair_of <$> hubs.
Proof.
  induction hubs as [|h hubs IH]; intros seen Hn Hnew; cbn [see_all].
  - exists seen. split; [done|]. intros p. rewrite elem_of_nil. naive_solver.
  - cbn in Hn. apply NoDup_cons in Hn as [Hh Hn]. rewrite bool_decide_eq_false_2 by (apply Hnew; by constructor).
    destruct (IH ({[pair_of h]} ∪ seen) Hn) as (seen' & -> & He).
    + intros h' Hh' [Heq%elem_of_singleton|Hin]%elem_of_union; [|by apply (Hnew h'); [by constructor|]].
      apply Hh. rewrite <- Heq. by apply list_elem_of_fmap_2.
    + exists seen'. split; [done|]. intros p. rewrite He, elem_of_union, elem_of_singleton, fmap_cons, elem_of_cons. naive_solver.
Qed.

(** What has been read: the list up to [start]. *)
Record read_to (start : Z) (total : option Z) (seen : gset (bytes * bytes)) (state : S) (parts : list (list Hub)) : Prop := mk_read_to {
  rt_start : 0 <= start <= len l;
  rt_parts : concat parts = take (Z.to_nat start) l;
  rt_small : Forall (fun c => len c <= HUB_WINDOW) parts;
  rt_state : state = fold_left take_hubs parts fresh;
  rt_seen : forall p, p ∈ seen <-> p ∈ pair_of <$> take (Z.to_nat start) l;
  rt_total : total = None \/ total = Some (len l);
  rt_again : start = 0 -> parts = []
}.

Definition taken_once (a : Answer (HubListRead S)) : Prop :=
  exists parts, a = Answered (Done (fold_left take_hubs parts fresh)) /\ concat parts = l /\ Forall (fun c => len c <= HUB_WINDOW) parts.

Lemma seen_size start total seen state parts : read_to start total seen state parts -> Z.of_nat (size seen) = start.
Proof.
  intros [Hs _ _ _ He _ _]. assert (seen = list_to_set (pair_of <$> take (Z.to_nat start) l)) as ->.
  { apply set_eq. intros p. by rewrite elem_of_list_to_set, He. }
  rewrite size_list_to_set.
  - rewrite length_fmap, length_take. unfold len in *. lia.
  - rewrite <- (take_drop (Z.to_nat start) l), fmap_app in Hdistinct. by apply NoDup_app in Hdistinct as [? _].
Qed.

Lemma answered_total mc : hp_total_size mc = len l \/ hp_total_size mc <= 0 ->
  (if 0 <? hp_total_size mc then Some (u32_wrap (hp_total_size mc)) else None) = None
  \/ (if 0 <? hp_total_size mc then Some (u32_wrap (hp_total_size mc)) else None) = Some (len l).
Proof.
  intros Ht. destruct (Z.ltb_spec 0 (hp_total_size mc)); [|by left]. right. destruct Ht as [->|]; [|lia].
  unfold u32_wrap. rewrite Z.mod_small; [done|]. unfold u32_max, len in *. lia.
Qed.

Lemma read_windows_once fuel : forall start total seen state parts s, read_to start total seen state parts -> held s ->
  (Z.to_nat (len l - start) + 1 < fuel)%nat ->
  taken_once (fst (read_hub_windows read take_hubs fuel start total seen state s))
  /\ held (snd (read_hub_windows read take_hubs fuel start total seen state s)).
Proof.
  induction fuel as [|fuel IH]; intros start total seen state parts s Hrt Hheld Hf; [lia|]. cbn [read_hub_windows].
  pose proof Hrt as [Hs Hp Hsm Hst Hse Ht Hag]. destruct (Hserve start s Hheld ltac:(lia)) as (mc & s1 & Hrd & Hheld1 & Hans).
  unfold read_bind, attempt. rewrite Hrd.
  destruct Hans as [[Hoff (n & Hhub & Hn & Htot)]|(-> & Hhub & Hbig)].
  2: { cbn [Z.eqb andb]. rewrite Hhub. destruct (Z.ltb_spec HUB_WINDOW (len l)); [|lia]. cbn. split; [|done].
       rewrite Hst, (Hag eq_refl). cbn. exists (chunks (Z.to_nat HUB_WINDOW) l). unfold take_runs. split; [done|]. split.
       - by apply chunks_concat; [unfold HUB_WINDOW; lia|].
       - eapply Forall_impl; [apply chunks_small|]. cbn. unfold len, HUB_WINDOW. lia. }
  assert (len (hp_hub mc) = Z.min n (len l - start)) as Hgot.
  { rewrite Hhub. unfold piece, len in *. rewrite length_take, length_drop. lia. }
  destruct (Z.ltb_spec HUB_WINDOW (len (hp_hub mc))) as [|_]; [lia|]. rewrite andb_false_r.
  rewrite Hoff, Z.eqb_refl, andb_false_r.
  pose proof (answered_total mc ltac:(tauto)) as Hat. set (answered := if 0 <? hp_total_size mc then _ else None) in *.
  assert (match total, answered with Some was, Some now => negb (was =? now) | _, _ => false end = false) as ->.
  { destruct Ht as [->| ->], Hat as [->| ->]; try done. by rewrite Z.eqb_refl. }
  assert (or_else total answered = None \/ or_else total answered = Some (len l)) as Ht'
    by (destruct Ht as [->| ->], Hat as [->| ->]; cbn; tauto).
  assert (0 < len l -> or_else total answered = None -> n = HUB_WINDOW) as Hfull.
  { intros Hpos. unfold answered. destruct Htot as [->|[_ ->]]; [|done]. destruct (Z.ltb_spec 0 (len l)); [by destruct total|lia]. }
  set (total1 := or_else total answered) in *. clearbody total1. clear answered Hat.
  destruct (hp_hub mc) as [|h hubs0] eqn:Hh.
  - assert (start = len l) as Heq by (change (len []) with 0 in Hgot; lia). rewrite (seen_size _ _ _ _ _ Hrt).
    assert (match total1 with Some t => start <? t | None => false end = false) as -> by (destruct Ht' as [->| ->]; [done|lia]).
    cbn. split; [|done]. exists parts. rewrite Hst. split; [done|]. split; [|done].
    rewrite Hp. apply take_ge. unfold len in *. lia.
  - assert (0 < len (hp_hub mc)) as Hpos by (rewrite Hh; unfold len; cbn; lia).
    rewrite <- Hh in *. clear h hubs0 Hh. set (hubs := hp_hub mc) in *.
    assert (take (Z.to_nat (start + len hubs)) l = take (Z.to_nat start) l ++ hubs) as Htake.
    { rewrite Hgot, Hhub. apply take_next; lia. }
    assert (NoDup (pair_of <$> take (Z.to_nat start) l ++ hubs)) as Hnd.
    { rewrite <- Htake. rewrite <- (take_drop (Z.to_nat (start + len hubs)) l), fmap_app in Hdistinct. by apply NoDup_app in Hdistinct as [? _]. }
    rewrite fmap_app in Hnd. apply NoDup_app in Hnd as (_ & Hdis & Hnd).
    destruct (see_all_spec hubs seen Hnd) as (seen' & -> & Hse').
    { intros h Hh Hin%Hse. by apply (Hdis _ Hin), list_elem_of_fmap_2. }
    assert (read_to (start + len hubs) total1 seen' (take_hubs state hubs) (parts ++ [hubs])) as Hrt'.
    { constructor; [unfold len in *; lia| | | | |done|].
      - by rewrite concat_app, Hp, Htake; cbn; rewrite app_nil_r.
      - apply Forall_app. split; [done|]. constructor; [lia|constructor].
      - by rewrite fold_left_app, Hst.
      - intros p. by rewrite Hse', Hse, Htake, fmap_app, elem_of_app.
      - intros Hz. lia. }
    assert (start + len hubs = len l -> taken_once (Answered (Done (take_hubs state hubs))) /\ held s1) as Hend.
    { intros Hall. split; [|done]. exists (parts ++ [hubs]). destruct Hrt' as [_ Hp' Hsm' -> _ _ _]. split; [done|]. split; [|done].
      rewrite Hp', Hall. apply take_ge. unfold len. lia. }
    destruct Ht' as [->| ->].
    + rewrite (Hfull ltac:(lia) eq_refl) in Hgot. destruct (Z.ltb_spec (len hubs) HUB_WINDOW); [apply Hend; lia|].
      apply (IH _ _ _ _ _ _ Hrt' Hheld1). lia.
    + destruct (Z.leb_spec (len l) (start + len hubs)) as [Hfin|].
      * assert (start + len hubs = len l) as Heq by lia. rewrite Heq, Z.eqb_refl. cbn. by apply Hend.
      * apply (IH _ _ _ _ _ _ Hrt' Hheld1). lia.
Qed.

Lemma read_nothing : read_to 0 None ∅ fresh [].
Proof.
  assert (forall p : bytes * bytes, p ∈ (∅ : gset (bytes * bytes)) <-> p ∈ pair_of <$> take (Z.to_nat 0) l) as Hno.
  { intros p. change (Z.to_nat 0) with 0%nat. rewrite take_0. cbn. by rewrite elem_of_nil, elem_of_empty. }
  constructor; try done; [unfold len; lia|by left].
Qed.

End Hubs.

(** C32. A hub list that holds still while it is read is read once.  When the server says how long the
    list is, its windows may have any length from one hub to sixteen; when it does not, they must be full
    but for the last, since the reader takes the first short window for the end; and the server may
    ignore the windows and answer the whole list.  Every hub is then taken, in the order of the list, in
    runs of at most sixteen. *)
Theorem a_hub_list_is_read_once {St S} (read : option PageReq -> Reading St HubPage) (fresh : S) take_hubs l held s fuel :
  hubs_served read l held -> NoDup (pair_of <$> l) -> len l <= u32_max -> held s -> (length l + 1 < fuel)%nat ->
  exists parts, fst (read_hub_list read fresh take_hubs fuel s) = Answered (fold_left take_hubs parts fresh)
    /\ concat parts = l /\ Forall (fun c => len c <= HUB_WINDOW) parts.
Proof.
  intros Hserve Hn Hlen Hs Hf. destruct (read_windows_once read fresh take_hubs l held Hserve Hn Hlen fuel 0 None ∅ fresh [] s
    (read_nothing fresh take_hubs l) Hs) as [(parts & Hdone & Hrest) _]; [unfold len; lia|].
  exists parts. split; [|exact Hrest]. unfold read_hub_list, read_bind at 1.
  destruct (read_hub_windows _ _ _ _ _ _ _ s) as [a s']. cbn in Hdone. by subst a.
Qed.
