(* ===== verification/Witnesses.v ===== *)
(** * Witnesses

    Every theorem with hypotheses, applied at concrete inputs that satisfy them: a 1080p film on a
    1080p panel, two-second HLS objects, the shipped constants; a media server at home whose
    trailers live on a CDN. *)

From Stdlib Require Import String.
From stdpp Require Import relations.
From S2P Require Import Prelude Bytes Origin Redirect.
From S2P Require Import Lifecycle AuQueue Vocabulary Estimate Window Ladder Plant.
From S2P Require Import Catalog Viability Mode Original Bootstrap Controller Transactions.

(** ** The concrete playback *)

Definition geo : PlantGeometry := mk_geometry 8000000 1000000 2000 2000.
Definition cat : HlsActuatorCatalog :=
  mk_catalog measured_points (1920, 1080) (1920, 1080) (Some geo).

(** Both lanes hold [b] ms ahead of the playhead. *)
Definition snap (b : Z) : BufferSnapshot := mk_snapshot 0 b (Some b) true.

(** A completed two-second object. *)
Definition object (bytes us total b : Z) : SegmentSample :=
  mk_sample bytes us total 2000 2000 (snap b) true.

Definition quick : SegmentSample := object 200000 60000 80000 20000.
Definition slow : SegmentSample := object 1000000 2900000 3000000 500.
Definition deep : SegmentSample := object 200000 60000 80000 40000.
Definition response : SegmentSample := object 2000000 900000 1000000 20000.

Definition after (c : Controller) (s : SegmentSample) (now : Z) : Decision * Controller :=
  default (Stay, c) (observe_inner c s (Some 2000) now false).

Definition fresh : Controller := starting_at P480 None cat.
Definition climbing : Controller := (after fresh quick 1000).2.
Definition climb : Proposal := mk_proposal P1080High Up.
Definition refused : Controller := (reject climbing climb Censored 2000).2.
Definition on_720 : Controller := starting_at P720 None cat.
Definition sinking : Controller := (after on_720 slow 1000).2.
Definition small_picture : ObservedHlsVariant := mk_variant 500000 854 480.
Definition full_picture : ObservedHlsVariant := mk_variant 8000000 1920 1080.
Definition watched : Controller := observe_active_variant climbing small_picture 500.

Ltac num := vm_compute; repeat split; try done; intros; discriminate.

Lemma geo_wf : geometry_wf geo.
Proof. split; num. Qed.

Lemma cat_wf : catalog_wf cat.
Proof. split; [done|num|num|]. intros g [= <-]. apply geo_wf. Qed.

Lemma object_ok bytes us total b :
  0 < bytes <= u32_max -> 0 < us <= total -> total <= u32_max -> 0 <= b <= 100000 ->
  sample_ok (object bytes us total b).
Proof.
  intros. unfold object. split; [split; simpl; ints|]. unfold snap, buffered_ms, saturating_since. simpl.
  intros ? [= <-]. unfold RESERVE_BOUND_MS. ints.
Qed.

Ltac object := apply object_ok; num.

Lemma fresh_wf r : controller_wf (starting_at r None cat).
Proof. apply starting_at_wf; [apply cat_wf|done]. Qed.

Lemma after_wf c s now d c' :
  controller_wf c -> sample_ok s -> observe_inner c s (Some 2000) now false = Some (d, c') ->
  controller_wf c'.
Proof. intros Hc Hs Ho. apply (observe_inner_decided _ _ _ _ _ _ _ Hc Hs Ho). Qed.

Lemma climbing_wf : controller_wf climbing.
Proof.
  apply (after_wf fresh quick 1000 (Prime climb)); [apply fresh_wf|object|by vm_compute].
Qed.

(** ** Adaptive bitrate: the controller *)

Lemma controller_never_panics_witness :
  exists d c', observe_inner climbing deep (Some 2000) 3000 false = Some (d, c').
Proof.
  destruct (controller_never_panics P480 None cat climbing deep (Some 2000) 3000 false) as (d & c' & Hd & _).
  - apply cat_wf.
  - done.
  - eapply rtc_l; [|apply rtc_refl]. apply any_uncommitted.
    apply (step_observe _ quick (Some 2000) 1000 false (Prime climb)); [object|by vm_compute].
  - object.
  - eauto.
Defined.

Lemma failed_budget_is_never_retried_witness :
  exists c3, observe_inner refused deep (Some 2000) 5000 false
             = Some (Prime (mk_proposal P1080M10 Up), c3)
    /\ c_pending_exploration_budget_ms climbing < c_pending_exploration_budget_ms c3.
Proof.
  exists (after refused deep 5000).2.
  assert (Ho : observe_inner refused deep (Some 2000) 5000 false
               = Some (Prime (mk_proposal P1080M10 Up), (after refused deep 5000).2))
    by by vm_compute.
  split; [done|].
  destruct (failed_budget_is_never_retried climbing climb Censored 2000 refused deep (Some 2000) 5000
              false (mk_proposal P1080M10 Up) (after refused deep 5000).2
              climbing_wf eq_refl eq_refl eq_refl (rtc_refl _ _) ltac:(object) Ho eq_refl)
    as [Hc _].
  apply Hc. by left.
Defined.

Lemma upshift_is_funded_witness :
  observe_inner fresh quick (Some 2000) 1000 false = Some (Prime climb, climbing)
  /\ 0 < c_pending_exploration_budget_ms climbing.
Proof.
  assert (Ho : observe_inner fresh quick (Some 2000) 1000 false = Some (Prime climb, climbing))
    by by vm_compute.
  split; [done|].
  destruct (upshift_is_funded fresh quick (Some 2000) 1000 false climb climbing)
    as (b & l & _ & _ & He & _); [apply fresh_wf|object|done| |done|done|done].
  intros d [= <-]. num.
Defined.

Lemma unsafe_episode_recovers_witness :
  exists p, observe_inner on_720 slow (Some 2000) 1000 false = Some (Prime p, sinking)
    /\ pr_direction p = Down /\ c_pending_reserve_policy sinking = Some TerminalFloor.
Proof.
  assert (Ho : observe_inner on_720 slow (Some 2000) 1000 false
               = Some (Prime (mk_proposal P240 Down), sinking)) by by vm_compute.
  exists (mk_proposal P240 Down). split; [done|]. split; [done|].
  edestruct (unsafe_episode_recovers on_720 slow (Some 2000) 1000 (Prime (mk_proposal P240 Down))
               sinking (mk_admission false false 3000000 2000000 1000000 3000000 1) 500)
    as [[(_ & ? & _)|(p & Hp & _ & _ & _ & Hpol)] _];
    [apply fresh_wf|object|done|done|done|done|done|by vm_compute|done|done|done].
Defined.

Definition seated : Controller := (commit_candidate watched climb response full_picture 4000).2.

Lemma watched_wf : controller_wf watched.
Proof. apply observe_active_variant_wf, climbing_wf. Qed.

Lemma commit_is_exact_witness :
  commit_candidate watched climb response full_picture 4000 = (true, seated)
  /\ c_current seated = P1080High /\ c_pending seated = None.
Proof.
  assert (Hk : commit_candidate watched climb response full_picture 4000 = (true, seated))
    by by vm_compute.
  split; [exact Hk|].
  destruct (commit_is_exact watched climb response full_picture 4000 true seated watched_wf
              ltac:(object) Hk) as (_ & _ & Hok).
  destruct (Hok eq_refl) as (Hcur & Hpend & _). exact (conj Hcur Hpend).
Defined.

Lemma only_commits_move_the_picture_witness :
  any_step watched seated /\ c_visible_switches seated = 1.
Proof.
  assert (Hs : any_step watched seated)
    by (apply (any_commit _ climb response full_picture 4000); [object|by vm_compute]).
  split; [exact Hs|].
  destruct (only_commits_move_the_picture watched seated watched_wf Hs) as [Hmoved _].
  destruct Hmoved as [Hsw _]; [by vm_compute|]. rewrite Hsw. by vm_compute.
Defined.

Lemma candidate_verdict_is_conservation_witness :
  candidate_verdict climbing climb response 8000000 = Ready.
Proof.
  destruct (candidate_verdict_is_conservation climbing climb response 8000000 20000 climbing_wf
              ltac:(object) eq_refl eq_refl eq_refl ltac:(num)) as [Hup _].
  apply (Hup eq_refl). num.
Defined.

Lemma executed_budget_is_rechecked_witness :
  c_pending_exploration_budget_ms (set_executed_exploration_budget climbing climb 9000).2 = 9000.
Proof.
  assert (Hs : set_executed_exploration_budget climbing climb 9000
               = (true, (set_executed_exploration_budget climbing climb 9000).2)) by by vm_compute.
  destruct (executed_budget_is_rechecked climbing climb 9000 true _ climbing_wf Hs)
    as (_ & _ & _ & _ & _ & Hok & _).
  by apply Hok.
Defined.

(** ** Acquisition windows *)

Definition report (us ms : Z) : Report := mk_report 500000 us us ms.

Lemma report_is_ok us ms : 0 <= us <= u32_max -> 0 <= ms <= u32_max -> report_ok (report us ms).
Proof. intros. unfold report_ok. simpl. ints. Qed.

Definition episode_reports : list Report := [report 2500000 2000; report 1000000 2000].

Lemma episode_reports_ok : Forall report_ok episode_reports.
Proof. repeat constructor; num. Qed.

Definition ordered_1s : Admission := mk_admission true true 3500000 4000000 0 2500000 2.

(** Acquisitions whose times add up past 64 bits: an answer, and a refusal. *)
Definition endless_reports : list Report :=
  [mk_report 1 i64_max i64_max 1000; mk_report 1 i64_max i64_max 1000].

Lemma endless_reports_ok : Forall report_ok endless_reports.
Proof. repeat constructor; num. Qed.

Lemma ordered_admission_is_replay_witness :
  (exists left, replay 3000000 (episode_costs episode_reports) = Some left /\ 3000000 <= left)
  /\ exists a, observed_ordered_admission (episode (window_reset window_default) endless_reports) 3000 = Some a
       /\ admitted a = false.
Proof.
  split.
  - destruct (ordered_admission_is_replay window_default episode_reports 3000 episode_reports_ok
                ltac:(num)) as [_ Hr].
    destruct Hr as (a & E & Hr & _); [discriminate|]. apply Hr. vm_compute in E. by simplify_eq.
  - destruct (ordered_admission_is_replay window_default endless_reports 3000 endless_reports_ok
                ltac:(num)) as [_ Hr].
    destruct Hr as (a & E & _ & _ & Hr & _); [discriminate|]. exists a. split; [exact E|].
    unfold admitted. destruct Hr as [-> _]; [|done].
    left. by vm_compute.
Defined.

Lemma stress_admission_is_worst_order_witness :
  is_Some (replay 4000000 (rev (episode_costs episode_reports))).
Proof.
  destruct (observed_admission (episode (window_reset window_default) episode_reports) 4000)
    as [a|] eqn:E; [|by vm_compute in E].
  destruct (stress_admission_is_worst_order window_default episode_reports 4000 a episode_reports_ok
              ltac:(num) E) as [Hr _].
  apply Hr; [vm_compute in E; by simplify_eq|apply Permutation_sym, Permutation_rev].
Defined.

Definition acquisition (us ms : Z) : Acquisition := sample_of 500000 us us ms.

Lemma acquisition_models us ms :
  acquisition_ok (acquisition us ms) ->
  summary_models (from_sample (acquisition us ms)) (cost_of <$> [acquisition us ms]).
Proof. apply from_sample_models. Qed.

Lemma combine_is_associative_witness :
  as_overflowed (combine (combine (from_sample (acquisition 2500000 2000))
                            (from_sample (acquisition 1000000 2000)))
                   (from_sample (acquisition 3000000 2000))) = false.
Proof.
  set (a := acquisition 2500000 2000). set (b := acquisition 1000000 2000).
  set (c := acquisition 3000000 2000).
  destruct (combine_is_associative [cost_of a] [cost_of b] [cost_of c] (from_sample a)
              (from_sample b) (from_sample c)
              ltac:(repeat constructor; num) ltac:(repeat constructor; num)
              ltac:(repeat constructor; num) ltac:(apply from_sample_models; num)
              ltac:(apply from_sample_models; num) ltac:(apply from_sample_models; num))
    as (_ & Ho & _).
  rewrite Ho. by vm_compute.
Defined.

(** ** Estimates, the plant, the catalog *)

Definition link : CapacityEstimate := mk_capacity 9000 8000 120 6.
Lemma link_wf : capacity_wf link.
Proof. split; num. Qed.

Definition measurement : CapacityObservation := mk_observation 9500 4000000 3000000 true.
Lemma measurement_wf : observation_wf measurement.
Proof. split; num. Qed.

Definition samples : list CapacityOp := [Op_update measurement; Op_age 20000; Op_collapse 700].

Lemma conservative_budget_bounds_witness :
  conservative_kbps (fold_left (capacity_op policy_measured) samples link)
  <= ce_slow_kbps (fold_left (capacity_op policy_measured) samples link).
Proof.
  destruct (conservative_budget_bounds link policy_measured samples link_wf) as [_ [_ Hle]].
  - repeat constructor; try apply measurement_wf; num.
  - exact Hle.
Defined.

Lemma age_ms_steps_witness :
  age_ms link (3 * stale_half_life_ms policy_measured) policy_measured
  = mk_capacity 9000 8000 438 6.
Proof.
  destruct (age_ms_steps link (3 * stale_half_life_ms policy_measured) policy_measured link_wf
              ltac:(num) ltac:(num) ltac:(num) ltac:(num)) as (_ & _ & _ & Hthree & _).
  rewrite Hthree by num. by vm_compute.
Defined.

Definition reserve_20s : BufferEstimate := mk_buffer 20000 (-300) (-300) 4 2.

Lemma slope_hull_witness :
  Z.abs (be_slope_ms_per_s (buffer_update reserve_20s (Some 19600) 1000)) <= 400.
Proof.
  destruct (slope_hull reserve_20s 19600 1000 400) as (_ & _ & Hs & _);
    [split; num|num|num|num|num|exact Hs].
Defined.

Lemma starvation_horizon_exact_witness : starvation_horizon 20000 8000 6000 <> None.
Proof.
  intros Hnone.
  pose proof (starvation_horizon_exact 20000 8000 6000 ltac:(num) ltac:(num) ltac:(num)) as Hh.
  rewrite Hnone in Hh. cbv zeta in Hh. unfold u32_max in Hh. lia.
Defined.

Lemma refill_admits_exact_witness :
  refill_admits geo 6000 5600 192 4000 8000 policy_measured = true
  <-> 6000 * (buffer_refill_horizon_ms policy_measured
              + Z.max (buffer_target_at_ms geo 5600 192 policy_measured - 4000) 0)
      <= 8000 * buffer_refill_horizon_ms policy_measured.
Proof.
  exact (refill_admits_exact geo 6000 5600 192 4000 8000 policy_measured ltac:(num) ltac:(num)
           ltac:(num) ltac:(num) geo_wf ltac:(num) ltac:(num)).
Defined.

Lemma smallest_sufficient_box_witness : feasible cat <> [].
Proof.
  destruct (smallest_sufficient_box cat cat_wf) as (_ & _ & _ & Hsome). apply Hsome. num.
Defined.

Lemma widest_feasible_raster_is_declared_witness : widest_feasible_raster cat = (1920, 1080).
Proof.
  pose proof (widest_feasible_raster_is_declared cat cat_wf) as Hw.
  assert (Hc : widest_feasible_raster cat = (1920, 1080)) by by vm_compute.
  rewrite Hc in Hw. destruct Hw as (Hwide & Hhigh & _). exact Hc.
Defined.

(** ** Viability, modes and bootstrap *)

Lemma risk_score_bounded_monotone_witness : risk_score (Some 45) false policy_measured = 15.
Proof.
  destruct (risk_score_bounded_monotone policy_measured 45 50 false ltac:(num) ltac:(num)
              ltac:(num) ltac:(num)) as (_ & _ & _ & _ & _ & _ & Hs).
  rewrite Hs. done.
Defined.

Lemma warmup_budget_covers_transfer_witness :
  candidate_warmup_budget (mk_proposal P720 Up) (from_millis 2000) (from_millis 9000)
    (predicted_transfer 4000 (from_millis 2000) 6000 200) (from_millis 300) = from_millis 9000.
Proof.
  destruct (warmup_budget_covers_transfer P720 4000 (from_millis 2000) 6000 200 (from_millis 9000)
              (from_millis 300) ltac:(num) ltac:(num) ltac:(num) ltac:(num) ltac:(num)
              ltac:(num) ltac:(num)) as [Hup _].
  exact Hup.
Defined.

Definition history : TransitionHistory := mk_history 1 (Some 60000).
Definition plain : SourceFeatures := mk_features false false.
Definition recovery : OriginalRecovery :=
  mk_recovery 8000 policy_measured capacity_default plain history 0 0 Probe_Fresh None cat.
Definition at_720 : HlsCandidate := point P720 4000 450.
Definition production : ProductionEstimate := mk_production 450 100 4 450.
Definition wealthy : CapacityEstimate := mk_capacity 20000 20000 100 8.
Definition full : BufferEstimate := mk_buffer 40000 100 100 5 0.
Definition film_ms : Z := 3600000.
Definition weak_probe : CapacityObservation := mk_observation 6000 3000000 4000000 true.
Definition strong_probe : CapacityObservation := mk_observation 16000 3000000 4000000 true.
Definition comparison : ModeInputs :=
  recovery_inputs recovery (mk_capacity 16000 16000 0 1) production full wealthy film_ms.

Lemma choose_mode_stable_witness :
  chosen_mode comparison at_720 at_720 policy_measured = Mode_Original
  /\ chosen_mode (comparison <| mi_current := Mode_Original |>) at_720 at_720 policy_measured
     = Mode_Original.
Proof.
  assert (Hm : chosen_mode comparison at_720 at_720 policy_measured = Mode_Original)
    by by vm_compute.
  destruct (choose_mode_stable comparison at_720 at_720) as [Hs _].
  - split; [split; [num|intros s [= <-]; num]|num].
  - num.
  - rewrite Hm in Hs. exact (conj Hm Hs).
Defined.

Lemma source_probe_plan_conserves_witness :
  exists p, source_probe_plan 8000 4000 = Some p /\ target_bytes p = 1000000.
Proof.
  destruct (source_probe_plan_conserves 8000 4000 ltac:(num) ltac:(num))
    as (p & Hp & _ & _ & Hbytes & _).
  exists p. split; [exact Hp|]. by rewrite Hbytes by num.
Defined.

Lemma probe_permit_is_funded_witness :
  probe_due_with_rollback recovery at_720 true production deep (Some 2000) (Some 3000) full wealthy
    film_ms = inl (mk_plan 1000000 1000)
  /\ draining full = false.
Proof.
  assert (Hp : probe_due_with_rollback recovery at_720 true production deep (Some 2000) (Some 3000)
                 full wealthy film_ms = inl (mk_plan 1000000 1000)) by by vm_compute.
  destruct (probe_permit_is_funded recovery at_720 true production deep (Some 2000) (Some 3000) full
              wealthy film_ms (mk_plan 1000000 1000) eq_refl ltac:(num)) as (_ & _ & Hd & _).
  - intros d [= <-]. num.
  - intros r [= <-]. num.
  - exact Hp.
  - exact (conj Hp Hd).
Defined.

Definition told_off : OriginalRecovery :=
  (observe_probe recovery weak_probe at_720 production full wealthy film_ms).2.

(** The refused probe, asked for again on the very same evidence. *)
Lemma source_probe_never_repeats_witness :
  or_source_probe_state told_off = AwaitHlsAbove 20000
  /\ ~ exists plan, probe_due_with_rollback told_off at_720 true production deep (Some 2000)
       (Some 3000) full wealthy film_ms = inl plan.
Proof.
  split; [by vm_compute|]. intros [plan Hdue].
  destruct (source_probe_never_repeats recovery weak_probe at_720 production full wealthy film_ms
              Insufficient told_off ltac:(num) ltac:(by vm_compute)) as (_ & _ & _ & _ & Hnext & _).
  destruct (Hnext _ _ _ _ _ _ _ _ _ _ Hdue) as (_ & Hfast & _). vm_compute in Hfast. discriminate.
Defined.

Definition playing_source : OriginalModeController :=
  mk_original 8000 policy_measured cat (mk_capacity 5000 5000 200 5)
    (mk_buffer 6000 (-900) (-900) 4 3) history plain 0 0 0 false 0.

Lemma playing_source_wf : original_wf playing_source.
Proof. split; [split; num|split; num|split; [num|intros s [= <-]; num]|num|num]. Qed.

Lemma fallback_is_justified_witness :
  exists o s', original_observe playing_source 500000 1000000 (Some 3000) film_ms 1000 = (Some o, s')
    /\ oo_fallback o = Some ImminentStarvation /\ filling (om_buffer s') = false.
Proof.
  destruct (original_observe playing_source 500000 1000000 (Some 3000) film_ms 1000) as [[o|] s'] eqn:E;
    [|by vm_compute in E].
  assert (Ho : oo_fallback o = Some ImminentStarvation) by (vm_compute in E; by simplify_eq).
  exists o, s'. split; [done|]. split; [exact Ho|].
  assert (Hb : forall b, Some 3000 = Some b -> 0 <= b <= RESERVE_BOUND_MS) by (intros b [= <-]; num).
  destruct (fallback_is_justified playing_source 500000 1000000 (Some 3000) film_ms 1000 o s'
              ImminentStarvation playing_source_wf ltac:(num) ltac:(num) ltac:(num) ltac:(num) Hb
              ltac:(num) E Ho) as (_ & _ & Hf & _).
  exact Hf.
Defined.

Lemma bootstrap_claims_only_evidence_witness :
  bd_original (bootstrap Remote true 8000 (Some strong_probe) cat policy_measured) = true
  /\ bd_original (bootstrap Remote true 8000 (Some weak_probe) cat policy_measured) = false.
Proof.
  assert (Hwf : forall q : CapacityObservation, q = weak_probe \/ q = strong_probe ->
            observation_wf q) by (intros q [->| ->]; split; num).
  destruct (bootstrap_claims_only_evidence Remote true 8000 (Some strong_probe) cat policy_measured)
    as (_ & Hyes & _); [by vm_compute|intros p [= <-]; apply Hwf; auto|num|].
  split.
  - apply Hyes. split; [done|]. right. split; [done|]. exists strong_probe. repeat split; num.
  - by vm_compute.
Defined.

Lemma reentry_never_steps_back_witness :
  rung_le P720 (hls_reentry_rung (Some P720) (Some wealthy) cat policy_measured) = true.
Proof.
  destruct (reentry_never_steps_back (Some P720) (Some wealthy) cat policy_measured cat_wf)
    as (_ & Hcur & _); [by vm_compute|].
  apply Hcur; [done|]. exists at_720. split; [|done].
  apply (bool_decide_unpack _). by vm_compute.
Defined.

(** ** The foreground session: attempts are numbered, the app is a log of what was asked *)

Definition attempt_session : ForegroundLifecycle Z :=
  (Lifecycle.step (mk_lifecycle Idle 0) (Park 90000000000 false)).1.1.

Lemma attempt_session_reachable : reachable attempt_session.
Proof.
  exact (reachable_step IDLE (Park 90000000000 false) attempt_session [] Yes reachable_idle eq_refl).
Qed.

Lemma park_retires_claims_witness :
  Lifecycle.step
    (Lifecycle.step (Lifecycle.step attempt_session (Park 95000000000 true)).1.1 (Input PlayKey)).1.1
    (PrepareAnswered 1 Answer_Prepared)
  = ((Lifecycle.step (Lifecycle.step attempt_session (Park 95000000000 true)).1.1 (Input PlayKey)).1.1,
     [], No).
Proof.
  destruct (park_retires_claims attempt_session 95000000000 true PlayKey 1 Answer_Prepared
              LS_Failed true attempt_session_reachable eq_refl) as [Hp _].
  exact Hp.
Defined.

(** An app that prepares at once, launches attempt 7 and accepts every clock. *)
#[local] Instance steady_app : ForegroundActuator nat Z := {
  prepare_resume _ w := (Start_Settled Outcome_Prepared, S w);
  land_prepare w := (Lifecycle.Waiting, w);
  land_recovery w := (Landed (LS_Launched 7), w);
  before_load _ _ w := S w;
  start_load w := (LS_Launched 7, S w);
  actuator_load_status _ w := (St_Started, w);
  after_load _ _ _ w := S w;
  play_clock w := (true, S w);
  accept_server_stop w := (false, w);
  note_resume_attempt w := S w;
  suspend_playback w := w
}.

Lemma drivers_settle_witness :
  quiet attempt_session
  /\ exists lc w act, quiet lc
     /\ drive_foreground true attempt_session 0%nat PlayKey = Some (lc, w, act).
Proof.
  assert (Hq : quiet attempt_session) by (intros id claim H; vm_compute in H; discriminate).
  split; [exact Hq|].
  destruct (drivers_settle attempt_session 0%nat PlayKey Hq) as [(lc & w & act & Hlc & Hd) _].
  exists lc, w, act. split; [exact Hlc|apply Hd].
Defined.

Lemma step_consumes_addressed_only_witness :
  addressed_to (mk_lifecycle (LoadPending 3 7 0 Playing) 3) (LoadStatus 7 St_Started).
Proof.
  eapply (step_consumes_addressed_only (mk_lifecycle (LoadPending 3 7 0 Playing) 3)
            (LoadStatus 7 St_Started)).
  by vm_compute.
Defined.

Lemma restore_round_trip_witness :
  (Lifecycle.step (Lifecycle.step attempt_session (Input DidForeground)).1.1
     (PrepareAnswered 1 Answer_Refused)).1.1 = attempt_session.
Proof.
  destruct (restore_round_trip attempt_session 1 90000000000 Playing DidForeground eq_refl
              (or_introl eq_refl)) as [Hr _].
  exact Hr.
Defined.

Lemma exit_is_final_witness :
  Lifecycle.step (mk_lifecycle Idle 3) (LoadStatus 7 St_Started)
  = (mk_lifecycle (@Idle Z) 3, [], No).
Proof.
  destruct (exit_is_final (mk_lifecycle (LoadPending 3 7 0 Playing) 3) (mk_lifecycle Idle 3)
              [Fx_Retire 3 Playing] Yes (LoadStatus 7 St_Started) eq_refl eq_refl)
    as (_ & _ & _ & Hs).
  exact Hs.
Defined.

Lemma play_clock_needs_started_witness :
  state (Lifecycle.step (mk_lifecycle (LoadPending 3 7 0 Playing) 3) (LoadStatus 7 St_Started)).1.1
  = Claimed 3 Claim_PlayClock.
Proof.
  destruct (play_clock_needs_started (mk_lifecycle (LoadPending 3 7 0 Playing) 3)
              (LoadStatus 7 St_Started) (mk_lifecycle (Claimed 3 Claim_PlayClock) 3)
              [Fx_AfterLoad (Some 7) Playing true; Fx_PlayClock 3] Yes 3 ltac:(by vm_compute)) as [Hs _].
  - right. left.
  - exact Hs.
Defined.

Lemma play_intent_survives_park_witness :
  exists id, state (Lifecycle.step (mk_lifecycle (@ClockPending Z 3) 3) (Park 5 true)).1.1
             = Suspended id 5 Playing.
Proof. exact (play_intent_survives_park (mk_lifecycle (@ClockPending Z 3) 3) 5 true eq_refl). Defined.

(** ** The access-unit queue: a lane of 100 bytes, 50 of headroom, units of at most 60 *)

Definition unit_of (len pts : Z) : AuNode := mk_node pts len 0 0 None.
Definition plain_push (len pts : Z) : Event := EvPush (mk_push (unit_of len pts) false None) true.

(** Two units fill the lane; the third push parks. *)
Definition filling_up : list Event := [plain_push 60 0; plain_push 60 1000; plain_push 30 2000].
Definition parked : Sys := default (sys_new 100) (run (sys_new 100) filling_up).

Lemma filling_up_ok : Forall (event_ok 50 60) filling_up.
Proof. repeat constructor; num. Qed.

Lemma parked_run : run (sys_new 100) filling_up = Some parked.
Proof. by vm_compute. Qed.

Lemma lane_is_fifo_witness : aq_queued_bytes (sy_queue parked) = 120.
Proof.
  destruct (lane_is_fifo 100 50 60 filling_up parked ltac:(num) ltac:(num) ltac:(num) ltac:(num)
              filling_up_ok parked_run) as (_ & Hb & _ & _).
  rewrite Hb. by vm_compute.
Defined.

Lemma no_lost_wakeup_witness : aq_would_park (sy_queue parked) = true.
Proof.
  destruct (no_lost_wakeup 100 50 60 filling_up parked ltac:(num) ltac:(num) ltac:(num) ltac:(num)
              filling_up_ok parked_run (mk_push (unit_of 30 2000) false None) false false
              ltac:(by vm_compute)) as [Hp _].
  exact (Hp eq_refl).
Defined.

(** The third push is gated: it drains, and finds the other lane empty. *)
Definition gated : PushCall := mk_push (unit_of 30 2000) true (Some (mk_gate 500000000 10 true)).
Definition gated_events : list Event := [plain_push 60 0; plain_push 60 1000; EvPush gated true].
Definition draining_push : Sys := default (sys_new 100) (run (sys_new 100) gated_events).

Lemma only_starvation_overruns_the_cap_witness :
  sy_codes draining_push = [0; 0]
  /\ exists s', sys_step draining_push (EvDrained true (aq_new 100)) = Some s'
     /\ sy_codes s' = [0; 0] ++ [PUSH_CEILING] /\ sy_queue s' = sy_queue draining_push.
Proof.
  split; [by vm_compute|].
  destruct (sys_step draining_push (EvDrained true (aq_new 100))) as [s'|] eqn:E; [|by vm_compute in E].
  assert (Hcode : sy_codes s' = sy_codes draining_push ++ [PUSH_CEILING])
    by (vm_compute in E; injection E as <-; by vm_compute).
  exists s'. split; [done|]. split; [exact Hcode|].
  destruct (only_starvation_overruns_the_cap 100 50 60 gated_events draining_push ltac:(num)
              ltac:(num) ltac:(num) ltac:(num) ltac:(repeat constructor; num)
              ltac:(by vm_compute) _ s' PUSH_CEILING E I Hcode (or_introl eq_refl))
    as (c & g & keep & other & _ & _ & _ & _ & _ & _ & Hq).
  exact Hq.
Defined.

Lemma abort_is_final_witness :
  exists s1 s', sys_step parked EvAbort = Some s1 /\ run s1 [EvWake; plain_push 10 3000] = Some s'
    /\ sy_pushed s' = sy_pushed parked.
Proof.
  destruct (sys_step parked EvAbort) as [s1|] eqn:E1; [|by vm_compute in E1].
  assert (E2 : exists s', run s1 [EvWake; plain_push 10 3000] = Some s')
    by (vm_compute in E1; injection E1 as <-; eexists; by vm_compute).
  destruct E2 as [s' E2].
  exists s1, s'. split; [done|]. split; [done|].
  destruct (abort_is_final parked [EvWake; plain_push 10 3000] s1 s' (fun _ => tt) E1 E2) as [Hp _].
  exact Hp.
Defined.

(** The grant lets two more units in; released, the cap follows the consumer down. *)
Definition granted_events : list Event :=
  [plain_push 60 0; plain_push 60 1000; EvSetHeadroom 50; plain_push 20 2000].
Definition granted : Sys := default (sys_new 100) (run (sys_new 100) granted_events).

Lemma released_headroom_drains_witness :
  exists s', run granted [EvReleaseHeadroom; EvPop; EvPop; EvPop] = Some s'
    /\ aq_max_bytes (sy_queue s') = 100.
Proof.
  destruct (run granted [EvReleaseHeadroom; EvPop; EvPop; EvPop]) as [s'|] eqn:E;
    [|by vm_compute in E].
  exists s'. split; [done|].
  destruct (released_headroom_drains 100 50 60 granted_events granted ltac:(num) ltac:(num)
              ltac:(num) ltac:(num) ltac:(repeat constructor; num) ltac:(by vm_compute)
              [EvPop; EvPop; EvPop] s' ltac:(repeat constructor) ltac:(repeat constructor) E)
    as (_ & _ & _ & Hempty).
  destruct Hempty as [Hmax _]; [vm_compute in E; by injection E as <-|].
  exact Hmax.
Defined.

(** ** The network: a server at home, its trailers on a CDN *)

Definition pms : Origin := origin_new Http (lit "192.168.1.10") 32400.
Definition pms_v6 : Origin := origin_new Https (lit "[fd00::10]") 32400.
Definition part : Target := mk_target pms (lit "/library/parts/1/file.mp4?X-Plex-Token=tok").

(** A network that answers from a script, then with success. *)
Definition Script : Type := list OpenAnswer.
Definition scripted (_ : Dial) (w : Script) : OpenAnswer * Script :=
  match w with [] => (Ans_Ok, []) | a :: w => (a, w) end.
#[export] Instance Script_transport : Transport Script := scripted.

Definition found (location : string) : OpenAnswer := Ans_Err (Open_Status 302) (Some (lit location)).
Definition token_header : bytes := lit "X-Plex-Token: tok" ++ CRLF.

Definition media_request (confined : bool) : Request Script :=
  mk_request Script pms (target_path part) (Some token_header) (Some 500) confined (fun _ _ _ _ => true).
Definition to_the_cdn : Script := [found "http://cdn.example/v.mp4?sig=1"].
Definition on_the_cdn : Target :=
  mk_target (origin_new Http (lit "cdn.example") 80) (lit "/v.mp4?sig=1").

Lemma origin_round_trips_witness :
  base pms_v6 = lit "https://[fd00::10]:32400" /\ origin_parse (base pms_v6) = Some pms_v6.
Proof.
  split; [by vm_compute|].
  assert (Hwf : origin_wf pms_v6).
  { split; [by vm_compute|vm_compute; repeat constructor; done|vm_compute; repeat constructor; done|].
    vm_compute. by split. }
  destruct (origin_round_trips pms_v6 [] 443 Hwf (or_introl eq_refl)) as [Hp _]. exact Hp.
Defined.

Lemma redirect_target_is_requestable_witness :
  resolve_location part (lit "../2/trailer.mp4?sig=1")
  = Some (mk_target pms (lit "/library/parts/2/trailer.mp4?sig=1")).
Proof.
  assert (Hr : resolve_location part (lit "../2/trailer.mp4?sig=1")
               = Some (mk_target pms (lit "/library/parts/2/trailer.mp4?sig=1"))) by by vm_compute.
  assert (Hp : Forall requestable (target_path part)).
  { vm_compute. repeat constructor; done. }
  destruct (redirect_target_is_requestable part _ _ Hp Hr) as [_ Hq]. exact (Hq (lit "X-Plex-Token=tok")).
Defined.

(** First on to another path of the server, then to the CDN: the second request carries the token
    of the path again and the credential block, the third the range and nothing else. *)
Definition by_way_of_home : Script := found "/library/parts/2/file.mp4?x=1" :: to_the_cdn.
Definition at_home : Dial :=
  mk_dial pms (lit "/library/parts/2/file.mp4?x=1&X-Plex-Token=tok")
    (token_header ++ lit "Range: bytes=500-" ++ CRLF).
Definition at_the_cdn : Dial :=
  mk_dial (target_origin on_the_cdn) (target_path on_the_cdn) (lit "Range: bytes=500-" ++ CRLF).

Lemma credentials_stay_home_witness :
  exists first, open_following (media_request false) by_way_of_home
    = Some (inl (Opened_Socket on_the_cdn), [first; (to_the_cdn, at_home); ([], at_the_cdn)], [])
  /\ dial_extra first.2 = token_header ++ lit "Range: bytes=500-" ++ CRLF
  /\ dial_ok (media_request false) ([], at_the_cdn)
  /\ redirects (media_request false) (Some (lit "X-Plex-Token=tok")) first (asked at_home) to_the_cdn
  /\ redirects (media_request false) (Some (lit "X-Plex-Token=tok")) (to_the_cdn, at_home) on_the_cdn [].
Proof.
  set (first := (by_way_of_home,
    mk_dial pms (target_path part) (token_header ++ lit "Range: bytes=500-" ++ CRLF))).
  exists first.
  assert (Hf : open_following (media_request false) by_way_of_home
    = Some (inl (Opened_Socket on_the_cdn), [first; (to_the_cdn, at_home); ([], at_the_cdn)], [])) by by vm_compute.
  split; [exact Hf|]. split; [done|].
  destruct (credentials_stay_home _ _ _ _ _ Hf) as (Hd & token & Htoken & Hchain & _).
  assert (token = Some (lit "X-Plex-Token=tok")) as ->.
  { destruct token as [tok|]; [|apply Forall_cons in Htoken as [Hno _]; destruct Hno; vm_compute; split; [repeat constructor|done]].
    destruct Htoken as [Hin%list_elem_of_singleton _]. by subst tok. }
  rewrite !Forall_cons in Hd. split; [apply Hd|].
  split; [exact (Hchain [first] _ _ eq_refl)|exact (Hchain [first; (to_the_cdn, at_home)] _ _ eq_refl)].
Defined.

(** A server that redirects to itself for ever. *)
Definition circular : Script := replicate 9 (found "/again").

Lemma following_ends_witness :
  exists ds w', open_following (media_request true) circular = Some (inr TooManyHops, ds, w')
    /\ List.length ds = 6%nat.
Proof.
  assert (Ha : Forall (fun b => b < 128) (rq_path (media_request true))).
  { vm_compute. repeat constructor; done. }
  destruct (following_ends (media_request true) circular Ha) as (r & ds & w' & Hf & _ & Hmany & _).
  assert (Hr : fst <$> (fst <$> open_following (media_request true) circular)
               = Some (inr TooManyHops)) by by vm_compute.
  rewrite Hf in Hr. cbn in Hr. injection Hr as ->. exists ds, w'. split; [exact Hf|]. by apply Hmany.
Defined.

Definition trailer : bytes := lit "HTTPS://pms.example/trailer".
Definition secure_hop : Target :=
  mk_target (origin_new Https (lit "cdn.example") 443) (lit "/v.mp4").

Lemma tls_is_never_left_witness :
  hop_chain trailer [secure_hop] /\ origin_is_tls (target_origin secure_hop) = true
  /\ next_hop trailer trailer 302 (lit "http://cdn.example/v.mp4") 0
     = inr (OpenErr_Transport CURLE_UNSUPPORTED_PROTOCOL).
Proof.
  assert (Ho : str_ok trailer) by (vm_compute; intuition done).
  assert (Hc : hop_chain trailer [secure_hop]).
  { apply (chain_hop trailer [] 302 (lit "https://cdn.example/v.mp4") secure_hop).
    - constructor.
    - vm_compute. intuition done.
    - by vm_compute. }
  split; [exact Hc|]. split; [|by vm_compute].
  destruct (tls_is_never_left trailer [secure_hop] Ho Hc) as (_ & Hall & _).
  assert (Hs : spells (lit "https://") trailer = true) by by vm_compute.
  specialize (Hall Hs). rewrite Forall_cons in Hall. by destruct Hall.
Defined.
