(* ===== verification/FeedWitnesses.v ===== *)
(** * Concrete inputs of the feed's theorems

    Each theorem with hypotheses applied at an input where they hold: the HLS clock, the transport,
    the playlists and their use. *)

From Stdlib Require Import String.
From stdpp Require Import gmap.
From S2P Require Import Prelude Bytes Origin Redirect HlsClock ClockTraces Transport HlsUri HlsPlaylist HlsTracker.

#[local] Open Scope Z_scope.

(** ** Histories of the clock *)

(** The state after an operation that answers. *)
Definition after {A} (r : option (A * HlsClock)) : HlsClock :=
  match r with Some (_, s) => s | None => clock_new end.

(** [run_clock]: the steps of a concrete history, each evaluated. *)
Ltac clock_op := once (econstructor; vm_compute; reflexivity).
Ltac not_in := rewrite ?elem_of_cons, ?elem_of_nil; intuition discriminate.
Ltac run_clock := repeat (eapply steps_cons; [clock_op|]); apply steps_nil.

Definition pause_asked : HlsClock := Eval vm_compute in after (prepare_hls_user_pause clock_new).
Definition paused : HlsClock := Eval vm_compute in after (complete_hls_user_pause 1 true pause_asked).

(** A pause laid on the hold of the starvation controller: the rebuffer is ready to play again, and
    its Play is not reserved. *)
Definition rebuffer_asked : HlsClock := Eval vm_compute in after (prepare_hls_rebuffer_pause clock_new).
Definition rebuffering : HlsClock :=
  Eval vm_compute in snd (complete_hls_rebuffer_pause 1 true rebuffer_asked).
Definition paused_on_rebuffer : HlsClock :=
  Eval vm_compute in after (prepare_hls_user_pause rebuffering).

Lemma viewer_pause_stands_witness :
  let later := [EvRequest true; EvReservePlay Prime_Rebuffer 0 epoch_begin None] in
  clock_steps paused_on_rebuffer later (paused_on_rebuffer <| hc_rebuffer_requested := true |>)
  /\ Forall (fun e => reserves_play e = false) later.
Proof.
  intros later.
  assert (Hs : clock_steps paused_on_rebuffer later
                 (paused_on_rebuffer <| hc_rebuffer_requested := true |>)).
  { eapply steps_cons; [apply St_request|]. eapply steps_cons; [clock_op|]. apply steps_nil. }
  split; [exact Hs|].
  assert (Hb : clock_history (([] ++ [EvPrepareRebuffer (Some 1)])
                 ++ [EvCompleteRebuffer 1 true Pause_Accepted]) rebuffering).
  { apply (history_step _ rebuffer_asked); [|clock_op].
    apply (history_step [] clock_new); [apply history_new|clock_op]. }
  apply (viewer_pause_stands _ rebuffering (EvPrepareUserPause (Some UserPause_AlreadyHeld))
           paused_on_rebuffer later (paused_on_rebuffer <| hc_rebuffer_requested := true |>) Hb);
    [clock_op|reflexivity|reflexivity|exact Hs|repeat constructor].
Defined.

Definition resume_primed : HlsClock := Eval vm_compute in after (prepare_hls_user_resume true paused).
Definition prime_reserved : HlsClock :=
  Eval vm_compute in after (reserve_hls_prime_play Prime_Resume 0 epoch_idle resume_primed).
Definition prime_played : HlsClock := Eval vm_compute in after (complete_hls_prime_play 2 true prime_reserved).

Lemma deferred_resume_reaches_the_sink_witness :
  clock_step prime_reserved (EvCompletePlay 2 true (Play_Accepted true)) prime_played /\ true = true.
Proof.
  assert (Hs : clock_step prime_reserved (EvCompletePlay 2 true (Play_Accepted true)) prime_played) by clock_op.
  split; [exact Hs|].
  apply (deferred_resume_reaches_the_sink paused true Resume_Prime resume_primed
           [EvReservePlay Prime_Resume 0 epoch_idle (Some (2, epoch_idle))] prime_reserved 2 true true prime_played);
    [clock_op|right; reflexivity|run_clock|repeat constructor|exact Hs].
Defined.

Lemma tokens_settle_once_witness :
  NoDup (omap settled
    [EvPrepareUserPause (Some (UserPause_Issue 1)); EvCompleteUserPause 1 true Pause_Accepted]).
Proof.
  assert (Hh : clock_history ([EvPrepareUserPause (Some (UserPause_Issue 1))]
                 ++ [EvCompleteUserPause 1 true Pause_Accepted]) paused).
  { apply (history_step _ pause_asked); [|clock_op].
    apply (history_step [] clock_new); [apply history_new|clock_op]. }
  apply (tokens_settle_once _ _ Hh).
Defined.

Definition leased : HlsClock := Eval vm_compute in after (begin_hls_automatic_transition_at QualityDown 0 clock_new).
Definition lease_committed : HlsClock :=
  Eval vm_compute in (authorize_hls_automatic_transition_commit 1 leased).2.

Lemma commit_on_the_planned_boundary_witness :
  hc_user_sequence leased = hc_user_sequence clock_new /\ hc_user_held leased = false.
Proof.
  destruct (commit_on_the_planned_boundary clock_new (EvBeginAutomatic QualityDown 0 (Some 1)) leased 1 []
              leased (EvAuthorize 1 true) lease_committed)
    as (_ & _ & Hu); [exact clock_new_ok|clock_op|reflexivity|reflexivity|apply steps_nil|clock_op|reflexivity|].
  split; [reflexivity|exact Hu].
Defined.

Definition publishing : HlsClock := Eval vm_compute in after (begin_hls_candidate_transition None clock_new).

Lemma publication_fences_the_clock_witness :
  hc_candidate publishing = 1 /\ fenced 1 = true
  /\ Forall (fun e => starts e = false /\ publishes e = false) [EvBeginAutomatic QualityUp 0 None].
Proof.
  apply (publication_fences_the_clock clock_new None 1 publishing [EvBeginAutomatic QualityUp 0 None] publishing);
    [exact clock_new_ok|clock_op|run_clock|not_in|not_in].
Defined.

Definition initially_held : HlsClock := Eval vm_compute in (arm_initial_clock_hold false false clock_new).2.
Definition first_play : HlsClock :=
  Eval vm_compute in after (reserve_hls_prime_play Prime_Fresh 0 epoch_idle initially_held).

Lemma prime_plays_on_its_snapshot_witness :
  hc_automatic initially_held = None /\ hc_phase first_play = PlayIssuing 1 Initial false.
Proof.
  assert (Hok : clock_ok initially_held).
  { apply (clock_ok_step clock_new (EvArmInitial false false true)); [exact clock_new_ok|clock_op]. }
  destruct (prime_plays_on_its_snapshot initially_held [EvObserve 5 7000] initially_held Prime_Fresh
              epoch_idle 1 epoch_idle first_play)
    as (_ & Ha & _); [exact Hok|run_clock|clock_op|].
  split; [exact Ha|reflexivity].
Defined.

Definition starving : HlsClock := Eval vm_compute in after (prepare_hls_rebuffer_pause clock_new).
Definition starved : HlsClock := Eval vm_compute in observe_hls_recovery 2000000 6000000000 starving.

(** Two seconds to fetch six: ready at two seconds of reserve, not before. *)
Lemma hold_ends_on_a_replay_witness :
  epoch_ready (hc_recovery starved) 2000000000 = true
  /\ epoch_ready (hc_recovery starved) 1999999000 = false.
Proof.
  assert (Hs : clock_steps starving [EvObserve 2000000 6000000000] starved) by run_clock.
  split; [|vm_compute; reflexivity].
  apply (hold_ends_on_a_replay clock_new 1 starving [EvObserve 2000000 6000000000] starved 2000000000);
    [clock_op|exact Hs|repeat constructor| |vm_compute; discriminate|].
  { cbn. apply Forall_cons; split; [cbn; lia|apply Forall_nil; exact I]. }
  split; [discriminate|]. split; [vm_compute; discriminate|vm_compute; reflexivity].
Defined.

Lemma waiting_publication_is_woken_witness :
  begin_hls_candidate_transition None first_play = None
  /\ exists t, phase_token (hc_phase first_play) = Some t.
Proof.
  split; [vm_compute; reflexivity|].
  destruct (waiting_publication_is_woken None first_play) as [_ (t & Ht & _)]; [vm_compute; reflexivity|].
  exists t. exact Ht.
Defined.

(** ** The transport *)

(** Ten seconds paused in two halves between two samples, and three of a third. *)
Definition beats : list (Z * Beat) :=
  [(100, Commit true); (104, Commit false); (105, Commit true); (111, Commit false); (120, Sample);
   (130, Commit true); (133, Commit false)].

Lemma pauses_are_discounted_once_witness :
  exists w, watch_run (beats ++ [(140, Sample)])
              (mk_watch transport_new (cursor_new (pause_state_sample 90 transport_new)) 0) = Some w
            /\ wa_consumed w = 13.
Proof.
  destruct (watch_run (beats ++ [(140, Sample)])
              (mk_watch transport_new (cursor_new (pause_state_sample 90 transport_new)) 0)) as [w|] eqn:E;
    [|vm_compute in E; discriminate].
  exists w. split; [reflexivity|].
  destruct (pauses_are_discounted_once transport_new 90 beats 140 w) as [_ Hw];
    [split; [cbn; lia|cbn; unfold duration_max, u64_max; lia]|cbn; lia|exact E|].
  rewrite Hw; [reflexivity|]. vm_compute in E. injection E as <-. reflexivity.
Defined.

(** ** Playlists *)

Definition pms : Origin := mk_origin Http (lit "10.0.0.2") 32400.
Definition master_url : Resource :=
  mk_resource pms (lit "/video/transcode/start.m3u8?offset=0&X-Plex-Token=abc").
Definition media_url : Resource := mk_resource pms (lit "/video/transcode/session/base/index.m3u8").

Definition resource_of (o : Answer Resource) : Resource :=
  match o with Ok r => r | _ => media_url end.
Definition child : Resource := Eval vm_compute in resource_of (resolve media_url (lit "../seg%20/00001.ts")).

Lemma playlist_uris_stay_on_origin_witness :
  res_path child = lit "/video/transcode/session/seg%20/00001.ts"
  /\ resolve media_url (base pms ++ res_path child) = Ok child.
Proof.
  split; [vm_compute; reflexivity|].
  apply (playlist_uris_stay_on_origin media_url (lit "../seg%20/00001.ts"));
    [vm_compute; reflexivity| |].
  - split; [vm_compute; discriminate| | |]; cbn; [| |lia];
      repeat (apply Forall_cons; split; [vm_compute; discriminate|]); apply Forall_nil; exact I.
  - apply (validate_uri_text_Ok _ tt). vm_compute. reflexivity.
Defined.

Definition credential : InheritedAuth := mk_auth (lit "X-Plex-Token=abc").

Lemma normal_path p : normalize_absolute_path p = Ok p -> path_ok p.
Proof. apply normalize_absolute_path_Ok. Qed.

Lemma credential_round_trips_witness :
  request_path credential child = Ok (res_path child ++ lit "?X-Plex-Token=abc")
  /\ from_request_path pms (res_path child ++ lit "?X-Plex-Token=abc") = Ok child.
Proof.
  split; [vm_compute; reflexivity|].
  apply (credential_round_trips master_url credential child (res_path child ++ lit "?X-Plex-Token=abc"));
    [apply normal_path; vm_compute; reflexivity|apply normal_path; vm_compute; reflexivity
    |vm_compute; reflexivity|vm_compute; reflexivity|vm_compute; reflexivity].
Defined.

Definition text_of (lines : list string) : bytes := join LF (lit <$> lines).

Definition media_text : bytes :=
  text_of ["#EXTM3U"; "#EXT-X-VERSION:3"; "#EXT-X-TARGETDURATION:6"; "#EXT-X-MEDIA-SEQUENCE:7";
           "#EXTINF:6.006,"; "00007.ts"; "#EXTINF:5.5,"; "00008.ts"; "#EXT-X-ENDLIST"; ""]%string.

Definition media_of (o : Answer MediaPlaylist) : MediaPlaylist :=
  match o with Ok p => p | _ => mk_media media_url None 0 None 0 None [] false end.
Definition media : MediaPlaylist := Eval vm_compute in media_of (parse_media media_url media_text).

Lemma media_parses : parse_media media_url media_text = Ok media.
Proof. vm_compute. reflexivity. Qed.

Lemma accepted_media_is_well_formed_witness :
  List.length (mp_segments media) = 2%nat
  /\ forall i s, mp_segments media !! i = Some s -> segment_ok media_url 7 i s.
Proof.
  split; [reflexivity|].
  destruct (accepted_media_is_well_formed media_url media_text) as [_ Hok].
  destruct (Hok media media_parses) as (_ & _ & _ & _ & _ & _ & Hs). exact Hs.
Defined.

Definition keyed_text : bytes :=
  text_of ["#EXTM3U"; "#EXT-X-TARGETDURATION:6"; "#EXT-X-MEDIA-SEQUENCE:0"; "#EXT-X-KEY:METHOD=AES-128";
           "#EXTINF:6,"; "0.ts"]%string.

Lemma unknown_tags_are_refused_witness :
  (exists e, parse_media media_url keyed_text = Err e)
  /\ forbidden_feature (lit "#EXT-X-KEY:METHOD=AES-128") = Some "encrypted segments"%string.
Proof.
  split; [|vm_compute; reflexivity].
  apply (unknown_tags_are_refused media_url keyed_text (lit "#EXT-X-KEY:METHOD=AES-128"));
    [decided|vm_compute; reflexivity|decided].
Defined.

(** ** Refreshes *)

Lemma numbered_two n a b : sg_sequence a = n -> sg_sequence b = n + 1 -> numbered n [a; b].
Proof.
  intros Ha Hb [|[|i]] s Hs; cbn in Hs; [injection Hs as <-; lia|injection Hs as <-; lia|discriminate].
Qed.

Lemma media_playlist_ok : playlist_ok media.
Proof. split; [cbn; lia|apply numbered_two; reflexivity|vm_compute; discriminate]. Qed.

Lemma tracker_refines_the_log_witness :
  exists t', tracker_apply media tracker_new = (Ok (mk_refresh (mp_segments media) true), t')
             /\ exists l, represents t' (Some l) /\ lg_segments l = mp_segments media.
Proof.
  destruct (tracker_refines_the_log tracker_new None media media_playlist_ok eq_refl) as [Hok _].
  destruct Hok as (t' & Ha & Hr).
  - split; cbn; [reflexivity|unfold log_next; cbn; lia|intros i s _ Hi; unfold log_next in Hi; cbn in Hi; lia
                |discriminate|unfold log_next; cbn; lia].
  - exists t'. split; [exact Ha|]. eexists. split; [exact Hr|reflexivity].
Defined.

Lemma segments_are_delivered_once_witness :
  (track [media; media] tracker_new).1 = mp_segments media
  /\ exists first, numbered first (track [media; media] tracker_new).1.
Proof.
  split; [vm_compute; reflexivity|].
  apply (segments_are_delivered_once [media; media]).
  apply Forall_cons; split; [exact media_playlist_ok|].
  apply Forall_cons; split; [exact media_playlist_ok|]. apply Forall_nil. exact I.
Defined.

Lemma content_timeline_is_exact_witness :
  lay 0 [6006000000; 5500000000] = Ok ([0; 6006000000], 11506000000)
  /\ exists c, timeline_begin 6006000000 5500000000 = Ok c
     /\ omap (fun pt => (fun _ => pt.2) <$> video_of pt.1)
          (normalize_packets [Audio 90; Video 1000000; Audio 100; Video 41000000] c) = [6006; 6046].
Proof.
  assert (Hl : lay 0 [6006000000; 5500000000] = Ok ([0; 6006000000], 11506000000)) by (vm_compute; reflexivity).
  split; [exact Hl|].
  exists (mk_segment_clock 6006000000 11506000000 None None). split; [vm_compute; reflexivity|].
  destruct (content_timeline_is_exact 0 [6006000000; 5500000000] [0; 6006000000] 11506000000
              6006000000 5500000000 (mk_segment_clock 6006000000 11506000000 None None)
              [Audio 90; Video 1000000; Audio 100; Video 41000000])
    as (_ & _ & Hv & _); [exact Hl|unfold is_i64, i64_min, i64_max; lia|vm_compute; reflexivity|].
  rewrite Hv. vm_compute. reflexivity.
Defined.

Definition resumed : MediaPlaylist :=
  mk_media media_url None 6 (Some (-5500000)) 7 None (mp_segments media) false.

Lemma start_index_holds_the_asked_time_witness : exists i, preferred_start_index resumed = Ok i /\ i = 1%nat.
Proof.
  destruct (start_index_holds_the_asked_time resumed) as [_ Hs].
  - repeat (apply Forall_cons; split; [reflexivity|]). apply Forall_nil. exact I.
  - destruct (Hs (-5500000) eq_refl) as [_ Hi]; [unfold is_i64, i64_min, i64_max; lia|].
    destruct Hi as (i & Hi & _); [vm_compute; discriminate|].
    exists i. split; [exact Hi|]. vm_compute in Hi. injection Hi as <-. reflexivity.
Defined.
