(* ===== verification/StorageWitnesses.v ===== *)
(** * Concrete inputs of the storage theorems

    A document that signs in, signs out and prepares a refresh, over a small concrete codec. *)

From Stdlib Require Import String.
From S2P Require Import Prelude Bytes Digest StorageState StorageHistory.

#[local] Open Scope Z_scope.

(** A number is its text. *)
#[local] Instance numbers : JsonNumber := { Number := bytes; number_text := fun text => text }.

Inductive Install := Stable | Debug.
#[local] Instance Install_eq_dec : EqDecision Install.
Proof. solve_decision. Defined.
#[local] Instance installs : Identities :=
  { Flavor := Install;
    object_id := fun f => match f with Stable => lit "plxstate.stable" | Debug => lit "plxstate.debug" end }.

(** The codec writes what distinguishes the states and requests used here. *)
#[local] Instance codec : StateCodec := {
  state_value := fun s => Some (pp_preferences (cs_public s));
  state_text := fun s => Some (cs_id s ++ show (cs_revision s));
  state_of_text := fun _ => None;
  request_value := fun id e m => Some (VObject [(lit "id", VString id); (lit "epoch", VNumber (show (ex_epoch e)))]);
  value_text := fun v =>
    match v with
    | VObject [(_, VNumber epoch); (_, VString id)] => Some (epoch ++ id)
    | _ => None
    end
}.

Definition generation (b : Z) : Generation := repeat b 16.
Definition sign_in : PublicPayload :=
  public_default <| pp_preferences := VObject [(lit "language", VString (lit "fr")); (lit "track_memory", VNull)] |>
                 <| pp_client_id := Some (lit "tv") |>.

Definition blank : CanonicalState := state_new Stable (generation 0).
Definition no_operation : Operation := mk_operation [] [] (mk_expected 0 []) (ClearTenure []).
Definition operation (id : Z) (s : CanonicalState) (m : Mutation) : Operation :=
  match operation_new (generation id) (expected_of s) m with Ok o => o | _ => no_operation end.
Definition next_state (s : CanonicalState) (o : Operation) : CanonicalState :=
  match apply s o with Ok (n, _) => n | _ => s end.

Definition enter : Operation :=
  Eval vm_compute in operation 101 blank (ReplaceAuth (generation 1) (lit "sealed") sign_in).
Definition signed_in : CanonicalState := Eval vm_compute in next_state blank enter.
Definition leave : Operation := Eval vm_compute in operation 102 signed_in (ClearTenure (generation 2)).
Definition left : CanonicalState := Eval vm_compute in next_state signed_in leave.
Definition late : Operation :=
  Eval vm_compute in operation 103 signed_in (UpdateConsent (VBool true) VNull VNull).
Definition agree : Operation := late.
Definition agreed : CanonicalState := Eval vm_compute in next_state signed_in agree.

Lemma transitions_keep_the_document_valid_witness :
  validate signed_in = Ok tt /\ cs_revision signed_in = 1.
Proof.
  destruct (transitions_keep_the_document_valid blank enter signed_in (mk_applied 1 0 (generation 1)))
    as [Hv _]; [vm_compute; reflexivity|].
  split; [exact Hv|vm_compute; reflexivity].
Defined.

(** The sign-in is answered again after the sign-out that undid it. *)
Lemma replay_returns_the_receipt_witness :
  cs_status left = Cleared /\ apply left enter = Ok (left, mk_applied 1 0 (generation 1)).
Proof.
  split; [vm_compute; reflexivity|].
  apply (replay_returns_the_receipt blank enter signed_in (mk_applied 1 0 (generation 1)) [leave] left);
    [vm_compute; reflexivity|vm_compute; reflexivity| |cbn; lia].
  apply (runs_cons signed_in leave left (mk_applied 2 1 (generation 2))); [vm_compute; reflexivity|apply runs_nil].
Defined.

Lemma old_writes_conflict_after_a_clear_witness :
  apply_verified_digest signed_in late <> Err Conflict /\ apply_verified_digest left late = Err Conflict.
Proof.
  split; [vm_compute; discriminate|].
  destruct (old_writes_conflict_after_a_clear signed_in leave (generation 2) left
              (mk_applied 2 1 (generation 2)) [] left late) as [Hc _];
    [vm_compute; reflexivity|vm_compute; reflexivity|vm_compute; reflexivity|apply runs_nil
    |vm_compute; discriminate|vm_compute; reflexivity|].
  apply Hc. vm_compute. reflexivity.
Defined.

Lemma sign_out_forgets_the_account_witness :
  cs_status left = Cleared
  /\ pp_preferences (cs_public left) = VObject [(lit "language", VString (lit "fr"))].
Proof.
  destruct (sign_out_forgets_the_account signed_in leave (generation 2) left
              (mk_applied 2 1 (generation 2)) [] left) as [[Hs _] _];
    [vm_compute; reflexivity|vm_compute; reflexivity|vm_compute; reflexivity|apply runs_nil|apply Forall_nil; exact I|].
  split; [exact Hs|vm_compute; reflexivity].
Defined.

Lemma consent_and_session_are_independent_witness :
  pp_consent (cs_public agreed) = VBool true /\ session_part agreed = session_part signed_in.
Proof.
  split; [vm_compute; reflexivity|].
  apply (consent_and_session_are_independent signed_in agree agreed (mk_applied 2 0 (generation 1)));
    vm_compute; reflexivity.
Defined.

(** A refresh prepared with another credential. *)
Definition refresh : Operation :=
  Eval vm_compute in operation 104 signed_in (ReplaceAuth (generation 3) (lit "resealed") sign_in).
Definition prepared : CanonicalState :=
  signed_in <| cs_pending_auth := Some (mk_pending refresh (digest_bytes [])) |>.

Lemma prepared_refresh_is_the_transition_witness :
  validate prepared = Ok tt
  /\ exists c r, pending_candidate prepared = Ok (Some (c, r)) /\ cs_auth_envelope c = Some (lit "resealed").
Proof.
  assert (Hv : validate prepared = Ok tt) by (vm_compute; reflexivity).
  split; [exact Hv|].
  destruct (prepared_refresh_is_the_transition prepared (mk_pending refresh (digest_bytes [])) Hv eq_refl)
    as (c0 & c & r & g & envelope & public & e & Hm & _ & Hc & _ & _ & _ & _ & He & _).
  exists c, r. split; [exact Hc|]. rewrite He. vm_compute in Hm. injection Hm as _ <- _. reflexivity.
Defined.


Lemma key_name_round_trips_witness :
  key_name (generation 255) = lit "a._____________________w"
  /\ read_key_name (key_name (generation 255)) = Some (generation 255).
Proof.
  split; [vm_compute; reflexivity|].
  apply (key_name_round_trips (generation 255)); [reflexivity|].
  unfold generation. apply Forall_forall. intros b Hb. apply list_elem_of_In, repeat_spec in Hb. lia.
Defined.
