(* ===== verification/MachineWitnesses.v ===== *)
(** * Concrete inputs of the theorems on the mailbox and the native gate *)

From stdpp Require Import gmap.
From S2P Require Import Prelude Landing LandingTraces NativeGate.

#[local] Open Scope Z_scope.

(** ** A mailbox with one data slot: a stream that overflows, a one-shot that is cancelled *)

Definition login : Addr := mk_addr Machine_Session 7.
Definition detail : Addr := mk_addr (Machine_Store 2) 8.

Definition login_events : list (Event (K := Z) (V := Z)) :=
  [EvAdmit login true; EvAdmit detail false; EvProgress login 1 10; EvPut detail 2 20;
   EvProgress login 1 11; EvTake (fun _ => true) (fun _ => true)].

Lemma landing_refines_one_queue_witness :
  let l := play landing_step login_events (with_limits 1 2 2) in
  delivered l.1 = [mk_landed 1 login (Lane_Data 1 10) false; mk_landed 2 detail (Lane_Dropped 8) true;
                   mk_landed 3 login (Lane_Dropped 7) true]
  /\ in_order (delivered l.1).
Proof.
  intros l. split; [vm_compute; reflexivity|].
  apply (landing_refines_one_queue 1 2 2 login_events); try lia; vm_compute; congruence.
Defined.

Lemma one_end_per_operation_witness :
  let r := play landing_step (firstn 3 login_events) (with_limits 1 2 2) in
  (admissions login (firstn 3 login_events) r.1 = 1)%nat
  /\ la_inflight (take_for (fun _ => true) (fun _ => true) (guard_drop login r.2)).2 !! login = None.
Proof.
  intros r. split; [vm_compute; reflexivity|].
  apply (one_end_per_operation 1 2 2 (firstn 3 login_events) login) with (reservation := Reserved_Running false true);
    try lia; try reflexivity; vm_compute; reflexivity.
Defined.

Lemma cancelled_operation_is_silent_witness :
  let l := (play landing_step (firstn 3 login_events) (with_limits 1 2 2)).2 in
  (cancel login l).1 = true
  /\ of_operation login
       (delivered (play landing_step [EvProgress login 1 12; EvPut detail 2 20;
                                      EvTake (fun _ => true) (fun _ => true)] (cancel login l).2).1) = [].
Proof.
  intros l. split; [vm_compute; reflexivity|].
  apply (cancelled_operation_is_silent 1 2 2 (firstn 3 login_events) login (cancel login l).2);
    try lia; try (vm_compute; congruence).
  repeat constructor; intros stream; discriminate.
Defined.

Lemma storage_is_bounded_and_losses_counted_witness :
  let r := play landing_step login_events (with_limits 1 2 2) in
  dropped_count r.2 = 2
  /\ dropped_count r.2
     = u32_wrap (Z.of_nat (overflows r.1) + la_seq r.2 - Z.of_nat (List.length (delivered r.1))
                 - Z.of_nat (len r.2)).
Proof.
  intros r. split; [vm_compute; reflexivity|].
  apply (storage_is_bounded_and_losses_counted 1 2 2 login_events); try lia; vm_compute; congruence.
Defined.

(** ** A seek whose first probe is rejected *)

Definition playing : list GateEvent := [EvBegin 100; EvLoadReturned 1 None 200; EvCallback 1 Class_Presentation 40].
Definition flushing : list GateEvent :=
  [EvCallback 1 Class_Presentation 41; EvProbe 1; EvCallback 1 Class_Presentation 42; EvReject 1].
Definition anchoring : list GateEvent := [EvCallback 1 Class_Other 0; EvCallback 1 Class_Presentation 900].

Definition at_seek : NativeSession :=
  Eval vm_compute in (begin_native_media_discontinuity 1 (gate_run playing native_new).2).2.
Definition at_probe : NativeSession :=
  Eval vm_compute in (begin_native_presentation_probe 1 (gate_run flushing at_seek).2).2.
Definition anchored : NativeSession :=
  Eval vm_compute in (commit_native_presentation_probe 1 (gate_run anchoring at_probe).2).2.

Lemma seek_fences_presentations_witness :
  commit_native_presentation_probe 1 (gate_run anchoring at_probe).2 = (Some (Some 900), anchored)
  /\ Some 900 = last (omap (presentation 1) anchoring).
Proof.
  split; [reflexivity|].
  apply (seek_fences_presentations playing 1 at_seek flushing at_probe anchoring (Some 900) anchored);
    try reflexivity; vm_compute; repeat constructor.
Defined.

Definition released : NativeSession :=
  Eval vm_compute in (begin_native_release 1 (gate_run playing native_new).2).2.

Lemma release_keeps_the_object_witness :
  native_unload_completed 1
    (gate_run [EvReset; EvBegin 300; EvCallback 1 Class_UnloadCompleted 0] released).2 = true.
Proof.
  apply (release_keeps_the_object playing 1 [EvReset; EvBegin 300; EvCallback 1 Class_UnloadCompleted 0]
           ltac:(repeat constructor; discriminate)).
  reflexivity.
Defined.

Lemma callbacks_write_their_own_session_witness :
  (EvCallback 2 Class_Other 5, Gate_Ran (Some Scope_Live))
    ∈ (gate_run [EvReset; EvCallback 1 Class_Other 5; EvBegin 300; EvCallback 2 Class_Other 5]
         (gate_run playing native_new).2).1
  /\ Forall (fun old => old < 2) (omap begun (gate_run playing native_new).1).
Proof.
  assert (H : (EvCallback 2 Class_Other 5, Gate_Ran (Some Scope_Live))
    ∈ (gate_run [EvReset; EvCallback 1 Class_Other 5; EvBegin 300; EvCallback 2 Class_Other 5]
         (gate_run playing native_new).2).1)
    by (vm_compute; do 3 right; left).
  split; [exact H|].
  apply (callbacks_write_their_own_session playing
           [EvCallback 1 Class_Other 5; EvBegin 300; EvCallback 2 Class_Other 5]) with (1 := H).
  reflexivity.
Defined.
