(* ===== verification/PlayerWitnesses.v ===== *)
(** * A play that the pipeline refuses, concretely

    The theorems of [CapsClaims] and [RecoveryTraces] at one set and one request: a table with a 4K
    HEVC decoder, a DTS row and duplicate rows; a DTS film that is refused, converted and then
    shown. *)

From Stdlib Require Import String SpecFloat.
From stdpp Require Import gmap.
From S2P Require Import Prelude Bytes Devcaps CapsClaims Recovery RecoveryTraces.

#[local] Open Scope Z_scope.

(** ** One television *)

Definition hz60 : spec_float := S754_finite false 60 0.
Definition hz5994 : spec_float := S754_finite false 3836 (-6).

Definition tv_table : Table :=
  mk_table
    [mk_video_row (lit "H.264") 4096 2304 hz60; mk_video_row (lit "H.265") 4096 2304 hz60;
     mk_video_row (lit "HEVC") 4096 2176 hz5994; mk_video_row (lit "VP9") 3840 2160 hz60]
    [mk_audio_row (lit "AAC") 6; mk_audio_row (lit "E-AC3") 8; mk_audio_row (lit "AC3") 6;
     mk_audio_row (lit "DTS") 6; mk_audio_row (lit "DTS") 8].

(** The same rows, read in another order. *)
Definition tv_table' : Table := mk_table (reverse (tb_video_codecs tv_table)) (reverse (tb_audio_codecs tv_table)).

Definition tv_caps : Caps := default assumed (parse_table tv_table).

Example tv_caps_answers :
  (raster_bound tv_caps (lit "hevc"), raster_bound tv_caps (lit "vp9"), dc_hevc_row tv_caps, dc_audio tv_caps)
  = ((4096, 2176), (3840, 2160), (4096, 2176, 60), lit "aac,ac3,eac3,dts,opus,flac,alac,pcm")
  /\ map (fun n => audio_supports tv_caps (lit "dca") n) [0; 2; 6; 8] = [false; true; true; false]
  /\ map (fun n => audio_supports tv_caps (lit "opus") n) [0; 2; 6] = [true; true; false].
Proof. vm_compute. done. Qed.

Lemma tv_table_ok : table_ok tv_table.
Proof.
  split; cbn; repeat (apply Forall_cons; split; [unfold video_row_ok; cbn; ints|]); apply Forall_nil; done.
Qed.

Lemma tv_parsed : parse_table tv_table = Some tv_caps.
Proof. vm_compute. done. Qed.

Lemma tv_caps_ok : caps_ok tv_caps.
Proof. exact (parse_table_ok _ _ tv_table_ok tv_parsed). Qed.

Lemma table_is_never_overclaimed_witness :
  fst (raster_bound tv_caps (lit "hevc")) <= 4096 /\ 6 <= 6 /\ dc_hevc tv_caps = true
  /\ audio_supports tv_caps (lit "flac") 6 = false.
Proof.
  destruct (table_is_never_overclaimed tv_table tv_caps tv_table_ok tv_parsed) as (Hshared & _ & (Hhevc & _) & _ & Haudio & Hpcm).
  split; [|split; [|split]].
  - apply (Hshared (mk_video_row (lit "HEVC") 4096 2176 (S754_finite false 3836 (-6)))).
    + right. right. left.
    + right. vm_compute. reflexivity.
    + vm_compute. reflexivity.
  - apply (Haudio (lit "dca") 6 (mk_audio_row (lit "DTS") 6)); try (vm_compute; reflexivity).
    do 3 right. left.
  - apply Hhevc. exists (mk_video_row (lit "H.265") 4096 2304 hz60). split; [right; left|vm_compute; reflexivity].
  - destruct (audio_supports tv_caps (lit "flac") 6) eqn:E; [|reflexivity].
    apply Hpcm in E; [|vm_compute; reflexivity]. destruct E as [_ E]. vm_compute in E. congruence.
Defined.

Lemma table_order_is_irrelevant_witness :
  tb_video_codecs tv_table <> tb_video_codecs tv_table' /\ parse_table tv_table = parse_table tv_table'.
Proof.
  split; [vm_compute; congruence|].
  apply (table_order_is_irrelevant tv_table tv_table'); cbn [tv_table' tb_video_codecs tb_audio_codecs];
    symmetry; apply reverse_Permutation.
Defined.

Lemma narrowing_takes_away_witness :
  narrows tv_caps (without tv_caps (Facet_Video (lit "HEVC") 3840 2160))
  /\ raster_bound (without tv_caps (Facet_Video (lit "HEVC") 3840 2160)) (lit "hevc") = (1920, 1088).
Proof.
  split; [|vm_compute; reflexivity].
  destruct (narrowing_takes_away tv_caps tv_caps_ok) as (_ & _ & _ & H & _). apply H.
Defined.

(** The set refused a 5.1 DTS track on this build, and a stereo E-AC-3 one on an older build. *)
Definition tv_boot : Boot := boot_new tv_caps (lit "goldilocks2-gomera") (lit "4.10.2") false false false.
Definition tv_refusals : list Refusal :=
  [mk_refusal (lit "dca") 6 (lit "4.10.2"); mk_refusal (lit "eac3") 2 (lit "4.9.0")].

Lemma refusals_hold_from_the_next_start_witness :
  audio_supports (start_caps (Some tv_boot) tv_refusals) (lit "dts") 6 = false
  /\ audio_supports (start_caps (Some tv_boot) tv_refusals) (lit "dts") 2 = true
  /\ audio_supports (start_caps (Some tv_boot) tv_refusals) (lit "eac3") 6 = true.
Proof.
  split; [|vm_compute; done].
  assert (Hne : Forall (fun r => audio_codec_id (rf_codec r) <> []) tv_refusals)
    by (repeat (apply Forall_cons; split; [vm_compute; congruence|]); apply Forall_nil; done).
  destruct (refusals_hold_from_the_next_start tv_boot tv_refusals tv_caps_ok Hne) as (_ & H & _).
  apply (H eq_refl eq_refl (mk_refusal (lit "dca") 6 (lit "4.10.2"))).
  - left.
  - vm_compute. reflexivity.
  - vm_compute. reflexivity.
  - right. lia.
Defined.

(** ** One request *)

Definition dts_facts : OpenFacts :=
  mk_facts false false true None false true (Some (mk_stream_audio (lit "dca") 6 false))
    (Some (mk_stream_video (lit "hevc") 1920 1080)).

Definition rescued_play : list RecoveryEvent :=
  [LoadStarted; Refused (Refused_num 601) dts_facts;
   FlightLanded (Some (mk_lanes Lane_Copy Lane_Transcode)); LoadStarted; FirstPicture].

Definition dts6 : Facet := Facet_Audio (lit "dts") 6.

Example rescued_play_effects :
  (run (recovery_new tv_caps) rescued_play).2
  = [ConvertFacet dts6 1; ConfirmRefusal dts6 Proof_;
     ReportRecovered (mk_recovered Rung_Facet (Refused_num 601) (Some dts6))].
Proof. vm_compute. reflexivity. Qed.

Lemma every_failure_is_answered_witness :
  exists m' fx, step (recovery_new tv_caps) (Refused TimedOut dts_facts) = Some (m', named_refusal dts_facts ++ fx)
    /\ answer (recovery_new tv_caps) TimedOut dts_facts m' fx.
Proof. apply (proj1 (every_failure_is_answered (recovery_new tv_caps))). reflexivity. Defined.

Definition forced_facts : OpenFacts :=
  mk_facts false false true None true true (Some (mk_stream_audio (lit "dca") 6 false)) None.

Lemma forced_play_is_never_converted_witness :
  Forall (keeps_the_file tv_caps)
    (run (recovery_new tv_caps) [Refused Stalled forced_facts; LoadStarted; Refused Stalled forced_facts]).2
  /\ (run (recovery_new tv_caps) [Refused Stalled forced_facts; LoadStarted; Refused Stalled forced_facts]).2
     = [ShowError Stalled; ShowError Stalled].
Proof.
  split; [|vm_compute; reflexivity].
  apply forced_play_is_never_converted. repeat (apply Forall_cons; split; [cbn; done|]). apply Forall_nil. done.
Defined.

Lemma attempt_never_claims_more_witness :
  native_audio_track (or_attempt (run (recovery_new tv_caps) rescued_play).1) (lit "dca") 6 48000 false = false
  /\ native_audio_track tv_caps (lit "dca") 6 48000 false = true.
Proof.
  split; [|vm_compute; reflexivity].
  destruct (attempt_never_claims_more tv_caps rescued_play tv_caps_ok) as (_ & _ & H).
  apply (H (lit "dts") 6); [vm_compute; reflexivity|vm_compute; reflexivity|vm_compute; congruence|right; lia].
Defined.

Lemma a_proof_is_a_clean_rescue_witness :
  exists before lanes since after,
    rescued_play = before ++ FlightLanded (Some lanes) :: since ++ FirstPicture :: after
    /\ ln_audio lanes = Lane_Transcode.
Proof.
  destruct (a_proof_is_a_clean_rescue tv_caps rescued_play dts6) as (b & l & s & a & E & _ & H & _).
  - vm_compute. right. left.
  - exists b, l, s, a. split; [exact E|exact H].
Defined.

(** A forced stereo play whose refused audio the app then decodes, and after it a refusal of another
    track: the flight comes after an app decode of the same request, and its landing is a proof. *)
Definition forced_stereo : OpenFacts :=
  mk_facts false false true None true true (Some (mk_stream_audio (lit "dca") 2 false)) None.

Example a_flight_after_an_app_decode_proves :
  (run (recovery_new tv_caps)
     [LoadStarted; Refused (Refused_num 601) forced_stereo; LoadStarted; Refused (Refused_num 601) dts_facts;
      FlightLanded (Some (mk_lanes Lane_Copy Lane_Transcode)); LoadStarted; FirstPicture]).2
  = [DecodeInApp (Facet_Audio (lit "dts") 2) (Refused_num 601); ConvertFacet dts6 1; ConfirmRefusal dts6 Proof_;
     ReportRecovered (mk_recovered Rung_Facet (Refused_num 601) (Some (Facet_Audio (lit "dts") 2)))].
Proof. vm_compute. reflexivity. Qed.

Lemma rescue_report_names_the_first_refusal_witness :
  first_reportable tv_caps rescued_play (Refused_num 601) (Some dts6).
Proof.
  apply (rescue_report_names_the_first_refusal tv_caps rescued_play
           (mk_recovered Rung_Facet (Refused_num 601) (Some dts6))).
  vm_compute. right. right. left.
Defined.
