(* ===== verification/KeyWitnesses.v ===== *)
(** * A certificate and a verifier, concretely

    The theorems of [Hashing] and [Pins] at one small certificate, its PEM text broken over two
    lines, and two stored digests. *)

From Stdlib Require Import String.
From S2P Require Import Prelude Bytes Digest Hashing Pins.

#[local] Open Scope Z_scope.

Lemma ct_eq_is_equality_witness :
  ct_eq [1; 2; 255] [1; 2; 255] = true /\ ct_eq [1; 2; 255] [1; 2; 254] = false.
Proof.
  split.
  - apply ct_eq_is_equality; [repeat constructor; vm_compute; congruence..|reflexivity].
  - destruct (ct_eq _ _) eqn:E; [|reflexivity].
    apply ct_eq_is_equality in E; [discriminate|repeat constructor; vm_compute; congruence..].
Defined.

Lemma base64_round_trips_witness : decode (encode (lit "fooba")) = Some (lit "fooba").
Proof. apply base64_round_trips. repeat constructor; vm_compute; congruence. Defined.

(** A version, a serial number, four empty fields and a key of three bytes; two more bytes after
    the signed part, and one after the certificate. *)
Definition small_key : bytes := [0x30; 3; 7; 8; 9].
Definition small_version : bytes := [0xA0; 3; 2; 1; 2].
Definition small_body : bytes :=
  small_version ++ [2; 1; 5] ++ concat (repeat [0x30; 0] 4) ++ small_key ++ [].
Definition small_tbs : bytes := [0x30; 0x81; 21] ++ small_body.
Definition small_cert : bytes := [0x30; 26] ++ small_tbs ++ [5; 0].
Definition small_der : bytes := small_cert ++ [255].

Ltac an_element n := split; [done|exists n; split; [constructor; cbn; lia|reflexivity]].

Lemma small_certificate : certificate_front small_key small_der.
Proof.
  apply (certificate_of small_key small_cert small_tbs small_body small_version [2; 1; 5]
           (repeat [0x30; 0] 4) [] [5; 0] [255] [5] [7; 8; 9]).
  - an_element [26].
  - split; [done|]. exists [0x81; 21]. split; [|reflexivity]. apply (length_long [21]). cbn. lia.
  - reflexivity.
  - right. exists [2; 1; 2]. an_element [3].
  - an_element [1].
  - reflexivity.
  - repeat constructor; exists []; an_element [0].
  - an_element [3].
Qed.

Lemma small_der_bytes : Forall is_u8 small_der.
Proof. repeat constructor; vm_compute; congruence. Qed.

Lemma spki_reader_is_the_grammar_witness : spki_of_certificate small_der = Some small_key.
Proof.
  apply spki_reader_is_the_grammar; [exact small_der_bytes|vm_compute; congruence|exact small_certificate].
Defined.

Definition small_lines : bytes :=
  CR :: LF :: take 20 (encode small_der) ++ CR :: LF :: drop 20 (encode small_der) ++ [LF].

(** What comes before the block: a comment with dashes, and a block of another kind. *)
Definition before_lines : bytes :=
  lit "--- Cert ---" ++ LF :: lit "-----BEGIN RSA KEY-----" ++ LF :: lit "-----END RSA KEY-----" ++ [LF].

Lemma unmentioned p s : split_once_str p s = None -> ~ mentions p s.
Proof.
  intros Hs (l & r & ->). revert Hs. induction l as [|b l IH]; cbn [app].
  - destruct p as [|x p]; [by destruct r|]. cbn [split_once_str app].
    by rewrite (strip_prefix_app (x :: p) r : strip_prefix _ (x :: p ++ r) = _).
  - cbn [split_once_str]. destruct (strip_prefix _ _); [done|]. destruct (split_once_str _ _) as [[? ?]|]; [done|]. auto.
Qed.

