(* ===== verification/ViewWitnesses.v ===== *)
(** * Concrete inputs of the theorems on watch state *)

From Stdlib Require Import String.
From stdpp Require Import gmap.
From S2P Require Import Prelude Bytes Landing ViewLedger ViewState ViewReconcile ViewTraces ViewProgress.

#[local] Open Scope Z_scope.

(** ** The ledger *)

Definition show_s : ViewAt := mk_at 1 (lit "10") Scope_Show.
Definition episode_e : ViewAt := mk_at 1 (lit "11") Scope_Leaf.
Definition episode_row : PmsMovie := mk_movie 1 (lit "11") 3 60000 (lit "10") 2 false false None None None.
Definition movie_row : PmsMovie := mk_movie 1 (lit "20") 0 0 [] 0 true false None None None.

Lemma a_press_outlives_the_reads_it_overtook_witness :
  let '(seq, pressed) := record (ledger_run ledger_new [Op_record episode_e (Edit_Watched false)]) show_s (Edit_Watched true) in
  let pending := ledger_run pressed [Op_record episode_e (Edit_Watched true)] in
  let later := ledger_run (landed pending seq) [Op_retire 3] in
  seq = 2 /\ stamp (landed pending seq) = 4
  /\ patch later 3 [episode_row; movie_row] = [set_watched episode_row true; movie_row]
  /\ (forall st, st <= stamp pending -> (show_s, Edit_Watched true) ∈ since later st).
Proof.
  split; [reflexivity|]. split; [reflexivity|]. split; [vm_compute; reflexivity|].
  apply (a_press_outlives_the_reads_it_overtook [Op_record episode_e (Edit_Watched false)]
    [Op_record episode_e (Edit_Watched true)] [Op_retire 3] show_s (Edit_Watched true)).
  - vm_compute. discriminate.
  - repeat constructor. cbn. intros [H _]. discriminate.
  - repeat constructor. vm_compute. discriminate.
Defined.


(** ** Histories *)

Definition counter_holds_b (w : WatchStores) : bool :=
  le_seq (ws_ledger w) + Z.of_nat (copies_waiting w) + 1 <=? u64_max.

Fixpoint play_watch (w : WatchStores) (jobs : list ViewJob) (evs : list Event) : option (WatchStores * list ViewJob) :=
  match evs with
  | [] => Some (w, jobs)
  | ev :: evs =>
      if counter_holds_b w then
        match step w ev with
        | Some (w, out) => play_watch w (jobs ++ out_jobs out) evs
        | None => None
        end
      else None
  end.

Lemma play_watch_from evs : forall past w jobs w' jobs',
  history past w jobs -> play_watch w jobs evs = Some (w', jobs') -> history (past ++ evs) w' jobs'.
Proof.
  induction evs as [|ev evs IH]; intros past w jobs w' jobs' Hh; cbn [play_watch].
  - intros [= <- <-]. by rewrite app_nil_r.
  - destruct (counter_holds_b w) eqn:Ec; [|done]. destruct (step w ev) as [[w1 out]|] eqn:Es; [|done].
    intros Hp. change (ev :: evs) with ([ev] ++ evs). rewrite app_assoc.
    eapply IH; [|exact Hp]. eapply history_step; [exact Hh| |exact Es]. by apply Z.leb_le in Ec.
Qed.

Lemma play_watch_history evs w jobs : play_watch watch_default [] evs = Some (w, jobs) -> history evs w jobs.
Proof. by apply (play_watch_from evs []), history_start. Qed.

Definition played (evs : list Event) : WatchStores * list ViewJob :=
  default (watch_default, []) (play_watch watch_default [] evs).

Definition server_1 : ClientKeys := [(1, mk_client_key 7 8 9)].
Definition press_show : Event := Ev_run (Cmd_Request 1 (lit "10") Write_Watched Scope_Show (lit "plex://show/a")) server_1 4.
Definition press_movie : Event := Ev_run (Cmd_Request 1 (lit "20") Write_Watched Scope_Leaf []) server_1 4.
Definition frame : Event := Ev_pump true server_1 4.

(** The runner refuses the first write; a second press waits behind it; both leave after the wait. *)
Definition refused_history : list Event :=
  [press_show; Ev_take_jobs; Ev_answer 0 (view_write_addr 1) NotStarted; frame; press_movie]
  ++ List.repeat frame 120 ++ [Ev_take_jobs; Ev_answer 0 (view_write_addr 1) (Written (mk_done true [(2, lit "30")]));
                          frame; Ev_take_jobs].
Definition after_refusal : WatchStores * list ViewJob := Eval vm_compute in played refused_history.

Lemma refused_history_reached : history refused_history (fst after_refusal) (snd after_refusal).
Proof. apply play_watch_history. vm_compute. reflexivity. Qed.

Lemma writes_leave_in_press_order_witness :
  sent_id <$> snd after_refusal = [1; 1; 2]
  /\ StronglySorted (fun a b => sent_id a < sent_id b \/ (sent_id a = sent_id b /\ refused_in refused_history (sent_id a)))
       (snd after_refusal).
Proof.
  split; [reflexivity|]. apply (writes_leave_in_press_order refused_history (fst after_refusal)).
  apply refused_history_reached.
Defined.

(** A stream of the film ends; its read-back says it is watched now; the end goes to the copies on
    the other server. *)
Definition two_servers : ClientKeys := [(1, mk_client_key 7 8 9); (2, mk_client_key 1 2 3)].
Definition watched_movie : PmsMovie := set_watched movie_row true.
Definition ended_history : list Event :=
  [Ev_stops [mk_stop 1 (lit "20") 95 100 true false]; Ev_reconcile true two_servers 4 [1; 2];
   Ev_read_answer 0 (reconcile_addr 1) (Read (Some [mk_read_row watched_movie [] []]));
   Ev_reconcile true two_servers 4 [1; 2]; Ev_take_jobs].
Definition after_the_end : WatchStores * list ViewJob := Eval vm_compute in played ended_history.

Lemma a_write_goes_out_as_it_was_pressed_witness :
  exists j, snd after_the_end = [j] /\ wr_rk (vj_req j) = lit "20" /\ wr_origin_done (vj_req j) = true
    /\ exists past ev r keys adapter, (past ++ [ev]) `prefix_of` ended_history /\ sent_by past ev j
         /\ j = job_of r keys adapter
         /\ (exists before press, (before ++ [press]) `prefix_of` (past ++ [ev]) /\ press_of before r press)
         /\ sends ev keys (rq_profile r) /\ key_of keys (rq_sid r) = Some (wr_key (vj_req j)).
Proof.
  eexists. split; [reflexivity|]. do 2 (split; [reflexivity|]).
  apply (a_write_goes_out_as_it_was_pressed ended_history (fst after_the_end) (snd after_the_end)).
  - apply play_watch_history. vm_compute. reflexivity.
  - apply list_elem_of_In. left. reflexivity.
Defined.

(** A read of an episode and of a film is out; its show is marked watched; the answer arrives. *)
Definition overtaken_history : list Event :=
  [Ev_read_back false [(1, lit "11"); (1, lit "20")]; Ev_reconcile true server_1 4 [1]; press_show;
   Ev_read_answer 0 (reconcile_addr 1)
     (Read (Some [mk_read_row episode_row [] []; mk_read_row movie_row [] []]))].
Definition before_landing : WatchStores * list ViewJob := Eval vm_compute in played overtaken_history.

Lemma read_back_never_undoes_a_press_witness :
  exists w' out, step (fst before_landing) (Ev_reconcile true server_1 4 [1]) = Some (w', out)
    /\ Hubs_ApplyView (at_of (facts_change movie_row)) (edit_of (facts_change movie_row)) ∈ out_calls out
    /\ List.length (out_calls out) = 7%nat
    /\ (forall f, f ∈ vr_flights (ws_reconcile w') -> f ∉ vr_flights (ws_reconcile (fst before_landing)) ->
          is_busy (ws_state (fst before_landing)) = false /\ ws_network_held (fst before_landing) = false).
Proof.
  eexists _, _. split; [vm_compute; reflexivity|]. split; [apply list_elem_of_In; left; reflexivity|].
  split; [reflexivity|].
  apply (read_back_never_undoes_a_press overtaken_history (fst before_landing) (snd before_landing) true server_1 4 [1] _
           (mk_out [] (publish_view (facts_change movie_row)) [])).
  - apply play_watch_history. vm_compute. reflexivity.
  - vm_compute. reflexivity.
Defined.

(** ** Progress *)

Definition two_presses : WatchStores := Eval vm_compute in fst (played [press_show; press_movie]).

Lemma a_burst_ends_witness :
  exists w' log calls,
    answered_frames server_1 4 two_presses [mk_done true []; mk_done false []; mk_done true []; mk_done true []]
      = Some (w', log, calls)
    /\ pending (ws_state w') = [] /\ List.length log = 2%nat /\ refreshes calls = the_refresh.
Proof.
  destruct (a_burst_ends server_1 4 two_presses [mk_done true []; mk_done false []; mk_done true []; mk_done true []])
    as (w' & log & calls & Ha & Hp & Hlog & Hr); [vm_compute; reflexivity|].
  exists w', log, calls. split; [exact Ha|]. split; [exact Hp|]. split.
  - rewrite <- (length_fmap fst), Hlog. vm_compute. reflexivity.
  - assert (Hl : existsb owes_refresh log = true) by (vm_compute in Ha; injection Ha as _ <- _; reflexivity).
    rewrite Hl, orb_true_r in Hr. apply Hr.
Defined.

Definition reading : WatchStores := Eval vm_compute in fst (played (take 2 overtaken_history ++ [Ev_read_back false [(1, lit "20")]])).

Lemma an_owed_read_is_kept_witness :
  let '(s', _, _, _) := reconcile_pump_with_gate (ws_ledger reading) (ws_reconcile reading) true false server_1
    (read_refused 0 (reconcile_addr 1) (ws_read_adapters reading)) in
  vr_pending s' = [(1, lit "11"); (1, lit "20")] /\
  (owed s' (1, lit "20")
   \/ ((1, lit "20") ∉ vr_dirty (ws_reconcile reading) /\ true = true
       /\ answered (vr_flights (ws_reconcile reading))
            (default [] (rp_mail (read_refused 0 (reconcile_addr 1) (ws_read_adapters reading)) !! vr_adapter (ws_reconcile reading)))
            (1, lit "20"))
   \/ (false = true /\ key_of server_1 1 = None)).
Proof.
  pose proof (an_owed_read_is_kept (ws_ledger reading) (ws_reconcile reading) true false server_1
    (read_refused 0 (reconcile_addr 1) (ws_read_adapters reading)) (1, lit "20")) as H.
  destruct (reconcile_pump_with_gate _ _ _ _ _ _) as [[[s' p] c] a'] eqn:E. split.
  - vm_compute in E. injection E as <- _ _ _. reflexivity.
  - apply H. right. vm_compute. reflexivity.
Defined.
