(* ===== verification/GateWitnesses.v ===== *)
(** * Concrete inputs of the theorems on the landing gate *)

From Stdlib Require Import String.
From stdpp Require Import gmap.
From S2P Require Import Prelude Bytes LandGate LandGateTraces.

#[local] Open Scope Z_scope.

(** The mail that has arrived, by site; each piece of mail is its site's number. *)
Fixpoint take_mail (site : Z) (w : list Z) : option Z * list Z :=
  match w with
  | [] => (None, [])
  | m :: w => if m =? site then (Some m, w) else let '(got, w) := take_mail site w in (got, m :: w)
  end.
Definition take_mails (site : Z) (w : list Z) : list Z * list Z :=
  (List.filter (Z.eqb site) w, List.filter (fun m => negb (m =? site)) w).

Definition arrives (m : Z) : Turn (W := list Z) := Turn_world (fun w => w ++ [m]).

Abbreviation run_session := (session (fun w : list Z => w) take_mail take_mails).
Abbreviation run_recording := (record_session (fun w : list Z => w) take_mail take_mails).

(** Store 4 lands on frames 1 and 2, store 5 on frame 2. *)
Definition recorded_frames : list (Z * list (Turn (W := list Z))) :=
  [(0, [Turn_take 4 40; Turn_take_all 5 50]);
   (1, [arrives 40; Turn_take 4 40; Turn_take_all 5 50]);
   (2, [arrives 50; arrives 50; Turn_take 4 40; arrives 40; Turn_take 4 40; Turn_take_all 5 50])].

Definition recorded : list (Z * Z) * list (Z * gmap Z Z) :=
  Eval vm_compute in default ([], []) (run_recording (arm_recording (V := Z) gate_default) [] recorded_frames).

(** The first answer early, the second in time. *)
Definition prompt_turns : list (Turn (W := list Z)) :=
  [Turn_frame 0; arrives 40; arrives 50; Turn_take 4 40; Turn_take_all 5 50; Turn_frame 1; Turn_take 4 40; Turn_take_all 5 50;
   arrives 40; Turn_frame 2; Turn_take 4 40; Turn_take_all 5 50].

(** An answer that is slower than it was. *)
Definition late_turns : list (Turn (W := list Z)) :=
  [Turn_frame 1; Turn_take 4 40; Turn_frame 2; arrives 40; Turn_take 4 40; arrives 50; Turn_take_all 5 50; Turn_frame 3; arrives 50; Turn_take_all 5 50].

Definition replayed (ts : list (Turn (W := list Z))) : list (Z * Z) * Gate Z * list Z :=
  default ([], gate_default, []) (run_session (arm_sparse_replay gate_default (land_schedule (snd recorded))) [] ts).
Definition prompt_replay : list (Z * Z) * Gate Z * list Z := Eval vm_compute in replayed prompt_turns.
Definition late_replay : list (Z * Z) * Gate Z * list Z := Eval vm_compute in replayed late_turns.

Lemma a_replay_grades_every_landing_witness :
  fst (take_diffs (snd (fst late_replay))) = [(2, 4, Late); (3, 5, Extra)]
  /\ exists d, grade (expand <$> land_schedule (snd recorded)) (fst (fst late_replay))
               = Some (d, expand <$> fst (unmatched_counts (snd (fst late_replay))))
     /\ fst (take_diffs (snd (fst late_replay))) = List.firstn MAX_DIFFS d.
Proof.
  split; [reflexivity|].
  apply (a_replay_grades_every_landing (fun w => w) take_mail take_mails gate_default (land_schedule (snd recorded)) []
           late_turns (fst (fst late_replay)) (snd (fst late_replay)) (snd late_replay)).
  - apply (bool_decide_unpack _). vm_compute. reflexivity.
  - vm_compute. reflexivity.
Defined.

Lemma a_clean_replay_lands_as_recorded_witness :
  fst recorded = [(1, 4); (2, 4); (2, 5)] /\ frames_of 4 (fst (fst prompt_replay)) = [1; 2]
  /\ ((fst (take_diffs (snd (fst prompt_replay))) = []
       /\ (forall ord, default [] ((expand <$> fst (unmatched_counts (snd (fst prompt_replay)))) !! ord) = []))
      <-> forall ord, frames_of ord (fst (fst prompt_replay)) = frames_of ord (fst recorded)).
Proof.
  split; [reflexivity|]. split; [reflexivity|].
  apply (a_clean_replay_lands_as_recorded (fun w => w) take_mail take_mails recorded_frames gate_default [] (fst recorded)
           (snd recorded) gate_default [] prompt_turns (fst (fst prompt_replay)) (snd (fst prompt_replay)) (snd prompt_replay)).
  - repeat constructor; vm_compute; congruence.
  - vm_compute. reflexivity.
  - vm_compute. reflexivity.
Defined.

(** The answer arrives on the ninth iteration; it was held back on two virtual frames before. *)
Lemma the_landing_frame_is_the_requests_witness :
  exists g, arm_dump_paced (V := Z) gate_default 2 = Some g
    /\ dump_iterations 4 40 (lit "search") 7 (fun n => (8 <=? n)%nat) 11 g 30 0 = Some (30 + 2).
Proof.
  eexists. split; [reflexivity|].
  apply (the_landing_frame_is_the_requests 4 40 (lit "search") 7 (fun n => (8 <=? n)%nat) 30 2 8 11 gate_default); try lia.
  - intros n H%Nat.leb_le. apply Nat.leb_le. lia.
  - reflexivity.
  - vm_compute. discriminate.
  - reflexivity.
Defined.

Definition pacing_gate : Gate Z := mk_gate true (state_new (Mode_Dumping (Pace 0))).

(** Two answers are owed; they arrive one at a time. *)
Lemma a_batch_is_handed_out_whole_witness :
  exists outs g' w' log',
    batches (fun w : list Z => w) 5 50 (lit "metadata") (fun _ batch => (List.length batch <? 2)%nat) (take_mails 50)
      [(fun w => w ++ [50]); (fun w => w); (fun w => w ++ [50]); (fun w => w)] pacing_gate ([], [])
    = Some (outs, g', (w', log')) /\ outs = [[]; []; [50; 50]; []]
    /\ exists polled, log' = [] ++ polled /\ kept 5 50 pacing_gate ++ polled = List.concat outs ++ kept 5 50 g'
         /\ (last outs <> Some [] -> outs <> [] -> kept 5 50 g' = []).
Proof.
  do 4 eexists. split; [vm_compute; reflexivity|]. split; [reflexivity|].
  eapply (a_batch_is_handed_out_whole (fun w : list Z => w) 5 50 (lit "metadata")
    (fun _ batch => (List.length batch <? 2)%nat) (take_mails 50) 0
    [(fun w => w ++ [50]); (fun w => w); (fun w => w ++ [50]); (fun w => w)] pacing_gate [] []).
  - split; reflexivity.
  - vm_compute. reflexivity.
Defined.

(** A request of generation 2 supersedes one of generation 1, whose answer comes first. *)
Lemma a_stale_answer_frees_no_newer_claim_witness :
  let ops := [Fo_post (1, 10) (fun _ => true); Fo_take; Fo_refuse_for 1; Fo_post (2, 20) (fun _ => true); Fo_take] in
  let '(taken, t') := fetch_run fst (claim (claim IDLE 1) 2) ops in
  taken = [(2, 20)] /\ ((taken = [] /\ holds t' 2 = true) \/ exists mail later, taken = mail :: later /\ fst mail = 2).
Proof.
  intros ops. pose proof (a_stale_answer_frees_no_newer_claim (M := Z * Z) fst 2 ops (claim (claim IDLE 1) 2) eq_refl) as H.
  split; [reflexivity|]. apply H. repeat constructor; discriminate.
Defined.
