(* ===== verification/RouteWitnesses.v ===== *)
(** * Concrete inputs of the theorems on route control *)

From Stdlib Require Import String Sorting.Sorted.
From stdpp Require Import list.
From S2P Require Import Prelude Bytes Ladder RouteControl RouteStart RouteTrial RouteTraces.
From S2P Require Import RouteFlight RouteFlights BackendPolicy BackendEpisodes.

#[local] Open Scope Z_scope.

(** What the reducer only moves is a number. *)
#[local] Instance numbers : RouteData := mk_route_data Z Z Z Z Z.

(** A session on a fixed HLS rendition. *)
Definition on_hls : PlaybackSession :=
  mk_session (lit "/video/hls") (lit "hls-1")
    (mk_contract false (FixedHls 3) true (Some (ceiling P720)) (mk_enhancements false false))
    0 false (Some 7) (Some (mk_carried 2 0 (lit "aac") 2 true false 48000 16)) 5 true true 0 false
    (lit "h264") (lit "aac") 24 24 0 0 false None NewCandidate (Some 6) [] 0 None.

(** The same once the original was planned, with another subtitle. *)
Definition on_original : PlaybackSession :=
  on_hls <| ps_url := lit "/library/parts/9" |> <| ps_tsession := lit "direct" |> <| ps_cur_sub_sid := 8 |>.

(** ** Running a series *)

Fixpoint run (c : PlayerControl) (evs : list RouteEvent) : option PlayerControl :=
  match evs with
  | [] => Some c
  | ev :: evs => c ← route_step c ev; run c evs
  end.

Lemma run_steps evs : forall c c', run c evs = Some c' -> route_steps c evs c'.
Proof.
  induction evs as [|ev evs IH]; intros c c'; cbn; [intros [= ->]; constructor|].
  intros (c1 & Hs & Hr)%bind_Some. econstructor; [exact Hs|by apply IH].
Qed.

Definition reached (evs : list RouteEvent) : PlayerControl := default PLAYER_CONTROL (run PLAYER_CONTROL evs).

Fixpoint run_loads (c : PlayerControl) (minted accepted : list RouteStartAttempt) (evs : list RouteEvent) :
    option (PlayerControl * list RouteStartAttempt * list RouteStartAttempt) :=
  match evs with
  | [] => Some (c, minted, accepted)
  | ev :: evs => c' ← route_step c ev; run_loads c' (minted ++ minted_by c ev) (accepted ++ accepted_by c ev) evs
  end.

Lemma run_loads_history evs : forall before c minted accepted out,
  route_history before c minted accepted -> run_loads c minted accepted evs = Some out ->
  route_history (before ++ evs) (fst (fst out)) (snd (fst out)) (snd out).
Proof.
  induction evs as [|ev evs IH]; intros before c minted accepted out Hh; cbn; [intros [= <-]; by rewrite app_nil_r|].
  intros (c1 & Hs & Hr)%bind_Some. rewrite cons_middle, app_assoc. eapply IH; [|exact Hr].
  by econstructor.
Qed.

Fixpoint run_claims (c : PlayerControl) (last : option ClaimedRouteAction) (evs : list RouteEvent) :
    option (PlayerControl * option ClaimedRouteAction) :=
  match evs with
  | [] => Some (c, last)
  | ev :: evs => c' ← route_step c ev;
      run_claims c' (match claimed_by c ev with Some a => Some a | None => last end) evs
  end.

Lemma run_claims_history evs : forall before c last out,
  claim_history before c last -> run_claims c last evs = Some out ->
  claim_history (before ++ evs) (fst out) (snd out).
Proof.
  induction evs as [|ev evs IH]; intros before c last out Hh; cbn; [intros [= <-]; by rewrite app_nil_r|].
  intros (c1 & Hs & Hr)%bind_Some. rewrite cons_middle, app_assoc. eapply IH; [|exact Hr].
  by econstructor.
Qed.

(** ** The reducer *)

(** A worker of the first encoder, suspended; the route has another Engine when it comes back. *)
Definition playing : list RouteEvent := [Ev_install_encoder (lit "e1") None].
Definition suspended : list RouteEvent :=
  [Ev_note_seek 9000; Ev_teardown true; Ev_begin_start; Ev_prepare 1; Ev_attempt 1; Ev_settle (mk_attempt 1 1) Started].
Definition first_worker : WorkerTicket := Eval vm_compute in worker_ticket_of (reached playing).
Definition resumed : PlayerControl := Eval vm_compute in reached (playing ++ suspended).

Lemma a_revoked_worker_changes_nothing_witness :
  pc_phase resumed = Stable /\ encoder first_worker = lit "e1"
  /\ replace_active_encoder_for first_worker (lit "e2") resumed = (None, resumed)
  /\ publish_automatic_route_intent (HlsToOriginal first_worker 8000 0) resumed = (Intent_Stale, resumed).
Proof.
  split; [reflexivity|]. split; [reflexivity|].
  destruct (a_revoked_worker_changes_nothing playing (reached playing) suspended resumed) as (Hi & He & _).
  - apply run_steps. vm_compute. reflexivity.
  - apply run_steps. vm_compute. reflexivity.
  - eapply retired_later; [reflexivity|]. apply retired_now. reflexivity.
  - vm_compute. reflexivity.
  - split; [apply He|]. apply Hi. reflexivity.
Defined.

(** A start that fails, a second one, and the first one's result again. *)
Definition two_loads : list RouteEvent :=
  [Ev_begin_start; Ev_prepare 1; Ev_attempt 1; Ev_settle (mk_attempt 1 1) StartFailed; Ev_begin_start; Ev_attempt 2;
   Ev_settle (mk_attempt 1 1) Started].
Definition loads : PlayerControl * list RouteStartAttempt * list RouteStartAttempt :=
  Eval vm_compute in default (PLAYER_CONTROL, [], []) (run_loads PLAYER_CONTROL [] [] two_loads).

Lemma a_load_settles_once_witness :
  snd (fst loads) = [mk_attempt 1 1; mk_attempt 2 2] /\ snd loads = [mk_attempt 1 1] /\ NoDup (snd loads)
  /\ (mk_attempt 2 2 ∉ snd loads).
Proof.
  split; [reflexivity|]. split; [reflexivity|].
  destruct (a_load_settles_once two_loads (fst (fst loads)) (snd (fst loads)) (snd loads)) as (_ & _ & Hn & Hc).
  - apply (run_loads_history two_loads [] PLAYER_CONTROL [] []); [constructor|]. vm_compute. reflexivity.
  - split; [exact Hn|]. eapply (Hc _ Started). reflexivity.
Defined.

(** An Engine that failed is started again. *)
Definition restart : list RouteEvent :=
  [Ev_begin_start; Ev_attempt 2; Ev_settle (mk_attempt 1 1) Started; Ev_settle (mk_attempt 2 1) Started].

(** Its transaction is taken over by a recovery flight, which is refused. *)
Definition refused_recovery : list RouteEvent := [Ev_recovery_flight_start; Ev_reject 1].

Lemma a_route_opens_on_a_proven_load_witness :
  pc_phase (reached [Ev_fail]) = Failed 1 /\ pc_phase (reached (Ev_fail :: restart)) = Stable
  /\ opening (reached [Ev_fail]) restart (reached (Ev_fail :: restart))
  /\ pc_phase (reached (Ev_fail :: refused_recovery)) = Stable
  /\ opening (reached [Ev_fail]) refused_recovery (reached (Ev_fail :: refused_recovery)).
Proof.
  split; [reflexivity|]. split; [reflexivity|]. split; [|split; [reflexivity|]];
    apply a_route_opens_on_a_proven_load; first [reflexivity|apply run_steps; vm_compute; reflexivity].
Defined.

(** The recovery of the original, with its Load refused after a pick. *)
Definition hls_route : PlayerControl :=
  Eval vm_compute in reached [Ev_install_encoder (lit "hls-1") None; Ev_publish_projection on_hls].
Definition way_home : PendingOriginal := snapshot_route on_hls (lit "hls-1") 63.
Definition trial_fails : list RouteEvent :=
  [Ev_take_encoder; Ev_attempt 1; Ev_defer_quality Quality_P480; Ev_settle (mk_attempt 1 1) StartFailed].
Definition failed_trial : PlayerControl :=
  Eval vm_compute in default PLAYER_CONTROL (run (snd (set_pending_original on_original way_home false hls_route)) trial_fails).
Definition rolled_back : option Z * PlaybackSession * PlayerControl * list EncoderStop :=
  Eval vm_compute in rollback_original_recovery true on_original failed_trial.

Lemma a_rollback_restores_what_was_applied_witness :
  let '(off, s, c, _) := rolled_back in
  off = Some 63000000000 /\ ps_url s = lit "/video/hls" /\ ps_cur_sub_sid s = 8 /\ ae_id (pc_active c) = lit "hls-1"
  /\ pc_applied_projection c = pc_applied_projection hls_route /\ unproven c = true
  /\ ps_planned_feed_offer s = Some 6.
Proof.
  unfold rolled_back. split; [reflexivity|]. split; [reflexivity|]. split; [reflexivity|].
  destruct (a_rollback_restores_what_was_applied hls_route on_original way_home false trial_fails failed_trial true on_original
              63000000000 (snd (fst (fst rolled_back))) (snd (fst rolled_back)) (snd rolled_back))
    as (_ & _ & Hp & Hu & _ & He & _ & _ & Hf & _).
  - apply run_steps. vm_compute. reflexivity.
  - repeat constructor.
  - vm_compute. reflexivity.
  - split; [exact He|]. split; [exact Hp|]. split; [exact Hu|exact Hf].
Defined.

(** The viewer's pick, claimed, its worker started. *)
Definition picks : list RouteEvent :=
  [Ev_queue Quality_Original on_hls (RecoverOriginal Cause_ManualOriginal) true; Ev_claim; Ev_begin_flight 1].
Definition picked : PlayerControl * option ClaimedRouteAction :=
  Eval vm_compute in default (PLAYER_CONTROL, None) (run_claims PLAYER_CONTROL None picks).

Lemma an_app_switch_gives_the_pick_back_witness :
  pc_phase (fst picked) = Applying 1 /\ pc_pending_user (fst picked) = None
  /\ exists a, fst (claim_route_action (snd (begin_engine_teardown true (fst picked)))) = Some a
       /\ cl_intent a = Intent_User (RecoverOriginal Cause_ManualOriginal) /\ cl_displaced_pick a = true.
Proof.
  split; [reflexivity|]. split; [reflexivity|].
  destruct (an_app_switch_gives_the_pick_back picks (fst picked)
              (mk_claimed 1 (worker_ticket_of PLAYER_CONTROL) (Intent_User (RecoverOriginal Cause_ManualOriginal)) true None)
              (RecoverOriginal Cause_ManualOriginal)) as (_ & _ & Hd & _ & Ha).
  - apply (run_claims_history picks [] PLAYER_CONTROL None); [constructor|]. vm_compute. reflexivity.
  - reflexivity.
  - reflexivity.
  - reflexivity.
  - destruct (Ha eq_refl) as (a & H1 & H2 & H3). exists a. split; [exact H1|]. split; [exact H2|].
    rewrite H3, Hd. reflexivity.
Defined.

(** An automatic recovery the server refuses. *)
Definition asks_original : ClaimedRouteAction :=
  mk_claimed 1 (worker_ticket_of hls_route) (Intent_Automatic (HlsToOriginal (worker_ticket_of hls_route) 12000 0)) false None.
Definition applies_original : PlayerControl := hls_route <| pc_phase := Applying 1 |>.

Lemma a_refusal_leaves_the_route_witness :
  let '(owned, s, c) := finish_route_action on_original asks_original Apply_Rejected applies_original in
  owned = true /\ pc_phase c = Stable /\ route_projection s = route_projection on_hls
  /\ worker_ticket_of c = worker_ticket_of hls_route /\ pc_original_refused_on c = Some (lit "hls-1").
Proof.
  pose proof (a_refusal_leaves_the_route on_original asks_original Apply_Rejected applies_original) as Hr.
  destruct (finish_route_action _ _ _ _) as [[owned s] c]. destruct Hr as (Ho & _ & Ht); [discriminate|].
  assert (owned = true) as Hown by (apply Ho; reflexivity). destruct (Ht Hown) as (Hp & Hs & Hw & _ & _ & _ & Hn).
  split; [exact Hown|]. split; [exact Hp|]. split.
  - rewrite (Hs _ eq_refl). reflexivity.
  - split; [exact Hw|exact Hn].
Defined.

(** ** The recipes *)

Definition feed_first : list PolicyOp :=
  [P_plan FEED_ORIGINAL; P_admit (Feed, FEED_ORIGINAL); P_plan FEED_PMS_REMUX; P_admit (Feed, FEED_PMS_REMUX);
   P_admit (Feed, FEED_PMS_REMUX); P_rollback (Feed, FEED_ORIGINAL); P_rollback (Feed, FEED_PMS_REMUX);
   P_qualify (Uri, URI_PMS_HLS) Qualified; P_qualify (Feed, FEED_PMS_REMUX) Refused; P_admit (Uri, URI_PMS_HLS);
   P_plan FEED_PMS_HLS; P_admit (Feed, FEED_PMS_HLS)].

Fixpoint run_episode (p : BackendPolicy) (log : list Opened) (ops : list PolicyOp) :
    BackendPolicy * list Opened :=
  match ops with
  | [] => (p, log)
  | op :: ops => run_episode (snd (policy_step p op)) (log ++ opened_by p op) ops
  end.

Lemma run_episode_spec p0 ops : forall before p log, episode p0 before p log ->
  let '(p', log') := run_episode p log ops in episode p0 (before ++ ops) p' log'.
Proof.
  induction ops as [|op ops IH]; intros before p log He; cbn; [by rewrite app_nil_r|].
  rewrite cons_middle, app_assoc. apply IH. by constructor.
Qed.

Definition request_offers : list Offer := bp_offers (for_request false).
Definition feed_episode : BackendPolicy * list Opened :=
  Eval vm_compute in run_episode (for_request false) [] feed_first.

Lemma a_recovery_episode_is_finite_witness :
  snd feed_episode = [As_new (Feed, FEED_ORIGINAL); As_new (Feed, FEED_PMS_REMUX);
                      As_rollback (Feed, FEED_ORIGINAL); As_new (Uri, URI_PMS_HLS)]
  /\ (handoffs (recipes (snd feed_episode)) <= 1)%nat
  /\ (length (candidates (snd feed_episode)) <= length request_offers)%nat
  /\ can_revisit (fst feed_episode) (Feed, FEED_PMS_REMUX) = false
  /\ may_open [As_new (Feed, FEED_ORIGINAL); As_new (Feed, FEED_PMS_REMUX)] (As_rollback (Feed, FEED_ORIGINAL)).
Proof.
  split; [reflexivity|].
  destruct (a_recovery_episode_is_finite request_offers false feed_first (fst feed_episode) (snd feed_episode))
    as (_ & Hl & Hh & _ & _ & _ & Hv & Ho).
  - exact (run_episode_spec (for_request false) feed_first [] (for_request false) [] (episode_start _)).
  - split; [exact Hh|]. split; [exact Hl|]. split.
    + apply not_true_iff_false. intros [_ Hb]%Hv. discriminate.
    + exact (Ho [As_new (Feed, FEED_ORIGINAL); As_new (Feed, FEED_PMS_REMUX)] _ [As_new (Uri, URI_PMS_HLS)] eq_refl).
Defined.

Definition feed_source : FeedOffers := mk_feed_offers true false true true None None NewCandidate None.
Definition planned_source : FeedOffers :=
  Eval vm_compute in snd (qualify_resolved_feed_offer FEED_ORIGINAL NewCandidate feed_source).

Lemma an_allowed_start_is_admitted_witness :
  let '(ok, s) := backend_offer_admitted (Feed, FEED_ORIGINAL) planned_source in
  ok = true /\ fo_admitted s = Some FEED_ORIGINAL /\ backend_offer_admitted (Feed, FEED_ORIGINAL) s = (true, s).
Proof.
  pose proof (an_allowed_start_is_admitted planned_source FEED_ORIGINAL) as Ha.
  destruct (backend_offer_admitted _ planned_source) as [ok s]. destruct Ha as (Hok & Hs & _ & _ & Hre).
  - reflexivity.
  - reflexivity.
  - split; [exact Hok|]. split; [exact Hs|exact Hre].
Defined.

(** ** Flights and encoders *)

Fixpoint run_flights (c : PlayerControl) (slot : option Landing) (posted installed discarded : list Landing)
    (evs : list FlightEvent) : option (FlightStep * list Landing) :=
  match evs with
  | [] => Some (mk_flight_step c slot installed discarded, posted)
  | ev :: evs => st ← flight_step c slot ev;
      run_flights (fs_control st) (fs_slot st) (posted ++ posted_by ev) (installed ++ fs_installed st)
        (discarded ++ fs_discarded st) evs
  end.

Lemma run_flights_history evs : forall c slot posted installed discarded out,
  flight_history c slot posted installed discarded -> run_flights c slot posted installed discarded evs = Some out ->
  flight_history (fs_control (fst out)) (fs_slot (fst out)) (snd out) (fs_installed (fst out)) (fs_discarded (fst out)).
Proof.
  induction evs as [|ev evs IH]; intros c slot posted installed discarded out Hh; cbn; [by intros [= <-]|].
  intros (st & Hs & Hr)%bind_Some. eapply IH; [|exact Hr]. by econstructor.
Qed.

Definition rebuilt (serial : Z) (session : string) : Landing :=
  mk_landing (Owner_Start serial) 0 0 (Result_Rebase (Some (lit session))).

(** A seek's rebuild lands after a suspend; the next one is taken; a third is posted and waits. *)
Definition two_flights : list FlightEvent :=
  [Fl_route Ev_flight_start; Fl_route (Ev_begin_flight 1); Fl_spawn true 1; Fl_teardown true; Fl_post (rebuilt 1 "a"); Fl_reap;
   Fl_route Ev_flight_start; Fl_route (Ev_begin_flight 2); Fl_post (rebuilt 2 "b"); Fl_drain true; Fl_drain false;
   Fl_post (rebuilt 2 "c")].
Definition flights : FlightStep * list Landing :=
  Eval vm_compute in default (mk_flight_step PLAYER_CONTROL None [] [], [])
                       (run_flights PLAYER_CONTROL None [] [] [] two_flights).

Lemma every_landing_ends_once_witness :
  fs_installed (fst flights) = [rebuilt 2 "b"] /\ fs_discarded (fst flights) = [rebuilt 1 "a"]
  /\ snd flights ≡ₚ fs_installed (fst flights) ++ fs_discarded (fst flights) ++ option_list (fs_slot (fst flights))
  /\ exists st, flight_step (fs_control (fst flights)) (fs_slot (fst flights)) Fl_reap = Some st
       /\ fs_discarded st = [rebuilt 2 "c"].
Proof.
  split; [reflexivity|]. split; [reflexivity|].
  destruct (every_landing_ends_once (fs_control (fst flights)) (fs_slot (fst flights)) (snd flights)
              (fs_installed (fst flights)) (fs_discarded (fst flights))) as (Hp & _ & Hr).
  - apply (run_flights_history two_flights PLAYER_CONTROL None [] [] []); [constructor|]. vm_compute. reflexivity.
  - split; [exact Hp|]. destruct (Hr (rebuilt 2 "c")) as (st & Hst & _ & Hd); [reflexivity|reflexivity|].
    exists st. split; [exact Hst|exact Hd].
Defined.

(** An encoder remembered, seen to be gone by one check and reconciled by the next. *)
Definition checked : EncoderCleanupCheck := mk_check 3 (lit "e1") true false.
Definition checks : list CleanupEvent :=
  [Cu_remember 3 (lit "e1"); Cu_take 3; Cu_finish checked (Some false) (Some true) (Some false); Cu_take 3].
Definition rechecked : EncoderCleanupCheck := mk_check 3 (lit "e1") false true.
Definition owed : Cleanup := mk_cleanup_state [mk_cleanup 3 (lit "e1") true false true] [rechecked] [(3, lit "e1")].

Lemma owed_history : cleanup_history checks owed.
Proof.
  apply (cleanup_next (firstn 3 checks)
    (mk_cleanup_state [mk_cleanup 3 (lit "e1") false false true] [] [(3, lit "e1")]) (Cu_take 3));
    [|exact (step_take [mk_cleanup 3 (lit "e1") false false true] [] [(3, lit "e1")] 3)].
  apply (cleanup_next (firstn 2 checks) (mk_cleanup_state [mk_cleanup 3 (lit "e1") true true false] [checked] [])
    (Cu_finish checked (Some false) (Some true) (Some false)));
    [|exact (step_finish [mk_cleanup 3 (lit "e1") true true false] [] checked [] [] (Some false) (Some true) (Some false))].
  apply (cleanup_next (firstn 1 checks) (mk_cleanup_state [mk_cleanup 3 (lit "e1") false true false] [] []) (Cu_take 3));
    [|exact (step_take [mk_cleanup 3 (lit "e1") false true false] [] [] 3)].
  apply (cleanup_next [] (mk_cleanup_state [] [] []) (Cu_remember 3 (lit "e1"))); [constructor|].
  exact (step_remember [] [] [] 3 (lit "e1")).
Qed.

Lemma an_encoder_is_owed_until_reconciled_witness :
  exists k present stop, Cu_finish rechecked (Some false) None (Some true) = Cu_finish k present stop (Some true)
    /\ check_key k = (3, lit "e1") /\ (present = Some false \/ (3, lit "e1") ∈ cl_gone owed).
Proof.
  destruct (an_encoder_is_owed_until_reconciled checks owed owed_history) as (_ & _ & _ & Hl).
  apply (Hl _ (mk_cleanup_state [] [] [(3, lit "e1"); (3, lit "e1")])).
  - exact (step_finish (cl_ledger owed) [] rechecked [] (cl_gone owed) (Some false) None (Some true)).
  - apply list_elem_of_singleton. reflexivity.
  - apply not_elem_of_nil.
Defined.
