(* ===== verification/ShelfWitnesses.v ===== *)
(** * Shelves: the properties at a listing

    Forty items, every seventh of a hidden section and every fifth without a card.  Two were put in
    before the window was read to the twenty-sixth. *)

From stdpp Require Import list gmap.
From S2P Require Import Prelude Bytes ShelfWindow ShelfReading ShelfAsk ShelfLedger ShelfKeys ShelfLedgers ShelfRow ShelfPlace ShelfRows ShelfHubs.

#[local] Open Scope Z_scope.

Definition forty_items : list Metadata :=
  (fun i => mk_metadata [Z.of_nat i] (if (i mod 5 =? 3)%nat then None else Some (mk_movie [Z.of_nat i] (if (i mod 7 =? 6)%nat then 2 else 1))))
    <$> seq 0 40.

Definition forty_pages : Z -> Z -> Reading unit MediaContainer := fun start count s =>
  (Answered (mk_container start 40 (piece forty_items start count)), s).

Lemma forty_items_ok : listing_ok forty_items.
Proof.
  constructor.
  - apply (bool_decide_unpack _). by vm_compute.
  - intros m c (i & -> & _)%list_elem_of_fmap. cbn [card_of rating_key]. destruct (i mod 5 =? 3)%nat; [done|]. by intros [= <-].
  - by vm_compute.
Qed.

Lemma forty_pages_serve : serves forty_items forty_pages.
Proof. intros start count s _ _. exists 40, s. split; [by right|reflexivity]. Qed.

(** The window was read at 6..26 of a listing that now has them at 8..28; section 2 was hidden since. *)
Definition forward_ask : Ask := mk_ask 26 false [2].
Definition old_window : list Row * PageInfo :=
  (shift_rows (- 2) (slice forty_items [] 8 28), mk_info (8 - 2) (28 - 2) 38 true false).

Lemma the_window_is_the_listing_witness :
  ask_start forward_ask = 26
  /\ exists rows now s', fetch_window forty_pages forward_ask (Some old_window) 0 tt = (Answered (rows, now), s')
       /\ ((rows, now) = (fst old_window, (snd old_window) <| pi_unstable := true |>) /\ ~ (-12 <= 2 <= 12)
           \/ reads_on forty_items forward_ask 8 28 0 rows now).
Proof.
  split; [reflexivity|].
  apply (the_window_is_the_listing forty_items forty_pages forward_ask [] 2 8 28 38 true false 0 tt);
    [exact forty_items_ok|exact forty_pages_serve|done|lia|by vm_compute|lia|lia|reflexivity|done|].
  vm_compute. done.
Defined.

(** What it answers: the half that stays, with what follows to the end of the listing. *)
Example the_forty_items_shown : exists rows, fetch_window forty_pages forward_ask (Some old_window) 0 tt
  = (Answered (rows, mk_info 11 40 40 false false), tt)
  /\ (fst <$> rows) = [11; 12; 14; 15; 16; 17; 19; 21; 22; 24; 25; 26; 29; 30; 31; 32; 35; 36; 37; 39].
Proof. eexists. split; vm_compute; reflexivity. Qed.

(** ** The ledger *)

Definition card_row (n : Z) : Row := (0, mk_movie (show n) 1).
Definition ledger_of (keys : list Z) : Ledger := from_rows (card_row <$> keys) 0.

(** A window that reads between 11, 12 and 14 what the ledger has not shown yet. *)
Lemma a_noted_window_is_in_order_witness :
  let lg := ledger_of [10; 11; 12; 13; 14; 15] in let rows := card_row <$> [11; 12; 20; 21; 14] in
  NoDup (row_key <$> rows) /\ contradicts rows lg = false /\
  exists lg', note rows lg = Some lg' /\ keys_ok (lg_keys lg')
    /\ ks_list (lg_keys lg) `sublist_of` ks_list (lg_keys lg')
    /\ (forall k, k ∈ ks_list (lg_keys lg') <-> k ∈ ks_list (lg_keys lg) \/ k ∈ row_key <$> rows)
    /\ (NoDup (row_key <$> rows) -> contradicts rows lg = false ->
         noted_beside (ks_list (lg_keys lg)) (row_key <$> rows) (ks_list (lg_keys lg'))).
Proof.
  cbv zeta. split; [apply (bool_decide_unpack _); by vm_compute|]. split; [by vm_compute|].
  apply (a_noted_window_is_in_order (card_row <$> [11; 12; 20; 21; 14]) (ledger_of [10; 11; 12; 13; 14; 15])). apply keys_collect_ok.
Defined.

Definition noted (held rows : list Z) : option (list LedgerKey) :=
  ks_list ∘ lg_keys <$> note (card_row <$> rows) (ledger_of held).

Example the_windows_noted :
  noted [10; 11; 12; 13; 14; 15] [11; 12; 20; 21; 14] = Some (Num <$> [10; 11; 12; 20; 21; 13; 14; 15])
  /\ noted [10; 11; 12; 13; 14; 15] [40; 13; 41; 11; 42] = Some (Num <$> [10; 11; 42; 12; 40; 13; 41; 14; 15])
  /\ noted [10; 11; 12] [7; 8; 7; 11] = Some (Num <$> [10; 8; 7; 11; 12])
  /\ noted [10; 11; 12] [7; 7; 8] = Some (Num <$> [10; 11; 12; 7; 8]).
Proof. by vm_compute. Qed.

(** ** A row whose server deals its listing anew at every request *)

Definition dealt (n : nat) : list Metadata := (fun i => mk_metadata (show (Z.of_nat i)) (Some (mk_movie (show (Z.of_nat i)) 1)))
  <$> (rotate (17 * n) (seq 0 60)).
Definition dealt_pages : Z -> Z -> Reading nat MediaContainer := fun start count n =>
  (Answered (mk_container start 60 (piece (dealt n) start count)), S n).
Definition by_key : list bytes -> Reading nat MediaContainer := fun keys n =>
  (Answered (mk_container 0 0 ((fun key => mk_metadata key (Some (mk_movie key 1))) <$> keys)), n).

Definition dealt_window : list Row * PageInfo :=
  ((fun i : nat => (Z.of_nat i, mk_movie (show (Z.of_nat i)) 1)) <$> seq 0 24, mk_info 0 24 60 true false).

Definition by_key_still : list bytes -> Reading unit MediaContainer := fun keys s =>
  (Answered (mk_container 0 0 ((fun key => mk_metadata key (Some (mk_movie key 1))) <$> keys)), s).

(** The old window of the forty items is asked on: the row stays on its listing, which holds. *)
Definition forty_row : RowState := Eval vm_compute in
  match fst (read_row forty_pages by_key_still forward_ask (Some old_window) row_default 0 tt) with
  | Answered (_, row) => row
  | _ => row_default
  end.
Definition forty_rows : list Row * PageInfo := Eval vm_compute in
  match fst (read_row forty_pages by_key_still forward_ask (Some old_window) row_default 0 tt) with
  | Answered (window, _) => window
  | _ => ([], info_default)
  end.

Lemma a_row_never_loses_its_place_witness :
  (current_ok (Some dealt_window) /\ yields (read_row dealt_pages by_key (mk_ask 24 false []) (Some dealt_window) row_default 0)
    (fun '((rows, now), row') => left_ok (mk_ask 24 false []) (Some dealt_window) row_default ((rows, now), row')
       /\ current_ok (Some (rows, now)) /\ row_state_ok row'))
  /\ ledger_active forty_row = false
  /\ exists p wp ignored, probe forty_pages forward_ask (Some old_window) Head (tt, false) = (Answered p, wp)
       /\ stays forty_pages by_key_still (mk_ask (pr_start p) false [2]) p row_default (fst forty_rows) wp (tt, ignored).
Proof.
  assert (current_ok (Some dealt_window)) as Hc.
  { split; [|by vm_compute]. apply Forall_fmap, Forall_true. intros i. cbn. lia. }
  assert (current_ok (Some old_window)) as Ho.
  { split; [|by vm_compute]. apply Forall_forall. intros r Hr%(list_elem_of_fmap_2 fst). revert Hr.
    generalize (fst r). apply Forall_forall. by apply (bool_decide_unpack (Forall (fun n => 0 <= n) _)); vm_compute. }
  split; [split; [exact Hc|]|split; [reflexivity|]].
  - apply (a_row_never_loses_its_place (mk_ask 24 false []) (Some dealt_window) row_default 0 dealt_pages by_key Hc);
      [done|done|by intros start size n|by intros keys n].
  - destruct (a_row_never_loses_its_place forward_ask (Some old_window) row_default 0 forty_pages by_key_still Ho)
      as [_ Hs]; [done|done|by intros start size n|by intros keys n|].
    apply (Hs tt (fst forty_rows) (snd forty_rows) forty_row tt); [vm_compute; reflexivity|reflexivity].
Defined.

(** The edge is not where it was: the row moves onto its ledger and reads on with cards it has not shown. *)
Example the_dealt_row_shown : exists rows now row s',
  read_row dealt_pages by_key (mk_ask 24 false []) (Some dealt_window) row_default 0 1%nat = (Answered (rows, now, row), s')
  /\ ledger_active row = true /\ len rows = 24 /\ pi_offset now = 12 /\ pi_end now = 36.
Proof. eexists _, _, _, _. split; [vm_compute; reflexivity|]. by vm_compute. Qed.

(** ** Forty hubs *)

Definition forty_hubs : list Hub := (fun i => mk_hub [Z.of_nat i] []) <$> seq 0 40.
Definition hub_pages : option PageReq -> Reading unit HubPage := fun req s =>
  (Answered (match req with
             | Some r => mk_hub_page (pq_start r) 0 (piece forty_hubs (pq_start r) (pq_size r))
             | None => mk_hub_page 0 0 forty_hubs
             end), s).

Lemma a_hub_list_is_read_once_witness :
  NoDup (pair_of <$> forty_hubs) /\ exists parts,
    fst (read_hub_list hub_pages [] (fun out hubs => out ++ hubs) 50 tt) = Answered (fold_left (fun out hubs => out ++ hubs) parts [])
    /\ concat parts = forty_hubs /\ Forall (fun c => len c <= HUB_WINDOW) parts.
Proof.
  assert (NoDup (pair_of <$> forty_hubs)) as Hn by (apply (bool_decide_unpack _); by vm_compute).
  split; [exact Hn|]. apply (a_hub_list_is_read_once hub_pages [] (fun out hubs => out ++ hubs) forty_hubs (fun _ => True) tt 50);
    [|exact Hn|by vm_compute|done|apply Nat.ltb_lt; by vm_compute].
  intros start s _ Hs. eexists _, s. split; [reflexivity|]. split; [done|]. left. split; [done|]. exists HUB_WINDOW.
  split; [done|]. split; [by vm_compute|]. right. by split.
Defined.
